(* ===== verification/_CoqProject ===== *)
-Q . S2P
Prelude.v
Machine.v
KString.v
Printf.v
Spinlock.v
Kalloc.v
Vm.v
VmTree.v
VmSpec.v
VmUser.v
VmCopy.v
VmThms.v
VmKernel.v
Proc.v
Sched.v
SchedSpec.v
SchedThms.v
ProcLife.v
ProcSpec.v
ProcThms.v
Syscall.v
Trap.v
TrapThms.v
Pipe.v
Bio.v
BioSpec.v
Log.v
LogSpec.v
LogThms.v
Console.v
ConsoleSpec.v
Fs.v
FsPath.v
FsInode.v
FsSpec.v
FsThms.v
FsFile.v
FsRw.v
FsRwThms.v
FsDir.v
File.v
SysFile.v
FileThms.v
Umalloc.v
UmallocSpec.v
UmallocThms.v
Ulib.v
Grep.v
Textutils.v
Ls.v
Sh.v
ShSpec.v
ShTotal.v
USys.v
ShRun.v
ShRunSpec.v
ShRunThms.v
UProgs.v
Exec.v
ExecThms.v
FsRun.v
Calls.v
CallsThms.v
Virtio.v
VirtioSpec.v
VirtioInv.v
VirtioDrv.v
VirtioSim.v
VirtioThms.v
VirtioInit.v
Mkfs.v
MkfsSpec.v
MkfsFile.v
MkfsImg.v
MkfsThms.v
MkfsBuild.v
Boot.v
BootMain.v
Asm.v
AsmThms.v
