(* ===== verification/Prelude.v ===== *)
(** * Verification of the xv6 kernel with MLFQ, lottery and round-robin
      scheduling, alarms and system call counting

    The program is the RISC-V teaching kernel under [src/initial-xv6/src],
    extended with three compile-time scheduling policies, [sigalarm] and
    [sigreturn], [getSysCount], [settickets], [waitx] and a log of queue
    changes. Its kernel code is translated function by function.

    ** How code is modelled

    A routine over a state [S] is a value of the monad [M S A] below: it
    returns a result and a state, panics, goes to sleep, or exceeds the
    iteration bound of a loop. C integers are integers [Z] with the
    wrap-around of their width ([u8], [u32], [u64], [s32]); physical memory is
    a map of bytes with little-endian loads and stores (Machine.v). Loops over
    arrays are recursion on the list of indices; loops without such a bound
    take fuel, and the theorems show that the bound used suffices (a lookup
    in the buffer list needs 31 steps, a page range one step per page, a
    number at most 16 digits) or hold for every amount of fuel with which the
    code returns.

    ** Files and what they model

    - Prelude.v: the monad, loops, weakest preconditions, record update,
      machine integers and shared list lemmas.
    - Machine.v: [riscv.h], [memlayout.h], [param.h], memory.
    - KString.v, Printf.v: [string.c], [printf.c].
    - Spinlock.v: [spinlock.c], per CPU and interleaved across CPUs, and the
      class [LockSet] through which the other components take locks.
    - Kalloc.v: [kalloc.c]; the end of the kernel image is the class
      [KernelImage].
    - Vm.v: [vm.c] and the page-table routines of [proc.c]. VmTree.v, VmSpec.v
      and VmUser.v describe page tables as trees, VmCopy.v the user copies,
      VmThms.v has the theorems. VmKernel.v: the kernel's own page table.
    - Proc.v, Sched.v, ProcLife.v: [proc.c]. The file system is the class
      [FsOps], the code addresses the class [KernelText]; [swtch] is a
      parameter, the run of a process until it switches back. With a lock held
      interrupts are off, and [SIE] of the modelled [sstatus] is what
      [push_off] saved in [intena]. SchedSpec.v,
      SchedThms.v, ProcSpec.v and ProcThms.v have specifications and theorems;
      what [exit] relies on of the file system is the class [FsFrame], an
      instance of which is in CallsThms.v.
    - Syscall.v: [syscall.c], [sysproc.c]. Trap.v: [trap.c] and [forkret]; the
      devices are the class [Devices]. TrapThms.v: alarms; the calls that
      concern only the table of processes as a machine on that table.
    - Pipe.v: the ring of [pipe.c] with interleaved readers and writers, which
      can be killed at any turn of their loops.
    - Bio.v: [sleeplock.c] and [bio.c]. BioSpec.v: the cache as a map of
      blocks, a refinement, and the classes [BufOps] and [BufLaws] that state
      the contract for its clients.
    - Log.v: [log.c] over [BufOps]. LogSpec.v: the disk writes of a commit and
      of recovery. LogThms.v: crash atomicity, [log_write], [end_op].
    - Fs.v: [fs.c] over the log. FsPath.v: path names. FsInode.v: the inode
      in the bytes of a block. FsSpec.v: states inside a transaction as maps
      of blocks ([tx]), the bitmap. FsThms.v: the block allocator. FsFile.v:
      the block map of a file and [bmap]. FsRw.v: [readi], [writei],
      [iupdate]. FsRwThms.v: files as lists of bytes. FsDir.v: directories as maps.
    - Console.v: [console.c] and [uart.c] over the class of a UART device.
      ConsoleSpec.v: the line discipline as a function on typed characters.
    - File.v: [file.c], [pipealloc] and the calls of [sysfile.c] on file
      descriptors. SysFile.v: its calls on path names. FileThms.v:
      [filewrite] and [fileread].
    - Calls.v: the handlers of
      [sysfile.c] as [syscall] dispatches to them, with arguments from the
      trapframe and results in the memory of the process; it implements
      [FsOps] and [FileCalls] and passes the calls of [wakeup] on the log, on
      sleep locks, pipes and the console to the process table. A kill that
      comes while a call runs is a parameter, the turn of its loop that sees
      it. CallsThms.v: [write] and [read] of processes, every call by its
      number, and calls run from registers.
    - Exec.v: [exec.c], [elf.h] and [sys_exec]. ExecThms.v: the stack of the
      new program. FsRun.v: a session of file system
      calls on a small disk, and a program written to it and executed.
    - Virtio.v: [virtio_disk.c], cut where it sleeps, with the channels its
      callers sleep on, the calls of [wakeup] and the notification of the
      queue. VirtioSpec.v: what the
      virtio specification says of the device, driver and device interleaved,
      a disk without rings. VirtioInv.v, VirtioDrv.v: the invariant and the
      routines. VirtioSim.v: the simulation of each step. VirtioThms.v:
      refinement and progress. VirtioInit.v: start-up
      over the class of a device's registers.
    - Mkfs.v: [mkfs/mkfs.c]. MkfsSpec.v: the blocks of the files of an image.
      MkfsFile.v: [iappend] on lists of bytes. MkfsImg.v: inodes. MkfsThms.v:
      the whole run. MkfsBuild.v: the image as the kernel mounts it.
    - Umalloc.v, UmallocSpec.v, UmallocThms.v: [user/umalloc.c] on the bytes
      of a process.
    - Ulib.v: [user/ulib.c] and [user/printf.c].
    - Grep.v: matcher and line filter of [user/grep.c]. Textutils.v: its
      [main], [user/wc.c] and [user/cat.c]. Ls.v: [user/ls.c] and [stat].
    - Sh.v, ShSpec.v: lexer and parser of [user/sh.c] and its grammar.
      ShTotal.v: the parser on lines outside of the grammar.
    - USys.v: programs as trees of system calls, run on a table of open files;
      what the kernel answers is the record [env]. ShRun.v: [runcmd] and the
      command loop of [user/sh.c]. ShRunSpec.v: what a command should start
      and with which files. ShRunThms.v: sessions and pipelines. UProgs.v:
      [echo.c], [mkdir.c], [rm.c], [ln.c], [kill.c], [zombie.c], [syscount.c]
      and [init.c] of [user].
    - Boot.v: [start.c] and the control registers of [riscv.h]. BootMain.v:
      [plic.c] over the class [PlicDev], and [main.c] on several harts.
    - Asm.v: [entry.S], [swtch.S], [trampoline.S] and [kernelvec.S] as lists of
      instructions, and the instructions. AsmThms.v: context switches, user
      and kernel traps, the stack at entry, the timer.

    ** What the theorems show

    - Scheduling: which process an MLFQ round switches to, once and in which
      state, and what it does to every process's queue, slice and waiting count; the invariant of the queues;
      one turn per runnable process in a round of RR; lottery draws in
      proportion to tickets; when MLFQ stops scheduling.
    - Processes: exit, wakeup, kill; what system calls answer by number and
      how often parents are told that their children made them;
      alarms that resume the program where it was interrupted.
    - Memory: no page is allocated twice, mappings translate as asked, growth
      is all or nothing, loses no page and is undone by shrinking, user copies round-trip
      and stay within the process; the kernel's page table is the direct map
      with guarded stacks.
    - Locks and pipes: mutual exclusion for every interleaving; FIFO order, and
      no byte lost but the one of a failed copy to the reader.
    - Buffer cache: LRU replacement, refinement of a map of blocks.
    - Log: after a crash at any disk write and any number of interrupted
      recoveries the disk has all blocks of the transaction or none; what
      [log_write] records; a reservation that is one block short.
    - Files: [balloc] and [bfree] change one bit, [writei] overwrites and
      extends a list of bytes of which [readi] returns slices, through direct
      and indirect blocks, [end_op] leaves that list on disk, [ilock] reads
      what [iupdate] wrote, paths split into components; a
      directory is a map that [dirlink] extends and [dirlookup] reads;
      [filewrite] writes
      all of its bytes at the file's offset unless the disk is full; what
      one process writes from its memory another reads into its own.
    - Console: what [consoleread] returns is the edited line, for every
      sequence of typed characters.
    - Disk: for every device that follows the virtio specification and every
      interleaving, each call transfers its block once and returns after the
      transfer; as long as the device works on what it was notified of and
      nobody is killed, every call that sleeps is woken and returns. The two requests that eight descriptors
      allow are at most two turns of the handler's loop, which has fuel nine.
    - Image: what [mkfs] builds from files that fit satisfies the conditions
      on the disk from which the kernel's theorems on files start, and holds
      the files as given. Its loop has one turn of fuel per byte, more than
      the one per block it takes.
    - Exec: [argv] and its strings lie in the stack page of the new program,
      in order and aligned, or the call fails.
    - User programs: [malloc] never returns memory that is in use, the matcher
      of grep decides the language of the pattern, grep prints the matching
      lines, [wc] counts lines, words and bytes, [ls] lists the entries of a
      directory within its buffers, [init] starts nothing but the shell on
      the console.
    - Shell: every line of the grammar is parsed to its tree and every other
      line to an error, with fuel for four turns per byte; for each line typed
      the shell starts the processes that the command asks for, with their
      files redirected and connected, and no process of a pipeline keeps an
      end of the pipe that it does not use.
    - Boot: each hart enters [main] in supervisor mode with its timer armed;
      harts other than 0 wait for the initialisation; every hart reaches the
      scheduler and receives the interrupts of the UART and of the disk.
    - Assembly: a trap is invisible to the user program and an interrupt to
      the kernel code it interrupts, a switched-out process resumes where it
      was, and timer interrupts go on, one interval apart.

    ** Simplifications

    Each routine runs to its next sleep without interleaving except in
    Spinlock.v, Pipe.v, VirtioSpec.v and BootMain.v, where the steps of several
    CPUs, processes or the device are interleaved explicitly. A user program
    that makes system calls is a tree of processes; its processes do not
    interleave in it. Lock acquisition elsewhere is through [LockSet] or,
    inside a component's own lock, left out. For the buffer cache a disk
    transfer is one step; that the driver provides this is what VirtioThms.v
    shows. The theorems on files take a
    transaction with room for five log blocks per block written, which covers
    the four blocks that a chunk of [filewrite] touches. In Asm.v the translation
    of addresses and the C functions that are called are parameters; the
    theorems ask of them that the frame is mapped where it is saved and that
    the handler keeps to the calling convention.

    ** Not modelled

    [user/initcode.S] and the system call stubs that [user/usys.pl] generates.
    [kernel/ramdisk.c], which no rule builds. The test
    programs [usertests.c], [grind.c], [forktest.c], [stressfs.c],
    [alarmtest.c] and [schedulertest.c], which exercise the kernel and have no
    logic of their own. *)

From stdpp Require Export base tactics list numbers strings.
From Stdlib Require Export ZArith Lia.
From Stdlib Require Import Zquot.

#[global] Open Scope Z_scope.
#[global] Set Default Goal Selector "!".

(** ** Outcomes and the kernel monad *)

(** What a piece of kernel code does from a state: return, panic, go to sleep
    on a channel, or exceed the iteration bound given to a loop. *)
Inductive outcome (S A : Type) : Type :=
| Ret (a : A) (s : S)
| Panic (msg : string) (s : S)
| Sleeps (chan : Z) (s : S)
| NoFuel (s : S).
Arguments Ret {S A} a s.
Arguments Panic {S A} msg s.
Arguments Sleeps {S A} chan s.
Arguments NoFuel {S A} s.

Definition M (S A : Type) : Type := S → outcome S A.

Definition ret {S A} (a : A) : M S A := λ s, Ret a s.

Definition bind {S A B} (m : M S A) (k : A → M S B) : M S B := λ s,
  match m s with
  | Ret a s' => k a s'
  | Panic msg s' => Panic msg s'
  | Sleeps ch s' => Sleeps ch s'
  | NoFuel s' => NoFuel s'
  end.

Definition gets {S A} (f : S → A) : M S A := λ s, Ret (f s) s.
Definition modify {S} (f : S → S) : M S unit := λ s, Ret tt (f s).
Definition panic {S A} (msg : string) : M S A := λ s, Panic msg s.
Definition sleeps {S A} (chan : Z) : M S A := λ s, Sleeps chan s.

Declare Scope kernel_scope.
Delimit Scope kernel_scope with kernel.
Notation "'let!' x ':=' m 'in' k" := (bind m (λ x, k))
  (at level 10, x name, m at level 100, k at level 200,
   format "'[v' 'let!'  x  ':='  m  'in' '/' k ']'") : kernel_scope.
Notation "'do!' m 'in' k" := (bind m (λ _, k))
  (at level 10, m at level 100, k at level 200,
   format "'[v' 'do!'  m  'in' '/' k ']'") : kernel_scope.
#[global] Open Scope kernel_scope.

(** Run the code of a component whose state is a part of a larger state. *)
Definition lift {S T A} (get : S → T) (put : T → S → S) (m : M T A) : M S A :=
  λ s, match m (get s) with
       | Ret a t => Ret a (put t s)
       | Panic msg t => Panic msg (put t s)
       | Sleeps ch t => Sleeps ch (put t s)
       | NoFuel t => NoFuel (put t s)
       end.

(** [for x in l: body x]. *)
Fixpoint for_each {S A} (l : list A) (body : A → M S unit) : M S unit :=
  match l with
  | [] => ret tt
  | x :: l' => do! body x in for_each l' body
  end.

(** A [for] loop whose body may leave it, by [break] or [return], with a
    value. *)
Fixpoint for_until {S A R} (l : list A) (body : A → M S (option R))
    : M S (option R) :=
  match l with
  | [] => ret None
  | x :: l' =>
      let! r := body x in
      match r with
      | Some v => ret (Some v)
      | None => for_until l' body
      end
  end.

(** A [for] loop that updates a local variable. *)
Fixpoint for_fold {S A B} (l : list A) (body : B → A → M S B) (b : B) : M S B :=
  match l with
  | [] => ret b
  | x :: l' => let! b' := body b x in for_fold l' body b'
  end.

(** A loop with local variables [L]: the body either goes round again with
    new locals or leaves with a result. [fuel] bounds the iterations. *)
Fixpoint loop {S L R} (fuel : nat) (body : L → M S (L + R)) (l : L) : M S R :=
  match fuel with
  | O => λ s, NoFuel s
  | Datatypes.S fuel' =>
      let! r := body l in
      match r with
      | inl l' => loop fuel' body l'
      | inr v => ret v
      end
  end.

(** ** Weakest preconditions (total: the code returns) *)

Definition wp {S A} (m : M S A) (Q : A → S → Prop) (s : S) : Prop :=
  match m s with Ret a s' => Q a s' | _ => False end.

Section wp_rules.
Context {S : Type}.

Lemma wp_ret {A} (a : A) (Q : A → S → Prop) s : Q a s → wp (ret a) Q s.
Proof. done. Qed.

Lemma wp_gets {A} (f : S → A) (Q : A → S → Prop) s : Q (f s) s → wp (gets f) Q s.
Proof. done. Qed.

Lemma wp_modify f (Q : unit → S → Prop) s : Q tt (f s) → wp (modify f) Q s.
Proof. done. Qed.

Lemma wp_bind {A B} (m : M S A) (k : A → M S B) Q s :
  wp m (λ a s', wp (k a) Q s') s → wp (bind m k) Q s.
Proof. unfold wp, bind. by destruct (m s). Qed.

Lemma wp_mono {A} (m : M S A) (Q R : A → S → Prop) s :
  (∀ a s', Q a s' → R a s') → wp m Q s → wp m R s.
Proof. unfold wp. destruct (m s); naive_solver. Qed.

Lemma wp_elim {A} (m : M S A) Q s :
  wp m Q s → ∃ a s', m s = Ret a s' ∧ Q a s'.
Proof. unfold wp. destruct (m s) eqn:E; naive_solver. Qed.

Lemma wp_intro {A} (m : M S A) (Q : A → S → Prop) s a s' :
  m s = Ret a s' → Q a s' → wp m Q s.
Proof. unfold wp. by intros ->. Qed.

Lemma wp_for_each {A} (I : list A → S → Prop) (l : list A) body s (Q : unit → S → Prop) :
  (∀ x l' s', I (x :: l') s' → wp (body x) (λ _ s'', I l' s'') s') →
  I l s → (∀ s', I [] s' → Q tt s') → wp (for_each l body) Q s.
Proof.
  intros Hbody Hs HQ. revert s Hs.
  induction l as [|x l IH]; intros s Hs; simpl; [by apply wp_ret, HQ|].
  apply wp_bind. eapply wp_mono; [|by apply Hbody]. auto.
Qed.

(** The whole-computation view of [bind]: what a returning sequence did. *)
Lemma bind_Ret {A B} (m : M S A) (k : A → M S B) s b s'' :
  bind m k s = Ret b s'' → ∃ a s', m s = Ret a s' ∧ k a s' = Ret b s''.
Proof. unfold bind. destruct (m s) eqn:E; naive_solver. Qed.

Lemma bind_eq {A B} (m : M S A) (k : A → M S B) s a s' :
  m s = Ret a s' → bind m k s = k a s'.
Proof. unfold bind. by intros ->. Qed.

Lemma bind_assoc {A B C} (m : M S A) (f : A → M S B) (g : B → M S C) s :
  bind (bind m f) g s = bind m (λ a, bind (f a) g) s.
Proof. unfold bind. by destruct (m s). Qed.
Lemma bind_ext {A B} (m : M S A) (f g : A → M S B) s :
  (∀ a s', f a s' = g a s') → bind m f s = bind m g s.
Proof. unfold bind. intros H. by destruct (m s). Qed.

Lemma for_each_app {A} (l1 l2 : list A) (body : A → M S unit) s :
  for_each (l1 ++ l2) body s = bind (for_each l1 body) (λ _, for_each l2 body) s.
Proof.
  revert s. induction l1 as [|x l1 IH]; intros s; simpl; [done|].
  unfold bind in *. destruct (body x s); [apply IH|done..].
Qed.

Lemma Ret_inj {A} (a b : A) (s s' : S) : Ret a s = Ret b s' → a = b ∧ s = s'.
Proof. by intros [=]. Qed.

Lemma lift_Ret {T A} (get : S → T) put (m : M T A) s a t :
  m (get s) = Ret a t → lift get put m s = Ret a (put t s).
Proof. unfold lift. by intros ->. Qed.
Lemma wp_lift {T A} (get : S → T) put (m : M T A) (Q : A → S → Prop) s :
  wp m (λ a t, Q a (put t s)) (get s) → wp (lift get put m) Q s.
Proof. unfold wp, lift. by destruct (m (get s)). Qed.
End wp_rules.

(** One step of symbolic execution of straight-line kernel code. *)
Ltac wp_step :=
  lazymatch goal with
  | |- wp (bind _ _) _ _ => apply wp_bind
  | |- wp (ret _) _ _ => apply wp_ret
  | |- wp (gets _) _ _ => apply wp_gets
  | |- wp (modify _) _ _ => apply wp_modify
  end.
Ltac wp_steps := repeat (wp_step; cbv beta).

(** [lia] with quotients and remainders by constants. *)
Ltac dlia := Z.div_mod_to_equations; lia.

(** ** Record update *)

(** [eta] rebuilds a record from its projections; an update replaces one of
    them. *)
Class Settable (R : Type) := eta : R → R.

Class Setter {R T : Type} (proj : R → T) := upd : (T → T) → R → R.
Arguments upd {R T} proj {_} _ _.

Ltac derive_setter :=
  lazymatch goal with
  | |- @Setter ?R ?T ?proj =>
      let h := constr:(_ : Settable R) in
      let e := eval hnf in h in
      let e := eval pattern proj in e in
      lazymatch e with
      | ?F proj =>
          let r := eval cbv beta in
            (λ (g : T → T) (r : R), F (λ r', g (proj r')) r) in
          exact r
      end
  end.
#[export] Hint Extern 1 (Setter _) => derive_setter : typeclass_instances.

(** Expose the constructor behind updates. *)
Ltac simpl_upd := cbv [upd] in *; cbn beta in *.

Notation "r '<|' f ':=' v '|>'" := (upd f (λ _, v) r)
  (at level 1, left associativity, v at level 200,
   format "r  '<|'  f  ':='  v  '|>'") : kernel_scope.

(** ** Machine integers *)

Definition u8 (z : Z) : Z := z mod 2 ^ 8.
Definition u16 (z : Z) : Z := z mod 2 ^ 16.
Definition u32 (z : Z) : Z := z mod 2 ^ 32.
Definition u64 (z : Z) : Z := z mod 2 ^ 64.
Definition s32 (z : Z) : Z := (z + 2 ^ 31) mod 2 ^ 32 - 2 ^ 31.
Definition s16 (z : Z) : Z := (z + 2 ^ 15) mod 2 ^ 16 - 2 ^ 15.

(** RISC-V [remu]/[rem]: the remainder by zero is the dividend. *)
Definition remu (a b : Z) : Z := if b =? 0 then a else a mod b.
Definition rem (a b : Z) : Z := if b =? 0 then a else Z.rem a b.

Lemma u64_small z : 0 ≤ z < 2 ^ 64 → u64 z = z.
Proof. apply Z.mod_small. Qed.
Lemma u32_small z : 0 ≤ z < 2 ^ 32 → u32 z = z.
Proof. apply Z.mod_small. Qed.
Lemma u8_small z : 0 ≤ z < 2 ^ 8 → u8 z = z.
Proof. apply Z.mod_small. Qed.
Lemma u64_range z : 0 ≤ u64 z < 2 ^ 64.
Proof. apply Z.mod_pos_bound. lia. Qed.
Lemma u32_range z : 0 ≤ u32 z < 2 ^ 32.
Proof. apply Z.mod_pos_bound. lia. Qed.
Lemma u8_range z : 0 ≤ u8 z < 2 ^ 8.
Proof. apply Z.mod_pos_bound. lia. Qed.
Lemma s32_small z : - 2 ^ 31 ≤ z < 2 ^ 31 → s32 z = z.
Proof. intros. unfold s32. rewrite Z.mod_small; lia. Qed.

Create HintDb machine.
#[export] Hint Resolve u64_small u32_small u8_small s32_small : machine.
#[export] Hint Resolve u64_range u32_range u8_range : machine.

(** ** Lists *)

Lemma list_filter_all {A} (P : A → Prop) `{∀ x, Decision (P x)} (l : list A) :
  (∀ x, x ∈ l → P x) → filter P l = l.
Proof.
  induction l as [|x l IH]; intros Hl; [done|].
  rewrite filter_cons_True by (apply Hl; by left).
  f_equal. apply IH. intros y Hy. apply Hl. by right.
Qed.

Lemma filter_agree {A} (P Q : A → Prop) `{∀ x, Decision (P x)} `{∀ x, Decision (Q x)} (l : list A) :
  (∀ x, x ∈ l → P x ↔ Q x) → filter P l = filter Q l.
Proof.
  induction l as [|x l IH]; intros Hl; [done|].
  rewrite !filter_cons. rewrite IH by (intros y Hy; apply Hl; by right).
  pose proof (Hl x ltac:(by left)). do 2 case_decide; tauto.
Qed.

Lemma filter_nothing {A} (P : A → Prop) `{∀ x, Decision (P x)} (l : list A) :
  (∀ x, x ∈ l → ¬ P x) → filter P l = [].
Proof.
  induction l as [|x l IH]; intros Hl; [done|].
  rewrite filter_cons_False by (apply Hl; by left). apply IH. intros y Hy. apply Hl. by right.
Qed.

Lemma find_ext_in {A} (f g : A → bool) (l : list A) :
  (∀ x, x ∈ l → f x = g x) → find f l = find g l.
Proof.
  induction l as [|x l IH]; intros H; simpl; [done|]. rewrite H by (by left).
  rewrite IH; [done|]. intros y Hy. apply H. by right.
Qed.
