(* ===== verification/Machine.v ===== *)
(** * The machine seen by the kernel

    The constants and address macros of [riscv.h], [memlayout.h] and
    [param.h], and physical memory as a map from addresses to bytes with the
    little-endian loads and stores the C code compiles to. The kernel runs
    with a direct map, so a kernel pointer into RAM is a physical address. *)

From stdpp Require Export gmap.
From S2P Require Import Prelude.
#[local] Open Scope Z_scope.

Create HintDb consts.
Ltac zlia := autounfold with consts in *; lia.

(** ** param.h, riscv.h, memlayout.h *)

Definition NPROC : Z := 64.
Definition NCPU : Z := 8.
Definition NOFILE : Z := 16.
Definition NFILE : Z := 100.
Definition NINODE : Z := 50.
Definition NDEV : Z := 10.
Definition ROOTDEV : Z := 1.
Definition MAXARG : Z := 32.
Definition MAXOPBLOCKS : Z := 10.
Definition LOGSIZE : Z := MAXOPBLOCKS * 3.
Definition NBUF : Z := MAXOPBLOCKS * 3.
Definition FSSIZE : Z := 2000.
Definition MAXPATH : Z := 128.

Definition PGSIZE : Z := 4096.
Definition PGSHIFT : Z := 12.
Definition PGROUNDUP (sz : Z) : Z := Z.land (u64 (u64 (sz + PGSIZE) - 1)) (u64 (Z.lnot (PGSIZE - 1))).
Definition PGROUNDDOWN (a : Z) : Z := Z.land a (u64 (Z.lnot (PGSIZE - 1))).

Definition PTE_V : Z := Z.shiftl 1 0.
Definition PTE_R : Z := Z.shiftl 1 1.
Definition PTE_W : Z := Z.shiftl 1 2.
Definition PTE_X : Z := Z.shiftl 1 3.
Definition PTE_U : Z := Z.shiftl 1 4.

Definition PA2PTE (pa : Z) : Z := u64 (Z.shiftl (Z.shiftr pa 12) 10).
Definition PTE2PA (pte : Z) : Z := u64 (Z.shiftl (Z.shiftr pte 10) 12).
Definition PTE_FLAGS (pte : Z) : Z := Z.land pte 0x3FF.

Definition PXMASK : Z := 0x1FF.
Definition PXSHIFT (level : Z) : Z := PGSHIFT + 9 * level.
Definition PX (level va : Z) : Z := Z.land (Z.shiftr va (PXSHIFT level)) PXMASK.

Definition MAXVA : Z := Z.shiftl 1 (9 + 9 + 9 + 12 - 1).

Definition KERNBASE : Z := 0x80000000.
Definition PHYSTOP : Z := KERNBASE + 128 * 1024 * 1024.
Definition UART0 : Z := 0x10000000.
Definition UART0_IRQ : Z := 10.
Definition VIRTIO0 : Z := 0x10001000.
Definition VIRTIO0_IRQ : Z := 1.
Definition PLIC : Z := 0x0c000000.
Definition TRAMPOLINE : Z := MAXVA - PGSIZE.
Definition KSTACK (p : Z) : Z := TRAMPOLINE - (p + 1) * 2 * PGSIZE.
Definition TRAPFRAME : Z := TRAMPOLINE - PGSIZE.
Definition MAKE_SATP (pagetable : Z) : Z := Z.lor (Z.shiftl 8 60) (Z.shiftr pagetable 12).

#[export] Hint Unfold NPROC NCPU NOFILE NFILE NINODE NDEV MAXOPBLOCKS LOGSIZE
  NBUF PGSIZE PGSHIFT PXMASK PXSHIFT KERNBASE PHYSTOP TRAMPOLINE TRAPFRAME : consts.

Lemma MAXVA_eq : MAXVA = 2 ^ 38.
Proof. reflexivity. Qed.

(** *** Rounding to pages *)

Lemma land_mask12 a : 0 ≤ a < 2 ^ 64 → Z.land a (u64 (Z.lnot (PGSIZE - 1))) = a - a mod 4096.
Proof.
  intros Ha. unfold u64, PGSIZE.
  replace (Z.lnot (4096 - 1) mod 2 ^ 64) with (Z.shiftl (Z.ones 52) 12) by reflexivity.
  apply Z.bits_inj'. intros n Hn.
  rewrite Z.land_spec, Z.shiftl_spec by lia.
  replace (a - a mod 4096) with (Z.shiftl (Z.shiftr a 12) 12).
  2:{ rewrite Z.shiftl_mul_pow2, Z.shiftr_div_pow2 by lia.
      change (2 ^ 12) with 4096. pose proof (Z.div_mod a 4096). lia. }
  rewrite Z.shiftl_spec by lia.
  destruct (Z.ltb_spec n 12).
  - rewrite !(Z.testbit_neg_r _ (n - 12)) by lia. apply andb_false_r.
  - rewrite Z.shiftr_spec by lia. replace (n - 12 + 12) with n by lia.
    destruct (Z.ltb_spec n 64).
    + rewrite Z.ones_spec_low by lia. apply andb_true_r.
    + rewrite Z.ones_spec_high by lia. rewrite andb_false_r.
      destruct (decide (a = 0)) as [->|]; [by rewrite Z.bits_0|].
      rewrite Z.bits_above_log2; [done|lia|].
      apply Z.log2_lt_pow2; [lia|].
      eapply Z.lt_le_trans; [apply Ha|]. apply Z.pow_le_mono_r; lia.
Qed.

Lemma PGROUNDDOWN_eq a : 0 ≤ a < 2 ^ 64 → PGROUNDDOWN a = a - a mod 4096.
Proof. apply land_mask12. Qed.

Lemma PGROUNDUP_eq a :
  0 ≤ a < 2 ^ 64 - 4096 → PGROUNDUP a = (a + 4095) - (a + 4095) mod 4096.
Proof.
  intros Ha. unfold PGROUNDUP, PGSIZE. rewrite (u64_small (a + 4096)) by lia.
  rewrite u64_small by lia. replace (a + 4096 - 1) with (a + 4095) by lia.
  apply land_mask12. lia.
Qed.

(** *** Page-table entries *)

Lemma PX_eq level va : 0 ≤ level → PX level va = (va / 2 ^ PXSHIFT level) mod 512.
Proof.
  intros. unfold PX, PXMASK. change 0x1FF with (Z.ones 9).
  rewrite Z.land_ones, Z.shiftr_div_pow2 by zlia. done.
Qed.

Lemma PX_range level va : 0 ≤ level → 0 ≤ PX level va < 512.
Proof. intros. rewrite PX_eq by done. apply Z.mod_pos_bound. lia. Qed.

(** A physical page number and 10 flag bits, packed into an entry. *)
Definition pte_of (pa flags : Z) : Z := Z.lor (PA2PTE pa) flags.

Lemma PA2PTE_eq pa : 0 ≤ pa < 2 ^ 56 → pa mod 4096 = 0 → PA2PTE pa = pa / 4.
Proof.
  intros Hpa Hal. unfold PA2PTE.
  rewrite Z.shiftl_mul_pow2, Z.shiftr_div_pow2 by lia.
  change (2 ^ 12) with 4096. change (2 ^ 10) with 1024.
  rewrite u64_small by dlia. dlia.
Qed.

(** [or] of fields that do not overlap. *)
Lemma lor_fields a b n : 0 ≤ n → 0 ≤ b < 2 ^ n → Z.lor (a * 2 ^ n) b = a * 2 ^ n + b.
Proof.
  intros Hn Hb.
  assert (Z.land (a * 2 ^ n) b = 0) as Hd.
  { apply Z.bits_inj'. intros i Hi. rewrite Z.land_spec, Z.bits_0. destruct (Z.ltb_spec i n).
    - by rewrite Z.mul_pow2_bits_low by lia.
    - destruct (decide (b = 0)) as [->|]; [by rewrite Z.bits_0, andb_false_r|].
      rewrite (Z.bits_above_log2 b); [by rewrite andb_false_r|lia|]. apply Z.log2_lt_pow2; [lia|].
      eapply Z.lt_le_trans; [apply Hb|]. apply Z.pow_le_mono_r; lia. }
  by rewrite Z.add_nocarry_lxor, Z.lxor_lor by done.
Qed.

Lemma pte_of_eq pa flags :
  0 ≤ pa < 2 ^ 56 → pa mod 4096 = 0 → 0 ≤ flags < 1024 →
  pte_of pa flags = pa / 4 + flags.
Proof.
  intros Hpa Hal Hf. unfold pte_of. rewrite PA2PTE_eq by done.
  replace (pa / 4) with ((pa / 4096) * 2 ^ 10) by (change (2 ^ 10) with 1024; dlia).
  by rewrite lor_fields.
Qed.

(** Packing and unpacking an entry are inverse. *)
Lemma PTE2PA_of pa flags :
  0 ≤ pa < 2 ^ 56 → pa mod 4096 = 0 → 0 ≤ flags < 1024 →
  PTE2PA (pte_of pa flags) = pa.
Proof.
  intros. rewrite pte_of_eq by done. unfold PTE2PA.
  rewrite Z.shiftl_mul_pow2, Z.shiftr_div_pow2 by lia.
  change (2 ^ 12) with 4096. change (2 ^ 10) with 1024.
  rewrite u64_small by dlia. dlia.
Qed.

Lemma PTE_FLAGS_of pa flags :
  0 ≤ pa < 2 ^ 56 → pa mod 4096 = 0 → 0 ≤ flags < 1024 →
  PTE_FLAGS (pte_of pa flags) = flags.
Proof.
  intros. rewrite pte_of_eq by done. unfold PTE_FLAGS.
  change 0x3FF with (Z.ones 10). rewrite Z.land_ones by lia.
  change (2 ^ 10) with 1024. dlia.
Qed.

Lemma land_flag_of pa flags k :
  0 ≤ pa < 2 ^ 56 → pa mod 4096 = 0 → 0 ≤ flags < 1024 → 0 ≤ k < 10 →
  Z.land (pte_of pa flags) (Z.shiftl 1 k) = Z.land flags (Z.shiftl 1 k).
Proof.
  intros Hpa Hal Hf Hk. unfold pte_of.
  rewrite Z.land_lor_distr_l, PA2PTE_eq by done.
  replace (pa / 4) with ((pa / 4096) * 2 ^ 10) by (change (2 ^ 10) with 1024; dlia).
  replace (Z.land (pa / 4096 * 2 ^ 10) (Z.shiftl 1 k)) with 0; [done|].
  symmetry. apply Z.bits_inj'. intros n Hn. rewrite Z.land_spec, Z.bits_0.
  destruct (decide (n = k)) as [->|].
  - rewrite Z.mul_pow2_bits_low by lia. done.
  - rewrite Z.shiftl_1_l, Z.pow2_bits_false by lia. apply andb_false_r.
Qed.

(** ** Open modes ([fcntl.h]) *)

Definition O_RDONLY : Z := 0x000.
Definition O_WRONLY : Z := 0x001.
Definition O_RDWR : Z := 0x002.
Definition O_CREATE : Z := 0x200.
Definition O_TRUNC : Z := 0x400.

(** ** Physical memory *)

Abbreviation memory := (gmap Z Z).

Definition load8 (m : memory) (a : Z) : Z := default 0 (m !! a).
Definition store8 (m : memory) (a v : Z) : memory := <[a := u8 v]> m.

(** A memory holds bytes; [store8] keeps it so. *)
Definition bytes_ok (m : memory) : Prop := ∀ a, 0 ≤ load8 m a < 256.

Fixpoint load (n : nat) (m : memory) (a : Z) : Z :=
  match n with
  | O => 0
  | S n' => u8 (load8 m a) + 256 * load n' m (a + 1)
  end.

(** Store the [n] low bytes of [v] at [a]. *)
Fixpoint store (n : nat) (m : memory) (a v : Z) : memory :=
  match n with
  | O => m
  | S n' => store8 (store n' m (a + 1) (Z.shiftr v 8)) a v
  end.

Abbreviation load64 := (load 8).
Abbreviation store64 := (store 8).
Abbreviation load32 := (load 4).
Abbreviation store32 := (store 4).

Definition in_range (a n : Z) (x : Z) : Prop := a ≤ x < a + n.
#[export] Hint Unfold in_range : consts.

(** Two memories with the same bytes at the addresses in [P]. *)
Definition mem_agree (P : Z → Prop) (m1 m2 : memory) : Prop :=
  ∀ x, P x → load8 m1 x = load8 m2 x.

#[export] Instance mem_agree_equiv P : Equivalence (mem_agree P).
Proof.
  split.
  - by intros m x.
  - intros m1 m2 H x Hx. symmetry. auto.
  - intros m1 m2 m3 H1 H2 x Hx. rewrite H1, H2; auto.
Qed.

Lemma mem_agree_weaken (P Q : Z → Prop) m1 m2 :
  (∀ x, Q x → P x) → mem_agree P m1 m2 → mem_agree Q m1 m2.
Proof. intros HPQ H x Hx. auto. Qed.

Lemma load8_store8_eq m a v : load8 (store8 m a v) a = u8 v.
Proof. unfold load8, store8. by rewrite lookup_insert_eq. Qed.

Lemma load8_store8_ne m a v x : x ≠ a → load8 (store8 m a v) x = load8 m x.
Proof. intros. unfold load8, store8. by rewrite lookup_insert_ne. Qed.

Lemma bytes_ok_store8 m a v : bytes_ok m → bytes_ok (store8 m a v).
Proof.
  intros H x. destruct (decide (x = a)) as [->|].
  - rewrite load8_store8_eq. apply u8_range.
  - by rewrite load8_store8_ne.
Qed.

Lemma bytes_ok_store n m a v : bytes_ok m → bytes_ok (store n m a v).
Proof. revert a v. induction n; intros; simpl; auto using bytes_ok_store8. Qed.

Lemma load_range n m a : 0 ≤ load n m a < 256 ^ Z.of_nat n.
Proof.
  revert a. induction n as [|n IH]; intros a; simpl load; [lia|].
  rewrite Nat2Z.inj_succ, Z.pow_succ_r by lia.
  pose proof (IH (a + 1)). pose proof (u8_range (load8 m a)). lia.
Qed.

Lemma load64_range m a : 0 ≤ load64 m a < 2 ^ 64.
Proof. apply (load_range 8). Qed.

Lemma load_agree n m1 m2 a :
  mem_agree (in_range a (Z.of_nat n)) m1 m2 → load n m1 a = load n m2 a.
Proof.
  revert a. induction n as [|n IH]; intros a Hag; simpl; [done|].
  rewrite (Hag a) by zlia. rewrite (IH (a + 1)); [done|].
  intros x Hx. apply Hag. zlia.
Qed.

Lemma load_same n m1 m2 a b :
  (∀ o, 0 ≤ o < Z.of_nat n → load8 m1 (a + o) = load8 m2 (b + o)) → load n m1 a = load n m2 b.
Proof.
  revert a b. induction n as [|n IH]; intros a b Hs; simpl; [done|].
  pose proof (Hs 0 ltac:(lia)) as H0. rewrite !Z.add_0_r in H0. rewrite H0.
  rewrite (IH (a + 1) (b + 1)); [done|]. intros o Ho.
  replace (a + 1 + o) with (a + (1 + o)) by lia. replace (b + 1 + o) with (b + (1 + o)) by lia.
  apply Hs. lia.
Qed.

Lemma load8_store_ne n m a v x :
  ¬ in_range a (Z.of_nat n) x → load8 (store n m a v) x = load8 m x.
Proof.
  revert a v. induction n as [|n IH]; intros a v Hx; simpl; [done|].
  rewrite load8_store8_ne by zlia. apply IH. zlia.
Qed.

Lemma load_store_ne k n m a b v :
  a + Z.of_nat n ≤ b ∨ b + Z.of_nat k ≤ a →
  load k (store n m a v) b = load k m b.
Proof. intros Hd. apply load_agree. intros x Hx. apply load8_store_ne. zlia. Qed.

Lemma load_store_eq n m a v : load n (store n m a v) a = v mod 256 ^ Z.of_nat n.
Proof.
  revert m a v. induction n as [|n IH]; intros m a v; simpl load.
  - change (256 ^ Z.of_nat 0) with 1. by rewrite Z.mod_1_r.
  - simpl store. rewrite load8_store8_eq.
    rewrite (u8_small (u8 v)) by apply u8_range.
    rewrite (load_agree n _ (store n m (a + 1) (Z.shiftr v 8))).
    2:{ intros x Hx. apply load8_store8_ne. zlia. }
    rewrite IH, Nat2Z.inj_succ, Z.pow_succ_r, Z.shiftr_div_pow2 by lia.
    unfold u8. change (2 ^ 8) with 256. rewrite (Z.rem_mul_r v) by lia. lia.
Qed.

Lemma load64_store64 m a v : 0 ≤ v < 2 ^ 64 → load64 (store64 m a v) a = v.
Proof. intros. rewrite load_store_eq. apply Z.mod_small. done. Qed.

Lemma load_zero n m a :
  (∀ x, in_range a (Z.of_nat n) x → load8 m x = 0) → load n m a = 0.
Proof.
  revert a. induction n as [|n IH]; intros a Hz; simpl; [done|].
  rewrite Hz by zlia. rewrite IH; [done|]. intros x Hx. apply Hz. zlia.
Qed.

(** The bytes of a memory block, and writing a list of bytes. *)
Fixpoint load_bytes (n : nat) (m : memory) (a : Z) : list Z :=
  match n with
  | O => []
  | S n' => load8 m a :: load_bytes n' m (a + 1)
  end.

Fixpoint store_bytes (m : memory) (a : Z) (bs : list Z) : memory :=
  match bs with
  | [] => m
  | b :: bs' => store_bytes (store8 m a b) (a + 1) bs'
  end.

(** Little-endian bytes of an integer and back. *)
Fixpoint le_bytes (n : nat) (v : Z) : list Z :=
  match n with
  | O => []
  | S n' => u8 v :: le_bytes n' (Z.shiftr v 8)
  end.

Fixpoint le_value (bs : list Z) : Z :=
  match bs with
  | [] => 0
  | b :: bs' => u8 b + 256 * le_value bs'
  end.

Lemma length_load_bytes n m a : length (load_bytes n m a) = n.
Proof. revert a. induction n; intros; simpl; auto. Qed.

Lemma length_le_bytes n v : length (le_bytes n v) = n.
Proof. revert v. induction n; intros; simpl; auto. Qed.

Lemma le_value_le_bytes n v : le_value (le_bytes n v) = v mod 256 ^ Z.of_nat n.
Proof.
  revert v. induction n as [|n IH]; intros v; simpl le_bytes; simpl le_value.
  - change (256 ^ Z.of_nat 0) with 1. by rewrite Z.mod_1_r.
  - rewrite (u8_small (u8 v)) by apply u8_range.
    rewrite IH, Nat2Z.inj_succ, Z.pow_succ_r, Z.shiftr_div_pow2 by lia.
    unfold u8. change (2 ^ 8) with 256. rewrite (Z.rem_mul_r v) by lia. lia.
Qed.

Lemma load8_store_bytes_ne m a bs x :
  ¬ in_range a (Z.of_nat (length bs)) x → load8 (store_bytes m a bs) x = load8 m x.
Proof.
  revert m a. induction bs as [|b bs IH]; intros m a Hx; simpl; [done|].
  rewrite IH by (simpl in *; zlia). apply load8_store8_ne. simpl in *. zlia.
Qed.

Lemma load8_store_bytes m a bs i b :
  bs !! i = Some b → load8 (store_bytes m a bs) (a + Z.of_nat i) = u8 b.
Proof.
  revert m a i. induction bs as [|c bs IH]; intros m a [|i] Hi; simplify_eq/=.
  - rewrite load8_store_bytes_ne by zlia. rewrite Z.add_0_r. apply load8_store8_eq.
  - rewrite <- (IH (store8 m a c) (a + 1) i Hi). f_equal. lia.
Qed.

Lemma bytes_ok_store_bytes m a bs : bytes_ok m → bytes_ok (store_bytes m a bs).
Proof. revert m a. induction bs; intros; simpl; auto using bytes_ok_store8. Qed.

Lemma load_bytes_agree n m1 m2 a :
  (∀ x, in_range a (Z.of_nat n) x → load8 m1 x = load8 m2 x) → load_bytes n m1 a = load_bytes n m2 a.
Proof.
  revert a. induction n as [|n IH]; intros a Hag; simpl; [done|].
  rewrite (Hag a) by zlia. rewrite (IH (a + 1)); [done|]. intros x Hx. apply Hag. zlia.
Qed.

Lemma load_bytes_lookup n m a i :
  (i < n)%nat → load_bytes n m a !! i = Some (load8 m (a + Z.of_nat i)).
Proof.
  revert a i. induction n as [|n IH]; intros a [|i] Hi; simpl; [lia|lia| |].
  - do 2 f_equal. lia.
  - rewrite IH by lia. do 2 f_equal. lia.
Qed.

(** Words are reasoned about by the lemmas above, never by unfolding. *)
#[global] Opaque load store.
