(* ===== verification/KString.v ===== *)
(** * Kernel string routines ([kernel/string.c])

    Each routine is the C loop over byte memory. Pointers are addresses; the
    loop counters are the C loop's, with the iteration count as fuel. *)

From S2P Require Import Prelude.
From S2P Require Import Machine.
#[local] Open Scope Z_scope.

(** [for(i = 0; i < n; i++) cdst[i] = c;] *)
Fixpoint memset_loop (k : nat) (m : memory) (cdst i c : Z) : memory :=
  match k with
  | O => m
  | S k' => memset_loop k' (store8 m (cdst + i) c) cdst (i + 1) c
  end.
Definition memset (m : memory) (dst c n : Z) : memory :=
  memset_loop (Z.to_nat n) m dst 0 c.

(** [while(n-- > 0){ if( *s1 != *s2 ) return *s1 - *s2; s1++, s2++; }] *)
Fixpoint memcmp_loop (n : nat) (m : memory) (s1 s2 : Z) : Z :=
  match n with
  | O => 0
  | S n' =>
      if load8 m s1 =? load8 m s2 then memcmp_loop n' m (s1 + 1) (s2 + 1)
      else load8 m s1 - load8 m s2
  end.
Definition memcmp (m : memory) (v1 v2 n : Z) : Z :=
  memcmp_loop (Z.to_nat n) m v1 v2.

(** [while(n-- > 0) *d++ = *s++;] *)
Fixpoint move_up (n : nat) (m : memory) (d s : Z) : memory :=
  match n with
  | O => m
  | S n' => move_up n' (store8 m d (load8 m s)) (d + 1) (s + 1)
  end.
(** [while(n-- > 0) *--d = *--s;] *)
Fixpoint move_down (n : nat) (m : memory) (d s : Z) : memory :=
  match n with
  | O => m
  | S n' => move_down n' (store8 m (d - 1) (load8 m (s - 1))) (d - 1) (s - 1)
  end.
Definition memmove (m : memory) (dst src n : Z) : memory :=
  if n =? 0 then m
  else if (src <? dst) && (dst <? src + n)
  then move_down (Z.to_nat n) m (dst + n) (src + n)
  else move_up (Z.to_nat n) m dst src.
Definition memcpy (m : memory) (dst src n : Z) : memory := memmove m dst src n.

(** [while(n > 0 && *p && *p == *q) n--, p++, q++;] and the final test. *)
Fixpoint strncmp_loop (n : nat) (m : memory) (p q : Z) : Z :=
  match n with
  | O => 0
  | S n' =>
      if negb (load8 m p =? 0) && (load8 m p =? load8 m q)
      then strncmp_loop n' m (p + 1) (q + 1)
      else load8 m p - load8 m q
  end.
Definition strncmp (m : memory) (p q n : Z) : Z := strncmp_loop (Z.to_nat n) m p q.

(** [while(n-- > 0 && ( *s++ = *t++ ) != 0);], returning memory, [s], [n]. *)
Fixpoint strncpy_copy (fuel : nat) (m : memory) (s t n : Z) : memory * Z * Z :=
  match fuel with
  | O => (m, s, n - 1)
  | S fuel' =>
      let m' := store8 m s (load8 m t) in
      if load8 m t =? 0 then (m', s + 1, n - 1)
      else strncpy_copy fuel' m' (s + 1) (t + 1) (n - 1)
  end.
(** [while(n-- > 0) *s++ = 0;] *)
Fixpoint strncpy_pad (fuel : nat) (m : memory) (s : Z) : memory :=
  match fuel with
  | O => m
  | S fuel' => strncpy_pad fuel' (store8 m s 0) (s + 1)
  end.
Definition strncpy (m : memory) (s t n : Z) : memory :=
  let '(m', s', n') := strncpy_copy (Z.to_nat n) m s t n in
  strncpy_pad (Z.to_nat n') m' s'.

(** [while(--n > 0 && ( *s++ = *t++ ) != 0); *s = 0;] *)
Fixpoint safestrcpy_loop (k : nat) (m : memory) (s t : Z) : memory * Z :=
  match k with
  | O => (m, s)
  | S k' =>
      let m' := store8 m s (load8 m t) in
      if load8 m t =? 0 then (m', s + 1)
      else safestrcpy_loop k' m' (s + 1) (t + 1)
  end.
Definition safestrcpy (m : memory) (s t n : Z) : memory :=
  if n <=? 0 then m
  else let '(m', s') := safestrcpy_loop (Z.to_nat (n - 1)) m s t in store8 m' s' 0.

(** [for(n = 0; s[n]; n++);] over at most [fuel] characters. *)
Fixpoint strlen (fuel : nat) (m : memory) (s : Z) : option Z :=
  match fuel with
  | O => None
  | S fuel' =>
      if load8 m s =? 0 then Some 0
      else option_map (Z.add 1) (strlen fuel' m (s + 1))
  end.

(** ** Lemmas *)

Lemma memset_loop_load k m d i c x :
  load8 (memset_loop k m d i c) x =
  if decide (in_range (d + i) (Z.of_nat k) x) then u8 c else load8 m x.
Proof.
  revert m i. induction k as [|k IH]; intros m i; simpl.
  - rewrite decide_False by zlia. done.
  - rewrite IH. destruct (decide (in_range (d + (i + 1)) (Z.of_nat k) x)).
    + rewrite decide_True by zlia. done.
    + destruct (decide (x = d + i)) as [->|].
      * rewrite load8_store8_eq, decide_True by zlia. done.
      * rewrite load8_store8_ne by done. rewrite decide_False by zlia. done.
Qed.

Lemma memset_load m d c n x :
  load8 (memset m d c n) x = if decide (in_range d n x) then u8 c else load8 m x.
Proof.
  unfold memset. rewrite memset_loop_load.
  destruct (decide (in_range (d + 0) _ x)), (decide (in_range d n x)); try done; zlia.
Qed.

Lemma move_up_load n m d s x :
  bytes_ok m → d ≤ s ∨ s + Z.of_nat n ≤ d →
  load8 (move_up n m d s) x =
  if decide (in_range d (Z.of_nat n) x) then load8 m (s + (x - d)) else load8 m x.
Proof.
  revert m d s. induction n as [|n IH]; intros m d s Hb Hd; simpl.
  - rewrite decide_False by zlia. done.
  - rewrite IH by (auto using bytes_ok_store8; lia).
    destruct (decide (in_range (d + 1) (Z.of_nat n) x)).
    + rewrite decide_True by zlia. rewrite load8_store8_ne by zlia. f_equal. lia.
    + destruct (decide (x = d)) as [->|].
      * rewrite load8_store8_eq, decide_True by zlia.
        rewrite u8_small by apply Hb. f_equal. lia.
      * rewrite load8_store8_ne by done. rewrite decide_False by zlia. done.
Qed.

Lemma move_down_load n m d s x :
  bytes_ok m → s ≤ d →
  load8 (move_down n m d s) x =
  if decide (d - Z.of_nat n ≤ x < d) then load8 m (s - (d - x)) else load8 m x.
Proof.
  revert m d s. induction n as [|n IH]; intros m d s Hb Hd; simpl.
  - rewrite decide_False by lia. done.
  - rewrite IH by (auto using bytes_ok_store8; lia).
    destruct (decide (d - 1 - Z.of_nat n ≤ x < d - 1)).
    + rewrite decide_True by lia. rewrite load8_store8_ne by lia. f_equal. lia.
    + destruct (decide (x = d - 1)) as [->|].
      * rewrite load8_store8_eq, decide_True by lia.
        rewrite u8_small by apply Hb. f_equal. lia.
      * rewrite load8_store8_ne by done. rewrite decide_False by lia. done.
Qed.

(** [memmove] copies the block as it was, whatever the overlap. *)
Lemma memmove_load m dst src n x :
  bytes_ok m → 0 ≤ n →
  load8 (memmove m dst src n) x =
  if decide (in_range dst n x) then load8 m (src + (x - dst)) else load8 m x.
Proof.
  intros Hb Hn. unfold memmove. destruct (Z.eqb_spec n 0) as [->|].
  { rewrite decide_False by zlia. done. }
  destruct (Z.ltb_spec src dst); [destruct (Z.ltb_spec dst (src + n))|]; simpl.
  - rewrite move_down_load by (done || lia).
    destruct (decide (dst + n - Z.of_nat (Z.to_nat n) ≤ x < dst + n)),
      (decide (in_range dst n x)); try done; try zlia. f_equal. lia.
  - rewrite move_up_load by (done || lia). rewrite Z2Nat.id by lia. done.
  - rewrite move_up_load by (done || lia). rewrite Z2Nat.id by lia. done.
Qed.

Lemma bytes_ok_memset m d c n : bytes_ok m → bytes_ok (memset m d c n).
Proof.
  intros H x. rewrite memset_load. case_decide; [apply u8_range|apply H].
Qed.

Lemma bytes_ok_memmove m d s n : bytes_ok m → 0 ≤ n → bytes_ok (memmove m d s n).
Proof. intros H ? x. rewrite memmove_load by done. case_decide; apply H. Qed.

Lemma safestrcpy_loop_spec k m s t :
  bytes_ok m → s + Z.of_nat k ≤ t ∨ t + Z.of_nat k ≤ s →
  let '(m', s') := safestrcpy_loop k m s t in
  s ≤ s' ≤ s + Z.of_nat k ∧
  (∀ x, ¬ in_range s (s' - s) x → load8 m' x = load8 m x) ∧
  (∀ i, 0 ≤ i < s' - s → load8 m' (s + i) = load8 m (t + i)) ∧
  (s' < s + Z.of_nat k → ∃ i, 0 ≤ i < s' - s ∧ load8 m (t + i) = 0).
Proof.
  revert m s t. induction k as [|k IH]; intros m s t Hb Hd; simpl.
  { split_and!; try done; lia. }
  destruct (Z.eqb_spec (load8 m t) 0) as [Hz|Hz].
  - split_and!; [lia|lia| | |].
    + intros x Hx. apply load8_store8_ne. zlia.
    + intros i Hi. replace i with 0 by lia. rewrite !Z.add_0_r, load8_store8_eq.
      apply u8_small, Hb.
    + intros _. exists 0. rewrite Z.add_0_r. split; [lia|done].
  - specialize (IH (store8 m s (load8 m t)) (s + 1) (t + 1)).
    destruct (safestrcpy_loop k _ _ _) as [m' s'].
    destruct IH as (Hs & Hout & Hin & Hnul); [auto using bytes_ok_store8|lia|].
    split_and!; [lia|lia| | |].
    + intros x Hx. rewrite Hout by zlia. apply load8_store8_ne. zlia.
    + intros i Hi. destruct (decide (i = 0)) as [->|].
      * rewrite !Z.add_0_r, Hout, load8_store8_eq by zlia. apply u8_small, Hb.
      * replace (s + i) with (s + 1 + (i - 1)) by lia.
        rewrite Hin by lia. rewrite load8_store8_ne by lia. f_equal. lia.
    + intros Hlt. destruct Hnul as (i & Hi & Hz'); [lia|].
      exists (i + 1). split; [lia|].
      rewrite load8_store8_ne in Hz' by lia. rewrite <- Hz'. f_equal. lia.
Qed.

Lemma strncmp_loop_zero n m p q :
  strncmp_loop n m p q = 0 ↔
  (∀ i, 0 ≤ i < Z.of_nat n → (∀ j, 0 ≤ j < i → load8 m (p + j) ≠ 0) →
        load8 m (p + i) = load8 m (q + i)).
Proof.
  revert p q. induction n as [|n IH]; intros p q; simpl strncmp_loop.
  { split; [intros _ i Hi; lia|done]. }
  destruct (Z.eqb_spec (load8 m p) 0) as [Hp|Hp]; simpl.
  - split.
    + intros Heq i Hi Hnz. destruct (decide (i = 0)) as [->|].
      * rewrite !Z.add_0_r. lia.
      * specialize (Hnz 0). rewrite Z.add_0_r in Hnz. lia.
    + intros H. specialize (H 0). rewrite !Z.add_0_r in H.
      rewrite H; [lia|lia|intros; lia].
  - destruct (Z.eqb_spec (load8 m p) (load8 m q)) as [Hpq|Hpq]; simpl.
    + rewrite IH. split.
      * intros H i Hi Hnz. destruct (decide (i = 0)) as [->|].
        { by rewrite !Z.add_0_r. }
        replace (p + i) with (p + 1 + (i - 1)) by lia.
        replace (q + i) with (q + 1 + (i - 1)) by lia.
        apply H; [lia|]. intros j Hj. replace (p + 1 + j) with (p + (j + 1)) by lia.
        apply Hnz. lia.
      * intros H i Hi Hnz. replace (p + 1 + i) with (p + (i + 1)) by lia.
        replace (q + 1 + i) with (q + (i + 1)) by lia. apply H; [lia|].
        intros j Hj. destruct (decide (j = 0)) as [->|]; [by rewrite Z.add_0_r|].
        replace (p + j) with (p + 1 + (j - 1)) by lia. apply Hnz. lia.
    + split; [lia|]. intros H. specialize (H 0). rewrite !Z.add_0_r in H.
      contradict Hpq. apply H; [lia|intros; lia].
Qed.

(** Whole-page loops are reasoned about by the lemmas above. *)
#[global] Opaque memset memmove.
