(* ===== verification/Printf.v ===== *)
(** * Kernel console formatting ([kernel/printf.c])

    [printf] is modelled by the list of characters it passes to [consputc].
    Variadic arguments are tagged values; a conversion with no matching
    argument, undefined in C, gives [None]. *)

From S2P Require Import Prelude.
#[local] Open Scope Z_scope.

(** The bytes of a C string literal, without its NUL. *)
Fixpoint bytes (s : string) : list Z :=
  match s with
  | EmptyString => []
  | String c s' => Z.of_N (Ascii.N_of_ascii c) :: bytes s'
  end.

Inductive arg :=
| AInt (z : Z)                 (* int *)
| APtr (z : Z)                 (* uint64 *)
| AStr (s : option (list Z)).  (* char pointer, possibly null *)

(** [digits[d]] for d < 16. *)
Definition digit (d : Z) : Z := if d <? 10 then 48 + d else 87 + d.

(** The [do { } while] loop of [printint]: [buf] from index 0, least
    significant digit first. *)
Fixpoint printint_digits (fuel : nat) (x base : Z) : list Z :=
  match fuel with
  | O => []
  | S fuel' =>
      digit (x mod base) ::
      (if x / base =? 0 then [] else printint_digits fuel' (x / base) base)
  end.

(** The contents of [buf] before it is printed backwards. A 32-bit number has
    at most 32 digits in any base. *)
Definition printint_buf (xx base : Z) (sign : bool) : list Z :=
  let neg := sign && (xx <? 0) in
  let x := if neg then u32 (- xx) else u32 xx in
  printint_digits 32 x base ++ (if neg then [45] else []).
Definition printint (xx base : Z) (sign : bool) : list Z := rev (printint_buf xx base sign).

(** The hex digits of [x], from the top nibble down. *)
Fixpoint printptr_loop (n : nat) (x : Z) : list Z :=
  match n with
  | O => []
  | S n' => digit (Z.shiftr x 60) :: printptr_loop n' (u64 (Z.shiftl x 4))
  end.
Definition printptr (x : Z) : list Z := [48; 120] ++ printptr_loop 16 x.

(** [for(; *s; s++) consputc( *s)]. *)
Fixpoint until_nul (s : list Z) : list Z :=
  match s with
  | [] => []
  | c :: s' => if c =? 0 then [] else c :: until_nul s'
  end.

Definition prepend (l : list Z) (r : option (list Z)) : option (list Z) :=
  match r with Some l' => Some (l ++ l') | None => None end.

Fixpoint printf_loop (fmt : list Z) (args : list arg) : option (list Z) :=
  match fmt with
  | [] => Some []
  | c :: fmt' =>
      if c =? 0 then Some [] else
      if negb (c =? 37) then prepend [c] (printf_loop fmt' args) else
      match fmt' with
      | [] => Some []
      | c :: fmt'' =>
          if c =? 0 then Some [] else
          if c =? 100 (* d *) then
            match args with
            | AInt z :: args' => prepend (printint z 10 true) (printf_loop fmt'' args')
            | _ => None
            end
          else if c =? 120 (* x *) then
            match args with
            | AInt z :: args' => prepend (printint z 16 true) (printf_loop fmt'' args')
            | _ => None
            end
          else if c =? 112 (* p *) then
            match args with
            | APtr z :: args' => prepend (printptr z) (printf_loop fmt'' args')
            | _ => None
            end
          else if c =? 115 (* s *) then
            match args with
            | AStr s :: args' =>
                prepend (until_nul (default (bytes "(null)") s)) (printf_loop fmt'' args')
            | _ => None
            end
          else if c =? 37 then prepend [37] (printf_loop fmt'' args)
          else prepend [37; c] (printf_loop fmt'' args)
      end
  end.

Definition printf (fmt : string) (args : list arg) : option (list Z) :=
  printf_loop (bytes fmt) args.

(** What [panic] prints before it stops: the message is itself a format. *)
Definition panic_text (s : string) : option (list Z) :=
  match printf "panic: " [], printf s [], printf (String (Ascii.ascii_of_nat 10) EmptyString) [] with
  | Some a, Some b, Some c => Some (a ++ b ++ c)
  | _, _, _ => None
  end.

Example printf_ex :
  printf "PID %d called %s %d times.%%" [AInt 3; AStr (Some (bytes "fork")); AInt (-12)] =
  Some (bytes "PID 3 called fork -12 times.%").
Proof. reflexivity. Qed.

(** ** Reading a number back *)

(** The value of a digit character, and of a most-significant-first run. *)
Definition digit_val (c : Z) : Z := if c <? 58 then c - 48 else c - 87.
Fixpoint parse_rev (base : Z) (l : list Z) : Z :=
  match l with
  | [] => 0
  | c :: l' => digit_val c + base * parse_rev base l'
  end.
Definition parse_int (base : Z) (l : list Z) : Z :=
  match l with
  | 45 :: l' => - parse_rev base (rev l')
  | _ => parse_rev base (rev l)
  end.

Lemma digit_val_digit d : 0 ≤ d < 16 → digit_val (digit d) = d ∧ 48 ≤ digit d.
Proof.
  intros. unfold digit, digit_val. destruct (Z.ltb_spec d 10).
  - destruct (Z.ltb_spec (48 + d) 58); lia.
  - destruct (Z.ltb_spec (87 + d) 58); lia.
Qed.

(** Enough fuel reads out all the digits, and [n] base-[b] digits suffice for
    numbers below [b^n]. *)
Lemma printint_digits_spec fuel x base :
  2 ≤ base ≤ 16 → 0 ≤ x < base ^ Z.of_nat fuel → (0 < fuel)%nat →
  parse_rev base (printint_digits fuel x base) = x ∧
  Forall (λ c, 48 ≤ c) (printint_digits fuel x base) ∧
  printint_digits fuel x base ≠ [].
Proof.
  intros Hb. revert x. induction fuel as [|fuel IH]; intros x Hx Hf; [lia|].
  simpl. pose proof (Z.mod_pos_bound x base ltac:(lia)) as Hm.
  destruct (digit_val_digit (x mod base)) as [Hd Hd']; [lia|].
  rewrite Hd. pose proof (Z.div_mod x base ltac:(lia)) as Hdm.
  destruct (Z.eqb_spec (x / base) 0) as [E|E].
  - simpl. split; [lia|]. split; [by repeat constructor|done].
  - rewrite Nat2Z.inj_succ, Z.pow_succ_r in Hx by lia.
    assert (0 ≤ x / base < base ^ Z.of_nat fuel) as Hx'.
    { split; [apply Z.div_pos; lia|]. apply Z.div_lt_upper_bound; lia. }
    assert (0 < fuel)%nat as Hf'.
    { destruct fuel; [|lia]. change (base ^ Z.of_nat 0) with 1 in Hx'. lia. }
    destruct (IH (x / base) Hx' Hf') as (H1 & H2 & H3). rewrite H1.
    split; [lia|]. split; [by constructor|done].
Qed.

Lemma printint_digits_length n fuel x base :
  2 ≤ base → 0 ≤ x < base ^ Z.of_nat n → (0 < n)%nat →
  (length (printint_digits fuel x base) ≤ n)%nat.
Proof.
  intros Hb. revert n x. induction fuel as [|fuel IH]; intros n x Hx Hn; simpl; [lia|].
  destruct (Z.eqb_spec (x / base) 0) as [E|E]; simpl; [lia|].
  destruct n as [|n]; [lia|]. rewrite Nat2Z.inj_succ, Z.pow_succ_r in Hx by lia.
  assert (0 ≤ x / base < base ^ Z.of_nat n) as Hx'.
  { split; [apply Z.div_pos; lia|]. apply Z.div_lt_upper_bound; lia. }
  assert (0 < n)%nat.
  { destruct n; [|lia]. change (base ^ Z.of_nat 0) with 1 in Hx'. lia. }
  specialize (IH n _ Hx'). lia.
Qed.

Lemma printint_sign_digits fuel x base :
  2 ≤ base ≤ 16 → 0 ≤ x < base ^ Z.of_nat fuel → (0 < fuel)%nat →
  parse_int base (rev (printint_digits fuel x base)) = x ∧
  parse_int base (45 :: rev (printint_digits fuel x base)) = - x.
Proof.
  intros Hb Hx Hf. destruct (printint_digits_spec fuel x base Hb Hx Hf) as (H1 & H2 & H3).
  split; [|unfold parse_int; by rewrite rev_involutive, H1].
  destruct (rev (printint_digits fuel x base)) as [|c l] eqn:E.
  { apply (f_equal (@rev Z)) in E. rewrite rev_involutive in E. done. }
  assert (48 ≤ c) as Hc.
  { rewrite Forall_forall in H2. apply H2. apply list_elem_of_In, in_rev. rewrite E. by left. }
  assert (parse_int base (c :: l) = parse_rev base (rev (c :: l))) as ->.
  { unfold parse_int. repeat (case_match; try done); lia. }
  by rewrite <- E, rev_involutive.
Qed.

(** [printint] prints numbers faithfully. For every 32-bit integer, INT_MIN
    included, the characters of [%d] (base 10) and [%x] (base 16) read back as
    the number, and the digits and sign never overflow the 16-byte buffer. *)
Theorem printint_roundtrip xx base :
  base = 10 ∨ base = 16 → - 2 ^ 31 ≤ xx < 2 ^ 31 →
  parse_int base (printint xx base true) = xx ∧
  (length (printint_buf xx base true) ≤ 16)%nat.
Proof.
  intros Hbase Hxx. unfold printint, printint_buf. cbn [andb].
  assert (2 ≤ base ≤ 16) as Hb by lia.
  assert (∀ x, 0 ≤ x < 2 ^ 32 → 0 ≤ x < base ^ Z.of_nat 32 ∧ 0 ≤ x < base ^ Z.of_nat 15) as Hpow.
  { intros x Hx. destruct Hbase as [-> | ->]; simpl; lia. }
  destruct (Z.ltb_spec xx 0) as [Hn|Hp].
  - rewrite u32_small by lia. destruct (Hpow (- xx)) as [P1 P2]; [lia|].
    rewrite rev_app_distr. split.
    + change (rev [45] ++ ?l) with (45 :: l).
      rewrite (proj2 (printint_sign_digits 32 (- xx) base Hb P1 ltac:(lia))). lia.
    + rewrite length_app. pose proof (printint_digits_length 15 32 (- xx) base). change (length [45]) with 1%nat. lia.
  - rewrite u32_small by lia. destruct (Hpow xx) as [P1 P2]; [lia|].
    rewrite app_nil_r. split.
    + apply printint_sign_digits; done || lia.
    + pose proof (printint_digits_length 15 32 xx base). lia.
Qed.

Lemma printint_roundtrip_witness :
  parse_int 10 (printint (- 2147483648) 10 true) = - 2147483648.
Proof. apply (printint_roundtrip (-2147483648) 10); [left; reflexivity|lia]. Defined.
