(* ===== verification/Spinlock.v ===== *)
(** * Spin locks ([kernel/spinlock.c])

    The state is the lock words and, per CPU, the interrupt-enable bit of
    [sstatus] and the [push_off] bookkeeping of [struct cpu]. The routines
    are executable state transformers for the CPU [me]. Their atomic pieces
    are then interleaved across CPUs by the relation [step], with one program
    counter per CPU, to state mutual exclusion. [LockSet] is the view the
    other components use, the list of locks this CPU holds; the routines of
    [Spin] are shown to implement it. *)

From S2P Require Import Prelude.
From S2P Require Import Machine.
#[local] Open Scope Z_scope.

(** ** The view of the other components: the locks held by this CPU *)

(** A state that records which locks the running CPU holds. *)
Class LockSet (S L : Type) `{EqDecision L} := {
  held_locks : S → list L;
  set_held : list L → S → S;
  held_set : ∀ ls s, held_locks (set_held ls s) = ls;
  set_set : ∀ ls1 ls2 s, set_held ls1 (set_held ls2 s) = set_held ls1 s;
  set_get : ∀ s, set_held (held_locks s) s = s
}.

Section held_ops.
Context {S L : Type} `{LockSet S L}.

Definition acquire_lk (l : L) : M S unit := λ s,
  if decide (l ∈ held_locks s) then Panic "acquire" s
  else Ret tt (set_held (l :: held_locks s) s).
Definition release_lk (l : L) : M S unit := λ s,
  if decide (l ∈ held_locks s) then Ret tt (set_held (filter (λ x, x ≠ l) (held_locks s)) s)
  else Panic "release" s.
Definition holding_lk (l : L) : M S bool := gets (λ s, bool_decide (l ∈ held_locks s)).

Lemma acquire_lk_free l s :
  l ∉ held_locks s → acquire_lk l s = Ret tt (set_held (l :: held_locks s) s).
Proof. intros. unfold acquire_lk. by rewrite decide_False. Qed.

Lemma release_lk_head l hs s :
  l ∉ hs → held_locks s = l :: hs → release_lk l s = Ret tt (set_held hs s).
Proof.
  intros Hl E. unfold release_lk. rewrite E, decide_True by (by left).
  rewrite filter_cons_False by (intros H'; by apply H').
  rewrite list_filter_all; [done|]. intros x Hx ->. done.
Qed.
End held_ops.

(** ** spinlock.c *)

Module Spin.

(** [struct spinlock]: [lk_cpu] is the index of the owning [struct cpu]. *)
Record spinlock := mk_spinlock {
  lk_locked : Z;
  lk_name : string;
  lk_cpu : option nat
}.
#[export] Instance spinlock_eta : Settable spinlock :=
  λ l, mk_spinlock (lk_locked l) (lk_name l) (lk_cpu l).

(** The part of [struct cpu] the locks use, and the hart's SIE bit. *)
Record cpu := mk_cpu {
  noff : Z;
  intena : bool;
  sie : bool
}.
#[export] Instance cpu_eta : Settable cpu := λ c, mk_cpu (noff c) (intena c) (sie c).

Record lstate := mk_lstate {
  cpus : nat → cpu;
  locks : nat → spinlock
}.
#[export] Instance lstate_eta : Settable lstate := λ s, mk_lstate (cpus s) (locks s).

(** Functional update of one CPU or lock. *)
Definition fupd {A} (f : nat → A) (i : nat) (x : A) : nat → A :=
  λ j, if decide (j = i) then x else f j.

Lemma fupd_eq {A} (f : nat → A) i x : fupd f i x i = x.
Proof. unfold fupd. by rewrite decide_True. Qed.
Lemma fupd_ne {A} (f : nat → A) i j x : j ≠ i → fupd f i x j = f j.
Proof. intros. unfold fupd. by rewrite decide_False. Qed.

Definition set_cpu (i : nat) (c : cpu) : M lstate unit :=
  modify (λ s, s <| cpus := fupd (cpus s) i c |>).
Definition set_lock (l : nat) (k : spinlock) : M lstate unit :=
  modify (λ s, s <| locks := fupd (locks s) l k |>).

(** [intr_get], [intr_off], [intr_on] of riscv.h. *)
Definition intr_get (me : nat) : M lstate bool := gets (λ s, sie (cpus s me)).
Definition intr_off (me : nat) : M lstate unit :=
  let! c := gets (λ s, cpus s me) in set_cpu me (c <| sie := false |>).
Definition intr_on (me : nat) : M lstate unit :=
  let! c := gets (λ s, cpus s me) in set_cpu me (c <| sie := true |>).

Definition initlock (l : nat) (name : string) : M lstate unit :=
  set_lock l (mk_spinlock 0 name None).

Definition push_off (me : nat) : M lstate unit :=
  let! old := intr_get me in
  do! intr_off me in
  let! c := gets (λ s, cpus s me) in
  do! (if noff c =? 0 then set_cpu me (c <| intena := old |>) else ret tt) in
  let! c := gets (λ s, cpus s me) in
  set_cpu me (c <| noff := noff c + 1 |>).

Definition pop_off (me : nat) : M lstate unit :=
  let! on := intr_get me in
  if on then panic "pop_off - interruptible" else
  let! c := gets (λ s, cpus s me) in
  if noff c <? 1 then panic "pop_off" else
  do! set_cpu me (c <| noff := noff c - 1 |>) in
  let! c := gets (λ s, cpus s me) in
  if (noff c =? 0) && intena c then intr_on me else ret tt.

Definition holding (me l : nat) : M lstate bool :=
  gets (λ s, negb (lk_locked (locks s l) =? 0) && bool_decide (lk_cpu (locks s l) = Some me)).

(** [__sync_lock_test_and_set(&lk->locked, 1)]: the atomic swap. *)
Definition test_and_set (l : nat) : M lstate Z :=
  let! k := gets (λ s, locks s l) in
  do! set_lock l (k <| lk_locked := 1 |>) in
  ret (lk_locked k).

(** [while(test_and_set != 0);] spinning at most [fuel] times. *)
Definition spin (fuel l : nat) : M lstate unit :=
  loop fuel (λ _ : unit, let! old := test_and_set l in
                         ret (if old =? 0 then inr tt else inl tt)) tt.

Definition acquire (fuel me l : nat) : M lstate unit :=
  do! push_off me in
  let! h := holding me l in
  if h then panic "acquire" else
  do! spin fuel l in
  let! k := gets (λ s, locks s l) in
  set_lock l (k <| lk_cpu := Some me |>).

Definition release (me l : nat) : M lstate unit :=
  let! h := holding me l in
  if negb h then panic "release" else
  let! k := gets (λ s, locks s l) in
  do! set_lock l (k <| lk_cpu := None |>) in
  let! k := gets (λ s, locks s l) in
  do! set_lock l (k <| lk_locked := 0 |>) in
  pop_off me.

(** ** Sequential behaviour *)

Definition holds (me l : nat) (s : lstate) : Prop :=
  lk_locked (locks s l) ≠ 0 ∧ lk_cpu (locks s l) = Some me.
#[export] Instance holds_dec me l s : Decision (holds me l s).
Proof. unfold holds. apply _. Defined.

Lemma holding_spec me l s : holding me l s = Ret (bool_decide (holds me l s)) s.
Proof.
  unfold holding, gets, holds. f_equal.
  destruct (Z.eqb_spec (lk_locked (locks s l)) 0); simpl.
  - rewrite bool_decide_false; [done|]. by intros [].
  - apply bool_decide_ext. tauto.
Qed.

(** The effect of [push_off] on a CPU. *)
Definition pushed (c : cpu) : cpu :=
  mk_cpu (noff c + 1) (if noff c =? 0 then sie c else intena c) false.
(** The effect of [pop_off] on a CPU. *)
Definition popped (c : cpu) : cpu :=
  mk_cpu (noff c - 1) (intena c) ((noff c =? 1) && intena c).

Lemma push_off_spec me s :
  ∃ s', push_off me s = Ret tt s' ∧ cpus s' me = pushed (cpus s me) ∧
        (∀ i, i ≠ me → cpus s' i = cpus s i) ∧ locks s' = locks s.
Proof.
  unfold push_off, intr_get, intr_off, set_cpu, bind, gets, modify, pushed; simpl.
  rewrite fupd_eq. simpl.
  destruct (Z.eqb_spec (noff (cpus s me)) 0) as [E|E]; simpl;
    eexists; (split; [done|]); simpl; rewrite ?fupd_eq; simpl;
    (split; [done|]); split; try done; intros i Hi; by rewrite !fupd_ne.
Qed.

Lemma pop_off_spec me s :
  sie (cpus s me) = false → 1 ≤ noff (cpus s me) →
  ∃ s', pop_off me s = Ret tt s' ∧ cpus s' me = popped (cpus s me) ∧
        (∀ i, i ≠ me → cpus s' i = cpus s i) ∧ locks s' = locks s.
Proof.
  intros Hsie Hn.
  unfold pop_off, intr_get, intr_on, set_cpu, bind, gets, modify, popped; simpl.
  rewrite Hsie. destruct (Z.ltb_spec (noff (cpus s me)) 1); [lia|].
  rewrite fupd_eq. simpl. rewrite ?Hsie.
  destruct (Z.eqb_spec (noff (cpus s me) - 1) 0) as [E|E],
    (Z.eqb_spec (noff (cpus s me)) 1) as [E'|E']; try lia; simpl.
  - destruct (intena (cpus s me)) eqn:Hi; simpl; eexists; (split; [done|]); simpl;
      rewrite ?fupd_eq; simpl_upd; rewrite ?Hi, ?Hsie; (split; [done|]);
      split; try done; intros i Hne; by rewrite !fupd_ne.
  - eexists. split; [done|]. simpl. rewrite fupd_eq. simpl_upd. rewrite ?Hsie. split; [done|].
    split; [|done]. intros i Hne. by rewrite fupd_ne.
Qed.

Lemma acquire_spec fuel me l s :
  lk_locked (locks s l) = 0 →
  ∃ s', acquire (S fuel) me l s = Ret tt s' ∧ holds me l s' ∧
        cpus s' me = pushed (cpus s me) ∧
        (∀ l', l' ≠ l → locks s' l' = locks s l').
Proof.
  intros Hfree. unfold acquire.
  destruct (push_off_spec me s) as (s1 & E1 & Hc & Ho & Hl).
  rewrite (bind_eq _ _ _ _ _ E1), (bind_eq _ _ _ _ _ (holding_spec me l s1)).
  rewrite bool_decide_false; [|by intros [H _]; rewrite Hl in H].
  unfold spin, test_and_set, set_lock, bind, gets, modify; simpl.
  unfold bind, ret; simpl. rewrite Hl, Hfree. simpl.
  eexists. split; [done|]. simpl. unfold holds; simpl. rewrite !fupd_eq. simpl.
  split; [done|]. split; [done|]. intros l' Hne. by rewrite !fupd_ne.
Qed.

Lemma acquire_panics fuel me l s :
  holds me l s → ∃ s', acquire fuel me l s = Panic "acquire" s'.
Proof.
  intros Hh. unfold acquire.
  destruct (push_off_spec me s) as (s1 & E1 & Hc & Ho & Hl).
  rewrite (bind_eq _ _ _ _ _ E1), (bind_eq _ _ _ _ _ (holding_spec me l s1)).
  rewrite bool_decide_true; [|unfold holds in *; by rewrite Hl].
  eexists. done.
Qed.

Lemma release_spec me l s :
  holds me l s → sie (cpus s me) = false → 1 ≤ noff (cpus s me) →
  ∃ s', release me l s = Ret tt s' ∧ lk_locked (locks s' l) = 0 ∧
        lk_cpu (locks s' l) = None ∧ cpus s' me = popped (cpus s me) ∧
        (∀ l', l' ≠ l → locks s' l' = locks s l').
Proof.
  intros Hh Hs Hn. unfold release.
  rewrite (bind_eq _ _ _ _ _ (holding_spec me l s)), bool_decide_true by done.
  simpl. unfold set_lock, bind, gets, modify; simpl.
  set (s2 := s <| locks := _ |> <| locks := _ |>).
  destruct (pop_off_spec me s2) as (s' & E & Hc & Ho & Hl); [done..|].
  exists s'. split; [apply E|]. rewrite Hl. subst s2; simpl. rewrite !fupd_eq. simpl.
  split; [done|]. split; [done|]. split; [done|]. intros l' Hne. by rewrite !fupd_ne.
Qed.

(** ** Interleaving across CPUs *)

(** Where a CPU is between two atomic pieces of [acquire] or [release]. *)
Inductive pc :=
| Run
| AcqCheck (l : nat)     (** after [push_off] *)
| AcqSpin (l : nat)      (** in the test-and-set loop *)
| AcqRec (l : nat)       (** got the word, [lk->cpu] not yet recorded *)
| RelClear (l : nat)     (** [holding] was checked *)
| RelUnlock (l : nat)    (** [lk->cpu] cleared *)
| RelPop.                (** lock word released *)

#[export] Instance pc_eq_dec : EqDecision pc.
Proof. solve_decision. Defined.

Record sys := mk_sys {
  ls : lstate;
  pcs : nat → pc;
  held : nat → list nat   (** locks whose [acquire] returned, per CPU *)
}.

(** One atomic step of CPU [i]. A CPU in [Run] may start any [acquire], or
    any [release] that passes the [holding] check, and may toggle its own
    interrupts while no [push_off] is in force. *)
Inductive step (i : nat) : sys → sys → Prop :=
| st_acquire l s p h s' :
    p i = Run → push_off i s = Ret tt s' →
    step i (mk_sys s p h) (mk_sys s' (fupd p i (AcqCheck l)) h)
| st_check l s p h :
    p i = AcqCheck l → holding i l s = Ret false s →
    step i (mk_sys s p h) (mk_sys s (fupd p i (AcqSpin l)) h)
| st_tas l s p h old s' :
    p i = AcqSpin l → test_and_set l s = Ret old s' →
    step i (mk_sys s p h)
      (mk_sys s' (fupd p i (if old =? 0 then AcqRec l else AcqSpin l)) h)
| st_record l s p h s' :
    p i = AcqRec l → set_lock l ((locks s l) <| lk_cpu := Some i |>) s = Ret tt s' →
    step i (mk_sys s p h) (mk_sys s' (fupd p i Run) (fupd h i (l :: h i)))
| st_release l s p h :
    p i = Run → holding i l s = Ret true s →
    step i (mk_sys s p h)
      (mk_sys s (fupd p i (RelClear l)) (fupd h i (filter (λ x, x ≠ l) (h i))))
| st_clear l s p h s' :
    p i = RelClear l → set_lock l ((locks s l) <| lk_cpu := None |>) s = Ret tt s' →
    step i (mk_sys s p h) (mk_sys s' (fupd p i (RelUnlock l)) h)
| st_unlock l s p h s' :
    p i = RelUnlock l → set_lock l ((locks s l) <| lk_locked := 0 |>) s = Ret tt s' →
    step i (mk_sys s p h) (mk_sys s' (fupd p i RelPop) h)
| st_pop s p h s' :
    p i = RelPop → pop_off i s = Ret tt s' →
    step i (mk_sys s p h) (mk_sys s' (fupd p i Run) h)
| st_intr s p h b :
    p i = Run → noff (cpus s i) = 0 →
    step i (mk_sys s p h)
      (mk_sys (s <| cpus := fupd (cpus s) i ((cpus s i) <| sie := b |>) |>) p h).

Inductive reachable : sys → Prop :=
| reach_init s :
    (∀ l, lk_locked (locks s l) = 0 ∧ lk_cpu (locks s l) = None) →
    (∀ i, noff (cpus s i) = 0) →
    reachable (mk_sys s (λ _, Run) (λ _, []))
| reach_step i s s' : reachable s → step i s s' → reachable s'.

(** The locks a CPU owns by its program counter. *)
Definition pc_owns (p : pc) (l : nat) : Prop :=
  p = AcqRec l ∨ p = RelClear l ∨ p = RelUnlock l.
Definition owns (s : sys) (i l : nat) : Prop := l ∈ held s i ∨ pc_owns (pcs s i) l.
(** Nested [push_off]s accounted for by the program counter. *)
Definition pc_depth (p : pc) : Z := if decide (p = Run) then 0 else 1.

Record inv (s : sys) : Prop := {
  inv_excl : ∀ i j l, owns s i l → owns s j l → i = j;
  inv_locked : ∀ i l, owns s i l → lk_locked (locks (ls s) l) ≠ 0;
  inv_cpu : ∀ i l, lk_cpu (locks (ls s) l) = Some i → l ∈ held s i ∨ pcs s i = RelClear l;
  inv_held : ∀ i l, l ∈ held s i → lk_cpu (locks (ls s) l) = Some i ∧ ¬ pc_owns (pcs s i) l;
  inv_nodup : ∀ i, NoDup (held s i);
  inv_depth : ∀ i, noff (cpus (ls s) i) = Z.of_nat (length (held s i)) + pc_depth (pcs s i);
  inv_sie : ∀ i, 0 < noff (cpus (ls s) i) → sie (cpus (ls s) i) = false
}.

Lemma inv_init s :
  (∀ l, lk_locked (locks s l) = 0 ∧ lk_cpu (locks s l) = None) →
  (∀ i, noff (cpus s i) = 0) → inv (mk_sys s (λ _, Run) (λ _, [])).
Proof.
  intros Hl Hn.
  assert (∀ i l, ¬ owns (mk_sys s (λ _, Run) (λ _, [])) i l) as Hno.
  { intros i l [H|[H|[H|H]]]; simpl in H; [by apply elem_of_nil in H|done..]. }
  split; simpl.
  - intros i j l H. by apply Hno in H.
  - intros i l H. by apply Hno in H.
  - intros i l H. destruct (Hl l). congruence.
  - intros i l H. by apply elem_of_nil in H.
  - constructor.
  - intros i. rewrite Hn. unfold pc_depth. rewrite decide_True by done. done.
  - intros i H. rewrite Hn in H. lia.
Qed.

(** Case analysis on whether an index is the stepping CPU or the lock. *)
Ltac by_index i j :=
  destruct (decide (i = j)) as [->|?];
  [rewrite ?fupd_eq in *|rewrite ?fupd_ne in * by done].

(** A step of [i] that leaves locks and held sets alone and moves the program
    counter between two points that own nothing keeps the invariant. *)
Lemma inv_move i s s' p h p' :
  inv (mk_sys s p h) → locks s' = locks s →
  (∀ j, j ≠ i → cpus s' j = cpus s j) →
  (∀ l, ¬ pc_owns (p i) l) → (∀ l, ¬ pc_owns p' l) →
  noff (cpus s' i) = noff (cpus s i) + pc_depth p' - pc_depth (p i) →
  (0 < noff (cpus s' i) → sie (cpus s' i) = false) →
  inv (mk_sys s' (fupd p i p') h).
Proof.
  intros [He Hk Hc Hh Hn Hd Hs] Hlk Hcpu Hno Hno' Hnoff Hsie.
  assert (∀ j l, owns (mk_sys s' (fupd p i p') h) j l → owns (mk_sys s p h) j l) as Hown.
  { intros j l [H|H]; simpl in *; [by left|]. by_index j i; [by apply Hno' in H|by right]. }
  split; simpl in *; rewrite ?Hlk; eauto.
  - intros j l H. destruct (Hc j l H) as [?|E]; [by left|].
    by_index j i; [|by right]. destruct (Hno l). right. by left.
  - intros j l H. destruct (Hh j l H) as [E1 E2]. split; [done|]. by_index j i; auto.
  - intros j. by_index j i; [rewrite Hnoff, Hd; lia|rewrite Hcpu by done; apply Hd].
  - intros j H. by_index j i; [auto|rewrite Hcpu in * by done; auto].
Qed.

Lemma pc_owns_Run l : ¬ pc_owns Run l.
Proof. by intros [H|[H|H]]. Qed.
Lemma pc_owns_inj p l l' : pc_owns p l → pc_owns p l' → l = l'.
Proof. intros [-> | [-> | ->]] [H|[H|H]]; congruence. Qed.

(** Getting the lock word makes [i] the owner. *)
Lemma inv_take i l s p h :
  inv (mk_sys s p h) → p i = AcqSpin l → lk_locked (locks s l) = 0 →
  inv (mk_sys (s <| locks := fupd (locks s) l ((locks s l) <| lk_locked := 1 |>) |>)
         (fupd p i (AcqRec l)) h).
Proof.
  intros [He Hk Hc Hh Hn Hd Hs] Hp Hfree.
  assert (∀ j, ¬ owns (mk_sys s p h) j l) as Hfree'.
  { intros j H. by apply Hk in H. }
  assert (∀ j l', owns (mk_sys (s <| locks := fupd (locks s) l ((locks s l) <| lk_locked := 1 |>) |>)
            (fupd p i (AcqRec l)) h) j l' →
          (j = i ∧ l' = l) ∨ (l' ≠ l ∧ owns (mk_sys s p h) j l')) as Hown.
  { intros j l' H. destruct (decide (l' = l)) as [->|].
    - left. split; [|done]. destruct H as [H|H]; simpl in *.
      + destruct (Hfree' j). by left.
      + by_index j i; [done|]. destruct (Hfree' j). by right.
    - right. split; [done|]. destruct H as [H|H]; simpl in *; [by left|].
      by_index j i; [|by right]. destruct H as [H|[H|H]]; congruence. }
  split; simpl in *.
  - intros j k l' H1 H2. apply Hown in H1, H2.
    destruct H1 as [[-> ->]|[? H1]], H2 as [[-> ?]|[? H2]]; try done. eauto.
  - intros j l' H. apply Hown in H as [[-> ->]|[? H]].
    + by rewrite fupd_eq.
    + rewrite fupd_ne by done. eauto.
  - intros j l' H. assert (lk_cpu (locks s l') = Some j) as H'.
    { by_index l' l; done. }
    destruct (Hc j l' H') as [?|E]; [by left|]. by_index j i; [congruence|by right].
  - intros j l' H. destruct (Hh j l' H) as [E1 E2]. split; [by_index l' l; done|].
    by_index j i; [|done]. intros H'. destruct H' as [H'|[H'|H']]; try congruence.
    injection H' as ->. destruct (Hfree' i). by left.
  - done.
  - intros j. specialize (Hd j). by_index j i; [|done]. rewrite Hd, Hp. done.
  - done.
Qed.

(** Recording [lk->cpu] completes [acquire]. *)
Lemma inv_record i l s p h :
  inv (mk_sys s p h) → p i = AcqRec l →
  inv (mk_sys (s <| locks := fupd (locks s) l ((locks s l) <| lk_cpu := Some i |>) |>)
         (fupd p i Run) (fupd h i (l :: h i))).
Proof.
  intros [He Hk Hc Hh Hn Hd Hs] Hp.
  assert (owns (mk_sys s p h) i l) as Hil by (right; left; done).
  assert (l ∉ h i) as Hnew.
  { intros H. destruct (Hh i l H) as [_ H']. apply H'. by left. }
  assert (∀ j l', owns (mk_sys (s <| locks := fupd (locks s) l ((locks s l) <| lk_cpu := Some i |>) |>)
            (fupd p i Run) (fupd h i (l :: h i))) j l' → owns (mk_sys s p h) j l') as Hown.
  { intros j l' [H|H]; simpl in *; by_index j i.
    - apply elem_of_cons in H as [->|H]; [done|by left].
    - by left.
    - by apply pc_owns_Run in H.
    - by right. }
  split; simpl in *.
  - eauto.
  - intros j l' H. apply Hown, Hk in H. by_index l' l; done.
  - intros j l' H. by_index l' l; simpl in H.
    + injection H as <-. left. rewrite fupd_eq. by left.
    + destruct (Hc j l' H) as [Hin|E].
      * left. by_index j i; [by right|done].
      * by_index j i; [congruence|by right].
  - intros j l' H. split.
    + by_index l' l; simpl.
      * f_equal. symmetry. apply (He j i l); [|done]. apply Hown. by left.
      * by_index j i; [|by apply Hh].
        apply elem_of_cons in H as [->|H]; [done|by apply Hh].
    + by_index j i; [apply pc_owns_Run|by apply Hh].
  - intros j. by_index j i; [constructor; auto|done].
  - intros j. specialize (Hd j). by_index j i; [|done]. rewrite Hd, Hp.
    unfold pc_depth. rewrite decide_False, decide_True by done. simpl. lia.
  - done.
Qed.

(** The [holding] check of [release] moves ownership to the program counter. *)
Lemma inv_release i l s p h :
  inv (mk_sys s p h) → p i = Run → holds i l s →
  inv (mk_sys s (fupd p i (RelClear l)) (fupd h i (filter (λ x, x ≠ l) (h i)))).
Proof.
  intros [He Hk Hc Hh Hn Hd Hs] Hp [Hlk Hcpu].
  destruct (Hc i l Hcpu) as [Hin|Hbad]; simpl in *; [|congruence].
  assert (∀ j l', owns (mk_sys s (fupd p i (RelClear l)) (fupd h i (filter (λ x, x ≠ l) (h i)))) j l'
     → owns (mk_sys s p h) j l') as Hown.
  { intros j l' [H|H]; simpl in *; by_index j i.
    - apply list_elem_of_filter in H as [_ H]. by left.
    - by left.
    - left. destruct H as [H|[H|H]]; simplify_eq. done.
    - by right. }
  split; simpl in *.
  - eauto.
  - eauto.
  - intros j l' H. destruct (Hc j l' H) as [H'|E].
    + by_index j i; [|by left]. destruct (decide (l' = l)) as [->|]; [by right|].
      left. by apply list_elem_of_filter.
    + by_index j i; [congruence|by right].
  - intros j l' H. by_index j i; [|by apply Hh].
    apply list_elem_of_filter in H as [Hne H]. split; [by apply Hh|].
    intros [E|[E|E]]; congruence.
  - intros j. by_index j i; [by apply NoDup_filter|done].
  - intros j. specialize (Hd j). by_index j i; [|done]. rewrite Hd, Hp.
    pose proof (Hn i) as Hnd. unfold pc_depth.
    rewrite decide_True, decide_False by done.
    apply list_elem_of_split in Hin as (h1 & h2 & E). rewrite E in *.
    apply NoDup_app in Hnd as (_ & Hd1 & Hd2). apply NoDup_cons in Hd2 as [Hd2 _].
    rewrite filter_app, filter_cons_False by (intros H; by apply H).
    rewrite !list_filter_all.
    + rewrite !length_app. simpl. lia.
    + intros x Hx ->. done.
    + intros x Hx ->. apply (Hd1 l Hx). by left.
  - done.
Qed.

(** Clearing [lk->cpu] and then the lock word ends ownership. *)
Lemma inv_clear i l s p h :
  inv (mk_sys s p h) → p i = RelClear l →
  inv (mk_sys (s <| locks := fupd (locks s) l ((locks s l) <| lk_cpu := None |>) |>)
         (fupd p i (RelUnlock l)) h).
Proof.
  intros [He Hk Hc Hh Hn Hd Hs] Hp.
  assert (owns (mk_sys s p h) i l) as Hil by (right; right; left; done).
  assert (∀ j l', owns (mk_sys (s <| locks := fupd (locks s) l ((locks s l) <| lk_cpu := None |>) |>)
            (fupd p i (RelUnlock l)) h) j l' → owns (mk_sys s p h) j l') as Hown.
  { intros j l' [H|H]; simpl in *; [by left|]. by_index j i; [|by right].
    right. destruct H as [H|[H|H]]; simplify_eq. right. by left. }
  split; simpl in *.
  - eauto.
  - intros j l' H. apply Hown, Hk in H. by_index l' l; done.
  - intros j l' H. by_index l' l; simpl in H; [done|].
    destruct (Hc j l' H) as [?|E]; [by left|]. by_index j i; [congruence|by right].
  - intros j l' H. destruct (decide (l' = l)) as [->|].
    + assert (j = i) as -> by (apply (He j i l); [by left|done]).
      destruct (Hh i l H) as [_ []]. right. by left.
    + rewrite fupd_ne by done. destruct (Hh j l' H) as [E1 E2]. split; [done|].
      by_index j i; [|done]. intros [E|[E|E]]; simplify_eq.
  - done.
  - intros j. specialize (Hd j). by_index j i; [|done]. rewrite Hd, Hp. done.
  - done.
Qed.

Lemma inv_unlock i l s p h :
  inv (mk_sys s p h) → p i = RelUnlock l →
  inv (mk_sys (s <| locks := fupd (locks s) l ((locks s l) <| lk_locked := 0 |>) |>)
         (fupd p i RelPop) h).
Proof.
  intros [He Hk Hc Hh Hn Hd Hs] Hp.
  assert (owns (mk_sys s p h) i l) as Hil by (right; right; right; done).
  assert (∀ j l', owns (mk_sys (s <| locks := fupd (locks s) l ((locks s l) <| lk_locked := 0 |>) |>)
            (fupd p i RelPop) h) j l' → l' ≠ l ∧ owns (mk_sys s p h) j l') as Hown.
  { intros j l' H. assert (owns (mk_sys s p h) j l') as H'.
    { destruct H as [H|H]; simpl in *; [by left|]. by_index j i; [|by right].
      destruct H as [H|[H|H]]; simplify_eq. }
    split; [|done]. intros ->. assert (j = i) as -> by eauto.
    destruct H as [H|H]; simpl in *.
    - destruct (Hh i l H) as [_ []]. right. by right.
    - rewrite fupd_eq in H. destruct H as [H|[H|H]]; simplify_eq. }
  split; simpl in *.
  - intros j k l' [_ H1]%Hown [_ H2]%Hown. eauto.
  - intros j l' [? H]%Hown. rewrite fupd_ne by done. eauto.
  - intros j l' H. assert (lk_cpu (locks s l') = Some j) as H'.
    { by_index l' l; done. }
    destruct (Hc j l' H') as [?|E]; [by left|]. by_index j i; [congruence|by right].
  - intros j l' H. destruct (Hh j l' H) as [E1 E2]. split; [by_index l' l; done|].
    by_index j i; [|done]. intros [E|[E|E]]; simplify_eq.
  - done.
  - intros j. specialize (Hd j). by_index j i; [|done]. rewrite Hd, Hp. done.
  - done.
Qed.

Lemma pc_depth_busy p : p ≠ Run → pc_depth p = 1.
Proof. intros. unfold pc_depth. by rewrite decide_False. Qed.

Lemma inv_step i s s' : inv s → step i s s' → inv s'.
Proof.
  intros Hinv Hst. destruct Hst as [l s p h s' Hp E|l s p h Hp E|l s p h old s' Hp E
    |l s p h s' Hp E|l s p h Hp E|l s p h s' Hp E|l s p h s' Hp E|s p h s' Hp E|s p h b Hp Hn].
  - destruct (push_off_spec i s) as (s1 & E1 & Hc & Ho & Hl).
    rewrite E1 in E. injection E as <-.
    apply (inv_move i s); auto; rewrite ?Hp; try (intros l'; by intros [H|[H|H]]).
    + rewrite Hc. unfold pushed, pc_depth. simpl. lia.
    + rewrite Hc. done.
  - apply (inv_move i s); auto; rewrite ?Hp; try (intros l'; by intros [H|[H|H]]).
    + rewrite !pc_depth_busy by done. lia.
    + apply (inv_sie _ Hinv).
  - unfold test_and_set, set_lock, bind, gets, modify, ret in E. simplify_eq/=.
    destruct (Z.eqb_spec (lk_locked (locks s l)) 0) as [E0|E0]; [by apply inv_take|].
    assert (∀ p', inv (mk_sys s p' h) →
      inv (mk_sys (s <| locks := fupd (locks s) l ((locks s l) <| lk_locked := 1 |>) |>) p' h)) as Hset.
    { intros p' [He Hk Hc Hh Hnd Hd Hs]. split; simpl in *; eauto.
      - intros j l' H. by_index l' l; [done|]. eauto.
      - intros j l' H. apply Hc. by_index l' l; done.
      - intros j l' H. destruct (Hh j l' H). split; [by_index l' l; done|done]. }
    apply Hset. apply (inv_move i s); auto; rewrite ?Hp; try (intros l'; by intros [H|[H|H]]).
    + lia.
    + apply (inv_sie _ Hinv).
  - unfold set_lock, modify in E. simplify_eq/=. by apply inv_record.
  - rewrite holding_spec in E. apply inv_release; [done..|].
    apply (bool_decide_unpack (holds i l s)). apply Is_true_true. congruence.
  - unfold set_lock, modify in E. simplify_eq/=. by apply inv_clear.
  - unfold set_lock, modify in E. simplify_eq/=. by apply inv_unlock.
  - assert (1 ≤ noff (cpus s i)) as Hn.
    { pose proof (inv_depth _ Hinv i) as Hd. simpl in Hd.
      rewrite Hp, pc_depth_busy in Hd by done. lia. }
    destruct (pop_off_spec i s) as (s1 & E1 & Hc & Ho & Hl);
      [apply (inv_sie _ Hinv); simpl; lia|done|].
    rewrite E1 in E. injection E as <-.
    apply (inv_move i s); auto; rewrite ?Hp; try (intros l'; by intros [H|[H|H]]).
    + rewrite Hc. unfold popped, pc_depth. simpl. lia.
    + rewrite Hc. unfold popped. simpl. intros ?.
      destruct (Z.eqb_spec (noff (cpus s i)) 1); [lia|done].
  - destruct Hinv as [He Hk Hc Hh Hnd Hd Hs]. split; simpl in *; eauto.
    + intros j. specialize (Hd j). by_index j i; done.
    + intros j Hj. by_index j i; simpl in *; [lia|eauto].
Qed.

Lemma reachable_inv s : reachable s → inv s.
Proof. induction 1; eauto using inv_init, inv_step. Qed.

(** The lock state [s], seen from CPU [me], is the held list [hs]. *)
Record held_rel (me : nat) (s : lstate) (hs : list nat) : Prop := {
  rel_holds : ∀ l, holds me l s ↔ l ∈ hs;
  rel_nodup : NoDup hs;
  rel_depth : noff (cpus s me) = Z.of_nat (length hs);
  rel_sie : hs ≠ [] → sie (cpus s me) = false
}.

Lemma holds_frame me l s s' :
  locks s' l = locks s l → holds me l s' ↔ holds me l s.
Proof. unfold holds. by intros ->. Qed.

Lemma acquire_held_rel fuel me l s hs :
  held_rel me s hs → lk_locked (locks s l) = 0 →
  ∃ s', acquire (S fuel) me l s = Ret tt s' ∧ l ∉ hs ∧ held_rel me s' (l :: hs).
Proof.
  intros [Hh Hn Hd Hs] Hf. destruct (acquire_spec fuel me l s Hf) as (s' & E & Hl & Hc & Ho).
  assert (l ∉ hs) as Hnew. { rewrite <- Hh. by intros [? _]. }
  exists s'. split; [done|]. split; [done|]. split.
  - intros l'. rewrite elem_of_cons. destruct (decide (l' = l)) as [->|Hne].
    + naive_solver.
    + rewrite (holds_frame me l' s) by auto. rewrite Hh. naive_solver.
  - by constructor.
  - rewrite Hc. unfold pushed. simpl. lia.
  - intros _. rewrite Hc. done.
Qed.

Lemma release_held_rel me l s hs :
  held_rel me s hs → l ∈ hs →
  ∃ s', release me l s = Ret tt s' ∧ held_rel me s' (filter (λ x, x ≠ l) hs).
Proof.
  intros [Hh Hn Hd Hs] Hl.
  assert (hs ≠ []) as Hne by (intros ->; by apply elem_of_nil in Hl).
  assert (1 ≤ noff (cpus s me)) by (rewrite Hd; destruct hs; simpl in *; [done|lia]).
  destruct (release_spec me l s) as (s' & E & H1 & H2 & Hc & Ho); [by apply Hh|auto|done|].
  exists s'. split; [done|]. split.
  - intros l'. rewrite list_elem_of_filter. destruct (decide (l' = l)) as [->|Hne'].
    + unfold holds. rewrite H1. naive_solver.
    + rewrite (holds_frame me l' s) by auto. rewrite Hh. naive_solver.
  - by apply NoDup_filter.
  - rewrite Hc. unfold popped. simpl. rewrite Hd.
    apply list_elem_of_split in Hl as (h1 & h2 & ->).
    apply NoDup_app in Hn as (_ & Hd1 & Hd2). apply NoDup_cons in Hd2 as [Hd2 _].
    rewrite filter_app, filter_cons_False by (intros H'; by apply H').
    rewrite !list_filter_all, !length_app; simpl; [lia| |].
    + intros x Hx ->. done.
    + intros x Hx ->. apply (Hd1 l Hx). by left.
  - rewrite Hc. unfold popped. simpl. intros Hne'.
    destruct (Z.eqb_spec (noff (cpus s me)) 1) as [E1|E1]; [|done].
    rewrite Hd in E1. destruct hs as [|a [|b hs']]; simpl in E1; [lia| |lia].
    apply list_elem_of_singleton in Hl as ->. contradict Hne'.
    rewrite filter_cons_False by (intros H'; by apply H'). done.
Qed.

(** ** Properties *)

(** C16: Mutual exclusion. In every state reached by any interleaving of the
    atomic pieces of [acquire] and [release] on any number of CPUs, no two CPUs
    hold the same lock, a CPU that holds a lock runs with interrupts off, and
    [holding] answers true for it. *)
Theorem spinlock_mutual_exclusion s i j l :
  reachable s → l ∈ held s i →
  (l ∈ held s j → i = j) ∧ sie (cpus (ls s) i) = false ∧
  holding i l (ls s) = Ret true (ls s).
Proof.
  intros Hr%reachable_inv Hi. split; [|split].
  - intros Hj. eapply (inv_excl _ Hr); by left.
  - apply (inv_sie _ Hr). rewrite (inv_depth _ Hr).
    assert (0 ≤ pc_depth (pcs s i)) by (unfold pc_depth; case_decide; lia).
    destruct (held s i); [by apply elem_of_nil in Hi|simpl; lia].
  - rewrite holding_spec, bool_decide_true; [done|]. split.
    + apply (inv_locked _ Hr i). by left.
    + apply (inv_held _ Hr). done.
Qed.

(** A machine on which CPU 0 has taken lock 3. *)
Definition demo_start : lstate :=
  mk_lstate (λ _, mk_cpu 0 false true) (λ _, mk_spinlock 0 "demo" None).

Lemma demo_reachable : ∃ s, reachable s ∧ 3%nat ∈ held s 0%nat.
Proof.
  eexists. split.
  - eapply (reach_step 0); [eapply (reach_step 0); [eapply (reach_step 0);
      [eapply (reach_step 0); [apply (reach_init demo_start); done|]|]|]|].
    + apply (st_acquire 0 3); reflexivity.
    + apply st_check; reflexivity.
    + eapply st_tas; reflexivity.
    + apply (st_record 0 3); reflexivity.
  - simpl. rewrite fupd_eq. by left.
Qed.

Lemma spinlock_mutual_exclusion_witness :
  ∃ s, 3%nat ∈ held s 0%nat ∧ sie (cpus (ls s) 0%nat) = false ∧
       holding 0 3 (ls s) = Ret true (ls s).
Proof.
  destruct demo_reachable as (s & Hr & Hin). exists s. split; [exact Hin|].
  exact (proj2 (spinlock_mutual_exclusion s 0 0 3 Hr Hin)).
Defined.

(** The detailed [acquire] and [release] implement the held-list view used
    by the rest of the kernel: on a free lock [acquire] returns and adds it, on
    a lock this CPU already holds it panics, and [release] returns and removes
    exactly the given lock when it is held and panics otherwise. *)
Theorem spinlock_refines_held me s hs l :
  held_rel me s hs →
  (lk_locked (locks s l) = 0 →
     ∃ s', acquire 1 me l s = Ret tt s' ∧ held_rel me s' (l :: hs)) ∧
  (l ∈ hs → ∃ s', acquire 1 me l s = Panic "acquire" s') ∧
  (l ∈ hs → ∃ s', release me l s = Ret tt s' ∧ held_rel me s' (filter (λ x, x ≠ l) hs)) ∧
  (l ∉ hs → release me l s = Panic "release" s).
Proof.
  intros Hr. split_and!; intros Hl.
  - destruct (acquire_held_rel 0 me l s hs Hr Hl) as (s' & E & _ & Hr'). eauto.
  - apply acquire_panics. by apply Hr.
  - by apply release_held_rel.
  - unfold release. rewrite (bind_eq _ _ _ _ _ (holding_spec me l s)).
    rewrite bool_decide_false; [done|]. by rewrite (rel_holds _ _ _ Hr).
Qed.

Lemma spinlock_refines_held_witness :
  ∃ s', acquire 1 0 3 demo_start = Ret tt s' ∧ held_rel 0 s' [3%nat].
Proof.
  refine (proj1 (spinlock_refines_held 0 demo_start [] 3 _) _); [|reflexivity].
  split; [|constructor|reflexivity|done].
  intros l. split; [by intros []|intros H; by apply elem_of_nil in H].
Defined.

End Spin.
