(* ===== verification/Kalloc.v ===== *)
(** * The physical page allocator ([kernel/kalloc.c])

    The free list is threaded through the free pages themselves: the first
    word of a free page is the address of the next one. Each routine's
    critical section under [kmem.lock] is one atomic transformer. *)

From Stdlib Require Import Permutation.
From S2P Require Import Prelude.
From S2P Require Import Machine.
From S2P Require Import KString.
#[local] Open Scope Z_scope.

(** Symbols the linker script provides: the end of the kernel image, the end
    of its text and the physical page holding trampoline.S. *)
Class KernelImage := {
  kend : Z;
  etext : Z;
  trampoline : Z;
  kend_lo : KERNBASE ≤ kend;
  kend_hi : kend ≤ PHYSTOP
}.

(** [kmem.freelist] and the memory the list lives in. *)
Record kmem := mk_kmem {
  mem : memory;
  freelist : Z
}.
#[export] Instance kmem_eta : Settable kmem := λ k, mk_kmem (mem k) (freelist k).

Section kalloc.
Context `{KernelImage}.

Definition kfree (pa : Z) : M kmem unit :=
  if negb (pa mod PGSIZE =? 0) || (pa <? kend) || (PHYSTOP <=? pa)
  then panic "kfree" else
  do! modify (λ k, k <| mem := memset (mem k) pa 1 PGSIZE |>) in
  do! modify (λ k, k <| mem := store64 (mem k) pa (freelist k) |>) in
  modify (λ k, k <| freelist := pa |>).

Definition kalloc : M kmem Z :=
  let! r := gets freelist in
  do! (if r =? 0 then ret tt
       else modify (λ k, k <| freelist := load64 (mem k) r |>)) in
  do! (if r =? 0 then ret tt
       else modify (λ k, k <| mem := memset (mem k) r 5 PGSIZE |>)) in
  ret r.

(** [for(; p + PGSIZE <= pa_end; p += PGSIZE) kfree(p);] *)
Fixpoint freerange_loop (fuel : nat) (p pa_end : Z) : M kmem unit :=
  match fuel with
  | O => λ k, NoFuel k
  | S fuel' =>
      if p + PGSIZE <=? pa_end
      then do! kfree p in freerange_loop fuel' (p + PGSIZE) pa_end
      else ret tt
  end.
Definition freerange (pa_start pa_end : Z) : M kmem unit :=
  freerange_loop (S (Z.to_nat ((pa_end - PGROUNDUP pa_start) / PGSIZE)))
    (PGROUNDUP pa_start) pa_end.

Definition kinit : M kmem unit := freerange kend PHYSTOP.

(** ** The allocator invariant *)

Definition page_ok (p : Z) : Prop := p mod PGSIZE = 0 ∧ kend ≤ p < PHYSTOP.
#[export] Instance page_ok_dec p : Decision (page_ok p).
Proof. unfold page_ok. apply _. Defined.

(** [l] is the list of free pages starting at [h]. *)
Fixpoint chain (m : memory) (h : Z) (l : list Z) : Prop :=
  match l with
  | [] => h = 0
  | p :: l' => h = p ∧ page_ok p ∧ chain m (load64 m p) l'
  end.

Record kinv (k : kmem) (l : list Z) : Prop := {
  kinv_chain : chain (mem k) (freelist k) l;
  kinv_nodup : NoDup l;
  kinv_bytes : bytes_ok (mem k)
}.

(** The bytes of a page, and the addresses outside it. *)
Definition in_page (p x : Z) : Prop := in_range p PGSIZE x.

Lemma page_ok_pos p : page_ok p → 0 < p < 2 ^ 40.
Proof. intros [_ Hp]. pose proof kend_lo. zlia. Qed.

Lemma pages_disjoint p q x :
  p mod PGSIZE = 0 → q mod PGSIZE = 0 → in_page p x → in_page q x → p = q.
Proof. unfold in_page. intros. autounfold with consts in *. dlia. Qed.

Lemma chain_agree m m' h l :
  (∀ p, p ∈ l → load64 m' p = load64 m p) → chain m h l → chain m' h l.
Proof.
  revert h. induction l as [|p l IH]; intros h Hag Hc; simpl in *; [done|].
  destruct Hc as (-> & Hp & Hc). split_and!; try done.
  rewrite (Hag p) by (by left). apply IH; [|done]. intros q Hq. apply Hag. by right.
Qed.

Lemma chain_page m h l p : chain m h l → p ∈ l → page_ok p.
Proof.
  revert h. induction l as [|q l IH]; intros h Hc Hp; [by apply elem_of_nil in Hp|].
  simpl in Hc. destruct Hc as (-> & Hq & Hc).
  apply elem_of_cons in Hp as [->|Hp]; eauto.
Qed.

(** A change confined to one page leaves words in other pages alone. *)
Lemma load64_other_page m m' p q off :
  p mod PGSIZE = 0 → q mod PGSIZE = 0 → p ≠ q → 0 ≤ off → off + 8 ≤ PGSIZE →
  (∀ x, ¬ in_page p x → load8 m' x = load8 m x) →
  load64 m' (q + off) = load64 m (q + off).
Proof.
  intros Hp Hq Hne Ho1 Ho2 Hout. apply load_agree. intros x Hx. apply Hout.
  intros Hin. apply Hne. apply (pages_disjoint p q x); try done.
  unfold in_page. zlia.
Qed.

Lemma chain_other_page m m' h l p :
  p ∉ l → p mod PGSIZE = 0 → (∀ x, ¬ in_page p x → load8 m' x = load8 m x) →
  chain m h l → chain m' h l.
Proof.
  intros Hp Hal Hout Hc. apply (chain_agree m); [|done]. intros q Hq.
  replace q with (q + 0) by lia.
  apply (load64_other_page m m' p); try done; try zlia.
  - by apply (chain_page m h l).
  - intros ->. done.
Qed.

(** ** Behaviour of the routines *)

Lemma kfree_spec k l p :
  kinv k l → page_ok p → p ∉ l →
  ∃ k', kfree p k = Ret tt k' ∧ kinv k' (p :: l) ∧
        (∀ x, ¬ in_page p x → load8 (mem k') x = load8 (mem k) x).
Proof.
  intros [Hc Hn Hb] [Hal Hr] Hp. unfold kfree.
  rewrite Hal. simpl. destruct (Z.ltb_spec p kend); [lia|].
  destruct (Z.leb_spec PHYSTOP p); [lia|]. simpl.
  eexists. split; [reflexivity|]. simpl.
  assert (∀ x, ¬ in_page p x →
     load8 (store64 (memset (mem k) p 1 PGSIZE) p (freelist k)) x = load8 (mem k) x) as Hout.
  { intros x Hx. rewrite load8_store_ne by (unfold in_page in Hx; zlia).
    rewrite memset_load. by rewrite decide_False. }
  assert (0 ≤ freelist k < 2 ^ 64) as Hfl.
  { destruct l as [|q l]; simpl in Hc; [lia|]. destruct Hc as (-> & Hq%page_ok_pos & _). lia. }
  split; [|done]. split; simpl.
  - split; [done|]. split; [done|]. rewrite load64_store64 by done.
    by apply (chain_other_page (mem k) _ _ _ p).
  - by constructor.
  - by apply bytes_ok_store, bytes_ok_memset.
Qed.

Lemma kfree_panics k p : ¬ page_ok p → kfree p k = Panic "kfree" k.
Proof.
  intros Hp. unfold kfree, page_ok in *.
  destruct (Z.eqb_spec (p mod PGSIZE) 0); [|done].
  destruct (Z.ltb_spec p kend); [done|]. destruct (Z.leb_spec PHYSTOP p); [done|lia].
Qed.

Lemma kalloc_empty k : kinv k [] → kalloc k = Ret 0 k.
Proof. intros [Hc _ _]. destruct k as [m f]. simpl in Hc. subst f. reflexivity. Qed.

Lemma kalloc_spec k l p :
  kinv k (p :: l) →
  ∃ k', kalloc k = Ret p k' ∧ kinv k' l ∧ page_ok p ∧ (p ∉ l) ∧
        (∀ x, load8 (mem k') x = if decide (in_page p x) then 5 else load8 (mem k) x).
Proof.
  intros [Hc Hn Hb]. simpl in Hc. destruct Hc as (Hf & Hp & Hc).
  apply NoDup_cons in Hn as [Hpl Hn]. unfold kalloc, bind, gets, modify, ret.
  rewrite Hf. pose proof (page_ok_pos p Hp) as Hpos.
  destruct (Z.eqb_spec p 0); [lia|].
  eexists. split; [reflexivity|]. simpl.
  assert (∀ x, load8 (memset (mem k) p 5 PGSIZE) x =
               if decide (in_page p x) then 5 else load8 (mem k) x) as Hload.
  { intros x. rewrite memset_load. unfold in_page. case_decide; done. }
  split; [|done]. split; simpl.
  - apply (chain_other_page (mem k) _ _ _ p); [done|apply Hp| |done].
    intros x Hx. rewrite Hload. by rewrite decide_False.
  - done.
  - by apply bytes_ok_memset.
Qed.

(** The free list decides the result of [kalloc] in every case. *)
Lemma kalloc_cases k l :
  kinv k l →
  match l with
  | [] => kalloc k = Ret 0 k
  | p :: l' => ∃ k', kalloc k = Ret p k' ∧ kinv k' l' ∧ page_ok p ∧ (p ∉ l') ∧
        (∀ x, load8 (mem k') x = if decide (in_page p x) then 5 else load8 (mem k) x)
  end.
Proof. destruct l; eauto using kalloc_empty, kalloc_spec. Qed.

(** The pages [freerange] frees, last freed first. *)
Fixpoint pages_rev (n : nat) (p : Z) (acc : list Z) : list Z :=
  match n with
  | O => acc
  | S n' => pages_rev n' (p + PGSIZE) (p :: acc)
  end.

Lemma freerange_loop_spec n fuel p pa_end k l :
  kinv k l → p mod PGSIZE = 0 → kend ≤ p → pa_end ≤ PHYSTOP →
  Z.of_nat n = (pa_end - p) / PGSIZE → 0 ≤ pa_end - p → (n < fuel)%nat →
  (∀ q, q ∈ l → q < p) →
  ∃ k', freerange_loop fuel p pa_end k = Ret tt k' ∧ kinv k' (pages_rev n p l).
Proof.
  revert fuel p k l. induction n as [|n IH];
    intros [|fuel] p k l Hk Hal Hlo Hhi Hn Hle Hfuel Hlt; simpl; try lia.
  - destruct (Z.leb_spec (p + PGSIZE) pa_end);
      [autounfold with consts in *; dlia|]. by eexists.
  - destruct (Z.leb_spec (p + PGSIZE) pa_end); [|autounfold with consts in *; dlia].
    assert (page_ok p) as Hp by (split; [done|zlia]).
    destruct (kfree_spec k l p Hk Hp) as (k1 & E1 & Hk1 & _).
    { intros Hin. apply Hlt in Hin. lia. }
    rewrite (bind_eq _ _ _ _ _ E1). apply IH; try done; try zlia.
    + autounfold with consts in *. dlia.
    + autounfold with consts in *. dlia.
    + intros q [->|Hq]%elem_of_cons; [zlia|]. apply Hlt in Hq. zlia.
Qed.

Lemma elem_of_pages_rev n p acc q :
  q ∈ pages_rev n p acc ↔
  q ∈ acc ∨ ∃ i, 0 ≤ i < Z.of_nat n ∧ q = p + i * PGSIZE.
Proof.
  revert p acc. induction n as [|n IH]; intros p acc; simpl.
  { split; [by left|]. intros [?|(i & ? & _)]; [done|lia]. }
  rewrite IH, elem_of_cons. split.
  - intros [[->|Hq]|(i & Hi & ->)]; [|by left|].
    + right. exists 0. lia.
    + right. exists (i + 1). lia.
  - intros [Hq|(i & Hi & ->)]; [by left; right|].
    destruct (decide (i = 0)) as [->|]; [left; left; lia|].
    right. exists (i - 1). lia.
Qed.

(** ** Clients: any sequence of allocations and frees of live pages *)

(** A run of the allocator by a client that owns the pages in [live]. *)
Inductive alloc_run : kmem → list Z → kmem → list Z → Prop :=
| ar_refl k live : alloc_run k live k live
| ar_alloc k live k1 p k2 live2 :
    kalloc k = Ret p k1 → p ≠ 0 → alloc_run k1 (p :: live) k2 live2 →
    alloc_run k live k2 live2
| ar_free k live k1 p k2 live2 :
    p ∈ live → kfree p k = Ret tt k1 →
    alloc_run k1 (filter (λ x, x ≠ p) live) k2 live2 →
    alloc_run k live k2 live2.

Lemma filter_ne_perm (p : Z) (l : list Z) :
  NoDup l → p ∈ l → l ≡ₚ p :: filter (λ x, x ≠ p) l.
Proof.
  intros Hn Hp. apply list_elem_of_split in Hp as (l1 & l2 & ->).
  apply NoDup_app in Hn as (_ & Hd1 & Hd2). apply NoDup_cons in Hd2 as [Hd2 _].
  rewrite filter_app, filter_cons_False by (intros H'; by apply H').
  rewrite !list_filter_all.
  - by rewrite Permutation_middle.
  - intros x Hx ->. done.
  - intros x Hx ->. apply (Hd1 p Hx). by left.
Qed.

Lemma alloc_run_inv k live k' live' free :
  alloc_run k live k' live' → kinv k free → NoDup (live ++ free) →
  Forall page_ok live →
  ∃ free', kinv k' free' ∧ live' ++ free' ≡ₚ live ++ free ∧ Forall page_ok live'.
Proof.
  intros Hr. revert free. induction Hr as [k live|k live k1 p k2 live2 Ha Hp Hr IH
    |k live k1 p k2 live2 Hin Hf Hr IH]; intros free Hk Hn Hl.
  - eauto.
  - pose proof (kalloc_cases k free Hk) as Hc. destruct free as [|q free].
    { rewrite Hc in Ha. simplify_eq. }
    destruct Hc as (k1' & E & Hk1 & Hq & _). rewrite Ha in E. injection E as -> ->.
    destruct (IH free Hk1) as (free' & Hk2 & Hperm & Hok).
    + simpl. by rewrite Permutation_middle.
    + by constructor.
    + exists free'. split; [done|]. split; [|done]. rewrite Hperm. simpl.
      by rewrite Permutation_middle.
  - rewrite Forall_forall in Hl.
    assert (p ∉ free) as Hpf.
    { apply NoDup_app in Hn as (_ & Hd & _). auto. }
    destruct (kfree_spec k free p Hk (Hl p Hin) Hpf) as (k1' & E & Hk1 & _).
    rewrite Hf in E. injection E as ->.
    assert (filter (λ x, x ≠ p) live ++ p :: free ≡ₚ live ++ free) as Hp2.
    { rewrite <- Permutation_middle. apply NoDup_app in Hn as (Hn1 & _).
      rewrite (filter_ne_perm p live) at 2 by done. done. }
    destruct (IH (p :: free) Hk1) as (free' & Hk2 & Hperm & Hok).
    + by rewrite Hp2.
    + apply Forall_forall. intros x [_ Hx]%list_elem_of_filter. auto.
    + exists free'. split; [done|]. split; [by rewrite Hperm|done].
Qed.

Lemma kend_bounds : 0 ≤ kend < 2 ^ 64 - 4096.
Proof. pose proof kend_lo. pose proof kend_hi. zlia. Qed.

(** [kinit] frees the usable pages, each once. *)
Lemma kinit_spec k :
  bytes_ok (mem k) → freelist k = 0 →
  ∃ k' l, kinit k = Ret tt k' ∧ kinv k' l ∧
    ∀ p, p ∈ l ↔ page_ok p.
Proof.
  intros Hb Hf. pose proof kend_lo. pose proof kend_hi.
  pose proof (PGROUNDUP_eq kend kend_bounds) as Hup.
  unfold kinit, freerange. set (p0 := PGROUNDUP kend) in *.
  set (n := Z.to_nat ((PHYSTOP - p0) / PGSIZE)).
  destruct (freerange_loop_spec n (S n) p0 PHYSTOP k []) as (k' & E & Hk').
  - split; [done|constructor|done].
  - zlia || (autounfold with consts; dlia).
  - dlia.
  - lia.
  - subst n. rewrite Z2Nat.id; [done|]. apply Z.div_pos; autounfold with consts in *; dlia.
  - autounfold with consts in *; dlia.
  - lia.
  - intros q Hq. by apply elem_of_nil in Hq.
  - exists k', (pages_rev n p0 []). split; [done|]. split; [done|]. intros q.
    rewrite elem_of_pages_rev. subst n. split.
    + intros [?%elem_of_nil|(i & Hi & ->)]; [done|].
      unfold page_ok. autounfold with consts in *. dlia.
    + intros [Hal Hr]. right. exists ((q - p0) / PGSIZE).
      autounfold with consts in *. dlia.
Qed.

(** ** Properties *)

(** [kinit], from any memory with an empty list, returns with a free list
    that holds exactly the whole pages between the end of the kernel image and
    PHYSTOP, each once. *)
Theorem kinit_frees_all k :
  bytes_ok (mem k) → freelist k = 0 →
  ∃ k' l, kinit k = Ret tt k' ∧ kinv k' l ∧
    ∀ p, p ∈ l ↔ page_ok p.
Proof. apply kinit_spec. Qed.

(** C17: The allocator never hands out a page twice and never loses one. Along
    any client run of [kalloc] and of [kfree] of live pages, the live pages are
    distinct, usable, disjoint from the free list, and live and free pages
    together are always the pages there were at the start. *)
Theorem kalloc_no_double_allocation k k' live' free :
  kinv k free → alloc_run k [] k' live' →
  ∃ free', kinv k' free' ∧ NoDup (live' ++ free') ∧ Forall page_ok live' ∧
           live' ++ free' ≡ₚ free.
Proof.
  intros Hk Hr. destruct (alloc_run_inv k [] k' live' free Hr Hk) as (free' & Hk' & Hp & Hok).
  - apply Hk.
  - constructor.
  - exists free'. split; [done|]. split; [|done]. rewrite Hp. apply Hk.
Qed.

End kalloc.

(** A kernel image that leaves two pages of RAM. *)
Definition demo_image : KernelImage.
Proof.
  refine {| kend := PHYSTOP - 2 * PGSIZE; etext := 0x80008000; trampoline := 0x80007000 |};
    vm_compute; discriminate.
Defined.
Definition demo_kmem : kmem := mk_kmem ∅ 0.

Lemma demo_bytes : bytes_ok (∅ : memory).
Proof. intros a. unfold load8. rewrite lookup_empty. simpl. lia. Qed.

Lemma kinit_frees_all_witness :
  ∃ k' l, @kinit demo_image demo_kmem = Ret tt k' ∧ @kinv demo_image k' l ∧
          ∀ p, p ∈ l ↔ @page_ok demo_image p.
Proof. exact (@kinit_frees_all demo_image demo_kmem demo_bytes eq_refl). Defined.

(** Free one page, then allocate it. *)
Lemma demo_alloc_run :
  ∃ k k' p, @kinv demo_image k [p] ∧ @alloc_run demo_image k [] k' [p].
Proof.
  destruct (@kfree_spec demo_image demo_kmem [] (PHYSTOP - PGSIZE)) as (k & E & Hk & _).
  - split; [done|constructor|apply demo_bytes].
  - vm_compute. repeat split; discriminate.
  - apply not_elem_of_nil.
  - destruct (@kalloc_spec demo_image k [] _ Hk) as (k' & E' & _ & Hp & _).
    exists k, k', (PHYSTOP - PGSIZE). split; [done|].
    eapply ar_alloc; [apply E'|done|apply ar_refl].
Qed.

Lemma kalloc_no_double_allocation_witness :
  ∃ k' p free', @kinv demo_image k' free' ∧ NoDup ([p] ++ free').
Proof.
  destruct demo_alloc_run as (k & k' & p & Hk & Hr).
  destruct (@kalloc_no_double_allocation demo_image k k' [p] [p] Hk Hr)
    as (free' & H1 & H2 & _).
  exists k', p, free'. split; [exact H1|exact H2].
Defined.
