(* ===== verification/Vm.v ===== *)
(** * Virtual memory ([kernel/vm.c])

    Sv39 page tables stored in physical memory. A page table is the address
    of its root page; [&pagetable[i]] is [pagetable + 8*i]; a null pointer is
    0. Buffers on the kernel side of [copyout], [copyin] and [copyinstr] are
    lists of bytes: what is read from them, or what has been written to them
    when the routine returns. *)

From S2P Require Import Prelude.
From S2P Require Import Machine.
From S2P Require Import KString.
From S2P Require Import Kalloc.
#[local] Open Scope Z_scope.

Section vm.
Context `{KernelImage}.

Definition set_mem (f : memory → memory) : M kmem unit :=
  modify (λ k, k <| mem := f (mem k) |>).

(** One level of the loop of [walk]: the table below [pagetable], created if
    asked to, or null. *)
Definition walk_level (pagetable va level : Z) (alloc : bool) : M kmem Z :=
  let pte := pagetable + 8 * PX level va in
  let! e := gets (λ k, load64 (mem k) pte) in
  if negb (Z.land e PTE_V =? 0) then ret (PTE2PA e) else
  if negb alloc then ret 0 else
  let! pt := kalloc in
  if pt =? 0 then ret 0 else
  do! set_mem (λ m, memset m pt 0 PGSIZE) in
  do! set_mem (λ m, store64 m pte (Z.lor (PA2PTE pt) PTE_V)) in
  ret pt.

Definition walk (pagetable va : Z) (alloc : bool) : M kmem Z :=
  if MAXVA <=? va then panic "walk" else
  let! pt1 := walk_level pagetable va 2 alloc in
  if pt1 =? 0 then ret 0 else
  let! pt0 := walk_level pt1 va 1 alloc in
  if pt0 =? 0 then ret 0 else
  ret (pt0 + 8 * PX 0 va).

Definition walkaddr (pagetable va : Z) : M kmem Z :=
  if MAXVA <=? va then ret 0 else
  let! pte := walk pagetable va false in
  if pte =? 0 then ret 0 else
  let! e := gets (λ k, load64 (mem k) pte) in
  if Z.land e PTE_V =? 0 then ret 0 else
  if Z.land e PTE_U =? 0 then ret 0 else
  ret (PTE2PA e).

(** The [for(;;)] of [mappages]; it leaves when [a == last]. *)
Fixpoint mappages_loop (fuel : nat) (pagetable a last pa perm : Z) : M kmem Z :=
  match fuel with
  | O => λ k, NoFuel k
  | S fuel' =>
      let! pte := walk pagetable a true in
      if pte =? 0 then ret (-1) else
      let! e := gets (λ k, load64 (mem k) pte) in
      if negb (Z.land e PTE_V =? 0) then panic "mappages: remap" else
      do! set_mem (λ m, store64 m pte (Z.lor (Z.lor (PA2PTE pa) perm) PTE_V)) in
      if a =? last then ret 0
      else mappages_loop fuel' pagetable (u64 (a + PGSIZE)) last (u64 (pa + PGSIZE)) perm
  end.
(** Iterations until [a == last], or until [walk] panics at MAXVA when the
    range wrapped around. *)
Definition mappages_fuel (a last : Z) : nat :=
  S (Z.to_nat ((if a <=? last then last - a else MAXVA - a) / PGSIZE)).
Definition mappages (pagetable va size pa perm : Z) : M kmem Z :=
  if size =? 0 then panic "mappages: size" else
  let a := PGROUNDDOWN va in
  let last := PGROUNDDOWN (u64 (u64 (va + size) - 1)) in
  mappages_loop (mappages_fuel a last) pagetable a last pa perm.

Definition kvmmap (kpgtbl va pa sz perm : Z) : M kmem unit :=
  let! r := mappages kpgtbl va sz pa perm in
  if r =? 0 then ret tt else panic "kvmmap".

Fixpoint uvmunmap_loop (fuel : nat) (pagetable a stop : Z) (do_free : bool) : M kmem unit :=
  match fuel with
  | O => λ k, NoFuel k
  | S fuel' =>
      if negb (a <? stop) then ret tt else
      let! pte := walk pagetable a false in
      if pte =? 0 then panic "uvmunmap: walk" else
      let! e := gets (λ k, load64 (mem k) pte) in
      if Z.land e PTE_V =? 0 then panic "uvmunmap: not mapped" else
      if PTE_FLAGS e =? PTE_V then panic "uvmunmap: not a leaf" else
      do! (if do_free then kfree (PTE2PA e) else ret tt) in
      do! set_mem (λ m, store64 m pte 0) in
      uvmunmap_loop fuel' pagetable (u64 (a + PGSIZE)) stop do_free
  end.
Definition uvmunmap (pagetable va npages : Z) (do_free : bool) : M kmem unit :=
  if negb (va mod PGSIZE =? 0) then panic "uvmunmap: not aligned" else
  uvmunmap_loop (S (Z.to_nat npages)) pagetable va
    (u64 (va + u64 (npages * PGSIZE))) do_free.

Definition uvmcreate : M kmem Z :=
  let! pagetable := kalloc in
  if pagetable =? 0 then ret 0 else
  do! set_mem (λ m, memset m pagetable 0 PGSIZE) in
  ret pagetable.

Definition uvmfirst (pagetable : Z) (src : list Z) (sz : Z) : M kmem unit :=
  if PGSIZE <=? sz then panic "uvmfirst: more than a page" else
  let! page := kalloc in
  do! set_mem (λ m, memset m page 0 PGSIZE) in
  let! _ := mappages pagetable 0 PGSIZE page
              (Z.lor (Z.lor (Z.lor PTE_W PTE_R) PTE_X) PTE_U) in
  set_mem (λ m, store_bytes m page (take (Z.to_nat sz) src)).

Definition uvmdealloc (pagetable oldsz newsz : Z) : M kmem Z :=
  if oldsz <=? newsz then ret oldsz else
  do! (if PGROUNDUP newsz <? PGROUNDUP oldsz
       then let npages := s32 (u64 (PGROUNDUP oldsz - PGROUNDUP newsz) / PGSIZE) in
            uvmunmap pagetable (PGROUNDUP newsz) (u64 npages) true
       else ret tt) in
  ret newsz.

Fixpoint uvmalloc_loop (fuel : nat) (pagetable oldsz a newsz xperm : Z) : M kmem Z :=
  match fuel with
  | O => λ k, NoFuel k
  | S fuel' =>
      if negb (a <? newsz) then ret newsz else
      let! page := kalloc in
      if page =? 0 then
        (let! _ := uvmdealloc pagetable a oldsz in ret 0)
      else
        do! set_mem (λ m, memset m page 0 PGSIZE) in
        let! r := mappages pagetable a PGSIZE page (Z.lor (Z.lor PTE_R PTE_U) xperm) in
        if negb (r =? 0) then
          (do! kfree page in
           let! _ := uvmdealloc pagetable a oldsz in ret 0)
        else uvmalloc_loop fuel' pagetable oldsz (u64 (a + PGSIZE)) newsz xperm
  end.
Definition uvmalloc (pagetable oldsz newsz xperm : Z) : M kmem Z :=
  if newsz <? oldsz then ret oldsz else
  let oldsz := PGROUNDUP oldsz in
  uvmalloc_loop (S (Z.to_nat ((newsz - oldsz + PGSIZE - 1) / PGSIZE)))
    pagetable oldsz oldsz newsz xperm.

(** Recursion of [freewalk], to at most [depth] levels of tables. *)
Fixpoint freewalk (depth : nat) (pagetable : Z) : M kmem unit :=
  match depth with
  | O => λ k, NoFuel k
  | S depth' =>
      do! for_each (seqZ 0 512) (λ i,
        let! pte := gets (λ k, load64 (mem k) (pagetable + 8 * i)) in
        if negb (Z.land pte PTE_V =? 0) &&
           (Z.land pte (Z.lor (Z.lor PTE_R PTE_W) PTE_X) =? 0) then
          do! freewalk depth' (PTE2PA pte) in
          set_mem (λ m, store64 m (pagetable + 8 * i) 0)
        else if negb (Z.land pte PTE_V =? 0) then panic "freewalk: leaf"
        else ret tt) in
      kfree pagetable
  end.

Definition uvmfree (pagetable sz : Z) : M kmem unit :=
  do! (if 0 <? sz then uvmunmap pagetable 0 (PGROUNDUP sz / PGSIZE) true else ret tt) in
  freewalk 3 pagetable.

(** The copy loop of [uvmcopy]: [Some i] is [goto err] at offset [i]. *)
Fixpoint uvmcopy_loop (fuel : nat) (old new i sz : Z) : M kmem (option Z) :=
  match fuel with
  | O => λ k, NoFuel k
  | S fuel' =>
      if negb (i <? sz) then ret None else
      let! pte := walk old i false in
      if pte =? 0 then panic "uvmcopy: pte should exist" else
      let! e := gets (λ k, load64 (mem k) pte) in
      if Z.land e PTE_V =? 0 then panic "uvmcopy: page not present" else
      let! page := kalloc in
      if page =? 0 then ret (Some i) else
      do! set_mem (λ m, memmove m page (PTE2PA e) PGSIZE) in
      let! r := mappages new i PGSIZE page (PTE_FLAGS e) in
      if negb (r =? 0) then do! kfree page in ret (Some i)
      else uvmcopy_loop fuel' old new (u64 (i + PGSIZE)) sz
  end.
Definition uvmcopy (old new sz : Z) : M kmem Z :=
  let! err := uvmcopy_loop (S (Z.to_nat ((sz + PGSIZE - 1) / PGSIZE))) old new 0 sz in
  match err with
  | None => ret 0
  | Some i => do! uvmunmap new 0 (i / PGSIZE) true in ret (-1)
  end.

Definition uvmclear (pagetable va : Z) : M kmem unit :=
  let! pte := walk pagetable va false in
  if pte =? 0 then panic "uvmclear" else
  set_mem (λ m, store64 m pte (Z.land (load64 m pte) (u64 (Z.lnot PTE_U)))).

(** [while(len > 0)] of [copyout]; each iteration copies at least a byte. *)
Fixpoint copyout_loop (fuel : nat) (pagetable dstva : Z) (src : list Z) : M kmem Z :=
  match fuel with
  | O => λ k, NoFuel k
  | S fuel' =>
      if Z.of_nat (length src) <=? 0 then ret 0 else
      let va0 := PGROUNDDOWN dstva in
      let! pa0 := walkaddr pagetable va0 in
      if pa0 =? 0 then ret (-1) else
      let n := Z.min (PGSIZE - (dstva - va0)) (Z.of_nat (length src)) in
      do! set_mem (λ m, store_bytes m (pa0 + (dstva - va0)) (take (Z.to_nat n) src)) in
      copyout_loop fuel' pagetable (u64 (va0 + PGSIZE)) (drop (Z.to_nat n) src)
  end.
Definition copyout (pagetable dstva : Z) (src : list Z) : M kmem Z :=
  copyout_loop (S (length src)) pagetable dstva src.

(** Returns the result and the bytes stored to the destination. *)
Fixpoint copyin_loop (fuel : nat) (pagetable srcva len : Z) (dst : list Z)
    : M kmem (Z * list Z) :=
  match fuel with
  | O => λ k, NoFuel k
  | S fuel' =>
      if len <=? 0 then ret (0, dst) else
      let va0 := PGROUNDDOWN srcva in
      let! pa0 := walkaddr pagetable va0 in
      if pa0 =? 0 then ret (-1, dst) else
      let n := Z.min (PGSIZE - (srcva - va0)) len in
      let! bs := gets (λ k, load_bytes (Z.to_nat n) (mem k) (pa0 + (srcva - va0))) in
      copyin_loop fuel' pagetable (u64 (va0 + PGSIZE)) (len - n) (dst ++ bs)
  end.
Definition copyin (pagetable srcva len : Z) : M kmem (Z * list Z) :=
  copyin_loop (S (Z.to_nat len)) pagetable srcva len [].

(** The inner loop of [copyinstr]: at most [n] characters from [p]; returns
    the characters copied and whether a NUL was among them (then last). *)
Fixpoint copy_until_nul (n : nat) (m : memory) (p : Z) : list Z * bool :=
  match n with
  | O => ([], false)
  | S n' =>
      if load8 m p =? 0 then ([0], true)
      else let '(bs, got) := copy_until_nul n' m (p + 1) in (load8 m p :: bs, got)
  end.
Fixpoint copyinstr_loop (fuel : nat) (pagetable srcva max : Z) (dst : list Z)
    : M kmem (Z * list Z) :=
  match fuel with
  | O => λ k, NoFuel k
  | S fuel' =>
      if max <=? 0 then ret (-1, dst) else
      let va0 := PGROUNDDOWN srcva in
      let! pa0 := walkaddr pagetable va0 in
      if pa0 =? 0 then ret (-1, dst) else
      let n := Z.min (PGSIZE - (srcva - va0)) max in
      let! r := gets (λ k, copy_until_nul (Z.to_nat n) (mem k) (pa0 + (srcva - va0))) in
      if r.2 then ret (0, dst ++ r.1)
      else copyinstr_loop fuel' pagetable (u64 (va0 + PGSIZE)) (max - n) (dst ++ r.1)
  end.
Definition copyinstr (pagetable srcva max : Z) : M kmem (Z * list Z) :=
  copyinstr_loop (S (Z.to_nat max)) pagetable srcva max [].

(** [proc_mapstacks] of proc.c. *)
Definition proc_mapstacks (kpgtbl : Z) : M kmem unit :=
  for_each (seqZ 0 NPROC) (λ i,
    let! pa := kalloc in
    if pa =? 0 then panic "kalloc" else
    kvmmap kpgtbl (KSTACK i) pa PGSIZE (Z.lor PTE_R PTE_W)).

Definition kvmmake : M kmem Z :=
  let! kpgtbl := kalloc in
  do! set_mem (λ m, memset m kpgtbl 0 PGSIZE) in
  do! kvmmap kpgtbl UART0 UART0 PGSIZE (Z.lor PTE_R PTE_W) in
  do! kvmmap kpgtbl VIRTIO0 VIRTIO0 PGSIZE (Z.lor PTE_R PTE_W) in
  do! kvmmap kpgtbl PLIC PLIC 0x400000 (Z.lor PTE_R PTE_W) in
  do! kvmmap kpgtbl KERNBASE KERNBASE (etext - KERNBASE) (Z.lor PTE_R PTE_X) in
  do! kvmmap kpgtbl etext etext (PHYSTOP - etext) (Z.lor PTE_R PTE_W) in
  do! kvmmap kpgtbl TRAMPOLINE trampoline PGSIZE (Z.lor PTE_R PTE_X) in
  do! proc_mapstacks kpgtbl in
  ret kpgtbl.

(** [proc_pagetable] and [proc_freepagetable] of proc.c; [trapframe] is
    [p->trapframe]. *)
Definition proc_pagetable (trapframe : Z) : M kmem Z :=
  let! pagetable := uvmcreate in
  if pagetable =? 0 then ret 0 else
  let! r := mappages pagetable TRAMPOLINE PGSIZE trampoline (Z.lor PTE_R PTE_X) in
  if r <? 0 then do! uvmfree pagetable 0 in ret 0 else
  let! r := mappages pagetable TRAPFRAME PGSIZE trapframe (Z.lor PTE_R PTE_W) in
  if r <? 0 then
    do! uvmunmap pagetable TRAMPOLINE 1 false in
    do! uvmfree pagetable 0 in ret 0
  else ret pagetable.

Definition proc_freepagetable (pagetable sz : Z) : M kmem unit :=
  do! uvmunmap pagetable TRAMPOLINE 1 false in
  do! uvmunmap pagetable TRAPFRAME 1 false in
  uvmfree pagetable sz.

End vm.
