(* ===== verification/VmTree.v ===== *)
(** * Page tables as trees

    A page table is read as a tree: [tab m root π] is the table page reached
    from [root] along the indices [π]. A well-formed table has distinct pages
    at distinct paths. Under that invariant, storing one entry changes one
    path only, and [walk] with allocation changes no translation. *)

From S2P Require Import Prelude.
From S2P Require Import Machine.
From S2P Require Import KString.
From S2P Require Import Kalloc.
From S2P Require Import Vm.
#[local] Open Scope Z_scope.

Section tree.
Context `{KernelImage}.

Definition ent (m : memory) (p i : Z) : Z := load64 m (p + 8 * i).

Definition child (m : memory) (p i : Z) : option Z :=
  if Z.land (ent m p i) PTE_V =? 0 then None else Some (PTE2PA (ent m p i)).

Fixpoint tab (m : memory) (root : Z) (π : list Z) : option Z :=
  match π with
  | [] => Some root
  | i :: π' => match child m root i with Some c => tab m c π' | None => None end
  end.

Definition idx_ok (i : Z) : Prop := 0 ≤ i < 512.
Definition path_ok (π : list Z) : Prop := (length π ≤ 2)%nat ∧ Forall idx_ok π.

Record pt_wf (m : memory) (root : Z) : Prop := {
  wf_pages : ∀ π p, path_ok π → tab m root π = Some p → page_ok p;
  wf_inj : ∀ π1 π2 p, path_ok π1 → path_ok π2 →
           tab m root π1 = Some p → tab m root π2 = Some p → π1 = π2
}.

Definition is_table (m : memory) (root p : Z) : Prop :=
  ∃ π, path_ok π ∧ tab m root π = Some p.

(** The path of a virtual address to its level-0 table, and the leaf entry
    there, 0 when there is no such table. *)
Definition va_path (va : Z) : list Z := [PX 2 va; PX 1 va].
Definition leaf_pte (m : memory) (root va : Z) : Z :=
  match tab m root (va_path va) with
  | Some t => ent m t (PX 0 va)
  | None => 0
  end.

(** ** Reading trees *)

Lemma tab_snoc m root π i :
  tab m root (π ++ [i]) = match tab m root π with Some p => child m p i | None => None end.
Proof.
  revert root. induction π as [|j π IH]; intros root; simpl.
  - by destruct (child m root i).
  - destruct (child m root j); [apply IH|done].
Qed.

Lemma path_ok_app π1 π2 : path_ok (π1 ++ π2) → path_ok π1 ∧ Forall idx_ok π2.
Proof.
  intros [Hl Hf]. rewrite length_app in Hl. apply Forall_app in Hf as [? ?].
  split; [split; [lia|done]|done].
Qed.

Lemma va_path_ok va : path_ok (va_path va).
Proof.
  split; [simpl; lia|]. unfold idx_ok.
  repeat constructor; apply PX_range; lia.
Qed.

Lemma PX0_ok va : idx_ok (PX 0 va).
Proof. apply PX_range. lia. Qed.

(** Two memories give the same table at [π] if they agree on the entries read
    on the way. *)
Lemma tab_frame m m' root π :
  (∀ π1 i π2 p, π = π1 ++ [i] ++ π2 → tab m root π1 = Some p →
     ent m' p i = ent m p i) →
  tab m' root π = tab m root π.
Proof.
  induction π as [|i π IH] using rev_ind; intros Hag; [done|].
  rewrite !tab_snoc, IH.
  - destruct (tab m root π) as [p|] eqn:E; [|done]. unfold child.
    by rewrite (Hag π i [] p).
  - intros π1 j π2 p -> E. apply (Hag π1 j (π2 ++ [i]) p); [|done].
    by rewrite <- !app_assoc.
Qed.

(** Changes inside pages that are not tables are invisible. *)
Lemma ent_other_page m m' p q i :
  page_ok p → q mod PGSIZE = 0 → p ≠ q → idx_ok i →
  (∀ x, ¬ in_page q x → load8 m' x = load8 m x) → ent m' p i = ent m p i.
Proof.
  intros [Hp _] Hq Hne Hi Hout. unfold idx_ok, ent in *.
  apply (load64_other_page m m' q p); try done; zlia.
Qed.

Lemma table_page m root π p : pt_wf m root → path_ok π → tab m root π = Some p → page_ok p.
Proof. intros Hwf. apply Hwf. Qed.

Lemma tab_other_page m m' root q π :
  pt_wf m root → q mod PGSIZE = 0 → ¬ is_table m root q →
  (∀ x, ¬ in_page q x → load8 m' x = load8 m x) →
  path_ok π → tab m' root π = tab m root π.
Proof.
  intros Hwf Hq Hnt Hout Hπ. apply tab_frame. intros π1 i π2 p -> E.
  apply path_ok_app in Hπ as [Hπ1 Hf]. apply Forall_app in Hf as [Hi _].
  apply (ent_other_page m m' p q); try done.
  - by eapply table_page.
  - intros ->. apply Hnt. by exists π1.
  - by inversion Hi.
Qed.

Lemma leaf_other_page m m' root q va :
  pt_wf m root → q mod PGSIZE = 0 → ¬ is_table m root q →
  (∀ x, ¬ in_page q x → load8 m' x = load8 m x) →
  leaf_pte m' root va = leaf_pte m root va.
Proof.
  intros Hwf Hq Hnt Hout. unfold leaf_pte.
  rewrite (tab_other_page m m' root q) by eauto using va_path_ok.
  destruct (tab m root (va_path va)) as [t|] eqn:E; [|done].
  apply (ent_other_page m m' t q); auto using PX0_ok.
  - eapply table_page; eauto using va_path_ok.
  - intros ->. apply Hnt. exists (va_path va). split; [apply va_path_ok|done].
Qed.

Lemma wf_other_page m m' root q :
  pt_wf m root → q mod PGSIZE = 0 → ¬ is_table m root q →
  (∀ x, ¬ in_page q x → load8 m' x = load8 m x) →
  pt_wf m' root ∧ ∀ p, is_table m' root p ↔ is_table m root p.
Proof.
  intros Hwf Hq Hnt Hout.
  assert (∀ π, path_ok π → tab m' root π = tab m root π) as Ht.
  { intros. by eapply tab_other_page. }
  split.
  - split.
    + intros π p Hπ. rewrite Ht by done. by apply Hwf.
    + intros π1 π2 p H1 H2. rewrite !Ht by done. by apply Hwf.
  - intros p. split; intros (π & Hπ & E); exists π; split; try done.
    + by rewrite <- Ht.
    + by rewrite Ht.
Qed.

(** ** Storing one entry *)

(** [m'] is [m] with entry [i0] of the table at [π0] set to [v]. *)
Definition ent_upd (m m' : memory) (root : Z) (π0 : list Z) (p0 i0 v : Z) : Prop :=
  tab m root π0 = Some p0 ∧ ent m' p0 i0 = v ∧
  (∀ p i, page_ok p → idx_ok i → (p, i) ≠ (p0, i0) → ent m' p i = ent m p i).

Lemma store64_ent m p i v q j :
  page_ok p → page_ok q → idx_ok i → idx_ok j → (q, j) ≠ (p, i) →
  ent (store64 m (p + 8 * i) v) q j = ent m q j.
Proof.
  unfold ent, idx_ok, page_ok. intros [Hp _] [Hq _] Hi Hj Hne.
  apply load_store_ne. destruct (decide (p = q)) as [->|].
  - assert (j ≠ i) by congruence. lia.
  - autounfold with consts in *. change (Z.of_nat 8) with 8. dlia.
Qed.

Lemma store64_ent_upd m root π0 p0 i0 v :
  pt_wf m root → path_ok π0 → tab m root π0 = Some p0 → idx_ok i0 → 0 ≤ v < 2 ^ 64 →
  ent_upd m (store64 m (p0 + 8 * i0) v) root π0 p0 i0 v.
Proof.
  intros Hwf Hπ E Hi Hv. split; [done|]. split.
  - unfold ent. by apply load64_store64.
  - intros p i Hp Hi' Hne. apply store64_ent; try done. by eapply table_page.
Qed.

(** Tables not below the changed entry stay. *)
Lemma tab_upd_other m m' root π0 p0 i0 v π :
  pt_wf m root → path_ok π0 → ent_upd m m' root π0 p0 i0 v →
  path_ok π → (∀ π2, π ≠ π0 ++ [i0] ++ π2) → tab m' root π = tab m root π.
Proof.
  intros Hwf Hπ0 (E0 & _ & Hag) Hπ Hnp. apply tab_frame. intros π1 i π2 p -> E.
  apply path_ok_app in Hπ as [Hπ1 Hf]. apply Forall_app in Hf as [Hi _].
  apply Hag.
  - by eapply table_page.
  - by inversion Hi.
  - intros [= -> ->]. apply (Hnp π2).
    by rewrite (wf_inj _ _ Hwf π1 π0 p0).
Qed.

(** A change of a leaf entry moves no table and changes one translation. *)
Lemma leaf_upd_tab m m' root π0 p0 i0 v π :
  pt_wf m root → path_ok π0 → length π0 = 2%nat → ent_upd m m' root π0 p0 i0 v →
  path_ok π → tab m' root π = tab m root π.
Proof.
  intros Hwf Hπ0 Hlen Hu Hπ. apply (tab_upd_other m m' root π0 p0 i0 v); try done.
  intros π2 ->. destruct Hπ as [Hl _]. rewrite !length_app in Hl. simpl in Hl. lia.
Qed.

Lemma leaf_upd_wf m m' root π0 p0 i0 v :
  pt_wf m root → path_ok π0 → length π0 = 2%nat → ent_upd m m' root π0 p0 i0 v →
  pt_wf m' root ∧ ∀ p, is_table m' root p ↔ is_table m root p.
Proof.
  intros Hwf Hπ0 Hlen Hu.
  assert (∀ π, path_ok π → tab m' root π = tab m root π) as Ht.
  { intros. by apply (leaf_upd_tab m m' root π0 p0 i0 v). }
  split.
  - split.
    + intros π p Hπ. rewrite Ht by done. by apply Hwf.
    + intros π1 π2 p H1 H2. rewrite !Ht by done. by apply Hwf.
  - intros p. split; intros (π & Hπ & E); exists π; split; try done.
    + by rewrite <- Ht.
    + by rewrite Ht.
Qed.

(** Two addresses with the same three indices are in the same page. *)
Lemma PX_same_page va va' :
  0 ≤ va < MAXVA → 0 ≤ va' < MAXVA →
  va_path va = va_path va' → PX 0 va = PX 0 va' → va / 4096 = va' / 4096.
Proof.
  rewrite MAXVA_eq. intros Hv Hv' Hp H0. unfold va_path in Hp. injection Hp as H2 H1.
  rewrite !PX_eq in * by lia. unfold PXSHIFT, PGSHIFT in *.
  change (2 ^ (12 + 9 * 2)) with 1073741824 in *. change (2 ^ (12 + 9 * 1)) with 2097152 in *.
  change (2 ^ (12 + 9 * 0)) with 4096 in *. dlia.
Qed.

Lemma PX_page_eq va va' level :
  0 ≤ level → va / 4096 = va' / 4096 → PX level va = PX level va'.
Proof.
  intros Hl Heq. rewrite !PX_eq by done. unfold PXSHIFT, PGSHIFT.
  rewrite !Z.pow_add_r by lia. change (2 ^ 12) with 4096.
  rewrite <- !Z.div_div by lia. by rewrite Heq.
Qed.

Lemma leaf_upd_pte m m' root va p0 v va' :
  pt_wf m root → 0 ≤ va < MAXVA → 0 ≤ va' < MAXVA →
  ent_upd m m' root (va_path va) p0 (PX 0 va) v →
  leaf_pte m' root va' =
  if decide (va' / 4096 = va / 4096) then v else leaf_pte m root va'.
Proof.
  intros Hwf Hva Hva' Hu. pose proof Hu as (E0 & Ev & Hag).
  unfold leaf_pte. rewrite (leaf_upd_tab m m' root (va_path va) p0 (PX 0 va) v);
    try done; auto using va_path_ok.
  case_decide as Hd.
  - unfold va_path. rewrite !(PX_page_eq va' va) by (done || lia).
    change [PX 2 va; PX 1 va] with (va_path va). by rewrite E0.
  - destruct (tab m root (va_path va')) as [t|] eqn:E; [|done].
    apply Hag; [eapply table_page; eauto using va_path_ok|apply PX0_ok|].
    intros [= -> HPX]. apply Hd. apply PX_same_page; try done.
    eapply (wf_inj _ _ Hwf); eauto using va_path_ok.
Qed.

Lemma tab_app m root π1 π2 :
  tab m root (π1 ++ π2) = match tab m root π1 with Some p => tab m p π2 | None => None end.
Proof.
  revert root. induction π1 as [|j π IH]; intros root; simpl; [done|].
  destruct (child m root j); [apply IH|done].
Qed.

(** ** Adding a table *)

Lemma pte_of_valid q :
  page_ok q → Z.land (pte_of q PTE_V) PTE_V = 1 ∧ PTE2PA (pte_of q PTE_V) = q.
Proof.
  intros Hq. pose proof (page_ok_pos q Hq) as Hpos. destruct Hq as [Hal _].
  change PTE_V with 1. split.
  - change 1 with (Z.shiftl 1 0) at 2. rewrite land_flag_of by (done || lia). done.
  - apply PTE2PA_of; [lia|done|lia].
Qed.

(** [m'] is [m] with the empty page [q] hung below entry [i0] of the table at
    [π0], where nothing was. *)
Record tab_add (m m' : memory) (root : Z) (π0 : list Z) (p0 i0 q : Z) : Prop := {
  ta_path : path_ok (π0 ++ [i0]);
  ta_parent : tab m root π0 = Some p0;
  ta_none : child m p0 i0 = None;
  ta_page : page_ok q;
  ta_fresh : ¬ is_table m root q;
  ta_ent : ent m' p0 i0 = pte_of q PTE_V;
  ta_zero : ∀ j, idx_ok j → ent m' q j = 0;
  ta_other : ∀ p i, page_ok p → idx_ok i → p ≠ q → (p, i) ≠ (p0, i0) →
             ent m' p i = ent m p i
}.

Lemma tab_add_tab m m' root π0 p0 i0 q π :
  pt_wf m root → tab_add m m' root π0 p0 i0 q → path_ok π →
  tab m' root π = if decide (π = π0 ++ [i0]) then Some q else tab m root π.
Proof.
  intros Hwf [Hp E0 Hn Hq Hf Hent Hz Hag] Hπ.
  assert (∀ π', path_ok π' → (∀ π2, π' ≠ π0 ++ [i0] ++ π2) →
    tab m' root π' = tab m root π') as Hsame.
  { intros π' Hπ' Hnp. apply tab_frame. intros π1 i π2 p -> E.
    apply path_ok_app in Hπ' as [Hπ1 Hfi]. apply Forall_app in Hfi as [Hi _].
    apply Hag.
    - by eapply table_page.
    - by inversion Hi.
    - intros ->. apply Hf. by exists π1.
    - intros [= -> ->]. apply (Hnp π2). rewrite (wf_inj _ _ Hwf π1 π0 p0); try done.
      by apply path_ok_app in Hp as [? _]. }
  assert (path_ok π0) as Hπ0 by (by apply path_ok_app in Hp as [? _]).
  destruct (decide ((π0 ++ [i0]) `prefix_of` π)) as [[π2 ->]|Hnp].
  - rewrite <- app_assoc. rewrite !tab_app. rewrite Hsame, E0; [|done|].
    2:{ intros π3 E. apply (f_equal length) in E. rewrite !length_app in E. simpl in E. lia. }
    simpl. rewrite Hn. unfold child. rewrite Hent.
    destruct (pte_of_valid q Hq) as [-> ->]. simpl.
    destruct π2 as [|j π2].
    + rewrite decide_True by done. done.
    + rewrite decide_False.
      2:{ intros E. apply (f_equal length) in E. rewrite !length_app in E. simpl in E. lia. }
      apply path_ok_app in Hπ as [_ Hj]. inversion Hj; subst.
      simpl. unfold child. rewrite Hz by done. done.
  - rewrite decide_False by (intros ->; by apply Hnp). apply Hsame; [done|].
    intros π2 ->. apply Hnp. exists π2. by rewrite <- app_assoc.
Qed.

Lemma tab_add_wf m m' root π0 p0 i0 q :
  pt_wf m root → tab_add m m' root π0 p0 i0 q →
  pt_wf m' root ∧ ∀ p, is_table m' root p ↔ is_table m root p ∨ p = q.
Proof.
  intros Hwf Ha. pose proof (λ π, tab_add_tab m m' root π0 p0 i0 q π Hwf Ha) as Ht.
  destruct Ha as [Hp E0 Hn Hq Hf Hent Hz Hag].
  assert (tab m root (π0 ++ [i0]) = None) as Hnone by (by rewrite tab_snoc, E0).
  split.
  - split.
    + intros π p Hπ. rewrite Ht by done. case_decide; [naive_solver|by apply Hwf].
    + intros π1 π2 p H1 H2. rewrite !Ht by done.
      destruct (decide (π1 = π0 ++ [i0])), (decide (π2 = π0 ++ [i0]));
        intros E1 E2; simplify_eq; try done.
      * destruct Hf. by exists π2.
      * destruct Hf. by exists π1.
      * by apply (wf_inj _ _ Hwf π1 π2 p).
  - intros p. split.
    + intros (π & Hπ & E). rewrite Ht in E by done. case_decide; simplify_eq; [by right|].
      left. by exists π.
    + intros [(π & Hπ & E)| ->].
      * exists π. split; [done|]. rewrite Ht by done. rewrite decide_False; [done|].
        intros ->. congruence.
      * exists (π0 ++ [i0]). split; [done|]. rewrite Ht by done. by rewrite decide_True.
Qed.

Lemma tab_add_leaf m m' root π0 p0 i0 q va :
  pt_wf m root → tab_add m m' root π0 p0 i0 q →
  leaf_pte m' root va = leaf_pte m root va.
Proof.
  intros Hwf Ha. unfold leaf_pte.
  rewrite (tab_add_tab m m' root π0 p0 i0 q) by auto using va_path_ok.
  destruct Ha as [Hp E0 Hn Hq Hf Hent Hz Hag].
  case_decide as Hd.
  - rewrite Hd, tab_snoc, E0, Hn. apply Hz, PX0_ok.
  - destruct (tab m root (va_path va)) as [t|] eqn:E; [|done].
    assert (is_table m root t) as Htt by (exists (va_path va); split; [apply va_path_ok|done]).
    apply Hag.
    + exact (wf_pages _ _ Hwf (va_path va) t (va_path_ok va) E).
    + apply PX0_ok.
    + intros ->. done.
    + intros [= -> _]. assert (va_path va = π0) as Hvp.
      { apply (wf_inj _ _ Hwf _ _ p0); try done; [apply va_path_ok|].
        by apply path_ok_app in Hp as [? _]. }
      destruct Hp as [Hl _]. rewrite <- Hvp in Hl. simpl in Hl. lia.
Qed.

End tree.
