(* ===== verification/VmSpec.v ===== *)
(** * Correctness of the virtual memory routines

    What [walk], [mappages], [uvmunmap], [uvmalloc] and the copy routines of
    [Vm] do to the translation of every virtual address, under the invariant
    that the table is a tree of pages disjoint from the free list. *)

From S2P Require Import Prelude.
From S2P Require Import Machine.
From S2P Require Import KString.
From S2P Require Import Kalloc.
From S2P Require Import Vm.
From S2P Require Import VmTree.
#[local] Open Scope Z_scope.

Section spec.
Context `{KernelImage}.

Record vinv (k : kmem) (l : list Z) (root : Z) : Prop := {
  v_kinv : kinv k l;
  v_wf : pt_wf (mem k) root;
  v_free : ∀ p, is_table (mem k) root p → p ∉ l
}.

(** From [k] with free list [used ++ l'], the pages [used] became tables of
    [root] and no page that is neither a table nor free was touched. *)
Record grows (root : Z) (used : list Z) (k : kmem) (l' : list Z) (k' : kmem) : Prop := {
  g_inv : vinv k' l' root;
  g_tabs : ∀ p, is_table (mem k') root p ↔ is_table (mem k) root p ∨ p ∈ used;
  g_mono : ∀ π p, path_ok π → tab (mem k) root π = Some p → tab (mem k') root π = Some p;
  g_frame : ∀ p x, p mod PGSIZE = 0 → in_page p x → p ∉ used ++ l' →
            ¬ is_table (mem k) root p → load8 (mem k') x = load8 (mem k) x
}.

Definition same_leaves (root : Z) (k k' : kmem) : Prop :=
  ∀ va, leaf_pte (mem k') root va = leaf_pte (mem k) root va.

Lemma grows_refl root k l : vinv k l root → grows root [] k l k.
Proof. intros Hv. split; try done. intros p. rewrite elem_of_nil. tauto. Qed.

Lemma grows_trans root u1 u2 k l' k1 k2 :
  grows root u1 k (u2 ++ l') k1 → grows root u2 k1 l' k2 →
  grows root (u1 ++ u2) k l' k2.
Proof.
  intros [I1 T1 M1 F1] [I2 T2 M2 F2]. split.
  - done.
  - intros p. rewrite T2, T1, elem_of_app. tauto.
  - eauto.
  - intros p x Hp Hx Hnl Hnt. rewrite <- app_assoc in Hnl.
    rewrite (F2 p); [by apply (F1 p)|done|done| |].
    + intros Hin. apply Hnl, elem_of_app. by right.
    + rewrite T1. intros [?|Hin]; [done|]. apply Hnl, elem_of_app. by left.
Qed.

(** Any table of a valid state is a page, hence not null. *)
Lemma tab_page k l root π p :
  vinv k l root → path_ok π → tab (mem k) root π = Some p → page_ok p ∧ p ≠ 0.
Proof.
  intros [_ Hwf _] Hπ E. pose proof (wf_pages _ _ Hwf π p Hπ E) as Hp.
  split; [done|]. apply page_ok_pos in Hp. lia.
Qed.

Lemma page_aligned p : page_ok p → p mod PGSIZE = 0.
Proof. by intros [? _]. Qed.

(** ** [walk] *)

Lemma walk_level_noalloc k pt va level :
  walk_level pt va level false k =
  Ret (default 0 (child (mem k) pt (PX level va))) k.
Proof.
  unfold walk_level, child, ent, bind, gets, ret.
  by destruct (Z.land _ PTE_V =? 0).
Qed.

Lemma walk_noalloc k l root va :
  vinv k l root → va < MAXVA →
  walk root va false k =
  Ret (match tab (mem k) root (va_path va) with
       | Some t => t + 8 * PX 0 va | None => 0 end) k.
Proof.
  intros Hv Hva. unfold walk. destruct (Z.leb_spec MAXVA va); [lia|].
  rewrite (bind_eq _ _ _ _ _ (walk_level_noalloc k root va 2)).
  unfold va_path. simpl tab.
  destruct (child (mem k) root (PX 2 va)) as [t1|] eqn:E1; simpl; [|done].
  assert (t1 ≠ 0) as Hne.
  { apply (tab_page k l root [PX 2 va]); [done| |by simpl; rewrite E1].
    pose proof (va_path_ok va) as [_ Hf]. split; [simpl; lia|].
    by inversion Hf; constructor. }
  destruct (Z.eqb_spec t1 0); [done|].
  rewrite (bind_eq _ _ _ _ _ (walk_level_noalloc k t1 va 1)).
  destruct (child (mem k) t1 (PX 1 va)) as [t0|] eqn:E0; simpl; [|done].
  assert (t0 ≠ 0) as Hne0.
  { apply (tab_page k l root (va_path va)); [done|apply va_path_ok|].
    unfold va_path. simpl. by rewrite E1, E0. }
  by destruct (Z.eqb_spec t0 0).
Qed.

(** Hanging a fresh page below an empty entry. *)
Lemma walk_level_adds k l root π0 pt i q k1 :
  vinv k (q :: l) root → path_ok (π0 ++ [i]) → tab (mem k) root π0 = Some pt →
  child (mem k) pt i = None → kalloc k = Ret q k1 →
  let m' := store64 (memset (mem k1) q 0 PGSIZE) (pt + 8 * i) (Z.lor (PA2PTE q) PTE_V) in
  tab_add (mem k) m' root π0 pt i q ∧
  (∀ x, ¬ in_page q x → ¬ in_page pt x → load8 m' x = load8 (mem k) x) ∧
  bytes_ok m'.
Proof.
  intros Hv Hπ E Hn Ha m'. destruct Hv as [Hk Hwf Hfree].
  destruct (kalloc_spec k l q Hk) as (k1' & Ha' & Hk1 & Hq & Hql & Hload).
  rewrite Ha in Ha'. injection Ha' as <-.
  pose proof (path_ok_app π0 [i] Hπ) as [Hπ0 Hi]. inversion Hi as [|? ? Hi' _]; subst.
  pose proof (wf_pages _ _ Hwf π0 pt Hπ0 E) as Hpt.
  assert (¬ is_table (mem k) root q) as Hnt.
  { intros Ht. apply (Hfree q Ht). by left. }
  assert (pt ≠ q) as Hne. { intros ->. apply Hnt. by exists π0. }
  assert (0 ≤ Z.lor (PA2PTE q) PTE_V < 2 ^ 64) as Hr64.
  { change (Z.lor (PA2PTE q) PTE_V) with (pte_of q PTE_V).
    pose proof (page_ok_pos q Hq). rewrite pte_of_eq;
      [change PTE_V with 1; dlia|lia|apply page_aligned; done|change PTE_V with 1; lia]. }
  assert (∀ x, ¬ in_page q x → load8 (memset (mem k1) q 0 PGSIZE) x = load8 (mem k) x) as Hz.
  { intros x Hx. rewrite memset_load. unfold in_page in *. rewrite decide_False by done.
    rewrite Hload. by rewrite decide_False. }
  assert (∀ p j, page_ok p → idx_ok j → p ≠ q →
     ent (memset (mem k1) q 0 PGSIZE) p j = ent (mem k) p j) as Hent.
  { intros p j Hp Hj Hne'. apply (ent_other_page _ _ p q); auto using page_aligned. }
  split_and!.
  - split; try done.
    + unfold m', ent. by rewrite load64_store64.
    + intros j Hj. unfold m'. rewrite store64_ent; try done; [|congruence].
      unfold ent. apply load_zero. intros x Hx. rewrite memset_load.
      unfold idx_ok in Hj. change (Z.of_nat 8) with 8 in Hx.
      rewrite decide_True by zlia. done.
    + intros p j Hp Hj Hne1 Hne2. unfold m'. rewrite store64_ent by done. by apply Hent.
  - intros x Hx1 Hx2. unfold m'. rewrite load8_store_ne; [by apply Hz|].
    unfold in_page, idx_ok in *. change (Z.of_nat 8) with 8. zlia.
  - by apply bytes_ok_store, bytes_ok_memset, Hk1.
Qed.

Lemma walk_level_alloc k l root π0 pt va level :
  vinv k l root → path_ok (π0 ++ [PX level va]) → tab (mem k) root π0 = Some pt →
  ∃ r k' used l', walk_level pt va level true k = Ret r k' ∧ l = used ++ l' ∧
    grows root used k l' k' ∧ same_leaves root k k' ∧
    ((r = 0 ∧ l = []) ∨ (r ≠ 0 ∧ tab (mem k') root (π0 ++ [PX level va]) = Some r)).
Proof.
  intros Hv Hπ E. set (i := PX level va) in *.
  unfold walk_level. unfold bind at 1, gets at 1. fold i. fold (ent (mem k) pt i).
  destruct (Z.eqb_spec (Z.land (ent (mem k) pt i) PTE_V) 0) as [Ez|Ez]; simpl.
  - assert (child (mem k) pt i = None) as Hn by (unfold child; by rewrite Ez).
    pose proof (kalloc_cases k l (v_kinv _ _ _ Hv)) as Hc. destruct l as [|q l].
    { rewrite (bind_eq _ _ _ _ _ Hc). exists 0, k, [], []. simpl.
      split; [done|]. split; [done|]. split; [by apply grows_refl|]. split; [done|by left]. }
    destruct Hc as (k1 & Ha & Hk1 & Hq & Hql & Hload).
    rewrite (bind_eq _ _ _ _ _ Ha). pose proof (page_ok_pos q Hq).
    destruct (Z.eqb_spec q 0); [lia|]. unfold set_mem, bind, modify, ret. simpl.
    destruct (walk_level_adds k l root π0 pt i q k1 Hv Hπ E Hn Ha) as (Hadd & Hout & Hb).
    set (m' := store64 _ _ _) in *. destruct Hv as [Hk Hwf Hfree].
    destruct (tab_add_wf _ _ _ _ _ _ _ Hwf Hadd) as [Hwf' Htabs].
    pose proof (path_ok_app π0 [i] Hπ) as [Hπ0 _].
    assert (page_ok pt) as Hpt by (by apply (wf_pages _ _ Hwf π0)).
    assert (is_table (mem k) root pt) as Htpt by (by exists π0).
    eexists q, _, [q], l. split; [reflexivity|]. split; [done|]. split.
    + split; simpl.
      * split; simpl.
        -- split; simpl; [|apply Hk1|done].
           apply (chain_agree (mem k1)); [|apply Hk1]. intros p Hp.
           assert (p ≠ q) by (intros ->; done).
           assert (page_ok p) as Hpp by (by eapply chain_page; [apply Hk1|]).
           assert (p ≠ pt). { intros ->. apply (Hfree pt Htpt). by right. }
           apply load_agree. intros x Hx.
           assert (in_page p x) as Hxp
             by (unfold in_page; change (Z.of_nat 8) with 8 in Hx; zlia).
           assert (∀ q', page_ok q' → p ≠ q' → ¬ in_page q' x) as Hd.
           { intros q' Hq' Hne' Hin. apply Hne'.
             apply (pages_disjoint p q' x); auto using page_aligned. }
           rewrite Hout by auto. rewrite Hload. by rewrite decide_False by auto.
        -- done.
        -- intros p [Ht| ->]%Htabs; [|done]. intros Hp. apply (Hfree p Ht). by right.
      * intros p. rewrite Htabs, list_elem_of_singleton. done.
      * intros π p Hπp Ep. rewrite (tab_add_tab (mem k) m' root π0 pt i q) by done.
        rewrite decide_False; [done|]. intros ->. rewrite tab_snoc, E, Hn in Ep. done.
      * intros p x Hp Hx Hnl Hnt. apply Hout.
        -- intros Hin. apply Hnl. rewrite (pages_disjoint p q x); auto using page_aligned. by left.
        -- intros Hin. apply Hnt. by rewrite (pages_disjoint p pt x); auto using page_aligned.
    + split; [intros va'; by apply (tab_add_leaf (mem k) m' root π0 pt i q)|].
      right. split; [done|]. simpl. rewrite (tab_add_tab (mem k) m' root π0 pt i q) by done.
      by rewrite decide_True.
  - eexists _, k, [], l. split; [reflexivity|]. split; [done|].
    split; [by apply grows_refl|]. split; [done|]. right.
    assert (tab (mem k) root (π0 ++ [i]) = Some (PTE2PA (ent (mem k) pt i))) as Et.
    { rewrite tab_snoc, E. unfold child. by destruct (Z.eqb_spec (Z.land (ent (mem k) pt i) PTE_V) 0). }
    split; [|done]. by eapply (tab_page k l root).
Qed.

Lemma walk_alloc k l root va :
  vinv k l root → va < MAXVA →
  ∃ a k' used l', walk root va true k = Ret a k' ∧ l = used ++ l' ∧
    grows root used k l' k' ∧ same_leaves root k k' ∧
    ((a = 0 ∧ l' = []) ∨
     ∃ t, tab (mem k') root (va_path va) = Some t ∧ a = t + 8 * PX 0 va ∧ a ≠ 0).
Proof.
  intros Hv Hva. unfold walk. destruct (Z.leb_spec MAXVA va); [lia|].
  pose proof (va_path_ok va) as Hπ. unfold va_path in *.
  assert (path_ok ([] ++ [PX 2 va])) as Hπ1.
  { destruct Hπ as [_ Hf]. split; [simpl; lia|]. by inversion Hf; constructor. }
  destruct (walk_level_alloc k l root [] root va 2 Hv Hπ1 eq_refl)
    as (r1 & k1 & u1 & l1 & E1 & -> & G1 & L1 & Hr1).
  rewrite (bind_eq _ _ _ _ _ E1).
  destruct Hr1 as [[-> Hl]|[Hne1 T1]].
  { exists 0, k1, u1, l1. apply app_eq_nil in Hl as [-> ->].
    split_and!; try done. by left. }
  destruct (Z.eqb_spec r1 0); [done|].
  destruct (walk_level_alloc k1 l1 root [PX 2 va] r1 va 1 (g_inv _ _ _ _ _ G1) Hπ T1)
    as (r2 & k2 & u2 & l2 & E2 & -> & G2 & L2 & Hr2).
  rewrite (bind_eq _ _ _ _ _ E2).
  assert (same_leaves root k k2) as L12 by (intros va'; by rewrite L2, L1).
  assert (grows root (u1 ++ u2) k l2 k2) as G12 by (by eapply grows_trans).
  destruct Hr2 as [[-> Hl]|[Hne2 T2]].
  { exists 0, k2, (u1 ++ u2), l2. apply app_eq_nil in Hl as [-> ->].
    rewrite <- app_assoc. split_and!; try done. by left. }
  destruct (Z.eqb_spec r2 0); [done|].
  eexists _, k2, (u1 ++ u2), l2. rewrite <- app_assoc.
  split_and!; try done. right. exists r2. split; [done|]. split; [done|].
  destruct (tab_page k2 l2 root _ r2 (g_inv _ _ _ _ _ G2) Hπ T2) as [Hp _].
  pose proof (page_ok_pos r2 Hp). pose proof (PX0_ok va) as Hi. unfold idx_ok in Hi. lia.
Qed.

(** ** Setting a leaf entry *)

Lemma set_leaf k l root va t v :
  vinv k l root → 0 ≤ va < MAXVA → tab (mem k) root (va_path va) = Some t →
  0 ≤ v < 2 ^ 64 →
  let k' := k <| mem := store64 (mem k) (t + 8 * PX 0 va) v |> in
  grows root [] k l k' ∧
  (∀ va', 0 ≤ va' < MAXVA → leaf_pte (mem k') root va' =
     if decide (va' / 4096 = va / 4096) then v else leaf_pte (mem k) root va') ∧
  (∀ p x, p mod PGSIZE = 0 → in_page p x → ¬ is_table (mem k) root p →
     load8 (mem k') x = load8 (mem k) x).
Proof.
  intros [Hk Hwf Hfree] Hva E Hv k'.
  pose proof (va_path_ok va) as Hπ. pose proof (PX0_ok va) as Hi.
  pose proof (wf_pages _ _ Hwf _ t Hπ E) as Ht.
  pose proof (store64_ent_upd (mem k) root (va_path va) t (PX 0 va) v Hwf Hπ E Hi Hv) as Hu.
  destruct (leaf_upd_wf _ _ _ _ _ _ _ Hwf Hπ eq_refl Hu) as [Hwf' Htabs].
  assert (∀ x, ¬ in_page t x → load8 (mem k') x = load8 (mem k) x) as Hout.
  { intros x Hx. apply load8_store_ne. unfold in_page, idx_ok in *.
    change (Z.of_nat 8) with 8. zlia. }
  assert (is_table (mem k) root t) as Htt by (by exists (va_path va)).
  assert (∀ p x, p mod PGSIZE = 0 → in_page p x → ¬ is_table (mem k) root p →
     load8 (mem k') x = load8 (mem k) x) as Hframe.
  { intros p x Hp Hx Hnt. apply Hout. intros Hin. apply Hnt.
    by rewrite (pages_disjoint p t x); auto using page_aligned. }
  split; [|split].
  - split; simpl.
    + split; simpl; [|done|].
      * split; simpl; [|apply Hk|apply bytes_ok_store, Hk].
        apply (chain_other_page (mem k) _ _ _ t); [by apply Hfree|by apply page_aligned|done|apply Hk].
      * intros p Hp%Htabs. by apply Hfree.
    + intros p. rewrite Htabs, elem_of_nil. tauto.
    + intros π p Hπp Ep. by rewrite (leaf_upd_tab (mem k) _ root (va_path va) t (PX 0 va) v).
    + intros p x Hp Hx _ Hnt. by apply (Hframe p).
  - intros va' Hva'. by apply (leaf_upd_pte (mem k) _ root va t).
  - done.
Qed.

(** ** [mappages] *)

(** The leaf entries after mapping [j] pages at [a] to physical pages from
    [pa]. *)
Definition mapped (root : Z) (k : kmem) (a j pa perm va : Z) : Z :=
  if decide (a ≤ va < a + j * 4096)
  then pte_of (pa + 4096 * ((va - a) / 4096)) (Z.lor perm PTE_V)
  else leaf_pte (mem k) root va.

Lemma lor_flags_range perm : 0 ≤ perm < 1024 → 0 ≤ Z.lor perm PTE_V < 1024.
Proof.
  intros Hp. change PTE_V with 1. split; [apply Z.lor_nonneg; lia|].
  destruct (decide (perm = 0)) as [->|]; [done|].
  apply (Z.log2_lt_cancel _ (2 ^ 10)). rewrite Z.log2_lor by lia.
  assert (Z.log2 perm < 10) by (apply Z.log2_lt_pow2; lia).
  change (Z.log2 1) with 0. change (Z.log2 (2 ^ 10)) with 10. lia.
Qed.

Lemma pte_word pa perm :
  0 ≤ pa < 2 ^ 56 → pa mod 4096 = 0 → 0 ≤ perm < 1024 →
  Z.lor (Z.lor (PA2PTE pa) perm) PTE_V = pte_of pa (Z.lor perm PTE_V) ∧
  0 ≤ pte_of pa (Z.lor perm PTE_V) < 2 ^ 64.
Proof.
  intros Hpa Hal Hp. split; [unfold pte_of; by rewrite Z.lor_assoc|].
  pose proof (lor_flags_range perm Hp). rewrite pte_of_eq by done. dlia.
Qed.

Lemma leaf_of_tab k root va t :
  tab (mem k) root (va_path va) = Some t →
  load64 (mem k) (t + 8 * PX 0 va) = leaf_pte (mem k) root va.
Proof. unfold leaf_pte. by intros ->. Qed.

Lemma mappages_loop_spec n k l root a pa perm fuel :
  vinv k l root → a mod 4096 = 0 → 0 ≤ a → a + Z.of_nat n * 4096 < MAXVA →
  pa mod 4096 = 0 → 0 ≤ pa → pa + Z.of_nat n * 4096 < 2 ^ 56 → 0 ≤ perm < 1024 →
  (∀ va, a ≤ va < a + (Z.of_nat n + 1) * 4096 → Z.land (leaf_pte (mem k) root va) PTE_V = 0) →
  (n < fuel)%nat →
  ∃ r k' used l', mappages_loop fuel root a (a + Z.of_nat n * 4096) pa perm k = Ret r k' ∧
    l = used ++ l' ∧ grows root used k l' k' ∧
    ∃ j, 0 ≤ j ≤ Z.of_nat n + 1 ∧
      (∀ va, 0 ≤ va < MAXVA → leaf_pte (mem k') root va = mapped root k a j pa perm va) ∧
      ((r = 0 ∧ j = Z.of_nat n + 1) ∨ (r = -1 ∧ j ≤ Z.of_nat n ∧ l' = [])).
Proof.
  revert k l a pa fuel. induction n as [|n IH];
    intros k l a pa [|fuel] Hv Hal Ha Hmax Hpal Hpa Hpmax Hperm Hfree Hfuel; try lia.
  all: simpl mappages_loop.
  all: assert (0 ≤ a < MAXVA) as Hamax by lia.
  all: destruct (walk_alloc k l root a Hv (proj2 Hamax))
    as (p & k1 & u1 & l1 & E1 & -> & G1 & L1 & [[-> ->]|(t & T & -> & Hne)]);
    rewrite (bind_eq _ _ _ _ _ E1).
  1,3: simpl; exists (-1), k1, u1, []; split; [done|]; split; [done|]; split; [done|];
    exists 0; split; [lia|]; split; [|right; split_and!; done || lia];
    intros va Hva; unfold mapped; rewrite decide_False by lia; apply L1.
  all: destruct (Z.eqb_spec (t + 8 * PX 0 a) 0); [done|].
  all: unfold bind at 1, gets at 1; rewrite (leaf_of_tab k1 root a t T), L1, Hfree by lia; simpl.
  all: destruct (pte_word pa perm) as [Ew Hw]; [lia|done|done|].
  all: unfold set_mem, bind at 1, modify; rewrite Ew.
  all: destruct (set_leaf k1 l1 root a t _ (g_inv _ _ _ _ _ G1) Hamax T Hw) as (G2 & L2 & _).
  all: set (k2 := k1 <| mem := _ |>) in *.
  all: assert (grows root (u1 ++ []) k l1 k2) as G12 by (eapply grows_trans; done);
    rewrite app_nil_r in G12.
  - rewrite Z.mul_0_l, Z.add_0_r, Z.eqb_refl. exists 0, k2, u1, l1.
    split; [done|]. split; [done|]. split; [done|]. exists 1. split; [lia|].
    split; [|left; lia]. intros va Hva. rewrite L2 by done. unfold mapped.
    destruct (decide (va / 4096 = a / 4096)).
    + rewrite decide_True by dlia. f_equal. dlia.
    + rewrite decide_False by dlia. apply L1.
  - destruct (Z.eqb_spec a (a + Z.of_nat (S n) * 4096)); [lia|].
    rewrite !u64_small by (rewrite ?MAXVA_eq in *; zlia).
    destruct (IH k2 l1 (a + PGSIZE) (pa + PGSIZE) fuel (g_inv _ _ _ _ _ G12))
      as (r & k3 & u3 & l3 & E3 & -> & G3 & j & Hj & L3 & Hr); try zlia;
      try (unfold PGSIZE; dlia).
    { intros va Hva. rewrite L2 by (unfold PGSIZE in *; rewrite MAXVA_eq in *; dlia).
      rewrite decide_False by (unfold PGSIZE in *; dlia).
      rewrite L1. apply Hfree. zlia. }
    replace (a + Z.of_nat (S n) * 4096) with (a + PGSIZE + Z.of_nat n * 4096) by zlia.
    exists r, k3, (u1 ++ u3), l3. split; [done|]. rewrite <- app_assoc. split; [done|].
    split; [by eapply grows_trans|]. exists (j + 1). split; [lia|].
    split; [|destruct Hr as [[-> ->]|(-> & ? & ->)]; [left|right]; split_and!; done || lia].
    intros va Hva. rewrite L3 by done. unfold mapped at 1. rewrite L2 by done.
    unfold mapped, PGSIZE. destruct (decide (a + 4096 ≤ va < _)).
    + rewrite decide_True by lia. f_equal. dlia.
    + destruct (decide (va / 4096 = a / 4096)).
      * rewrite decide_True by dlia. f_equal. dlia.
      * rewrite decide_False by dlia. apply L1.
Qed.

Lemma mappages_spec k l root va size pa perm :
  vinv k l root → 0 ≤ va → 0 < size → va + size ≤ MAXVA →
  pa mod 4096 = 0 → 0 ≤ pa → pa + size + 4096 < 2 ^ 56 → 0 ≤ perm < 1024 →
  let a := va - va mod 4096 in
  let n := (va + size - 1) / 4096 - va / 4096 + 1 in
  (∀ va', a ≤ va' < a + n * 4096 → Z.land (leaf_pte (mem k) root va') PTE_V = 0) →
  ∃ r k' used l', mappages root va size pa perm k = Ret r k' ∧
    l = used ++ l' ∧ grows root used k l' k' ∧
    ∃ j, 0 ≤ j ≤ n ∧
      (∀ va', 0 ≤ va' < MAXVA → leaf_pte (mem k') root va' = mapped root k a j pa perm va') ∧
      ((r = 0 ∧ j = n) ∨ (r = -1 ∧ j < n ∧ l' = [])).
Proof.
  intros Hv Hva Hsz Hmax Hpal Hpa Hpmax Hperm a n Hfree. unfold mappages.
  destruct (Z.eqb_spec size 0); [lia|]. rewrite MAXVA_eq in *.
  rewrite (u64_small (va + size)) by lia. rewrite u64_small by lia.
  rewrite !PGROUNDDOWN_eq by lia. fold a.
  set (last := va + size - 1 - (va + size - 1) mod 4096).
  assert (last = a + Z.of_nat (Z.to_nat (n - 1)) * 4096) as Elast.
  { unfold last, a, n. rewrite Z2Nat.id by dlia. dlia. }
  destruct (mappages_loop_spec (Z.to_nat (n - 1)) k l root a pa perm (mappages_fuel a last))
    as (r & k' & used & l' & E & El & G & j & Hj & L & Hr); rewrite ?MAXVA_eq; try done.
  - unfold a. dlia.
  - unfold a. dlia.
  - unfold a, n. rewrite Z2Nat.id by dlia. dlia.
  - unfold n. rewrite Z2Nat.id by dlia. dlia.
  - intros va' Hva'. apply Hfree. rewrite Z2Nat.id in Hva' by (unfold n; dlia). lia.
  - unfold mappages_fuel. destruct (Z.leb_spec a last); [|unfold last, a in *; dlia].
    unfold PGSIZE, last, a, n in *.
    apply Nat.lt_succ_r. apply Z2Nat.inj_le; dlia.
  - rewrite Z2Nat.id in * by (unfold n; dlia). rewrite <- Elast in E.
    exists r, k', used, l'. split; [done|]. split; [done|]. split; [done|].
    exists j. split; [lia|]. split; [done|].
    destruct Hr as [[-> ->]|(-> & ? & ->)]; [left|right]; split_and!; done || lia.
Qed.

(** ** [walkaddr] *)

Lemma walkaddr_spec k l root va :
  vinv k l root →
  walkaddr root va k =
  Ret (if va <? MAXVA then
         let e := leaf_pte (mem k) root va in
         if (Z.land e PTE_V =? 0) || (Z.land e PTE_U =? 0) then 0 else PTE2PA e
       else 0) k.
Proof.
  intros Hv. unfold walkaddr. destruct (Z.leb_spec MAXVA va), (Z.ltb_spec va MAXVA); try lia.
  { done. }
  rewrite (bind_eq _ _ _ _ _ (walk_noalloc k l root va Hv ltac:(lia))). unfold leaf_pte.
  destruct (tab (mem k) root (va_path va)) as [t|] eqn:E; [|done].
  destruct (tab_page k l root _ t Hv (va_path_ok va) E) as [Hp _].
  pose proof (page_ok_pos t Hp). pose proof (PX0_ok va) as Hi. unfold idx_ok in Hi.
  destruct (Z.eqb_spec (t + 8 * PX 0 va) 0); [lia|].
  unfold bind, gets, ret. fold (ent (mem k) t (PX 0 va)). simpl.
  destruct (Z.land (ent (mem k) t (PX 0 va)) PTE_V =? 0); [done|].
  by destruct (Z.land (ent (mem k) t (PX 0 va)) PTE_U =? 0).
Qed.

(** ** Data pages: allocation, release *)

Lemma vinv_kalloc k l root d :
  vinv k (d :: l) root →
  ∃ k', kalloc k = Ret d k' ∧ vinv k' l root ∧ same_leaves root k k' ∧
    page_ok d ∧ (d ∉ l) ∧ ¬ is_table (mem k) root d ∧
    (∀ p, is_table (mem k') root p ↔ is_table (mem k) root p) ∧
    (∀ x, ¬ in_page d x → load8 (mem k') x = load8 (mem k) x).
Proof.
  intros [Hk Hwf Hfree]. destruct (kalloc_spec k l d Hk) as (k' & E & Hk' & Hd & Hdl & Hload).
  assert (¬ is_table (mem k) root d) as Hnt. { intros Ht. apply (Hfree d Ht). by left. }
  assert (∀ x, ¬ in_page d x → load8 (mem k') x = load8 (mem k) x) as Hout.
  { intros x Hx. rewrite Hload. by rewrite decide_False. }
  pose proof (page_aligned d Hd) as Hal.
  destruct (wf_other_page _ _ _ d Hwf Hal Hnt Hout) as [Hwf' Htabs].
  exists k'. split_and!; try done.
  - split; [done|done|]. intros p Hp%Htabs Hin. apply (Hfree p Hp). by right.
  - intros va. by apply (leaf_other_page _ _ _ d).
Qed.

(** Writing inside a data page. *)
Lemma vinv_data k l root d m' :
  vinv k l root → page_ok d → d ∉ l → ¬ is_table (mem k) root d → bytes_ok m' →
  (∀ x, ¬ in_page d x → load8 m' x = load8 (mem k) x) →
  let k' := k <| mem := m' |> in
  vinv k' l root ∧ same_leaves root k k' ∧
  (∀ p, is_table (mem k') root p ↔ is_table (mem k) root p).
Proof.
  intros [Hk Hwf Hfree] Hd Hdl Hnt Hb Hout k'. pose proof (page_aligned d Hd) as Hal.
  destruct (wf_other_page _ _ _ d Hwf Hal Hnt Hout) as [Hwf' Htabs].
  split_and!.
  - split; [|done|].
    + split; simpl; [|apply Hk|done].
      apply (chain_other_page (mem k) _ _ _ d); [done|done|done|apply Hk].
    + intros p Hp%Htabs. by apply Hfree.
  - intros va. by apply (leaf_other_page _ _ _ d).
  - done.
Qed.

Lemma vinv_kfree k l root d :
  vinv k l root → page_ok d → d ∉ l → ¬ is_table (mem k) root d →
  ∃ k', kfree d k = Ret tt k' ∧ vinv k' (d :: l) root ∧ same_leaves root k k' ∧
    (∀ p, is_table (mem k') root p ↔ is_table (mem k) root p) ∧
    (∀ x, ¬ in_page d x → load8 (mem k') x = load8 (mem k) x).
Proof.
  intros [Hk Hwf Hfree] Hd Hdl Hnt. destruct (kfree_spec k l d Hk Hd Hdl) as (k' & E & Hk' & Hout).
  pose proof (page_aligned d Hd) as Hal.
  destruct (wf_other_page _ _ _ d Hwf Hal Hnt Hout) as [Hwf' Htabs].
  exists k'. split_and!; try done.
  - split; [done|done|]. intros p Hp%Htabs [->|Hin]%elem_of_cons; [done|].
    by apply (Hfree p Hp).
  - intros va. by apply (leaf_other_page _ _ _ d).
Qed.

(** ** [uvmunmap] *)

(** A leaf entry that maps the data page [d]. *)
Definition maps (e d : Z) : Prop :=
  ∃ f, e = pte_of d f ∧ page_ok d ∧ 0 ≤ f < 1024 ∧ Z.land f PTE_V = 1 ∧ f ≠ PTE_V.

Lemma maps_facts e d :
  maps e d → page_ok d ∧ PTE2PA e = d ∧ Z.land e PTE_V = 1 ∧ PTE_FLAGS e ≠ PTE_V.
Proof.
  intros (f & -> & Hd & Hf & HV & Hne). pose proof (page_ok_pos d Hd).
  pose proof (page_aligned d Hd) as Hal. unfold PGSIZE in Hal. split_and!; try done.
  - apply PTE2PA_of; lia || done.
  - change PTE_V with (Z.shiftl 1 0) in *. rewrite land_flag_of by (lia || done). done.
  - rewrite PTE_FLAGS_of by (lia || done). done.
Qed.

(** One iteration of [uvmunmap] with [do_free]: the data page of [a] goes to
    the free list and only [a]'s translation changes. *)
Lemma unmap_page k l root a d fuel stop :
  vinv k l root → 0 ≤ a < MAXVA → a < stop → d ∉ l → ¬ is_table (mem k) root d →
  maps (leaf_pte (mem k) root a) d →
  ∃ k2, uvmunmap_loop (S fuel) root a stop true k =
        uvmunmap_loop fuel root (u64 (a + PGSIZE)) stop true k2 ∧
    vinv k2 (d :: l) root ∧
    (∀ va, 0 ≤ va < MAXVA → leaf_pte (mem k2) root va =
       if decide (va / 4096 = a / 4096) then 0 else leaf_pte (mem k) root va) ∧
    (∀ p, is_table (mem k2) root p ↔ is_table (mem k) root p) ∧
    (∀ p x, p mod PGSIZE = 0 → in_page p x → p ≠ d → ¬ is_table (mem k) root p →
       load8 (mem k2) x = load8 (mem k) x).
Proof.
  intros Hv Ha Hstop Hdl Hnt Hm. simpl. destruct (Z.ltb_spec a stop); [simpl|lia].
  destruct (maps_facts _ _ Hm) as (Hd & Epa & EV & EF).
  rewrite (bind_eq _ _ _ _ _ (walk_noalloc k l root a Hv (proj2 Ha))).
  unfold leaf_pte in Epa, EV, EF. destruct (tab (mem k) root (va_path a)) as [t|] eqn:T; [|done].
  destruct (tab_page k l root _ t Hv (va_path_ok a) T) as [Hp _].
  pose proof (page_ok_pos t Hp). pose proof (PX0_ok a) as Hi. unfold idx_ok in Hi.
  destruct (Z.eqb_spec (t + 8 * PX 0 a) 0); [lia|].
  unfold bind at 1, gets at 1. fold (ent (mem k) t (PX 0 a)). rewrite EV. simpl.
  destruct (Z.eqb_spec (PTE_FLAGS (ent (mem k) t (PX 0 a))) PTE_V); [done|]. rewrite Epa.
  destruct (vinv_kfree k l root d Hv Hd Hdl Hnt) as (k1 & E1 & Hv1 & L1 & T1 & F1).
  rewrite (bind_eq _ _ _ _ _ E1). unfold set_mem, bind at 1, modify.
  assert (tab (mem k1) root (va_path a) = Some t) as T'.
  { rewrite <- T. apply (tab_other_page _ _ _ d); auto using page_aligned, va_path_ok.
    apply Hv. }
  destruct (set_leaf k1 (d :: l) root a t 0 Hv1 Ha T') as (G2 & L2 & F2); [lia|].
  eexists. split; [reflexivity|]. split_and!.
  - apply G2.
  - intros va Hva. rewrite L2 by done. by rewrite L1.
  - intros p. rewrite (g_tabs _ _ _ _ _ G2), T1, elem_of_nil. tauto.
  - intros p x Hpal Hx Hpd Hpt. rewrite (F2 p); [|done|done|by rewrite T1].
    apply F1. intros Hin. apply Hpd. apply (pages_disjoint p d x); auto using page_aligned.
Qed.

Lemma uvmunmap_free_spec ds k l root a fuel stop :
  vinv k l root → a mod 4096 = 0 → 0 ≤ a → stop = a + Z.of_nat (length ds) * 4096 →
  stop ≤ MAXVA → (length ds < fuel)%nat → NoDup (ds ++ l) →
  (∀ d, d ∈ ds → ¬ is_table (mem k) root d) →
  (∀ i d, ds !! i = Some d → maps (leaf_pte (mem k) root (a + Z.of_nat i * 4096)) d) →
  ∃ k', uvmunmap_loop fuel root a stop true k = Ret tt k' ∧ vinv k' (rev ds ++ l) root ∧
    (∀ va, 0 ≤ va < MAXVA → leaf_pte (mem k') root va =
       if decide (a ≤ va < stop) then 0 else leaf_pte (mem k) root va) ∧
    (∀ p, is_table (mem k') root p ↔ is_table (mem k) root p) ∧
    (∀ p x, p mod PGSIZE = 0 → in_page p x → p ∉ ds → ¬ is_table (mem k) root p →
       load8 (mem k') x = load8 (mem k) x).
Proof.
  revert k l a fuel. induction ds as [|d ds IH];
    intros k l a [|fuel] Hv Hal Ha Hstop Hmax Hfuel Hnd Hnt Hmaps; simpl in Hstop, Hfuel; try lia.
  { exists k. simpl. destruct (Z.ltb_spec a stop); [lia|]. split; [done|]. split; [done|].
    split; [|done]. intros va Hva. by rewrite decide_False by lia. }
  simpl in Hnd. apply NoDup_cons in Hnd as [Hnew Hnd]. rewrite elem_of_app in Hnew.
  pose proof (Hmaps 0%nat d eq_refl) as Hm. rewrite Z.mul_0_l, Z.add_0_r in Hm.
  destruct (unmap_page k l root a d fuel stop Hv) as (k2 & -> & Hv2 & L2 & T2 & F2);
    [lia|lia|tauto|apply Hnt; by left|done|].
  rewrite u64_small by (rewrite MAXVA_eq in *; zlia).
  destruct (IH k2 (d :: l) (a + PGSIZE) fuel Hv2)
    as (k3 & E3 & Hv3 & L3 & T3 & F3); try (unfold PGSIZE; dlia); try lia.
  - rewrite <- Permutation_middle. constructor; [|done]. rewrite elem_of_app. tauto.
  - intros d' Hd'. rewrite T2. apply Hnt. by right.
  - intros i d' Hi'. rewrite L2.
    2:{ apply lookup_lt_Some in Hi'. unfold PGSIZE. lia. }
    rewrite decide_False by (unfold PGSIZE; dlia).
    specialize (Hmaps (S i) d' Hi'). unfold PGSIZE.
    by replace (a + 4096 + Z.of_nat i * 4096) with (a + Z.of_nat (S i) * 4096) by lia.
  - exists k3. split; [done|]. simpl rev. rewrite <- app_assoc. split; [done|]. split_and!.
    + intros va Hva. rewrite L3 by done. unfold PGSIZE. rewrite L2 by done.
      destruct (decide (a + 4096 ≤ va < stop)); [by rewrite decide_True by lia|].
      destruct (decide (va / 4096 = a / 4096)); [rewrite decide_True by dlia; done|].
      by rewrite decide_False by dlia.
    + intros p. by rewrite T3, T2.
    + intros p x Hpal Hx Hpd Hpt. rewrite elem_of_cons in Hpd.
      rewrite (F3 p); [|done|done|tauto|by rewrite T2]. apply (F2 p); tauto.
Qed.

End spec.
