(* ===== verification/VmUser.v ===== *)
(** * User address spaces

    A user address space is a page table whose pages from address 0 up map
    the data pages [ds], in order. [uvmalloc] and [uvmdealloc] grow and shrink
    it, all or nothing; [copyout] and [copyin] move bytes through it. *)

From S2P Require Import Prelude.
From S2P Require Import Machine.
From S2P Require Import KString.
From S2P Require Import Kalloc.
From S2P Require Import Vm.
From S2P Require Import VmTree.
From S2P Require Import VmSpec.
#[local] Open Scope Z_scope.

Section user.
Context `{KernelImage}.

Record uspace (k : kmem) (l : list Z) (root : Z) (ds : list Z) : Prop := {
  us_v : vinv k l root;
  us_nodup : NoDup (ds ++ l);
  us_notab : ∀ d, d ∈ ds → ¬ is_table (mem k) root d;
  us_maps : ∀ i d, ds !! i = Some d → maps (leaf_pte (mem k) root (Z.of_nat i * 4096)) d;
  us_max : Z.of_nat (length ds) * 4096 ≤ TRAPFRAME;
  us_none : ∀ va, Z.of_nat (length ds) * 4096 ≤ va < TRAPFRAME →
            Z.land (leaf_pte (mem k) root va) PTE_V = 0
}.

(** The pages [ds] keep their contents and their translations. *)
Record keeps (root : Z) (ds : list Z) (k k' : kmem) : Prop := {
  kp_data : ∀ d x, d ∈ ds → in_page d x → load8 (mem k') x = load8 (mem k) x;
  kp_leaf : ∀ va, 0 ≤ va < Z.of_nat (length ds) * 4096 →
            leaf_pte (mem k') root va = leaf_pte (mem k) root va
}.

(** The pages of an address space: data pages, free pages and tables. *)
Definition has_page (k : kmem) (l : list Z) (root : Z) (ds : list Z) (p : Z) : Prop :=
  p ∈ ds ∨ p ∈ l ∨ is_table (mem k) root p.
Definition same_tables (root : Z) (k k' : kmem) : Prop := ∀ p, is_table (mem k') root p ↔ is_table (mem k) root p.

Lemma keeps_refl root ds k : keeps root ds k k.
Proof. by split. Qed.

Lemma keeps_trans root ds k1 k2 k3 :
  keeps root ds k1 k2 → keeps root ds k2 k3 → keeps root ds k1 k3.
Proof.
  intros [D1 L1] [D2 L2]. split.
  - intros d x Hd Hx. by rewrite (D2 d), (D1 d).
  - intros va Hva. by rewrite L2, L1.
Qed.

Lemma keeps_prefix root ds ds' k1 k2 :
  keeps root (ds ++ ds') k1 k2 → keeps root ds k1 k2.
Proof.
  intros [D L]. split.
  - intros d x Hd. apply D, elem_of_app. by left.
  - intros va Hva. apply L. rewrite length_app. lia.
Qed.

Lemma user_limit : TRAPFRAME < MAXVA ∧ TRAPFRAME mod 4096 = 0 ∧ TRAPFRAME < 2 ^ 38.
Proof. vm_compute. split_and!; done. Qed.

Lemma us_page k l root ds d : uspace k l root ds → d ∈ ds → page_ok d.
Proof.
  intros Hu [i Hi]%list_elem_of_lookup. by apply (us_maps _ _ _ _ Hu i) in Hi as (f & _ & ? & _).
Qed.

Lemma land_lor_V x : Z.land (Z.lor x PTE_V) PTE_V = 1.
Proof.
  change PTE_V with 1. rewrite Z.land_lor_distr_l. change (Z.land 1 1) with 1.
  change 1 with (Z.ones 1) at 1. rewrite Z.land_ones by lia. change (2 ^ 1) with 2.
  assert (x mod 2 = 0 ∨ x mod 2 = 1) as [-> | ->] by dlia; done.
Qed.

(** The entry [uvmalloc] writes maps its page. *)
Lemma maps_uvm d xperm :
  page_ok d → 0 ≤ xperm < 1024 →
  maps (pte_of d (Z.lor (Z.lor (Z.lor PTE_R PTE_U) xperm) PTE_V)) d ∧
  0 ≤ Z.lor (Z.lor PTE_R PTE_U) xperm < 1024.
Proof.
  intros Hd Hx.
  assert (0 ≤ Z.lor (Z.lor PTE_R PTE_U) xperm < 1024) as Hr.
  { split; [apply Z.lor_nonneg; split; [done|lia]|].
    destruct (decide (xperm = 0)) as [->|]; [done|].
    apply (Z.log2_lt_cancel _ (2 ^ 10)). rewrite Z.log2_lor by (done || lia).
    assert (Z.log2 xperm < 10) by (apply Z.log2_lt_pow2; lia).
    change (Z.log2 (Z.lor PTE_R PTE_U)) with 4. change (Z.log2 (2 ^ 10)) with 10. lia. }
  split; [|done]. eexists. split; [done|]. split; [done|].
  split; [by apply lor_flags_range|]. split; [apply land_lor_V|].
  intros E. apply (f_equal (λ z, Z.testbit z 1)) in E.
  rewrite !Z.lor_spec in E. vm_compute in E. done.
Qed.

(** ** Growing by one page *)

(** [d] is a page no one uses. *)
Record spare (k : kmem) (l : list Z) (root : Z) (ds : list Z) (d : Z) : Prop := {
  sp_page : page_ok d;
  sp_free : d ∉ ds ++ l;
  sp_tab : ¬ is_table (mem k) root d
}.

Lemma kalloc_zeroed k l root ds d :
  uspace k (d :: l) root ds →
  ∃ k1, kalloc k = Ret d k1 ∧
  let kz := k1 <| mem := memset (mem k1) d 0 PGSIZE |> in
  uspace kz l root ds ∧ keeps root ds k kz ∧ spare kz l root ds d ∧
  (∀ x, in_page d x → load8 (mem kz) x = 0) ∧ same_tables root k kz.
Proof.
  intros [Hv Hnd Hnt Hmaps Hm Hnone].
  destruct (vinv_kalloc k l root d Hv) as (k1 & Ek & Hv1 & L1 & Hd & Hdl & Hntd & T1 & F1).
  exists k1. split; [done|].
  assert (∀ x, load8 (memset (mem k1) d 0 PGSIZE) x =
    if decide (in_page d x) then 0 else load8 (mem k1) x) as Fz by (intros x; by rewrite memset_load).
  assert (∀ x, ¬ in_page d x → load8 (memset (mem k1) d 0 PGSIZE) x = load8 (mem k1) x) as Fz'.
  { intros x Hx. rewrite Fz. by rewrite decide_False. }
  destruct (vinv_data k1 l root d (memset (mem k1) d 0 PGSIZE) Hv1 Hd Hdl) as (Hvz & Lz & Tz);
    [by rewrite T1|apply bytes_ok_memset, Hv1|exact Fz'|].
  set (kz := k1 <| mem := _ |>) in *.
  apply NoDup_app in Hnd as (Hnd1 & Hnd2 & Hnd3). apply NoDup_cons in Hnd3 as [_ Hnd3].
  assert (d ∉ ds) as Hdds. { intros Hin. apply (Hnd2 d Hin). by left. }
  split_and!.
  - split; try done.
    + apply NoDup_app. split_and!; try done. intros e He Hin. apply (Hnd2 e He). by right.
    + intros e He. rewrite Tz, T1. auto.
    + intros i e Hi. rewrite Lz, L1. auto.
    + intros va Hva. rewrite Lz, L1. auto.
  - split; [|intros va _; by rewrite Lz, L1]. intros e x He Hx.
    assert (page_ok e) as Hep.
    { apply list_elem_of_lookup in He as [i Hi]. by apply Hmaps in Hi as (f & _ & ? & _). }
    assert (¬ in_page d x) as Hnx.
    { intros Hin. apply Hdds.
      assert (d = e) as -> by (apply (pages_disjoint d e x); eauto using page_aligned).
      done. }
    simpl. rewrite Fz', F1; done.
  - split; [done| |by rewrite Tz, T1]. rewrite elem_of_app. tauto.
  - intros x Hx. simpl. rewrite Fz. by rewrite decide_True.
  - intros e. by rewrite Tz, T1.
Qed.

(** Mapping a spare page after the last one. *)
Lemma map_page k l root ds d xperm :
  uspace k l root ds → spare k l root ds d →
  (Z.of_nat (length ds) + 1) * 4096 ≤ TRAPFRAME → 0 ≤ xperm < 1024 →
  ∃ r k' used l',
    mappages root (Z.of_nat (length ds) * 4096) PGSIZE d
      (Z.lor (Z.lor PTE_R PTE_U) xperm) k = Ret r k' ∧
    l = used ++ l' ∧ keeps root ds k k' ∧
    (∀ x, in_page d x → load8 (mem k') x = load8 (mem k) x) ∧
    (∀ p, is_table (mem k') root p ↔ is_table (mem k) root p ∨ p ∈ used) ∧
    ((r = 0 ∧ uspace k' l' root (ds ++ [d])) ∨
     (r = -1 ∧ uspace k' l' root ds ∧ spare k' l' root ds d)).
Proof.
  intros Hu [Hd Hdf Hdt] Hmax Hx. pose proof Hu as [Hv Hnd Hnt Hmaps Hm Hnone].
  destruct user_limit as (Hl1 & Hl2 & Hl3). set (a := Z.of_nat (length ds) * 4096) in *.
  assert (a = Z.of_nat (length ds) * 4096) as Ea by done. clearbody a.
  pose proof (page_ok_pos d Hd) as Hpos. pose proof (page_aligned d Hd) as Hal.
  destruct (maps_uvm d xperm Hd Hx) as [Hmd Hperm].
  destruct (mappages_spec k l root a PGSIZE d (Z.lor (Z.lor PTE_R PTE_U) xperm) Hv)
    as (r & k2 & used & l' & E & -> & G & j & Hj & L & Hr);
    [lia|unfold PGSIZE; lia|unfold PGSIZE; lia|exact Hal|lia|unfold PGSIZE; lia|exact Hperm| |].
  { intros va Hva. apply Hnone. unfold PGSIZE in *. dlia. }
  exists r, k2, used, l'. split; [done|]. split; [done|].
  replace (a - a mod 4096) with a in L by dlia.
  replace ((a + PGSIZE - 1) / 4096 - a / 4096 + 1) with 1 in * by (unfold PGSIZE; dlia).
  pose proof (g_tabs _ _ _ _ _ G) as T2.
  assert (∀ e, e ∉ used ++ l' → ¬ is_table (mem k) root e → ¬ is_table (mem k2) root e) as Hntab.
  { intros e He Ht [?|Hin]%T2; [done|]. apply He, elem_of_app. by left. }
  rewrite elem_of_app in Hdf. apply NoDup_app in Hnd as (Hnd1 & Hnd2 & Hnd3).
  apply NoDup_app in Hnd3 as (_ & _ & Hnd3).
  assert (∀ e, e ∈ ds → e ∉ l') as Hdl'.
  { intros e He Hin. apply (Hnd2 e He), elem_of_app. by right. }
  assert (∀ e x, page_ok e → in_page e x → e ∉ used ++ l' → ¬ is_table (mem k) root e →
    load8 (mem k2) x = load8 (mem k) x) as F2.
  { intros e x He Hxe H1 H2. by apply (g_frame _ _ _ _ _ G e); eauto using page_aligned. }
  assert (NoDup (ds ++ l')) as Hnd' by (apply NoDup_app; done).
  split.
  { split; [intros e x He Hxe; apply (F2 e); eauto using us_page|].
    intros va Hva. rewrite L by lia. unfold mapped. by rewrite decide_False by lia. }
  split; [intros x Hxd; apply (F2 d); tauto|]. split; [exact T2|].
  destruct Hr as [[-> ->]|(-> & Hj0 & ->)]; [left|right]; (split; [done|]).
  - assert (∀ va, 0 ≤ va < MAXVA → va / 4096 ≠ a / 4096 →
      leaf_pte (mem k2) root va = leaf_pte (mem k) root va) as Lo.
    { intros va Hva Hne. rewrite L by done. unfold mapped. by rewrite decide_False by dlia. }
    split.
    + apply G.
    + rewrite <- app_assoc. simpl. rewrite <- Permutation_middle.
      constructor; [|done]. rewrite elem_of_app in *. tauto.
    + intros e He. apply elem_of_app in He as [He|He%list_elem_of_singleton].
      * apply Hntab; auto. 
      * subst e. apply Hntab; tauto.
    + intros i e Hi. apply lookup_snoc_Some in Hi as [[Hi Hie]|[-> <-]].
      * rewrite Lo by dlia. auto.
      * rewrite <- Ea. rewrite L by lia. unfold mapped. rewrite decide_True by lia.
        replace (d + 4096 * ((a - a) / 4096)) with d by dlia. done.
    + rewrite length_app. simpl. lia.
    + intros va Hva. rewrite length_app in Hva. simpl in Hva.
      rewrite Lo by dlia. apply Hnone. lia.
  - assert (∀ va, 0 ≤ va < MAXVA → leaf_pte (mem k2) root va = leaf_pte (mem k) root va) as Lo.
    { intros va Hva. rewrite L by done. unfold mapped. by rewrite decide_False by lia. }
    split.
    + split; [apply G|done| | |lia|].
      * intros e He. apply Hntab; auto.
      * intros i e Hi. rewrite Lo; [auto|]. apply lookup_lt_Some in Hi. lia.
      * intros va Hva. rewrite Lo by lia. apply Hnone. lia.
    + split; [done| |apply Hntab; tauto]. rewrite elem_of_app in *. tauto.
Qed.

(** Giving a spare page back. *)
Lemma uspace_kfree k l root ds d :
  uspace k l root ds → spare k l root ds d →
  ∃ k', kfree d k = Ret tt k' ∧ uspace k' (d :: l) root ds ∧ keeps root ds k k' ∧ same_tables root k k'.
Proof.
  intros Hu [Hd Hdf Hdt]. pose proof Hu as [Hv Hnd Hnt Hmaps Hm Hnone].
  rewrite elem_of_app in Hdf.
  destruct (vinv_kfree k l root d Hv Hd) as (k' & E & Hv' & L & T & F); [tauto|done|].
  exists k'. split; [done|]. split; [|split; [|exact T]].
  - split; [done| | | |done|].
    + rewrite <- Permutation_middle. constructor; [by rewrite elem_of_app|done].
    + intros e He. rewrite T. auto.
    + intros i e Hi. rewrite L. auto.
    + intros va Hva. rewrite L. auto.
  - split; [|intros va _; apply L]. intros e x He Hx. apply F. intros Hin. apply Hdf. left.
    assert (d = e) as -> by (apply (pages_disjoint d e x); eauto using page_aligned, us_page).
    done.
Qed.

(** ** Shrinking *)

Lemma uvmunmap_tail k l root ds n :
  uspace k l root ds → (n ≤ length ds)%nat →
  ∃ k', uvmunmap root (Z.of_nat n * 4096) (Z.of_nat (length ds - n)) true k = Ret tt k' ∧
    uspace k' (rev (drop n ds) ++ l) root (take n ds) ∧ keeps root (take n ds) k k' ∧ same_tables root k k'.
Proof.
  intros Hu Hn. pose proof Hu as [Hv Hnd Hnt Hmaps Hm Hnone].
  destruct user_limit as (Hl1 & Hl2 & Hl3). unfold uvmunmap.
  assert (Z.of_nat n * 4096 mod PGSIZE = 0) as -> by (unfold PGSIZE; dlia). cbn [negb Z.eqb].
  rewrite !u64_small by (rewrite ?u64_small; unfold PGSIZE; lia).
  rewrite Nat2Z.id.
  pose proof Hnd as Hnd'. rewrite <- (take_drop n ds), <- app_assoc in Hnd'.
  apply NoDup_app in Hnd' as (Hnd1 & Hnd2 & Hnd3).
  destruct (uvmunmap_free_spec (drop n ds) k l root (Z.of_nat n * 4096)
    (S (length ds - n)) (Z.of_nat n * 4096 + Z.of_nat (length ds - n) * PGSIZE))
    as (k' & E & Hv' & L & T & F); rewrite ?length_drop; unfold PGSIZE in *; try lia; try done.
  - dlia.
  - intros d Hd. apply Hnt. rewrite <- (take_drop n ds). apply elem_of_app. by right.
  - intros i d Hi. rewrite lookup_drop in Hi. apply Hmaps in Hi.
    replace (Z.of_nat n * 4096 + Z.of_nat i * 4096) with (Z.of_nat (n + i) * 4096) by lia.
    done.
  - exists k'. split; [done|].
    assert (Z.of_nat (length (take n ds)) = Z.of_nat n) as Hlen by (rewrite length_take; lia).
    split; [|split; [|exact T]].
    + split; [done| | | | |].
      * apply NoDup_app. split; [done|]. split.
        -- intros e He Hin. apply (Hnd2 e He). rewrite elem_of_app in *.
           destruct Hin as [Hin|?]; [left|by right].
           apply list_elem_of_In in Hin. apply list_elem_of_In. by apply in_rev.
        -- by rewrite <- Permutation_rev.
      * intros e He. rewrite T. apply Hnt. rewrite <- (take_drop n ds).
        apply elem_of_app. by left.
      * intros i e Hi. apply lookup_take_Some in Hi as [Hi Hlt].
        rewrite L by lia. rewrite decide_False by lia. auto.
      * lia.
      * intros va Hva. rewrite L by lia. case_decide; [done|]. apply Hnone. lia.
    + split.
      * intros d x Hd Hx. apply elem_of_take in Hd as (i & Hi & Hlt) .
        assert (d ∈ ds) as Hds by (by eapply list_elem_of_lookup_2).
        apply (F d); [by eapply page_aligned, us_page|done| |by apply Hnt].
        intros Hin. apply (Hnd2 d); [apply list_elem_of_lookup; exists i; by rewrite lookup_take_lt|].
        apply elem_of_app. by left.
      * intros va Hva. rewrite L by lia. by rewrite decide_False by lia.
Qed.

Lemma PGROUNDUP_pages sz : 0 ≤ sz ≤ TRAPFRAME → PGROUNDUP sz = (sz + 4095) / 4096 * 4096.
Proof.
  intros Hsz. destruct user_limit as (_ & _ & ?). rewrite PGROUNDUP_eq by lia. dlia.
Qed.

(** The number of pages of a process of size [sz]. *)
Definition npages (sz : Z) : nat := Z.to_nat ((sz + 4095) / 4096).

Lemma npages_eq sz : 0 ≤ sz ≤ TRAPFRAME → PGROUNDUP sz = Z.of_nat (npages sz) * 4096.
Proof. intros Hsz. rewrite PGROUNDUP_pages by done. unfold npages. dlia. Qed.

Lemma npages_mono a b : 0 ≤ a ≤ b → (npages a ≤ npages b)%nat.
Proof. intros. unfold npages. apply Z2Nat.inj_le; dlia. Qed.

Lemma uvmdealloc_spec k l root ds oldsz newsz :
  uspace k l root ds → 0 ≤ newsz ≤ oldsz → oldsz ≤ TRAPFRAME →
  length ds = npages oldsz →
  ∃ k', uvmdealloc root oldsz newsz k = Ret newsz k' ∧
    uspace k' (rev (drop (npages newsz) ds) ++ l) root (take (npages newsz) ds) ∧
    keeps root (take (npages newsz) ds) k k' ∧ same_tables root k k'.
Proof.
  intros Hu Hn Ho Hlen. destruct user_limit as (Hl1 & Hl2 & Hl3).
  pose proof (npages_mono newsz oldsz Hn) as Hle. unfold uvmdealloc.
  destruct (Z.leb_spec oldsz newsz) as [Hge|Hlt].
  { assert (newsz = oldsz) as -> by lia. rewrite <- Hlen, take_ge, drop_ge by lia.
    exists k. by split_and!; [|simpl|apply keeps_refl|]. }
  destruct (uvmunmap_tail k l root ds (npages newsz) Hu ltac:(lia)) as (k' & E & Hu' & Hk' & T).
  rewrite !npages_eq by lia. rewrite <- Hlen.
  destruct (Z.ltb_spec (Z.of_nat (npages newsz) * 4096) (Z.of_nat (length ds) * 4096)) as [Hlt'|Hge].
  - assert (Z.of_nat (length ds) < 2 ^ 26).
    { rewrite Hlen. unfold npages. rewrite Z2Nat.id by dlia. dlia. }
    replace (u64 (Z.of_nat (length ds) * 4096 - Z.of_nat (npages newsz) * 4096) / PGSIZE)
      with (Z.of_nat (length ds - npages newsz))
      by (rewrite u64_small by lia; unfold PGSIZE; dlia).
    rewrite s32_small, u64_small by lia.
    rewrite (bind_eq _ _ _ _ _ E). by exists k'.
  - assert (length ds = npages newsz) as Heq by lia.
    rewrite take_ge, drop_ge by lia. exists k. by split_and!; [|simpl|apply keeps_refl|].
Qed.

(** ** [uvmalloc] *)

(** All the bytes of the pages [ds] are zero. *)
Definition zeroed (k : kmem) (ds : list Z) : Prop :=
  ∀ d x, d ∈ ds → in_page d x → load8 (mem k) x = 0.

Lemma zeroed_keeps root ds new k k' :
  keeps root (ds ++ new) k k' → zeroed k new → zeroed k' new.
Proof.
  intros [D _] Hz d x Hd Hx. rewrite (D d); [by apply (Hz d)| |done].
  apply elem_of_app. by right.
Qed.

(** What a failed [uvmalloc] leaves: the old address space, and every page
    where it was or free. *)
Lemma uvmalloc_rollback k k0 l root ds new :
  uspace k l root (ds ++ new) → keeps root ds k0 k →
  ∃ k' l', uvmdealloc root (Z.of_nat (length (ds ++ new)) * 4096)
             (Z.of_nat (length ds) * 4096) k = Ret (Z.of_nat (length ds) * 4096) k' ∧
    uspace k' l' root ds ∧ keeps root ds k0 k' ∧ ∀ p, has_page k' l' root ds p ↔ has_page k l root (ds ++ new) p.
Proof.
  intros Hu Hk. pose proof (us_max _ _ _ _ Hu) as Hm. rewrite length_app in *.
  assert (npages (Z.of_nat (length ds) * 4096) = length ds) as E1 by (unfold npages; dlia).
  destruct (uvmdealloc_spec k l root (ds ++ new) (Z.of_nat (length ds + length new) * 4096)
    (Z.of_nat (length ds) * 4096) Hu) as (k' & E & Hu' & Hk' & T); [lia|done| |].
  { rewrite length_app. unfold npages. dlia. }
  rewrite E1, take_app_length, drop_app_length in *. exists k'. eexists. split; [done|].
  split; [done|]. split; [by eapply keeps_trans|]. intros p. unfold has_page.
  rewrite (T p), !elem_of_app. rewrite (elem_of_Permutation_proper p _ _ (Permutation_rev new)). tauto.
Qed.

Lemma uvmalloc_loop_spec fuel k0 k l root ds new newsz xperm :
  uspace k l root (ds ++ new) → keeps root ds k0 k → zeroed k new →
  newsz ≤ TRAPFRAME → 0 ≤ xperm < 1024 →
  (length (ds ++ new) ≤ npages newsz)%nat →
  (npages newsz - length (ds ++ new) < fuel)%nat →
  ∃ r k' l', uvmalloc_loop fuel root (Z.of_nat (length ds) * 4096)
      (Z.of_nat (length (ds ++ new)) * 4096) newsz xperm k = Ret r k' ∧
    keeps root ds k0 k' ∧
    ((r = newsz ∧ ∃ new', uspace k' l' root (ds ++ new') ∧ zeroed k' new' ∧
        length (ds ++ new') = npages newsz ∧ ∀ p, has_page k' l' root (ds ++ new') p ↔ has_page k l root (ds ++ new) p) ∨
     (r = 0 ∧ uspace k' l' root ds ∧ ∀ p, has_page k' l' root ds p ↔ has_page k l root (ds ++ new) p)).
Proof.
  revert k l new. induction fuel as [|fuel IH]; intros k l new Hu Hk Hz Hmax Hx Hle Hf; [lia|].
  destruct user_limit as (Hl1 & Hl2 & Hl3).
  cbn [uvmalloc_loop]. destruct (Z.ltb_spec (Z.of_nat (length (ds ++ new)) * 4096) newsz) as [Hlt|Hge];
    cbn [negb].
  2:{ exists newsz, k, l. split; [done|]. split; [done|]. left. split; [done|].
      exists new. split_and!; try done. unfold npages in *. dlia. }
  pose proof (us_v _ _ _ _ Hu) as Hv.
  pose proof (kalloc_cases k l (v_kinv _ _ _ Hv)) as Hc. destruct l as [|d l].
  { rewrite (bind_eq _ _ _ _ _ Hc). cbn [Z.eqb].
    destruct (uvmalloc_rollback k k0 [] root ds new Hu Hk) as (k' & l' & E & Hu' & Hk' & Hp).
    rewrite (bind_eq _ _ _ _ _ E). exists 0, k', l'. split; [done|]. split; [done|by right]. }
  clear Hc. destruct (kalloc_zeroed k l root (ds ++ new) d Hu) as (k1 & E1 & Hrest).
  set (kz := k1 <| mem := _ |>) in *. cbv zeta in Hrest.
  destruct Hrest as (Huz & Hkz & Hsp & Hzero & Tz).
  assert (zeroed kz new) as Hznew by (by eapply zeroed_keeps).
  rewrite (bind_eq _ _ _ _ _ E1).
  destruct (Z.eqb_spec d 0) as [->|Hd0];
    [pose proof (page_ok_pos 0 (sp_page _ _ _ _ _ Hsp)); lia|].
  assert (set_mem (λ m, memset m d 0 PGSIZE) k1 = Ret tt kz) as Es by reflexivity.
  rewrite (bind_eq _ _ _ _ _ Es). clear Es. clearbody kz.
  destruct (map_page kz l root (ds ++ new) d xperm Huz Hsp)
    as (r & k2 & used & l' & E2 & -> & Hk2 & Hd2 & T2 & Hr); [unfold npages in *; dlia|done|].
  rewrite (bind_eq _ _ _ _ _ E2).
  pose proof (keeps_trans _ _ _ _ _ Hkz Hk2) as Hk02.
  assert (keeps root ds k0 k2) as Hk2'.
  { eapply keeps_trans; [done|]. by eapply keeps_prefix. }
  assert (∀ p, has_page k2 l' root (ds ++ new ++ [d]) p ↔ has_page k (d :: used ++ l') root (ds ++ new) p) as Hp2.
  { intros p. unfold has_page. rewrite T2, (Tz p), elem_of_cons, !elem_of_app, list_elem_of_singleton. tauto. }
  destruct Hr as [[-> Hu2]|(-> & Hu2 & Hsp2)]; cbn [Z.eqb negb].
  - rewrite <- app_assoc in Hu2.
    assert (zeroed k2 (new ++ [d])) as Hz2.
    { intros e x He Hxe. apply elem_of_app in He as [He|He%list_elem_of_singleton].
      - by apply (zeroed_keeps _ _ _ _ _ Hk2 Hznew e).
      - subst e. rewrite Hd2 by done. by apply Hzero. }
    assert (u64 (Z.of_nat (length (ds ++ new)) * 4096 + PGSIZE) =
      Z.of_nat (length (ds ++ new ++ [d])) * 4096) as ->.
    { rewrite u64_small; unfold PGSIZE; rewrite ?length_app in *; simpl; lia. }
    destruct (IH k2 l' (new ++ [d])) as (r & k' & l'' & E & Hk' & Hr); try done;
      [rewrite ?length_app in *; simpl; unfold npages in *; dlia..|].
    exists r, k', l''. split; [exact E|]. split; [done|].
    by setoid_rewrite Hp2 in Hr.
  - destruct (uspace_kfree k2 l' root (ds ++ new) d Hu2 Hsp2) as (k3 & E3 & Hu3 & Hk3 & T3).
    rewrite (bind_eq _ _ _ _ _ E3).
    destruct (uvmalloc_rollback k3 k0 (d :: l') root ds new Hu3) as (k4 & l4 & E4 & Hu4 & Hk4 & Hp4).
    { eapply keeps_trans; [done|]. by eapply keeps_prefix. }
    rewrite (bind_eq _ _ _ _ _ E4). exists 0, k4, l4. split; [done|]. split; [done|]. right. split; [done|]. split; [done|].
    intros p. rewrite Hp4, <- Hp2. unfold has_page. rewrite (T3 p), elem_of_cons, !elem_of_app, list_elem_of_singleton. tauto.
Qed.

End user.
