(* ===== verification/VmCopy.v ===== *)
(** * Copying between kernel and user memory

    [copyout] and [copyin] against the view of user memory as an array of
    bytes: byte [a] of an address space with data pages [ds] is byte
    [a mod 4096] of page [ds !! (a / 4096)]. *)

From S2P Require Import Prelude.
From S2P Require Import Machine.
From S2P Require Import KString.
From S2P Require Import Kalloc.
From S2P Require Import Vm.
From S2P Require Import VmTree.
From S2P Require Import VmSpec.
From S2P Require Import VmUser.
#[local] Open Scope Z_scope.

Section copy.
Context `{KernelImage}.

Definition upage (ds : list Z) (a : Z) : Z := default 0 (ds !! Z.to_nat (a / 4096)).
Definition ubyte (k : kmem) (ds : list Z) (a : Z) : Z :=
  load8 (mem k) (upage ds a + a mod 4096).

(** User code may access [a]. *)
Definition uacc (k : kmem) (root a : Z) : Prop := Z.land (leaf_pte (mem k) root a) PTE_U ≠ 0.

(** The pages above the process's size (trapframe, trampoline) are not for
    user code. *)
Definition no_user_above (k : kmem) (root : Z) : Prop :=
  ∀ a, TRAPFRAME ≤ a < MAXVA → Z.land (leaf_pte (mem k) root a) PTE_U = 0.

Lemma upage_lookup ds a :
  0 ≤ a < Z.of_nat (length ds) * 4096 → ds !! Z.to_nat (a / 4096) = Some (upage ds a).
Proof.
  intros Ha. unfold upage. destruct (lookup_lt_is_Some_2 ds (Z.to_nat (a / 4096))) as [d E]; [dlia|].
  by rewrite E.
Qed.

Lemma upage_elem ds a : 0 ≤ a < Z.of_nat (length ds) * 4096 → upage ds a ∈ ds.
Proof. intros Ha. eapply list_elem_of_lookup_2, upage_lookup, Ha. Qed.

Lemma upage_same ds a b : a / 4096 = b / 4096 → upage ds a = upage ds b.
Proof. unfold upage. by intros ->. Qed.

Lemma leaf_pte_same m root a b : a / 4096 = b / 4096 → leaf_pte m root a = leaf_pte m root b.
Proof.
  intros E. unfold leaf_pte, va_path. rewrite !(PX_page_eq a b) by (done || lia). done.
Qed.

Lemma us_leaf k l root ds a :
  uspace k l root ds → 0 ≤ a < Z.of_nat (length ds) * 4096 →
  maps (leaf_pte (mem k) root a) (upage ds a).
Proof.
  intros Hu Ha. pose proof (us_maps _ _ _ _ Hu _ _ (upage_lookup ds a Ha)) as Hm.
  rewrite (leaf_pte_same _ _ a (Z.of_nat (Z.to_nat (a / 4096)) * 4096)); [done|dlia].
Qed.

(** [walkaddr] finds exactly the accessible pages of the address space. *)
Lemma walkaddr_hit k l root ds a :
  uspace k l root ds → 0 ≤ a < Z.of_nat (length ds) * 4096 → uacc k root a →
  walkaddr root a k = Ret (upage ds a) k ∧ upage ds a ≠ 0.
Proof.
  intros Hu Ha Hacc. destruct user_limit as (Hl1 & _). pose proof (us_max _ _ _ _ Hu).
  destruct (maps_facts _ _ (us_leaf _ _ _ _ _ Hu Ha)) as (Hp & HP & HV & _).
  pose proof (page_ok_pos _ Hp). split; [|lia].
  rewrite (walkaddr_spec k l root a (us_v _ _ _ _ Hu)).
  destruct (Z.ltb_spec a MAXVA); [|lia]. cbv zeta. rewrite HV.
  unfold uacc in Hacc. apply Z.eqb_neq in Hacc. rewrite Hacc. simpl. by rewrite HP.
Qed.

Lemma walkaddr_only k l root ds a pa :
  uspace k l root ds → no_user_above k root → 0 ≤ a →
  walkaddr root a k = Ret pa k → pa ≠ 0 →
  0 ≤ a < Z.of_nat (length ds) * 4096 ∧ pa = upage ds a.
Proof.
  intros Hu Hno Ha E Hpa. rewrite (walkaddr_spec k l root a (us_v _ _ _ _ Hu)) in E.
  destruct (Z.ltb_spec a MAXVA); [|congruence]. cbv zeta in E.
  destruct (Z.eqb_spec (Z.land (leaf_pte (mem k) root a) PTE_V) 0) as [HV|HV]; [simpl in E; congruence|].
  destruct (Z.eqb_spec (Z.land (leaf_pte (mem k) root a) PTE_U) 0) as [HU|HU]; [simpl in E; congruence|].
  assert (0 ≤ a < Z.of_nat (length ds) * 4096) as Hr.
  { split; [done|]. destruct (decide (TRAPFRAME ≤ a)); [exfalso; apply HU, Hno; lia|].
    destruct (decide (Z.of_nat (length ds) * 4096 ≤ a)); [|lia].
    exfalso. apply HV, (us_none _ _ _ _ Hu). lia. }
  split; [done|]. destruct (maps_facts _ _ (us_leaf _ _ _ _ _ Hu Hr)) as (_ & HP & _).
  simpl in E. congruence.
Qed.

(** ** [copyin] *)

Lemma ubyte_run k ds va n :
  0 ≤ va → 0 ≤ n ≤ 4096 - va mod 4096 →
  load_bytes (Z.to_nat n) (mem k) (upage ds va + va mod 4096) = map (ubyte k ds) (seqZ va n).
Proof.
  intros Hva Hn. apply list_eq_same_length with (n := Z.to_nat n).
  - by rewrite length_map, length_seqZ.
  - by rewrite length_load_bytes.
  - intros i x y Hi Hx Hy. rewrite load_bytes_lookup in Hx by done. simplify_eq.
    rewrite list_lookup_fmap in Hy.
    destruct (seqZ va n !! i) as [z|] eqn:E; simplify_eq/=.
    apply lookup_seqZ in E as [-> Hi']. unfold ubyte.
    rewrite (upage_same ds (va + Z.of_nat i) va) by dlia. f_equal. dlia.
Qed.

Lemma copyin_loop_spec fuel k l root ds va len dst :
  uspace k l root ds → 0 ≤ va → 0 ≤ len → va + len ≤ Z.of_nat (length ds) * 4096 →
  (∀ a, va ≤ a < va + len → uacc k root a) → len < Z.of_nat fuel →
  copyin_loop fuel root va len dst k = Ret (0, dst ++ map (ubyte k ds) (seqZ va len)) k.
Proof.
  revert va len dst. induction fuel as [|fuel IH]; intros va len dst Hu Hva Hlen Hmax Hacc Hf; [lia|].
  destruct user_limit as (Hl1 & _ & Hl3). pose proof (us_max _ _ _ _ Hu) as Hsz.
  cbn [copyin_loop]. destruct (Z.leb_spec len 0).
  { assert (len = 0) as -> by lia. simpl. by rewrite app_nil_r. }
  rewrite PGROUNDDOWN_eq by lia.
  destruct (walkaddr_hit k l root ds (va - va mod 4096) Hu) as [E Hne];
    [dlia| |].
  { unfold uacc. rewrite (leaf_pte_same _ _ _ va) by dlia. apply Hacc. lia. }
  rewrite (bind_eq _ _ _ _ _ E). rewrite (proj2 (Z.eqb_neq _ _) Hne).
  set (n := Z.min (PGSIZE - (va - (va - va mod 4096))) len).
  assert (n = Z.min (4096 - va mod 4096) len) as En by (unfold n, PGSIZE; lia). clearbody n.
  unfold bind, gets. replace (va - (va - va mod 4096)) with (va mod 4096) by lia.
  rewrite (upage_same ds _ va) by dlia. rewrite ubyte_run by dlia.
  destruct (decide (n = len)) as [->|Hn].
  - rewrite Z.sub_diag. destruct fuel; [lia|]. done.
  - assert (n = 4096 - va mod 4096) as Hn' by lia.
    rewrite u64_small by (unfold PGSIZE; dlia).
    rewrite (IH (va - va mod 4096 + PGSIZE)); unfold PGSIZE; try done; try dlia.
    + do 2 f_equal. rewrite <- app_assoc, <- map_app. do 2 f_equal.
      replace (va - va mod 4096 + 4096) with (va + n) by lia.
      rewrite <- seqZ_app by dlia. f_equal. lia.
    + intros a Ha. apply Hacc. dlia.
Qed.

(** ** [copyout] *)

(** Writing inside one page of the address space. *)
Lemma uspace_write k l root ds va bs :
  uspace k l root ds → 0 ≤ va < Z.of_nat (length ds) * 4096 →
  Z.of_nat (length bs) ≤ 4096 - va mod 4096 →
  let k' := k <| mem := store_bytes (mem k) (upage ds va + va mod 4096) bs |> in
  uspace k' l root ds ∧
  (∀ a, leaf_pte (mem k') root a = leaf_pte (mem k) root a) ∧
  (∀ x, (∀ d, d ∈ ds → ¬ in_page d x) → load8 (mem k') x = load8 (mem k) x) ∧
  (∀ a, 0 ≤ a < Z.of_nat (length ds) * 4096 →
     ubyte k' ds a = if decide (va ≤ a < va + Z.of_nat (length bs))
                     then u8 (default 0 (bs !! Z.to_nat (a - va))) else ubyte k ds a).
Proof.
  intros Hu Hva Hlen k'. pose proof (upage_elem ds va Hva) as Hin.
  pose proof Hu as [Hv Hnd Hnt Hmaps Hm Hnone]. pose proof (us_page _ _ _ _ _ Hu Hin) as Hp.
  assert (∀ x, ¬ in_page (upage ds va) x →
    load8 (store_bytes (mem k) (upage ds va + va mod 4096) bs) x = load8 (mem k) x) as Fr.
  { intros x Hx. apply load8_store_bytes_ne. unfold in_page, in_range, PGSIZE in *.
    pose proof (Z.mod_pos_bound va 4096). lia. }
  apply NoDup_app in Hnd as (Hnd1 & Hnd2 & Hnd3).
  destruct (vinv_data k l root (upage ds va) (store_bytes (mem k) (upage ds va + va mod 4096) bs))
    as (Hv' & L & T); [done|done|by apply Hnd2|by apply Hnt|apply bytes_ok_store_bytes, Hv|done|].
  fold k' in Hv', L, T. split_and!.
  - split; [done|by apply NoDup_app| | |done|].
    + intros d Hd. rewrite T. auto.
    + intros i d Hi. rewrite L. auto.
    + intros a Ha. rewrite L. auto.
  - done.
  - intros x Hx. apply Fr. auto.
  - intros a Ha. unfold ubyte. change (mem k') with (store_bytes (mem k) (upage ds va + va mod 4096) bs).
    case_decide as Hr.
    + rewrite (upage_same ds a va) by dlia.
      destruct (lookup_lt_is_Some_2 bs (Z.to_nat (a - va))) as [b Hb]; [lia|]. rewrite Hb. simpl.
      rewrite <- (load8_store_bytes (mem k) (upage ds va + va mod 4096) bs _ b Hb). f_equal. dlia.
    + destruct (decide (a / 4096 = va / 4096)) as [Heq|Hne].
      * rewrite (upage_same ds a va Heq). apply load8_store_bytes_ne. unfold in_range. dlia.
      * apply Fr. intros Hx. apply Hne.
        assert (upage ds va = upage ds a) as Hpg.
        { apply (pages_disjoint _ _ (upage ds a + a mod 4096));
            [eauto using page_aligned|eapply page_aligned, us_page; [done|by apply upage_elem]|done|].
          unfold in_page, in_range, PGSIZE. pose proof (Z.mod_pos_bound a 4096). lia. }
        pose proof (upage_lookup ds va Hva) as E1. pose proof (upage_lookup ds a Ha) as E2.
        rewrite Hpg in E1. pose proof (NoDup_lookup _ _ _ _ Hnd1 E1 E2). dlia.
Qed.

(** What [copyout] may do whatever the user address: it returns 0 or -1, and
    writes only to pages of the address space. *)
Lemma copyout_loop_safe fuel k l root ds va src :
  uspace k l root ds → no_user_above k root → 0 ≤ va < 2 ^ 64 → (length src < fuel)%nat →
  ∃ r k', copyout_loop fuel root va src k = Ret r k' ∧ (r = 0 ∨ r = -1) ∧
    uspace k' l root ds ∧ (∀ a, leaf_pte (mem k') root a = leaf_pte (mem k) root a) ∧
    (∀ x, (∀ d, d ∈ ds → ¬ in_page d x) → load8 (mem k') x = load8 (mem k) x).
Proof.
  revert k va src. induction fuel as [|fuel IH]; intros k va src Hu Hno Hva Hf; [lia|].
  destruct user_limit as (Hl1 & _ & Hl3). pose proof (us_max _ _ _ _ Hu) as Hsz.
  cbn [copyout_loop]. destruct (Z.leb_spec (Z.of_nat (length src)) 0); [by exists 0, k; auto 10|].
  rewrite PGROUNDDOWN_eq by lia. set (va0 := va - va mod 4096).
  pose proof (walkaddr_spec k l root va0 (us_v _ _ _ _ Hu)) as E.
  rewrite (bind_eq _ _ _ _ _ E). set (pa := if va0 <? MAXVA then _ else 0) in *.
  destruct (Z.eqb_spec pa 0) as [_|Hne]; [by exists (-1), k; auto 10|].
  destruct (walkaddr_only k l root ds va0 pa Hu Hno) as [Hr Hpa]; [unfold va0; dlia|done|done|].
  clearbody pa. subst pa. unfold bind, set_mem, modify.
  replace (va - va0) with (va mod 4096) by (unfold va0; lia).
  set (n := Z.min _ _). assert (0 < n ≤ 4096 - va mod 4096) by (unfold n, PGSIZE; dlia).
  rewrite (upage_same ds va0 va) by (unfold va0; dlia).
  destruct (uspace_write k l root ds va (take (Z.to_nat n) src) Hu) as (Hu1 & L1 & F1 & _).
  { unfold va0 in *. dlia. }
  { rewrite length_take. lia. }
  set (k1 := k <| mem := _ |>) in *. clearbody k1.
  destruct (IH k1 (u64 (va0 + PGSIZE)) (drop (Z.to_nat n) src))
    as (r & k' & E' & Hr' & Hu' & L' & F'); [done| |apply u64_range|rewrite length_drop; lia|].
  - intros a Ha. rewrite L1. by apply Hno.
  - exists r, k'. split; [exact E'|]. split; [done|]. split; [done|]. split.
    + intros a. by rewrite L', L1.
    + intros x Hx. by rewrite F', F1.
Qed.

Lemma copyout_loop_spec fuel k l root ds va src :
  uspace k l root ds → 0 ≤ va → va + Z.of_nat (length src) ≤ Z.of_nat (length ds) * 4096 →
  (∀ a, va ≤ a < va + Z.of_nat (length src) → uacc k root a) → (length src < fuel)%nat →
  ∃ k', copyout_loop fuel root va src k = Ret 0 k' ∧ uspace k' l root ds ∧
    (∀ a, leaf_pte (mem k') root a = leaf_pte (mem k) root a) ∧
    (∀ a, 0 ≤ a < Z.of_nat (length ds) * 4096 →
     ubyte k' ds a = if decide (va ≤ a < va + Z.of_nat (length src))
                     then u8 (default 0 (src !! Z.to_nat (a - va))) else ubyte k ds a) ∧
    (∀ x, (∀ d, d ∈ ds → ¬ in_page d x) → load8 (mem k') x = load8 (mem k) x).
Proof.
  revert k va src. induction fuel as [|fuel IH]; intros k va src Hu Hva Hmax Hacc Hf; [lia|].
  destruct user_limit as (Hl1 & _ & Hl3). pose proof (us_max _ _ _ _ Hu) as Hsz.
  cbn [copyout_loop]. destruct (Z.leb_spec (Z.of_nat (length src)) 0).
  { exists k. split_and!; try done. intros a Ha. by rewrite decide_False by lia. }
  rewrite PGROUNDDOWN_eq by lia.
  destruct (walkaddr_hit k l root ds (va - va mod 4096) Hu) as [E Hne]; [dlia| |].
  { unfold uacc. rewrite (leaf_pte_same _ _ _ va) by dlia. apply Hacc. lia. }
  rewrite (bind_eq _ _ _ _ _ E). rewrite (proj2 (Z.eqb_neq _ _) Hne).
  set (n := Z.min (PGSIZE - (va - (va - va mod 4096))) (Z.of_nat (length src))).
  assert (n = Z.min (4096 - va mod 4096) (Z.of_nat (length src))) as En by (unfold n, PGSIZE; lia).
  clearbody n. unfold bind, set_mem, modify.
  replace (va - (va - va mod 4096)) with (va mod 4096) by lia.
  rewrite (upage_same ds _ va) by dlia.
  assert (length (take (Z.to_nat n) src) = Z.to_nat n) as Hlt by (rewrite length_take; dlia).
  destruct (uspace_write k l root ds va (take (Z.to_nat n) src) Hu) as (Hu1 & L1 & F1 & B1);
    [lia|rewrite Hlt; dlia|]. rewrite Hlt in B1.
  set (k1 := k <| mem := _ |>) in *. clearbody k1.
  rewrite u64_small by (unfold PGSIZE; dlia).
  destruct (decide (n = Z.of_nat (length src))) as [Hall|Hn].
  { rewrite drop_ge by lia. destruct fuel; [lia|]. simpl. exists k1.
    split; [done|]. split; [done|]. split; [done|]. split; [|done]. intros a Ha. rewrite B1 by done.
    rewrite take_ge by lia. do 2 case_decide; try lia; done. }
  destruct (IH k1 (va - va mod 4096 + PGSIZE) (drop (Z.to_nat n) src)) as (k' & E' & Hu' & L' & B' & F');
    rewrite ?length_drop in *; unfold PGSIZE in *; try done; try dlia.
  { intros a Ha. unfold uacc. rewrite L1. apply Hacc. dlia. }
  exists k'. split; [done|]. split; [done|]. split; [intros a; by rewrite L', L1|].
  split; [|intros x Hx; by rewrite F', F1]. intros a Ha. rewrite B', B1 by done.
  assert (n = 4096 - va mod 4096) as Hn' by lia.
  repeat case_decide; try dlia; try done.
  - rewrite lookup_drop. do 3 f_equal. dlia.
  - by rewrite lookup_take_lt by lia.
Qed.

End copy.
