(* ===== verification/VmThms.v ===== *)
(** * Theorems about virtual memory

    The properties of [vm.c] the rest of the kernel relies on, and a small
    address space on which they are exercised. *)

From S2P Require Import Prelude.
From S2P Require Import Machine.
From S2P Require Import KString.
From S2P Require Import Kalloc.
From S2P Require Import Vm.
From S2P Require Import VmTree.
From S2P Require Import VmSpec.
From S2P Require Import VmUser.
From S2P Require Import VmCopy.
#[local] Open Scope Z_scope.

Section thms.
Context `{KernelImage}.

(** A zeroed page is an empty page table. *)
Lemma tab_zeroed m p π :
  (∀ x, in_page p x → load8 m x = 0) → Forall idx_ok π →
  tab m p π = if decide (π = []) then Some p else None.
Proof.
  intros Hz Hπ. destruct π as [|i π]; [done|]. inversion Hπ as [|? ? Hi _]; subst.
  rewrite decide_False by done. simpl. unfold child, ent.
  rewrite load_zero; [done|]. intros x Hx. apply Hz.
  unfold in_page, in_range, PGSIZE, idx_ok in *. change (Z.of_nat 8) with 8 in Hx. lia.
Qed.

Lemma empty_table k l p :
  kinv k l → page_ok p → p ∉ l →
  let kz := k <| mem := memset (mem k) p 0 PGSIZE |> in
  vinv kz l p ∧ kinv kz l ∧ (∀ va, leaf_pte (mem kz) p va = 0) ∧ (∀ q, is_table (mem kz) p q → q = p).
Proof.
  intros Hk Hp Hpl kz.
  assert (∀ x, load8 (mem kz) x = if decide (in_page p x) then 0 else load8 (mem k) x) as F.
  { intros x. unfold kz. simpl_upd. cbn [mem]. by rewrite memset_load. }
  assert (∀ x, in_page p x → load8 (mem kz) x = 0) as Fz.
  { intros x Hx. rewrite F. by rewrite decide_True. }
  assert (∀ va, leaf_pte (mem kz) p va = 0) as Hleaf.
  { intros va. unfold leaf_pte. rewrite tab_zeroed; [done|done|]. apply va_path_ok. }
  assert (∀ q, is_table (mem kz) p q → q = p) as Htab.
  { intros q (π & Hπ & Eq). rewrite tab_zeroed in Eq; [|done|apply Hπ]. case_decide; [by simplify_eq|done]. }
  assert (kinv kz l) as Hkz.
  { split; [|apply Hk|apply bytes_ok_memset, Hk].
    apply (chain_other_page (mem k) _ _ _ p); [done|apply Hp| |apply Hk].
    intros x Hx. rewrite F. by rewrite decide_False. }
  split_and!; [|done..]. split; [done| |].
  - split.
    + intros π q Hπ Eq. assert (q = p) as -> by (apply Htab; by exists π). done.
    + intros π1 π2 q H1 H2 E1 E2. rewrite tab_zeroed in E1, E2; try apply H1; try apply H2; try done.
      do 2 case_decide; simplify_eq; done.
  - intros q ->%Htab. done.
Qed.

Lemma uvmcreate_spec k l p :
  kinv k (p :: l) →
  ∃ k', uvmcreate k = Ret p k' ∧ uspace k' l p [] ∧ no_user_above k' p.
Proof.
  intros Hk. destruct (kalloc_spec k l p Hk) as (k1 & E & Hk1 & Hp & Hpl & Hload).
  unfold uvmcreate. rewrite (bind_eq _ _ _ _ _ E).
  pose proof (page_ok_pos p Hp). destruct (Z.eqb_spec p 0); [lia|].
  destruct (empty_table k1 l p Hk1 Hp Hpl) as (Hv & Hkz & Hleaf & Htab).
  eexists. split; [reflexivity|]. split; [|intros a _; rewrite Hleaf; done].
  split; [done| | | |done|].
  - simpl. apply Hk1.
  - intros d Hd. by apply elem_of_nil in Hd.
  - intros i d Hi. done.
  - intros va _. by rewrite Hleaf.
Qed.

(** ** Properties *)

(** [mappages] of a range none of whose pages is mapped does what it
    promises. It returns 0 and every page of the range then translates to the
    physical page at the same offset from [pa], with the permissions asked
    for, or it returns -1, and then no free page is left. No other translation
    changes, no page outside the page table and the free list is touched, and
    the page table stays well formed. *)
Theorem mappages_translates k l root va size pa perm :
  vinv k l root → 0 ≤ va → 0 < size → va + size ≤ MAXVA →
  pa mod PGSIZE = 0 → 0 ≤ pa → pa + size + PGSIZE < 2 ^ 56 → 0 ≤ perm < 1024 →
  (∀ a, PGROUNDDOWN va ≤ a < va + size + PGSIZE → Z.land (leaf_pte (mem k) root a) PTE_V = 0) →
  ∃ r k' used l', mappages root va size pa perm k = Ret r k' ∧
    l = used ++ l' ∧ vinv k' l' root ∧
    (∀ a, 0 ≤ a < PGROUNDDOWN va ∨ va + size + PGSIZE ≤ a < MAXVA →
       leaf_pte (mem k') root a = leaf_pte (mem k) root a) ∧
    (∀ p x, p mod PGSIZE = 0 → in_page p x → p ∉ l → ¬ is_table (mem k) root p →
       load8 (mem k') x = load8 (mem k) x) ∧
    ((r = 0 ∧ ∀ a, va ≤ a < va + size →
        PTE2PA (leaf_pte (mem k') root a) = pa + PGROUNDDOWN (a - PGROUNDDOWN va) ∧
        PTE_FLAGS (leaf_pte (mem k') root a) = Z.lor perm PTE_V) ∨
     (r = -1 ∧ l' = [])).
Proof.
  intros Hv Hva Hsz Hmax Hpal Hpa Hpmax Hperm Hfree. unfold PGSIZE in *.
  rewrite MAXVA_eq in *. rewrite PGROUNDDOWN_eq in * by lia.
  destruct (mappages_spec k l root va size pa perm Hv)
    as (r & k' & used & l' & E & -> & G & j & Hj & L & Hr); try done; rewrite ?MAXVA_eq; try lia.
  { intros a Ha. apply Hfree. dlia. }
  rewrite MAXVA_eq in L.
  exists r, k', used, l'. split; [done|]. split; [done|]. split; [apply G|]. split.
  { intros a Ha. rewrite L by dlia. unfold mapped. by rewrite decide_False by dlia. }
  split; [intros p x Hp Hx Hnl Hnt; by apply (g_frame _ _ _ _ _ G p)|].
  destruct Hr as [[-> ->]|(-> & _ & ->)]; [left|by right]. split; [done|].
  intros a Ha. rewrite L by lia. unfold mapped. rewrite decide_True by dlia.
  pose proof (lor_flags_range perm Hperm).
  replace (4096 * ((a - (va - va mod 4096)) / 4096)) with (PGROUNDDOWN (a - (va - va mod 4096)))
    by (rewrite PGROUNDDOWN_eq by dlia; dlia).
  rewrite PGROUNDDOWN_eq by dlia.
  by rewrite PTE2PA_of, PTE_FLAGS_of by (done || dlia).
Qed.

(** C20: Growing a process is all or nothing. [uvmalloc] either returns the
    new size, having added zeroed pages up to it after the process's pages, or
    returns 0, having given back every page it had mapped. In both cases the
    old pages keep their contents and translations, and no page is lost or made
    up: the pages that were in the process, free or page tables are the pages
    that are so now, so that of a failed call at most page tables remain. *)
Theorem uvmalloc_all_or_nothing k l root ds oldsz newsz xperm :
  uspace k l root ds → length ds = npages oldsz →
  0 ≤ oldsz ≤ newsz → newsz ≤ TRAPFRAME → 0 ≤ xperm < 1024 →
  ∃ r k' l', uvmalloc root oldsz newsz xperm k = Ret r k' ∧ keeps root ds k k' ∧
    ((r = newsz ∧ ∃ new, uspace k' l' root (ds ++ new) ∧ zeroed k' new ∧
        length (ds ++ new) = npages newsz ∧ ∀ p, has_page k' l' root (ds ++ new) p ↔ has_page k l root ds p) ∨
     (r = 0 ∧ uspace k' l' root ds ∧ ∀ p, has_page k' l' root ds p ↔ has_page k l root ds p)).
Proof.
  intros Hu Hlen Ho Hn Hx. unfold uvmalloc. destruct (Z.ltb_spec newsz oldsz); [lia|].
  pose proof (npages_mono oldsz newsz Ho). cbv zeta. rewrite npages_eq by lia. rewrite <- Hlen.
  pose proof (uvmalloc_loop_spec
    (S (Z.to_nat ((newsz - Z.of_nat (length ds) * 4096 + PGSIZE - 1) / PGSIZE)))
    k k l root ds [] newsz xperm) as Hs. rewrite app_nil_r in Hs.
  apply Hs; try done; try apply keeps_refl; [by intros d x Hd%elem_of_nil|lia|].
  unfold npages in *. unfold PGSIZE. dlia.
Qed.

(** [uvmdealloc] undoes [uvmalloc]. After a successful growth from
    [oldsz] to [newsz], shrinking back returns [oldsz], and leaves the process
    the same pages with the same contents and translations as before. *)
Theorem uvmalloc_uvmdealloc_roundtrip k l root ds oldsz newsz xperm k1 :
  uspace k l root ds → length ds = npages oldsz →
  0 ≤ oldsz ≤ newsz → 0 < newsz ≤ TRAPFRAME → 0 ≤ xperm < 1024 →
  uvmalloc root oldsz newsz xperm k = Ret newsz k1 →
  ∃ k2 l2, uvmdealloc root newsz oldsz k1 = Ret oldsz k2 ∧
    uspace k2 l2 root ds ∧ keeps root ds k k2.
Proof.
  intros Hu Hlen Ho Hn Hx E. unfold uvmalloc in E. destruct (Z.ltb_spec newsz oldsz); [lia|].
  pose proof (npages_mono oldsz newsz Ho). cbv zeta in E. rewrite npages_eq in E by lia.
  rewrite <- Hlen in E.
  pose proof (uvmalloc_loop_spec
    (S (Z.to_nat ((newsz - Z.of_nat (length ds) * 4096 + PGSIZE - 1) / PGSIZE)))
    k k l root ds [] newsz xperm) as Hs. rewrite app_nil_r in Hs.
  destruct Hs as (r & k' & l' & E' & Hk & Hr); try done; try apply keeps_refl;
    [by intros d x Hd%elem_of_nil|lia|lia|unfold npages in *; unfold PGSIZE; dlia|].
  rewrite E in E'. injection E' as -> ->. destruct Hr as [(_ & new & Hu1 & _ & Hl1 & _)|[? _]]; [|lia].
  destruct (uvmdealloc_spec k' l' root (ds ++ new) r oldsz Hu1) as (k2 & E2 & Hu2 & Hk2 & _);
    [lia|lia|done|].
  rewrite <- Hlen, take_app_length in *. eexists _, _. split; [exact E2|]. split; [done|].
  by eapply keeps_trans.
Qed.

(** C18: Bytes copied to user memory are the bytes read back. [copyout] to an
    accessible range of an address space succeeds, writes exactly that range
    as user code sees it, and [copyin] of the range then returns the bytes. *)
Theorem copyout_copyin_roundtrip k l root ds va bs :
  uspace k l root ds → 0 ≤ va → va + Z.of_nat (length bs) ≤ Z.of_nat (length ds) * PGSIZE →
  (∀ a, va ≤ a < va + Z.of_nat (length bs) → uacc k root a) →
  Forall (λ b, 0 ≤ b < 256) bs →
  ∃ k', copyout root va bs k = Ret 0 k' ∧ uspace k' l root ds ∧
    (∀ a, 0 ≤ a < Z.of_nat (length ds) * PGSIZE → ¬ (va ≤ a < va + Z.of_nat (length bs)) →
       ubyte k' ds a = ubyte k ds a) ∧
    copyin root va (Z.of_nat (length bs)) k' = Ret (0, bs) k'.
Proof.
  unfold PGSIZE. intros Hu Hva Hmax Hacc Hbs.
  destruct (copyout_loop_spec (S (length bs)) k l root ds va bs Hu Hva Hmax Hacc)
    as (k' & E & Hu' & L & B & _); [lia|].
  exists k'. split; [done|]. split; [done|]. split.
  { intros a Ha Hn. rewrite B by done. by rewrite decide_False. }
  unfold copyin. rewrite (copyin_loop_spec _ k' l root ds); try done; try lia.
  2:{ intros a Ha. unfold uacc. rewrite L. by apply Hacc. }
  do 2 f_equal. simpl. apply list_eq_same_length with (n := length bs); [done| |].
  { rewrite length_map, length_seqZ. lia. }
  intros i x y Hi Hx Hy. rewrite list_lookup_fmap in Hx.
  destruct (seqZ _ _ !! i) as [z|] eqn:Ez; simplify_eq/=.
  apply lookup_seqZ in Ez as [-> _]. rewrite B by lia. rewrite decide_True by lia.
  replace (Z.to_nat (va + Z.of_nat i - va)) with i by lia. rewrite Hy. simpl.
  apply u8_small. eapply Forall_lookup_1 in Hbs; [|done]. lia.
Qed.

(** C19: A process cannot make the kernel write outside the process's own
    memory. Whatever the 64-bit user address and length, [copyout] returns 0
    or -1, keeps the address space well formed, and changes no byte outside
    the process's data pages. *)
Theorem copyout_confined k l root ds va bs :
  uspace k l root ds → no_user_above k root → 0 ≤ va < 2 ^ 64 →
  ∃ r k', copyout root va bs k = Ret r k' ∧ (r = 0 ∨ r = -1) ∧ uspace k' l root ds ∧
    (∀ x, (∀ d, d ∈ ds → ¬ in_page d x) → load8 (mem k') x = load8 (mem k) x).
Proof.
  intros Hu Hno Hva.
  destruct (copyout_loop_safe (S (length bs)) k l root ds va bs Hu Hno Hva)
    as (r & k' & E & Hr & Hu' & _ & F); [lia|]. by exists r, k'.
Qed.

End thms.

(** ** A small address space *)

Section small.
Context `{KernelImage}.

Definition boot_space : M kmem Z := do! kinit in uvmcreate.
Definition boot_space2 : M kmem (Z * Z) :=
  let! root := boot_space in
  let! r := uvmalloc root 0 (2 * PGSIZE) PTE_W in
  ret (root, r).

(** Two accessible pages, nothing for the user at the top. *)
Definition two_pages (o : outcome kmem (Z * Z)) : bool :=
  match o with
  | Ret (root, r) k =>
      (r =? 2 * PGSIZE) &&
      forallb (λ a, negb (Z.land (leaf_pte (mem k) root a) PTE_U =? 0)) [0; PGSIZE] &&
      forallb (λ a, Z.land (leaf_pte (mem k) root a) PTE_U =? 0) [TRAPFRAME; TRAMPOLINE]
  | _ => false
  end.

Lemma boot_space_spec k p :
  bytes_ok (mem k) → freelist k = 0 → page_ok p →
  ∃ k' l root, boot_space k = Ret root k' ∧ uspace k' l root [] ∧ no_user_above k' root.
Proof.
  intros Hb Hf Hp. destruct (kinit_spec k Hb Hf) as (k1 & l & E & Hk & Hl).
  apply Hl in Hp. destruct l as [|q l]; [by apply elem_of_nil in Hp|].
  destruct (uvmcreate_spec k1 l q Hk) as (k' & E' & Hu & Hno).
  exists k', l, q. split; [|done]. unfold boot_space. by rewrite (bind_eq _ _ _ _ _ E).
Qed.

Lemma boot_space2_spec k p :
  bytes_ok (mem k) → freelist k = 0 → page_ok p → two_pages (boot_space2 k) = true →
  (∃ k1 l root ds, uspace k1 l root ds ∧ length ds = 2%nat ∧ no_user_above k1 root ∧
    (∀ a, 0 ≤ a < 2 * PGSIZE → uacc k1 root a) ∧ boot_space2 k = Ret (root, 2 * PGSIZE) k1) ∧
  (∃ k1 l root k2, uspace k1 l root [] ∧ uvmalloc root 0 (2 * PGSIZE) PTE_W k1 = Ret (2 * PGSIZE) k2).
Proof.
  intros Hb Hf Hp Hok. destruct (boot_space_spec k p Hb Hf Hp) as (k1 & l & root & E & Hu & _).
  destruct (uvmalloc_loop_spec 3 k1 k1 l root [] [] (2 * PGSIZE) PTE_W Hu (keeps_refl _ _ _))
    as (r & k' & l' & E' & _ & Hr);
    [by intros d x Hd%elem_of_nil|by vm_compute|done|vm_compute; lia|vm_compute; lia|].
  unfold boot_space2 in Hok |- *. rewrite (bind_eq _ _ _ _ _ E) in Hok |- *.
  assert (uvmalloc root 0 (2 * PGSIZE) PTE_W k1 = Ret r k') as E2 by exact E'.
  rewrite (bind_eq _ _ _ _ _ E2) in Hok |- *. simpl in Hok.
  apply andb_prop in Hok as [[Hr2 Ha]%andb_prop Ht]. apply Z.eqb_eq in Hr2.
  destruct Hr as [(_ & new & Hu' & _ & Hlen & _)|[-> _]]; [|done].
  split; [|subst r; by eexists _, _, _, _].
  exists k', l', root, new. split; [done|]. split; [done|].
  rewrite !andb_true_iff, !negb_true_iff, !Z.eqb_neq in Ha.
  rewrite !andb_true_iff, !Z.eqb_eq in Ht. split; [|split; [|by rewrite Hr2]].
  - intros a Hr'. destruct (decide (a / 4096 = TRAPFRAME / 4096)) as [Heq|Hne].
    + rewrite (leaf_pte_same _ _ a TRAPFRAME Heq). apply Ht.
    + rewrite (leaf_pte_same _ _ a TRAMPOLINE); [apply Ht|].
      change (TRAPFRAME / 4096) with 67108862 in Hne. change (TRAMPOLINE / 4096) with 67108863.
      rewrite MAXVA_eq in Hr'. change TRAPFRAME with 274877898752 in Hr'. dlia.
  - intros a Hr'. unfold uacc. unfold PGSIZE in Hr'. destruct (decide (a / 4096 = 0)).
    + rewrite (leaf_pte_same _ _ a 0) by (change (0 / 4096) with 0; done). apply Ha.
    + rewrite (leaf_pte_same _ _ a PGSIZE); [apply Ha|].
      change (PGSIZE / 4096) with 1. dlia.
Qed.
End small.

(** RAM of seven pages above the kernel. *)
Definition vm_image : KernelImage.
Proof.
  refine {| kend := PHYSTOP - 7 * PGSIZE; etext := 0x80008000; trampoline := 0x80007000 |};
    vm_compute; discriminate.
Defined.
#[local] Existing Instance vm_image.

Lemma demo_page : page_ok (PHYSTOP - PGSIZE).
Proof. vm_compute. repeat split; discriminate. Qed.

Lemma demo_empty_space :
  ∃ k l root, uspace k l root [] ∧ no_user_above k root.
Proof.
  destruct (boot_space_spec demo_kmem _ demo_bytes eq_refl demo_page) as (k & l & root & _ & Hu).
  by exists k, l, root.
Qed.

Lemma demo_vm_ok : two_pages (boot_space2 demo_kmem) = true.
Proof. vm_compute. reflexivity. Qed.

Definition demo_spaces := boot_space2_spec demo_kmem _ demo_bytes eq_refl demo_page demo_vm_ok.

Lemma mappages_translates_witness :
  ∃ k root r k', mappages root 0 PGSIZE KERNBASE (Z.lor PTE_R PTE_U) k = Ret r k' ∧
    (r = 0 → PTE2PA (leaf_pte (mem k') root 5) = KERNBASE).
Proof.
  destruct demo_empty_space as (k & l & root & Hu & _).
  destruct (mappages_translates k l root 0 PGSIZE KERNBASE (Z.lor PTE_R PTE_U))
    as (r & k' & u & l' & E & _ & _ & _ & _ & Hr);
    [apply Hu|lia|by vm_compute|by vm_compute|by vm_compute|by vm_compute|by vm_compute
    |by vm_compute| |].
  { intros a Ha. apply (us_none _ _ _ _ Hu). change (PGROUNDDOWN 0) with 0 in Ha.
    unfold PGSIZE in Ha. change TRAPFRAME with 274877898752. simpl length. lia. }
  exists k, root, r, k'. split; [exact E|]. intros ->.
  destruct Hr as [[_ Hr]|[? _]]; [|discriminate]. apply (Hr 5). unfold PGSIZE. lia.
Defined.

Lemma uvmalloc_all_or_nothing_witness :
  ∃ k root r k', uvmalloc root 0 (2 * PGSIZE) PTE_W k = Ret r k' ∧ (r = 2 * PGSIZE ∨ r = 0).
Proof.
  destruct demo_empty_space as (k & l & root & Hu & _).
  destruct (uvmalloc_all_or_nothing k l root [] 0 (2 * PGSIZE) PTE_W Hu)
    as (r & k' & l' & E & _ & Hr);
    [done|by vm_compute|by vm_compute|by vm_compute|].
  exists k, root, r, k'. split; [exact E|]. destruct Hr as [[? _]|[? _]]; [left|right]; assumption.
Defined.

Lemma uvmalloc_uvmdealloc_roundtrip_witness :
  ∃ k1 k2 l2 root, uvmdealloc root (2 * PGSIZE) 0 k1 = Ret 0 k2 ∧
    uspace k2 l2 root [].
Proof.
  destruct (proj2 demo_spaces) as (k & l & root & k1 & Hu & E).
  destruct (uvmalloc_uvmdealloc_roundtrip k l root [] 0 (2 * PGSIZE) PTE_W k1 Hu)
    as (k2 & l2 & E2 & Hu2 & _);
    [done|by vm_compute|by vm_compute|by vm_compute|exact E|].
  exists k1, k2, l2, root. split; [exact E2|exact Hu2].
Defined.

Lemma copyout_copyin_roundtrip_witness :
  ∃ k k' root, copyout root 4095 [72; 105; 33] k = Ret 0 k' ∧
    copyin root 4095 3 k' = Ret (0, [72; 105; 33]) k'.
Proof.
  destruct (proj1 demo_spaces) as (k & l & root & ds & Hu & Hlen & _ & Hacc & _).
  destruct (copyout_copyin_roundtrip k l root ds 4095 [72; 105; 33] Hu)
    as (k' & E1 & _ & _ & E2).
  - lia.
  - rewrite Hlen. vm_compute. discriminate.
  - intros a Ha. apply Hacc. simpl in Ha. unfold PGSIZE. lia.
  - repeat (constructor; [lia|]). constructor.
  - exists k, k', root. split; [exact E1|exact E2].
Defined.

Lemma copyout_confined_witness :
  ∃ k r k' root, copyout root (2 ^ 63) [1; 2] k = Ret r k' ∧ (r = 0 ∨ r = -1).
Proof.
  destruct (proj1 demo_spaces) as (k & l & root & ds & Hu & _ & Hno & _).
  destruct (copyout_confined k l root ds (2 ^ 63) [1; 2] Hu Hno)
    as (r & k' & E & Hr & _); [lia|].
  exists k, r, k', root. split; [exact E|exact Hr].
Defined.
