(* ===== verification/VmKernel.v ===== *)
(** * The kernel page table

    [kvmmake] builds exactly the direct map of [memlayout.h]: the devices,
    the kernel text, the data and RAM at their own addresses, the trampoline
    at the top, and a stack page for each process with an unmapped page below
    it. *)

From S2P Require Import Prelude.
From S2P Require Import Machine.
From S2P Require Import KString.
From S2P Require Import Kalloc.
From S2P Require Import Vm.
From S2P Require Import VmTree.
From S2P Require Import VmSpec.
From S2P Require Import VmThms.
#[local] Open Scope Z_scope.

(** [npages] pages from [sg_va] mapped to the pages from [sg_pa]. *)
Record seg := mk_seg { sg_va : Z; sg_pages : Z; sg_pa : Z; sg_perm : Z }.

Definition seg_in (s : seg) (va : Z) : Prop := sg_va s ≤ va < sg_va s + sg_pages s * 4096.
Definition seg_pte (s : seg) (va : Z) : Z :=
  pte_of (sg_pa s + 4096 * ((va - sg_va s) / 4096)) (Z.lor (sg_perm s) PTE_V).

(** The leaf entries of an address space made of segments. *)
Fixpoint space (segs : list seg) (va : Z) : Z :=
  match segs with
  | [] => 0
  | s :: S' => if decide (sg_va s ≤ va < sg_va s + sg_pages s * 4096) then seg_pte s va else space S' va
  end.

Lemma space_out S va : Forall (λ s, ¬ seg_in s va) S → space S va = 0.
Proof. induction 1 as [|s S' Hs _ IH]; simpl; [done|]. by rewrite decide_False. Qed.

Section kernel.
Context `{!KernelImage}.

(** ** kvminit and kvminithart *)

(** The allocator, the global [kernel_pagetable] and the hart's [satp]. *)
Record kvm := mk_kvm { kvm_mem : kmem; kernel_pagetable : Z; satp : Z }.
#[local] Instance kvm_eta : Settable kvm := λ s, mk_kvm (kvm_mem s) (kernel_pagetable s) (satp s).

Definition kvminit : M kvm unit :=
  let! r := lift kvm_mem (λ k (s : kvm), s <| kvm_mem := k |>) kvmmake in
  modify (λ s : kvm, s <| kernel_pagetable := r |>).
Definition kvminithart : M kvm unit :=
  modify (λ s : kvm, s <| satp := MAKE_SATP (kernel_pagetable s) |>).

(** The root page of the table in [satp], as the hart reads it in Sv39 mode. *)
Definition satp_root (v : Z) : Z := Z.shiftl (v mod 2 ^ 44) 12.
Definition satp_mode (v : Z) : Z := Z.shiftr v 60.

Lemma kvminithart_turns_on s :
  page_ok (kernel_pagetable s) →
  ∃ s', kvminithart s = Ret tt s' ∧ satp_mode (satp s') = 8 ∧ satp_root (satp s') = kernel_pagetable s.
Proof.
  intros [Hal Hr]. eexists. split; [reflexivity|]. simpl. pose proof kend_lo.
  assert (MAKE_SATP (kernel_pagetable s) = 8 * 2 ^ 60 + kernel_pagetable s / 4096) as ->.
  { unfold MAKE_SATP. rewrite Z.shiftl_mul_pow2, Z.shiftr_div_pow2 by lia. apply lor_fields; [lia|].
    unfold PHYSTOP, KERNBASE in *. change (2 ^ 12) with 4096. dlia. }
  unfold PHYSTOP, KERNBASE, PGSIZE in *. unfold satp_mode, satp_root. rewrite Z.shiftr_div_pow2, Z.shiftl_mul_pow2 by lia.
  change (2 ^ 12) with 4096. split; dlia.
Qed.

(** The segments of [kvmmake], last mapped first. *)
Definition direct_segs : list seg := [
  mk_seg TRAMPOLINE 1 trampoline (Z.lor PTE_R PTE_X);
  mk_seg etext ((PHYSTOP - etext) / PGSIZE) etext (Z.lor PTE_R PTE_W);
  mk_seg KERNBASE ((etext - KERNBASE) / PGSIZE) KERNBASE (Z.lor PTE_R PTE_X);
  mk_seg PLIC 1024 PLIC (Z.lor PTE_R PTE_W);
  mk_seg VIRTIO0 1 VIRTIO0 (Z.lor PTE_R PTE_W);
  mk_seg UART0 1 UART0 (Z.lor PTE_R PTE_W)].
Definition stack_seg (i : nat) (pa : Z) : seg := mk_seg (KSTACK (Z.of_nat i)) 1 pa (Z.lor PTE_R PTE_W).
Definition kernel_segs (stacks : list Z) : list seg := reverse (imap stack_seg stacks) ++ direct_segs.

(** What the linker script arranges: [etext] and the trampoline are at page
    boundaries inside the kernel image. *)
Record image_ok : Prop := {
  im_etext : etext mod PGSIZE = 0 ∧ KERNBASE < etext < PHYSTOP;
  im_trampoline : trampoline mod PGSIZE = 0 ∧ 0 ≤ trampoline < PHYSTOP
}.

Definition kspace (k : kmem) (l : list Z) (root : Z) (segs : list seg) : Prop :=
  vinv k l root ∧ ∀ va, 0 ≤ va < MAXVA → leaf_pte (mem k) root va = space segs va.

(** The allocator is exhausted. *)
Definition no_memory (k : kmem) : Prop := freelist k = 0.

Lemma kinv_nil_no_memory k : kinv k [] → no_memory k.
Proof. intros Hk. exact (kinv_chain _ _ Hk). Qed.

Lemma kvmmap_spec k l root S s :
  kspace k l root S → sg_va s mod 4096 = 0 → 0 ≤ sg_va s → 0 < sg_pages s → sg_va s + sg_pages s * 4096 ≤ MAXVA →
  sg_pa s mod 4096 = 0 → 0 ≤ sg_pa s → sg_pa s + sg_pages s * 4096 + 4096 < 2 ^ 56 → 0 ≤ sg_perm s < 1024 →
  (∀ va, seg_in s va → space S va = 0) →
  (∃ k' used l', kvmmap root (sg_va s) (sg_pa s) (sg_pages s * 4096) (sg_perm s) k = Ret tt k' ∧ l = used ++ l' ∧
     grows root used k l' k' ∧ kspace k' l' root (s :: S)) ∨
  (∃ k', kvmmap root (sg_va s) (sg_pa s) (sg_pages s * 4096) (sg_perm s) k = Panic "kvmmap" k' ∧ no_memory k').
Proof.
  intros [Hv HL] Hal Hva Hn Hmax Hpal Hpa Hpmax Hperm Hout. rewrite MAXVA_eq in *.
  destruct (mappages_spec k l root (sg_va s) (sg_pages s * 4096) (sg_pa s) (sg_perm s) Hv)
    as (r & k' & used & l' & E & -> & G & j & Hj & L & Hr); rewrite ?MAXVA_eq; try done; try lia.
  { intros va Hin. rewrite HL by dlia. rewrite Hout; [done|]. unfold seg_in. dlia. }
  rewrite MAXVA_eq in L. unfold kvmmap. rewrite (bind_eq _ _ _ _ _ E).
  destruct Hr as [[-> ->]|(-> & _ & ->)].
  - left. exists k', used, l'. split_and!; [done..|]. split; [apply G|]. rewrite MAXVA_eq. intros va Hr. rewrite L by done.
    unfold mapped. simpl. unfold seg_pte. rewrite <- HL by done.
    replace (sg_va s - sg_va s mod 4096) with (sg_va s) by lia.
    replace ((sg_va s + sg_pages s * 4096 - 1) / 4096 - sg_va s / 4096 + 1) with (sg_pages s) by dlia. done.
  - right. exists k'. split; [done|]. apply kinv_nil_no_memory, G.
Qed.

(** ** The stacks *)

Lemma kernel_segs_snoc stacks d : kernel_segs (stacks ++ [d]) = stack_seg (length stacks) d :: kernel_segs stacks.
Proof. unfold kernel_segs. rewrite imap_app, reverse_app. simpl. by rewrite Nat.add_0_r. Qed.

Lemma direct_below va : image_ok → PHYSTOP ≤ va < TRAMPOLINE → Forall (λ s, ¬ seg_in s va) direct_segs.
Proof.
  intros [[H1 H2] _] Hva. unfold direct_segs, seg_in. rewrite !Forall_cons. simpl. unfold TRAMPOLINE in *. rewrite MAXVA_eq in *.
  unfold PHYSTOP, KERNBASE, PGSIZE, PLIC, VIRTIO0, UART0 in *. split_and!; [..|constructor]; dlia.
Qed.

Lemma stacks_elsewhere (stacks : list Z) va :
  (∀ j, (j < length stacks)%nat → ¬ KSTACK (Z.of_nat j) ≤ va < KSTACK (Z.of_nat j) + 4096) →
  Forall (λ s, ¬ seg_in s va) (reverse (imap stack_seg stacks)).
Proof.
  intros Hj. rewrite Forall_forall. intros s Hs. rewrite elem_of_reverse in Hs.
  apply list_elem_of_lookup in Hs as [j Hs]. rewrite list_lookup_imap in Hs.
  destruct (stacks !! j) as [pa|] eqn:E; [|done]. injection Hs as <-. apply lookup_lt_Some in E.
  unfold seg_in, stack_seg. simpl. specialize (Hj j E). lia.
Qed.

Lemma stack_free stacks i va :
  image_ok → (length stacks ≤ i < 64)%nat → KSTACK (Z.of_nat i) ≤ va < KSTACK (Z.of_nat i) + 4096 →
  space (kernel_segs stacks) va = 0.
Proof.
  intros Him Hi Hva. apply space_out. unfold kernel_segs. apply Forall_app. split.
  - apply stacks_elsewhere. intros j Hj. unfold KSTACK, PGSIZE in *. lia.
  - apply direct_below; [done|]. unfold KSTACK, TRAMPOLINE, PGSIZE, PHYSTOP, KERNBASE in *. rewrite MAXVA_eq in *. lia.
Qed.

Record stacked (k : kmem) (l : list Z) (root : Z) (stacks : list Z) : Prop := {
  st_space : kspace k l root (kernel_segs stacks);
  st_nodup : NoDup stacks;
  st_pages : Forall (λ d, page_ok d ∧ (d ∉ l) ∧ ¬ is_table (mem k) root d) stacks
}.

(** What a step of start-up may do instead of going on. *)
Definition out_of_memory {A} (o : outcome kmem A) : Prop :=
  ∃ msg k, o = Panic msg k ∧ (msg = "kvmmap"%string ∨ msg = "kalloc"%string) ∧ no_memory k.

Lemma mapstack_spec k l root stacks :
  image_ok → stacked k l root stacks → (length stacks < 64)%nat →
  let o := (let! pa := kalloc in
    if pa =? 0 then panic "kalloc" else kvmmap root (KSTACK (Z.of_nat (length stacks))) pa PGSIZE (Z.lor PTE_R PTE_W)) k in
  (∃ k' l' d, o = Ret tt k' ∧ stacked k' l' root (stacks ++ [d])) ∨ out_of_memory o.
Proof.
  intros Him [[Hv HL] Hn Hp] Hlt o. unfold o. destruct l as [|d l].
  { right. rewrite (bind_eq _ _ _ _ _ (kalloc_empty k (v_kinv _ _ _ Hv))).
    exists "kalloc"%string, k. split_and!; [done|by right|]. apply kinv_nil_no_memory, Hv. }
  destruct (vinv_kalloc k l root d Hv) as (k1 & E & Hv1 & L1 & Hd & Hdl & Hnt & T1 & _).
  rewrite (bind_eq _ _ _ _ _ E). pose proof (page_ok_pos d Hd). destruct (Z.eqb_spec d 0); [lia|].
  pose proof (kvmmap_spec k1 l root (kernel_segs stacks) (stack_seg (length stacks) d)) as HK.
  destruct HK as [(k' & used & l' & E' & -> & G & HS)|(k' & E' & Hk')]; simpl.
  - split; [done|]. intros va Hva. rewrite L1. auto.
  - unfold KSTACK, TRAMPOLINE, PGSIZE. rewrite MAXVA_eq. dlia.
  - unfold KSTACK, TRAMPOLINE, PGSIZE. rewrite MAXVA_eq. lia.
  - lia.
  - unfold KSTACK, TRAMPOLINE, PGSIZE. rewrite MAXVA_eq. lia.
  - apply Hd.
  - lia.
  - destruct Hd as [_ Hd]. unfold PHYSTOP, KERNBASE in Hd. lia.
  - done.
  - intros va. apply stack_free; [done|lia].
  - left. exists k', l', d. split; [exact E'|]. split.
    + by rewrite kernel_segs_snoc.
    + apply NoDup_app. split_and!; [done| |apply NoDup_singleton]. intros x Hx ->%list_elem_of_singleton.
      rewrite Forall_forall in Hp. destruct (Hp d Hx) as (_ & Hin & _). apply Hin. by left.
    + apply Forall_app. split; [|constructor; [|done]].
      * rewrite Forall_forall in Hp |- *. intros x Hx. destruct (Hp x Hx) as (? & Hin & Hxt). apply not_elem_of_cons in Hin as [_ Hin].
        apply not_elem_of_app in Hin as [Hu Hl']. split_and!; [done..|]. rewrite (g_tabs _ _ _ _ _ G), T1. tauto.
      * apply not_elem_of_app in Hdl as [Hu Hl']. split_and!; [done..|]. rewrite (g_tabs _ _ _ _ _ G), T1. tauto.
  - right. exists "kvmmap"%string, k'. split_and!; [exact E'|by left|done].
Qed.

Lemma mapstacks_loop n k l root stacks :
  image_ok → stacked k l root stacks → (length stacks + n = 64)%nat →
  let o := for_each (seqZ (Z.of_nat (length stacks)) (Z.of_nat n)) (λ i, let! pa := kalloc in
    if pa =? 0 then panic "kalloc" else kvmmap root (KSTACK i) pa PGSIZE (Z.lor PTE_R PTE_W)) k in
  (∃ k' l' stacks', o = Ret tt k' ∧ stacked k' l' root stacks' ∧ length stacks' = 64%nat) ∨ out_of_memory o.
Proof.
  intros Him. revert k l stacks. induction n as [|n IH]; intros k l stacks HS Hn o.
  { left. exists k, l, stacks. split_and!; [done..|lia]. }
  unfold o. rewrite seqZ_cons by lia. simpl for_each.
  destruct (mapstack_spec k l root stacks Him HS ltac:(lia)) as [(k1 & l1 & d & E & HS1)|(msg & k1 & E & Hm)].
  - rewrite (bind_eq _ _ _ _ _ E).
    specialize (IH k1 l1 (stacks ++ [d]) HS1). rewrite length_app in IH. simpl in IH. specialize (IH ltac:(lia)).
    replace (Z.succ (Z.of_nat (length stacks))) with (Z.of_nat (length stacks + 1)) by lia.
    replace (Z.pred (Z.of_nat (S n))) with (Z.of_nat n) by lia. exact IH.
  - right. exists msg, k1. split; [|done]. unfold bind at 1. by rewrite E.
Qed.

(** ** kvmmake *)

(** One [kvmmap] of a segment that is apart from those before. *)
Lemma kvmmap_bind {B} k l root segs s sz (f : unit → M kmem B) (Q : outcome kmem B → Prop) :
  kspace k l root segs → sz = sg_pages s * 4096 → sg_va s mod 4096 = 0 → 0 ≤ sg_va s → 0 < sg_pages s →
  sg_va s + sg_pages s * 4096 ≤ MAXVA → sg_pa s mod 4096 = 0 → 0 ≤ sg_pa s → sg_pa s + sg_pages s * 4096 + 4096 < 2 ^ 56 →
  0 ≤ sg_perm s < 1024 → (∀ va, seg_in s va → Forall (λ s', ¬ seg_in s' va) segs) →
  (∀ o, out_of_memory o → Q o) → (∀ k' l', kspace k' l' root (s :: segs) → Q (f tt k')) →
  Q (bind (kvmmap root (sg_va s) (sg_pa s) sz (sg_perm s)) f k).
Proof.
  intros HS -> Hal Hva Hn Hmax Hpal Hpa Hpmax Hperm Hout Hm Hk.
  destruct (kvmmap_spec k l root segs s) as [(k' & used & l' & E & _ & _ & HS')|(k' & E & Hn')]; try done.
  { intros va Hin. apply space_out. auto. }
  - rewrite (bind_eq _ _ _ _ _ E). by apply (Hk k' l').
  - apply Hm. exists "kvmmap"%string, k'. split_and!; [|by left|done]. unfold bind. by rewrite E.
Qed.

Ltac seg_side := simpl; unfold TRAMPOLINE, PHYSTOP, KERNBASE, PGSIZE, PLIC, VIRTIO0, UART0 in *; rewrite ?MAXVA_eq; solve [dlia].
Ltac seg_apart :=
  intros va; unfold seg_in; simpl; intros Hva; rewrite ?Forall_cons; simpl;
  unfold TRAMPOLINE, PHYSTOP, KERNBASE, PGSIZE, PLIC, VIRTIO0, UART0 in *; rewrite ?MAXVA_eq in *;
  split_and?; [..|constructor]; solve [dlia].

(** The whole of [kvmmake] up to the stacks. *)
Lemma kvmmake_direct k p l (Q : outcome kmem Z → Prop) :
  image_ok → kinv k (p :: l) → (∀ o, out_of_memory o → Q o) →
  (∀ k' l', kspace k' l' p direct_segs → Q ((do! proc_mapstacks p in ret p) k')) → Q (kvmmake k).
Proof.
  intros [[He1 He2] [Ht1 Ht2]] Hk Hm HQ. destruct (kalloc_spec k l p Hk) as (k1 & E & Hk1 & Hp & Hpl & _).
  unfold kvmmake. rewrite (bind_eq _ _ _ _ _ E). erewrite bind_eq; [|reflexivity].
  destruct (empty_table k1 l p Hk1 Hp Hpl) as (Hv & _ & Hleaf & _).
  set (kz := k1 <| mem := _ |>) in *. assert (kspace kz l p []) as HS by (split; [done|intros va _; apply Hleaf]).
  unfold direct_segs in HQ. clearbody kz. clear Hleaf Hv E Hk1.
  apply (kvmmap_bind kz l p [] (mk_seg UART0 1 UART0 (Z.lor PTE_R PTE_W))); try done; try seg_side; try seg_apart.
  clear kz l HS Hk Hpl. intros kz l HS.
  apply (kvmmap_bind kz l p _ (mk_seg VIRTIO0 1 VIRTIO0 (Z.lor PTE_R PTE_W)) _ _ _ HS); try done; try seg_side; try seg_apart.
  clear kz l HS. intros kz l HS.
  apply (kvmmap_bind kz l p _ (mk_seg PLIC 1024 PLIC (Z.lor PTE_R PTE_W)) _ _ _ HS); try done; try seg_side; try seg_apart.
  clear kz l HS. intros kz l HS.
  apply (kvmmap_bind kz l p _ (mk_seg KERNBASE ((etext - KERNBASE) / PGSIZE) KERNBASE (Z.lor PTE_R PTE_X)) _ _ _ HS);
    try done; try seg_side; try seg_apart.
  clear kz l HS. intros kz l HS.
  apply (kvmmap_bind kz l p _ (mk_seg etext ((PHYSTOP - etext) / PGSIZE) etext (Z.lor PTE_R PTE_W)) _ _ _ HS);
    try done; try seg_side; try seg_apart.
  clear kz l HS. intros kz l HS.
  apply (kvmmap_bind kz l p _ (mk_seg TRAMPOLINE 1 trampoline (Z.lor PTE_R PTE_X)) _ _ _ HS); try done; try seg_side; try seg_apart.
Qed.

(** C29: [kvmmake] builds the direct map and nothing else. It either panics
    because no free page is left, or returns a well-formed page table in which
    the leaf entry of every virtual address below [MAXVA] is the one of
    [kernel_segs]: devices, kernel text read-only and executable, data and RAM
    writable and not executable, all at their own addresses, the trampoline at
    the top, and 64 stacks on distinct pages that are neither free nor page
    tables. The page below each stack is not mapped, so an overflow faults. *)
Theorem kvmmake_direct_map k p l :
  image_ok → kinv k (p :: l) →
  (∃ k' l' stacks, kvmmake k = Ret p k' ∧ vinv k' l' p ∧ length stacks = 64%nat ∧ NoDup stacks ∧
     Forall (λ d, page_ok d ∧ (d ∉ l') ∧ ¬ is_table (mem k') p d) stacks ∧
     (∀ va, 0 ≤ va < MAXVA → leaf_pte (mem k') p va = space (kernel_segs stacks) va) ∧
     (∀ i va, 0 ≤ i < NPROC → KSTACK i - PGSIZE ≤ va < KSTACK i → leaf_pte (mem k') p va = 0)) ∨
  out_of_memory (kvmmake k).
Proof.
  intros Him Hk. apply (kvmmake_direct k p l); [done|done|by right|]. intros k1 l1 HS.
  assert (stacked k1 l1 p []) as Hst by (split; [done|apply NoDup_nil_2|done]).
  destruct (mapstacks_loop 64 k1 l1 p [] Him Hst eq_refl) as [(k' & l' & stacks & E & [[Hv HL] Hn Hp] & Hlen)|(msg & k' & E & Hm)].
  - left. exists k', l', stacks. split; [by rewrite (bind_eq _ _ _ _ _ E)|]. split_and!; try done.
    intros i va Hi Hva. unfold NPROC in Hi. rewrite HL.
    + apply space_out, Forall_app. split; [|apply direct_below; [done|]].
      * apply stacks_elsewhere. intros j Hj. unfold KSTACK, PGSIZE in *. lia.
      * unfold KSTACK, TRAMPOLINE, PGSIZE, PHYSTOP, KERNBASE in *. rewrite MAXVA_eq in *. lia.
    + unfold KSTACK, TRAMPOLINE, PGSIZE in *. rewrite MAXVA_eq in *. lia.
  - right. exists msg, k'. split; [|done]. change (proc_mapstacks p k1 = Panic msg k') in E. unfold bind. by rewrite E.
Qed.
End kernel.

(** ** An instance *)

#[local] Instance kernel_image : KernelImage.
Proof. refine {| kend := PHYSTOP - 160 * PGSIZE; etext := 0x80008000; trampoline := 0x80007000 |}; vm_compute; discriminate. Defined.

Lemma kernel_image_ok : image_ok.
Proof. split; split; vm_compute; (done || split; (done || discriminate)). Qed.

Lemma kvmmake_direct_map_witness :
  ∃ k p l, kinit demo_kmem = Ret tt k ∧ kinv k (p :: l) ∧
    ((∃ k' l' (stacks : list Z), kvmmake k = Ret p k' ∧ vinv k' l' p ∧ length stacks = 64%nat) ∨ out_of_memory (kvmmake k)).
Proof.
  destruct (kinit_spec demo_kmem demo_bytes eq_refl) as (k & l & E & Hk & Hl).
  assert (PHYSTOP - PGSIZE ∈ l) as Hin by (apply Hl; vm_compute; repeat split; discriminate).
  destruct l as [|p l]; [apply elem_of_nil in Hin; destruct Hin|]. exists k, p, l. split; [exact E|]. split; [exact Hk|].
  destruct (kvmmake_direct_map k p l kernel_image_ok Hk) as [(k' & l' & stacks & E' & Hv & Hlen & _)|Ho].
  - left. exists k', l', stacks. exact (conj E' (conj Hv Hlen)).
  - right. exact Ho.
Defined.
