(* ===== verification/Proc.v ===== *)
(** * The process table ([kernel/proc.c], [kernel/proc.h])

    Data of the process layer and its basic operations. A process pointer is
    an index into the table [procs], null is [None]. The state is the one a
    hart running in the kernel sees; the locks of the layer ([p->lock],
    [wait_lock], [pid_lock], [tickslock]) are taken and released explicitly
    in the list [held]. Trapframes and page tables live in the byte memory
    of [km]. [swtch] is a parameter: what happens between leaving and coming
    back. *)

From S2P Require Import Prelude.
From S2P Require Import Machine.
From S2P Require Import KString.
From S2P Require Import Printf.
From S2P Require Import Spinlock.
From S2P Require Import Kalloc.
From S2P Require Import Vm.
#[local] Open Scope Z_scope.

(** ** proc.h *)

Inductive procstate := UNUSED | USED | SLEEPING | RUNNABLE | RUNNING | ZOMBIE.
#[export] Instance procstate_eq_dec : EqDecision procstate.
Proof. solve_decision. Defined.

(** What a process can sleep on: null, a [struct proc], or another address. *)
Inductive channel := NoChan | ProcChan (i : nat) | TicksChan | AddrChan (a : Z).
#[export] Instance channel_eq_dec : EqDecision channel.
Proof. solve_decision. Defined.
(** A process pointer as a channel. *)
Definition proc_chan (p : option nat) : channel :=
  match p with Some i => ProcChan i | None => NoChan end.

(** Offsets in [struct trapframe]. *)
Definition tf_kernel_satp : Z := 0.
Definition tf_kernel_sp : Z := 8.
Definition tf_kernel_trap : Z := 16.
Definition tf_epc : Z := 24.
Definition tf_kernel_hartid : Z := 32.
Definition tf_sp : Z := 48.
Definition tf_a0 : Z := 112.
Definition tf_a1 : Z := 120.
Definition tf_a7 : Z := 168.
Definition sizeof_trapframe : Z := 288.

Record proc := mk_proc {
  state : procstate;
  chan : channel;
  p_killed : Z;
  xstate : Z;
  pid : Z;
  parent : option nat;
  kstack : Z;
  sz : Z;
  pagetable : Z;
  trapframe : Z;
  context : list Z;
  ofile : list Z;
  cwd : Z;
  name : list Z;
  rtime : Z;
  ctime : Z;
  etime : Z;
  syscall_count : list Z;
  s1 : Z;
  tickets : Z;
  arrival_t : Z;
  p_ticks : Z;
  s_tcks : Z;
  handler : Z;
  hlp : Z;
  alarm_tf : Z;
  alarm_act : Z;
  pqtct : Z;
  queue : Z;
  wwpqtct : Z;
  qnumber : Z
}.
#[export] Instance proc_eta : Settable proc := λ p,
  mk_proc (state p) (chan p) (p_killed p) (xstate p) (pid p) (parent p) (kstack p) (sz p)
    (pagetable p) (trapframe p) (context p) (ofile p) (cwd p) (name p) (rtime p) (ctime p)
    (etime p) (syscall_count p) (s1 p) (tickets p) (arrival_t p) (p_ticks p) (s_tcks p)
    (handler p) (hlp p) (alarm_tf p) (alarm_act p) (pqtct p) (queue p) (wwpqtct p) (qnumber p).

(** A slot of the zero-initialised table. *)
Definition zero_proc : proc :=
  mk_proc UNUSED NoChan 0 0 0 None 0 0 0 0 (replicate 14 0) (replicate 16 0) 0 (replicate 16 0)
    0 0 0 (replicate 32 0) 0 0 0 0 0 0 0 0 0 0 0 0 0.
#[export] Instance proc_inhabited : Inhabited proc := populate zero_proc.

Record log_entry := mk_log {
  le_pid : Z;
  le_time : Z;
  le_ticktime : Z;
  le_queue : Z
}.

Definition MAX_LOG_ENTRIES : Z := 10071.
Definition refmin1 : Z := 1000000.

(** The locks of the layer. *)
Inductive lock := PLock (i : nat) | WaitLock | PidLock | TicksLock.
#[export] Instance lock_eq_dec : EqDecision lock.
Proof. solve_decision. Defined.

(** The supervisor registers of the hart the kernel uses. *)
Record hart := mk_hart {
  sstatus : Z;
  sepc : Z;
  scause : Z;
  stval : Z;
  stvec : Z;
  satp : Z;
  sip : Z;
  tp : Z
}.
#[export] Instance hart_eta : Settable hart := λ h,
  mk_hart (sstatus h) (sepc h) (scause h) (stval h) (stvec h) (satp h) (sip h) (tp h).
Definition zero_hart : hart := mk_hart 0 0 0 0 0 0 0 0.

Definition SSTATUS_SPP : Z := Z.shiftl 1 8.
Definition SSTATUS_SPIE : Z := Z.shiftl 1 5.
Definition SSTATUS_SIE : Z := Z.shiftl 1 1.

(** ** The state of the process layer *)

Record kst {F : Type} := mk_kst {
  procs : list proc;
  held : list lock;
  km : kmem;
  fs : F;
  nextpid : Z;
  ticks : Z;
  initproc : option nat;
  npnq : list Z;
  roqd : list Z;
  logs : list log_entry;
  log_index : Z;
  random_ct : Z;
  j_global : Z;
  cur : option nat;
  out : list Z;
  first : bool;
  regs : hart
}.
Arguments kst : clear implicits.
#[export] Instance kst_eta {F} : Settable (kst F) := λ s,
  mk_kst F (procs s) (held s) (km s) (fs s) (nextpid s) (ticks s) (initproc s) (npnq s) (roqd s)
    (logs s) (log_index s) (random_ct s) (j_global s) (cur s) (out s) (first s) (regs s).

#[export] Program Instance kst_locks {F} : LockSet (kst F) lock := {|
  held_locks := held;
  set_held := λ ls s, s <| held := ls |>
|}.
Solve Obligations with (intros; by try destruct s).

(** ** What the process layer uses of the file system *)

(** Files and inodes are the file system's, identified by their addresses. Its
    calls work on the state of the kernel: they allocate and free pages and
    run as the current process. *)
Class FsOps (F : Type) := {
  filedup : Z → M (kst F) Z;
  fileclose : Z → M (kst F) unit;
  idup : Z → M (kst F) Z;
  iput : Z → M (kst F) unit;
  begin_op : M (kst F) unit;
  end_op : M (kst F) unit;
  namei : list Z → M (kst F) Z;
  fsinit : Z → M (kst F) unit
}.

(** The addresses of the kernel's entry points. *)
Class KernelText := {
  forkret_pc : Z;
  usertrap_pc : Z;
  uservec_pc : Z;
  userret_pc : Z;
  kernelvec_pc : Z
}.

Section proc.
Context {F : Type} `{!KernelImage}.
Implicit Types (s : kst F) (i : nat).

(** ** Access to the state *)

Definition get (i : nat) : M (kst F) proc := gets (λ s, procs s !!! i).
Definition set (i : nat) (f : proc → proc) : M (kst F) unit :=
  modify (λ s, s <| procs := alter f i (procs s) |>).
Definition with_km {A} (m : M kmem A) : M (kst F) A := lift km (λ k s, s <| km := k |>) m.
Definition with_fs {A} (m : M F A) : M (kst F) A := lift fs (λ f s, s <| fs := f |>) m.
Definition load_tf (tf off : Z) : M (kst F) Z := gets (λ s, load64 (mem (km s)) (tf + off)).
Definition store_tf (tf off v : Z) : M (kst F) unit :=
  with_km (set_mem (λ m, store64 m (tf + off) v)).
Definition kprintf (fmt : string) (args : list arg) : M (kst F) unit :=
  modify (λ s, s <| out := out s ++ default [] (printf fmt args) |>).

Definition r_reg (f : hart → Z) : M (kst F) Z := gets (λ s, f (regs s)).
Definition set_regs (f : hart → hart) : M (kst F) unit := modify (λ s, s <| regs := f (regs s) |>).
Definition intr_on : M (kst F) unit :=
  set_regs (λ h, h <| sstatus := Z.lor (sstatus h) SSTATUS_SIE |>).
Definition intr_off : M (kst F) unit :=
  set_regs (λ h, h <| sstatus := Z.land (sstatus h) (u64 (Z.lnot SSTATUS_SIE)) |>).
(** [push_off] in [acquire] keeps interrupts off from the first lock to the
    release of the last one, whose [pop_off] puts back what they were
    (Spinlock.v). So with a lock held [intr_get] is 0 and [SIE] of [regs] is
    [mycpu()->intena]. *)
Definition intr_get : M (kst F) bool :=
  gets (λ s, match held s with [] => negb (Z.land (sstatus (regs s)) SSTATUS_SIE =? 0) | _ => false end).
Definition get_intena : M (kst F) Z := gets (λ s, Z.land (sstatus (regs s)) SSTATUS_SIE).
Definition set_intena (x : Z) : M (kst F) unit :=
  set_regs (λ h, h <| sstatus := Z.lor (Z.land (sstatus h) (u64 (Z.lnot SSTATUS_SIE))) x |>).

(** Indices of the table, for the loops [for(p = proc; p < &proc[NPROC]; p++)]. *)
Definition table : list nat := seq 0 64.

(** [myproc()]; dereferencing a null result faults, and a fault in the kernel
    ends in [kerneltrap]'s panic. *)
Definition myproc : M (kst F) (option nat) := gets cur.
Definition curproc : M (kst F) nat :=
  let! p := myproc in
  match p with Some i => ret i | None => panic "kerneltrap" end.

Definition acquire (l : lock) : M (kst F) unit := acquire_lk l.
Definition release (l : lock) : M (kst F) unit := release_lk l.
Definition holding (l : lock) : M (kst F) bool := holding_lk l.

(** ** Small helpers of proc.c *)

Definition log_process_queue (i : nat) : M (kst F) unit :=
  let! p := get i in
  modify (λ s,
    if log_index s <? MAX_LOG_ENTRIES then
      s <| logs := <[Z.to_nat (log_index s) :=
             mk_log (s32 (pid p - 2)) (random_ct s) (s32 (ticks s)) (queue p)]> (logs s) |>
        <| log_index := log_index s + 1 |>
    else s).

Fixpoint ctz_loop (fuel : nat) (count value : Z) : option Z :=
  match fuel with
  | O => None
  | S fuel' => if Z.land value 1 =? 0 then ctz_loop fuel' (count + 1) (Z.shiftr value 1)
               else Some count
  end.
Definition count_trailing_zeros (value : Z) : option Z :=
  if value =? 0 then Some 64 else ctz_loop 64 0 value.

(** The xorshift of [rg] on the value of [ticks]. *)
Definition xorshift (x : Z) : Z :=
  let x := Z.lxor x (u64 (Z.shiftl x 13)) in
  let x := Z.lxor x (Z.shiftr x 17) in
  Z.lxor x (u64 (Z.shiftl x 5)).
Definition rg (l r : Z) : M (kst F) Z :=
  gets (λ s, s32 (u64 (remu (xorshift (ticks s)) (u64 (s32 (r - l))) + u64 l))).

Definition max (a b : Z) : Z := if b <? a then a else b.
Definition min (a b : Z) : Z := if a <? b then a else b.

Definition procinit : M (kst F) unit :=
  for_each table (λ i,
    set i (λ p, p <| state := UNUSED |> <| kstack := KSTACK (Z.of_nat i) |>)).

Definition allocpid : M (kst F) Z :=
  do! acquire PidLock in
  let! n := gets nextpid in
  do! modify (λ s, s <| nextpid := s32 (n + 1) |>) in
  do! release PidLock in
  ret n.

(** ** Leaving and re-entering the CPU *)

Section switching.
(** [swtch(&p->context, &mycpu()->context)]: the scheduler and the other
    processes run until this one is chosen again. *)
Variable swtch_out : nat → M (kst F) unit.

Definition sched : M (kst F) unit :=
  let! i := curproc in
  let! h := holding (PLock i) in
  if negb h then panic "sched p->lock" else
  let! n := gets (λ s, length (held s)) in
  if negb (Nat.eqb n 1) then panic "sched locks" else
  let! p := get i in
  if decide (state p = RUNNING) then panic "sched running" else
  let! on := intr_get in
  if (on : bool) then panic "sched interruptible" else
  let! intena := get_intena in
  do! swtch_out i in
  set_intena intena.

Definition yield : M (kst F) unit :=
  let! i := curproc in
  do! acquire (PLock i) in
  do! set i (λ p, p <| state := RUNNABLE |>) in
  do! sched in
  release (PLock i).

Definition sleep (ch : channel) (lk : lock) : M (kst F) unit :=
  let! i := curproc in
  do! acquire (PLock i) in
  do! release lk in
  do! set i (λ p, p <| chan := ch |>) in
  do! set i (λ p, p <| state := SLEEPING |>) in
  do! sched in
  do! set i (λ p, p <| chan := NoChan |>) in
  do! release (PLock i) in
  acquire lk.
End switching.

Definition wakeup (ch : channel) : M (kst F) unit :=
  for_each table (λ i,
    let! me := myproc in
    if decide (me = Some i) then ret tt else
    do! acquire (PLock i) in
    let! p := get i in
    do! (if decide (state p = SLEEPING ∧ chan p = ch)
         then set i (λ p, p <| state := RUNNABLE |>) else ret tt) in
    release (PLock i)).

Definition kill (target : Z) : M (kst F) Z :=
  let! r := for_until table (λ i,
    do! acquire (PLock i) in
    let! p := get i in
    if pid p =? target then
      do! set i (λ p, p <| p_killed := 1 |>) in
      do! (if decide (state p = SLEEPING)
           then set i (λ p, p <| state := RUNNABLE |>) else ret tt) in
      do! release (PLock i) in
      ret (Some 0)
    else
      do! release (PLock i) in
      ret None) in
  ret (default (-1) r).

Definition setkilled (i : nat) : M (kst F) unit :=
  do! acquire (PLock i) in
  do! set i (λ p, p <| p_killed := 1 |>) in
  release (PLock i).

Definition killed (i : nat) : M (kst F) Z :=
  do! acquire (PLock i) in
  let! p := get i in
  do! release (PLock i) in
  ret (p_killed p).

Definition update_time : M (kst F) unit :=
  for_each table (λ i,
    do! acquire (PLock i) in
    let! p := get i in
    do! (if decide (state p = RUNNING)
         then set i (λ p, p <| rtime := u32 (rtime p + 1) |>) else ret tt) in
    release (PLock i)).

(** ** Copying to and from the current process *)

Definition either_copyout (user_dst : bool) (dst : Z) (src : list Z) : M (kst F) Z :=
  let! i := curproc in
  let! p := get i in
  if user_dst then with_km (copyout (pagetable p) dst src)
  else do! with_km (set_mem (λ m, store_bytes m dst src)) in ret 0.

Definition either_copyin (user_src : bool) (src len : Z) : M (kst F) (Z * list Z) :=
  let! i := curproc in
  let! p := get i in
  if user_src then with_km (copyin (pagetable p) src len)
  else let! bs := gets (λ s, load_bytes (Z.to_nat len) (mem (km s)) src) in ret (0, bs).

(** ** Reports on the console *)

Definition procdump : M (kst F) unit :=
  do! kprintf (String (Ascii.ascii_of_nat 10) EmptyString) [] in
  for_each table (λ i,
    let! p := get i in
    if decide (state p = UNUSED) then ret tt else
    if 2 <? pid p then
      do! kprintf "%d  %d  %d  %d  %d "
        [AInt (pid p); AInt (queue p); AInt (pqtct p); AInt (wwpqtct p); AInt (qnumber p)] in
      kprintf (String (Ascii.ascii_of_nat 10) EmptyString) []
    else ret tt).

Definition nl : string := String (Ascii.ascii_of_nat 10) EmptyString.
Definition rule : string := "----------------------------------------------------" +:+ nl.

Definition print_logg : M (kst F) unit :=
  let! n := gets log_index in
  if n =? 0 then kprintf ("No log entries available." +:+ nl) [] else
  do! kprintf ("Process Queue Log:" +:+ nl) [] in
  do! kprintf rule [] in
  do! kprintf ("| PID | Time | Queue | TckTime" +:+ nl) [] in
  do! kprintf rule [] in
  do! for_each (seq 0 (Z.to_nat n)) (λ i,
    let! e := gets (λ s, default (mk_log 0 0 0 0) (logs s !! i)) in
    kprintf ("| %d | %d | %d | %d |" +:+ nl)
      [AInt (le_pid e); AInt (le_time e); AInt (le_queue e); AInt (le_ticktime e)]) in
  kprintf rule [].

(** [syscall_names] of syscall.c. *)
Definition syscall_names : list string :=
  ["fork"; "exit"; "wait"; "pipe"; "read"; "kill"; "exec"; "fstat"; "chdir"; "dup"; "getpid";
   "sbrk"; "sleep"; "uptime"; "open"; "write"; "mknod"; "unlink"; "link"; "mkdir"; "close";
   "waitx"; "getSysCount"; "sigalarm"; "sigreturn"; "settickets"; "printlog"].

Definition NUMBER_OF_SYSCALLS : Z := 32.

(** The loop of [getSysCount] over the bits of [mask], updating the global
    [j]. *)
Definition last_bit (mask : Z) (j : Z) : Z :=
  fold_left (λ j b, if Z.land (Z.shiftr mask b) 1 =? 0 then j else b)
    (seqZ 1 (NUMBER_OF_SYSCALLS - 1)) j.

(** Reading [syscall_names[j-1]] outside the array is undefined; [None]. *)
Definition syscall_name (j : Z) : option string :=
  if decide (1 ≤ j) then syscall_names !! Z.to_nat (j - 1) else None.

(** [None] when the name read is outside the array. *)
Definition getSysCount (mask : Z) : M (kst F) (option Z) :=
  let! i := curproc in
  do! modify (λ s, s <| j_global := last_bit mask (j_global s) |>) in
  let! j := gets j_global in
  let! p := get i in
  match syscall_name j with
  | None => ret None
  | Some nm =>
      let n := default 0 (syscall_count p !! Z.to_nat j) in
      do! kprintf ("PID %d called %s %d times." +:+ nl)
        [AInt (pid p); AStr (Some (bytes nm)); AInt (s32 n)] in
      ret (Some (s32 n))
  end.

End proc.
