(* ===== verification/Sched.v ===== *)
(** * The scheduler ([scheduler] of [kernel/proc.c])

    One iteration of the [for(;;)] of each of the three policies the Makefile
    selects: MLFQ, RR (the default) and LBS. *)

From S2P Require Import Prelude.
From S2P Require Import Machine.
From S2P Require Import Spinlock.
From S2P Require Import Kalloc.
From S2P Require Import Proc.
#[local] Open Scope Z_scope.

Section scheduler.
Context {F : Type}.
(** [swtch(&c->context, &p->context)]: process [i] runs until it switches
    back to the scheduler. *)
Variable swtch_in : nat → M (kst F) unit.

Definition set_cur (c : option nat) : M (kst F) unit := modify (λ s, s <| cur := c |>).

(** [p->state = RUNNING; c->proc = p; swtch(...); c->proc = 0;] *)
Definition dispatch (i : nat) : M (kst F) unit :=
  do! set i (λ p, p <| state := RUNNING |>) in
  do! set_cur (Some i) in
  do! swtch_in i in
  set_cur None.

(** *** MLFQ *)

Definition tick_slc : list Z := [1; 4; 8; 16].

(** [npnq[q] += d] and [roqd[q] += d]. *)
Definition add_npnq (q d : Z) : M (kst F) unit :=
  modify (λ s, s <| npnq := alter (λ x, s32 (x + d)) (Z.to_nat q) (npnq s) |>).
Definition add_roqd (q d : Z) : M (kst F) unit :=
  modify (λ s, s <| roqd := alter (λ x, s32 (x + d)) (Z.to_nat q) (roqd s) |>).

(** [p->qnumber = roqd[p->queue]; roqd[p->queue]++;] *)
Definition take_number (i : nat) : M (kst F) unit :=
  let! p := get i in
  let! n := gets (λ s, roqd s !!! Z.to_nat (queue p)) in
  do! set i (λ p, p <| qnumber := n |>) in
  add_roqd (queue p) 1.

Definition log_user (i : nat) : M (kst F) unit :=
  let! p := get i in
  if 2 <? pid p then log_process_queue i else ret tt.

(** The body of [if(... wwpqtct >= 48)]: move [i] to queue 0. *)
Definition boost (i : nat) : M (kst F) unit :=
  do! log_user i in
  let! p := get i in
  do! add_npnq (queue p) (-1) in
  do! set i (λ p, p <| queue := 0 |>) in
  do! add_npnq 0 1 in
  do! set i (λ p, p <| pqtct := 0 |>) in
  do! set i (λ p, p <| wwpqtct := 0 |>) in
  do! take_number i in
  log_user i.

(** The body of [if(p->pqtct >= tick_slc[p->queue] && p->queue != 4)]. *)
Definition demote (i : nat) : M (kst F) unit :=
  let! p := get i in
  do! add_npnq (queue p) (-1) in
  do! set i (λ p, p <| queue := s32 (queue p + 1) |>) in
  let! p := get i in
  do! add_npnq (queue p) 1 in
  do! set i (λ p, p <| pqtct := 0 |>) in
  do! take_number i in
  log_user i.

(** The lowest queue of a runnable process, 4 if there is none. *)
Definition mlfq_qm : M (kst F) Z :=
  for_fold table (λ qm i,
    do! acquire (PLock i) in
    let! p := get i in
    do! release (PLock i) in
    ret (if decide (state p = RUNNABLE ∧ queue p < qm) then queue p else qm)) 4.

(** The branch [qm == 3]: the inner loop over [q] after [p] has run, and the
    loop over [p]. *)
Definition mlfq_bottom_wait (i q : nat) : M (kst F) unit :=
  let! pq := get q in
  if decide (i ≠ q ∧ state pq = RUNNABLE) then
    do! acquire (PLock q) in
    do! set q (λ p, p <| wwpqtct := s32 (wwpqtct p + 1) |>) in
    let! pq := get q in
    do! (if 48 <=? wwpqtct pq then boost q else ret tt) in
    release (PLock q)
  else ret tt.
Definition mlfq_bottom : M (kst F) unit :=
  for_each table (λ i,
    do! acquire (PLock i) in
    let! p := get i in
    do! (if decide (state p = RUNNABLE) then
           do! dispatch i in
           for_each table (mlfq_bottom_wait i)
         else ret tt) in
    release (PLock i)).

(** [prngd]: the runnable process of queue [qm] with the lowest [qnumber]
    below [refmin1]; the local pair is [(prngd, refm)]. *)
Definition mlfq_choose (qm : Z) : M (kst F) (option nat * Z) :=
  for_fold table (λ best i,
    do! acquire (PLock i) in
    let! p := get i in
    do! release (PLock i) in
    ret (if decide (state p = RUNNABLE ∧ queue p = qm) then
           if qnumber p <? best.2 then (Some i, qnumber p) else best
         else best)) (None, refmin1).

(** The last loop: age the runnable processes not chosen, run the chosen
    one. *)
Definition mlfq_wait (i : nat) : M (kst F) unit :=
  do! set i (λ p, p <| wwpqtct := s32 (wwpqtct p + 1) |>) in
  let! p := get i in
  if decide (queue p ≠ 0 ∧ 48 ≤ wwpqtct p) then boost i else ret tt.
Definition mlfq_chosen (i : nat) : M (kst F) unit :=
  do! dispatch i in
  do! set i (λ p, p <| pqtct := s32 (pqtct p + 1) |>) in
  do! log_user i in
  let! p := get i in
  do! (if decide (tick_slc !!! Z.to_nat (queue p) ≤ pqtct p ∧ queue p ≠ 4)
       then demote i else ret tt) in
  set i (λ p, p <| wwpqtct := 0 |>).
Definition mlfq_visit (prngd : option nat) (i : nat) : M (kst F) unit :=
  do! acquire (PLock i) in
  let! p := get i in
  do! (if decide (state p = RUNNABLE ∧ Some i ≠ prngd) then mlfq_wait i
       else if decide (state p = RUNNABLE ∧ Some i = prngd) then mlfq_chosen i
       else ret tt) in
  release (PLock i).
Definition mlfq_run (prngd : option nat) : M (kst F) unit :=
  for_each table (mlfq_visit prngd).

Definition mlfq_round : M (kst F) unit :=
  do! modify (λ s, s <| random_ct := s32 (random_ct s + 1) |>) in
  let! qm := mlfq_qm in
  if qm =? 3 then mlfq_bottom
  else let! best := mlfq_choose qm in mlfq_run best.1.

(** *** RR *)

Definition rr_round : M (kst F) unit :=
  for_each table (λ i,
    do! acquire (PLock i) in
    let! p := get i in
    do! (if decide (state p = RUNNABLE) then dispatch i else ret tt) in
    release (PLock i)).

(** *** LBS *)

Definition lbs_total : M (kst F) Z :=
  for_fold table (λ sum i,
    let! p := get i in
    ret (if decide (state p = RUNNABLE) then s32 (sum + tickets p) else sum)) 0.

(** The selection loop with its locals [rtvll] and [winner]; it leaves the
    winner's lock held. *)
Fixpoint lbs_select (l : list nat) (rtvll : Z) (winner : option nat) : M (kst F) (option nat) :=
  match l with
  | [] => ret winner
  | i :: l' =>
      do! acquire (PLock i) in
      let! p := get i in
      if decide (state p = RUNNABLE) then
        if rtvll <? tickets p then
          let! w := gets (λ s, match winner with Some j => procs s !!! j | None => zero_proc end) in
          ret (match winner with
               | None => Some i
               | Some j => if decide (tickets w = tickets p ∧ arrival_t p < arrival_t w)
                           then Some i else Some j
               end)
        else
          do! release (PLock i) in
          lbs_select l' (s32 (rtvll - tickets p)) winner
      else
        do! release (PLock i) in
        lbs_select l' rtvll winner
  end.

Definition lbs_round : M (kst F) unit :=
  let! sum_tkt := lbs_total in
  let! rtvll := rg 0 sum_tkt in
  let! winner := lbs_select table rtvll None in
  match winner with
  | None => ret tt
  | Some i =>
      do! dispatch i in
      release (PLock i)
  end.

(** *** [scheduler] *)

Inductive policy := MLFQ | RR | LBS.

Definition round (pol : policy) : M (kst F) unit :=
  match pol with MLFQ => mlfq_round | RR => rr_round | LBS => lbs_round end.

(** The first [n] iterations of [for(;;)]. *)
Fixpoint scheduler_loop (pol : policy) (n : nat) : M (kst F) unit :=
  match n with
  | O => ret tt
  | S n' => do! intr_on in do! round pol in scheduler_loop pol n'
  end.
Definition scheduler (pol : policy) (n : nat) : M (kst F) unit :=
  do! set_cur None in scheduler_loop pol n.

End scheduler.
