(* ===== verification/SchedSpec.v ===== *)
(** * What the scheduling policies do

    The choices of the three policies as functions of the process table, and
    the effect of a round on the scheduling fields. *)

From S2P Require Import Prelude.
From S2P Require Import Machine.
From S2P Require Import Spinlock.
From S2P Require Import Kalloc.
From S2P Require Import Proc.
From S2P Require Import Sched.
#[local] Open Scope Z_scope.

Section locks.
Context {F : Type}.
Implicit Types s : kst F.

Lemma acquire_eq s l : l ∉ held s → acquire l s = Ret tt (s <| held := l :: held s |>).
Proof. exact (acquire_lk_free l s). Qed.

Lemma release_eq s l hs : l ∉ hs → held s = l :: hs → release l s = Ret tt (s <| held := hs |>).
Proof. exact (release_lk_head l hs s). Qed.

Lemma held_id s hs ls : held s = hs → (s <| held := ls |>) <| held := hs |> = s.
Proof. intros <-. by destruct s. Qed.

(** Taking a lock for a while changes nothing but what the section does. *)
Lemma locked_read {A} (i : nat) (f : proc → A) s :
  PLock i ∉ held s →
  (do! acquire (PLock i) in let! p := get i in do! release (PLock i) in ret (f p)) s =
  Ret (f (procs s !!! i)) s.
Proof.
  intros Hi. rewrite (bind_eq _ _ _ _ _ (acquire_eq s _ Hi)). unfold bind at 1, get, gets.
  erewrite (bind_eq (release (PLock i))) by (by apply (release_eq _ _ (held s))).
  by rewrite held_id.
Qed.

Lemma fold_locked_read {B} (f : B → nat → proc → B) (l : list nat) (b : B) s :
  held s = [] →
  for_fold l (λ b i, do! acquire (PLock i) in let! p := get i in
                     do! release (PLock i) in ret (f b i p)) b s =
  Ret (fold_left (λ b i, f b i (procs s !!! i)) l b) s.
Proof.
  intros Hs. revert b. induction l as [|i l IH]; intros b; simpl; [done|].
  erewrite bind_eq by (apply (locked_read i (f b i)); rewrite Hs; apply not_elem_of_nil).
  apply IH.
Qed.
End locks.

(** ** MLFQ: the choice *)

Section choice.
Context {F : Type}.
Implicit Types (s : kst F) (ps : list proc).

Definition runnable (ps : list proc) (j : nat) : Prop := state (ps !!! j) = RUNNABLE.
#[export] Instance runnable_dec ps j : Decision (runnable ps j).
Proof. unfold runnable. apply _. Defined.

Definition qm_of (ps : list proc) (l : list nat) (q0 : Z) : Z :=
  fold_left (λ qm i, if decide (state (ps !!! i) = RUNNABLE ∧ queue (ps !!! i) < qm)
                     then queue (ps !!! i) else qm) l q0.

Definition best_of (ps : list proc) (qm : Z) (l : list nat) (b0 : option nat * Z)
    : option nat * Z :=
  fold_left (λ best i,
    if decide (state (ps !!! i) = RUNNABLE ∧ queue (ps !!! i) = qm) then
      if qnumber (ps !!! i) <? best.2 then (Some i, qnumber (ps !!! i)) else best
    else best) l b0.

Lemma mlfq_qm_eq s : held s = [] → mlfq_qm s = Ret (qm_of (procs s) table 4) s.
Proof.
  apply (fold_locked_read (λ qm i p,
    if decide (state p = RUNNABLE ∧ queue p < qm) then queue p else qm)).
Qed.

Lemma mlfq_choose_eq qm s :
  held s = [] → mlfq_choose qm s = Ret (best_of (procs s) qm table (None, refmin1)) s.
Proof.
  apply (fold_locked_read (λ best i p,
    if decide (state p = RUNNABLE ∧ queue p = qm) then
      if qnumber p <? best.2 then (Some i, qnumber p) else best
    else best)).
Qed.

Lemma qm_of_spec ps l q0 :
  let qm := qm_of ps l q0 in
  qm ≤ q0 ∧ (∀ j, j ∈ l → runnable ps j → qm ≤ queue (ps !!! j)) ∧
  (qm = q0 ∨ ∃ j, j ∈ l ∧ runnable ps j ∧ queue (ps !!! j) = qm).
Proof.
  revert q0. induction l as [|i l IH]; intros q0; simpl.
  { split; [lia|]. split; [|by left]. intros j Hj. by apply elem_of_nil in Hj. }
  set (q1 := if decide _ then _ else _).
  destruct (IH q1) as (H1 & H2 & H3). fold (qm_of ps l q1) in *.
  assert (q1 ≤ q0 ∧ (runnable ps i → q1 ≤ queue (ps !!! i)) ∧
    (q1 = q0 ∨ runnable ps i ∧ queue (ps !!! i) = q1)) as (A1 & A2 & A3).
  { unfold q1, runnable. case_decide as Hd; split_and!; try lia; try tauto.
    intros Hr. destruct (decide (queue (ps !!! i) < q0)); [exfalso; by apply Hd|lia]. }
  split; [lia|]. split.
  - intros j [->|Hj]%elem_of_cons Hr; [specialize (A2 Hr); lia|by apply H2].
  - destruct H3 as [->|(j & Hj & Hr & Hq)].
    + destruct A3 as [?|[Hr Hq]]; [by left|]. right. exists i. split; [by left|done].
    + right. exists j. split; [by right|done].
Qed.

(** [i] is chosen before [j]: lower [qnumber], or the same and earlier in the
    table. *)
Definition before (ps : list proc) (i j : nat) : Prop :=
  qnumber (ps !!! i) < qnumber (ps !!! j) ∨
  (qnumber (ps !!! i) = qnumber (ps !!! j) ∧ (i ≤ j)%nat).

Lemma best_of_spec ps qm n k b0 :
  let l := seq n k in
  (∀ i, b0.1 = Some i → b0.2 = qnumber (ps !!! i)) →
  let b := best_of ps qm l b0 in
  b.2 ≤ b0.2 ∧
  (b.1 = b0.1 ∧ b.2 = b0.2 ∨
   ∃ i, b.1 = Some i ∧ i ∈ l ∧ runnable ps i ∧ queue (ps !!! i) = qm ∧
        b.2 = qnumber (ps !!! i) ∧ b.2 < b0.2 ∧
        ∀ j, j ∈ l → runnable ps j → queue (ps !!! j) = qm → before ps i j) ∧
  (∀ j, j ∈ l → runnable ps j → queue (ps !!! j) = qm → b.2 ≤ qnumber (ps !!! j)).
Proof.
  revert n b0. induction k as [|k IH]; intros n b0 l Hb b.
  { split; [done|]. split; [by left|]. intros j Hj. by apply elem_of_nil in Hj. }
  subst l b. simpl.
  set (b1 := if decide _ then _ else b0).
  assert (b1 = b0 ∧ (runnable ps n → queue (ps !!! n) = qm → b0.2 ≤ qnumber (ps !!! n)) ∨
    b1 = (Some n, qnumber (ps !!! n)) ∧ runnable ps n ∧ queue (ps !!! n) = qm ∧
    qnumber (ps !!! n) < b0.2) as Hb1.
  { unfold b1, runnable. case_decide as Hd; [|left; split; [done|]; tauto].
    destruct (Z.ltb_spec (qnumber (ps !!! n)) b0.2); [right; tauto|left; split; [done|lia]]. }
  destruct (IH (S n) b1) as (H1 & H2 & H3).
  { intros i Hi. destruct Hb1 as [[-> _]|[-> _]]; [by apply Hb|]. by simplify_eq/=. }
  fold (best_of ps qm (seq (S n) k) b1) in *. set (b := best_of ps qm (seq (S n) k) b1) in *.
  destruct Hb1 as [[E Hn]|(E & Hr & Hq & Hlt)]; rewrite E in *; simpl in H1, H2.
  - split; [done|]. split.
    + destruct H2 as [?|(i & E1 & Hi & Hri & Hqi & Ei & Hlt & Hall)]; [by left|right].
      exists i. split_and!; try done; [by right|].
      intros j [->|Hj]%elem_of_cons Hrj Hqj; [|by apply Hall].
      left. specialize (Hn Hrj Hqj). lia.
    + intros j [->|Hj]%elem_of_cons Hrj Hqj; [specialize (Hn Hrj Hqj); lia|by apply H3].
  - split; [lia|]. split.
    + right. destruct H2 as [[E1 E2]|(i & E1 & Hi & Hri & Hqi & Ei & Hlti & Hall)].
      * exists n. split_and!; try done; [by left|lia|].
        intros j [->|Hj]%elem_of_cons Hrj Hqj; [right; lia|].
        specialize (H3 j Hj Hrj Hqj). apply elem_of_seq in Hj. unfold before. lia.
      * exists i. split_and!; try done; [by right|lia|].
        intros j [->|Hj]%elem_of_cons Hrj Hqj; [left; lia|by apply Hall].
    + intros j [->|Hj]%elem_of_cons Hrj Hqj; [lia|by apply H3].
Qed.

(** What MLFQ should pick: the first process of the highest non-empty queue. *)
Definition mlfq_first (ps : list proc) (i : nat) : Prop :=
  (i < 64)%nat ∧ runnable ps i ∧
  ∀ j, (j < 64)%nat → runnable ps j →
    queue (ps !!! i) < queue (ps !!! j) ∨ (queue (ps !!! i) = queue (ps !!! j) ∧ before ps i j).

Lemma elem_of_table j : j ∈ table ↔ (j < 64)%nat.
Proof. unfold table. rewrite elem_of_seq. lia. Qed.

Lemma mlfq_choice_spec s :
  held s = [] →
  ∃ qm b, mlfq_qm s = Ret qm s ∧ mlfq_choose qm s = Ret b s ∧ qm ≤ 4 ∧
    (∀ j, (j < 64)%nat → runnable (procs s) j → qm ≤ queue (procs s !!! j)) ∧
    match b.1 with
    | Some i => mlfq_first (procs s) i ∧ queue (procs s !!! i) = qm ∧
                qnumber (procs s !!! i) < refmin1
    | None => ∀ j, (j < 64)%nat → runnable (procs s) j → queue (procs s !!! j) = qm →
                   refmin1 ≤ qnumber (procs s !!! j)
    end.
Proof.
  intros Hs. eexists _, _. split; [by apply mlfq_qm_eq|]. split; [by apply mlfq_choose_eq|].
  set (qm := qm_of _ _ _).
  destruct (qm_of_spec (procs s) table 4) as (Q1 & Q2 & Q3). fold qm in Q1, Q2, Q3.
  split; [done|]. split; [intros j Hj; by apply Q2, elem_of_table|].
  destruct (best_of_spec (procs s) qm 0 64 (None, refmin1)) as (B1 & B2 & B3); [done|].
  fold table in *. destruct B2 as [[E1 E2]|(i & E & Hi & Hr & Hq & Ei & Hlt & Hall)].
  - rewrite E1. cbn [fst snd] in *. intros j Hj Hr Hq. rewrite <- E2.
    by apply B3; [apply elem_of_table| |].
  - rewrite E. split; [|cbn [snd] in Hlt; lia]. apply elem_of_table in Hi.
    split; [done|]. split; [done|]. intros j Hj Hrj. apply elem_of_table in Hj.
    specialize (Q2 j Hj Hrj). destruct (decide (queue (procs s !!! j) = qm)); [right|left; lia].
    split; [lia|]. by apply Hall.
Qed.

(** The queue found is one a process waits in. *)
Lemma mlfq_qm_attained s qm j :
  held s = [] → mlfq_qm s = Ret qm s → (j < 64)%nat → runnable (procs s) j →
  queue (procs s !!! j) ≤ 3 →
  ∃ k, (k < 64)%nat ∧ runnable (procs s) k ∧ queue (procs s !!! k) = qm.
Proof.
  intros Hs E Hj Hr Hq. rewrite mlfq_qm_eq in E by done. apply Ret_inj in E as [<- _].
  destruct (qm_of_spec (procs s) table 4) as (Q1 & Q2 & Q3).
  destruct Q3 as [E4|(k & Hk & Hrk & Hqk)].
  - specialize (Q2 j (proj2 (elem_of_table j) Hj) Hr). lia.
  - exists k. by apply elem_of_table in Hk.
Qed.

(** Visiting a process that is not the chosen one switches to none. *)
Lemma mlfq_visit_other sw1 sw2 prngd j s : prngd ≠ Some j → mlfq_visit sw1 prngd j s = mlfq_visit sw2 prngd j s.
Proof.
  intros Hn. unfold mlfq_visit, bind. destruct (acquire (PLock j) s) as [a s1| | |]; try done.
  unfold get, gets. destruct (decide (_ ∧ Some j ≠ prngd)) as [?|_]; [done|].
  rewrite !(decide_False (P := _ ∧ Some j = prngd)) by (intros [_ ?]; done). done.
Qed.

Lemma mlfq_visits_other sw1 sw2 prngd l s :
  (∀ j, j ∈ l → prngd ≠ Some j) → for_each l (mlfq_visit sw1 prngd) s = for_each l (mlfq_visit sw2 prngd) s.
Proof.
  revert s. induction l as [|j l IH]; intros s Hn; cbn [for_each]; [done|].
  unfold bind. rewrite (mlfq_visit_other sw1 sw2) by (apply Hn; by left).
  destruct (mlfq_visit sw2 prngd j s); [|done..]. apply IH. intros k Hk. apply Hn. by right.
Qed.
End choice.

(** ** MLFQ: the effect of a round *)

(** The fields MLFQ decides on. *)
Definition view (p : proc) : Z * Z * Z := (queue p, pqtct p, wwpqtct p).

(** A runnable process that was not chosen waits one more round, and is moved
    to queue 0 when it has waited 48 rounds. *)
Definition age (v : Z * Z * Z) : Z * Z * Z :=
  let '(q, t, w) := v in
  let w' := s32 (w + 1) in
  if decide (q ≠ 0 ∧ 48 ≤ w') then (0, 0, 0) else (q, t, w').

(** The chosen process has used one more tick of its slice, and drops a queue
    at the end of the slice. *)
Definition use_tick (v : Z * Z * Z) : Z * Z * Z :=
  let '(q, t, w) := v in
  let t' := s32 (t + 1) in
  if decide (tick_slc !!! Z.to_nat q ≤ t' ∧ q ≠ 4) then (s32 (q + 1), 0, 0) else (q, t', 0).

Definition queue_ok (p : proc) : Prop := 0 ≤ queue p ≤ 3.

Section effect.
Context {F : Type}.
Implicit Types (s : kst F) (ps : list proc).

Lemma lookup_total_alter (f : proc → proc) i ps :
  (i < length ps)%nat → alter f i ps !!! i = f (ps !!! i).
Proof. apply list_lookup_total_alter_eq. Qed.
Lemma lookup_total_alter_ne (f : proc → proc) i j ps :
  i ≠ j → alter f i ps !!! j = ps !!! j.
Proof. apply list_lookup_total_alter_ne. Qed.

(** [m] changes only the entry of process [i], by [f], among locks and
    processes. *)
Definition only (i : nat) (f : proc → proc) (s s' : kst F) : Prop :=
  held s' = held s ∧ procs s' = alter f i (procs s).

Lemma log_user_spec i s :
  ∃ s', log_user i s = Ret tt s' ∧ held s' = held s ∧ procs s' = procs s ∧ roqd s' = roqd s.
Proof.
  unfold log_user, log_process_queue, bind, get, gets, modify, ret.
  destruct (2 <? pid _); [|by exists s].
  destruct (log_index s <? MAX_LOG_ENTRIES); by eexists.
Qed.

Lemma take_number_spec i s :
  ∃ s' n, take_number i s = Ret tt s' ∧ only i (λ p, p <| qnumber := n |>) s s'.
Proof. eexists _, _. split; [reflexivity|]. done. Qed.

Lemma alter_twice (f g : proc → proc) i ps : alter f i (alter g i ps) = alter (f ∘ g) i ps.
Proof. revert i. induction ps as [|p ps IH]; intros [|i]; simpl; [done..|]. f_equal. apply IH. Qed.

(** What a sequence of updates of the same process does. *)
Lemma only_trans i f g s1 s2 s3 : only i f s1 s2 → only i g s2 s3 → only i (g ∘ f) s1 s3.
Proof. intros [H1 P1] [H2 P2]. split; [congruence|]. by rewrite P2, P1, alter_twice. Qed.

Lemma only_log i f s1 s2 s3 :
  only i f s1 s2 → held s3 = held s2 → procs s3 = procs s2 → only i f s1 s3.
Proof. intros [H1 P1] ? ?. split; congruence. Qed.

(** Steps that keep [only], for chains of updates of one process. *)
Lemma only_refl i s : only i id s s.
Proof.
  split; [done|]. generalize (procs s) as ps. revert i.
  induction i; intros [|p ps]; simpl; [done..|]. by f_equal.
Qed.
Lemma only_set i f g s0 s :
  only i f s0 s → ∃ s', set i g s = Ret tt s' ∧ only i (g ∘ f) s0 s'.
Proof.
  intros [H1 P1]. eexists. split; [reflexivity|]. split; [exact H1|].
  change (alter g i (procs s) = alter (g ∘ f) i (procs s0)). by rewrite P1, alter_twice.
Qed.
Lemma only_npnq i f q d s0 s :
  only i f s0 s → ∃ s', add_npnq q d s = Ret tt s' ∧ only i f s0 s'.
Proof. intros O. eexists. split; [reflexivity|]. exact O. Qed.
Lemma only_log_user i f s0 s :
  only i f s0 s → ∃ s', log_user i s = Ret tt s' ∧ only i f s0 s'.
Proof.
  intros O. destruct (log_user_spec i s) as (s' & E & H & P & _). exists s'.
  split; [done|]. by eapply only_log.
Qed.
Lemma only_number i f s0 s :
  only i f s0 s → ∃ s' n, take_number i s = Ret tt s' ∧ only i ((λ p, p <| qnumber := n |>) ∘ f) s0 s'.
Proof.
  intros O. destruct (take_number_spec i s) as (s' & n & E & O'). exists s', n.
  split; [done|]. by eapply only_trans.
Qed.

(** Run the next command of a chain by one of the lemmas above. *)
Ltac only_step lem O :=
  let s' := fresh "s" in let E := fresh "E" in let O' := fresh "O" in
  edestruct lem as (s' & E & O'); [exact O|];
  first [rewrite (bind_eq _ _ _ _ _ E) | rewrite E]; clear O E; rename O' into O.

Lemma boost_spec i s :
  ∃ s' n, boost i s = Ret tt s' ∧
    only i (λ p, (((p <| queue := 0 |>) <| pqtct := 0 |>) <| wwpqtct := 0 |>) <| qnumber := n |>) s s'.
Proof.
  unfold boost. pose proof (only_refl i s) as O.
  only_step only_log_user O. rewrite (bind_eq (get i) _ _ _ _ eq_refl).
  only_step only_npnq O. only_step only_set O. only_step only_npnq O.
  only_step only_set O. only_step only_set O.
  destruct (only_number i _ _ _ O) as (s' & n & E & O'). rewrite (bind_eq _ _ _ _ _ E).
  only_step only_log_user O'. eexists _, n. split; [reflexivity|]. exact O'.
Qed.

Lemma demote_spec i s :
  ∃ s' n, demote i s = Ret tt s' ∧
    only i (λ p, ((p <| queue := s32 (queue p + 1) |>) <| pqtct := 0 |>) <| qnumber := n |>) s s'.
Proof.
  unfold demote. pose proof (only_refl i s) as O.
  rewrite (bind_eq (get i) _ _ _ _ eq_refl). only_step only_npnq O. only_step only_set O.
  rewrite (bind_eq (get i) _ _ _ _ eq_refl). only_step only_npnq O. only_step only_set O.
  destruct (only_number i _ _ _ O) as (s' & n & E & O'). rewrite (bind_eq _ _ _ _ _ E).
  only_step only_log_user O'. eexists _, n. split; [reflexivity|]. exact O'.
Qed.

Lemma locked_section (i : nat) (body : proc → M (kst F) unit) s s2 :
  held s = [] → body (procs s !!! i) (s <| held := [PLock i] |>) = Ret tt s2 →
  held s2 = [PLock i] →
  (do! acquire (PLock i) in let! p := get i in do! body p in release (PLock i)) s =
  Ret tt (s2 <| held := [] |>).
Proof.
  intros Hs Hb H2. erewrite bind_eq by (apply acquire_eq; rewrite Hs; apply not_elem_of_nil).
  rewrite Hs. rewrite (bind_eq (get i) _ _ _ _ eq_refl).
  erewrite bind_eq by exact Hb. apply release_eq; [apply not_elem_of_nil|done].
Qed.

(** What the code relies on when it switches to process [i]: control comes
    back with [i]'s lock held and no other, and what ran meanwhile did not
    change the scheduling fields of [i] or of a process waiting for the CPU,
    and moved no process out of the four queues. *)
Definition swtch_ok (swtch_in : nat → M (kst F) unit) : Prop :=
  ∀ i s, (i < 64)%nat → held s = [PLock i] → length (procs s) = 64%nat →
  ∃ s', swtch_in i s = Ret tt s' ∧ held s' = [PLock i] ∧ length (procs s') = 64%nat ∧
    view (procs s' !!! i) = view (procs s !!! i) ∧
    (∀ j, j ≠ i → runnable (procs s) j →
       runnable (procs s') j ∧ view (procs s' !!! j) = view (procs s !!! j)) ∧
    (∀ j, queue_ok (procs s !!! j) → queue_ok (procs s' !!! j)).

Variable swtch_in : nat → M (kst F) unit.
Hypothesis Hsw : swtch_ok swtch_in.

(** A process entry after an update of entry [i]. *)
Lemma only_other i f s s' j : only i f s s' → j ≠ i → procs s' !!! j = procs s !!! j.
Proof. intros [_ ->] Hj. by apply lookup_total_alter_ne. Qed.
Lemma only_self i f s s' :
  only i f s s' → (i < length (procs s))%nat → procs s' !!! i = f (procs s !!! i).
Proof. intros [_ ->] Hi. by apply lookup_total_alter. Qed.
Lemma only_length i f s s' : only i f s s' → length (procs s') = length (procs s).
Proof. intros [_ ->]. apply length_alter. Qed.

Lemma dispatch_spec i s :
  (i < 64)%nat → held s = [PLock i] → length (procs s) = 64%nat →
  ∃ s', dispatch swtch_in i s = Ret tt s' ∧ held s' = [PLock i] ∧ length (procs s') = 64%nat ∧
    view (procs s' !!! i) = view (procs s !!! i) ∧
    (∀ j, j ≠ i → runnable (procs s) j →
       runnable (procs s') j ∧ view (procs s' !!! j) = view (procs s !!! j)) ∧
    (∀ j, queue_ok (procs s !!! j) → queue_ok (procs s' !!! j)).
Proof.
  intros Hi Hh Hl. unfold dispatch.
  destruct (only_set i id (λ p, p <| state := RUNNING |>) s s (only_refl i s)) as (s1 & E1 & O1).
  rewrite (bind_eq _ _ _ _ _ E1). rewrite (bind_eq (set_cur (Some i)) _ _ _ _ eq_refl).
  set (s2 := s1 <| cur := Some i |>).
  assert (held s2 = [PLock i]) as H2 by (rewrite <- Hh; apply O1).
  assert (procs s2 = procs s1) as P2 by done.
  assert (length (procs s2) = 64%nat) as L2 by (rewrite P2, (only_length _ _ _ _ O1); done).
  destruct (Hsw i s2 Hi H2 L2) as (s3 & E3 & H3 & L3 & V3 & W3 & Q3).
  rewrite (bind_eq _ _ _ _ _ E3). eexists. split; [reflexivity|].
  assert (procs s1 !!! i = (procs s !!! i) <| state := RUNNING |>) as Pi
    by (apply (only_self _ _ _ _ O1); lia).
  assert (∀ j, j ≠ i → procs s1 !!! j = procs s !!! j) as Pj by (intros; by eapply only_other).
  split; [done|]. split; [done|]. rewrite P2 in V3, W3, Q3. split.
  { etransitivity; [exact V3|]. by rewrite Pi. }
  split.
  - intros j Hj Hr. rewrite <- (Pj j Hj). apply W3; [done|]. unfold runnable. by rewrite Pj.
  - intros j Hj. apply Q3. destruct (decide (j = i)) as [->|]; [by rewrite Pi|by rewrite Pj].
Qed.

Lemma mlfq_wait_spec i s :
  (i < length (procs s))%nat →
  ∃ s' f, mlfq_wait i s = Ret tt s' ∧ only i f s s' ∧
    (∀ p, state (f p) = state p) ∧ view (f (procs s !!! i)) = age (view (procs s !!! i)).
Proof.
  intros Hi. unfold mlfq_wait. pose proof (only_refl i s) as O.
  only_step only_set O. rewrite (bind_eq (get i) _ _ _ _ eq_refl).
  rewrite (only_self _ _ _ _ O Hi). unfold age, view. simpl.
  destruct (decide _) as [Hd|Hd].
  - destruct (boost_spec i s0) as (s' & n & E & O'). rewrite E.
    eexists _, _. split; [done|]. split; [by eapply only_trans|]. done.
  - eexists _, _. split; [done|]. split; [exact O|]. split; done.
Qed.

Lemma mlfq_chosen_spec i s :
  (i < 64)%nat → held s = [PLock i] → length (procs s) = 64%nat →
  ∃ s', mlfq_chosen swtch_in i s = Ret tt s' ∧ held s' = [PLock i] ∧ length (procs s') = 64%nat ∧
    view (procs s' !!! i) = use_tick (view (procs s !!! i)) ∧
    (∀ j, j ≠ i → runnable (procs s) j →
       runnable (procs s') j ∧ view (procs s' !!! j) = view (procs s !!! j)) ∧
    (∀ j, j ≠ i → queue_ok (procs s !!! j) → queue_ok (procs s' !!! j)).
Proof.
  intros Hi Hh Hl. unfold mlfq_chosen.
  destruct (dispatch_spec i s Hi Hh Hl) as (s1 & E1 & H1 & L1 & V1 & W1 & Q1).
  rewrite (bind_eq _ _ _ _ _ E1). pose proof (only_refl i s1) as O.
  only_step only_set O. only_step only_log_user O. rewrite (bind_eq (get i) _ _ _ _ eq_refl).
  rewrite (only_self _ _ _ _ O) by lia. unfold view in V1. injection V1 as Vq Vp Vw.
  assert (∃ s' f, (do! (if decide (tick_slc !!! Z.to_nat (queue (procs s1 !!! i)) ≤
      s32 (pqtct (procs s1 !!! i) + 1) ∧ queue (procs s1 !!! i) ≠ 4) then demote i else ret tt) in
      set i (λ p, p <| wwpqtct := 0 |>)) s2 = Ret tt s' ∧ only i f s1 s' ∧
      view (f (procs s1 !!! i)) = use_tick (view (procs s1 !!! i))) as (s' & f & E & O' & V).
  { unfold use_tick, view. destruct (decide _) as [Hd|Hd].
    - destruct (demote_spec i s2) as (s3 & n & E3 & O3). rewrite (bind_eq _ _ _ _ _ E3).
      pose proof (only_trans _ _ _ _ _ _ O O3) as O4. only_step only_set O4.
      eexists _, _. split; [done|]. split; [exact O4|]. done.
    - rewrite (bind_eq (ret tt) _ _ _ _ eq_refl). only_step only_set O.
      eexists _, _. split; [done|]. split; [exact O|]. done. }
  exists s'. split; [exact E|]. split; [rewrite <- H1; apply O'|].
  split; [by rewrite (only_length _ _ _ _ O')|]. split.
  { rewrite (only_self _ _ _ _ O') by lia. rewrite V. unfold view. by rewrite Vq, Vp, Vw. }
  split; intros j Hj.
  - intros Hr. destruct (W1 j Hj Hr) as [Hr' Hv]. unfold runnable.
    by rewrite (only_other _ _ _ _ _ O' Hj).
  - intros Hq. rewrite (only_other _ _ _ _ _ O' Hj). by apply Q1.
Qed.

Lemma mlfq_visit_spec prngd i s :
  (i < 64)%nat → held s = [] → length (procs s) = 64%nat →
  ∃ s', mlfq_visit swtch_in prngd i s = Ret tt s' ∧ held s' = [] ∧ length (procs s') = 64%nat ∧
    (∀ j, j ≠ i → runnable (procs s) j →
       runnable (procs s') j ∧ view (procs s' !!! j) = view (procs s !!! j)) ∧
    (runnable (procs s) i →
       if decide (prngd = Some i) then view (procs s' !!! i) = use_tick (view (procs s !!! i))
       else runnable (procs s') i ∧ view (procs s' !!! i) = age (view (procs s !!! i))) ∧
    (∀ j, j ≠ i → queue_ok (procs s !!! j) → queue_ok (procs s' !!! j)) ∧
    (¬ runnable (procs s) i → procs s' !!! i = procs s !!! i) ∧
    (prngd ≠ Some i → ∀ j, j ≠ i → procs s' !!! j = procs s !!! j).
Proof.
  intros Hi Hh Hl. unfold mlfq_visit.
  set (s1 := s <| held := [PLock i] |>).
  assert (procs s1 = procs s) as P1 by done.
  destruct (decide (runnable (procs s) i)) as [Hr|Hr].
  2:{ eexists. split.
      { eapply (locked_section i _ s s1); [done| |done].
        rewrite !decide_False; [done| |]; unfold runnable in Hr; tauto. }
      split_and!; try done. }
  destruct (decide (prngd = Some i)) as [->|Hne].
  - destruct (mlfq_chosen_spec i s1 Hi eq_refl Hl) as (s2 & E & H2 & L2 & V2 & W2 & Q2).
    eexists. split.
    { eapply (locked_section i _ s s2); [done| |done].
      rewrite decide_False by tauto. rewrite decide_True by done. exact E. }
    split_and!; try done. 
  - destruct (mlfq_wait_spec i s1) as (s2 & f & E & O & St & V); [rewrite P1; lia|].
    eexists. split.
    { eapply (locked_section i _ s s2); [done| |apply O].
      rewrite decide_True; [exact E|]. split; [done|congruence]. }
    change (procs (s2 <| held := [] |>)) with (procs s2).
    assert (∀ j, j ≠ i → procs s2 !!! j = procs s !!! j) as Po by (intros; by eapply (only_other _ _ s1)).
    assert (procs s2 !!! i = f (procs s !!! i)) as Pi by (apply (only_self _ _ s1 _ O); rewrite P1; lia).
    split; [done|]. split; [by rewrite (only_length _ _ s1 _ O)|]. unfold runnable. split.
    { intros j Hj Hrj. by rewrite Po. }
    split; [intros _; by rewrite Pi, St|]. split; [|done]. intros j Hj. by rewrite Po.
Qed.

(** All processes are in the four queues, and the table has its size. *)
Definition queues_ok (ps : list proc) : Prop := ∀ j, (j < 64)%nat → queue_ok (ps !!! j).

Lemma use_tick_ok p p' : queue p ≤ 2 → queue_ok p → view p' = use_tick (view p) → queue_ok p'.
Proof.
  unfold queue_ok, view, use_tick. intros Hq Hok. case_decide; intros [= -> _ _]; [|done].
  rewrite s32_small by lia. lia.
Qed.
Lemma age_ok p p' : queue_ok p → view p' = age (view p) → queue_ok p'.
Proof. unfold queue_ok, view, age. intros Hok. case_decide; intros [= -> _ _]; [lia|done]. Qed.

Lemma mlfq_run_spec prngd s :
  held s = [] → length (procs s) = 64%nat →
  ∃ s', mlfq_run swtch_in prngd s = Ret tt s' ∧ held s' = [] ∧ length (procs s') = 64%nat ∧
    (∀ j, (j < 64)%nat → runnable (procs s) j →
       view (procs s' !!! j) =
       if decide (prngd = Some j) then use_tick (view (procs s !!! j)) else age (view (procs s !!! j))) ∧
    (queues_ok (procs s) → (∀ i, prngd = Some i → runnable (procs s) i ∧ queue (procs s !!! i) ≤ 2) →
       queues_ok (procs s')).
Proof.
  intros Hh Hl.
  set (fin j v := if decide (prngd = Some j) then use_tick v else age v).
  set (I := λ (l : list nat) (s' : kst F),
    held s' = [] ∧ length (procs s') = 64%nat ∧ NoDup l ∧ (∀ j, j ∈ l → (j < 64)%nat) ∧
    (∀ j, (j < 64)%nat → runnable (procs s) j →
      if decide (j ∈ l) then runnable (procs s') j ∧ view (procs s' !!! j) = view (procs s !!! j)
      else (prngd ≠ Some j → runnable (procs s') j) ∧
           view (procs s' !!! j) = fin j (view (procs s !!! j))) ∧
    (queues_ok (procs s) → (∀ i, prngd = Some i → runnable (procs s) i ∧ queue (procs s !!! i) ≤ 2) →
       queues_ok (procs s'))).
  assert (wp (mlfq_run swtch_in prngd) (λ _ s', I [] s') s) as Hwp.
  { unfold mlfq_run. apply (wp_for_each I); [| |done].
    - intros i l s1 (H1 & L1 & Hnd & Hin & Hv & Hq). apply NoDup_cons in Hnd as [Hil Hnd].
      assert (i < 64)%nat as Hi by (apply Hin; by left).
      destruct (mlfq_visit_spec prngd i s1 Hi H1 L1) as (s2 & E & H2 & L2 & V & Vi & Q & N & Po).
      eapply wp_intro; [exact E|]. split_and!; try done; [intros j Hj; apply Hin; by right| |].
      + intros j Hj Hr. specialize (Hv j Hj Hr). destruct (decide (j = i)) as [->|Hne].
        * rewrite decide_True in Hv by (by left). destruct Hv as [Hr1 Hv1]. specialize (Vi Hr1).
          rewrite decide_False by done. unfold fin. rewrite <- Hv1. case_decide; [|tauto].
          split; done.
        * destruct (decide (j ∈ l)) as [Hjl|Hjl].
          -- rewrite decide_True in Hv by (by right). destruct Hv as [Hr1 Hv1].
             destruct (V j Hne Hr1) as [Hr2 Hv2]. by rewrite Hv2.
          -- rewrite decide_False in Hv by (intros [?|?]%elem_of_cons; done).
             destruct Hv as [Hr1 Hv1]. destruct (decide (prngd = Some j)) as [Heq|Hnp].
             ++ rewrite Po by (done || congruence). done.
             ++ destruct (V j Hne (Hr1 Hnp)) as [Hr2 Hv2]. rewrite Hv2. tauto.
      + intros Hqs Hp j Hj. pose proof (Hq Hqs Hp) as Hq1.
        destruct (decide (j = i)) as [->|Hne]; [|by apply Q, Hq1].
        destruct (decide (runnable (procs s1) i)) as [Hr1|Hr1]; [|rewrite N by done; by apply Hq1].
        specialize (Vi Hr1). case_decide as Hp1; [|by apply (age_ok (procs s1 !!! i)); [apply Hq1|apply Vi]].
        destruct (Hp i Hp1) as [Hr Hle]. specialize (Hv i Hi Hr).
        rewrite decide_True in Hv by (by left). destruct Hv as [_ Hv1].
        apply (use_tick_ok (procs s1 !!! i)); [|by apply Hq1|done].
        unfold view in Hv1. injection Hv1 as -> _ _. done.
    - split_and!; try done; [apply NoDup_seq|intros j; apply elem_of_table|].
      intros j Hj Hr. rewrite decide_True by (by apply elem_of_table). done. }
  apply wp_elim in Hwp as ([] & s' & E & H' & L' & _ & _ & V' & Q').
  exists s'. split_and!; try done. intros j Hj Hr. specialize (V' j Hj Hr).
  rewrite decide_False in V' by apply not_elem_of_nil. apply V'.
Qed.

(** *** The branch for queue 3 *)

Lemma mlfq_bottom_wait_spec i q s :
  held s = [PLock i] → length (procs s) = 64%nat →
  ∃ s', mlfq_bottom_wait i q s = Ret tt s' ∧ held s' = [PLock i] ∧ length (procs s') = 64%nat ∧
    (∀ j, queue_ok (procs s !!! j) → queue_ok (procs s' !!! j)).
Proof.
  intros Hh Hl. unfold mlfq_bottom_wait. rewrite (bind_eq (get q) _ _ _ _ eq_refl).
  case_decide as Hd; [|by exists s].
  assert (PLock q ∉ held s) as Hq.
  { rewrite Hh. intros [= ->]%list_elem_of_singleton. tauto. }
  rewrite (bind_eq _ _ _ _ _ (acquire_eq s _ Hq)). rewrite Hh.
  set (s1 := s <| held := _ |>). pose proof (only_refl q s1) as O.
  only_step only_set O. rewrite (bind_eq (get q) _ _ _ _ eq_refl).
  assert (∃ s' f, (if 48 <=? wwpqtct (procs s0 !!! q) then boost q else ret tt) s0 = Ret tt s' ∧
    only q f s1 s' ∧ ∀ p, queue_ok p → queue_ok (f p)) as (s' & f & E & O' & Hf).
  { destruct (48 <=? _).
    - destruct (boost_spec q s0) as (s' & n & E & O'). eexists _, _. split; [done|].
      split; [by eapply only_trans|]. intros p _. unfold queue_ok. simpl. lia.
    - eexists _, _. split; [done|]. split; [done|]. done. }
  rewrite (bind_eq _ _ _ _ _ E). eexists. split.
  { apply (release_eq _ _ [PLock i]); [|apply O']. intros [= ->]%list_elem_of_singleton. tauto. }
  split; [done|]. change (procs (s' <| held := [PLock i] |>)) with (procs s').
  split; [by rewrite (only_length _ _ _ _ O')|]. intros j Hj.
  destruct (decide (j = q)) as [->|]; [|by rewrite (only_other _ _ _ _ _ O')].
  destruct (decide (q < 64)%nat) as [Hlt|Hge].
  - rewrite (only_self _ _ _ _ O') by (change (procs s1) with (procs s); lia). by apply Hf.
  - destruct O' as [_ P]. rewrite P. change (procs s1) with (procs s).
    rewrite list_lookup_total_alter. case_decide; [lia|done].
Qed.

Lemma mlfq_bottom_spec s :
  held s = [] → length (procs s) = 64%nat →
  ∃ s', mlfq_bottom swtch_in s = Ret tt s' ∧ held s' = [] ∧ length (procs s') = 64%nat ∧
    (queues_ok (procs s) → queues_ok (procs s')).
Proof.
  intros Hh Hl.
  set (I := λ (l : list nat) (s' : kst F), held s' = [] ∧ length (procs s') = 64%nat ∧
    (∀ j, j ∈ l → (j < 64)%nat) ∧ (queues_ok (procs s) → queues_ok (procs s'))).
  assert (wp (mlfq_bottom swtch_in) (λ _ s', I [] s') s) as Hwp.
  { apply (wp_for_each I); [| |done].
    2:{ split_and!; try done. intros j. apply elem_of_table. }
    intros i l s1 (H1 & L1 & Hin & Hq).
    assert (i < 64)%nat as Hi by (apply Hin; by left).
    assert (∀ j, j ∈ l → (j < 64)%nat) as Hin' by (intros j Hj; apply Hin; by right).
    destruct (decide (state (procs s1 !!! i) = RUNNABLE)) as [Hr|Hr].
    2:{ eapply wp_intro; [eapply (locked_section i); [done| |]|].
        - rewrite decide_False by done. done.
        - done.
        - done. }
    set (s1' := s1 <| held := [PLock i] |>).
    destruct (dispatch_spec i s1' Hi eq_refl L1)
      as (s2 & E2 & H2 & L2 & _ & _ & Q2).
    set (J := λ (l : list nat) (s' : kst F), held s' = [PLock i] ∧ length (procs s') = 64%nat ∧
      ∀ j, queue_ok (procs s2 !!! j) → queue_ok (procs s' !!! j)).
    assert (wp (for_each table (mlfq_bottom_wait i)) (λ _ s', J [] s') s2) as Hw.
    { apply (wp_for_each J); [|done|done]. intros q l' s3 (H3 & L3 & Q3).
      destruct (mlfq_bottom_wait_spec i q s3 H3 L3) as (s4 & E4 & H4 & L4 & Q4).
      eapply wp_intro; [exact E4|]. split_and!; auto. }
    apply wp_elim in Hw as ([] & s3 & E3 & H3 & L3 & Q3).
    eapply wp_intro; [eapply (locked_section i _ s1 s3); [done| |done]|].
    - rewrite decide_True by done. by rewrite (bind_eq _ _ _ _ _ E2).
    - split_and!; try done. intros Hqs j Hj. apply Q3, Q2. by apply Hq. }
  apply wp_elim in Hwp as ([] & s' & E & H' & L' & _ & Q'). by exists s'.
Qed.
End effect.

(** ** MLFQ: who runs *)

Section runs.
Context {F : Type}.
Implicit Types s : kst F.

(** [m] leaves [mycpu()->proc] alone. *)
Definition keeps_cur {A} (m : M (kst F) A) : Prop := ∀ s a s', m s = Ret a s' → cur s' = cur s.

Lemma keeps_cur_bind {A B} (m : M (kst F) A) (k : A → M (kst F) B) :
  keeps_cur m → (∀ a, keeps_cur (k a)) → keeps_cur (bind m k).
Proof. intros Hm Hk s b s' (a & s1 & E1 & E2)%bind_Ret. rewrite (Hk _ _ _ _ E2). by eapply Hm. Qed.

Lemma keeps_cur_each {A} (l : list A) (body : A → M (kst F) unit) :
  (∀ x, x ∈ l → keeps_cur (body x)) → keeps_cur (for_each l body).
Proof.
  induction l as [|x l IH]; intros H; [by intros s a s' [= _ <-]|]. apply keeps_cur_bind; [apply H; by left|].
  intros _. apply IH. intros y Hy. apply H. by right.
Qed.

Lemma keeps_cur_ret {A} (a : A) : keeps_cur (ret a).
Proof. intros s b s' E. by injection E as _ <-. Qed.
Lemma keeps_cur_gets {A} (f : kst F → A) : keeps_cur (gets f).
Proof. intros s b s' E. by injection E as _ <-. Qed.
Lemma keeps_cur_modify (f : kst F → kst F) : (∀ s, cur (f s) = cur s) → keeps_cur (modify f).
Proof. intros Hf s b s' E. injection E as _ <-. apply Hf. Qed.

Ltac keeps :=
  unfold mlfq_wait, boost, demote, take_number, log_user, log_process_queue, add_npnq, add_roqd, get, set;
  repeat first
    [ apply keeps_cur_bind; [|intros ?] | apply keeps_cur_ret | apply keeps_cur_gets
    | apply keeps_cur_modify; intros ?; by repeat case_match | case_match ].

Lemma acquire_keeps l : keeps_cur (acquire l).
Proof. intros s a s' E. unfold acquire, acquire_lk, modify in E. case_match; [done|]. by injection E as _ <-. Qed.
Lemma release_keeps l : keeps_cur (release l).
Proof. intros s a s' E. unfold release, release_lk, modify in E. case_match; [|done]. by injection E as _ <-. Qed.
#[local] Hint Resolve acquire_keeps release_keeps : core.

Definition no_swtch : nat → M (kst F) unit := λ _, ret tt.
Lemma no_swtch_ok : swtch_ok no_swtch.
Proof. intros i s Hi Hh Hl. by exists s. Qed.

Lemma mlfq_visit_keeps sw prngd j : prngd ≠ Some j → keeps_cur (mlfq_visit sw prngd j).
Proof.
  intros Hn. unfold mlfq_visit. apply keeps_cur_bind; [done|]. intros _. apply keeps_cur_bind; [keeps|]. intros p.
  apply keeps_cur_bind; [|done]. rewrite (decide_False (P := _ ∧ Some j = prngd)) by (intros [_ ?]; done). case_decide; keeps.
Qed.

(** The code of the round after [swtch] came back from process [i]. *)
Definition after_swtch (i : nat) : M (kst F) unit :=
  do! set_cur None in
  do! set i (λ p, p <| pqtct := s32 (pqtct p + 1) |>) in
  do! log_user i in
  let! p := get i in
  do! (if decide (tick_slc !!! Z.to_nat (queue p) ≤ pqtct p ∧ queue p ≠ 4) then demote i else ret tt) in
  do! set i (λ p, p <| wwpqtct := 0 |>) in
  do! release (PLock i) in
  for_each (seq (S i) (63 - i)) (mlfq_visit no_swtch (Some i)).

Lemma after_swtch_cur i s s' : after_swtch i s = Ret tt s' → cur s' = None.
Proof.
  unfold after_swtch. intros ([] & s1 & [= <-] & E)%bind_Ret. revert E.
  match goal with |- ?m _ = _ → _ => assert (keeps_cur m) as Hk end; [|intros E; by apply Hk in E].
  apply keeps_cur_bind; [keeps|intros _]. apply keeps_cur_bind; [keeps|intros _]. apply keeps_cur_bind; [keeps|intros p].
  apply keeps_cur_bind; [case_decide; keeps|intros _]. apply keeps_cur_bind; [keeps|intros _]. apply keeps_cur_bind; [done|intros _].
  apply keeps_cur_each. intros j Hj%elem_of_seq. apply mlfq_visit_keeps. intros [= ->]. lia.
Qed.

Lemma mlfq_visit_switches i s :
  held s = [] → runnable (procs s) i → (i < length (procs s))%nat →
  ∃ sa, held sa = [PLock i] ∧ cur sa = Some i ∧ procs sa !!! i = (procs s !!! i) <| state := RUNNING |> ∧
    ∀ sw, (do! mlfq_visit sw (Some i) i in for_each (seq (S i) (63 - i)) (mlfq_visit sw (Some i))) s =
          (do! sw i in after_swtch i) sa.
Proof.
  intros Hh Hr Hl.
  exists (((s <| held := [PLock i] |>) <| procs := alter (λ p, p <| state := RUNNING |>) i (procs s) |>) <| cur := Some i |>).
  split; [done|]. split; [done|]. split; [by apply lookup_total_alter|]. intros sw.
  unfold mlfq_visit at 1. rewrite ?bind_assoc.
  erewrite bind_eq by (apply acquire_eq; rewrite Hh; apply not_elem_of_nil). rewrite Hh, ?bind_assoc.
  rewrite (bind_eq (get i) _ _ _ _ eq_refl), ?bind_assoc.
  change (procs (s <| held := [PLock i] |>)) with (procs s). unfold runnable in Hr.
  rewrite decide_False by tauto. rewrite decide_True by done.
  unfold mlfq_chosen, dispatch. rewrite ?bind_assoc.
  erewrite (bind_eq (set i _)) by reflexivity. rewrite ?bind_assoc.
  erewrite (bind_eq (set_cur _)) by reflexivity. rewrite ?bind_assoc.
  apply bind_ext. intros [] sb. unfold after_swtch. rewrite ?bind_assoc. apply bind_ext. intros [] s1.
  rewrite ?bind_assoc. apply bind_ext. intros [] s2. rewrite ?bind_assoc. apply bind_ext. intros [] s3.
  rewrite ?bind_assoc. apply bind_ext. intros p s4. rewrite ?bind_assoc. apply bind_ext. intros [] s5.
  rewrite ?bind_assoc. apply bind_ext. intros [] s6. apply bind_ext. intros [] s7.
  apply mlfq_visits_other. intros j Hj%elem_of_seq [= ->]. lia.
Qed.

(** Before its turn the chosen process stays as it was. *)
Lemma mlfq_visits_before i l s :
  i ∉ l → (∀ j, j ∈ l → (j < 64)%nat) → held s = [] → length (procs s) = 64%nat →
  ∃ s1, (∀ sw, for_each l (mlfq_visit sw (Some i)) s = Ret tt s1) ∧ held s1 = [] ∧ length (procs s1) = 64%nat ∧
    state (procs s1 !!! i) = state (procs s !!! i).
Proof.
  revert s. induction l as [|j l IH]; intros s Hi Hl Hh Hn; [by exists s|]. apply not_elem_of_cons in Hi as [Hij Hi].
  destruct (mlfq_visit_spec no_swtch no_swtch_ok (Some i) j s) as (s1 & E & H1 & L1 & _ & _ & _ & _ & Ho); [apply Hl; by left|done..|].
  assert (Some i ≠ Some j) as Hij' by congruence.
  destruct (IH s1 Hi ltac:(intros; apply Hl; by right) H1 L1) as (s2 & E2 & H2 & L2 & S2).
  exists s2. split_and!; try done; [|by rewrite S2, Ho].
  intros sw. simpl. rewrite (bind_eq _ _ s tt s1); [apply E2|]. by rewrite (mlfq_visit_other sw no_swtch).
Qed.

(** The loop switches to the chosen process, once, and to no other. *)
Lemma mlfq_run_switches i s :
  (i < 64)%nat → held s = [] → length (procs s) = 64%nat → runnable (procs s) i →
  ∃ sa, held sa = [PLock i] ∧ cur sa = Some i ∧ state (procs sa !!! i) = RUNNING ∧
    ∀ sw, mlfq_run sw (Some i) s = (do! sw i in after_swtch i) sa.
Proof.
  intros Hi Hh Hl Hr.
  destruct (mlfq_visits_before i (seq 0 i) s) as (s1 & E1 & H1 & L1 & S1); [rewrite elem_of_seq; lia|intros j Hj%elem_of_seq; lia|done..|].
  destruct (mlfq_visit_switches i s1 H1) as (sa & Ha & Hc & Hs & Hsw); [by unfold runnable; rewrite S1|lia|].
  exists sa. split_and!; [done|done|by rewrite Hs|]. intros sw. rewrite <- Hsw. unfold mlfq_run, table.
  replace 64%nat with (i + S (63 - i))%nat by lia. rewrite seq_app, for_each_app. by rewrite (bind_eq _ _ _ _ _ (E1 sw)).
Qed.

Lemma mlfq_run_none s :
  held s = [] → length (procs s) = 64%nat → ∃ s', ∀ sw, mlfq_run sw None s = Ret tt s'.
Proof.
  intros Hh Hl. destruct (mlfq_run_spec no_swtch no_swtch_ok None s Hh Hl) as (s' & E & _).
  exists s'. intros sw. rewrite <- E. by apply mlfq_visits_other.
Qed.

Lemma mlfq_run_keeps sw s s' : mlfq_run sw None s = Ret tt s' → cur s' = cur s.
Proof. apply keeps_cur_each. intros j _. by apply mlfq_visit_keeps. Qed.
End runs.
