(* ===== verification/SchedThms.v ===== *)
(** * Theorems about the scheduling policies *)

From S2P Require Import Prelude.
From S2P Require Import Machine.
From S2P Require Import Spinlock.
From S2P Require Import Kalloc.
From S2P Require Import Proc.
From S2P Require Import Sched.
From S2P Require Import SchedSpec.
#[local] Open Scope Z_scope.

(** ** Round robin *)

Section rr.
Context {F : Type}.
Implicit Types s : kst F.
Variable swtch_in : nat → M (kst F) unit.

(** One process's turn. *)
Definition turn (i : nat) : M (kst F) unit :=
  do! acquire (PLock i) in do! dispatch swtch_in i in release (PLock i).

Lemma turn_spec i s :
  swtch_ok swtch_in → (i < 64)%nat → held s = [] → length (procs s) = 64%nat →
  ∃ s', turn i s = Ret tt s' ∧ held s' = [] ∧ length (procs s') = 64%nat ∧
    ∀ j, j ≠ i → runnable (procs s) j → runnable (procs s') j.
Proof.
  intros Hsw Hi Hh Hl. unfold turn.
  erewrite bind_eq by (apply acquire_eq; rewrite Hh; apply not_elem_of_nil). rewrite Hh.
  set (s1 := s <| held := [PLock i] |>).
  destruct (dispatch_spec swtch_in Hsw i s1 Hi eq_refl Hl) as (s2 & E & H2 & L2 & _ & W2 & _).
  rewrite (bind_eq _ _ _ _ _ E). eexists. split.
  { apply (release_eq _ _ []); [apply not_elem_of_nil|done]. }
  split; [done|]. split; [done|]. intros j Hj Hr. by apply W2.
Qed.

Lemma rr_loop_spec l s :
  swtch_ok swtch_in → NoDup l → (∀ i, i ∈ l → (i < 64)%nat) → held s = [] → length (procs s) = 64%nat →
  ∃ runs s', for_each l (λ i,
      do! acquire (PLock i) in
      let! p := get i in
      do! (if decide (state p = RUNNABLE) then dispatch swtch_in i else ret tt) in
      release (PLock i)) s = Ret tt s' ∧ for_each runs turn s = Ret tt s' ∧
    runs `sublist_of` l ∧ (∀ j, j ∈ l → runnable (procs s) j → j ∈ runs) ∧ held s' = [].
Proof.
  intros Hsw. revert s. induction l as [|i l IH]; intros s Hnd Hin Hh Hl.
  { exists [], s. by split_and!; try done; intros j Hj%elem_of_nil. }
  apply NoDup_cons in Hnd as [Hil Hnd].
  assert (∀ j, j ∈ l → (j < 64)%nat) as Hin' by (intros j Hj; apply Hin; by right).
  simpl. destruct (decide (state (procs s !!! i) = RUNNABLE)) as [Hr|Hr].
  - destruct (turn_spec i s Hsw) as (s1 & E1 & H1 & L1 & R1); [apply Hin; by left|done|done|].
    destruct (IH s1 Hnd Hin' H1 L1) as (runs & s' & E & Er & Hsub & Hall & H').
    exists (i :: runs), s'. split; [|split; [|split; [|split]]].
    + erewrite bind_eq; [exact E|]. rewrite <- E1. unfold turn, bind, get, gets.
      assert (acquire (PLock i) s = Ret tt (s <| held := [PLock i] |>)) as ->.
      { rewrite acquire_eq; rewrite Hh; [done|apply not_elem_of_nil]. }
      change (procs (s <| held := [PLock i] |>)) with (procs s). by rewrite decide_True.
    + simpl. by rewrite (bind_eq _ _ _ _ _ E1).
    + by constructor.
    + intros j [->|Hj]%elem_of_cons Hrj; [by left|right]. apply Hall; [done|].
      apply R1; [|done]. intros ->. done.
    + done.
  - destruct (IH s Hnd Hin' Hh Hl) as (runs & s' & E & Er & Hsub & Hall & H').
    exists runs, s'. split; [|split; [done|split; [by constructor|split; [|done]]]].
    + erewrite bind_eq; [exact E|].
      erewrite (locked_section i (λ p, if decide (state p = RUNNABLE) then dispatch swtch_in i else ret tt));
        [by rewrite held_id|done| |].
      * rewrite decide_False by done. reflexivity.
      * done.
    + intros j [->|Hj]%elem_of_cons Hrj; [done|]. by apply Hall.
Qed.
End rr.

(** ** The lottery *)

Section lottery.
Context {F : Type}.
Implicit Types (s : kst F) (ps : list proc).

(** The tickets of the runnable processes of [l]. *)
Definition tickets_of (ps : list proc) (j : nat) : Z :=
  if decide (runnable ps j) then tickets (ps !!! j) else 0.
Fixpoint total (ps : list proc) (l : list nat) : Z :=
  match l with [] => 0 | i :: l' => tickets_of ps i + total ps l' end.

(** The owner of ticket number [r] when tickets are numbered in table order. *)
Fixpoint owner (ps : list proc) (l : list nat) (r : Z) : option nat :=
  match l with
  | [] => None
  | i :: l' => if r <? tickets_of ps i then Some i else owner ps l' (r - tickets_of ps i)
  end.

(** Runnable processes have at least one ticket, as [allocproc], [fork] and
    [sys_settickets] ensure, and the total fits an [int]. *)
Definition tickets_ok (ps : list proc) (l : list nat) : Prop :=
  (∀ i, i ∈ l → runnable ps i → 1 ≤ tickets (ps !!! i)) ∧ total ps l < 2 ^ 31.

Lemma tickets_of_nonneg ps l i : tickets_ok ps l → i ∈ l → 0 ≤ tickets_of ps i.
Proof. intros [H _] Hi. unfold tickets_of. case_decide as Hr; [|lia]. specialize (H i Hi Hr). lia. Qed.

Lemma total_nonneg ps l : tickets_ok ps l → 0 ≤ total ps l.
Proof.
  intros [H _]. induction l as [|i l IH]; simpl; [lia|].
  assert (0 ≤ tickets_of ps i).
  { unfold tickets_of. case_decide as Hr; [|lia]. specialize (H i ltac:(by left) Hr). lia. }
  assert (0 ≤ total ps l); [|lia]. apply IH. intros j Hj. apply H. by right.
Qed.

Lemma tickets_ok_tail ps i l : tickets_ok ps (i :: l) → tickets_ok ps l.
Proof.
  intros H. pose proof (tickets_of_nonneg ps _ i H ltac:(by left)). destruct H as [H1 H2].
  split; [intros j Hj; apply H1; by right|simpl in H2; lia].
Qed.

Lemma lbs_total_loop l b s :
  tickets_ok (procs s) l → 0 ≤ b → b + total (procs s) l < 2 ^ 31 →
  for_fold l (λ sum i, let! p := get i in
    ret (if decide (state p = RUNNABLE) then s32 (sum + tickets p) else sum)) b s =
  Ret (b + total (procs s) l) s.
Proof.
  revert b. induction l as [|i l IH]; intros b Hok Hb Hmax; simpl; [by rewrite Z.add_0_r|].
  simpl in Hmax. pose proof (tickets_of_nonneg _ _ i Hok ltac:(by left)) as Hi.
  pose proof (tickets_ok_tail _ _ _ Hok) as Hok'. pose proof (total_nonneg _ _ Hok').
  unfold bind at 1 2, get, gets, ret.
  replace (if decide (state (procs s !!! i) = RUNNABLE) then _ else b)
    with (b + tickets_of (procs s) i).
  2:{ unfold tickets_of, runnable in *.
      destruct (decide (state (procs s !!! i) = RUNNABLE)); [|lia]. rewrite s32_small; lia. }
  rewrite IH; [f_equal; lia|done|lia|lia].
Qed.

Lemma lbs_total_eq s :
  tickets_ok (procs s) table → lbs_total s = Ret (total (procs s) table) s.
Proof. intros H. pose proof (proj2 H). by apply (lbs_total_loop table 0). Qed.

Lemma lbs_select_eq l r s :
  held s = [] → tickets_ok (procs s) l → 0 ≤ r < 2 ^ 31 →
  lbs_select l r None s =
  Ret (owner (procs s) l r)
      (match owner (procs s) l r with Some w => s <| held := [PLock w] |> | None => s end).
Proof.
  intros Hh. revert r. induction l as [|i l IH]; intros r Hok Hr; simpl; [done|].
  pose proof (tickets_of_nonneg _ _ i Hok ltac:(by left)) as Hi.
  pose proof (tickets_ok_tail _ _ _ Hok) as Hok'.
  erewrite bind_eq by (apply acquire_eq; rewrite Hh; apply not_elem_of_nil). rewrite Hh.
  rewrite (bind_eq (get i) _ _ _ _ eq_refl).
  change (procs (s <| held := [PLock i] |>)) with (procs s).
  assert (release (PLock i) (s <| held := [PLock i] |>) = Ret tt s) as Er.
  { rewrite (release_eq _ _ []) by (done || apply not_elem_of_nil). by rewrite held_id. }
  unfold tickets_of, runnable in *. destruct (decide (state (procs s !!! i) = RUNNABLE)) as [Hrun|Hrun].
  - destruct (Z.ltb_spec r (tickets (procs s !!! i))) as [Hlt|Hge]; [done|].
    rewrite (bind_eq _ _ _ _ _ Er). rewrite s32_small by lia. apply IH; [done|lia].
  - destruct (Z.ltb_spec r 0); [lia|]. rewrite (bind_eq _ _ _ _ _ Er).
    rewrite Z.sub_0_r. apply IH; [done|lia].
Qed.

Lemma owner_spec ps l r :
  tickets_ok ps l → 0 ≤ r < total ps l →
  ∃ w, owner ps l r = Some w ∧ w ∈ l ∧ runnable ps w.
Proof.
  revert r. induction l as [|i l IH]; intros r Hok Hr; simpl in *; [lia|].
  pose proof (tickets_of_nonneg _ _ i Hok ltac:(by left)) as Hi.
  destruct (Z.ltb_spec r (tickets_of ps i)) as [Hlt|Hge].
  - exists i. split; [done|]. split; [by left|]. unfold tickets_of in Hlt.
    case_decide; [done|lia].
  - destruct (IH (r - tickets_of ps i)) as (w & E & Hw & Hrun);
      [by eapply tickets_ok_tail|lia|].
    exists w. split; [done|]. split; [by right|done].
Qed.

Lemma owner_elem ps l r w : owner ps l r = Some w → w ∈ l.
Proof.
  revert r. induction l as [|i l IH]; intros r; simpl; [done|].
  destruct (r <? _); [intros [= ->]; by left|]. intros E. right. by eapply IH.
Qed.

(** How many of the ticket numbers below [total] belong to [i]. *)
Definition share (f : Z → option nat) (n : Z) (i : nat) : nat :=
  length (filter (λ r, f r = Some i) (seqZ 0 n)).

Lemma filter_seqZ_shift (f : Z → option nat) i m n :
  length (filter (λ r, f r = Some i) (seqZ m n)) =
  length (filter (λ r, f (r + m) = Some i) (seqZ 0 n)).
Proof.
  replace (seqZ m n) with (Z.add m <$> seqZ 0 n) by (by rewrite fmap_add_seqZ, Z.add_0_r).
  induction (seqZ 0 n) as [|r l IH]; [done|]. rewrite fmap_cons, !filter_cons.
  replace (Z.add m r) with (r + m) by lia. case_decide; simpl; by rewrite IH.
Qed.

Lemma share_owner ps l i :
  NoDup l → tickets_ok ps l →
  share (owner ps l) (total ps l) i = if decide (i ∈ l) then Z.to_nat (tickets_of ps i) else 0%nat.
Proof.
  induction l as [|k l IH]; intros Hnd Hok; [done|]. apply NoDup_cons in Hnd as [Hkl Hnd].
  pose proof (tickets_of_nonneg _ _ k Hok ltac:(by left)) as Hk.
  pose proof (tickets_ok_tail _ _ _ Hok) as Hok'. pose proof (total_nonneg _ _ Hok').
  unfold share in *. cbn [total]. rewrite seqZ_app, filter_app, length_app by lia.
  rewrite Z.add_0_l, (filter_seqZ_shift _ _ (tickets_of ps k)).
  assert (filter (λ r, owner ps (k :: l) (r + tickets_of ps k) = Some i) (seqZ 0 (total ps l)) =
          filter (λ r, owner ps l r = Some i) (seqZ 0 (total ps l))) as ->.
  { apply filter_agree. intros r Hr%elem_of_seqZ. simpl.
    destruct (Z.ltb_spec (r + tickets_of ps k) (tickets_of ps k)); [lia|].
    by replace (r + tickets_of ps k - tickets_of ps k) with r by lia. }
  rewrite IH by done.
  assert (filter (λ r, owner ps (k :: l) r = Some i) (seqZ 0 (tickets_of ps k)) =
          filter (λ _, k = i) (seqZ 0 (tickets_of ps k))) as ->.
  { apply filter_agree. intros r Hr%elem_of_seqZ. simpl.
    destruct (Z.ltb_spec r (tickets_of ps k)); [split; congruence|lia]. }
  destruct (decide (k = i)) as [->|Hne].
  - rewrite list_filter_all by done. rewrite length_seqZ.
    rewrite decide_False by done. rewrite decide_True by (by left). lia.
  - rewrite filter_nothing by done. destruct (decide (i ∈ l)).
    + rewrite decide_True by (by right). done.
    + rewrite decide_False by (intros [?|?]%elem_of_cons; congruence). done.
Qed.

Lemma share_agree f g n i : (∀ r, 0 ≤ r < n → f r = g r) → share f n i = share g n i.
Proof.
  intros H. unfold share. f_equal. apply filter_agree. intros r Hr%elem_of_seqZ. by rewrite H by lia.
Qed.

Lemma total_pos ps l j : tickets_ok ps l → j ∈ l → runnable ps j → 0 < total ps l.
Proof.
  intros Hok Hj Hr. induction l as [|k l IH]; [by apply elem_of_nil in Hj|]. simpl.
  pose proof (tickets_of_nonneg _ _ k Hok ltac:(by left)).
  pose proof (total_nonneg _ _ (tickets_ok_tail _ _ _ Hok)).
  apply elem_of_cons in Hj as [->|Hj].
  - unfold tickets_of. rewrite decide_True by done. destruct Hok as [Hok _].
    specialize (Hok k ltac:(by left) Hr). lia.
  - specialize (IH (tickets_ok_tail _ _ _ Hok) Hj). lia.
Qed.

(** [xorshift] stays in 64 bits, so [rg] is the remainder. *)
Lemma lxor_range a b : 0 ≤ a < 2 ^ 64 → 0 ≤ b < 2 ^ 64 → 0 ≤ Z.lxor a b < 2 ^ 64.
Proof.
  intros Ha Hb. split; [apply Z.lxor_nonneg; lia|].
  destruct (decide (Z.lxor a b = 0)) as [->|Hne]; [lia|].
  assert (0 ≤ Z.lxor a b) by (apply Z.lxor_nonneg; lia).
  apply Z.log2_lt_pow2; [lia|].
  eapply Z.le_lt_trans; [apply Z.log2_lxor; lia|]. apply Z.max_lub_lt.
  - destruct (decide (a = 0)) as [->|]; [done|]. apply Z.log2_lt_pow2; lia.
  - destruct (decide (b = 0)) as [->|]; [done|]. apply Z.log2_lt_pow2; lia.
Qed.

Lemma xorshift_range x : 0 ≤ x < 2 ^ 64 → 0 ≤ xorshift x < 2 ^ 64.
Proof.
  intros Hx. unfold xorshift. apply lxor_range; [|apply u64_range].
  assert (0 ≤ Z.lxor x (u64 (Z.shiftl x 13)) < 2 ^ 64) as Hy
    by (apply lxor_range; [done|apply u64_range]).
  apply lxor_range; [done|]. rewrite Z.shiftr_div_pow2 by lia.
  split; [apply Z.div_pos; lia|]. apply Z.div_lt_upper_bound; lia.
Qed.

Lemma rg_eq r s :
  0 ≤ ticks s < 2 ^ 32 → 0 < r < 2 ^ 31 →
  rg 0 r s = Ret (xorshift (ticks s) mod r) s.
Proof.
  intros Ht Hr. unfold rg, gets. f_equal. rewrite Z.sub_0_r.
  pose proof (xorshift_range (ticks s) ltac:(lia)) as Hx.
  rewrite (s32_small r), (u64_small r) by lia. unfold remu.
  destruct (Z.eqb_spec r 0); [lia|]. change (u64 0) with 0. rewrite Z.add_0_r.
  pose proof (Z.mod_pos_bound (xorshift (ticks s)) r ltac:(lia)).
  generalize dependent (xorshift (ticks s) mod r). intros y Hy.
  rewrite u64_small, s32_small by lia. done.
Qed.
End lottery.

(** ** Properties *)

Section properties.
Context {F : Type}.
Implicit Types s : kst F.

(** C1: An MLFQ round with a runnable process above the bottom queue runs the
    right process and does the accounting. It picks the head of the highest
    non-empty queue (least [qnumber], then table order), or none if every
    candidate's [qnumber] has reached [refmin1]. It switches to the process
    picked exactly once, as the current process, RUNNING, with its lock and no
    other held, and to no other process: whatever [swtch] does, the round is
    one call of it between a fixed state and a fixed continuation; with none
    picked it calls it never. If processes come back from [swtch] with their
    lock and leave the scheduling fields alone, then the round ends with all
    locks released and no current process, the process that ran has used one
    tick of its slice of 1, 4 or 8 and drops one queue at the end of it, and
    every other runnable process has waited one more round and is moved to
    queue 0 at 48. *)
Theorem mlfq_round_correct s :
  held s = [] → length (procs s) = 64%nat → queues_ok (procs s) →
  (∃ j, (j < 64)%nat ∧ runnable (procs s) j ∧ queue (procs s !!! j) ≤ 2) →
  ∃ w,
    match w with
    | Some i => mlfq_first (procs s) i ∧ qnumber (procs s !!! i) < refmin1 ∧
        ∃ sa back, held sa = [PLock i] ∧ cur sa = Some i ∧ state (procs sa !!! i) = RUNNING ∧
          ∀ swtch_in, mlfq_round swtch_in s = (do! swtch_in i in back) sa
    | None =>
        (∀ j, (j < 64)%nat → runnable (procs s) j →
           (∀ k, (k < 64)%nat → runnable (procs s) k → queue (procs s !!! j) ≤ queue (procs s !!! k)) →
           refmin1 ≤ qnumber (procs s !!! j)) ∧
        ∃ s', ∀ swtch_in, mlfq_round swtch_in s = Ret tt s'
    end ∧
    ∀ swtch_in, swtch_ok swtch_in →
      ∃ s', mlfq_round swtch_in s = Ret tt s' ∧ held s' = [] ∧ (w ≠ None → cur s' = None) ∧ queues_ok (procs s') ∧
        ∀ j, (j < 64)%nat → runnable (procs s) j →
          view (procs s' !!! j) =
          if decide (w = Some j) then use_tick (view (procs s !!! j)) else age (view (procs s !!! j)).
Proof.
  intros Hh Hl Hq (j0 & Hj0 & Hr0 & Hq0). set (s1 := s <| random_ct := s32 (random_ct s + 1) |>).
  destruct (mlfq_choice_spec s1 Hh) as (qm & b & E1 & E2 & _ & Hmin & Hb).
  change (procs s1) with (procs s) in *. pose proof (Hmin j0 Hj0 Hr0) as Hqm.
  assert (∀ sw, mlfq_round sw s = mlfq_run sw b.1 s1) as Er.
  { intros sw. unfold mlfq_round. rewrite (bind_eq (modify _) _ _ _ _ eq_refl). fold s1.
    rewrite (bind_eq _ _ _ _ _ E1). destruct (Z.eqb_spec qm 3); [lia|]. by rewrite (bind_eq _ _ _ _ _ E2). }
  exists b.1. split.
  - destruct b.1 as [i|].
    + destruct Hb as (Hf & _ & Hn). split_and!; [done|done|].
      destruct (mlfq_run_switches i s1 (proj1 Hf) Hh Hl (proj1 (proj2 Hf))) as (sa & Ha & Hc & Hs & Hsw).
      exists sa, (after_swtch i). split_and!; [done..|]. intros sw. by rewrite Er.
    + split; [|destruct (mlfq_run_none s1 Hh Hl) as [s' Hs]; exists s'; intros sw; by rewrite Er].
      intros j Hj Hr Hall. apply Hb; [done|done|].
      specialize (Hmin j Hj Hr). destruct (mlfq_qm_attained s1 qm j Hh E1 Hj Hr)
        as (k & Hk & Hrk & Hqk); [by destruct (Hq j Hj)|].
      specialize (Hall k Hk Hrk). change (procs s1) with (procs s) in *. lia.
  - intros sw Hsw. destruct (mlfq_run_spec sw Hsw b.1 s1 Hh Hl) as (s' & E & H' & L' & V & Q).
    exists s'. rewrite Er. split_and!; [done|done| | |done].
    + destruct b.1 as [i|]; [|done]. intros _. destruct Hb as (Hf & _).
      destruct (mlfq_run_switches i s1 (proj1 Hf) Hh Hl (proj1 (proj2 Hf))) as (sa & _ & _ & _ & Ea).
      rewrite Ea in E. apply bind_Ret in E as ([] & sb & _ & E). by eapply after_swtch_cur.
    + apply Q; [done|]. intros i Ei. rewrite Ei in Hb. destruct Hb as ((_ & Hr & _) & Hbq & _).
      split; [done|]. change (procs s1) with (procs s). lia.
Qed.

(** C33: Every MLFQ round, whichever branch it takes, keeps every process in
    the queues 0 to 3 (so [tick_slc], [npnq] and [roqd] are never indexed out
    of bounds) and returns with no lock held. *)
Theorem mlfq_round_queues swtch_in s :
  swtch_ok swtch_in → held s = [] → length (procs s) = 64%nat → queues_ok (procs s) →
  ∃ s', mlfq_round swtch_in s = Ret tt s' ∧ held s' = [] ∧ length (procs s') = 64%nat ∧
    queues_ok (procs s').
Proof.
  intros Hsw Hh Hl Hq. unfold mlfq_round.
  rewrite (bind_eq (modify _) _ _ _ _ eq_refl). set (s1 := s <| random_ct := _ |>).
  destruct (mlfq_choice_spec s1 Hh) as (qm & b & E1 & E2 & H4 & Hmin & Hb).
  change (procs s1) with (procs s) in *.
  rewrite (bind_eq _ _ _ _ _ E1). destruct (Z.eqb_spec qm 3).
  - destruct (mlfq_bottom_spec swtch_in Hsw s1 Hh Hl) as (s' & E & H' & L' & Q).
    exists s'. split_and!; try done. by apply Q.
  - rewrite (bind_eq _ _ _ _ _ E2).
    destruct (mlfq_run_spec swtch_in Hsw b.1 s1 Hh Hl) as (s' & E & H' & L' & V & Q).
    exists s'. split_and!; try done. apply Q; [done|]. intros i Ei. rewrite Ei in Hb.
    destruct Hb as ((Hi & Hr & _) & Hbq & _). change (procs s1) with (procs s) in *.
    split; [done|]. destruct (Hq i Hi). lia.
Qed.

(** C39: MLFQ stops scheduling once the queue numbers reach [refmin1]. If the
    highest non-empty queue is above the bottom one and its runnable processes
    all have [qnumber >= 1000000], a round returns without switching to any
    process, also when processes of the other queues are ready to run: its
    result does not depend on what [swtch] would do, and the CPU's current
    process stays what it was. *)
Theorem mlfq_refmin1_starvation s :
  held s = [] → length (procs s) = 64%nat →
  (∃ j, (j < 64)%nat ∧ runnable (procs s) j ∧ queue (procs s !!! j) ≤ 2) →
  (∀ j, (j < 64)%nat → runnable (procs s) j →
     (∀ k, (k < 64)%nat → runnable (procs s) k → queue (procs s !!! j) ≤ queue (procs s !!! k)) →
     refmin1 ≤ qnumber (procs s !!! j)) →
  ∃ s', (∀ swtch_in, mlfq_round swtch_in s = Ret tt s') ∧ cur s' = cur s ∧
    ∀ j, (j < 64)%nat → runnable (procs s) j → view (procs s' !!! j) = age (view (procs s !!! j)).
Proof.
  intros Hh Hl (j0 & Hj0 & Hr0 & Hq0) Hall. set (s1 := s <| random_ct := s32 (random_ct s + 1) |>).
  destruct (mlfq_choice_spec s1 Hh) as (qm & b & E1 & E2 & _ & Hmin & Hb).
  change (procs s1) with (procs s) in *. pose proof (Hmin j0 Hj0 Hr0).
  destruct b.1 as [i|] eqn:Eb.
  { exfalso. destruct Hb as ((Hi & Hr & Hf) & _ & Hlt). enough (refmin1 ≤ qnumber (procs s !!! i)) by lia.
    apply Hall; [done|done|]. intros k Hk Hrk. destruct (Hf k Hk Hrk) as [?|[? _]]; change (procs s1) with (procs s) in *; lia. }
  destruct (mlfq_run_none s1 Hh Hl) as [s' Hs].
  destruct (mlfq_run_spec no_swtch no_swtch_ok None s1 Hh Hl) as (s2 & E & _ & _ & V & _).
  rewrite (Hs no_swtch) in E. injection E as <-. exists s'. split_and!; [|by apply (mlfq_run_keeps no_swtch s1)|done].
  intros sw. unfold mlfq_round. rewrite (bind_eq (modify _) _ _ _ _ eq_refl). fold s1.
  rewrite (bind_eq _ _ _ _ _ E1). destruct (Z.eqb_spec qm 3); [lia|]. rewrite (bind_eq _ _ _ _ _ E2), Eb. apply Hs.
Qed.

(** C36: A round of RR gives every process that is runnable at its start
    exactly one turn, in table order, and no process two. *)
Theorem rr_round_fair swtch_in s :
  swtch_ok swtch_in → held s = [] → length (procs s) = 64%nat →
  ∃ runs s', rr_round swtch_in s = Ret tt s' ∧ for_each runs (turn swtch_in) s = Ret tt s' ∧
    runs `sublist_of` seq 0 64 ∧ (∀ j, (j < 64)%nat → runnable (procs s) j → j ∈ runs) ∧
    held s' = [].
Proof.
  intros Hsw Hh Hl.
  destruct (rr_loop_spec swtch_in table s Hsw) as (runs & s' & E & Er & Hsub & Hall & H');
    [apply NoDup_seq|intros i; apply elem_of_table|done|done|].
  exists runs, s'. split_and!; try done. intros j Hj. by apply Hall, elem_of_table.
Qed.

(** C35: The lottery is fair. Over the possible draws [0 <= r < total], the
    selection loop of LBS picks a runnable process for exactly as many draws
    as it has tickets, and it never picks a process that is not runnable. *)
Theorem lbs_proportional s i :
  held s = [] → tickets_ok (procs s) table → (i < 64)%nat →
  share (λ r, match lbs_select table r None s with Ret w _ => w | _ => None end)
    (total (procs s) table) i =
  Z.to_nat (if decide (runnable (procs s) i) then tickets (procs s !!! i) else 0).
Proof.
  intros Hh Hok Hi.
  rewrite (share_agree _ (owner (procs s) table)).
  2:{ intros r Hr. rewrite lbs_select_eq; [done|done|done|]. pose proof (proj2 Hok). lia. }
  rewrite share_owner by (done || apply NoDup_seq).
  rewrite decide_True by (by apply elem_of_table). done.
Qed.

(** C34: An LBS round with a runnable process draws a ticket with [rg], always
    finds its owner, and runs it, holding only its lock. *)
Theorem lbs_round_runs_winner swtch_in s :
  held s = [] → tickets_ok (procs s) table → 0 ≤ ticks s < 2 ^ 32 →
  (∃ j, (j < 64)%nat ∧ runnable (procs s) j) →
  ∃ w, runnable (procs s) w ∧
    owner (procs s) table (xorshift (ticks s) mod total (procs s) table) = Some w ∧
    lbs_round swtch_in s =
    (do! dispatch swtch_in w in release (PLock w)) (s <| held := [PLock w] |>).
Proof.
  intros Hh Hok Ht (j & Hj & Hr).
  assert (0 < total (procs s) table) as Hpos
    by (apply (total_pos _ _ j Hok); [by apply elem_of_table|done]).
  pose proof (proj2 Hok) as Hmax.
  pose proof (Z.mod_pos_bound (xorshift (ticks s)) _ Hpos) as Hmod.
  destruct (owner_spec (procs s) table (xorshift (ticks s) mod total (procs s) table) Hok Hmod)
    as (w & Ew & _ & Hw).
  exists w. split; [done|]. split; [done|]. unfold lbs_round.
  rewrite (bind_eq _ _ _ _ _ (lbs_total_eq s Hok)).
  rewrite (bind_eq _ _ _ _ _ (rg_eq (total (procs s) table) s Ht (conj Hpos Hmax))).
  generalize dependent (xorshift (ticks s) mod total (procs s) table). intros r Hr' Ew.
  rewrite (bind_eq _ _ _ _ _ (lbs_select_eq table r s Hh Hok ltac:(lia))). by rewrite Ew.
Qed.

(** LBS never looks at arrival times. Two tables that agree on which
    processes are runnable and on their tickets give the same winner for every
    draw, whatever the [arrival_t] fields are, even among processes with equal
    tickets. *)
Lemma lbs_ignores_arrival s1 s2 r :
  held s1 = [] → held s2 = [] → tickets_ok (procs s1) table → 0 ≤ r < 2 ^ 31 →
  (∀ i, state (procs s1 !!! i) = state (procs s2 !!! i) ∧
        tickets (procs s1 !!! i) = tickets (procs s2 !!! i)) →
  ∃ w s1' s2', lbs_select table r None s1 = Ret w s1' ∧ lbs_select table r None s2 = Ret w s2'.
Proof.
  intros H1 H2 Hok Hr Hag.
  assert (∀ i, tickets_of (procs s1) i = tickets_of (procs s2) i) as Ht.
  { intros i. destruct (Hag i) as [Es Et]. unfold tickets_of.
    do 2 case_decide; unfold runnable in *; congruence. }
  assert (∀ l, total (procs s1) l = total (procs s2) l) as Htot.
  { induction l as [|k l IH]; simpl; [done|]. by rewrite Ht, IH. }
  assert (∀ l x, owner (procs s1) l x = owner (procs s2) l x) as Ho.
  { induction l as [|k l IH]; intros x; simpl; [done|]. by rewrite Ht, IH. }
  eexists _, _, _. split; [by apply lbs_select_eq|]. rewrite Ho. apply lbs_select_eq; [done| |done].
  destruct Hok as [Hok1 Hok2]. split; [|by rewrite <- Htot].
  intros i Hi. destruct (Hag i) as [Es Et]. unfold runnable. rewrite <- Es, <- Et. by apply Hok1.
Qed.

End properties.

(** ** Witnesses *)

(** A table with three runnable processes in queues 0, 1 and 1. *)
Definition demo_proc (q n w t : Z) : proc :=
  zero_proc <| state := RUNNABLE |> <| pid := 3 + n |> <| queue := q |> <| qnumber := n |>
    <| wwpqtct := w |> <| tickets := t |>.
Definition demo_table (ps : list proc) : list proc := ps ++ replicate (64 - length ps) zero_proc.
Definition demo_kst (ps : list proc) : kst unit :=
  mk_kst unit (demo_table ps) [] (mk_kmem ∅ 0) tt 10 7 (Some 0%nat) [1; 2; 0; 0] [1; 2; 0; 0] [] 0 0 0
    None [] true zero_hart.
Definition demo_state : kst unit :=
  demo_kst [demo_proc 1 4 47 1; demo_proc 0 9 3 2; demo_proc 1 2 5 3].

(** A process that yields at once. *)
Definition demo_swtch (i : nat) : M (kst unit) unit := set i (λ p, p <| state := RUNNABLE |>).

Lemma demo_swtch_ok : swtch_ok demo_swtch.
Proof.
  intros i s Hi Hh Hl.
  destruct (only_set i id (λ p, p <| state := RUNNABLE |>) s s (only_refl i s)) as (s' & E & O).
  exists s'. split; [exact E|]. split; [rewrite <- Hh; apply O|].
  split; [by rewrite (only_length _ _ _ _ O)|].
  assert (procs s' !!! i = (procs s !!! i) <| state := RUNNABLE |>) as Pi
    by (apply (only_self _ _ _ _ O); lia).
  split; [by rewrite Pi|]. split.
  - intros j Hj Hr. unfold runnable. by rewrite (only_other _ _ _ _ _ O Hj).
  - intros j Hq. destruct (decide (j = i)) as [->|Hj]; [by rewrite Pi|].
    by rewrite (only_other _ _ _ _ _ O Hj).
Qed.

(** A property of all the slots, checked by computation. *)
Lemma all_slots (P : nat → Prop) `{∀ j, Decision (P j)} :
  forallb (λ j, bool_decide (P j)) (seq 0 64) = true → ∀ j, (j < 64)%nat → P j.
Proof.
  intros Hb j Hj. rewrite forallb_forall in Hb. specialize (Hb j).
  eapply bool_decide_eq_true_1, Hb, list_elem_of_In, elem_of_seq. lia.
Qed.

#[export] Instance queue_ok_dec p : Decision (queue_ok p).
Proof. unfold queue_ok. apply _. Defined.

Lemma demo_queues_ok : queues_ok (procs demo_state).
Proof. unfold queues_ok. apply (all_slots (λ j, queue_ok (procs demo_state !!! j))). vm_compute. reflexivity. Qed.

Lemma demo_runnable : runnable (procs demo_state) 1 ∧ queue (procs demo_state !!! 1%nat) ≤ 2.
Proof. vm_compute. split; [reflexivity|discriminate]. Qed.

(** Process 1 is the only one in queue 0. *)
Lemma demo_head i :
  (i < 64)%nat → runnable (procs demo_state) i → queue (procs demo_state !!! i) ≤ queue (procs demo_state !!! 1%nat) → i = 1%nat.
Proof.
  revert i. apply (all_slots (λ i, runnable (procs demo_state) i →
    queue (procs demo_state !!! i) ≤ queue (procs demo_state !!! 1%nat) → i = 1%nat)). vm_compute. reflexivity.
Qed.

Lemma mlfq_round_correct_witness :
  ∃ sa back, cur sa = Some 1%nat ∧ mlfq_round demo_swtch demo_state = (do! demo_swtch 1 in back) sa ∧
    ∃ s', mlfq_round demo_swtch demo_state = Ret tt s' ∧ view (procs s' !!! 1%nat) = (1, 0, 0).
Proof.
  destruct (mlfq_round_correct demo_state eq_refl eq_refl demo_queues_ok) as ([i|] & Hw & Ha).
  { exists 1%nat. split; [lia|exact demo_runnable]. }
  - destruct Hw as ((Hi & Hr & Hf) & _ & sa & back & _ & Hc & _ & Hsw).
    assert (i = 1%nat) as ->.
    { apply demo_head; [exact Hi|exact Hr|]. destruct (Hf 1%nat ltac:(lia) (proj1 demo_runnable)) as [Hlt|[Heq _]];
        [exact (Z.lt_le_incl _ _ Hlt)|exact (Z.eq_le_incl _ _ Heq)]. }
    destruct (Ha demo_swtch demo_swtch_ok) as (s' & E & _ & _ & _ & V).
    exists sa, back. split; [exact Hc|]. split; [exact (Hsw demo_swtch)|]. exists s'. split; [exact E|].
    exact (V 1%nat ltac:(lia) (proj1 demo_runnable)).
  - exfalso. destruct Hw as [Hn _]. specialize (Hn 1%nat ltac:(lia) (proj1 demo_runnable)). apply Hn; [|vm_compute; reflexivity].
    intros k Hk _. exact (proj1 (demo_queues_ok k Hk)).
Defined.

Lemma mlfq_round_queues_witness :
  ∃ s', mlfq_round demo_swtch demo_state = Ret tt s' ∧ queues_ok (procs s').
Proof.
  destruct (mlfq_round_queues demo_swtch demo_state demo_swtch_ok eq_refl eq_refl demo_queues_ok)
    as (s' & E & _ & _ & Q).
  exists s'. split; [exact E|exact Q].
Defined.

(** A process whose queue number has grown to [refmin1], and one in the next
    queue that is ready to run. *)
Definition stuck_state : kst unit := demo_kst [demo_proc 1 1000000 0 1; demo_proc 2 5 0 1].

Lemma stuck_numbers j :
  (j < 64)%nat → runnable (procs stuck_state) j →
  (∀ k, (k < 64)%nat → runnable (procs stuck_state) k → queue (procs stuck_state !!! j) ≤ queue (procs stuck_state !!! k)) →
  refmin1 ≤ qnumber (procs stuck_state !!! j).
Proof.
  intros Hj Hr Hall. specialize (Hall 0%nat ltac:(lia) eq_refl). revert j Hj Hr Hall.
  apply (all_slots (λ j, runnable (procs stuck_state) j →
    queue (procs stuck_state !!! j) ≤ queue (procs stuck_state !!! 0%nat) → refmin1 ≤ qnumber (procs stuck_state !!! j))).
  vm_compute. reflexivity.
Qed.

Lemma mlfq_refmin1_starvation_witness :
  ∃ s', mlfq_round (λ _, panic "never run") stuck_state = Ret tt s' ∧ cur s' = cur stuck_state.
Proof.
  destruct (mlfq_refmin1_starvation stuck_state eq_refl eq_refl) as (s' & E & Hc & _).
  - exists 0%nat. split; [lia|]. vm_compute. split; [reflexivity|discriminate].
  - exact stuck_numbers.
  - exists s'. split; [exact (E (λ _, panic "never run"))|exact Hc].
Defined.

Lemma rr_round_fair_witness :
  ∃ (runs : list nat) s', rr_round demo_swtch demo_state = Ret tt s' ∧ 1%nat ∈ runs.
Proof.
  destruct (rr_round_fair demo_swtch demo_state demo_swtch_ok eq_refl eq_refl)
    as (runs & s' & E & _ & _ & Hall & _).
  exists runs, s'. split; [exact E|]. apply Hall; [lia|exact (proj1 demo_runnable)].
Defined.

#[export] Instance tickets_ok_dec ps l : Decision (tickets_ok ps l).
Proof.
  unfold tickets_ok. apply and_dec; [|apply _].
  destruct (Forall_dec (λ i, runnable ps i → 1 ≤ tickets (ps !!! i)) l) as [H|H];
    [left|right]; by rewrite <- Forall_forall.
Defined.

Lemma demo_tickets_ok : tickets_ok (procs demo_state) table.
Proof. apply (bool_decide_eq_true_1 (tickets_ok (procs demo_state) table)). vm_compute. reflexivity. Qed.

Lemma lbs_proportional_witness :
  share (λ r, match lbs_select table r None demo_state with Ret w _ => w | _ => None end) 6 2 = 3%nat.
Proof. exact (lbs_proportional demo_state 2 eq_refl demo_tickets_ok ltac:(lia)). Defined.

Lemma lbs_round_runs_winner_witness :
  ∃ w, runnable (procs demo_state) w ∧
    lbs_round demo_swtch demo_state =
    (do! dispatch demo_swtch w in release (PLock w)) (demo_state <| held := [PLock w] |>).
Proof.
  destruct (lbs_round_runs_winner demo_swtch demo_state eq_refl demo_tickets_ok)
    as (w & Hw & _ & E).
  - split; [discriminate|reflexivity].
  - exists 1%nat. split; [lia|exact (proj1 demo_runnable)].
  - exists w. split; [exact Hw|exact E].
Defined.

(** The same table with the arrival order reversed. *)
Definition late_state : kst unit :=
  demo_kst [(demo_proc 1 4 47 1) <| arrival_t := 9 |>; (demo_proc 0 9 3 2) <| arrival_t := 5 |>;
            (demo_proc 1 2 5 3) <| arrival_t := 1 |>].

Lemma late_same i :
  state (procs demo_state !!! i) = state (procs late_state !!! i) ∧
  tickets (procs demo_state !!! i) = tickets (procs late_state !!! i).
Proof. do 4 (destruct i as [|i]; [split; reflexivity|]). split; reflexivity. Qed.

Lemma lbs_ignores_arrival_witness :
  ∃ w s1 s2, lbs_select table 2 None demo_state = Ret w s1 ∧ lbs_select table 2 None late_state = Ret w s2.
Proof.
  apply (lbs_ignores_arrival demo_state late_state 2 eq_refl eq_refl demo_tickets_ok).
  - lia.
  - exact late_same.
Defined.
