(* ===== verification/ProcLife.v ===== *)
(** * Process life cycle ([kernel/proc.c])

    Creation, growth, exit and reaping of processes. *)

From S2P Require Import Prelude.
From S2P Require Import Machine.
From S2P Require Import KString.
From S2P Require Import Printf.
From S2P Require Import Spinlock.
From S2P Require Import Kalloc.
From S2P Require Import Vm.
From S2P Require Import Proc.
#[local] Open Scope Z_scope.

(** [safestrcpy(s, t, n)] on arrays inside kernel structures: the arrays are
    laid out in a scratch memory and the routine runs there. *)
Definition safestrcpy_array (s t : list Z) (n : Z) : list Z :=
  let m := store_bytes (store_bytes ∅ 0 s) 4096 t in
  load_bytes (length s) (safestrcpy m 0 4096 n) 0.

(** The program of the first process, [initcode]. *)
Definition initcode : list Z :=
  [0x17; 0x05; 0x00; 0x00; 0x13; 0x05; 0x45; 0x02;
   0x97; 0x05; 0x00; 0x00; 0x93; 0x85; 0x35; 0x02;
   0x93; 0x08; 0x70; 0x00; 0x73; 0x00; 0x00; 0x00;
   0x93; 0x08; 0x20; 0x00; 0x73; 0x00; 0x00; 0x00;
   0xef; 0xf0; 0x9f; 0xff; 0x2f; 0x69; 0x6e; 0x69;
   0x74; 0x00; 0x00; 0x24; 0x00; 0x00; 0x00; 0x00;
   0x00; 0x00; 0x00; 0x00].

Section life.
Context {F : Type} `{!KernelImage} `{!KernelText} `{!FsOps F}.
Implicit Types (s : kst F) (i : nat).

(** ** Allocation and release of a slot *)

Definition freeproc (i : nat) : M (kst F) unit :=
  let! p := get i in
  do! (if trapframe p =? 0 then ret tt else with_km (kfree (trapframe p))) in
  do! set i (λ p, p <| trapframe := 0 |>) in
  let! p := get i in
  do! (if pagetable p =? 0 then ret tt
       else with_km (proc_freepagetable (pagetable p) (sz p))) in
  do! set i (λ p, p <| pagetable := 0 |>) in
  do! set i (λ p, p <| sz := 0 |>) in
  do! set i (λ p, p <| pid := 0 |>) in
  do! set i (λ p, p <| parent := None |>) in
  do! set i (λ p, p <| name := <[0%nat := 0]> (name p) |>) in
  do! set i (λ p, p <| chan := NoChan |>) in
  do! set i (λ p, p <| p_killed := 0 |>) in
  do! set i (λ p, p <| xstate := 0 |>) in
  set i (λ p, p <| state := UNUSED |>).

(** The scan of [allocproc]; the lock of the slot found stays held. *)
Definition find_unused : M (kst F) (option nat) :=
  for_until table (λ i,
    do! acquire (PLock i) in
    let! p := get i in
    if decide (state p = UNUSED) then ret (Some i)
    else do! release (PLock i) in ret None).

(** The fields [allocproc] gives a new process, at [now] with queue number
    [n]. *)
Definition init_fields (now n : Z) (p : proc) : proc :=
  p <| context := <[1%nat := u64 (kstack p + PGSIZE)]> (<[0%nat := forkret_pc]> (replicate 14 0)) |>
    <| syscall_count := replicate 32 0 |>
    <| rtime := 0 |> <| etime := 0 |> <| ctime := now |>
    <| tickets := 1 |> <| arrival_t := now |>
    <| s_tcks := 0 |> <| hlp := 1 |>
    <| pqtct := 0 |> <| queue := 1 |> <| wwpqtct := 0 |> <| qnumber := n |>.

Definition allocproc : M (kst F) (option nat) :=
  let! r := find_unused in
  match r with
  | None => ret None
  | Some i =>
      let! n := allocpid in
      do! set i (λ p, p <| pid := n |>) in
      do! set i (λ p, p <| state := USED |>) in
      let! tf := with_km kalloc in
      do! set i (λ p, p <| trapframe := tf |>) in
      if tf =? 0 then
        do! freeproc i in
        do! release (PLock i) in
        ret None
      else
      let! pt := with_km (proc_pagetable tf) in
      do! set i (λ p, p <| pagetable := pt |>) in
      if pt =? 0 then
        do! freeproc i in
        do! release (PLock i) in
        ret None
      else
      let! now := gets ticks in
      let! q0 := gets (λ s, npnq s !!! 0%nat) in
      do! set i (init_fields now q0) in
      do! modify (λ s, s <| npnq := alter (λ x, s32 (x + 1)) 0%nat (npnq s) |>) in
      do! modify (λ s, s <| roqd := alter (λ x, s32 (x + 1)) 0%nat (roqd s) |>) in
      ret (Some i)
  end.

Definition userinit : M (kst F) unit :=
  let! r := allocproc in
  do! modify (λ s, s <| initproc := r |>) in
  match r with
  | None => panic "kerneltrap"
  | Some i =>
      let! p := get i in
      do! with_km (uvmfirst (pagetable p) initcode (Z.of_nat (length initcode))) in
      do! set i (λ p, p <| sz := PGSIZE |>) in
      do! store_tf (trapframe p) tf_epc 0 in
      do! store_tf (trapframe p) tf_sp PGSIZE in
      do! set i (λ p, p <| name := safestrcpy_array (name p) (bytes "initcode" ++ [0]) 16 |>) in
      let! d := namei (bytes "/") in
      do! set i (λ p, p <| cwd := d |>) in
      do! set i (λ p, p <| state := RUNNABLE |>) in
      release (PLock i)
  end.

Definition growproc (n : Z) : M (kst F) Z :=
  let! i := curproc in
  let! p := get i in
  if 0 <? n then
    let! nsz := with_km (uvmalloc (pagetable p) (sz p) (u64 (sz p + n)) PTE_W) in
    if nsz =? 0 then ret (-1) else
    do! set i (λ p, p <| sz := nsz |>) in ret 0
  else if n <? 0 then
    let! nsz := with_km (uvmdealloc (pagetable p) (sz p) (u64 (sz p + n))) in
    do! set i (λ p, p <| sz := nsz |>) in ret 0
  else
    do! set i (λ q, q <| sz := sz p |>) in ret 0.

(** ** fork *)

(** [for(i = 0; i < NOFILE; i++) if(p->ofile[i]) np->ofile[i] = filedup(...)]. *)
Definition dup_files (p np : nat) : M (kst F) unit :=
  for_each (seq 0 (Z.to_nat NOFILE)) (λ fd,
    let! pp := get p in
    let f := ofile pp !!! fd in
    if f =? 0 then ret tt else
    let! f' := filedup f in
    set np (λ q, q <| ofile := <[fd := f']> (ofile q) |>)).

Definition fork : M (kst F) Z :=
  let! p := curproc in
  let! r := allocproc in
  match r with
  | None => ret (-1)
  | Some np =>
      let! pp := get p in
      let! pn := get np in
      let! c := with_km (uvmcopy (pagetable pp) (pagetable pn) (sz pp)) in
      if c <? 0 then
        do! freeproc np in
        do! release (PLock np) in
        ret (-1)
      else
      do! set np (λ q, q <| sz := sz pp |>) in
      do! with_km (set_mem (λ m, memmove m (trapframe pn) (trapframe pp) sizeof_trapframe)) in
      do! set np (λ q, q <| s1 := s1 pp |>) in
      do! store_tf (trapframe pn) tf_a0 0 in
      do! dup_files p np in
      let! d := idup (cwd pp) in
      do! set np (λ q, q <| cwd := d |>) in
      do! set np (λ q, q <| name := safestrcpy_array (name q) (name pp) 16 |>) in
      let! pn := get np in
      do! release (PLock np) in
      do! acquire WaitLock in
      do! set np (λ q, q <| parent := Some p |>) in
      let! pp := get p in
      do! set np (λ q, q <| tickets := tickets pp |>) in
      do! release WaitLock in
      do! acquire (PLock np) in
      do! set np (λ q, q <| state := RUNNABLE |>) in
      do! release (PLock np) in
      ret (pid pn)
  end.

(** ** exit and wait *)

Definition reparent (p : nat) : M (kst F) unit :=
  for_each table (λ i,
    let! pp := get i in
    if decide (parent pp = Some p) then
      let! ip := gets initproc in
      do! set i (λ q, q <| parent := ip |>) in
      wakeup (proc_chan ip)
    else ret tt).

Definition close_files (p : nat) : M (kst F) unit :=
  for_each (seq 0 (Z.to_nat NOFILE)) (λ fd,
    let! pp := get p in
    let f := ofile pp !!! fd in
    if f =? 0 then ret tt else
    do! fileclose f in
    set p (λ q, q <| ofile := <[fd := 0]> (ofile q) |>)).

Section blocking.
Variable swtch_out : nat → M (kst F) unit.

Definition exit (status : Z) : M (kst F) unit :=
  let! p := curproc in
  let! ip := gets initproc in
  if decide (ip = Some p) then panic "init exiting" else
  do! close_files p in
  do! begin_op in
  let! pp := get p in
  do! iput (cwd pp) in
  do! end_op in
  do! set p (λ q, q <| cwd := 0 |>) in
  do! acquire WaitLock in
  do! reparent p in
  let! pp := get p in
  do! wakeup (proc_chan (parent pp)) in
  do! acquire (PLock p) in
  do! set p (λ q, q <| xstate := status |>) in
  do! set p (λ q, q <| state := ZOMBIE |>) in
  let! now := gets ticks in
  do! set p (λ q, q <| etime := now |>) in
  do! release WaitLock in
  do! sched swtch_out in
  panic "zombie exit".

(** Reaping the child [i]: the value [wait] returns. *)
Definition reap (p i : nat) (addr : Z) : M (kst F) Z :=
  let! pp := get i in
  let! me := get p in
  let! r := (if addr =? 0 then ret 0
             else with_km (copyout (pagetable me) addr (le_bytes 4 (xstate pp)))) in
  if r <? 0 then
    do! release (PLock i) in
    do! release WaitLock in
    ret (-1)
  else
    do! freeproc i in
    do! release (PLock i) in
    do! release WaitLock in
    ret (pid pp).

(** The scan of [wait]: a result, or whether there are children. *)
Fixpoint wait_scan (p : nat) (addr : Z) (l : list nat) (havekids : bool)
    : M (kst F) (bool + Z) :=
  match l with
  | [] => ret (inl havekids)
  | i :: l' =>
      let! pp := get i in
      if decide (parent pp = Some p) then
        do! acquire (PLock i) in
        let! pp := get i in
        if decide (state pp = ZOMBIE) then
          let! r := reap p i addr in ret (inr r)
        else
          do! release (PLock i) in
          wait_scan p addr l' true
      else wait_scan p addr l' havekids
  end.

(** [for(;;)] of [wait], going round at most [fuel] times. *)
Fixpoint wait_loop (fuel : nat) (p : nat) (addr : Z) : M (kst F) Z :=
  match fuel with
  | O => λ s, NoFuel s
  | S fuel' =>
      let! r := wait_scan p addr table false in
      match r with
      | inr v => ret v
      | inl havekids =>
          let! k := (if havekids then killed p else ret 0) in
          if negb havekids || negb (k =? 0) then
            do! release WaitLock in ret (-1)
          else
            do! sleep swtch_out (ProcChan p) WaitLock in
            wait_loop fuel' p addr
      end
  end.

Definition wait (fuel : nat) (addr : Z) : M (kst F) Z :=
  let! p := curproc in
  do! acquire WaitLock in
  wait_loop fuel p addr.

(** [waitx] also reports the child's running and waiting times; the scan
    returns them with the result, [None] while they are not set. *)
Fixpoint waitx_scan (p : nat) (addr : Z) (l : list nat) (havekids : bool)
    : M (kst F) (bool + Z * (Z * Z)) :=
  match l with
  | [] => ret (inl havekids)
  | i :: l' =>
      let! pp := get i in
      if decide (parent pp = Some p) then
        do! acquire (PLock i) in
        let! pp := get i in
        if decide (state pp = ZOMBIE) then
          let r_time := rtime pp in
          let w_time := u32 (u32 (etime pp - ctime pp) - rtime pp) in
          let! r := reap p i addr in ret (inr (r, (w_time, r_time)))
        else
          do! release (PLock i) in
          waitx_scan p addr l' true
      else waitx_scan p addr l' havekids
  end.

Fixpoint waitx_loop (fuel : nat) (p : nat) (addr : Z) : M (kst F) (Z * option (Z * Z)) :=
  match fuel with
  | O => λ s, NoFuel s
  | S fuel' =>
      let! r := waitx_scan p addr table false in
      match r with
      | inr (v, times) => ret (v, Some times)
      | inl havekids =>
          let! pp := get p in
          if negb havekids || negb (p_killed pp =? 0) then
            do! release WaitLock in ret (-1, None)
          else
            do! sleep swtch_out (ProcChan p) WaitLock in
            waitx_loop fuel' p addr
      end
  end.

Definition waitx (fuel : nat) (addr : Z) : M (kst F) (Z * option (Z * Z)) :=
  let! p := curproc in
  do! acquire WaitLock in
  waitx_loop fuel p addr.
End blocking.

End life.
