(* ===== verification/ProcSpec.v ===== *)
(** * Specifications of the basic process operations *)

From S2P Require Import Prelude.
From S2P Require Import Machine.
From S2P Require Import KString.
From S2P Require Import Printf.
From S2P Require Import Spinlock.
From S2P Require Import Kalloc.
From S2P Require Import Vm.
From S2P Require Import Proc.
From S2P Require Import Sched.
From S2P Require Import SchedSpec.
From S2P Require Import ProcLife.
#[local] Open Scope Z_scope.

Section spec.
Context {F : Type}.
Implicit Types (s : kst F) (ps : list proc).

(** [s] with another process table. *)
Definition with_procs (s : kst F) (ps : list proc) : kst F := s <| procs := ps |>.

Lemma with_procs_id s : with_procs s (procs s) = s.
Proof. by destruct s. Qed.
Lemma with_procs_twice s ps ps' : with_procs (with_procs s ps) ps' = with_procs s ps'.
Proof. done. Qed.

Lemma curproc_eq i s : cur s = Some i → curproc s = Ret i s.
Proof. unfold curproc, bind, myproc, gets. by intros ->. Qed.

(** A table updated slot by slot. *)
Definition mapped_table (f : nat → proc → proc) (l : list nat) (ps ps' : list proc) : Prop :=
  length ps' = length ps ∧
  ∀ j, ps' !!! j = if decide (j ∈ l ∧ (j < length ps)%nat) then f j (ps !!! j) else ps !!! j.

(** A loop whose body updates the slot it visits, under the locks [hs]. *)
Lemma for_each_slots (f : nat → proc → proc) body l s :
  NoDup l →
  (∀ i ps, i ∈ l → body i (with_procs s ps) = Ret tt (with_procs s (alter (f i) i ps))) →
  ∃ ps', for_each l body s = Ret tt (with_procs s ps') ∧ mapped_table f l (procs s) ps'.
Proof.
  intros Hnd Hb. enough (∀ ps, ∃ ps', for_each l body (with_procs s ps) = Ret tt (with_procs s ps') ∧
    mapped_table f l ps ps') as H by (specialize (H (procs s)); by rewrite with_procs_id in H).
  induction l as [|i l IH]; intros ps.
  { exists ps. split; [done|]. split; [done|]. intros j. rewrite decide_False; [done|].
    intros [Hj _]. by apply elem_of_nil in Hj. }
  apply NoDup_cons in Hnd as [Hil Hnd].
  destruct (IH Hnd) with (ps := alter (f i) i ps) as (ps' & E & L & P).
  { intros k ps0 Hk. apply Hb. by right. }
  exists ps'. cbn [for_each]. split.
  { erewrite bind_eq by (apply Hb; by left). exact E. }
  rewrite length_alter in *. split; [done|]. intros j. rewrite P, list_lookup_total_alter.
  destruct (decide (j = i)) as [->|Hne].
  - rewrite decide_False by tauto. destruct (decide (i < length ps)%nat).
    + rewrite !decide_True; [done|split; [by left|done]|done].
    + rewrite !decide_False; [done| |]; tauto.
  - rewrite (decide_False (P := i = j ∧ _)) by (intros [-> _]; done).
    destruct (decide (j ∈ l ∧ (j < length ps)%nat)) as [[Hj Hlt]|Hn].
    + rewrite decide_True; [done|]. split; [by right|done].
    + rewrite decide_False; [done|]. rewrite elem_of_cons. tauto.
Qed.

(** A body that visits slot [i] under its lock. *)
Lemma locked_slot (f : proc → proc) (body : proc → M (kst F) unit) i s ps :
  PLock i ∉ held s →
  (∀ s', body (ps !!! i) (with_procs s' ps) = Ret tt (with_procs s' (alter f i ps))) →
  (do! acquire (PLock i) in let! p := get i in do! body p in release (PLock i)) (with_procs s ps) =
  Ret tt (with_procs s (alter f i ps)).
Proof.
  intros Hi Hb. set (s1 := s <| held := PLock i :: held s |>).
  assert (acquire (PLock i) (with_procs s ps) = Ret tt (with_procs s1 ps)) as Ea
    by (by rewrite acquire_eq).
  rewrite (bind_eq _ _ _ _ _ Ea).
  assert (get i (with_procs s1 ps) = Ret (ps !!! i) (with_procs s1 ps)) as Eg by done.
  rewrite (bind_eq _ _ _ _ _ Eg), (bind_eq _ _ _ _ _ (Hb s1)).
  by rewrite (release_eq _ _ (held s)) by done; destruct s.
Qed.

Lemma set_slot i f s ps : set i f (with_procs s ps) = Ret tt (with_procs s (alter f i ps)).
Proof. done. Qed.

Lemma alter_id i ps : alter id i ps = ps.
Proof. revert i. induction ps as [|p ps IH]; intros [|i]; simpl; [done..|]. f_equal. apply IH. Qed.

Lemma alter_agree (f g : proc → proc) i ps : f (ps !!! i) = g (ps !!! i) → alter f i ps = alter g i ps.
Proof.
  revert i. induction ps as [|p ps IH]; intros [|i] H; simpl; [done|done|by f_equal|].
  f_equal. by apply IH.
Qed.

(** ** wakeup *)

(** What [wakeup(ch)] does to slot [i] when [me] is running. *)
Definition woken (me : option nat) (ch : channel) (i : nat) (p : proc) : proc :=
  if decide (me ≠ Some i ∧ state p = SLEEPING ∧ chan p = ch) then p <| state := RUNNABLE |> else p.

Lemma wakeup_spec ch s :
  (∀ i, PLock i ∉ held s) →
  ∃ ps', wakeup ch s = Ret tt (with_procs s ps') ∧
    mapped_table (woken (cur s) ch) table (procs s) ps'.
Proof.
  intros Hh. apply for_each_slots; [apply NoDup_seq|]. intros i ps _.
  unfold myproc. rewrite (bind_eq (gets cur) _ _ _ _ eq_refl).
  change (cur (with_procs s ps)) with (cur s).
  destruct (decide (cur s = Some i)) as [Hc|Hc].
  - rewrite <- (alter_id i ps) at 1. f_equal. f_equal. apply alter_agree. unfold woken.
    by rewrite decide_False by tauto.
  - apply (locked_slot _ (λ p, if decide (state p = SLEEPING ∧ chan p = ch)
                               then set i (λ p, p <| state := RUNNABLE |>) else ret tt)); [done|].
    intros s'. case_decide as Hd.
    + rewrite set_slot. do 2 f_equal. apply alter_agree. unfold woken. by rewrite decide_True.
    + rewrite <- (alter_id i ps) at 1. unfold ret. do 2 f_equal. apply alter_agree. unfold woken.
      by rewrite decide_False by tauto.
Qed.

(** ** update_time *)

Definition timed (p : proc) : proc :=
  if decide (state p = RUNNING) then p <| rtime := u32 (rtime p + 1) |> else p.

Lemma update_time_spec s :
  (∀ i, PLock i ∉ held s) →
  ∃ ps', update_time s = Ret tt (with_procs s ps') ∧
    mapped_table (λ _, timed) table (procs s) ps'.
Proof.
  intros Hh. apply for_each_slots; [apply NoDup_seq|]. intros i ps _.
  apply (locked_slot _ (λ p, if decide (state p = RUNNING)
    then set i (λ p, p <| rtime := u32 (rtime p + 1) |>) else ret tt)); [done|].
  intros s'. case_decide as Hd.
  - rewrite set_slot. do 2 f_equal. apply alter_agree. unfold timed. by rewrite decide_True.
  - rewrite <- (alter_id i ps) at 1. unfold ret. do 2 f_equal. apply alter_agree. unfold timed.
    by rewrite decide_False by tauto.
Qed.

(** ** kill *)

Definition slain (p : proc) : proc :=
  let p' := p <| p_killed := 1 |> in
  if decide (state p = SLEEPING) then p' <| state := RUNNABLE |> else p'.

(** The first slot of [l] with the given pid. *)
Definition find_pid (ps : list proc) (target : Z) (l : list nat) : option nat :=
  list_find (λ i, pid (ps !!! i) = target) l ≫= λ x, Some x.2.

Lemma kill_loop_spec target l s :
  (∀ i, PLock i ∉ held s) →
  for_until l (λ i,
    do! acquire (PLock i) in
    let! p := get i in
    if pid p =? target then
      do! set i (λ p, p <| p_killed := 1 |>) in
      do! (if decide (state p = SLEEPING)
           then set i (λ p, p <| state := RUNNABLE |>) else ret tt) in
      do! release (PLock i) in
      ret (Some 0)
    else
      do! release (PLock i) in
      ret None) s =
  match find_pid (procs s) target l with
  | Some i => Ret (Some 0) (with_procs s (alter slain i (procs s)))
  | None => Ret None s
  end.
Proof.
  intros Hh. induction l as [|i l IH]; [done|]. cbn [for_until].
  unfold find_pid in *. cbn [list_find].
  assert (acquire (PLock i) s = Ret tt (s <| held := PLock i :: held s |>)) as Ea by (by apply acquire_eq).
  unfold bind at 1 2. rewrite Ea. unfold bind at 1, get at 1, gets at 1.
  change (procs (s <| held := PLock i :: held s |>)) with (procs s).
  destruct (Z.eqb_spec (pid (procs s !!! i)) target) as [Hp|Hp].
  - rewrite (decide_True (P := pid _ = target)) by done. cbn [mbind option_bind snd].
    set (s1 := s <| held := PLock i :: held s |>).
    rewrite (bind_eq (set _ _) _ _ _ _ eq_refl).
    assert (∀ ps, release (PLock i) (with_procs s1 ps) = Ret tt (with_procs s ps)) as Er.
    { intros ps. by rewrite (release_eq _ _ (held s)) by done; destruct s. }
    case_decide as Hs.
    + rewrite (bind_eq (set _ _) _ _ _ _ eq_refl).
      change (upd procs ?f (upd procs ?g s1)) with (with_procs s1 (alter (λ p, p <| state := RUNNABLE |>) i
        (alter (λ p, p <| p_killed := 1 |>) i (procs s)))).
      rewrite (bind_eq _ _ _ _ _ (Er _)). unfold ret. do 2 f_equal.
      rewrite alter_twice. apply alter_agree. unfold slain, compose. by rewrite decide_True.
    + rewrite (bind_eq (ret tt) _ _ _ _ eq_refl).
      change (upd procs ?f s1) with (with_procs s1 (alter (λ p, p <| p_killed := 1 |>) i (procs s))).
      rewrite (bind_eq _ _ _ _ _ (Er _)). unfold ret. do 2 f_equal.
      apply alter_agree. unfold slain. by rewrite decide_False.
  - rewrite (decide_False (P := pid _ = target)) by done. unfold bind at 1.
    rewrite (release_eq _ _ (held s)) by done. rewrite held_id by done. unfold ret at 1.
    rewrite IH. destruct (list_find _ l) as [[k x]|]; done.
Qed.

Lemma kill_eq target s :
  (∀ i, PLock i ∉ held s) →
  kill target s =
  match find_pid (procs s) target table with
  | Some i => Ret 0 (with_procs s (alter slain i (procs s)))
  | None => Ret (-1) s
  end.
Proof.
  intros Hh. unfold kill. unfold bind at 1. rewrite kill_loop_spec by done. by destruct (find_pid _ _ _).
Qed.
End spec.
