(* ===== verification/ProcThms.v ===== *)
(** * Theorems about processes *)

From S2P Require Import Prelude.
From S2P Require Import Machine.
From S2P Require Import KString.
From S2P Require Import Printf.
From S2P Require Import Spinlock.
From S2P Require Import Kalloc.
From S2P Require Import Vm.
From S2P Require Import Proc.
From S2P Require Import Sched.
From S2P Require Import SchedSpec.
From S2P Require Import ProcLife.
From S2P Require Import ProcSpec.
#[local] Open Scope Z_scope.

(** What a call of the file system does to a process: nothing, or it wakes it
    from a sleep on an address, such as that of the log, of the sleep lock of
    an inode or a buffer, or of a counter of a pipe; *)
Definition file_woken (p p' : proc) : Prop :=
  p' = p ∨ state p = SLEEPING ∧ (∃ a, chan p = AddrChan a) ∧ p' = p <| state := RUNNABLE |>.
(** the caller [me] is not touched. *)
Definition files_woken (me : option nat) (ps ps' : list proc) : Prop :=
  length ps' = length ps ∧ ∀ j, file_woken (ps !!! j) (ps' !!! j) ∧ (me = Some j → ps' !!! j = ps !!! j).
Definition fs_frame {F} (s s' : kst F) : Prop :=
  ∃ x k ps, s' = ((with_procs s ps) <| fs := x |>) <| km := k |> ∧ files_woken (cur s) (procs s) ps.
Definition unlocked {F} (s : kst F) : Prop := ∀ i, PLock i ∉ held s.
Class FsFrame (F : Type) `{FsOps F} : Prop := {
  fileclose_frame f s s' : unlocked s → fileclose f s = Ret tt s' → fs_frame s s';
  begin_op_frame s s' : unlocked s → begin_op s = Ret tt s' → fs_frame s s';
  end_op_frame s s' : unlocked s → end_op s = Ret tt s' → fs_frame s s';
  iput_frame i s s' : unlocked s → iput i s = Ret tt s' → fs_frame s s'
}.

Lemma file_woken_refl p : file_woken p p.
Proof. by left. Qed.
Lemma file_woken_trans p1 p2 p3 : file_woken p1 p2 → file_woken p2 p3 → file_woken p1 p3.
Proof. intros [->|(? & ? & ->)] [->|(Hs & Ha & ->)]; unfold file_woken; auto. Qed.
Lemma files_woken_refl me ps : files_woken me ps ps.
Proof. split; [done|]. intros j. by split; [left|]. Qed.
Lemma files_woken_trans me ps1 ps2 ps3 : files_woken me ps1 ps2 → files_woken me ps2 ps3 → files_woken me ps1 ps3.
Proof.
  intros [L1 W1] [L2 W2]. split; [congruence|]. intros j. destruct (W1 j) as [F1 E1], (W2 j) as [F2 E2].
  split; [by eapply file_woken_trans|]. intros Hj. by rewrite E2, E1.
Qed.

Section exit.
Context {F : Type} `{!KernelImage} `{!KernelText} `{!FsOps F} `{!FsFrame F}.
Implicit Types (s : kst F) (ps : list proc).

(** [p'] is [p] up to the fields [exit] changes in other processes. *)
Definition same_but (p p' : proc) : Prop :=
  p' = (p <| state := state p' |>) <| parent := parent p' |>.
(** A process stays in its state or is woken from a sleep on [ch]. *)
Definition maybe_woken (ch : channel) (p p' : proc) : Prop :=
  state p' = state p ∨ (state p = SLEEPING ∧ chan p = ch ∧ state p' = RUNNABLE).

(** [reparent(p)] half done: the slots of [l] are still to visit. *)
Record reparented (p : nat) (l : list nat) (s s' : kst F) : Prop := {
  rp_frame : ∃ ps, s' = with_procs s ps ∧ length ps = length (procs s);
  rp_same : ∀ j, same_but (procs s !!! j) (procs s' !!! j);
  rp_state : ∀ j, maybe_woken (proc_chan (initproc s)) (procs s !!! j) (procs s' !!! j);
  rp_me : cur s = Some p → state (procs s' !!! p) = state (procs s !!! p);
  rp_parent : ∀ j, (j < length (procs s))%nat → parent (procs s' !!! j) =
    if decide (parent (procs s !!! j) = Some p ∧ (j ∉ l)) then initproc s
    else parent (procs s !!! j)
}.

Lemma mapped_woken me ch ps ps' j :
  mapped_table (woken me ch) table ps ps' →
  same_but (ps !!! j) (ps' !!! j) ∧ maybe_woken ch (ps !!! j) (ps' !!! j) ∧
  parent (ps' !!! j) = parent (ps !!! j) ∧ (me = Some j → ps' !!! j = ps !!! j).
Proof.
  intros [_ P]. rewrite (P j). unfold woken, same_but, maybe_woken.
  destruct (decide (j ∈ table ∧ (j < length ps)%nat)); [|by destruct (ps !!! j); auto].
  case_decide as Hd; [|by destruct (ps !!! j); auto].
  split; [by destruct (ps !!! j)|]. split; [right; tauto|]. split; [done|]. intros ->. tauto.
Qed.

(** A process that is not a child of [p] is skipped, *)
Lemma reparented_skip p i l s ps :
  i ∉ l → parent (ps !!! i) ≠ Some p → reparented p (i :: l) s (with_procs s ps) → reparented p l s (with_procs s ps).
Proof.
  intros Hil Hd [(ps' & [= <-] & Lps) Rs Rst Rm Rp]. change (procs (with_procs s ps)) with ps in *.
  split; try done; [by exists ps|]. intros j Hj. change (procs (with_procs s ps)) with ps. rewrite Rp by done.
  destruct (decide (j = i)) as [->|Hne]; [|repeat case_decide; rewrite not_elem_of_cons in *; tauto].
  destruct (decide (parent (procs s !!! i) = Some p)) as [Hpi|Hpi]; [|by rewrite !decide_False by tauto].
  exfalso. apply Hd. rewrite Rp by done. rewrite decide_False; [done|]. rewrite not_elem_of_cons. tauto.
Qed.

(** and a child is handed to [init], which is woken. *)
Lemma reparented_hand p i l s ps ps2 :
  (i < length (procs s))%nat → i ∉ l → parent (ps !!! i) = Some p → reparented p (i :: l) s (with_procs s ps) →
  mapped_table (woken (cur s) (proc_chan (initproc s))) table (alter (λ q, q <| parent := initproc s |>) i ps) ps2 →
  reparented p l s (with_procs s ps2).
Proof.
  intros Hi Hil Hd [(ps' & [= <-] & Lps) Rs Rst Rm Rp] M2. change (procs (with_procs s ps)) with ps in *.
  set (ps1 := alter _ i ps) in *.
  assert (length ps1 = length (procs s)) as L1 by (unfold ps1; by rewrite length_alter).
  assert (∀ j, ps1 !!! j = if decide (i = j ∧ (i < length ps)%nat)
    then (ps !!! j) <| parent := initproc s |> else ps !!! j) as P1.
  { intros j. unfold ps1. rewrite list_lookup_total_alter. case_decide as Hx; [|done].
    by destruct Hx as [-> _]. }
  pose proof (λ j, mapped_woken _ _ _ _ j M2) as W. split.
  - exists ps2. split; [done|]. rewrite <- L1. apply M2.
  - intros j. destruct (W j) as (W1 & _). specialize (Rs j). unfold same_but in *.
    change (procs (with_procs s ps2)) with ps2. rewrite P1 in W1.
    etransitivity; [exact W1|]. case_decide; rewrite Rs; by destruct (procs s !!! j).
  - change (procs (with_procs s ps2)) with ps2. intros j. destruct (W j) as (_ & W2 & _). specialize (Rst j). specialize (Rs j).
    assert (state (ps1 !!! j) = state (ps !!! j) ∧ chan (ps1 !!! j) = chan (procs s !!! j)) as [E3 E4].
    { assert (chan (ps !!! j) = chan (procs s !!! j)) as <- by (by rewrite Rs).
      rewrite P1. destruct (decide _) as [Hx|Hx]; split; reflexivity. }
    unfold maybe_woken in *. rewrite E3, E4 in W2. destruct Rst as [E5|(?&?&E5)]; rewrite E5 in W2; intuition congruence.
  - change (procs (with_procs s ps2)) with ps2. intros Hc. destruct (W p) as (_ & _ & _ & W4). rewrite W4 by done. rewrite P1. rewrite <- Rm by done.
    destruct (decide _); reflexivity.
  - change (procs (with_procs s ps2)) with ps2. intros j Hj. destruct (W j) as (_ & _ & W3 & _). rewrite W3, P1.
    destruct (decide (j = i)) as [->|Hne].
    + rewrite decide_True by (split; [done|lia]).
      assert (parent (procs s !!! i) = Some p) as Hpi.
      { rewrite Rp in Hd by done. rewrite decide_False in Hd; [done|].
        rewrite not_elem_of_cons. tauto. }
      by rewrite decide_True by done.
    + rewrite decide_False by (intros [-> _]; done). rewrite Rp by done.
      repeat case_decide; rewrite not_elem_of_cons in *; tauto.
Qed.

Lemma reparent_spec p s :
  (∀ i, PLock i ∉ held s) → length (procs s) = 64%nat →
  (∀ q, initproc s = Some q → q ≠ p) →
  ∃ s', reparent p s = Ret tt s' ∧ reparented p [] s s'.
Proof.
  intros Hh Hl Hq. set (I := λ l s', NoDup l ∧ reparented p l s s').
  assert (wp (reparent p) (λ _ s', I [] s') s) as Hwp.
  2:{ apply wp_elim in Hwp as ([] & s' & E & _ & R). by exists s'. }
  unfold reparent. apply (wp_for_each I); [| |done].
  2:{ split; [apply NoDup_seq|]. split.
      - exists (procs s). by rewrite with_procs_id.
      - intros j. unfold same_but. by destruct (procs s !!! j).
      - intros j. by left.
      - done.
      - intros j Hj. rewrite decide_False; [done|]. rewrite elem_of_table. lia. }
  intros i l s1 [Hnd R]. apply NoDup_cons in Hnd as [Hil Hnd]. destruct (rp_frame _ _ _ _ R) as (ps & -> & Lps).
  unfold get, set. wp_steps. change (procs (with_procs s ps)) with ps.
  case_decide as Hd; [|apply wp_ret; split; [done|]; by eapply reparented_skip].
  wp_steps. set (ps1 := alter (λ q, q <| parent := initproc s |>) i ps).
  change (upd procs _ (with_procs s ps)) with (with_procs s ps1).
  destruct (wakeup_spec (proc_chan (initproc s)) (with_procs s ps1) Hh) as (ps2 & E2 & M2).
  eapply wp_intro; [exact E2|]. rewrite with_procs_twice. split; [done|]. eapply (reparented_hand p i l s ps); try done.
  rewrite <- Lps. destruct (decide (i < length ps)%nat); [done|].
  rewrite list_lookup_total_alt, lookup_ge_None_2 in Hd by lia. done.
Qed.

(** [s] after some calls on files by [p], with descriptors [o] left. *)
Definition given_up (p : nat) (o : list Z) (s s1 : kst F) : Prop :=
  ∃ x k ps, s1 = ((with_procs s ps) <| fs := x |>) <| km := k |> ∧ length ps = length (procs s) ∧
    ps !!! p = (procs s !!! p) <| ofile := o |> ∧ ∀ j, j ≠ p → file_woken (procs s !!! j) (ps !!! j).

Lemma given_up_frame p o s s1 s2 : cur s = Some p → given_up p o s s1 → fs_frame s1 s2 → given_up p o s s2.
Proof.
  intros Hc (x & k & ps & -> & L & Hp & Ho) (x' & k' & ps' & -> & L' & W). exists x', k', ps'. simpl in *.
  split_and!; [done|congruence| |].
  - rewrite (proj2 (W p)); done.
  - intros j Hj. eapply file_woken_trans; [by apply Ho|apply W].
Qed.
Lemma given_up_set p o f s s1 :
  (p < length (procs s))%nat → given_up p o s s1 →
  ∃ s2, set p (λ q, q <| ofile := f (ofile q) |>) s1 = Ret tt s2 ∧ given_up p (f o) s s2.
Proof.
  intros Hlt (x & k & ps & -> & L & Hp & Ho). eexists. split; [reflexivity|].
  exists x, k, (alter (λ q, q <| ofile := f (ofile q) |>) p ps). split_and!; [done|by rewrite length_alter| |].
  - rewrite lookup_total_alter by lia. by rewrite Hp.
  - intros j Hj. rewrite lookup_total_alter_ne by done. by apply Ho.
Qed.
Lemma given_up_unlocked p o s s1 : given_up p o s s1 → unlocked s → unlocked s1.
Proof. by intros (x & k & ps & -> & _). Qed.
Lemma given_up_refl p s : (p < length (procs s))%nat → given_up p (ofile (procs s !!! p)) s s.
Proof.
  intros Hp. exists (fs s), (km s), (procs s). split_and!; [by destruct s|done|by destruct (procs s !!! p)|]. intros j _. by left.
Qed.

(** Closing the descriptors of [l] clears them and no others. *)
Lemma close_loop_spec p l : ∀ o s s1 s',
  cur s = Some p → unlocked s → (p < length (procs s))%nat → length o = 16%nat → (∀ fd, fd ∈ l → (fd < 16)%nat) →
  given_up p o s s1 →
  for_each l (λ fd,
    let! pp := get p in
    let f := ofile pp !!! fd in
    if f =? 0 then ret tt else
    do! fileclose f in
    set p (λ q, q <| ofile := <[fd := 0]> (ofile q) |>)) s1 = Ret tt s' →
  ∃ o', given_up p o' s s' ∧ length o' = 16%nat ∧
    ∀ fd, (fd < 16)%nat → fd ∈ l ∨ o !! fd = Some 0 → o' !! fd = Some 0.
Proof.
  induction l as [|fd l IH]; intros o s s1 s' Hc Hu Hp Lo Hl G; cbn [for_each].
  { intros [= <-]. exists o. split; [done|]. split; [done|]. intros fd _ [[]%elem_of_nil|]; done. }
  assert (fd < 16)%nat as Hfd by (apply Hl; by left).
  assert (∀ g, g ∈ l → (g < 16)%nat) as Hl' by (intros g Hg; apply Hl; by right).
  assert (ofile (procs s1 !!! p) = o) as Eo by (destruct G as (x & k & ps & -> & _ & Ep & _); simpl; by rewrite Ep).
  intros ([] & s2 & E1 & E2)%bind_Ret. rewrite (bind_eq (get p) _ _ _ _ eq_refl), Eo in E1.
  cbv zeta in E1. destruct (Z.eqb_spec (o !!! fd) 0) as [Hz|Hz].
  - injection E1 as <-. destruct (IH _ _ _ _ Hc Hu Hp Lo Hl' G E2) as (o' & G' & L' & Ho').
    exists o'. split; [done|]. split; [done|]. intros g Hg [[->|Hin]%elem_of_cons|Hz0]; apply Ho'; auto.
    right. rewrite <- Hz. apply list_lookup_lookup_total_lt. lia.
  - apply bind_Ret in E1 as ([] & s3 & Ec & Es).
    apply fileclose_frame in Ec; [|by eapply given_up_unlocked]. pose proof (given_up_frame _ _ _ _ _ Hc G Ec) as G3.
    destruct (given_up_set p o (<[fd := 0]>) s s3 Hp G3) as (s4 & Es' & G4). rewrite Es in Es'. injection Es' as <-.
    destruct (IH _ _ _ _ Hc Hu Hp ltac:(by rewrite length_insert) Hl' G4 E2) as (o' & G' & L' & Ho').
    exists o'. split; [done|]. split; [done|].
    intros g Hg Hor. apply Ho'; [done|]. destruct (decide (g = fd)) as [->|Hne].
    + right. apply list_lookup_insert_eq. lia.
    + destruct Hor as [[->|Hin]%elem_of_cons|Hz0]; [done|by left|]. right. by rewrite list_lookup_insert_ne.
Qed.

(** What [exit] does first: every file and the directory are given up. *)
Definition give_up_files (p : nat) : M (kst F) unit :=
  do! close_files p in
  do! begin_op in
  let! pp := get p in
  do! iput (cwd pp) in
  end_op.

Lemma give_up_spec {A} (rest : M (kst F) A) p s s' :
  cur s = Some p → unlocked s → (p < length (procs s))%nat → length (ofile (procs s !!! p)) = 16%nat → give_up_files p s = Ret tt s' →
  (do! close_files p in do! begin_op in let! pp := get p in do! iput (cwd pp) in do! end_op in rest) s = rest s' ∧
  ∃ o, given_up p o s s' ∧ ∀ fd, (fd < 16)%nat → o !! fd = Some 0.
Proof.
  intros Hc Hu Hp Lo ([] & s1 & E1 & ([] & s2 & E2 & (pp & s3 & E3 & ([] & s4 & E4 & E5)%bind_Ret)%bind_Ret)%bind_Ret)%bind_Ret.
  injection E3 as <- <-. split.
  { by rewrite (bind_eq _ _ _ _ _ E1), (bind_eq _ _ _ _ _ E2), (bind_eq (get p) _ _ _ _ eq_refl), (bind_eq _ _ _ _ _ E4), (bind_eq _ _ _ _ _ E5). }
  assert (∀ fd, fd ∈ seq 0 (Z.to_nat NOFILE) → (fd < 16)%nat) as Hfds.
  { intros fd Hfd%elem_of_seq. change (Z.to_nat NOFILE) with 16%nat in *. lia. }
  destruct (close_loop_spec p _ _ s s s1 Hc Hu Hp Lo Hfds (given_up_refl p s Hp) E1) as (o & G1 & _ & Ho).
  apply begin_op_frame in E2; [|by eapply given_up_unlocked]. pose proof (given_up_frame _ _ _ _ _ Hc G1 E2) as G2.
  apply iput_frame in E4; [|by eapply given_up_unlocked]. pose proof (given_up_frame _ _ _ _ _ Hc G2 E4) as G4.
  apply end_op_frame in E5; [|by eapply given_up_unlocked]. pose proof (given_up_frame _ _ _ _ _ Hc G4 E5) as G5.
  exists o. split; [done|]. intros fd Hfd. apply Ho; [done|]. left. apply elem_of_seq. change (Z.to_nat NOFILE) with 16%nat. lia.
Qed.

(** The state in which [exit] gives up the CPU for good. *)
Record exited (p ip : nat) (status : Z) (s s1 : kst F) : Prop := {
  ex_locks : held s1 = [PLock p];
  ex_cur : cur s1 = Some p;
  ex_zombie : state (procs s1 !!! p) = ZOMBIE;
  ex_status : xstate (procs s1 !!! p) = status;
  ex_etime : etime (procs s1 !!! p) = ticks s;
  ex_files : ∀ fd, (fd < 16)%nat → ofile (procs s1 !!! p) !! fd = Some 0;
  ex_cwd : cwd (procs s1 !!! p) = 0;
  ex_children : ∀ j, (j < 64)%nat → parent (procs s1 !!! j) =
    if decide (parent (procs s !!! j) = Some p) then Some ip else parent (procs s !!! j);
  ex_woken : ∀ q, parent (procs s !!! p) = Some q → q ≠ p → (q < 64)%nat →
    state (procs s !!! q) = SLEEPING → chan (procs s !!! q) = ProcChan q →
    state (procs s1 !!! q) = RUNNABLE;
  ex_others : ∀ j, j ≠ p → ∃ ch, maybe_woken ch (procs s !!! j) (procs s1 !!! j) ∧
    (ch = ProcChan ip ∨ ch = proc_chan (parent (procs s !!! p)) ∨ ∃ a, ch = AddrChan a)
}.

(** The end of [exit], with the lock of [wait] held. *)
Lemma exit_last swtch_out p status s ps :
  cur s = Some p → (p < length ps)%nat →
  (do! acquire (PLock p) in
   do! set p (λ q, q <| xstate := status |>) in
   do! set p (λ q, q <| state := ZOMBIE |>) in
   let! now := gets ticks in
   do! set p (λ q, q <| etime := now |>) in
   do! release WaitLock in
   do! sched swtch_out in
   panic "zombie exit") (with_procs (s <| held := [WaitLock] |>) ps) =
  (do! swtch_out p in do! set_intena (Z.land (sstatus (regs s)) SSTATUS_SIE) in (panic "zombie exit" : M (kst F) unit))
    ((with_procs s (alter (λ q, ((q <| xstate := status |>) <| state := ZOMBIE |>) <| etime := ticks s |>) p ps)) <| held := [PLock p] |>).
Proof.
  intros Hc Hp. assert (acquire (PLock p) (with_procs (s <| held := [WaitLock] |>) ps) =
    Ret tt (with_procs (s <| held := [PLock p; WaitLock] |>) ps)) as Eb.
  { rewrite acquire_eq; [done|]. intros [=]%list_elem_of_singleton. }
  rewrite (bind_eq _ _ _ _ _ Eb). do 2 rewrite (bind_eq (set _ _) _ _ _ _ eq_refl).
  rewrite (bind_eq (gets ticks) _ _ _ _ eq_refl). rewrite (bind_eq (set _ _) _ _ _ _ eq_refl).
  set (f := λ q : proc, ((q <| xstate := status |>) <| state := ZOMBIE |>) <| etime := ticks s |>).
  match goal with |- context [bind (release WaitLock) _ ?st] =>
    assert (st = with_procs (s <| held := [PLock p; WaitLock] |>) (alter f p ps)) as -> end.
  { transitivity (with_procs (s <| held := [PLock p; WaitLock] |>)
      (alter (λ q, q <| etime := ticks s |>) p (alter (λ q, q <| state := ZOMBIE |>) p
        (alter (λ q, q <| xstate := status |>) p ps)))); [reflexivity|].
    by rewrite !alter_twice. }
  set (s4 := (with_procs s (alter f p ps)) <| held := [PLock p] |>).
  assert (release WaitLock (with_procs (s <| held := [PLock p; WaitLock] |>) (alter f p ps)) = Ret tt s4)
    as Er by reflexivity.
  rewrite (bind_eq _ _ _ _ _ Er). assert (procs s4 !!! p = f (ps !!! p)) as Pp by (apply lookup_total_alter; lia).
  unfold sched. rewrite !bind_assoc. erewrite bind_eq by (by apply curproc_eq). rewrite !bind_assoc.
  rewrite (bind_eq (holding _) _ s4 true s4) by (unfold holding, holding_lk, gets; by rewrite bool_decide_true by (by left)).
  cbn [negb]. rewrite !bind_assoc. rewrite (bind_eq (gets _) _ _ _ _ eq_refl). change (length (held s4)) with 1%nat. cbn [Nat.eqb negb].
  rewrite !bind_assoc. rewrite (bind_eq (get p) _ _ _ _ eq_refl), Pp, decide_False by done.
  rewrite ?bind_assoc. rewrite (bind_eq intr_get _ s4 false s4 eq_refl). cbv iota. rewrite ?bind_assoc.
  rewrite (bind_eq get_intena _ _ _ _ eq_refl). by rewrite !bind_assoc.
Qed.

(** The part of [exit] after [p->cwd = 0]. *)
Lemma exit_tail_spec swtch_out p ip status s :
  held s = [] → cur s = Some p → (p < 64)%nat → length (procs s) = 64%nat →
  initproc s = Some ip → ip ≠ p → parent (procs s !!! p) ≠ Some p →
  ∃ s1 ps, (do! acquire WaitLock in
    do! reparent p in
    let! pp := get p in
    do! wakeup (proc_chan (parent pp)) in
    do! acquire (PLock p) in
    do! set p (λ q, q <| xstate := status |>) in
    do! set p (λ q, q <| state := ZOMBIE |>) in
    let! now := gets ticks in
    do! set p (λ q, q <| etime := now |>) in
    do! release WaitLock in
    do! sched swtch_out in
    panic "zombie exit") s =
      (do! swtch_out p in do! set_intena (Z.land (sstatus (regs s)) SSTATUS_SIE) in (panic "zombie exit" : M (kst F) unit)) s1 ∧
    s1 = (with_procs s (alter (λ q, ((q <| xstate := status |>) <| state := ZOMBIE |>)
             <| etime := ticks s |>) p ps)) <| held := [PLock p] |> ∧
    length ps = 64%nat ∧
    (∀ j, same_but (procs s !!! j) (ps !!! j)) ∧
    (∀ j, maybe_woken (ProcChan ip) (procs s !!! j) (ps !!! j) ∨
          maybe_woken (proc_chan (parent (procs s !!! p))) (procs s !!! j) (ps !!! j)) ∧
    (∀ j, (j < 64)%nat → parent (ps !!! j) =
      if decide (parent (procs s !!! j) = Some p) then Some ip else parent (procs s !!! j)) ∧
    (∀ q, parent (procs s !!! p) = Some q → q ≠ p → (q < 64)%nat →
       state (procs s !!! q) = SLEEPING → chan (procs s !!! q) = ProcChan q →
       state (ps !!! q) = RUNNABLE).
Proof.
  intros Hh Hc Hp Hl Hip Hne Hself.
  assert (acquire WaitLock s = Ret tt (s <| held := [WaitLock] |>)) as Ea.
  { rewrite acquire_eq; rewrite Hh; [done|apply not_elem_of_nil]. }
  rewrite (bind_eq _ _ _ _ _ Ea). set (s1 := s <| held := [WaitLock] |>).
  assert (∀ i, PLock i ∉ held s1) as Hw by (intros i [=]%list_elem_of_singleton).
  destruct (reparent_spec p s1 Hw Hl) as (s2 & E2 & [(ps2 & -> & L2) Rs Rst Rm Rp]).
  { intros q Hq. change (initproc s1) with (initproc s) in Hq. congruence. }
  rewrite (bind_eq _ _ _ _ _ E2). change (procs (with_procs s1 ps2)) with ps2 in *.
  change (initproc s1) with (initproc s) in *. change (procs s1) with (procs s) in *.
  rewrite Hip in *. rewrite (bind_eq (get p) _ _ _ _ eq_refl).
  change (procs (with_procs s1 ps2)) with ps2.
  assert (parent (ps2 !!! p) = parent (procs s !!! p)) as Epar.
  { rewrite Rp by lia. rewrite decide_False; [done|tauto]. }
  rewrite Epar.
  destruct (wakeup_spec (proc_chan (parent (procs s !!! p))) (with_procs s1 ps2) Hw) as (ps3 & E3 & M3).
  rewrite (bind_eq _ _ _ _ _ E3), with_procs_twice.
  change (procs (with_procs s1 ps2)) with ps2 in M3. change (cur (with_procs s1 ps2)) with (cur s) in M3.
  pose proof (λ j, mapped_woken _ _ _ _ j M3) as W.
  assert (length ps3 = 64%nat) as L3 by (rewrite (proj1 M3), L2; done).
  eexists _, ps3. split; [apply (exit_last swtch_out p status s ps3 Hc ltac:(lia))|].
  split; [done|]. split; [done|]. split; [|split; [|split]].
  - intros j. destruct (W j) as (W1 & _). specialize (Rs j). unfold same_but in *.
    etransitivity; [exact W1|]. rewrite Rs. by destruct (procs s !!! j).
  - intros j. destruct (W j) as (_ & W2 & _). specialize (Rst j). specialize (Rs j).
    assert (chan (ps2 !!! j) = chan (procs s !!! j)) as Ech by (by rewrite Rs).
    unfold maybe_woken in *. rewrite Ech in W2. change (proc_chan (Some ip)) with (ProcChan ip) in Rst.
    destruct Rst as [E5|(?&?&E5)]; rewrite E5 in W2; intuition congruence.
  - intros j Hj. destruct (W j) as (_ & _ & W3 & _). rewrite W3, Rp by lia.
    destruct (decide (parent (procs s !!! j) = Some p)).
    + rewrite decide_True; [done|]. split; [done|apply not_elem_of_nil].
    + by rewrite decide_False by tauto.
  - intros q Hq Hqp Hq64 Hst Hch. specialize (Rst q). specialize (Rs q).
    assert (chan (ps2 !!! q) = chan (procs s !!! q)) as Ech by (by rewrite Rs).
    rewrite (proj2 M3 q). rewrite decide_True by (split; [by apply elem_of_table|lia]).
    unfold woken. rewrite Hq, Hc. destruct Rst as [E5|(_ & _ & E5)].
    + rewrite decide_True; [done|]. split; [congruence|]. rewrite E5, Ech. done.
    + rewrite decide_False; [done|]. intros (_ & ? & _). congruence.
Qed.

Lemma woken_twice p p1 p2 chs ch :
  file_woken p p1 → maybe_woken ch p1 p2 → chs ch → (∀ a, chs (AddrChan a)) → ∃ ch', maybe_woken ch' p p2 ∧ chs ch'.
Proof.
  intros [->|(Hs & (a & Ha) & ->)] Hm Hch Haddr; [by exists ch|]. exists (AddrChan a). split; [|done].
  right. unfold maybe_woken in Hm. simpl in Hm. naive_solver.
Qed.

(** C37: A process that exits is ready to be reaped, whatever happens next.
    If its files and directory can be given up, [exit] reaches its last [swtch]
    holding only its own lock, as a ZOMBIE with its status and exit time
    recorded, its descriptors and its directory cleared, its children handed
    to [init], and its parent woken if it was sleeping in [wait]; every other
    process kept its state or was woken, from a sleep in [wait] or from one
    that giving up the files ends: on the log, on the sleep lock of a buffer
    or an inode, on an end of a pipe. If control ever came back, [exit] would
    panic: it does not return. Of the file system it relies on [FsFrame]: its
    calls change no process except by waking sleepers on addresses, which
    [files_frame] proves of the calls of File.v with their wakeups. *)
Theorem exit_becomes_zombie swtch_out p ip status s s' :
  held s = [] → cur s = Some p → (p < 64)%nat → length (procs s) = 64%nat →
  length (ofile (procs s !!! p)) = 16%nat →
  initproc s = Some ip → ip ≠ p → parent (procs s !!! p) ≠ Some p → give_up_files p s = Ret tt s' →
  ∃ s1, exit swtch_out status s =
      (do! swtch_out p in do! set_intena (Z.land (sstatus (regs s)) SSTATUS_SIE) in panic "zombie exit") s1 ∧
    exited p ip status s s1.
Proof.
  intros Hh Hc Hp Hl Ho Hip Hne Hself Hg. unfold exit. rewrite (bind_eq _ _ _ _ _ (curproc_eq _ _ Hc)).
  rewrite (bind_eq (gets initproc) _ _ _ _ eq_refl), Hip, decide_False by congruence.
  assert (unlocked s) as Hu by (intros i; rewrite Hh; apply not_elem_of_nil).
  match goal with |- context [do! end_op in ?r] => destruct (give_up_spec r p s s' Hc Hu ltac:(lia) Ho Hg)
    as (-> & o & (x & k & ps0 & -> & L0 & Hp0 & Hw0) & Ho0) end.
  rewrite (bind_eq (set _ _) _ _ _ _ eq_refl).
  match goal with |- context [bind (acquire WaitLock) _ ?st] =>
    change st with (((with_procs s (alter (λ q, q <| cwd := 0 |>) p ps0)) <| fs := x |>) <| km := k |>) end.
  set (s2 := ((with_procs s (alter (λ q, q <| cwd := 0 |>) p ps0)) <| fs := x |>) <| km := k |>).
  assert (procs s2 !!! p = ((procs s !!! p) <| ofile := o |>) <| cwd := 0 |>) as P2 by (simpl; rewrite lookup_total_alter by lia; by rewrite Hp0).
  assert (∀ j, j ≠ p → file_woken (procs s !!! j) (procs s2 !!! j)) as P2'
    by (intros j Hj; simpl; rewrite lookup_total_alter_ne by congruence; by apply Hw0).
  assert (length (procs s2) = 64%nat) as L2 by (simpl; rewrite length_alter; lia).
  destruct (exit_tail_spec swtch_out p ip status s2) as (s1 & ps & E & Es1 & Lps & Hsame & Hst & Hpar & Hwk);
    try done; [by rewrite P2|].
  exists s1. split; [exact E|].
  set (h := λ q : proc, ((q <| xstate := status |>) <| state := ZOMBIE |>) <| etime := ticks s2 |>) in Es1.
  assert (procs s1 !!! p = h (ps !!! p)) as Pp by (rewrite Es1; apply lookup_total_alter; lia).
  assert (∀ j, j ≠ p → procs s1 !!! j = ps !!! j) as Pj
    by (intros j Hj; rewrite Es1; apply lookup_total_alter_ne; congruence).
  pose proof (Hsame p) as Sp. unfold same_but in Sp. rewrite P2 in Sp.
  assert (∀ j, parent (procs s2 !!! j) = parent (procs s !!! j)) as Epar.
  { intros j. destruct (decide (j = p)) as [->|Hj]; [by rewrite P2|]. by destruct (P2' j Hj) as [->|(_ & _ & ->)]. }
  rewrite Epar in Hwk, Hst.
  split; try (rewrite Pp; reflexivity).
  - by rewrite Es1.
  - by rewrite Es1.
  - intros fd Hfd. rewrite Pp. unfold h. change (ofile (ps !!! p) !! fd = Some 0).
    rewrite Sp. by apply Ho0.
  - rewrite Pp. change (cwd (ps !!! p) = 0). by rewrite Sp.
  - intros j Hj. specialize (Hpar j Hj). rewrite Epar in Hpar.
    destruct (decide (j = p)) as [->|Hjp]; [rewrite Pp; exact Hpar|by rewrite Pj].
  - intros q Hq Hqp Hq64 Hs Hch. rewrite Pj by done.
    assert (procs s2 !!! q = procs s !!! q) as Eq by (destruct (P2' q Hqp) as [?|(_ & (a & Ha) & _)]; [done|congruence]).
    by apply Hwk; rewrite ?Eq.
  - intros j Hj. rewrite Pj by done. destruct (Hst j) as [Hm|Hm]; (eapply (woken_twice _ _ _ _ _ (P2' j Hj) Hm); eauto).
Qed.
End exit.

Section basic.
Context {F : Type}.
Implicit Types (s : kst F).

(** [wakeup(ch)] makes runnable exactly the processes sleeping on [ch],
    other than the caller, and changes nothing else: no other field, no other
    process, no lock. *)
Theorem wakeup_exact ch s :
  (∀ i, PLock i ∉ held s) → length (procs s) = 64%nat →
  ∃ ps', wakeup ch s = Ret tt (with_procs s ps') ∧ length ps' = 64%nat ∧
    ∀ j, (j < 64)%nat →
      ps' !!! j = if decide (cur s ≠ Some j ∧ state (procs s !!! j) = SLEEPING ∧
                             chan (procs s !!! j) = ch)
                  then (procs s !!! j) <| state := RUNNABLE |> else procs s !!! j.
Proof.
  intros Hh Hl. destruct (wakeup_spec ch s Hh) as (ps' & E & L & P).
  exists ps'. split; [done|]. split; [lia|]. intros j Hj. rewrite (P j).
  rewrite decide_True by (split; [by apply elem_of_table|lia]). done.
Qed.

(** [kill(pid)] marks exactly the first process with that pid, waking it
    if it sleeps so that it can notice, and returns 0; without such a process
    it changes nothing and returns -1. *)
Lemma kill_exact target s :
  (∀ i, PLock i ∉ held s) →
  (∃ i, (i < 64)%nat ∧ pid (procs s !!! i) = target ∧
        (∀ j, (j < i)%nat → pid (procs s !!! j) ≠ target) ∧
        kill target s = Ret 0 (with_procs s (alter slain i (procs s)))) ∨
  ((∀ j, (j < 64)%nat → pid (procs s !!! j) ≠ target) ∧ kill target s = Ret (-1) s).
Proof.
  intros Hh. rewrite kill_eq by done. unfold find_pid.
  destruct (list_find _ table) as [[k i]|] eqn:E; cbn [mbind option_bind snd].
  - left. apply list_find_Some in E as (Hk & Hp & Hmin). exists i.
    apply lookup_seq in Hk as [-> Hk]. split; [lia|]. split; [done|]. split; [|done].
    intros j Hj. apply (Hmin j j); [|lia]. apply lookup_seq. lia.
  - right. split; [|done]. intros j Hj Hp. apply list_find_None in E.
    rewrite Forall_forall in E. apply (E j); [by apply elem_of_table|done].
Qed.

(** ** getSysCount *)

(** The loop keeps the highest set bit between 1 and 31, or the old [j]. *)
Lemma last_bit_spec mask j :
  let r := last_bit mask j in
  (r = j ∧ ∀ b, 1 ≤ b < 32 → Z.testbit mask b = false) ∨
  (1 ≤ r < 32 ∧ Z.testbit mask r = true ∧ ∀ b, r < b < 32 → Z.testbit mask b = false).
Proof.
  unfold last_bit. change (NUMBER_OF_SYSCALLS - 1) with (Z.of_nat 31).
  assert (∀ n, (n ≤ 31)%nat →
    let r := fold_left (λ j b, if Z.land (Z.shiftr mask b) 1 =? 0 then j else b)
               (seqZ 1 (Z.of_nat n)) j in
    (r = j ∧ ∀ b, 1 ≤ b < 1 + Z.of_nat n → Z.testbit mask b = false) ∨
    (1 ≤ r < 1 + Z.of_nat n ∧ Z.testbit mask r = true ∧
     ∀ b, r < b < 1 + Z.of_nat n → Z.testbit mask b = false)) as H.
  2:{ apply (H 31%nat). lia. }
  induction n as [|n IH]; intros Hn; [left; split; [done|lia]|].
  rewrite seqZ_S, fold_left_app. cbn [fold_left]. specialize (IH ltac:(lia)).
  set (r := fold_left _ (seqZ 1 (Z.of_nat n)) j) in *. cbv zeta in IH.
  set (b := 1 + Z.of_nat n).
  assert ((Z.land (Z.shiftr mask b) 1 =? 0) = negb (Z.testbit mask b)) as ->.
  { rewrite (Z.land_ones _ 1 ltac:(lia)). change (2 ^ 1) with 2. rewrite <- Z.bit0_mod.
    rewrite Z.shiftr_spec, Z.add_0_l by lia. by destruct (Z.testbit mask b). }
  assert (∀ x, x < 1 + Z.of_nat (S n) → x < b ∨ x = b) as Hb by (unfold b; lia).
  destruct (Z.testbit mask b) eqn:Eb; cbn [negb].
  - right. unfold b in *. split; [lia|]. split; [done|]. lia.
  - destruct IH as [[-> Hz]|(Hr & Ht & Hz)]; [left; split; [done|]|right; split; [unfold b in *; lia|split; [done|]]];
      intros x Hx; destruct (Hb x) as [?| ->]; try done; try lia; apply Hz; unfold b in *; lia.
Qed.

Lemma last_bit_single k j : 1 ≤ k < 32 → last_bit (Z.shiftl 1 k) j = k.
Proof.
  intros Hk. assert (∀ b, 0 ≤ b → Z.testbit (Z.shiftl 1 k) b = (b =? k)) as Hb.
  { intros b Hb. rewrite Z.shiftl_1_l, Z.pow2_bits_eqb by lia. apply Z.eqb_sym. }
  destruct (last_bit_spec (Z.shiftl 1 k) j) as [[_ Hz]|(Hr & Ht & _)].
  - specialize (Hz k ltac:(lia)). rewrite Hb, Z.eqb_refl in Hz by lia. done.
  - rewrite Hb in Ht by lia. by apply Z.eqb_eq in Ht.
Qed.

(** [getSysCount] with one bit [k] set, for a system call number [k],
    returns the process's count of system call [k] and prints it with that
    call's name. *)
Theorem getSysCount_single_bit i k s :
  cur s = Some i → 1 ≤ k ≤ 27 → length (syscall_count (procs s !!! i)) = 32%nat →
  ∃ nm n s', syscall_names !! Z.to_nat (k - 1) = Some nm ∧
    syscall_count (procs s !!! i) !! Z.to_nat k = Some n ∧
    getSysCount (Z.shiftl 1 k) s = Ret (Some (s32 n)) s' ∧
    s' = (s <| j_global := k |>) <| out := out s' |> ∧ j_global s' = k ∧
    out s' = out s ++ default [] (printf ("PID %d called %s %d times." +:+ nl)
      [AInt (pid (procs s !!! i)); AStr (Some (bytes nm)); AInt (s32 n)]).
Proof.
  intros Hc Hk Hlen.
  pose proof (last_bit_single k (j_global s) ltac:(lia)) as Hj.
  destruct (lookup_lt_is_Some_2 syscall_names (Z.to_nat (k - 1))) as [nm Hnm].
  { change (length syscall_names) with 27%nat. lia. }
  destruct (lookup_lt_is_Some_2 (syscall_count (procs s !!! i)) (Z.to_nat k)) as [n Hn]; [lia|].
  exists nm, n. unfold getSysCount. rewrite (bind_eq _ _ _ _ _ (curproc_eq _ _ Hc)).
  rewrite (bind_eq (modify _) _ _ _ _ eq_refl), Hj. rewrite (bind_eq (gets j_global) _ _ _ _ eq_refl).
  rewrite (bind_eq (get i) _ _ _ _ eq_refl). set (s1 := s <| j_global := k |>).
  change (j_global s1) with k. change (procs s1) with (procs s).
  unfold syscall_name. rewrite decide_True by lia. rewrite Hnm, Hn.
  eexists. split; [done|]. split; [done|]. split; [reflexivity|]. done.
Qed.

(** [getSysCount] with no bit between 1 and 31 set answers for the system
    call asked about last, by any process: the global [j] keeps its value. *)
Lemma getSysCount_stale_mask i mask s :
  cur s = Some i → 1 ≤ j_global s < 32 → (∀ b, 1 ≤ b < 32 → Z.testbit mask b = false) →
  getSysCount mask s = getSysCount (Z.shiftl 1 (j_global s)) s.
Proof.
  intros Hc Hj Hz.
  assert (last_bit mask (j_global s) = j_global s) as E1.
  { destruct (last_bit_spec mask (j_global s)) as [[? _]|(Hr & Ht & _)]; [done|].
    by rewrite Hz in Ht. }
  unfold getSysCount. rewrite !(bind_eq _ _ _ _ _ (curproc_eq _ _ Hc)).
  rewrite !(bind_eq (modify _) _ _ _ _ eq_refl). by rewrite E1, last_bit_single by lia.
Qed.
End basic.

(** ** Witnesses *)

#[local] Instance demo_fs : FsOps unit := {|
  filedup := λ f, ret f; fileclose := λ _, ret tt; idup := λ i, ret i; iput := λ _, ret tt;
  begin_op := ret tt; end_op := ret tt; namei := λ _, ret 1; fsinit := λ _, ret tt
|}.
#[local] Instance demo_fs_frame : FsFrame unit.
Proof.
  assert (∀ s : kst unit, fs_frame s s) as H by (intros s; exists (fs s), (km s), (procs s); split; [by destruct s|apply files_woken_refl]).
  split; intros; match goal with E : _ = Ret _ _ |- _ => injection E as <- end; apply H.
Qed.
#[local] Instance demo_text : KernelText := {|
  forkret_pc := 0; usertrap_pc := 0; uservec_pc := 0; userret_pc := 0; kernelvec_pc := 0
|}.

(** init asleep in [wait], its child 1 running with an open file, and 1's
    child 2. *)
Definition life_state : kst unit :=
  mk_kst unit
    ([zero_proc <| state := SLEEPING |> <| chan := ProcChan 0 |> <| pid := 1 |>;
      zero_proc <| state := RUNNING |> <| pid := 2 |> <| parent := Some 0%nat |>
        <| ofile := 77 :: replicate 15 0 |>;
      zero_proc <| state := SLEEPING |> <| chan := TicksChan |> <| pid := 3 |> <| parent := Some 1%nat |>]
     ++ replicate 61 zero_proc)
    [] (mk_kmem ∅ 0) tt 4 100 (Some 0%nat) [0; 0; 0; 0] [0; 0; 0; 0] [] 0 0 5 (Some 1%nat) [] true zero_hart.

Lemma exit_becomes_zombie_witness :
  ∃ s1, exit (λ _, ret tt) 9 life_state = (do! ret tt in do! set_intena 0 in panic "zombie exit") s1 ∧
    state (procs s1 !!! 0%nat) = RUNNABLE ∧ parent (procs s1 !!! 2%nat) = Some 0%nat.
Proof.
  destruct (exit_becomes_zombie (λ _, ret tt) 1 0 9 life_state
    (life_state <| procs := alter (λ q, q <| ofile := replicate 16 0 |>) 1%nat (procs life_state) |>)) as (s1 & E & Hx);
    [reflexivity|reflexivity|lia|reflexivity|reflexivity|reflexivity|discriminate|discriminate|reflexivity|].
  exists s1. split; [exact E|]. split.
  - apply (ex_woken _ _ _ _ _ Hx 0%nat); [reflexivity|discriminate|lia|reflexivity|reflexivity].
  - exact (ex_children _ _ _ _ _ Hx 2%nat ltac:(lia)).
Defined.

Lemma life_unlocked i : PLock i ∉ held life_state.
Proof. apply not_elem_of_nil. Qed.

Lemma wakeup_exact_witness :
  ∃ ps, wakeup TicksChan life_state = Ret tt (with_procs life_state ps) ∧
    state (ps !!! 2%nat) = RUNNABLE ∧ state (ps !!! 0%nat) = SLEEPING.
Proof.
  destruct (wakeup_exact TicksChan life_state life_unlocked eq_refl) as (ps & E & _ & P).
  exists ps. split; [exact E|]. split.
  - rewrite (P 2%nat ltac:(lia)). reflexivity.
  - rewrite (P 0%nat ltac:(lia)). reflexivity.
Defined.

Lemma kill_exact_witness :
  (∃ i, (i < 64)%nat ∧ kill 3 life_state = Ret 0 (with_procs life_state (alter slain i (procs life_state)))) ∨
  kill 3 life_state = Ret (-1) life_state.
Proof.
  destruct (kill_exact 3 life_state life_unlocked) as [(i & Hi & _ & _ & E)|[_ E]].
  - left. exists i. split; [exact Hi|exact E].
  - right. exact E.
Defined.

Lemma getSysCount_single_bit_witness :
  ∃ n s', getSysCount (Z.shiftl 1 5) life_state = Ret (Some (s32 n)) s' ∧ j_global s' = 5.
Proof.
  destruct (getSysCount_single_bit 1 5 life_state eq_refl ltac:(lia) eq_refl)
    as (nm & n & s' & _ & _ & E & _ & Ej & _).
  exists n, s'. split; [exact E|exact Ej].
Defined.

Lemma getSysCount_stale_mask_witness :
  getSysCount 1 life_state = getSysCount (Z.shiftl 1 5) life_state.
Proof.
  apply (getSysCount_stale_mask 1 1 life_state eq_refl).
  - split; [discriminate|reflexivity].
  - intros b Hb. apply Z.bits_above_log2; [lia|]. change (Z.log2 1) with 0. lia.
Defined.
