(* ===== verification/Syscall.v ===== *)
(** * System calls ([kernel/syscall.c], [kernel/sysproc.c])

    Argument fetching, the process-related handlers and the dispatcher. The
    handlers of [sysfile.c] are reached through the class [FileCalls]. A
    handler's result is the [uint64] stored in the caller's [a0]. *)

From S2P Require Import Prelude.
From S2P Require Import Machine.
From S2P Require Import KString.
From S2P Require Import Printf.
From S2P Require Import Spinlock.
From S2P Require Import Kalloc.
From S2P Require Import Vm.
From S2P Require Import Proc.
From S2P Require Import ProcLife.
#[local] Open Scope Z_scope.

(** syscall.h. *)
Definition SYS_fork : Z := 1.
Definition SYS_exit : Z := 2.
Definition SYS_wait : Z := 3.
Definition SYS_kill : Z := 6.
Definition SYS_getpid : Z := 11.
Definition SYS_sbrk : Z := 12.
Definition SYS_sleep : Z := 13.
Definition SYS_uptime : Z := 14.
Definition SYS_waitx : Z := 22.
Definition SYS_getSysCount : Z := 23.
Definition SYS_sigalarm : Z := 24.
Definition SYS_sigreturn : Z := 25.
Definition SYS_settickets : Z := 26.
Definition SYS_printlog : Z := 27.
(** [NELEM(syscalls)]. *)
Definition NSYSCALLS : Z := 28.

(** The handlers of sysfile.c by system call number: pipe, read, exec, fstat,
    chdir, dup, open, write, mknod, unlink, link, mkdir, close. *)
Class FileCalls (F : Type) := sys_file : Z → M (kst F) Z.

Section args.
Context {F : Type}.

(** [p->trapframe->a<n>]. *)
Definition argraw (n : Z) : M (kst F) Z :=
  let! i := curproc in
  let! p := get i in
  if (0 <=? n) && (n <=? 5) then load_tf (trapframe p) (tf_a0 + 8 * n)
  else panic "argraw".

Definition argint (n : Z) : M (kst F) Z := let! v := argraw n in ret (s32 v).
Definition argaddr (n : Z) : M (kst F) Z := argraw n.

(** The 8 bytes read and the result. *)
Definition fetchaddr (addr : Z) : M (kst F) (Z * Z) :=
  let! i := curproc in
  let! p := get i in
  if (sz p <=? addr) || (sz p <? u64 (addr + 8)) then ret (-1, 0) else
  let! r := with_km (copyin (pagetable p) addr 8) in
  if negb (r.1 =? 0) then ret (-1, 0) else ret (0, le_value r.2).

(** The length, or -1, and the characters before the NUL. *)
Definition fetchstr (addr max : Z) : M (kst F) (Z * list Z) :=
  let! i := curproc in
  let! p := get i in
  let! r := with_km (copyinstr (pagetable p) addr max) in
  if r.1 <? 0 then ret (-1, []) else
  ret (Z.of_nat (length (until_nul r.2)), until_nul r.2).

Definition argstr (n max : Z) : M (kst F) (Z * list Z) :=
  let! addr := argaddr n in fetchstr addr max.
End args.

Section sysproc.
Context {F : Type} `{!KernelImage} `{!KernelText} `{!FsOps F}.
Variable swtch_out : nat → M (kst F) unit.

Definition sys_printlog : M (kst F) Z := do! print_logg in ret 0.

Definition sys_sigalarm : M (kst F) Z :=
  let! interval := argint 0 in
  let! h := argaddr 1 in
  let! i := curproc in
  do! set i (λ p, p <| p_ticks := interval |>) in
  do! set i (λ p, p <| handler := h |>) in
  do! set i (λ p, p <| alarm_act := 1 |>) in
  ret 0.

Definition sys_sigreturn : M (kst F) Z :=
  let! i := curproc in
  let! p := get i in
  do! with_km (set_mem (λ m, memmove m (trapframe p) (alarm_tf p) PGSIZE)) in
  do! with_km (kfree (alarm_tf p)) in
  do! set i (λ p, p <| hlp := 1 |>) in
  let! p := get i in
  load_tf (trapframe p) tf_a0.

Definition sys_settickets : M (kst F) Z :=
  let! n := argint 0 in
  if n <? 1 then ret (u64 (-1)) else
  let! i := curproc in
  do! set i (λ p, p <| tickets := n |>) in
  ret 0.

(** Reading past [syscall_names] is undefined behaviour, modelled as a fault. *)
Definition sys_getSysCount : M (kst F) Z :=
  let! mask := argint 0 in
  let! i := curproc in
  do! set i (λ p, p <| s1 := mask |>) in
  let! r := getSysCount mask in
  match r with
  | Some n => ret (u64 n)
  | None => panic "kerneltrap"
  end.

Definition sys_exit : M (kst F) Z :=
  let! n := argint 0 in
  do! exit swtch_out n in
  ret 0.

Definition sys_getpid : M (kst F) Z :=
  let! i := curproc in let! p := get i in ret (u64 (pid p)).

Definition sys_fork : M (kst F) Z := let! r := fork in ret (u64 r).

Definition sys_wait (fuel : nat) : M (kst F) Z :=
  let! p := argaddr 0 in
  let! r := wait swtch_out fuel p in ret (u64 r).

Definition sys_sbrk : M (kst F) Z :=
  let! n := argint 0 in
  let! i := curproc in
  let! p := get i in
  let! r := growproc n in
  if r <? 0 then ret (u64 (-1)) else ret (sz p).

(** [while(ticks - ticks0 < n)], going round at most [fuel] times; the
    comparison is unsigned. *)
Fixpoint sleep_loop (fuel : nat) (ticks0 n : Z) : M (kst F) Z :=
  match fuel with
  | O => λ s, NoFuel s
  | S fuel' =>
      let! now := gets ticks in
      if u32 (now - ticks0) <? u32 n then
        let! i := curproc in
        let! k := killed i in
        if negb (k =? 0) then
          do! release TicksLock in ret (u64 (-1))
        else
          do! sleep swtch_out TicksChan TicksLock in
          sleep_loop fuel' ticks0 n
      else
        do! release TicksLock in ret 0
  end.
Definition sys_sleep (fuel : nat) : M (kst F) Z :=
  let! n := argint 0 in
  do! acquire TicksLock in
  let! ticks0 := gets ticks in
  sleep_loop fuel ticks0 n.

Definition sys_kill : M (kst F) Z :=
  let! p := argint 0 in
  let! r := kill p in ret (u64 r).

Definition sys_uptime : M (kst F) Z :=
  do! acquire TicksLock in
  let! x := gets ticks in
  do! release TicksLock in
  ret x.

(** [wtime] and [rtime] are not initialised when [waitx] finds no child;
    [junk] stands for what the stack holds. *)
Definition sys_waitx (fuel : nat) (junk : Z * Z) : M (kst F) Z :=
  let! addr := argaddr 0 in
  let! addr1 := argaddr 1 in
  let! addr2 := argaddr 2 in
  let! r := waitx swtch_out fuel addr in
  let times := default junk r.2 in
  let! i := curproc in
  let! p := get i in
  let! c1 := with_km (copyout (pagetable p) addr1 (le_bytes 4 times.1)) in
  if c1 <? 0 then ret (u64 (-1)) else
  let! c2 := with_km (copyout (pagetable p) addr2 (le_bytes 4 times.2)) in
  if c2 <? 0 then ret (u64 (-1)) else
  ret (u64 r.1).

(** ** The dispatcher *)

Context `{!FileCalls F}.
Variable fuel : nat.
Variable junk : Z * Z.

(** The table [syscalls]. *)
Definition syscalls (num : Z) : M (kst F) Z :=
  if num =? SYS_fork then sys_fork
  else if num =? SYS_exit then sys_exit
  else if num =? SYS_wait then sys_wait fuel
  else if num =? SYS_kill then sys_kill
  else if num =? SYS_getpid then sys_getpid
  else if num =? SYS_sbrk then sys_sbrk
  else if num =? SYS_sleep then sys_sleep fuel
  else if num =? SYS_uptime then sys_uptime
  else if num =? SYS_waitx then sys_waitx fuel junk
  else if num =? SYS_getSysCount then sys_getSysCount
  else if num =? SYS_sigalarm then sys_sigalarm
  else if num =? SYS_sigreturn then sys_sigreturn
  else if num =? SYS_settickets then sys_settickets
  else if num =? SYS_printlog then sys_printlog
  else sys_file num.

(** [p->parent->syscall_count[num]++] when there is a parent. *)
Definition count_call (i : nat) (num : Z) : M (kst F) unit :=
  let! p := get i in
  match parent p with
  | None => ret tt
  | Some q => set q (λ p, p <| syscall_count :=
                alter (λ n, u32 (n + 1)) (Z.to_nat num) (syscall_count p) |>)
  end.

Definition syscall : M (kst F) unit :=
  let! i := curproc in
  let! p := get i in
  let! a7 := load_tf (trapframe p) tf_a7 in
  let num := s32 a7 in
  if (0 <? num) && (num <? NSYSCALLS) then
    do! count_call i num in
    let! r := syscalls num in
    let! p := get i in
    store_tf (trapframe p) tf_a0 r
  else
    do! kprintf ("%d %s: unknown sys call %d" +:+ nl)
      [AInt (pid p); AStr (Some (name p)); AInt num] in
    let! p := get i in
    store_tf (trapframe p) tf_a0 (u64 (-1)).

End sysproc.
