(* ===== verification/Trap.v ===== *)
(** * Traps ([kernel/trap.c], [kernel/plic.c], [forkret] of [kernel/proc.c])

    Traps from user and kernel mode, timer ticks and the alarm mechanism. The
    PLIC's claim register and the device interrupt handlers are the class
    [Devices]. *)

From S2P Require Import Prelude.
From S2P Require Import Machine.
From S2P Require Import KString.
From S2P Require Import Printf.
From S2P Require Import Spinlock.
From S2P Require Import Kalloc.
From S2P Require Import Vm.
From S2P Require Import Proc.
From S2P Require Import ProcLife.
From S2P Require Import Syscall.
#[local] Open Scope Z_scope.


(** The claim/complete register of the PLIC and the drivers' handlers. *)
Class Devices (F : Type) := {
  plic_claim : M (kst F) Z;
  plic_complete : Z → M (kst F) unit;
  uartintr : M (kst F) unit;
  virtio_disk_intr : M (kst F) unit
}.

Section trap.
Context {F : Type} `{!KernelImage} `{!KernelText} `{!FsOps F} `{!FileCalls F} `{!Devices F}.
Variable swtch_out : nat → M (kst F) unit.
Variable fuel : nat.
Variable junk : Z * Z.
Implicit Types (s : kst F).

Definition w_stvec (x : Z) : M (kst F) unit := set_regs (λ h, h <| stvec := x |>).
Definition w_sstatus (x : Z) : M (kst F) unit := set_regs (λ h, h <| sstatus := x |>).
Definition w_sepc (x : Z) : M (kst F) unit := set_regs (λ h, h <| sepc := x |>).

Definition trapinithart : M (kst F) unit := w_stvec kernelvec_pc.

Definition clockintr : M (kst F) unit :=
  do! acquire TicksLock in
  do! modify (λ s, s <| ticks := u32 (ticks s + 1) |>) in
  do! update_time in
  do! wakeup TicksChan in
  release TicksLock.

Definition devintr : M (kst F) Z :=
  let! cause := r_reg scause in
  if negb (Z.land cause 0x8000000000000000 =? 0) && (Z.land cause 0xff =? 9) then
    let! irq := plic_claim in
    do! (if irq =? UART0_IRQ then uartintr
         else if irq =? VIRTIO0_IRQ then virtio_disk_intr
         else if negb (irq =? 0) then kprintf ("unexpected interrupt irq=%d" +:+ nl) [AInt irq]
         else ret tt) in
    do! (if negb (irq =? 0) then plic_complete irq else ret tt) in
    ret 1
  else if cause =? 0x8000000000000001 then
    let! id := r_reg tp in
    do! (if s32 id =? 0 then clockintr else ret tt) in
    do! set_regs (λ h, h <| sip := Z.land (sip h) (u64 (Z.lnot 2)) |>) in
    ret 2
  else ret 0.

(** Back to user space: the value passed to [userret] in the trampoline, at
    the address the C code computes. *)
Definition usertrapret : M (kst F) (Z * Z) :=
  let! i := curproc in
  do! intr_off in
  do! w_stvec (u64 (TRAMPOLINE + (uservec_pc - trampoline))) in
  let! p := get i in
  let! kpt := r_reg satp in
  do! store_tf (trapframe p) tf_kernel_satp kpt in
  do! store_tf (trapframe p) tf_kernel_sp (u64 (kstack p + PGSIZE)) in
  do! store_tf (trapframe p) tf_kernel_trap usertrap_pc in
  let! id := r_reg tp in
  do! store_tf (trapframe p) tf_kernel_hartid id in
  let! x := r_reg sstatus in
  do! w_sstatus (Z.lor (Z.land x (u64 (Z.lnot SSTATUS_SPP))) SSTATUS_SPIE) in
  let! epc := load_tf (trapframe p) tf_epc in
  do! w_sepc epc in
  ret (u64 (TRAMPOLINE + (userret_pc - trampoline)), MAKE_SATP (pagetable p)).

(** The alarm block of [usertrap], on a timer interrupt in process [i]. *)
Definition alarm_tick (i : nat) : M (kst F) unit :=
  let! p := get i in
  if (alarm_act p =? 1) && (hlp p =? 1) then
    let! tf := with_km kalloc in
    do! with_km (set_mem (λ m, memmove m tf (trapframe p) PGSIZE)) in
    do! set i (λ p, p <| alarm_tf := tf |>) in
    do! set i (λ p, p <| s_tcks := s32 (s_tcks p + 1) |>) in
    let! p := get i in
    if rem (s_tcks p) (p_ticks p) =? 0 then
      do! store_tf (trapframe p) tf_epc (handler p) in
      set i (λ p, p <| hlp := 0 |>)
    else ret tt
  else ret tt.

(** The system call branch of [usertrap]. *)
Definition usertrap_syscall (i : nat) : M (kst F) unit :=
  let! k := killed i in
  do! (if negb (k =? 0) then exit swtch_out (-1) else ret tt) in
  let! p := get i in
  let! epc := load_tf (trapframe p) tf_epc in
  do! store_tf (trapframe p) tf_epc (u64 (epc + 4)) in
  do! intr_on in
  syscall swtch_out fuel junk.

Definition usertrap : M (kst F) (Z * Z) :=
  let! st := r_reg sstatus in
  if negb (Z.land st SSTATUS_SPP =? 0) then panic "usertrap: not from user mode" else
  do! w_stvec kernelvec_pc in
  let! i := curproc in
  let! p := get i in
  let! pc := r_reg sepc in
  do! store_tf (trapframe p) tf_epc pc in
  let! cause := r_reg scause in
  let! which_dev :=
    (if cause =? 8 then do! usertrap_syscall i in ret 0
     else
       let! d := devintr in
       if negb (d =? 0) then ret d else
       let! c := r_reg scause in
       let! p := get i in
       do! kprintf ("usertrap(): unexpected scause %p pid=%d" +:+ nl) [APtr c; AInt (pid p)] in
       let! pc := r_reg sepc in
       let! tv := r_reg stval in
       do! kprintf ("            sepc=%p stval=%p" +:+ nl) [APtr pc; APtr tv] in
       do! setkilled i in
       ret 0) in
  let! k := killed i in
  do! (if negb (k =? 0) then exit swtch_out (-1) else ret tt) in
  do! (if which_dev =? 2 then alarm_tick i else ret tt) in
  do! (if which_dev =? 2 then yield swtch_out else ret tt) in
  usertrapret.

Definition kerneltrap : M (kst F) unit :=
  let! epc := r_reg sepc in
  let! st := r_reg sstatus in
  let! cause := r_reg scause in
  if Z.land st SSTATUS_SPP =? 0 then panic "kerneltrap: not from supervisor mode" else
  if negb (Z.land st SSTATUS_SIE =? 0) then panic "kerneltrap: interrupts enabled" else
  let! which_dev := devintr in
  if which_dev =? 0 then
    do! kprintf ("scause %p" +:+ nl) [APtr cause] in
    let! pc := r_reg sepc in
    let! tv := r_reg stval in
    do! kprintf ("sepc=%p stval=%p" +:+ nl) [APtr pc; APtr tv] in
    panic "kerneltrap"
  else
  let! me := myproc in
  do! (if which_dev =? 2 then
         match me with
         | Some i =>
             let! p := get i in
             if decide (state p = RUNNING) then yield swtch_out else ret tt
         | None => ret tt
         end
       else ret tt) in
  do! w_sepc epc in
  w_sstatus st.

(** [forkret] of proc.c: the first thing a new process runs. *)
Definition forkret : M (kst F) (Z * Z) :=
  let! i := curproc in
  do! release (PLock i) in
  let! f := gets first in
  do! (if f then
         do! modify (λ s, s <| first := false |>) in
         fsinit ROOTDEV
       else ret tt) in
  usertrapret.

End trap.
