(* ===== verification/TrapThms.v ===== *)
(** * Theorems about alarms and system calls

    The alarm a process is resumed from; the calls that concern only the table
    of processes as a machine on that table, which the dispatcher and the
    handlers implement, and what it counts. *)

From S2P Require Import Prelude.
From S2P Require Import Machine.
From S2P Require Import KString.
From S2P Require Import Printf.
From S2P Require Import Spinlock.
From S2P Require Import Kalloc.
From S2P Require Import Vm.
From S2P Require Import Proc.
From S2P Require Import SchedSpec.
From S2P Require Import ProcLife.
From S2P Require Import ProcSpec.
From S2P Require Import ProcThms.
From S2P Require Import Syscall.
From S2P Require Import Trap.
#[local] Open Scope Z_scope.

Section alarm.
Context {F : Type} `{!KernelImage}.
Implicit Types (s : kst F) (k : kmem).

(** Writing to a page that is not free. *)
Lemma kinv_write k l d m' :
  kinv k l → page_ok d → d ∉ l → bytes_ok m' →
  (∀ x, ¬ in_page d x → load8 m' x = load8 (mem k) x) → kinv (k <| mem := m' |>) l.
Proof.
  intros [Hc Hn Hb] [Hal _] Hd Hm Hout. split; [|done|done].
  by apply (chain_other_page (mem k) _ _ _ d).
Qed.

(** Two pages hold the same bytes. *)
Definition page_eq (m1 : memory) (a : Z) (m2 : memory) (b : Z) : Prop :=
  ∀ o, 0 ≤ o < PGSIZE → load8 m1 (a + o) = load8 m2 (b + o).

Lemma page_eq_trans m1 a m2 b m3 c : page_eq m1 a m2 b → page_eq m2 b m3 c → page_eq m1 a m3 c.
Proof. intros H1 H2 o Ho. by rewrite H1, H2. Qed.

Lemma page_eq_word m1 a m2 b o :
  page_eq m1 a m2 b → 0 ≤ o → o + 8 ≤ PGSIZE → load64 m1 (a + o) = load64 m2 (b + o).
Proof.
  intros Hp Ho Hs. apply load_same. intros x Hx. change (Z.of_nat 8) with 8 in Hx.
  replace (a + o + x) with (a + (o + x)) by lia. replace (b + o + x) with (b + (o + x)) by lia.
  apply Hp. lia.
Qed.

(** Copying one page over another. *)
Lemma copy_page k l d t :
  kinv k l → page_ok d → page_ok t → d ∉ l → d ≠ t →
  let m' := memmove (mem k) d t PGSIZE in
  kinv (k <| mem := m' |>) l ∧ page_eq m' d (mem k) t ∧
  (∀ x, ¬ in_page d x → load8 m' x = load8 (mem k) x).
Proof.
  intros Hk Hd Ht Hdl Hne m'. pose proof (kinv_bytes _ _ Hk) as Hb.
  assert (∀ x, ¬ in_page d x → load8 m' x = load8 (mem k) x) as Hout.
  { intros x Hx. unfold m'. rewrite memmove_load by (done || (unfold PGSIZE; lia)).
    by rewrite decide_False. }
  split; [|split; [|done]].
  - apply (kinv_write _ _ d); try done. apply bytes_ok_memmove; [done|unfold PGSIZE; lia].
  - intros o Ho. unfold m'. rewrite memmove_load by (done || (unfold PGSIZE; lia)).
    rewrite decide_True by (unfold in_range; lia). f_equal. lia.
Qed.

Lemma set_hlp_id (q : proc) v : hlp q = v → q = q <| hlp := v |>.
Proof. intros <-. by destruct q. Qed.

(** Whether the tick that makes the count [c] calls the handler. *)
Definition fires (p : proc) : bool := rem (s32 (s_tcks p + 1)) (p_ticks p) =? 0.

(** A tick of an armed alarm: a page [d] is taken from the free list and holds
    the trapframe as it was at the interrupt. *)
Lemma alarm_tick_spec i s d l :
  (i < length (procs s))%nat →
  let p := procs s !!! i in let t := trapframe p in
  alarm_act p = 1 → hlp p = 1 → kinv (km s) (d :: l) → page_ok t → t ∉ d :: l →
  0 ≤ handler p < 2 ^ 64 →
  ∃ s', alarm_tick i s = Ret tt s' ∧ kinv (km s') l ∧ (d ∉ l) ∧ page_ok d ∧
    procs s' !!! i = ((p <| alarm_tf := d |>) <| s_tcks := s32 (s_tcks p + 1) |>)
                     <| hlp := if fires p then 0 else 1 |> ∧
    page_eq (mem (km s')) d (mem (km s)) t ∧
    (if fires p then load64 (mem (km s')) (t + tf_epc) = handler p
     else page_eq (mem (km s')) t (mem (km s)) t).
Proof.
  intros Hi p t Ha Hh Hk Ht Htl Hhd.
  destruct (kalloc_spec _ _ _ Hk) as (k1 & E1 & Hk1 & Hd & Hdl & L1).
  apply not_elem_of_cons in Htl as [Htd Htl].
  pose proof (proj1 Hd) as Hda. pose proof (proj1 Ht) as Hta.
  assert (page_eq (mem k1) t (mem (km s)) t) as P1.
  { intros o Ho. rewrite L1, decide_False; [done|]. intros Hx. apply Htd. symmetry.
    apply (pages_disjoint d t (t + o)); try done. unfold in_page, in_range. lia. }
  destruct (copy_page k1 l d t Hk1 Hd Ht Hdl ltac:(congruence)) as (Hk2 & P2 & F2).
  set (k2 := k1 <| mem := memmove (mem k1) d t PGSIZE |>) in *.
  unfold alarm_tick. rewrite (bind_eq (get i) _ _ _ _ eq_refl). fold p. rewrite Ha, Hh. cbn [Z.eqb andb Pos.eqb].
  erewrite bind_eq by (apply (lift_Ret km (λ k s, s <| km := k |>)); exact E1).
  assert (with_km (F := F) (set_mem (λ m, memmove m d (trapframe p) PGSIZE)) (s <| km := k1 |>) =
    Ret tt (s <| km := k2 |>)) as E2 by reflexivity.
  rewrite (bind_eq _ _ _ _ _ E2). do 2 rewrite (bind_eq (set _ _) _ _ _ _ eq_refl).
  rewrite (bind_eq (get i) _ _ _ _ eq_refl).
  set (g := λ q : proc, (q <| alarm_tf := d |>) <| s_tcks := s32 (s_tcks q + 1) |>).
  match goal with |- context [procs ?st !!! i] => set (s2 := st) end.
  assert (procs s2 = alter g i (procs s)) as Ps2.
  { transitivity (alter (λ q, q <| s_tcks := s32 (s_tcks q + 1) |>) i
      (alter (λ q, q <| alarm_tf := d |>) i (procs s))); [reflexivity|by rewrite alter_twice]. }
  assert (km s2 = k2) as Ks2 by reflexivity. clearbody s2.
  assert (procs s2 !!! i = g p) as Pi by (rewrite Ps2; by apply lookup_total_alter).
  rewrite Pi. change (p_ticks (g p)) with (p_ticks p). change (s_tcks (g p)) with (s32 (s_tcks p + 1)).
  change (trapframe (g p)) with t. change (handler (g p)) with (handler p). unfold fires.
  assert (page_eq (mem k2) t (mem (km s)) t) as P3.
  { intros o Ho. rewrite F2; [by apply P1|]. intros Hx. apply Htd. symmetry.
    apply (pages_disjoint d t (t + o)); try done. unfold in_page, in_range. lia. }
  assert (page_eq (mem k2) d (mem (km s)) t) as P4 by (eapply page_eq_trans; eassumption).
  destruct (rem (s32 (s_tcks p + 1)) (p_ticks p) =? 0).
  2:{ exists s2. rewrite Ks2. split; [done|]. split; [done|]. split; [done|]. split; [done|].
      split; [|done]. rewrite Pi. by apply (set_hlp_id (g p)). }
  set (k3 := k2 <| mem := store64 (mem k2) (t + tf_epc) (handler p) |>).
  assert (store_tf t tf_epc (handler p) s2 = Ret tt (s2 <| km := k3 |>)) as E3.
  { unfold store_tf, with_km, lift, set_mem, modify. by rewrite Ks2. }
  rewrite (bind_eq _ _ _ _ _ E3).
  set (s4 := with_procs (s2 <| km := k3 |>) (alter (λ p, p <| hlp := 0 |>) i (procs s2))).
  exists s4. split; [reflexivity|]. assert (km s4 = k3) as -> by reflexivity.
  assert (∀ x, ¬ in_page t x → load8 (mem k3) x = load8 (mem k2) x) as F3.
  { intros x Hx. apply load8_store_ne. unfold in_page, in_range, PGSIZE, tf_epc in *.
    change (Z.of_nat 8) with 8. lia. }
  split; [|split; [done|split; [done|split; [|split]]]].
  - apply (kinv_write _ _ t); try done. apply bytes_ok_store, Hk2.
  - change (procs s4) with (alter (λ p, p <| hlp := 0 |>) i (procs s2)).
    rewrite lookup_total_alter by (rewrite Ps2, length_alter; done). by rewrite Pi.
  - intros o Ho. rewrite F3; [by apply P4|]. intros Hx. apply Htd. 
    apply (pages_disjoint t d (d + o)); try done. unfold in_page, in_range. lia.
  - by apply load64_store64.
Qed.

Lemma alarm_tick_length i s s' : alarm_tick i s = Ret tt s' → length (procs s') = length (procs s).
Proof.
  unfold alarm_tick. rewrite (bind_eq (get i) _ _ _ _ eq_refl).
  destruct (_ && _); [|intros [_ <-]%Ret_inj; done].
  intros (d & s1 & E1 & E)%bind_Ret.
  assert (procs s1 = procs s) as P1.
  { unfold with_km, lift in E1. destruct (kalloc (km s)); try done. by apply Ret_inj in E1 as [_ <-]. }
  apply bind_Ret in E as ([] & s2 & E2 & E).
  assert (procs s2 = procs s1) as P2 by (apply Ret_inj in E2 as [_ <-]; done).
  apply bind_Ret in E as ([] & s3 & E3 & E). apply Ret_inj in E3 as [_ <-].
  apply bind_Ret in E as ([] & s4 & E4 & E). apply Ret_inj in E4 as [_ <-].
  rewrite (bind_eq (get i) _ _ _ _ eq_refl) in E. rewrite <- P1, <- P2.
  set (s5 := upd procs _ _) in E.
  assert (length (procs s5) = length (procs s2)) as L5.
  { change (length (alter (λ p, p <| s_tcks := s32 (s_tcks p + 1) |>) i
      (alter (λ p, p <| alarm_tf := d |>) i (procs s2))) = length (procs s2)). by rewrite !length_alter. }
  clearbody s5. destruct (rem _ _ =? 0); [|by apply Ret_inj in E as [_ <-]].
  apply bind_Ret in E as ([] & s6 & E6 & E). apply Ret_inj in E6 as [_ <-].
  apply Ret_inj in E as [_ <-]. rewrite <- L5. apply length_alter.
Qed.

Lemma alarm_tick_cur i s s' : alarm_tick i s = Ret tt s' → cur s' = cur s.
Proof.
  unfold alarm_tick. rewrite (bind_eq (get i) _ _ _ _ eq_refl).
  destruct (_ && _); [|intros [_ <-]%Ret_inj; done].
  intros (d & s1 & E1 & E)%bind_Ret.
  assert (cur s1 = cur s) as <-.
  { unfold with_km, lift in E1. destruct (kalloc (km s)); try done. by apply Ret_inj in E1 as [_ <-]. }
  apply bind_Ret in E as ([] & s2 & E2 & E).
  assert (cur s2 = cur s1) as <- by (apply Ret_inj in E2 as [_ <-]; done).
  do 2 (apply bind_Ret in E as ([] & ? & E3 & E); apply Ret_inj in E3 as [_ <-]).
  rewrite (bind_eq (get i) _ _ _ _ eq_refl) in E.
  destruct (rem _ _ =? 0); [|by apply Ret_inj in E as [_ <-]].
  apply bind_Ret in E as ([] & s6 & E6 & E). apply Ret_inj in E6 as [_ <-].
  by apply Ret_inj in E as [_ <-].
Qed.

Lemma alarm_tick_summary i s d l :
  (i < length (procs s))%nat → alarm_act (procs s !!! i) = 1 → hlp (procs s !!! i) = 1 →
  kinv (km s) (d :: l) → page_ok (trapframe (procs s !!! i)) →
  trapframe (procs s !!! i) ∉ d :: l → 0 ≤ handler (procs s !!! i) < 2 ^ 64 →
  ∃ s', alarm_tick i s = Ret tt s' ∧ kinv (km s') l ∧ cur s' = cur s ∧
    length (procs s') = length (procs s) ∧
    trapframe (procs s' !!! i) = trapframe (procs s !!! i).
Proof.
  intros Hi Ha Hh Hk Ht Htl Hhd.
  destruct (alarm_tick_spec i s d l Hi Ha Hh Hk Ht Htl Hhd) as (s' & E & Hk' & _ & _ & P & _).
  exists s'. split; [done|]. split; [done|]. split; [by eapply alarm_tick_cur|].
  split; [by eapply alarm_tick_length|]. by rewrite P.
Qed.

(** [sigreturn] copies the saved page back and frees it. *)
Lemma sigreturn_spec i s l :
  (i < length (procs s))%nat → cur s = Some i →
  let p := procs s !!! i in let t := trapframe p in let d := alarm_tf p in
  kinv (km s) l → page_ok t → page_ok d → t ≠ d → t ∉ l → d ∉ l →
  ∃ s', sys_sigreturn s = Ret (load64 (mem (km s)) (d + tf_a0)) s' ∧
    kinv (km s') (d :: l) ∧ page_eq (mem (km s')) t (mem (km s)) d ∧
    procs s' = alter (λ p, p <| hlp := 1 |>) i (procs s).
Proof.
  intros Hi Hc p t d Hk Ht Hd Htd Htl Hdl.
  pose proof (proj1 Hd) as Hda. pose proof (proj1 Ht) as Hta.
  destruct (copy_page (km s) l t d Hk Ht Hd Htl Htd) as (Hk2 & P2 & F2).
  set (k2 := (km s) <| mem := memmove (mem (km s)) t d PGSIZE |>) in *.
  destruct (kfree_spec _ _ d Hk2 Hd Hdl) as (k3 & E3 & Hk3 & F3).
  unfold sys_sigreturn. assert (curproc s = Ret i s) as Ec
    by (unfold curproc, bind, myproc, gets; by rewrite Hc).
  rewrite (bind_eq _ _ _ _ _ Ec), (bind_eq (get i) _ _ _ _ eq_refl). fold p.
  assert (with_km (F := F) (set_mem (λ m, memmove m (trapframe p) (alarm_tf p) PGSIZE)) s =
    Ret tt (s <| km := k2 |>)) as E2 by reflexivity.
  rewrite (bind_eq _ _ _ _ _ E2).
  erewrite bind_eq by (apply (lift_Ret km (λ k s, s <| km := k |>)); exact E3).
  rewrite (bind_eq (set _ _) _ _ _ _ eq_refl). rewrite (bind_eq (get i) _ _ _ _ eq_refl).
  set (s3 := upd procs _ _).
  assert (procs s3 = alter (λ p, p <| hlp := 1 |>) i (procs s)) as P3 by reflexivity.
  assert (km s3 = k3) as K3 by reflexivity. clearbody s3.
  assert (trapframe (procs s3 !!! i) = t) as Et by (rewrite P3, lookup_total_alter by done; done).
  assert (page_eq (mem k3) t (mem (km s)) d) as P4.
  { intros o Ho. rewrite F3; [by apply P2|]. intros Hx. apply Htd.
    apply (pages_disjoint t d (t + o)); try done. unfold in_page, in_range. lia. }
  exists s3. rewrite Et. unfold load_tf, gets. rewrite K3. split; [|done].
  f_equal. apply page_eq_word; [done|unfold tf_a0; lia|unfold tf_a0, PGSIZE; lia].
Qed.
End alarm.

Section properties.
Context {F : Type} `{!KernelImage}.
Implicit Types (s : kst F).

(** C2: A user program is resumed exactly where its alarm interrupted it. When
    a timer tick fires the alarm, the trapframe's program counter becomes the
    handler; whatever the process does to its trapframe afterwards, [sigreturn]
    puts back every byte of the trapframe page as it was at the tick, returns
    the interrupted [a0] (so the dispatcher stores it back), re-arms the alarm
    and gives the copy's page back to the allocator. *)
Theorem alarm_resumes i s0 s1 s2 d l l2 :
  let p := procs s0 !!! i in let t := trapframe p in
  (i < length (procs s0))%nat → alarm_act p = 1 → hlp p = 1 → fires p = true →
  kinv (km s0) (d :: l) → page_ok t → t ∉ d :: l → 0 ≤ handler p < 2 ^ 64 →
  alarm_tick i s0 = Ret tt s1 →
  cur s2 = Some i → (i < length (procs s2))%nat →
  trapframe (procs s2 !!! i) = t → alarm_tf (procs s2 !!! i) = alarm_tf (procs s1 !!! i) →
  page_eq (mem (km s2)) d (mem (km s1)) d → kinv (km s2) l2 → t ∉ l2 → d ∉ l2 →
  load64 (mem (km s1)) (t + tf_epc) = handler p ∧ alarm_tf (procs s1 !!! i) = d ∧
  ∃ s3, sys_sigreturn s2 = Ret (load64 (mem (km s0)) (t + tf_a0)) s3 ∧
    page_eq (mem (km s3)) t (mem (km s0)) t ∧ hlp (procs s3 !!! i) = 1 ∧ kinv (km s3) (d :: l2).
Proof.
  intros p t Hi Ha Hh Hf Hk Ht Htl Hhd E1 Hc2 Hi2 Et2 Ed2 Pd Hk2 Ht2 Hd2.
  destruct (alarm_tick_spec i s0 d l Hi Ha Hh Hk Ht Htl Hhd)
    as (s1' & E1' & _ & _ & Hd & Pi & Ps & Hfire).
  rewrite E1 in E1'. apply Ret_inj in E1' as [_ <-]. fold p in Hfire, Pi. rewrite Hf in Hfire.
  assert (alarm_tf (procs s1 !!! i) = d) as Ed1 by (by rewrite Pi).
  split; [done|]. split; [done|]. rewrite Ed1 in Ed2.
  apply not_elem_of_cons in Htl as [Htd _].
  destruct (sigreturn_spec i s2 l2 Hi2 Hc2 Hk2) as (s3 & E3 & Hk3 & P3 & Pr3);
    rewrite ?Et2, ?Ed2; try done.
  rewrite Et2, Ed2 in *. exists s3.
  assert (page_eq (mem (km s2)) d (mem (km s0)) t) as P0 by (by eapply page_eq_trans).
  split; [|split; [by eapply page_eq_trans|split; [|done]]].
  - rewrite E3. f_equal. apply page_eq_word; [done|unfold tf_a0; lia|unfold tf_a0, PGSIZE; lia].
  - rewrite Pr3. by rewrite lookup_total_alter.
Qed.

(** Every tick of an armed alarm takes a page from the allocator, also
    when the handler is not called, and forgets the page of the previous tick:
    after two ticks that do not fire, two pages have left the free list and
    only the second is still referenced by the process. *)
Lemma alarm_tick_leaks i s d1 d2 l :
  let p := procs s !!! i in
  (i < length (procs s))%nat → alarm_act p = 1 → hlp p = 1 → fires p = false →
  fires (p <| s_tcks := s32 (s_tcks p + 1) |>) = false →
  kinv (km s) (d1 :: d2 :: l) → page_ok (trapframe p) → trapframe p ∉ d1 :: d2 :: l →
  0 ≤ handler p < 2 ^ 64 →
  ∃ s1 s2, alarm_tick i s = Ret tt s1 ∧ alarm_tick i s1 = Ret tt s2 ∧
    kinv (km s2) l ∧ alarm_tf (procs s2 !!! i) = d2 ∧ trapframe (procs s2 !!! i) = trapframe p ∧
    d1 ≠ d2 ∧ (d1 ∉ l).
Proof.
  intros p Hi Ha Hh Hf1 Hf2 Hk Ht Htl Hhd.
  destruct (alarm_tick_spec i s d1 (d2 :: l) Hi Ha Hh Hk Ht Htl Hhd)
    as (s1 & E1 & Hk1 & Hd1 & _ & P1 & _). fold p in P1. rewrite Hf1 in P1.
  assert (i < length (procs s1))%nat as Hi1 by (by rewrite (alarm_tick_length _ _ _ E1)).
  apply not_elem_of_cons in Htl as [_ Htl].
  destruct (alarm_tick_spec i s1 d2 l Hi1) as (s2 & E2 & Hk2 & _ & _ & P2 & _);
    try (rewrite P1; done); try done.
  apply not_elem_of_cons in Hd1 as [Hne Hd1].
  exists s1, s2. rewrite P2, P1. done.
Qed.

(** The count of call [num] of a process, one higher. *)
Definition counted (num : Z) (p : proc) : proc :=
  p <| syscall_count := alter (λ n, u32 (n + 1)) (Z.to_nat num) (syscall_count p) |>.

Context `{!KernelText} `{!FsOps F} `{!FileCalls F}.

(** [syscall] runs the entry of [syscalls] for a number from 1 to 27, after
    counting the call, and refuses every other number. *)
Lemma syscall_cases swtch_out fuel junk i s :
  cur s = Some i →
  let p := procs s !!! i in
  let num := s32 (load64 (mem (km s)) (trapframe p + tf_a7)) in
  (1 ≤ num ≤ 27 →
     syscall swtch_out fuel junk s =
     (let! r := syscalls swtch_out fuel junk num in
      let! p := get i in store_tf (trapframe p) tf_a0 r)
       (match parent p with
        | Some q => with_procs s (alter (counted num) q (procs s))
        | None => s
        end)) ∧
  (¬ 1 ≤ num ≤ 27 → ∃ txt,
     syscall swtch_out fuel junk s =
     Ret tt ((s <| out := out s ++ txt |>) <| km :=
       (km s) <| mem := store64 (mem (km s)) (trapframe p + tf_a0) (2 ^ 64 - 1) |> |>)).
Proof.
  intros Hc p num. unfold syscall.
  assert (curproc s = Ret i s) as Ec by (unfold curproc, bind, myproc, gets; by rewrite Hc).
  rewrite (bind_eq _ _ _ _ _ Ec), (bind_eq (get i) _ _ _ _ eq_refl). fold p.
  rewrite (bind_eq (load_tf _ _) _ _ _ _ eq_refl). fold num. split; intros Hn.
  - destruct (Z.ltb_spec 0 num); [|lia]. destruct (Z.ltb_spec num NSYSCALLS); [|unfold NSYSCALLS in *; lia].
    cbn [andb]. unfold count_call. unfold bind at 1 2. unfold get at 1, gets at 1. fold p.
    destruct (parent p); reflexivity.
  - assert ((0 <? num) && (num <? NSYSCALLS) = false) as ->.
    { unfold NSYSCALLS. destruct (Z.ltb_spec 0 num), (Z.ltb_spec num 28); try done; lia. }
    eexists. reflexivity.
Qed.
End properties.

(** ** Calls by number on a table of processes

    What the calls that only concern the table promise, with no registers, no
    dispatcher and no locks: a process [who] makes call [number] with two
    arguments. *)
Record call := mk_call { who : nat; number : Z; arg0 : Z; arg1 : Z }.

Definition is_call (n : Z) : bool := (1 <=? n) && (n <=? 27).
(** The calls are counted by the parent of the caller. *)
Definition count (c : call) (ps : list proc) : list proc :=
  match parent (ps !!! who c) with
  | Some q => if is_call (number c) then alter (counted (number c)) q ps else ps
  | None => ps
  end.
Definition count_of (k : Z) (p : proc) : Z := syscall_count p !!! Z.to_nat k.

(** The result and the table after the call, at time [now]. *)
Definition answer (now : Z) (c : call) (ps : list proc) : Z * list proc :=
  let p := ps !!! who c in
  let own f := alter f (who c) ps in
  match number c with
  | 6 => match find_pid ps (arg0 c) table with Some j => (0, alter slain j ps) | None => (-1, ps) end
  | 11 => (pid p, ps)
  | 14 => (now, ps)
  | 23 => (s32 (count_of (Z.log2 (arg0 c)) p), own (λ p, p <| s1 := arg0 c |>))
  | 24 => (0, own (λ p, ((p <| p_ticks := arg0 c |>) <| handler := arg1 c |>) <| alarm_act := 1 |>))
  | 26 => if arg0 c <? 1 then (-1, ps) else (0, own (λ p, p <| tickets := arg0 c |>))
  | _ => (-1, ps)
  end.
Definition table_call (now : Z) (c : call) (ps : list proc) : Z * list proc := answer now c (count c ps).
Fixpoint table_calls (now : Z) (cs : list call) (ps : list proc) : list Z * list proc :=
  match cs with
  | [] => ([], ps)
  | c :: cs => let r := table_call now c ps in let rs := table_calls now cs r.2 in (r.1 :: rs.1, rs.2)
  end.

(** [kill], [getpid], [uptime], [getSysCount] of one call, [sigalarm],
    [settickets], and every number that is no call; C's [int] arguments. *)
Definition on_table (c : call) : Prop :=
  (who c < 64)%nat ∧ - 2 ^ 31 ≤ number c < 2 ^ 31 ∧ - 2 ^ 31 ≤ arg0 c < 2 ^ 31 ∧ 0 ≤ arg1 c < 2 ^ 64 ∧
  (is_call (number c) = true →
     number c ∈ [6; 11; 14; 24; 26] ∨ number c = 23 ∧ ∃ k, 1 ≤ k ≤ 27 ∧ arg0 c = 2 ^ k).

Definition table_ok (ps : list proc) : Prop :=
  length ps = 64%nat ∧ ∀ i, (i < 64)%nat → length (syscall_count (ps !!! i)) = 32%nat.

Lemma table_ok_alter f i ps : (∀ p, length (syscall_count (f p)) = length (syscall_count p)) → table_ok ps → table_ok (alter f i ps).
Proof.
  intros Hf [Hl Hc]. split; [by rewrite length_alter|]. intros j Hj. rewrite list_lookup_total_alter.
  case_decide as Hx; [destruct Hx as [-> _]; rewrite Hf|]; auto.
Qed.
Lemma counted_length n p : length (syscall_count (counted n p)) = length (syscall_count p).
Proof. unfold counted. simpl. by rewrite length_alter. Qed.
Lemma slain_counts p : syscall_count (slain p) = syscall_count p.
Proof. unfold slain. by case_decide. Qed.
Lemma table_ok_count c ps : table_ok ps → table_ok (count c ps).
Proof.
  intros Ht. unfold count. destruct (parent _); [|done]. destruct (is_call _); [|done].
  apply table_ok_alter; [apply counted_length|done].
Qed.

Lemma count_trapframe c ps i : trapframe (count c ps !!! i) = trapframe (ps !!! i).
Proof.
  unfold count. destruct (parent _); [|done]. destruct (is_call _); [|done]. rewrite list_lookup_total_alter.
  case_decide as Hx; [|done]. by destruct Hx as [-> _].
Qed.
(** The six calls, or none. *)
Lemma answer_cases now c ps :
  number c ∈ [6; 11; 14; 23; 24; 26] ∨ answer now c ps = (-1, ps).
Proof.
  unfold answer. destruct (number c) as [|q|q]; [by right| |by right].
  do 5 (try (destruct q as [q|q|]; try by right)); left; rewrite !elem_of_cons; auto 10.
Qed.
Lemma answer_none now c ps : is_call (number c) = false → answer now c ps = (-1, ps).
Proof.
  intros Hn. destruct (answer_cases now c ps) as [Hx|Hx]; [|done]. rewrite !elem_of_cons, elem_of_nil in Hx.
  destruct Hx as [Hx|[Hx|[Hx|[Hx|[Hx|[Hx|[]]]]]]]; by rewrite Hx in Hn.
Qed.
(** A call changes neither counts nor parents, but in [count]. *)
Lemma answer_keeps now c ps i :
  let p' := (answer now c ps).2 !!! i in
  length (answer now c ps).2 = length ps ∧ syscall_count p' = syscall_count (ps !!! i) ∧ parent p' = parent (ps !!! i).
Proof.
  assert (∀ f j, (∀ p, syscall_count (f p) = syscall_count p ∧ parent (f p) = parent p) →
    length (alter f j ps) = length ps ∧ syscall_count (alter f j ps !!! i) = syscall_count (ps !!! i) ∧
    parent (alter f j ps !!! i) = parent (ps !!! i)) as Ha.
  { intros f j Hf. rewrite length_alter, list_lookup_total_alter. case_decide as Hd; [destruct Hd as [-> _]|]; [by split|done]. }
  destruct (answer_cases now c ps) as [Hx|Hx]; [|by rewrite Hx]. unfold answer. rewrite !elem_of_cons, elem_of_nil in Hx.
  destruct Hx as [Hx|[Hx|[Hx|[Hx|[Hx|[Hx|[]]]]]]]; rewrite Hx; cbn [snd]; try done; try by apply Ha.
  - destruct (find_pid _ _ _); cbn [snd]; [|done]. apply Ha. intros p. unfold slain. by case_decide.
  - destruct (_ <? 1); cbn [snd]; [done|by apply Ha].
Qed.
Lemma table_ok_call now c ps : table_ok ps → table_ok (table_call now c ps).2.
Proof.
  intros [Hl Hc]%(table_ok_count c). unfold table_call. split; [by rewrite (proj1 (answer_keeps now c (count c ps) 0))|].
  intros i Hi. destruct (answer_keeps now c (count c ps) i) as (_ & E & _). rewrite E. auto.
Qed.

Section table_calls.
Context {F : Type} `{!KernelImage} `{!KernelText} `{!FsOps F} `{!FileCalls F}.
Variable swtch_out : nat → M (kst F) unit.
Variable fuel : nat.
Variable junk : Z * Z.
Implicit Types (s : kst F).

(** A process gets the processor, puts a number and two arguments in its
    registers, which the trap saves, makes the call and takes the result. *)
Definition user_call (c : call) : M (kst F) Z :=
  do! modify (λ s, s <| cur := Some (who c) |>) in
  let! p := get (who c) in
  do! store_tf (trapframe p) tf_a0 (u64 (arg0 c)) in
  do! store_tf (trapframe p) tf_a1 (arg1 c) in
  do! store_tf (trapframe p) tf_a7 (u64 (number c)) in
  do! syscall swtch_out fuel junk in
  load_tf (trapframe p) tf_a0.
Fixpoint user_calls (cs : list call) : M (kst F) (list Z) :=
  match cs with
  | [] => ret []
  | c :: cs => let! r := user_call c in let! rs := user_calls cs in ret (r :: rs)
  end.

(** What may differ but the table of processes: the registers of callers and
    what is printed. *)
Definition table_now s (ps : list proc) s' : Prop :=
  ∃ c o j m, s' = ((((s <| procs := ps |>) <| cur := c |>) <| out := o |>) <| j_global := j |>) <| km := (km s) <| mem := m |> |>.

Lemma u64_u64 z : u64 (u64 z) = u64 z.
Proof. apply Z.mod_mod. lia. Qed.
Lemma alter_alter (f g : proc → proc) (i : nat) (ps : list proc) : alter f i (alter g i ps) = alter (λ p, f (g p)) i ps.
Proof. revert i. induction ps as [|p ps IH]; intros [|i]; [done..|]. cbn [alter list_alter]. f_equal. apply IH. Qed.
Lemma s32_u64 z : - 2 ^ 31 ≤ z < 2 ^ 31 → s32 (u64 z) = z.
Proof.
  intros Hz. unfold s32, u64. destruct (Z.lt_ge_cases z 0).
  - replace (z mod 2 ^ 64) with (z + 2 ^ 64) by (apply (Z.mod_unique _ _ (-1)); lia).
    replace (z + 2 ^ 64 + 2 ^ 31) with (z + 2 ^ 31 + 2 ^ 32 * 2 ^ 32) by lia.
    rewrite Z.mod_add, Z.mod_small by lia. lia.
  - rewrite (Z.mod_small z), Z.mod_small by lia. lia.
Qed.

Lemma arg_eq n a s i : cur s = Some i → 0 ≤ n ≤ 5 → load64 (mem (km s)) (trapframe (procs s !!! i) + (tf_a0 + 8 * n)) = a → argraw n s = Ret a s.
Proof.
  intros Hc Hn E. unfold argraw. rewrite (bind_eq _ _ _ _ _ (curproc_eq _ _ Hc)), (bind_eq (get i) _ _ _ _ eq_refl).
  rewrite (proj2 (Z.leb_le 0 n)), (proj2 (Z.leb_le n 5)) by lia. unfold load_tf, gets. cbn [andb]. by rewrite E.
Qed.

(** The handlers of these calls. *)
Lemma handler_spec c s :
  let p := procs s !!! who c in
  on_table c → is_call (number c) = true → table_ok (procs s) → held s = [] → cur s = Some (who c) →
  load64 (mem (km s)) (trapframe p + tf_a0) = u64 (arg0 c) → load64 (mem (km s)) (trapframe p + tf_a1) = arg1 c →
  let r := answer (ticks s) c (procs s) in
  ∃ v o j, syscalls swtch_out fuel junk (number c) s = Ret v (((s <| procs := r.2 |>) <| out := o |>) <| j_global := j |>) ∧ u64 v = u64 r.1 ∧
    trapframe (r.2 !!! who c) = trapframe p.
Proof.
  intros p (Hw & Hn & Ha & Hb & Hnum) Hc [Hl Hcnt] Hh Hcur A0 A1 r.
  assert (argint 0 s = Ret (arg0 c) s) as E0.
  { unfold argint. rewrite (bind_eq _ _ _ _ _ (arg_eq 0 (u64 (arg0 c)) s (who c) Hcur ltac:(lia) A0)). unfold ret. by rewrite s32_u64. }
  assert (argaddr 1 s = Ret (arg1 c) s) as E1 by (apply (arg_eq 1 _ s (who c) Hcur); [lia|exact A1]).
  pose proof (curproc_eq _ _ Hcur) as Ecur.
  assert (∀ f, alter f (who c) (procs s) !!! who c = f p) as Hat by (intros f; apply lookup_total_alter; lia).
  specialize (Hnum Hc). rewrite !elem_of_cons, elem_of_nil in Hnum. unfold r, answer. clear r.
  destruct Hnum as [[N|[N|[N|[N|[N|[]]]]]]|(N & k & Hk & Ea)]; try rewrite N; clear Hn Hc.
  - exists (u64 (answer (ticks s) c (procs s)).1), (out s), (j_global s). unfold answer. rewrite N.
    change (syscalls swtch_out fuel junk 6) with (sys_kill (F := F)). unfold sys_kill. rewrite (bind_eq _ _ _ _ _ E0).
    unfold bind. rewrite kill_eq by (intros i; rewrite Hh; apply not_elem_of_nil).
    destruct (find_pid _ _ _) as [j|]; (split; [by destruct s|]); (split; [apply u64_u64|]); [|done]. cbn [snd].
    rewrite list_lookup_total_alter. case_decide as Hj; [|done]. destruct Hj as [-> _]. unfold slain. by case_decide.
  - exists (u64 (pid p)), (out s), (j_global s). change (syscalls swtch_out fuel junk 11) with (sys_getpid (F := F)).
    unfold sys_getpid. rewrite (bind_eq _ _ _ _ _ Ecur). split; [by destruct s|]. split; [apply u64_u64|done].
  - exists (ticks s), (out s), (j_global s). split; [|done]. change (syscalls swtch_out fuel junk 14) with (sys_uptime (F := F)). unfold sys_uptime.
    rewrite (bind_eq _ _ _ _ _ (acquire_eq s TicksLock ltac:(rewrite Hh; apply not_elem_of_nil))).
    rewrite (bind_eq (gets ticks) _ _ _ _ eq_refl).
    rewrite (bind_eq _ _ _ _ _ (release_eq (s <| held := TicksLock :: held s |>) TicksLock [] ltac:(apply not_elem_of_nil) ltac:(by rewrite <- Hh))).
    by destruct s; simpl in *; subst.
  - exists 0, (out s), (j_global s). change (syscalls swtch_out fuel junk 24) with (sys_sigalarm (F := F)). unfold sys_sigalarm.
    rewrite (bind_eq _ _ _ _ _ E0), (bind_eq _ _ _ _ _ E1), (bind_eq _ _ _ _ _ Ecur).
    cbn [fst snd]. split; [|by rewrite Hat].
    assert (∀ f (s' : kst F), set (who c) f s' = Ret tt (with_procs s' (alter f (who c) (procs s')))) as Hset by reflexivity.
    rewrite (bind_eq _ _ _ _ _ (Hset _ _)), (bind_eq _ _ _ _ _ (Hset _ _)), (bind_eq _ _ _ _ _ (Hset _ _)).
    assert (∀ (s' : kst F) ps, procs (with_procs s' ps) = ps) as Hps by reflexivity. rewrite !with_procs_twice, !Hps.
    rewrite !alter_alter. unfold ret. f_equal.
  - change (syscalls swtch_out fuel junk 26) with (sys_settickets (F := F)). unfold sys_settickets. rewrite (bind_eq _ _ _ _ _ E0).
    destruct (arg0 c <? 1); [exists (u64 (-1)), (out s), (j_global s); by destruct s|]. exists 0, (out s), (j_global s).
    rewrite (bind_eq _ _ _ _ _ Ecur). cbn [fst snd]. split; [by destruct s|by rewrite Hat].
  - change (syscalls swtch_out fuel junk 23) with (sys_getSysCount (F := F)). unfold sys_getSysCount.
    rewrite (bind_eq _ _ _ _ _ E0), (bind_eq _ _ _ _ _ Ecur).
    set (s0 := s <| procs := alter (λ p, p <| s1 := arg0 c |>) (who c) (procs s) |>).
    rewrite (bind_eq (set _ _) _ s tt s0 eq_refl).
    assert (procs s0 !!! who c = p <| s1 := arg0 c |>) as Ep by apply Hat.
    destruct (getSysCount_single_bit (who c) k s0 Hcur Hk) as (nm & n & s' & _ & Hlk & E & Es & Hj & _); [by rewrite Ep; apply Hcnt|].
    rewrite Ea, <- Z.shiftl_1_l. rewrite (bind_eq _ _ _ _ _ E). exists (u64 (s32 n)), (out s'), k.
    assert (count_of (Z.log2 (Z.shiftl 1 k)) p = n) as Hn.
    { rewrite Z.shiftl_1_l, Z.log2_pow2 by lia. apply list_lookup_total_correct. rewrite <- Hlk, Ep. done. }
    cbn [fst snd]. fold p. rewrite Hn. split; [|split; [apply u64_u64|by rewrite Hat]].
    unfold ret. rewrite Es. unfold s0. rewrite Ea, Z.shiftl_1_l. by destruct s.
Qed.

Lemma user_call_spec c s :
  on_table c → table_ok (procs s) → held s = [] →
  let r := table_call (ticks s) c (procs s) in ∃ s', user_call c s = Ret (u64 r.1) s' ∧ table_now s r.2 s'.
Proof.
  intros Hc Hok Hh r. set (p := procs s !!! who c).
  set (m := store64 (store64 (store64 (mem (km s)) (trapframe p + tf_a0) (u64 (arg0 c))) (trapframe p + tf_a1) (arg1 c)) (trapframe p + tf_a7) (u64 (number c))).
  set (s0 := (s <| cur := Some (who c) |>) <| km := (km s) <| mem := m |> |>).
  assert (load64 m (trapframe p + tf_a0) = u64 (arg0 c) ∧ load64 m (trapframe p + tf_a1) = arg1 c ∧
          load64 m (trapframe p + tf_a7) = u64 (number c)) as (L0 & L1 & L7).
  { assert (∀ z, 0 ≤ u64 z < 2 ^ 64) as Hz by (intros z; apply Z.mod_pos_bound; lia).
    unfold m, tf_a0, tf_a1, tf_a7. split_and!; rewrite ?load_store_ne by lia; apply load64_store64; auto. apply Hc. }
  assert (user_call c s = (do! syscall swtch_out fuel junk in load_tf (trapframe p) tf_a0) s0) as -> by reflexivity.
  destruct (syscall_cases swtch_out fuel junk (who c) s0 eq_refl) as [Hyes Hno].
  change (procs s0 !!! who c) with p in Hyes, Hno. change (mem (km s0)) with m in Hyes, Hno.
  rewrite L7, s32_u64 in Hyes, Hno by apply Hc.
  destruct (is_call (number c)) eqn:Hcall.
  - set (s3 := with_procs s0 (count c (procs s))).
    assert (syscall swtch_out fuel junk s0 = (let! r := syscalls swtch_out fuel junk (number c) in
      let! p := get (who c) in store_tf (trapframe p) tf_a0 r) s3) as E.
    { rewrite Hyes by (apply andb_prop in Hcall as [?%Z.leb_le ?%Z.leb_le]; lia). f_equal. unfold s3, count. fold p. rewrite Hcall.
      destruct (parent p); [done|by destruct s]. }
    assert (trapframe (procs s3 !!! who c) = trapframe p) as Etf by apply count_trapframe.
    destruct (handler_spec c s3) as (v & o & j & E3 & Ev & Et); rewrite ?Etf; try done; [by apply table_ok_count|].
    change (procs s3) with (count c (procs s)) in E3, Ev, Et. change (ticks s3) with (ticks s) in E3, Ev, Et.
    fold (table_call (ticks s) c (procs s)) in E3, Ev, Et. fold r in E3, Ev, Et. change (count c (procs s)) with (procs s3) in Et. rewrite Etf in Et.
    rewrite (bind_eq _ _ _ _ _ E3), (bind_eq (get _) _ _ _ _ eq_refl) in E. cbn [procs] in E.
    set (s4 := _ <| j_global := j |>) in E. change (procs s4) with r.2 in E. rewrite Et in E.
    set (s5 := s4 <| km := (km s4) <| mem := store64 (mem (km s4)) (trapframe p + tf_a0) v |> |>).
    assert (syscall swtch_out fuel junk s0 = Ret tt s5) as E5 by exact E.
    rewrite (bind_eq _ _ _ _ _ E5). exists s5. split.
    + unfold load_tf, gets. f_equal. rewrite <- Ev. exact (load_store_eq 8 _ _ v).
    + eexists _, _, _, _. by destruct s.
  - destruct Hno as [txt E]. { intros []. unfold is_call in Hcall. apply andb_false_iff in Hcall. rewrite !Z.leb_gt in Hcall. lia. }
    rewrite (bind_eq _ _ _ _ _ E). unfold r, table_call. rewrite answer_none by done. cbn [fst snd].
    eexists. split. { unfold load_tf, gets. cbn. rewrite load64_store64 by lia. reflexivity. }
    assert (count c (procs s) = procs s) as -> by (unfold count; rewrite Hcall; by destruct (parent _)).
    eexists _, _, _, _. by destruct s.
Qed.

Lemma table_now_trans s ps s' ps' s'' : table_now s ps s' → table_now s' ps' s'' → table_now s ps' s''.
Proof. intros (c & o & j & m & ->) (c' & o' & j' & m' & ->). exists c', o', j', m'. by destruct s. Qed.

(** Calls of any processes, one after the other, do what the table says. *)
Lemma user_calls_spec cs s :
  Forall on_table cs → table_ok (procs s) → held s = [] →
  let r := table_calls (ticks s) cs (procs s) in
  ∃ s', user_calls cs s = Ret (map u64 r.1) s' ∧ table_now s r.2 s'.
Proof.
  intros Hcs. revert s. induction Hcs as [|c cs Hc _ IH]; intros s Hok Hh; cbn [table_calls user_calls fst snd map].
  - exists s. split; [done|]. exists (cur s), (out s), (j_global s), (mem (km s)). destruct s as [? ? []]; reflexivity.
  - destruct (user_call_spec c s Hc Hok Hh) as (s1 & E & N). pose proof N as (c1 & o1 & j1 & m1 & Es).
    assert (procs s1 = (table_call (ticks s) c (procs s)).2 ∧ ticks s1 = ticks s ∧ held s1 = []) as (Ep & Et & Eh) by (by rewrite Es).
    destruct (IH s1) as (s2 & E2 & N2); [by rewrite Ep; apply table_ok_call|done|]. rewrite Ep, Et in E2, N2.
    exists s2. rewrite (bind_eq _ _ _ _ _ E), (bind_eq _ _ _ _ _ E2). split; [done|]. by eapply table_now_trans.
Qed.

(** ** Counting *)

(** The calls numbered [k] by the children of [q]. *)
Definition calls_below (ps : list proc) (q : nat) (k : Z) (cs : list call) : Z :=
  Z.of_nat (length (filter (λ c, number c = k ∧ parent (ps !!! who c) = Some q) cs)).

Lemma calls_below_one ps q k c :
  calls_below ps q k [c] = if decide (number c = k ∧ parent (ps !!! who c) = Some q) then 1 else 0.
Proof. unfold calls_below. rewrite filter_cons, filter_nil. by case_decide. Qed.
Lemma calls_below_cons ps q k c cs : calls_below ps q k (c :: cs) = calls_below ps q k [c] + calls_below ps q k cs.
Proof. unfold calls_below. rewrite !filter_cons, filter_nil. case_decide; cbn [length]; lia. Qed.
Lemma calls_below_same ps ps' q k cs : (∀ i, parent (ps' !!! i) = parent (ps !!! i)) → calls_below ps' q k cs = calls_below ps q k cs.
Proof. intros Hp. unfold calls_below. do 2 f_equal. apply list_filter_iff. intros c. by rewrite Hp. Qed.

Lemma count_parent c ps i : parent (count c ps !!! i) = parent (ps !!! i).
Proof.
  unfold count. destruct (parent (ps !!! who c)); [|done]. destruct (is_call _); [|done].
  rewrite list_lookup_total_alter. case_decide as Hx; [|done]. by destruct Hx as [-> _].
Qed.
Lemma count_count c ps q k : table_ok ps → (q < 64)%nat → 1 ≤ k ≤ 27 →
  u32 (count_of k (count c ps !!! q)) = u32 (count_of k (ps !!! q) + calls_below ps q k [c]).
Proof.
  intros [Hl Hc] Hq Hk. rewrite calls_below_one. unfold count.
  destruct (parent (ps !!! who c)) as [q'|]; [|by rewrite decide_False, Z.add_0_r by naive_solver].
  destruct (decide (number c = k ∧ Some q' = Some q)) as [[En [= ->]]|Hne].
  - assert (is_call (number c) = true) as -> by (unfold is_call; rewrite En; apply andb_true_intro; split; apply Z.leb_le; lia).
    rewrite lookup_total_alter by lia. unfold count_of, counted. cbn.
    rewrite En, list_lookup_total_alter_eq by (rewrite Hc by done; lia). apply Z.mod_mod. lia.
  - rewrite Z.add_0_r. destruct (is_call (number c)) eqn:Ecall; [|done]. rewrite list_lookup_total_alter.
    case_decide as Hx; [|done]. destruct Hx as [-> _]. unfold count_of, counted. cbn. f_equal. apply list_lookup_total_alter_ne.
    apply andb_prop in Ecall as [?%Z.leb_le ?%Z.leb_le]. intros Ex. apply Hne. split; [lia|done].
Qed.
Lemma table_call_count now c ps q k : table_ok ps → (q < 64)%nat → 1 ≤ k ≤ 27 →
  let ps' := (table_call now c ps).2 in
  u32 (count_of k (ps' !!! q)) = u32 (count_of k (ps !!! q) + calls_below ps q k [c]) ∧ ∀ i, parent (ps' !!! i) = parent (ps !!! i).
Proof.
  intros Hok Hq Hk ps'. pose proof (λ i, answer_keeps now c (count c ps) i) as Ha. split.
  - rewrite <- count_count by done. unfold count_of at 1. destruct (Ha q) as (_ & E & _). unfold ps', table_call. by rewrite E.
  - intros i. destruct (Ha i) as (_ & _ & E). unfold ps', table_call. rewrite E. apply count_parent.
Qed.
Lemma table_calls_count now cs ps q k : table_ok ps → (q < 64)%nat → 1 ≤ k ≤ 27 →
  u32 (count_of k ((table_calls now cs ps).2 !!! q)) = u32 (count_of k (ps !!! q) + calls_below ps q k cs).
Proof.
  revert ps. induction cs as [|c cs IH]; intros ps Hok Hq Hk; [by rewrite Z.add_0_r|]. cbn [table_calls snd].
  destruct (table_call_count now c ps q k Hok Hq Hk) as [E Hp]. rewrite IH by (done || by apply table_ok_call).
  rewrite (calls_below_same _ _ _ _ _ Hp), (calls_below_cons ps). unfold u32 in *. rewrite <- Z.add_mod_idemp_l, E, Z.add_mod_idemp_l by lia.
  f_equal. lia.
Qed.
Lemma table_calls_keeps now cs ps : table_ok ps →
  let ps' := (table_calls now cs ps).2 in table_ok ps' ∧ ∀ i, parent (ps' !!! i) = parent (ps !!! i).
Proof.
  revert ps. induction cs as [|c cs IH]; intros ps Hok; [done|]. cbn [table_calls snd].
  destruct (IH _ (table_ok_call now c ps Hok)) as [Hok' Hp]. split; [done|]. intros i. rewrite Hp.
  unfold table_call. destruct (answer_keeps now c (count c ps) i) as (_ & _ & E). rewrite E. apply count_parent.
Qed.
Lemma table_calls_app now cs cs' ps :
  table_calls now (cs ++ cs') ps = (let r := table_calls now cs ps in let r' := table_calls now cs' r.2 in (r.1 ++ r'.1, r'.2)).
Proof. revert ps. induction cs as [|c cs IH]; intros ps; cbn; [by destruct (table_calls now cs' ps)|]. by rewrite IH. Qed.
Lemma s32_u32 z : s32 (u32 z) = s32 z.
Proof. unfold s32, u32. by rewrite Z.add_mod_idemp_l. Qed.

(** C40: System calls are counted for the parent. Let processes make calls in
    any order, each of them [kill], [getpid], [uptime], [sigalarm],
    [settickets], [getSysCount] of a single call, or a number that is no call,
    with any [int] as first argument. If a process [q] then asks [getSysCount] about call [k]
    (mask [1 << k]), it gets its count before plus the number of times its
    children made call [k], each time once and under no other number, wrapped
    to 32 bits; calls of others, its own included, are not in it. *)
Theorem getSysCount_counts cs s q k :
  Forall on_table cs → table_ok (procs s) → held s = [] → (q < 64)%nat → 1 ≤ k ≤ 27 → parent (procs s !!! q) ≠ Some q →
  ∃ rs s', user_calls (cs ++ [mk_call q SYS_getSysCount (2 ^ k) 0]) s =
    Ret (rs ++ [u64 (s32 (count_of k (procs s !!! q) + calls_below (procs s) q k cs))]) s'.
Proof.
  intros Hcs Hok Hh Hq Hk Hself. set (c := mk_call q SYS_getSysCount (2 ^ k) 0).
  assert (on_table c) as Hc.
  { assert (2 ^ k ≤ 2 ^ 27) by (apply Z.pow_le_mono_r; lia). assert (0 < 2 ^ k) by (apply Z.pow_pos_nonneg; lia).
    split; [exact Hq|]. cbn [number arg0 arg1 c]. unfold SYS_getSysCount. split_and!; try lia. intros _. right. split; [done|by exists k]. }
  destruct (user_calls_spec (cs ++ [c]) s) as (s' & E & _); [apply Forall_app; by split; [|constructor]|done|done|].
  rewrite table_calls_app in E. cbv zeta in E. cbn [fst snd] in E. rewrite map_app in E.
  exists (map u64 (table_calls (ticks s) cs (procs s)).1), s'. rewrite E. do 2 f_equal.
  set (ps := (table_calls (ticks s) cs (procs s)).2).
  assert (table_ok ps ∧ ∀ i, parent (ps !!! i) = parent (procs s !!! i)) as [Hok' Hp] by (by apply table_calls_keeps).
  assert ((table_call (ticks s) c ps).1 = s32 (count_of k (count c ps !!! q))) as Er.
  { unfold table_call, answer. cbn [number c who arg0 fst SYS_getSysCount]. by rewrite Z.log2_pow2 by lia. }
  cbn [table_calls fst map]. rewrite Er. do 2 f_equal. rewrite <- s32_u32, count_count by done.
  rewrite calls_below_one, decide_False, Z.add_0_r by (intros [_ Hx]; cbn in Hx; rewrite Hp in Hx; done).
  unfold ps. by rewrite table_calls_count, s32_u32.
Qed.
End table_calls.

(** ** Witnesses *)

#[local] Existing Instance demo_image.

Definition alarm_proc : proc :=
  zero_proc <| state := RUNNING |> <| pid := 3 |> <| trapframe := PHYSTOP - 2 * PGSIZE |>
    <| alarm_act := 1 |> <| hlp := 1 |> <| p_ticks := 1 |> <| handler := 64 |>.
Definition alarm_state (p : proc) (k : kmem) : kst unit :=
  mk_kst unit (p :: replicate 63 zero_proc) [] k tt 4 0 None [0; 0; 0; 0] [0; 0; 0; 0] [] 0 0 0
    (Some 0%nat) [] true zero_hart.

Lemma demo_free_page : ∃ k, kinv k [PHYSTOP - PGSIZE].
Proof.
  destruct (kfree_spec demo_kmem [] (PHYSTOP - PGSIZE)) as (k & _ & Hk & _).
  - split; [done|constructor|apply demo_bytes].
  - vm_compute. repeat split; discriminate.
  - apply not_elem_of_nil.
  - by exists k.
Qed.

Lemma demo_tf_ok : page_ok (PHYSTOP - 2 * PGSIZE).
Proof. vm_compute. repeat split; discriminate. Qed.

Lemma demo_fire k :
  kinv k [PHYSTOP - PGSIZE] → PHYSTOP - 2 * PGSIZE ∉ [PHYSTOP - PGSIZE] →
  ∃ s1, alarm_tick 0 (alarm_state alarm_proc k) = Ret tt s1 ∧ kinv (km s1) [] ∧
    cur s1 = Some 0%nat ∧ length (procs s1) = 64%nat ∧
    trapframe (procs s1 !!! 0%nat) = PHYSTOP - 2 * PGSIZE.
Proof.
  intros Hk Hn. apply (alarm_tick_summary 0 (alarm_state alarm_proc k) (PHYSTOP - PGSIZE) []).
  - simpl. lia.
  - reflexivity.
  - reflexivity.
  - exact Hk.
  - exact demo_tf_ok.
  - exact Hn.
  - simpl. lia.
Qed.

Lemma alarm_resumes_witness :
  ∃ k s1 s3, let s0 := alarm_state alarm_proc k in
    alarm_tick 0 s0 = Ret tt s1 ∧
    sys_sigreturn s1 = Ret (load64 (mem (km s0)) (trapframe (procs s0 !!! 0%nat) + tf_a0)) s3.
Proof.
  destruct demo_free_page as (k & Hk).
  assert (PHYSTOP - 2 * PGSIZE ∉ [PHYSTOP - PGSIZE]) as Hn
    by (intros Hx%list_elem_of_singleton; vm_compute in Hx; discriminate).
  destruct (demo_fire k Hk Hn) as (s1 & E & Hk1 & Hc & Hl & Ht).
  destruct (alarm_resumes 0 (alarm_state alarm_proc k) s1 s1 (PHYSTOP - PGSIZE) [] [])
    as (_ & _ & s3 & E3 & _);
    [simpl; lia|reflexivity|reflexivity|reflexivity|exact Hk|exact demo_tf_ok|exact Hn
    |simpl; lia|exact E|exact Hc|rewrite Hl; lia|exact Ht|reflexivity|intros o _; reflexivity|exact Hk1
    |apply not_elem_of_nil|apply not_elem_of_nil|].
  exists k, s1, s3. split; [exact E|exact E3].
Defined.

(** A kernel with three pages, two of them free. *)
Definition leak_image : KernelImage.
Proof.
  refine {| kend := PHYSTOP - 3 * PGSIZE; etext := 0x80008000; trampoline := 0x80007000 |};
    vm_compute; discriminate.
Defined.

Lemma demo_two_pages : ∃ k, @kinv leak_image k [PHYSTOP - PGSIZE; PHYSTOP - 3 * PGSIZE].
Proof.
  destruct (@kfree_spec leak_image demo_kmem [] (PHYSTOP - 3 * PGSIZE)) as (k1 & _ & Hk1 & _).
  - split; [done|constructor|apply demo_bytes].
  - vm_compute. repeat split; discriminate.
  - apply not_elem_of_nil.
  - destruct (@kfree_spec leak_image k1 _ (PHYSTOP - PGSIZE) Hk1) as (k2 & _ & Hk2 & _).
    + vm_compute. repeat split; discriminate.
    + intros Hx%list_elem_of_singleton. vm_compute in Hx. discriminate.
    + by exists k2.
Qed.

Lemma alarm_tick_leaks_witness :
  ∃ k s1 s2, alarm_tick 0 (alarm_state (alarm_proc <| p_ticks := 10 |>) k) = Ret tt s1 ∧
    alarm_tick 0 s1 = Ret tt s2 ∧ @kinv leak_image (km s2) [].
Proof.
  destruct demo_two_pages as (k & Hk).
  set (s0 := alarm_state (alarm_proc <| p_ticks := 10 |>) k).
  destruct (@alarm_tick_leaks unit leak_image 0 s0 (PHYSTOP - PGSIZE) (PHYSTOP - 3 * PGSIZE) [])
    as (s1 & s2 & E1 & E2 & Hk2 & _).
  - simpl. lia.
  - reflexivity.
  - reflexivity.
  - reflexivity.
  - reflexivity.
  - exact Hk.
  - vm_compute. repeat split; discriminate.
  - intros Hx. rewrite !elem_of_cons, elem_of_nil in Hx.
    destruct Hx as [Hx|[Hx|[]]]; vm_compute in Hx; discriminate.
  - simpl. lia.
  - exists k, s1, s2. split; [exact E1|]. split; [exact E2|exact Hk2].
Defined.

#[local] Instance demo_fs : FsOps unit := {|
  filedup := λ f, ret f; fileclose := λ _, ret tt; idup := λ i, ret i; iput := λ _, ret tt;
  begin_op := ret tt; end_op := ret tt; namei := λ _, ret 1; fsinit := λ _, ret tt
|}.
#[local] Instance demo_text : KernelText := {|
  forkret_pc := 0; usertrap_pc := 0; uservec_pc := 0; userret_pc := 0; kernelvec_pc := 0
|}.
#[local] Instance demo_calls : FileCalls unit := λ _, ret 0.

(** Slots 0 and 2 are children of slot 1. *)
Definition call_state : kst unit :=
  let p n q := (((zero_proc <| pid := n |>) <| trapframe := PHYSTOP - n * PGSIZE |>) <| parent := q |>) <| syscall_count := replicate 32 5 |> in
  mk_kst unit ([p 1 (Some 1%nat); p 2 None; p 3 (Some 1%nat)] ++ replicate 61 (p 4 None))
    [] (mk_kmem ∅ 0) tt 4 0 None [0; 0; 0; 0] [0; 0; 0; 0] [] 0 0 0 (Some 0%nat) [] true zero_hart.
(** [getpid] by slot 0, by slot 2 and by slot 1, [kill(3)] by slot 0, a number
    that is no call by slot 2. *)
Definition demo_sequence : list call := [mk_call 0 11 0 0; mk_call 2 11 0 0; mk_call 1 11 0 0; mk_call 0 6 3 0; mk_call 2 (-7) 0 0].

Lemma on_table_demo : Forall on_table demo_sequence.
Proof.
  repeat (apply Forall_cons_2; [split_and!; simpl; try lia; intros Hx; try discriminate Hx; left; rewrite !elem_of_cons; auto 10|]).
  apply Forall_nil_2.
Qed.
Lemma call_state_ok : table_ok (procs call_state).
Proof.
  split; [reflexivity|]. intros i Hi. do 64 (destruct i as [|i]; [reflexivity|]). lia.
Qed.

Lemma getSysCount_counts_witness : ∃ rs s', user_calls (λ _, ret tt) 1 (0, 0) (demo_sequence ++ [mk_call 1 SYS_getSysCount (2 ^ 11) 0]) call_state = Ret (rs ++ [7]) s'.
Proof.
  exact (getSysCount_counts (λ _, ret tt) 1 (0, 0) demo_sequence call_state 1 11 on_table_demo call_state_ok eq_refl
    ltac:(lia) ltac:(lia) ltac:(discriminate)).
Defined.
