(* ===== verification/Pipe.v ===== *)
(** * Pipes ([kernel/pipe.c])

    The ring buffer and its two ends. [pipewrite] and [piperead] run under
    [pi->lock] except while they sleep, so each is a sequence of atomic runs:
    a run either returns or goes to sleep, and is resumed with the same local
    [i]. What the routines take from the calling process, the user bytes
    [copyin] fetches, whether [copyout] succeeds and the answers of [killed],
    are arguments of each run; a kill can come at any turn of a loop. [wakeup]
    calls are recorded. *)

From S2P Require Import Prelude.
From S2P Require Import Machine.
#[local] Open Scope Z_scope.

Module Pipe.

Definition PIPESIZE : Z := 512.

Inductive pchan := ReadChan | WriteChan.   (* &pi->nread, &pi->nwrite *)

Record pipe := mk_pipe {
  data : list Z;
  nread : Z;
  nwrite : Z;
  readopen : bool;
  writeopen : bool;
  wakeups : list pchan
}.
#[export] Instance pipe_eta : Settable pipe := λ p,
  mk_pipe (data p) (nread p) (nwrite p) (readopen p) (writeopen p) (wakeups p).

Definition wakeup (c : pchan) : M pipe unit := modify (λ p, p <| wakeups := wakeups p ++ [c] |>).

(** The pipe [pipealloc] makes of a fresh page, whose bytes [kalloc] set to
    [junk]. *)
Definition init_pipe (junk : list Z) : pipe := mk_pipe junk 0 0 true true [].

(** What a run of [pipewrite] or [piperead] ends with. *)
Inductive run (L R : Type) := Asleep (i : L) | Done (r : R).
Arguments Asleep {L R} i.
Arguments Done {L R} r.

(** [while(i < n)] from local [i], for at most [k = n - i] bytes. [fetch i] is
    the byte at [addr + i], [None] when [copyin] fails; [killed i] is what
    [killed(pr)] returns in the turn for byte [i]. *)
Fixpoint pipewrite_loop (k : nat) (fetch : Z → option Z) (killed : Z → bool) (i : Z)
    : M pipe (run Z Z) :=
  match k with
  | O =>
      do! wakeup ReadChan in ret (Done i)
  | S k' =>
      let! p := gets id in
      if negb (readopen p) || killed i then ret (Done (-1)) else
      if nwrite p =? u32 (nread p + PIPESIZE) then
        do! wakeup ReadChan in ret (Asleep i)
      else
        match fetch i with
        | None => do! wakeup ReadChan in ret (Done i)
        | Some ch =>
            do! modify (λ p, (p <| data := <[Z.to_nat (nwrite p mod PIPESIZE) := u8 ch]> (data p) |>)
                              <| nwrite := u32 (nwrite p + 1) |>) in
            pipewrite_loop k' fetch killed (i + 1)
        end
  end.
(** One run of [pipewrite(pi, addr, n)] resumed at [i]. *)
Definition pipewrite (fetch : Z → option Z) (killed : Z → bool) (n i : Z) : M pipe (run Z Z) :=
  pipewrite_loop (Z.to_nat (n - i)) fetch killed i.

(** The copy loop of [piperead]: the result and the bytes that reached the
    user, in order. [put i] is whether [copyout] to [addr + i] succeeds; the
    byte of a failed [copyout] has left the ring and reaches nobody. *)
Fixpoint piperead_loop (k : nat) (put : Z → bool) (i : Z) : M pipe (Z * list Z) :=
  match k with
  | O => ret (i, [])
  | S k' =>
      let! p := gets id in
      if nread p =? nwrite p then ret (i, []) else
      let ch := data p !!! Z.to_nat (nread p mod PIPESIZE) in
      do! modify (λ p, p <| nread := u32 (nread p + 1) |>) in
      if put i then
        let! r := piperead_loop k' put (i + 1) in ret (r.1, ch :: r.2)
      else ret (i, [])
  end.
(** One run of [piperead(pi, addr, n)]. *)
Definition piperead (put : Z → bool) (killed : bool) (n : Z) : M pipe (run unit (Z * list Z)) :=
  let! p := gets id in
  if (nread p =? nwrite p) && writeopen p then
    if killed then ret (Done (-1, [])) else ret (Asleep tt)
  else
    let! r := piperead_loop (Z.to_nat n) put 0 in
    do! wakeup WriteChan in
    ret (Done r).

(** [pipeclose]; the result is whether the page is freed. *)
Definition pipeclose (writable : bool) : M pipe bool :=
  do! (if writable then
         do! modify (λ p, p <| writeopen := false |>) in wakeup ReadChan
       else
         do! modify (λ p, p <| readopen := false |>) in wakeup WriteChan) in
  let! p := gets id in
  ret (negb (readopen p) && negb (writeopen p)).

(** ** The queue a pipe implements *)

(** Bytes in the pipe, modulo 2^32 as the counters are. *)
Definition used (p : pipe) : Z := u32 (nwrite p - nread p).
Definition contents (p : pipe) : list Z :=
  map (λ k, data p !!! Z.to_nat (u32 (nread p + Z.of_nat k) mod PIPESIZE)) (seq 0 (Z.to_nat (used p))).

Record pipe_ok (p : pipe) : Prop := {
  ok_data : length (data p) = 512%nat;
  ok_r : 0 ≤ nread p < 2 ^ 32;
  ok_w : 0 ≤ nwrite p < 2 ^ 32;
  ok_used : used p ≤ PIPESIZE
}.

Lemma used_range p : 0 ≤ used p < 2 ^ 32.
Proof. apply u32_range. Qed.

Lemma init_ok junk : length junk = 512%nat → pipe_ok (init_pipe junk).
Proof. intros. split; simpl; try done; lia. Qed.

Lemma init_contents junk : contents (init_pipe junk) = [].
Proof. done. Qed.

(** Wrap-around of the counters keeps the position in the ring. *)
Lemma pos_wrap x : u32 x mod PIPESIZE = x mod PIPESIZE.
Proof. apply Z.mod_mod_divide. by exists 8388608. Qed.

Lemma contents_eq p :
  contents p = map (λ k, data p !!! Z.to_nat ((nread p + Z.of_nat k) mod PIPESIZE))
                 (seq 0 (Z.to_nat (used p))).
Proof. unfold contents. apply map_ext. intros k. by rewrite pos_wrap. Qed.

Lemma length_contents p : length (contents p) = Z.to_nat (used p).
Proof. unfold contents. by rewrite length_map, length_seq. Qed.

(** The counters meet exactly when the pipe is empty, and differ by PIPESIZE
    exactly when it is full. *)
Lemma empty_iff p : pipe_ok p → nread p = nwrite p ↔ used p = 0.
Proof. intros [_ Hr Hw _]. unfold used, u32. split; dlia. Qed.
Lemma full_iff p : pipe_ok p → nwrite p = u32 (nread p + PIPESIZE) ↔ used p = PIPESIZE.
Proof. intros [_ Hr Hw Hu]. unfold used, u32, PIPESIZE in *. split; dlia. Qed.

(** The update of one byte written, and of one byte consumed. *)
Definition push (p : pipe) (ch : Z) : pipe :=
  (p <| data := <[Z.to_nat (nwrite p mod PIPESIZE) := u8 ch]> (data p) |>)
    <| nwrite := u32 (nwrite p + 1) |>.
Definition pop (p : pipe) : pipe := p <| nread := u32 (nread p + 1) |>.

Lemma push_spec p ch :
  pipe_ok p → nwrite p ≠ u32 (nread p + PIPESIZE) →
  pipe_ok (push p ch) ∧ contents (push p ch) = contents p ++ [u8 ch].
Proof.
  intros Hok Hn. rewrite (full_iff p Hok) in Hn. destruct Hok as [Hd Hr Hw Hu].
  pose proof (used_range p). assert (used p < PIPESIZE) as Hlt by lia.
  assert (used (push p ch) = used p + 1) as Hu'.
  { unfold used, push, u32, PIPESIZE in *. simpl. dlia. }
  split.
  - split; simpl; [by rewrite length_insert|done|apply u32_range|lia].
  - rewrite !contents_eq, Hu'. replace (Z.to_nat (used p + 1)) with (Z.to_nat (used p) + 1)%nat by lia.
    rewrite seq_app, map_app. simpl.
    assert (nwrite p mod PIPESIZE = (nread p + used p) mod PIPESIZE) as Hpos.
    { unfold used. rewrite <- (pos_wrap (nread p + _)). unfold u32, PIPESIZE in *. dlia. }
    f_equal.
    + apply map_ext_in. intros k Hk. apply in_seq in Hk.
      rewrite list_lookup_total_insert_ne; [done|]. rewrite Hpos. unfold PIPESIZE in *. dlia.
    + f_equal. replace (Z.of_nat (Z.to_nat (used p))) with (used p) by lia. rewrite <- Hpos.
      apply list_lookup_total_insert_eq. unfold PIPESIZE in *. rewrite Hd. dlia.
Qed.

Lemma pop_spec p :
  pipe_ok p → nread p ≠ nwrite p →
  pipe_ok (pop p) ∧
  contents p = data p !!! Z.to_nat (nread p mod PIPESIZE) :: contents (pop p).
Proof.
  intros Hok Hn. rewrite (empty_iff p Hok) in Hn. destruct Hok as [Hd Hr Hw Hu].
  pose proof (used_range p).
  assert (used p = used (pop p) + 1) as Hu' by (unfold used, pop, u32 in *; simpl; dlia).
  pose proof (used_range (pop p)). split.
  - split; simpl; [done|apply u32_range|done|lia].
  - rewrite !contents_eq, Hu'.
    replace (Z.to_nat (used (pop p) + 1)) with (S (Z.to_nat (used (pop p)))) by lia.
    cbn [seq map]. rewrite Z.add_0_r. f_equal. rewrite <- seq_shift, map_map.
    apply map_ext. intros k. simpl. f_equal. f_equal.
    rewrite <- (pos_wrap (u32 (nread p + 1) + Z.of_nat k)).
    rewrite <- (pos_wrap (nread p + Z.of_nat (S k))). f_equal.
    unfold u32. rewrite Zplus_mod_idemp_l.
    by replace (nread p + 1 + Z.of_nat k) with (nread p + Z.of_nat (S k)) by lia.
Qed.

Lemma wakeup_same p c : pipe_ok p → pipe_ok (p <| wakeups := c |>) ∧ contents (p <| wakeups := c |>) = contents p.
Proof. intros [? ? ? ?]. by split; [split|]. Qed.

(** ** Runs append to and take from the queue *)

(** The user bytes [i .. i + n - 1]. *)
Definition fetched (fetch : Z → option Z) (i : Z) (n : nat) : list Z :=
  map (λ k, u8 (default 0 (fetch (i + Z.of_nat k)))) (seq 0 n).

Lemma fetched_cons fetch i ch m :
  fetch i = Some ch → fetched fetch i (S m) = u8 ch :: fetched fetch (i + 1) m.
Proof.
  intros E. unfold fetched. cbn [seq map]. rewrite Z.add_0_r, E. f_equal.
  rewrite <- seq_shift, map_map. apply map_ext. intros k.
  by replace (i + Z.of_nat (S k)) with (i + 1 + Z.of_nat k) by lia.
Qed.

(** [m] bytes are stored, then the run ends for one of the reasons it can. *)
Lemma pipewrite_loop_spec k fetch killed i p :
  pipe_ok p → 0 ≤ i →
  ∃ r p' m, pipewrite_loop k fetch killed i p = Ret r p' ∧ pipe_ok p' ∧
    readopen p' = readopen p ∧ writeopen p' = writeopen p ∧ nread p' = nread p ∧
    (m ≤ k)%nat ∧ (∀ j, (j < m)%nat → is_Some (fetch (i + Z.of_nat j))) ∧
    contents p' = contents p ++ fetched fetch i m ∧
    match r with
    | Asleep j => j = i + Z.of_nat m ∧ (m < k)%nat ∧ used p' = PIPESIZE ∧ last (wakeups p') = Some ReadChan
    | Done j => (j = -1 ∧ (readopen p = false ∧ m = 0%nat ∨ killed (i + Z.of_nat m) = true) ∧ (m < k)%nat ∧
                 wakeups p' = wakeups p) ∨
                (j = i + Z.of_nat m ∧ last (wakeups p') = Some ReadChan ∧
                 (m = k ∨ fetch j = None))
    end ∧
    (k ≠ 0%nat → readopen p = false ∨ killed i = true → r = Done (-1) ∧ m = 0%nat).
Proof.
  revert i p. induction k as [|k IH]; intros i p Hok Hi.
  { destruct (wakeup_same p (wakeups p ++ [ReadChan]) Hok) as [W1 W2].
    exists (Done i), (p <| wakeups := wakeups p ++ [ReadChan] |>), 0%nat.
    split_and!; try done; [lia|by rewrite W2, app_nil_r|].
    right. split; [lia|]. split; [|by left]. simpl. apply last_snoc. }
  cbn [pipewrite_loop]. rewrite (bind_eq (gets id) _ _ _ _ eq_refl). cbn [id].
  destruct (negb (readopen p) || killed i) eqn:Ek.
  { exists (Done (-1)), p, 0%nat. split_and!; try done; [lia|intros; lia|by rewrite app_nil_r|].
    left. split_and!; [done| |lia|done]. rewrite Z.add_0_r. destruct (readopen p), (killed i); naive_solver. }
  assert (readopen p = true ∧ killed i = false) as [Ero Eki] by (destruct (readopen p), (killed i); done).
  destruct (Z.eqb_spec (nwrite p) (u32 (nread p + PIPESIZE))) as [Hf|Hf].
  { destruct (wakeup_same p (wakeups p ++ [ReadChan]) Hok) as [W1 W2].
    exists (Asleep i), (p <| wakeups := wakeups p ++ [ReadChan] |>), 0%nat.
    split_and!; try done; [lia|intros; lia|by rewrite W2, app_nil_r|lia|lia|by apply (full_iff p Hok)|simpl; apply last_snoc|].
    intros _ [?|?]; congruence. }
  destruct (fetch i) as [ch|] eqn:Ef.
  2:{ destruct (wakeup_same p (wakeups p ++ [ReadChan]) Hok) as [W1 W2].
      exists (Done i), (p <| wakeups := wakeups p ++ [ReadChan] |>), 0%nat.
      split_and!; try done; [lia|intros; lia|by rewrite W2, app_nil_r| |intros _ [?|?]; congruence].
      right. split_and!; [lia|simpl; apply last_snoc|by right]. }
  rewrite (bind_eq (modify _) _ _ _ _ eq_refl).
  change (pipewrite_loop k fetch killed (i + 1) _) with (pipewrite_loop k fetch killed (i + 1) (push p ch)).
  destruct (push_spec p ch Hok Hf) as [Hok1 Hc1].
  destruct (IH (i + 1) (push p ch) Hok1 ltac:(lia)) as (r & p' & m & E & Hok' & R & Wo & Nr & Hm & Hs & Hc & Hr & _).
  exists r, p', (S m). split_and!; try done; [lia| | | |intros _ [?|?]; congruence].
  { intros [|x] Hx; [rewrite Z.add_0_r, Ef; eauto|].
    replace (i + Z.of_nat (S x)) with (i + 1 + Z.of_nat x) by lia. apply Hs. lia. }
  { by rewrite Hc, Hc1, (fetched_cons _ _ _ _ Ef), <- app_assoc. }
  replace (i + Z.of_nat (S m)) with (i + 1 + Z.of_nat m) by lia. destruct r as [j|j].
  - destruct Hr as (-> & ? & ? & ?). split_and!; [lia|lia|done|done].
  - destruct Hr as [(-> & Hcl & Hk & Hw)|(-> & Hl & Hend)].
    + left. split_and!; [done| |lia|done]. destruct Hcl as [[Hcl _]|?]; [|by right]. simpl in Hcl. congruence.
    + right. split_and!; [done|done|]. destruct Hend; [left; lia|by right].
Qed.

(** Some bytes leave the ring: [bs] reach the user, [x] is lost, which happens
    to one byte when its [copyout] fails. *)
Lemma piperead_loop_spec k put i p :
  pipe_ok p →
  ∃ bs x p', piperead_loop k put i p = Ret (i + Z.of_nat (length bs), bs) p' ∧ pipe_ok p' ∧ nwrite p' = nwrite p ∧
    nread p' = u32 (nread p + Z.of_nat (length (bs ++ x))) ∧
    readopen p' = readopen p ∧ writeopen p' = writeopen p ∧
    contents p = bs ++ x ++ contents p' ∧ (length (bs ++ x) ≤ k)%nat ∧
    (x = [] ∧ (length bs = k ∨ contents p' = []) ∨ length x = 1%nat ∧ put (i + Z.of_nat (length bs)) = false).
Proof.
  revert i p. induction k as [|k IH]; intros i p Hok.
  { exists [], [], p. cbn [piperead_loop length]. rewrite !Z.add_0_r. split_and!; try done; [|by left; auto].
    symmetry. by apply Z.mod_small, ok_r. }
  cbn [piperead_loop]. rewrite (bind_eq (gets id) _ _ _ _ eq_refl). cbn [id].
  destruct (Z.eqb_spec (nread p) (nwrite p)) as [He|Hne].
  { apply (empty_iff p Hok) in He.
    assert (contents p = []) as Hemp by (apply length_zero_iff_nil; rewrite length_contents, He; done).
    exists [], [], p. cbn [length app]. rewrite !Z.add_0_r. split_and!; try done; [|lia|by left; auto].
    symmetry. by apply Z.mod_small, ok_r. }
  destruct (pop_spec p Hok Hne) as [Hok1 Hc1].
  rewrite (bind_eq (modify _) _ _ _ _ eq_refl). set (ch := data p !!! _) in *.
  change (p <| nread := _ |>) with (pop p). destruct (put i) eqn:Ep.
  - destruct (IH (i + 1) (pop p) Hok1) as (bs & x & p' & E & Hok' & W & N & R & Wo & Hc & Hl & Hx).
    rewrite (bind_eq _ _ _ _ _ E). exists (ch :: bs), x, p'. cbn [length app]. rewrite Nat2Z.inj_succ.
    replace (i + Z.succ (Z.of_nat (length bs))) with (i + 1 + Z.of_nat (length bs)) by lia.
    split_and!; try done; [|by rewrite Hc1, Hc|lia|].
    + rewrite N. simpl. unfold u32. rewrite Zplus_mod_idemp_l. f_equal. lia.
    + destruct Hx as [[-> Hx]|Hx]; [left|by right]. split; [done|]. destruct Hx; [left; lia|by right].
  - exists [], [ch], (pop p). cbn [length app]. rewrite !Z.add_0_r. split_and!; try done; [lia|]. right. done.
Qed.

(** ** Interleaving of the two ends *)

(** What the counters tell of a run: how many bytes a writer stored, and the
    bytes that left the ring without reaching the user when [bs] did. *)
Definition stored (p p' : pipe) : nat := Z.to_nat (u32 (nwrite p' - nwrite p)).
Definition lost (bs : list Z) (p p' : pipe) : list Z :=
  drop (length bs) (take (Z.to_nat (u32 (nread p' - nread p))) (contents p)).

(** A pipe with its history: the bytes stored, and for each read the bytes
    that reached the user and those that did not. *)
Record phist := mk_phist { pi : pipe; wrote : list Z; reads : list (list Z * list Z) }.

(** Any process at either end may run, in any order, with any arguments. *)
Inductive pstep : phist → phist → Prop :=
| step_write fetch killed n i r h p' :
    0 ≤ i → pipewrite fetch killed n i (pi h) = Ret r p' →
    pstep h (mk_phist p' (wrote h ++ fetched fetch i (stored (pi h) p')) (reads h))
| step_read put killed n r bs h p' :
    piperead put killed n (pi h) = Ret (Done (r, bs)) p' →
    pstep h (mk_phist p' (wrote h) (reads h ++ [(bs, lost bs (pi h) p')]))
| step_read_sleep put killed n h p' :
    piperead put killed n (pi h) = Ret (Asleep tt) p' →
    pstep h (mk_phist p' (wrote h) (reads h))
| step_close writable b h p' :
    pipeclose writable (pi h) = Ret b p' →
    pstep h (mk_phist p' (wrote h) (reads h)).

(** What has left the ring, in order. *)
Definition left_ring (h : phist) : list Z := reads h ≫= λ r, r.1 ++ r.2.

Definition fifo (h : phist) : Prop := pipe_ok (pi h) ∧ wrote h = left_ring h ++ contents (pi h).

Lemma stored_eq p p' fetch i m :
  pipe_ok p → pipe_ok p' → nread p' = nread p → contents p' = contents p ++ fetched fetch i m → stored p p' = m.
Proof.
  intros Hok Hok' Hn Hc. apply (f_equal length) in Hc. unfold fetched in Hc.
  rewrite length_app, length_map, length_seq, !length_contents in Hc.
  destruct Hok as [_ Hr Hw Hu], Hok' as [_ Hr' Hw' Hu']. unfold stored, used, u32, PIPESIZE in *. rewrite Hn in *. dlia.
Qed.

Lemma lost_eq bs x p p' :
  pipe_ok p → nread p' = u32 (nread p + Z.of_nat (length (bs ++ x))) → contents p = bs ++ x ++ contents p' → lost bs p p' = x.
Proof.
  intros Hok Hn Hc. unfold lost. assert (Z.to_nat (u32 (nread p' - nread p)) = length (bs ++ x)) as ->.
  { apply (f_equal length) in Hc. rewrite app_assoc, length_app, length_contents in Hc. pose proof (used_range p).
    rewrite Hn. destruct Hok as [_ Hr Hw Hu]. unfold u32, PIPESIZE in *. dlia. }
  rewrite Hc, app_assoc, take_app_length. apply drop_app_length.
Qed.

Lemma piperead_spec put killed n p :
  pipe_ok p →
  ∃ r p', piperead put killed n p = Ret r p' ∧ pipe_ok p' ∧
    match r with
    | Asleep _ => p' = p ∧ contents p = [] ∧ writeopen p = true ∧ killed = false
    | Done (v, bs) =>
        contents p = bs ++ lost bs p p' ++ contents p' ∧
        ((v = -1 ∧ bs = [] ∧ lost bs p p' = [] ∧ killed = true ∧ contents p = [] ∧ writeopen p = true) ∨
         (v = Z.of_nat (length bs) ∧ (length bs ≤ Z.to_nat n)%nat ∧ last (wakeups p') = Some WriteChan ∧
          (contents p = [] → writeopen p = false) ∧
          (lost bs p p' = [] ∧ (length bs = Z.to_nat n ∨ contents p' = []) ∨
           length (lost bs p p') = 1%nat ∧ put (Z.of_nat (length bs)) = false)))
    end.
Proof.
  intros Hok. unfold piperead. rewrite (bind_eq (gets id) _ _ _ _ eq_refl). cbn [id].
  assert (nread p = nwrite p ↔ contents p = []) as Hemp.
  { rewrite (empty_iff p Hok), <- length_zero_iff_nil, length_contents. pose proof (used_range p). lia. }
  destruct ((nread p =? nwrite p) && writeopen p) eqn:Ew.
  { apply andb_prop in Ew as [He%Z.eqb_eq%Hemp Ew]. destruct killed.
    - assert (lost [] p p = []) as El by (unfold lost; by rewrite He, take_nil).
      exists (Done (-1, [])), p. rewrite El. split_and!; try done. left. done.
    - exists (Asleep tt), p. done. }
  destruct (piperead_loop_spec (Z.to_nat n) put 0 p Hok) as (bs & x & p1 & E & Hok1 & W & N & R & Wo & Hc & Hl & Hx).
  rewrite (bind_eq _ _ _ _ _ E). destruct (wakeup_same p1 (wakeups p1 ++ [WriteChan]) Hok1) as [W1 W2].
  eexists (Done (_, bs)), (p1 <| wakeups := wakeups p1 ++ [WriteChan] |>). split; [reflexivity|]. split; [done|].
  rewrite (lost_eq bs x) by (done || by rewrite W2). rewrite W2. split; [done|]. right. split_and!; [done| | | |done].
  - rewrite length_app in Hl. lia.
  - simpl. apply last_snoc.
  - intros Hz%Hemp. by rewrite Hz, Z.eqb_refl in Ew.
Qed.

Lemma pipewrite_stored fetch killed n i r p p' :
  pipe_ok p → 0 ≤ i → pipewrite fetch killed n i p = Ret r p' →
  pipe_ok p' ∧ contents p' = contents p ++ fetched fetch i (stored p p').
Proof.
  intros Hok Hi E. destruct (pipewrite_loop_spec (Z.to_nat (n - i)) fetch killed i p Hok Hi)
    as (r' & q & m & E' & Hok' & _ & _ & Hn & _ & _ & Hc & _).
  unfold pipewrite in E. rewrite E' in E. injection E as -> ->. split; [done|].
  by rewrite (stored_eq p p' fetch i m).
Qed.

Lemma pipeclose_spec writable p :
  pipe_ok p → ∃ b p', pipeclose writable p = Ret b p' ∧ pipe_ok p' ∧ contents p' = contents p ∧
    readopen p' = (if writable then readopen p else false) ∧
    writeopen p' = (if writable then false else writeopen p) ∧
    b = negb (readopen p') && negb (writeopen p').
Proof.
  intros [Hd Hr Hw Hu]. destruct writable; eexists _, _; (split; [reflexivity|]); (split; [by split|done]).
Qed.

Lemma pstep_fifo h h' : pstep h h' → fifo h → fifo h'.
Proof.
  intros Hs [Hok Hf]. destruct Hs as [fetch killed n i r h p' Hi E|put killed n r bs h p' E
    |put killed n h p' E|writable b h p' E]; unfold fifo, left_ring; cbn [pi wrote reads].
  - destruct (pipewrite_stored _ _ _ _ _ _ _ Hok Hi E) as [Hok' Hc]. split; [done|].
    by rewrite Hc, Hf, app_assoc.
  - destruct (piperead_spec put killed n _ Hok) as (r' & q & E' & Hok' & Hc).
    rewrite E in E'. injection E' as <- <-. split; [done|]. destruct Hc as [Hc _].
    rewrite bind_app. simpl. rewrite app_nil_r, <- !app_assoc, <- Hc. exact Hf.
  - destruct (piperead_spec put killed n _ Hok) as (r' & q & E' & Hok' & Hc).
    rewrite E in E'. injection E' as <- <-. destruct Hc as [-> _]. done.
  - destruct (pipeclose_spec writable _ Hok) as (b' & q & E' & Hok' & Hc & _).
    rewrite E in E'. injection E' as <- <-. by rewrite Hc.
Qed.

Lemma reachable_fifo junk h :
  length junk = 512%nat → rtc pstep (mk_phist (init_pipe junk) [] []) h → fifo h.
Proof.
  intros Hj Hs. assert (fifo (mk_phist (init_pipe junk) [] [])) as H0 by (split; [by apply init_ok|done]).
  revert H0. induction Hs as [|x y z Hxy _ IH]; [done|]. intros Hx. apply IH. by eapply pstep_fifo.
Qed.

(** ** Properties *)

(** C15: A pipe is a FIFO queue of at most 512 bytes. However runs of readers,
    writers and closers at its two ends interleave, the bytes stored by the
    writers are at all times, in order, those that left the ring in the reads
    made so far followed by those in it: none is duplicated, reordered or
    invented, the counters' 32-bit wrap-around included. A read returns how
    many bytes reached its reader, which are the next ones of the queue. It
    loses at most one more, and only when the [copyout] of that byte fails; a
    reader with a good buffer gets everything that leaves the ring. A reader
    sleeps only while the ring is empty and has a writer. *)
Theorem pipe_fifo junk h :
  length junk = 512%nat → rtc pstep (mk_phist (init_pipe junk) [] []) h →
  wrote h = (reads h ≫= λ r, r.1 ++ r.2) ++ contents (pi h) ∧ (length (contents (pi h)) ≤ 512)%nat ∧
  ∀ put killed n, ∃ r p', piperead put killed n (pi h) = Ret r p' ∧
    match r with
    | Asleep _ => contents (pi h) = [] ∧ writeopen (pi h) = true
    | Done (v, bs) => ∃ x, contents (pi h) = bs ++ x ++ contents p' ∧
        (v = Z.of_nat (length bs) ∨ v = -1 ∧ bs ++ x = [] ∧ killed = true) ∧
        (x = [] ∨ length x = 1%nat ∧ put (Z.of_nat (length bs)) = false)
    end.
Proof.
  intros Hj Hs. destruct (reachable_fifo _ _ Hj Hs) as [Hok Hf]. split_and!; [done| |].
  - rewrite length_contents. pose proof (ok_used _ Hok). unfold PIPESIZE in *. lia.
  - intros put killed n. destruct (piperead_spec put killed n _ Hok) as (r & p' & E & _ & Hr). exists r, p'. split; [done|].
    destruct r as [|[v bs]]; [tauto|]. destruct Hr as [Hc Hr]. exists (lost bs (pi h) p'). split; [done|].
    destruct Hr as [(-> & -> & El & -> & _)|(-> & _ & _ & _ & Hx)]; [rewrite El; auto|]. split; [by left|]. tauto.
Qed.

(** What [piperead] returns. It sleeps only when the pipe is empty with a
    writer; -1 means it was killed while waiting; 0 for a positive request
    means end of file, the pipe is empty and no writer is left, when the user
    buffer is good; otherwise it returns as many bytes as were asked for or as
    there were. *)
Theorem piperead_result put killed n p :
  pipe_ok p → (∀ j, put j = true) → 0 < n →
  ∃ r p', piperead put killed n p = Ret r p' ∧
    match r with
    | Asleep _ => contents p = [] ∧ writeopen p = true ∧ killed = false
    | Done (v, bs) =>
        (v = -1 ∧ killed = true ∧ contents p = [] ∧ writeopen p = true) ∨
        (v = 0 ∧ contents p = [] ∧ writeopen p = false) ∨
        (0 < v ∧ v = Z.min n (Z.of_nat (length (contents p))) ∧ contents p = bs ++ contents p' ∧
         v = Z.of_nat (length bs))
    end.
Proof.
  intros Hok Hput Hn. destruct (piperead_spec put killed n p Hok) as (r & p' & E & Hok' & Hr).
  exists r, p'. split; [done|]. destruct r as [u|[v bs]]; [tauto|].
  destruct Hr as [Hc [(-> & _ & _ & Hr)|(-> & Hl & _ & Hw & [[El Hend]|[_ Hp]])]]; [tauto| |by rewrite Hput in Hp].
  rewrite El in Hc. simpl in Hc. destruct bs as [|b bs].
  - right. left. destruct Hend as [Hend|Hend]; [simpl in Hend; lia|]. rewrite Hend in Hc. auto.
  - right. right. split_and!; [simpl; lia| |done|done]. rewrite Hc, length_app.
    destruct Hend as [Hend|Hend]; [|rewrite Hend]; simpl in *; lia.
Qed.

(** What [pipewrite] returns. With a good user buffer a run stores all the
    remaining bytes, wakes the readers and returns [n], or fills the pipe,
    wakes the readers and sleeps, or it finds the read end closed or the
    process killed and returns -1. A kill that is seen after some bytes were
    stored returns without a wakeup, so a reader that sleeps stays asleep with
    bytes in the pipe. *)
Lemma pipewrite_result fetch killed n i p :
  pipe_ok p → 0 ≤ i < n → (∀ j, i ≤ j < n → is_Some (fetch j)) →
  ∃ r p' j, pipewrite fetch killed n i p = Ret r p' ∧ i ≤ j ≤ n ∧
    contents p' = contents p ++ fetched fetch i (Z.to_nat (j - i)) ∧
    (r = Done n ∧ j = n ∧ last (wakeups p') = Some ReadChan ∨
     r = Asleep j ∧ j < n ∧ length (contents p') = 512%nat ∧ last (wakeups p') = Some ReadChan ∨
     r = Done (-1) ∧ (readopen p = false ∧ j = i ∨ j < n ∧ killed j = true) ∧ wakeups p' = wakeups p) ∧
    (readopen p = false ∨ killed i = true → r = Done (-1) ∧ j = i).
Proof.
  intros Hok Hi Hf. unfold pipewrite.
  destruct (pipewrite_loop_spec (Z.to_nat (n - i)) fetch killed i p Hok ltac:(lia))
    as (r & p' & m & E & Hok' & _ & _ & _ & Hm & _ & Hc & Hr & H0).
  exists r, p', (i + Z.of_nat m). split_and!; [done|lia|lia|rewrite Hc; do 2 f_equal; lia| |].
  - destruct r as [j|j].
    + destruct Hr as (-> & Hlt & Hu & Hw). right. left. split_and!; [done|lia|by rewrite length_contents, Hu|done].
    + destruct Hr as [(-> & Hr & Hlt & Hw)|(-> & Hw & Hend)].
      * right. right. split_and!; [done| |done]. destruct Hr as [[? ->]|?]; [left; split; [done|lia]|right; split; [lia|done]].
      * left. assert (i + Z.of_nat m = n) as En; [|by rewrite En].
        destruct Hend as [?|Hnone]; [lia|]. destruct (decide (i + Z.of_nat m < n)); [|lia].
        destruct (Hf (i + Z.of_nat m)) as [x Hx]; [lia|]. congruence.
  - intros Hk. destruct (H0 ltac:(lia) Hk) as [-> ->]. split; [done|lia].
Qed.

(** ** Witnesses *)

Lemma pipe_fifo_witness :
  ∃ h, rtc pstep (mk_phist (init_pipe (replicate 512 5)) [] []) h ∧ wrote h = [104; 105] ∧
    wrote h = (reads h ≫= λ r, r.1 ++ r.2) ++ contents (pi h).
Proof.
  destruct (pipewrite (λ i, Some (104 + i)) (λ i, i =? 2) 3 0 (init_pipe (replicate 512 5))) as [r p'| | |] eqn:E;
    try (vm_compute in E; discriminate).
  set (h0 := mk_phist (init_pipe (replicate 512 5)) [] []).
  set (h := mk_phist p' (wrote h0 ++ fetched (λ i, Some (104 + i)) 0 (stored (pi h0) p')) []).
  assert (rtc pstep h0 h) as Hs.
  { apply rtc_once. apply (step_write (λ i, Some (104 + i)) (λ i, i =? 2) 3 0 r h0 p'); [lia|exact E]. }
  exists h. split; [exact Hs|]. split; [vm_compute in E; injection E as _ <-; vm_compute; reflexivity|].
  exact (proj1 (pipe_fifo (replicate 512 5) h eq_refl Hs)).
Defined.

Lemma demo_pipe_ok : pipe_ok (init_pipe (replicate 512 5)).
Proof. by apply init_ok. Qed.

Lemma piperead_result_witness :
  ∃ r p', piperead (λ _, true) false 3 (init_pipe (replicate 512 5)) = Ret r p'.
Proof.
  destruct (piperead_result (λ _, true) false 3 (init_pipe (replicate 512 5)) demo_pipe_ok)
    as (r & p' & E & _); [reflexivity|lia|].
  exists r, p'. exact E.
Defined.

Lemma pipewrite_result_witness :
  ∃ r p' j, pipewrite (λ i, Some i) (λ _, true) 2 0 (init_pipe (replicate 512 5)) = Ret r p' ∧ r = Done (-1) ∧ j = 0.
Proof.
  destruct (pipewrite_result (λ i, Some i) (λ _, true) 2 0 (init_pipe (replicate 512 5)) demo_pipe_ok)
    as (r & p' & j & E & _ & _ & _ & Hk); [lia|intros j _; eexists; reflexivity|].
  exists r, p', j. split; [exact E|]. exact (Hk (or_intror eq_refl)).
Defined.

End Pipe.
