(* ===== verification/Bio.v ===== *)
(** * Sleep locks and the buffer cache ([kernel/sleeplock.c], [kernel/bio.c])

    The cache is the array [bcache.buf] threaded by [prev]/[next] into a
    circular list through [bcache.head], here the extra last element [HEAD] of
    the array. A pointer to a buffer is its index. Sleep locks record the
    holder's pid; waiting for one is the outcome [Sleeps]. The disk driver
    appears as the transfer it performs, with the history of block writes. *)

From S2P Require Import Prelude.
From S2P Require Import Machine.
#[local] Open Scope Z_scope.

Definition BSIZE : Z := 1024.
Definition nbuf : nat := 30.      (* NBUF *)
Definition HEAD : nat := 30.      (* &bcache.head *)

Record sleeplock := mk_sleeplock { sl_locked : bool; sl_pid : Z }.
#[export] Instance sleeplock_eta : Settable sleeplock := λ l, mk_sleeplock (sl_locked l) (sl_pid l).

Record buf := mk_buf {
  valid : bool;
  b_dev : Z;
  blockno : Z;
  b_lock : sleeplock;
  refcnt : Z;
  prev : nat;
  next : nat;
  b_data : list Z
}.
#[export] Instance buf_eta : Settable buf := λ b,
  mk_buf (valid b) (b_dev b) (blockno b) (b_lock b) (refcnt b) (prev b) (next b) (b_data b).
Definition zero_buf : buf :=
  mk_buf false 0 0 (mk_sleeplock false 0) 0 0 0 (replicate (Z.to_nat BSIZE) 0).
#[export] Instance buf_inhabited : Inhabited buf := populate zero_buf.

(** [mypid] is [myproc()->pid]; [disk] and [dwrites] are the disk and the
    writes it has received, oldest first; [bwoken] lists the sleep locks
    [wakeup] was called on. *)
Record bst := mk_bst {
  bufs : list buf;
  mypid : Z;
  disk : gmap Z (list Z);
  dwrites : list (Z * list Z);
  bwoken : list nat
}.
#[export] Instance bst_eta : Settable bst := λ s,
  mk_bst (bufs s) (mypid s) (disk s) (dwrites s) (bwoken s).

Definition bget_buf (b : nat) : M bst buf := gets (λ s, bufs s !!! b).
Definition bset (b : nat) (f : buf → buf) : M bst unit :=
  modify (λ s, s <| bufs := alter f b (bufs s) |>).

(** ** sleeplock.c, on the lock of a buffer *)

Definition initsleeplock (b : nat) : M bst unit := bset b (λ x, x <| b_lock := mk_sleeplock false 0 |>).

Definition acquiresleep (b : nat) : M bst unit :=
  let! x := bget_buf b in
  if sl_locked (b_lock x) then sleeps (Z.of_nat b) else
  let! me := gets mypid in
  bset b (λ x, x <| b_lock := mk_sleeplock true me |>).

Definition releasesleep (b : nat) : M bst unit :=
  do! bset b (λ x, x <| b_lock := mk_sleeplock false 0 |>) in
  modify (λ s, s <| bwoken := bwoken s ++ [b] |>).

Definition holdingsleep (b : nat) : M bst bool :=
  let! x := bget_buf b in
  let! me := gets mypid in
  ret (sl_locked (b_lock x) && (sl_pid (b_lock x) =? me)).

(** ** bio.c *)

(** [b->next = bcache.head.next; b->prev = &bcache.head;
    bcache.head.next->prev = b; bcache.head.next = b;] *)
Definition insert_front (b : nat) : M bst unit :=
  let! h := bget_buf HEAD in
  do! bset b (λ x, x <| next := next h |>) in
  do! bset b (λ x, x <| prev := HEAD |>) in
  let! h := bget_buf HEAD in
  do! bset (next h) (λ x, x <| prev := b |>) in
  bset HEAD (λ x, x <| next := b |>).

Definition binit : M bst unit :=
  do! bset HEAD (λ x, x <| prev := HEAD |>) in
  do! bset HEAD (λ x, x <| next := HEAD |>) in
  for_each (seq 0 nbuf) (λ b,
    do! initsleeplock b in
    insert_front b).

(** [for(b = bcache.head.next; b != &bcache.head; b = b->next)]. *)
Fixpoint find_cached (fuel : nat) (dev bno : Z) (b : nat) : M bst (option nat) :=
  match fuel with
  | O => λ s, NoFuel s
  | S fuel' =>
      if Nat.eqb b HEAD then ret None else
      let! x := bget_buf b in
      if (b_dev x =? dev) && (blockno x =? bno) then ret (Some b)
      else find_cached fuel' dev bno (next x)
  end.

(** [for(b = bcache.head.prev; b != &bcache.head; b = b->prev)]. *)
Fixpoint find_unused_buf (fuel : nat) (b : nat) : M bst (option nat) :=
  match fuel with
  | O => λ s, NoFuel s
  | S fuel' =>
      if Nat.eqb b HEAD then ret None else
      let! x := bget_buf b in
      if refcnt x =? 0 then ret (Some b)
      else find_unused_buf fuel' (prev x)
  end.

Definition bget (dev bno : Z) : M bst nat :=
  let! h := bget_buf HEAD in
  let! r := find_cached (S nbuf) dev bno (next h) in
  match r with
  | Some b =>
      do! bset b (λ x, x <| refcnt := u32 (refcnt x + 1) |>) in
      do! acquiresleep b in
      ret b
  | None =>
      let! h := bget_buf HEAD in
      let! r := find_unused_buf (S nbuf) (prev h) in
      match r with
      | Some b =>
          do! bset b (λ x, (((x <| b_dev := dev |>) <| blockno := bno |>) <| valid := false |>)
                            <| refcnt := 1 |>) in
          do! acquiresleep b in
          ret b
      | None => panic "bget: no buffers"
      end
  end.

(** The transfer [virtio_disk_rw] performs. *)
Definition disk_rw (b : nat) (write : bool) : M bst unit :=
  let! x := bget_buf b in
  if write then
    modify (λ s, (s <| disk := <[blockno x := b_data x]> (disk s) |>)
                  <| dwrites := dwrites s ++ [(blockno x, b_data x)] |>)
  else
    let! d := gets (λ s, default (replicate (Z.to_nat BSIZE) 0) (disk s !! blockno x)) in
    bset b (λ x, x <| b_data := d |>).

Definition bread (dev bno : Z) : M bst nat :=
  let! b := bget dev bno in
  let! x := bget_buf b in
  do! (if valid x then ret tt
       else do! disk_rw b false in bset b (λ x, x <| valid := true |>)) in
  ret b.

Definition bwrite (b : nat) : M bst unit :=
  let! h := holdingsleep b in
  if negb h then panic "bwrite" else disk_rw b true.

Definition brelse (b : nat) : M bst unit :=
  let! h := holdingsleep b in
  if negb h then panic "brelse" else
  do! releasesleep b in
  do! bset b (λ x, x <| refcnt := u32 (refcnt x - 1) |>) in
  let! x := bget_buf b in
  if refcnt x =? 0 then
    do! bset (next x) (λ y, y <| prev := prev x |>) in
    do! bset (prev x) (λ y, y <| next := next x |>) in
    insert_front b
  else ret tt.

Definition bpin (b : nat) : M bst unit := bset b (λ x, x <| refcnt := u32 (refcnt x + 1) |>).
Definition bunpin (b : nat) : M bst unit := bset b (λ x, x <| refcnt := u32 (refcnt x - 1) |>).

(** A machine just booted. *)
Definition boot_bst (pid : Z) (d : gmap Z (list Z)) : bst := mk_bst (replicate 31 zero_buf) pid d [] [].

Example binit_order :
  match binit (boot_bst 1 ∅) with
  | Ret _ s => (next (bufs s !!! HEAD), prev (bufs s !!! HEAD), next (bufs s !!! 0%nat)) = (29%nat, 0%nat, HEAD)
  | _ => False
  end.
Proof. vm_compute. reflexivity. Qed.

(** ** The list the pointers implement *)

(** From [a], following [next] through [l], one reaches [z]; and backwards. *)
Fixpoint fwd (bs : list buf) (a : nat) (l : list nat) (z : nat) : Prop :=
  match l with
  | [] => next (bs !!! a) = z
  | b :: l' => next (bs !!! a) = b ∧ fwd bs b l' z
  end.
Fixpoint bwd (bs : list buf) (a : nat) (l : list nat) (z : nat) : Prop :=
  match l with
  | [] => prev (bs !!! z) = a
  | b :: l' => prev (bs !!! b) = a ∧ bwd bs b l' z
  end.

Lemma fwd_app bs a l1 b l2 z : fwd bs a (l1 ++ b :: l2) z ↔ fwd bs a l1 b ∧ fwd bs b l2 z.
Proof. revert a. induction l1 as [|c l1 IH]; intros a; simpl; [done|]. rewrite IH. tauto. Qed.
Lemma bwd_app bs a l1 b l2 z : bwd bs a (l1 ++ b :: l2) z ↔ bwd bs a l1 b ∧ bwd bs b l2 z.
Proof. revert a. induction l1 as [|c l1 IH]; intros a; simpl; [done|]. rewrite IH. tauto. Qed.

(** Only the [next] fields of [a :: l], and the [prev] fields of [l ++ [z]],
    matter. *)
Lemma fwd_agree bs bs' a l z :
  (∀ c, c ∈ a :: l → next (bs' !!! c) = next (bs !!! c)) → fwd bs a l z → fwd bs' a l z.
Proof.
  revert a. induction l as [|b l IH]; intros a Hag; simpl; [rewrite Hag by (by left); done|].
  rewrite Hag by (by left). intros [-> Hf]. split; [done|]. apply IH; [|done].
  intros c Hc. apply Hag. by right.
Qed.
Lemma bwd_agree bs bs' a l z :
  (∀ c, c ∈ l ++ [z] → prev (bs' !!! c) = prev (bs !!! c)) → bwd bs a l z → bwd bs' a l z.
Proof.
  revert a. induction l as [|b l IH]; intros a Hag; simpl; [rewrite Hag by (by left); done|].
  rewrite Hag by (by left). intros [-> Hf]. split; [done|]. apply IH; [|done].
  intros c Hc. apply Hag. by right.
Qed.

Lemma fwd_head bs a l z : fwd bs a l z → next (bs !!! a) = default z (head l).
Proof. destruct l; simpl; [done|tauto]. Qed.
Lemma bwd_last bs a l z : bwd bs a l z → prev (bs !!! z) = default a (last l).
Proof.
  revert a. induction l as [|b l IH]; intros a; simpl; [done|]. intros [_ H].
  rewrite (IH _ H). destruct l as [|c l']; [done|].
  change (last (b :: c :: l')) with (last (c :: l')).
  destruct (last (c :: l')) eqn:E; [done|]. by apply last_None in E.
Qed.

(** ** Moving a buffer to the front *)

Lemma bset_next (bs : list buf) (b : nat) (f : buf → buf) (c : nat) : (∀ x, next (f x) = next x) → next (alter f b bs !!! c) = next (bs !!! c).
Proof. intros Hf. rewrite list_lookup_total_alter. case_decide as Hd; [|done]. destruct Hd as [-> _]. apply Hf. Qed.
Lemma bset_prev (bs : list buf) (b : nat) (f : buf → buf) (c : nat) : (∀ x, prev (f x) = prev x) → prev (alter f b bs !!! c) = prev (bs !!! c).
Proof. intros Hf. rewrite list_lookup_total_alter. case_decide as Hd; [|done]. destruct Hd as [-> _]. apply Hf. Qed.

(** The six pointer updates of [brelse], on the array. *)
Definition unlink (b : nat) (bs : list buf) : list buf :=
  alter (λ y, y <| next := next (bs !!! b) |>) (prev (bs !!! b))
    (alter (λ y, y <| prev := prev (bs !!! b) |>) (next (bs !!! b)) bs).
Definition relink (b : nat) (bs : list buf) : list buf :=
  let bs1 := alter (λ x, x <| prev := HEAD |>) b
               (alter (λ x, x <| next := next (bs !!! HEAD) |>) b bs) in
  alter (λ x, x <| next := b |>) HEAD (alter (λ x, x <| prev := b |>) (next (bs1 !!! HEAD)) bs1).

Lemma lookup_alter_nat (f : buf → buf) (bs : list buf) (i j : nat) :
  (i < length bs)%nat → alter f i bs !!! j = if decide (i = j) then f (bs !!! j) else bs !!! j.
Proof.
  intros Hi. rewrite list_lookup_total_alter. destruct (decide (i = j)) as [->|Hn].
  - by rewrite decide_True.
  - rewrite decide_False; [done|]. tauto.
Qed.

(** A list of buffers linked through the head, without a bound on its size. *)
Definition ring (bs : list buf) (l : list nat) : Prop :=
  length bs = 31%nat ∧ NoDup (HEAD :: l) ∧ (∀ b, b ∈ l → (b < 31)%nat) ∧
  fwd bs HEAD l HEAD ∧ bwd bs HEAD l HEAD.

(** Redirecting the end or the start of a segment. *)
Lemma last_default_elem (a : nat) l : default a (last l) ∈ a :: l.
Proof.
  destruct (last l) as [c|] eqn:E; simpl; [|by left]. right. by apply last_Some_elem_of in E.
Qed.
Lemma last_default_cons (a c : nat) l : default a (last (c :: l)) = default c (last l).
Proof.
  destruct l as [|d l]; [done|]. change (last (c :: d :: l)) with (last (d :: l)).
  destruct (last (d :: l)) eqn:E; [done|]. by apply last_None in E.
Qed.

Lemma fwd_end bs bs' a l z z' :
  fwd bs a l z → NoDup (a :: l) → next (bs' !!! default a (last l)) = z' →
  (∀ c, c ∈ a :: l → c ≠ default a (last l) → next (bs' !!! c) = next (bs !!! c)) →
  fwd bs' a l z'.
Proof.
  revert a. induction l as [|c l IH]; intros a; [done|].
  rewrite last_default_cons. intros [E Hf] Hnd Hend Hag. apply NoDup_cons in Hnd as [Hac Hnd].
  split.
  - rewrite Hag; [done|by left|]. intros Hx. apply Hac. rewrite Hx. apply last_default_elem.
  - apply IH; try done. intros d Hd. apply Hag. by right.
Qed.
Lemma bwd_end bs bs' a l z z' :
  bwd bs a l z → prev (bs' !!! z') = default a (last l) →
  (∀ c, c ∈ l → prev (bs' !!! c) = prev (bs !!! c)) → bwd bs' a l z'.
Proof.
  revert a. induction l as [|c l IH]; intros a; [done|].
  rewrite last_default_cons. intros [E Hf] Hend Hag. split.
  - rewrite Hag; [done|by left].
  - apply IH; try done. intros d Hd. apply Hag. by right.
Qed.
Lemma fwd_start bs bs' a a' l z :
  fwd bs a l z → next (bs' !!! a') = next (bs !!! a) →
  (∀ c, c ∈ l → next (bs' !!! c) = next (bs !!! c)) → fwd bs' a' l z.
Proof.
  destruct l as [|c l]; simpl; [congruence|]. intros [E Hf] Hs Hag. split; [congruence|].
  eapply fwd_agree; [|exact Hf]. done.
Qed.
Lemma bwd_start bs bs' a a' l z :
  bwd bs a l z → NoDup (l ++ [z]) → prev (bs' !!! default z (head l)) = a' →
  (∀ c, c ∈ l ++ [z] → c ≠ default z (head l) → prev (bs' !!! c) = prev (bs !!! c)) → bwd bs' a' l z.
Proof.
  destruct l as [|c l]; simpl; [done|]. intros [E Hf] Hnd Hs Hag. split; [done|].
  apply NoDup_cons in Hnd as [Hc _]. eapply bwd_agree; [|exact Hf]. intros d Hd. apply Hag; [by right|].
  intros ->. done.
Qed.

Lemma unlink_ring b l1 l2 bs :
  ring bs (l1 ++ b :: l2) → ring (unlink b bs) (l1 ++ l2).
Proof.
  intros (Hlen & Hnd & Hlt & Hf & Hb).
  apply fwd_app in Hf as [Hf1 Hf2]. apply bwd_app in Hb as [Hb1 Hb2].
  pose proof (fwd_head _ _ _ _ Hf2) as En. pose proof (bwd_last _ _ _ _ Hb1) as Ep.
  set (n := next (bs !!! b)) in *. set (p := prev (bs !!! b)) in *.
  apply NoDup_cons in Hnd as [Hh Hnd]. rewrite NoDup_app in Hnd. destruct Hnd as (Hn1 & Hn12 & Hn2).
  apply NoDup_cons in Hn2 as [Hb2n Hn2].
  assert ((HEAD ∉ l1) ∧ (HEAD ∉ l2)) as [Hh1 Hh2] by (rewrite elem_of_app, elem_of_cons in Hh; tauto).
  assert (∀ c, c ∈ HEAD :: l1 → c ∉ l2) as Hdis.
  { intros c [->|Hc]%elem_of_cons Hc2; [done|]. apply (Hn12 c Hc). by right. }
  assert (n = HEAD ∨ n ∈ l2) as Hnin.
  { rewrite En. destruct l2; simpl; [by left|right; by left]. }
  assert (p ∈ HEAD :: l1) as Hpin by (rewrite Ep; apply last_default_elem).
  assert (∀ c, c ∈ HEAD :: l1 ∨ c ∈ l2 → (c < 31)%nat) as Hall.
  { intros c [[->|Hc]%elem_of_cons|Hc]; [unfold HEAD; lia| |];
      apply Hlt; rewrite elem_of_app, elem_of_cons; tauto. }
  assert (p < 31)%nat as Hp31 by (apply Hall; tauto).
  assert (n < 31)%nat as Hn31 by (apply Hall; rewrite elem_of_cons; tauto).
  assert (∀ c, next (unlink b bs !!! c) = if decide (p = c) then n else next (bs !!! c)) as Nx.
  { intros c. unfold unlink. fold n p. rewrite lookup_alter_nat by (rewrite length_alter; lia).
    destruct (decide (p = c)); [done|]. by apply bset_next. }
  assert (∀ c, prev (unlink b bs !!! c) = if decide (n = c) then p else prev (bs !!! c)) as Pv.
  { intros c. unfold unlink. fold n p. rewrite bset_prev by done. rewrite lookup_alter_nat by lia.
    by destruct (decide (n = c)). }
  assert (NoDup (HEAD :: l1)) as Hnd1 by (by apply NoDup_cons).
  assert (fwd (unlink b bs) HEAD l1 n) as Gf.
  { apply (fwd_end bs _ _ _ b); [done|done| |]; rewrite <- Ep.
    - rewrite Nx. by rewrite decide_True.
    - intros c _ Hc. rewrite Nx. by rewrite decide_False. }
  assert (bwd (unlink b bs) HEAD l1 n) as Gb.
  { apply (bwd_end bs _ _ _ b); [done| |].
    - rewrite Pv. rewrite decide_True by done. done.
    - intros c Hc. rewrite Pv. rewrite decide_False; [done|]. intros <-.
      destruct Hnin as [Hn|Hn]; [rewrite Hn in Hc; done|]. apply (Hdis n); [by right|done]. }
  split; [unfold unlink; by rewrite !length_alter|]. split; [|split; [|split]].
  - apply NoDup_cons. split; [rewrite elem_of_app; tauto|]. apply NoDup_app. split; [done|].
    split; [|done]. intros c Hc. apply Hdis. by right.
  - intros c [Hc|Hc]%elem_of_app; apply Hall; rewrite elem_of_cons; tauto.
  - destruct l2 as [|c l2]; [rewrite app_nil_r; by rewrite En in Gf|].
    simpl in En. rewrite <- En in *. apply fwd_app. split; [done|]. simpl in Hf2. destruct Hf2 as [_ Hf2].
    eapply fwd_agree; [|exact Hf2]. intros d Hd. rewrite Nx. rewrite decide_False; [done|].
    intros <-. by apply (Hdis p).
  - destruct l2 as [|c l2]; [rewrite app_nil_r; by rewrite En in Gb|].
    simpl in En. rewrite <- En in *. apply bwd_app. split; [done|]. simpl in Hb2. destruct Hb2 as [_ Hb2].
    eapply bwd_agree; [|exact Hb2]. intros d Hd. rewrite Pv. rewrite decide_False; [done|].
    intros <-. apply NoDup_cons in Hn2 as [Hn2 _].
    apply elem_of_app in Hd as [Hd|Hd%list_elem_of_singleton]; [done|]. rewrite <- Hd in Hh2. apply Hh2. by left.
Qed.

Lemma relink_ring b l bs :
  ring bs l → b ∉ HEAD :: l → (b < 31)%nat → ring (relink b bs) (b :: l).
Proof.
  intros (Hlen & Hnd & Hlt & Hf & Hb) Hbl Hb31.
  apply not_elem_of_cons in Hbl as [HbH Hbl].
  pose proof (fwd_head _ _ _ _ Hf) as En. set (n := next (bs !!! HEAD)) in *.
  assert (n ∈ l ++ [HEAD]) as Hn.
  { rewrite En, elem_of_app, list_elem_of_singleton. destruct l; simpl; [by right|left; by left]. }
  assert (∀ c, c ∈ l ++ [HEAD] → (c < 31)%nat ∧ c ≠ b) as Hall.
  { intros c [Hc|Hc%list_elem_of_singleton]%elem_of_app; [split; [by apply Hlt|intros ->; done]|].
    subst c. split; [unfold HEAD; lia|done]. }
  destruct (Hall n Hn) as [Hn31 Hnb].
  set (bs1 := alter (λ x, x <| prev := HEAD |>) b (alter (λ x, x <| next := n |>) b bs)).
  assert (next (bs1 !!! HEAD) = n) as En1.
  { unfold bs1. rewrite bset_next by done. rewrite lookup_alter_nat by lia.
    rewrite decide_False by done. done. }
  assert (∀ c, next (relink b bs !!! c) = if decide (HEAD = c) then b else if decide (b = c) then n else next (bs !!! c)) as Nx.
  { intros c. unfold relink. fold n bs1. rewrite En1.
    rewrite lookup_alter_nat by (rewrite length_alter; unfold bs1; rewrite !length_alter; unfold HEAD; lia).
    destruct (decide (HEAD = c)); [done|]. rewrite bset_next by done. unfold bs1.
    rewrite bset_next by done. rewrite lookup_alter_nat by lia. by destruct (decide (b = c)). }
  assert (∀ c, prev (relink b bs !!! c) = if decide (n = c) then b else if decide (b = c) then HEAD else prev (bs !!! c)) as Pv.
  { intros c. unfold relink. fold n bs1. rewrite En1. rewrite bset_prev by done.
    rewrite lookup_alter_nat by (unfold bs1; rewrite !length_alter; lia).
    destruct (decide (n = c)); [done|]. unfold bs1. rewrite lookup_alter_nat by (rewrite length_alter; lia).
    destruct (decide (b = c)); [done|]. by apply bset_prev. }
  apply NoDup_cons in Hnd as [Hh Hnd].
  split; [unfold relink; by rewrite !length_alter|]. split; [|split; [|split]].
  - apply NoDup_cons. split; [rewrite elem_of_cons; intros [?|?]; congruence|]. by apply NoDup_cons.
  - intros c [->|Hc]%elem_of_cons; [done|by apply Hlt].
  - split; [rewrite Nx; by rewrite decide_True|]. eapply fwd_start; [exact Hf| |].
    + rewrite Nx. rewrite decide_False by congruence. by rewrite decide_True.
    + intros c Hc. rewrite Nx. rewrite !decide_False; [done| |]; intros <-; done.
  - split; [rewrite Pv; rewrite decide_False by done; by rewrite decide_True|].
    eapply bwd_start; [exact Hb| | |].
    + apply NoDup_app. split; [done|]. split; [|apply NoDup_singleton].
      intros c Hc ->%list_elem_of_singleton. done.
    + rewrite <- En. rewrite Pv. by rewrite decide_True.
    + intros c Hc Hne. rewrite <- En in Hne. rewrite Pv. rewrite !decide_False; [done| |congruence].
      intros <-. by apply (Hall b).
Qed.

(** [l]: the buffers from most to least recently used. *)
Definition lru (bs : list buf) (l : list nat) : Prop := ring bs l ∧ l ≡ₚ seq 0 nbuf.

Lemma lru_elem bs l b : lru bs l → b ∈ l ↔ (b < 30)%nat.
Proof. intros [_ ->]. rewrite elem_of_seq. unfold nbuf. lia. Qed.
Lemma lru_length bs l : lru bs l → length l = 30%nat.
Proof. intros [_ ->]. done. Qed.

(** An update that keeps the links keeps the order. *)
Lemma ring_keep bs l b f :
  (∀ x, next (f x) = next x ∧ prev (f x) = prev x) → ring bs l → ring (alter f b bs) l.
Proof.
  intros Hf (Hlen & Hnd & Hlt & Hfw & Hbw). split; [by rewrite length_alter|]. split; [done|]. split; [done|].
  split.
  - eapply fwd_agree; [|exact Hfw]. intros c _. apply bset_next. apply Hf.
  - eapply bwd_agree; [|exact Hbw]. intros c _. apply bset_prev. apply Hf.
Qed.
Lemma lru_keep bs l b f :
  (∀ x, next (f x) = next x ∧ prev (f x) = prev x) → lru bs l → lru (alter f b bs) l.
Proof. intros Hf [Hr Hp]. split; [by apply ring_keep|done]. Qed.

(** ** The searches *)

Lemma find_cached_spec dev bno s l1 l2 fuel :
  ring (bufs s) (l1 ++ l2) → (length l2 < fuel)%nat →
  find_cached fuel dev bno (default HEAD (head l2)) s =
  Ret (find (λ b, (b_dev (bufs s !!! b) =? dev) && (blockno (bufs s !!! b) =? bno)) l2) s.
Proof.
  revert l1 fuel. induction l2 as [|b l2 IH]; intros l1 fuel Hr Hf; (destruct fuel as [|fuel]; [simpl in Hf; lia|]).
  { done. }
  destruct Hr as (Hlen & Hnd & Hlt & Hfw & Hbw).
  assert (b ≠ HEAD) as Hb.
  { apply NoDup_cons in Hnd as [Hn _]. intros ->. apply Hn. rewrite elem_of_app. right. by left. }
  change (default HEAD (head (b :: l2))) with b. cbn [find_cached].
  apply Nat.eqb_neq in Hb. rewrite Hb.
  rewrite (bind_eq (bget_buf b) _ _ _ _ eq_refl). cbn [find].
  destruct ((b_dev _ =? dev) && (blockno _ =? bno)); [done|].
  pose proof Hfw as Hfw'. apply fwd_app in Hfw' as [_ Hf2]. rewrite (fwd_head _ _ _ _ Hf2).
  apply (IH (l1 ++ [b])); [|simpl in Hf; lia]. by rewrite <- app_assoc.
Qed.

Lemma find_unused_spec s l1 l2 fuel :
  ring (bufs s) (l1 ++ l2) → (length l1 < fuel)%nat →
  find_unused_buf fuel (default HEAD (last l1)) s =
  Ret (find (λ b, refcnt (bufs s !!! b) =? 0) (rev l1)) s.
Proof.
  revert l2 fuel. induction l1 as [|b l1 IH] using rev_ind; intros l2 fuel Hr Hf;
    (destruct fuel as [|fuel]; [rewrite ?length_app in Hf; simpl in Hf; lia|]).
  { done. }
  rewrite length_app in Hf. simpl in Hf.
  destruct Hr as (Hlen & Hnd & Hlt & Hfw & Hbw).
  assert (b ≠ HEAD) as Hb.
  { apply NoDup_cons in Hnd as [Hn _]. intros ->. apply Hn. rewrite !elem_of_app. left. right. by left. }
  rewrite last_snoc. change (default HEAD (Some b)) with b. cbn [find_unused_buf].
  apply Nat.eqb_neq in Hb. rewrite Hb.
  rewrite (bind_eq (bget_buf b) _ _ _ _ eq_refl). rewrite rev_app_distr. cbn [rev app find].
  destruct (refcnt _ =? 0); [done|].
  pose proof Hbw as Hbw'. rewrite <- app_assoc in Hbw'. apply bwd_app in Hbw' as [Hb1 _].
  rewrite (bwd_last _ _ _ _ Hb1). apply (IH (b :: l2)); [|lia]. split; [done|].
  rewrite <- app_assoc in *. done.
Qed.

(** ** brelse *)

(** The order after the release of [b]: unchanged while someone uses it, else
    [b] is the most recent. *)
Definition after_release (b : nat) (l : list nat) (rc : Z) : list nat :=
  if rc =? 0 then b :: filter (λ c, c ≠ b) l else l.

Lemma filter_remove (b : nat) l1 l2 :
  NoDup (l1 ++ b :: l2) → filter (λ c, c ≠ b) (l1 ++ b :: l2) = l1 ++ l2.
Proof.
  intros Hnd. apply NoDup_app in Hnd as (_ & H12 & H2). apply NoDup_cons in H2 as [H2 _].
  rewrite filter_app, filter_cons_False by (intros Hx; by apply Hx).
  rewrite !list_filter_all; [done| |]; intros c Hc ->; [done|]. apply (H12 b Hc). by left.
Qed.

Lemma move_front b l bs :
  lru bs l → (b < 30)%nat → lru (relink b (unlink b bs)) (b :: filter (λ c, c ≠ b) l).
Proof.
  intros Hl Hb. pose proof (proj2 (lru_elem _ _ b Hl) Hb) as Hin.
  destruct Hl as [Hr Hp]. apply list_elem_of_split in Hin as (l1 & l2 & ->).
  assert (NoDup (l1 ++ b :: l2)) as Hnd by (destruct Hr as (_ & Hn & _); by apply NoDup_cons in Hn as [_ ?]).
  rewrite filter_remove by done. split.
  - apply relink_ring; [by apply unlink_ring| |lia]. rewrite not_elem_of_cons. split; [unfold HEAD; lia|].
    apply NoDup_app in Hnd as (_ & H12 & H2). apply NoDup_cons in H2 as [H2 _].
    intros [Hx|Hx]%elem_of_app; [|done]. apply (H12 b Hx). by left.
  - rewrite <- Hp. by rewrite Permutation_middle.
Qed.

(** The relinking code acts on the array as [unlink] and [relink]. *)
Lemma insert_front_eq b s :
  insert_front b s = Ret tt (s <| bufs := relink b (bufs s) |>).
Proof. reflexivity. Qed.

Definition released (x : buf) : buf := (x <| b_lock := mk_sleeplock false 0 |>) <| refcnt := u32 (refcnt x - 1) |>.

Lemma alter_compose_buf (f g : buf → buf) (i : nat) (bs : list buf) : alter f i (alter g i bs) = alter (f ∘ g) i bs.
Proof. revert i. induction bs as [|x bs IH]; intros [|i]; simpl; [done..|]. f_equal. apply IH. Qed.

Lemma alter_agree_buf (f g : buf → buf) (i : nat) (bs : list buf) :
  f (bs !!! i) = g (bs !!! i) → alter f i bs = alter g i bs.
Proof.
  revert i. induction bs as [|x bs IH]; intros [|i] H; simpl; [done|done|by f_equal|].
  f_equal. by apply IH.
Qed.

Definition held_by_me (s : bst) (b : nat) : Prop :=
  sl_locked (b_lock (bufs s !!! b)) = true ∧ sl_pid (b_lock (bufs s !!! b)) = mypid s.

Lemma holdingsleep_eq s b : held_by_me s b → holdingsleep b s = Ret true s.
Proof.
  intros [H1 H2]. unfold holdingsleep. rewrite (bind_eq (bget_buf b) _ _ _ _ eq_refl).
  rewrite (bind_eq (gets mypid) _ _ _ _ eq_refl). by rewrite H1, H2, Z.eqb_refl.
Qed.

Lemma brelse_eq s b :
  held_by_me s b → (b < length (bufs s))%nat →
  let bs1 := alter released b (bufs s) in
  brelse b s = Ret tt ((s <| bwoken := bwoken s ++ [b] |>)
                          <| bufs := if u32 (refcnt (bufs s !!! b) - 1) =? 0
                                     then relink b (unlink b bs1) else bs1 |>).
Proof.
  intros Hh Hb bs1. unfold brelse. rewrite (bind_eq _ _ _ _ _ (holdingsleep_eq s b Hh)). cbn [negb].
  set (sw := s <| bwoken := bwoken s ++ [b] |>).
  assert (releasesleep b s =
    Ret tt (sw <| bufs := alter (λ x, x <| b_lock := mk_sleeplock false 0 |>) b (bufs s) |>)) as Erel by done.
  rewrite (bind_eq _ _ _ _ _ Erel).
  rewrite (bind_eq (bset _ _) _ _ _ _ eq_refl). rewrite (bind_eq (bget_buf b) _ _ _ _ eq_refl).
  match goal with |- context [bufs ?st !!! b] => assert (st = sw <| bufs := bs1 |>) as -> end.
  { transitivity (sw <| bufs := alter (λ x, x <| refcnt := u32 (refcnt x - 1) |>) b
      (alter (λ x, x <| b_lock := mk_sleeplock false 0 |>) b (bufs s)) |>); [reflexivity|].
    by rewrite alter_compose_buf. }
  assert (refcnt (bs1 !!! b) = u32 (refcnt (bufs s !!! b) - 1)) as Er.
  { unfold bs1. rewrite lookup_alter_nat by done. by rewrite decide_True. }
  change (bufs (sw <| bufs := bs1 |>)) with bs1. rewrite Er.
  destruct (u32 _ =? 0); [|done].
  do 2 rewrite (bind_eq (bset _ _) _ _ _ _ eq_refl). rewrite insert_front_eq. done.
Qed.

Lemma brelse_lru s b l :
  lru (bufs s) l → held_by_me s b → (b < 30)%nat → 0 < refcnt (bufs s !!! b) < 2 ^ 32 →
  ∃ s', brelse b s = Ret tt s' ∧
    lru (bufs s') (after_release b l (refcnt (bufs s !!! b) - 1)).
Proof.
  intros Hl Hh Hb Hr. pose proof (proj1 (proj1 Hl)) as Hlen.
  eexists. split; [apply brelse_eq; [done|lia]|].
  assert (lru (alter released b (bufs s)) l) as Hl1 by (by apply lru_keep).
  rewrite u32_small by lia. unfold after_release.
  change (bufs (s <| bufs := ?x |>)) with x. destruct (_ =? 0); [by apply move_front|done].
Qed.

(** ** bget *)

(** The first buffer caching the block, and the buffer to recycle: the least
    recently used one that nobody uses. *)
Definition cached (bs : list buf) (dev bno : Z) (l : list nat) : option nat :=
  find (λ b, (b_dev (bs !!! b) =? dev) && (blockno (bs !!! b) =? bno)) l.
Definition victim (bs : list buf) (l : list nat) : option nat :=
  find (λ b, refcnt (bs !!! b) =? 0) (rev l).

Lemma victim_some bs l b : victim bs l = Some b → b ∈ l ∧ refcnt (bs !!! b) = 0.
Proof.
  intros [Hin Hz%Z.eqb_eq]%find_some. split; [|done]. apply list_elem_of_In. by apply in_rev.
Qed.

Definition take_lock (pid : Z) (x : buf) : buf := x <| b_lock := mk_sleeplock true pid |>.
Definition reuse (dev bno : Z) (x : buf) : buf :=
  (((x <| b_dev := dev |>) <| blockno := bno |>) <| valid := false |>) <| refcnt := 1 |>.
Definition share_buf (x : buf) : buf := x <| refcnt := u32 (refcnt x + 1) |>.

Lemma acquiresleep_eq s b :
  sl_locked (b_lock (bufs s !!! b)) = false →
  acquiresleep b s = Ret tt (s <| bufs := alter (take_lock (mypid s)) b (bufs s) |>).
Proof.
  intros H. unfold acquiresleep. rewrite (bind_eq (bget_buf b) _ _ _ _ eq_refl), H. done.
Qed.

Lemma bget_eq s l dev bno :
  lru (bufs s) l →
  (∀ b, b ∈ l → refcnt (bufs s !!! b) = 0 → sl_locked (b_lock (bufs s !!! b)) = false) →
  (∀ b, cached (bufs s) dev bno l = Some b → sl_locked (b_lock (bufs s !!! b)) = false) →
  bget dev bno s =
  match cached (bufs s) dev bno l with
  | Some b => Ret b (s <| bufs := alter (take_lock (mypid s) ∘ share_buf) b (bufs s) |>)
  | None =>
      match victim (bufs s) l with
      | Some b => Ret b (s <| bufs := alter (take_lock (mypid s) ∘ reuse dev bno) b (bufs s) |>)
      | None => Panic "bget: no buffers" s
      end
  end.
Proof.
  intros Hl Hfree Hhit. unfold bget. pose proof (lru_length _ _ Hl) as Hlen. destruct Hl as [Hr _].
  assert (∀ b f, sl_locked (b_lock (bufs s !!! b)) = false → (∀ x, b_lock (f x) = b_lock x) →
    (do! acquiresleep b in ret b) (s <| bufs := alter f b (bufs s) |>) =
    Ret b (s <| bufs := alter (take_lock (mypid s) ∘ f) b (bufs s) |>)) as Hacq.
  { intros b f Hb Hf. erewrite bind_eq; [reflexivity|]. rewrite acquiresleep_eq.
    - change (bufs (s <| bufs := ?x |>)) with x. change (mypid (s <| bufs := ?x |>)) with (mypid s).
      by rewrite <- alter_compose_buf.
    - change (bufs (s <| bufs := ?x |>)) with x. rewrite list_lookup_total_alter.
      case_decide as Hd; [|done]. by rewrite Hf. }
  rewrite (bind_eq (bget_buf HEAD) _ _ _ _ eq_refl).
  pose proof Hr as (_ & _ & _ & Hf & Hb).
  rewrite (fwd_head _ _ _ _ Hf).
  rewrite (bind_eq _ _ _ _ _ (find_cached_spec dev bno s [] l (S nbuf) Hr ltac:(unfold nbuf; lia))).
  fold (cached (bufs s) dev bno l). destruct (cached (bufs s) dev bno l) as [b|] eqn:Ec.
  { rewrite (bind_eq (bset _ _) _ _ _ _ eq_refl). apply (Hacq b share_buf); [|done].
    by apply Hhit. }
  rewrite (bind_eq (bget_buf HEAD) _ _ _ _ eq_refl). rewrite (bwd_last _ _ _ _ Hb).
  assert (ring (bufs s) (l ++ [])) as Hr' by (by rewrite app_nil_r).
  rewrite (bind_eq _ _ _ _ _ (find_unused_spec s l [] (S nbuf) Hr' ltac:(unfold nbuf; lia))).
  fold (victim (bufs s) l). destruct (victim (bufs s) l) as [b|] eqn:Ev; [|done].
  rewrite (bind_eq (bset _ _) _ _ _ _ eq_refl). apply (Hacq b (reuse dev bno)); [|done].
  apply victim_some in Ev as [Hin Hz]. by apply Hfree.
Qed.

(** ** binit *)

Lemma binit_loop_spec n s l :
  ring (bufs s) l → (∀ b, b ∈ l → (b < n)%nat) → (n ≤ 30)%nat →
  ∃ s', for_each (seq n (30 - n)) (λ b, do! initsleeplock b in insert_front b) s = Ret tt s' ∧
    ring (bufs s') (rev (seq n (30 - n)) ++ l).
Proof.
  intros Hr Hlt Hn. remember (30 - n)%nat as k eqn:Ek. revert n s l Hr Hlt Hn Ek.
  induction k as [|k IH]; intros n s l Hr Hlt Hn Ek; [by exists s|].
  cbn [seq for_each]. set (bs1 := alter (λ x, x <| b_lock := mk_sleeplock false 0 |>) n (bufs s)).
  set (s2 := s <| bufs := relink n bs1 |>).
  assert ((do! initsleeplock n in insert_front n) s = Ret tt s2) as E by reflexivity.
  rewrite (bind_eq _ _ _ _ _ E).
  assert (ring (bufs s2) (n :: l)) as Hr2.
  { apply relink_ring; [by apply ring_keep| |lia]. rewrite not_elem_of_cons. split; [unfold HEAD; lia|].
    intros Hx. specialize (Hlt n Hx). lia. }
  destruct (IH (S n) s2 (n :: l) Hr2) as (s' & E' & Hr'); [|lia|lia|].
  { intros b [->|Hb]%elem_of_cons; [lia|]. specialize (Hlt b Hb). lia. }
  exists s'. split; [done|]. simpl. by rewrite <- app_assoc.
Qed.

Lemma binit_spec s :
  length (bufs s) = 31%nat → ∃ s', binit s = Ret tt s' ∧ lru (bufs s') (rev (seq 0 30)).
Proof.
  intros Hlen. unfold binit. do 2 rewrite (bind_eq (bset _ _) _ _ _ _ eq_refl).
  set (bs1 := alter (λ x, x <| next := HEAD |>) HEAD (alter (λ x, x <| prev := HEAD |>) HEAD (bufs s))).
  set (s1 := s <| bufs := bs1 |>).
  match goal with |- context [for_each _ _ ?st] => change st with s1 end.
  assert (ring bs1 []) as Hr.
  { unfold bs1. split; [by rewrite !length_alter|]. split; [apply NoDup_singleton|].
    split; [intros b Hb; by apply elem_of_nil in Hb|]. simpl. split.
    - rewrite lookup_alter_nat by (rewrite length_alter; unfold HEAD; lia). by rewrite decide_True.
    - rewrite bset_prev by done. rewrite lookup_alter_nat by (unfold HEAD; lia). by rewrite decide_True. }
  destruct (binit_loop_spec 0 s1 [] Hr) as (s' & E & Hr'); [|lia|].
  { intros b Hb. by apply elem_of_nil in Hb. }
  exists s'. split; [exact E|]. rewrite app_nil_r in Hr'. split; [exact Hr'|].
  symmetry. apply Permutation_rev.
Qed.

(** ** Reading a block *)

Definition disk_block (s : bst) (bno : Z) : list Z :=
  default (replicate (Z.to_nat BSIZE) 0) (disk s !! bno).

(** At most one buffer per block of a device (0 is no device). *)
Definition uniq (bs : list buf) : Prop :=
  ∀ b1 b2, (b1 < 30)%nat → (b2 < 30)%nat → b_dev (bs !!! b1) ≠ 0 →
    b_dev (bs !!! b1) = b_dev (bs !!! b2) → blockno (bs !!! b1) = blockno (bs !!! b2) → b1 = b2.

Lemma cached_some bs dev bno l b :
  cached bs dev bno l = Some b → b ∈ l ∧ b_dev (bs !!! b) = dev ∧ blockno (bs !!! b) = bno.
Proof.
  intros [Hin Hb]%find_some. apply andb_prop in Hb as [H1%Z.eqb_eq H2%Z.eqb_eq].
  split; [by apply list_elem_of_In|done].
Qed.

Lemma cached_none bs dev bno l b :
  cached bs dev bno l = None → b ∈ l → b_dev (bs !!! b) = dev → blockno (bs !!! b) = bno → False.
Proof.
  intros Hn Hb H1 H2. eapply find_none in Hn; [|by apply list_elem_of_In].
  simpl in Hn. rewrite H1, H2, !Z.eqb_refl in Hn. done.
Qed.

(** The buffer of a block, wherever one starts to look. *)
Lemma cached_at bs dev bno l b :
  uniq bs → dev ≠ 0 → (∀ c, c ∈ l ↔ (c < 30)%nat) → (b < 30)%nat →
  b_dev (bs !!! b) = dev → blockno (bs !!! b) = bno → cached bs dev bno l = Some b.
Proof.
  intros Hu Hd Hl Hb H1 H2. destruct (cached bs dev bno l) as [c|] eqn:E.
  - apply cached_some in E as (Hc & E1 & E2). f_equal. apply Hu; try congruence. by apply Hl.
  - exfalso. eapply cached_none; [done| |done|done]. by apply Hl.
Qed.

(** [fill]: what [bread] does to a buffer it has locked. *)
Definition fill (d : list Z) (x : buf) : buf :=
  if valid x then x else (x <| b_data := d |>) <| valid := true |>.

Lemma bread_fill s s1 b dev bno f :
  bget dev bno s = Ret b s1 → s1 = s <| bufs := alter f b (bufs s) |> → (b < length (bufs s))%nat →
  blockno (f (bufs s !!! b)) = bno →
  bread dev bno s = Ret b (s <| bufs := alter (fill (disk_block s bno) ∘ f) b (bufs s) |>).
Proof.
  intros E -> Hb Hbno. unfold bread. rewrite (bind_eq _ _ _ _ _ E).
  set (s1 := s <| bufs := alter f b (bufs s) |>). rewrite (bind_eq (bget_buf b) _ _ _ _ eq_refl).
  assert (bufs s1 !!! b = f (bufs s !!! b)) as Eb.
  { unfold s1. change (bufs (s <| bufs := ?x |>)) with x. rewrite lookup_alter_nat by done.
    by rewrite decide_True. }
  rewrite Eb. rewrite <- alter_compose_buf. destruct (valid (f (bufs s !!! b))) eqn:Ev.
  - rewrite (bind_eq (ret tt) _ _ _ _ eq_refl).
    assert (alter (fill (disk_block s bno)) b (alter f b (bufs s)) = alter f b (bufs s)) as ->; [|done].
    rewrite alter_compose_buf. apply alter_agree_buf. unfold compose, fill. by rewrite Ev.
  - unfold disk_rw. erewrite bind_eq; [reflexivity|].
    erewrite bind_eq.
    2:{ rewrite (bind_eq (bget_buf b) _ _ _ _ eq_refl). rewrite Eb, Hbno.
        rewrite (bind_eq (gets _) _ _ _ _ eq_refl). reflexivity. }
    transitivity (Ret (S := bst) tt (s <| bufs := alter (λ x, x <| valid := true |>) b
      (alter (λ x, x <| b_data := disk_block s bno |>) b (alter f b (bufs s))) |>)); [reflexivity|].
    assert (alter (λ x, x <| valid := true |>) b
      (alter (λ x, x <| b_data := disk_block s bno |>) b (alter f b (bufs s))) =
      alter (fill (disk_block s bno)) b (alter f b (bufs s))) as ->; [|done].
    rewrite !alter_compose_buf. apply alter_agree_buf. unfold compose, fill. by rewrite Ev.
Qed.


(** ** The replacement policy *)

(** [bget] with the buffers in recency order [l], none of which it has to
    wait for: a cached block is found wherever it is in the list, its count
    goes up and its lock is taken; else the least recently used buffer that
    nobody uses (the last of [l] with count 0) is recycled for the block,
    marked invalid and locked; and only when every buffer is in use does it
    panic. The order itself is unchanged. *)
Theorem bget_replaces_lru s l dev bno :
  lru (bufs s) l →
  (∀ b, b ∈ l → refcnt (bufs s !!! b) = 0 → sl_locked (b_lock (bufs s !!! b)) = false) →
  (∀ b, cached (bufs s) dev bno l = Some b → sl_locked (b_lock (bufs s !!! b)) = false) →
  match bget dev bno s with
  | Ret b s' =>
      lru (bufs s') l ∧ held_by_me s' b ∧ b_dev (bufs s' !!! b) = dev ∧ blockno (bufs s' !!! b) = bno ∧
      (∀ c, c ≠ b → bufs s' !!! c = bufs s !!! c) ∧
      (cached (bufs s) dev bno l = Some b ∧ refcnt (bufs s' !!! b) = u32 (refcnt (bufs s !!! b) + 1) ∧
         b_data (bufs s' !!! b) = b_data (bufs s !!! b) ∧ valid (bufs s' !!! b) = valid (bufs s !!! b) ∨
       cached (bufs s) dev bno l = None ∧ victim (bufs s) l = Some b ∧
         refcnt (bufs s' !!! b) = 1 ∧ valid (bufs s' !!! b) = false)
  | Panic _ _ => cached (bufs s) dev bno l = None ∧ ∀ b, (b < 30)%nat → refcnt (bufs s !!! b) ≠ 0
  | _ => False
  end.
Proof.
  intros Hl Hfree Hhit. rewrite (bget_eq s l dev bno Hl Hfree Hhit).
  pose proof (proj1 (proj1 Hl)) as Hlen.
  assert (∀ f b, (b < 30)%nat → alter f b (bufs s) !!! b = f (bufs s !!! b)) as At.
  { intros f b Hb. rewrite lookup_alter_nat by lia. by rewrite decide_True. }
  assert (∀ f b c, c ≠ b → alter f b (bufs s) !!! c = bufs s !!! c) as Ne.
  { intros f b c Hcb. by apply list_lookup_total_alter_ne. }
  unfold held_by_me. destruct (cached (bufs s) dev bno l) as [b|] eqn:Ec.
  - apply cached_some in Ec as (Hb%(lru_elem _ _ _ Hl) & E1 & E2).
    change (bufs (s <| bufs := ?x |>)) with x. rewrite At by done.
    split; [by apply lru_keep|]. split; [done|]. split; [done|]. split; [done|].
    split; [intros c Hc; by apply Ne|]. by left.
  - destruct (victim (bufs s) l) as [b|] eqn:Ev.
    + apply victim_some in Ev as [Hb%(lru_elem _ _ _ Hl) _].
      change (bufs (s <| bufs := ?x |>)) with x. rewrite At by done.
      split; [by apply lru_keep|]. split; [done|]. split; [done|]. split; [done|].
      split; [intros c Hc; by apply Ne|]. by right.
    + split; [done|]. intros b Hb Hz. apply (lru_elem _ _ _ Hl) in Hb. eapply find_none in Ev.
      * simpl in Ev. by rewrite Hz in Ev.
      * apply in_rev. rewrite rev_involutive. by apply list_elem_of_In.
Qed.

(** The state [binit] leaves, with recency order 29, ..., 0. *)
Lemma boot_lru pid d : ∃ s, binit (boot_bst pid d) = Ret tt s ∧ lru (bufs s) (rev (seq 0 30)).
Proof. apply binit_spec. apply length_replicate. Qed.

(** The cache after boot, as computed. *)
Definition booted : bst :=
  match binit (boot_bst 1 ∅) with Ret _ s => s | _ => boot_bst 1 ∅ end.

Lemma booted_lru : lru (bufs booted) (rev (seq 0 30)).
Proof.
  unfold booted. destruct (boot_lru 1 ∅) as (s & E & Hl). by rewrite E.
Qed.

Lemma all_unlocked (bs : list buf) :
  forallb (λ b, negb (sl_locked (b_lock (bs !!! b)))) (seq 0 30) = true →
  ∀ b, b ∈ rev (seq 0 30) → sl_locked (b_lock (bs !!! b)) = false.
Proof.
  intros Hc b Hb. rewrite forallb_forall in Hc. apply negb_true_iff, Hc.
  apply in_rev. by apply list_elem_of_In.
Qed.

Lemma bget_replaces_lru_witness :
  match bget 1 33 booted with
  | Ret b s' => b = 0%nat ∧ lru (bufs s') (rev (seq 0 30)) ∧ held_by_me s' b
  | _ => False
  end.
Proof.
  pose proof (all_unlocked (bufs booted) ltac:(vm_compute; reflexivity)) as Hu.
  assert (cached (bufs booted) 1 33 (rev (seq 0 30)) = None) as Hn by (vm_compute; reflexivity).
  assert (victim (bufs booted) (rev (seq 0 30)) = Some 0%nat) as Hv by (vm_compute; reflexivity).
  assert (refcnt (bufs booted !!! 0%nat) = 0) as Hr by (vm_compute; reflexivity).
  revert Hu Hn Hv Hr. generalize booted_lru. generalize booted. intros s Hl Hu Hn Hv Hr.
  pose proof (bget_replaces_lru s (rev (seq 0 30)) 1 33 Hl (λ b Hb _, Hu b Hb)
    (λ b Hb, Hu b (proj1 (cached_some _ _ _ _ _ Hb)))) as T.
  rewrite Hn, Hv in T. destruct (bget 1 33 s) as [b s'|m s'|c s'|s'] eqn:E; [|exfalso|done|done].
  - destruct T as (T1 & T2 & _ & _ & _ & [[T3 _]|(_ & T3 & _)]); [discriminate T3|].
    injection T3 as <-. split; [reflexivity|]. split; assumption.
  - destruct T as [_ T]. exact (T 0%nat ltac:(lia) Hr).
Defined.

(** [brelse] keeps the buffers linked in recency order: when the last user
    of [b] releases it, [b] becomes the most recently used buffer and the
    others keep their relative order; while others use it, the order does not
    change. The lock is free afterwards and its waiters are woken. *)
Lemma brelse_moves_front s b l :
  lru (bufs s) l → held_by_me s b → (b < 30)%nat → 0 < refcnt (bufs s !!! b) < 2 ^ 32 →
  ∃ s', brelse b s = Ret tt s' ∧ lru (bufs s') (after_release b l (refcnt (bufs s !!! b) - 1)) ∧
    sl_locked (b_lock (bufs s' !!! b)) = false ∧ refcnt (bufs s' !!! b) = refcnt (bufs s !!! b) - 1 ∧
    bwoken s' = bwoken s ++ [b].
Proof.
  intros Hl Hh Hb Hr. pose proof (proj1 (proj1 Hl)) as Hlen.
  destruct (brelse_lru s b l Hl Hh Hb Hr) as (s' & E & Hl'). exists s'. split; [done|]. split; [done|].
  rewrite brelse_eq in E by (done || lia). apply Ret_inj in E as [_ <-].
  rewrite u32_small by lia. set (bs1 := alter released b (bufs s)).
  assert (bs1 !!! b = released (bufs s !!! b)) as E1.
  { unfold bs1. rewrite lookup_alter_nat by lia. by rewrite decide_True. }
  assert (∀ f i (bs : list buf), (∀ x, b_lock (f x) = b_lock x ∧ refcnt (f x) = refcnt x) →
    b_lock (alter f i bs !!! b) = b_lock (bs !!! b) ∧ refcnt (alter f i bs !!! b) = refcnt (bs !!! b)) as Al.
  { intros f i bs Hf. rewrite list_lookup_total_alter. case_decide as Hd; [|done]. destruct Hd as [-> _]. apply Hf. }
  change (bufs (_ <| bufs := ?x |>)) with x. change (bwoken (_ <| bufs := ?x |>)) with (bwoken s ++ [b]).
  assert (b_lock (relink b (unlink b bs1) !!! b) = b_lock (bs1 !!! b) ∧
          refcnt (relink b (unlink b bs1) !!! b) = refcnt (bs1 !!! b)) as [L1 L2].
  { unfold relink, unlink. split;
      repeat (match goal with |- context [alter ?f ?i ?bs !!! b] => rewrite (proj1 (Al f i bs ltac:(done))) || rewrite (proj2 (Al f i bs ltac:(done))) end); done. }
  destruct (refcnt (bufs s !!! b) - 1 =? 0); rewrite ?L1, ?L2, E1; unfold released; simpl; rewrite u32_small by lia; done.
Qed.

(** The state after [bget(1, 33)] on the cache just booted. *)
Definition one_held : bst := match bget 1 33 booted with Ret _ s => s | _ => booted end.

Lemma one_held_eq : one_held = booted <| bufs := alter (take_lock (mypid booted) ∘ reuse 1 33) 0%nat (bufs booted) |>.
Proof. vm_compute. reflexivity. Qed.

Lemma brelse_moves_front_witness :
  ∃ s', brelse 0 one_held = Ret tt s' ∧ lru (bufs s') (0%nat :: rev (seq 1 29)).
Proof.
  assert (lru (bufs one_held) (rev (seq 0 30))) as Hl.
  { rewrite one_held_eq. apply lru_keep; [done|apply booted_lru]. }
  assert (held_by_me one_held 0) as Hh by (split; vm_compute; reflexivity).
  assert (refcnt (bufs one_held !!! 0%nat) = 1) as Hr by (vm_compute; reflexivity).
  destruct (brelse_moves_front one_held 0 (rev (seq 0 30)) Hl Hh ltac:(lia) ltac:(rewrite Hr; lia))
    as (s' & E & Hl' & _).
  exists s'. split; [exact E|]. rewrite Hr in Hl'.
  assert (after_release 0 (rev (seq 0 30)) (1 - 1) = 0%nat :: rev (seq 1 29)) as <- by (vm_compute; reflexivity).
  exact Hl'.
Defined.
