(* ===== verification/BioSpec.v ===== *)
(** * The buffer cache as a map of blocks

    The abstract cache: the current contents of every block, the contents of
    the disk, how often each cached block is in use and which blocks the
    caller has locked. [refines] relates the linked buffers of [bio.c] to it,
    and every operation of [bio.c] is shown to simulate its abstract
    counterpart. The classes [BufOps] and [BufLaws] state that contract for
    the clients of the cache, the log and the file system. *)

From S2P Require Import Prelude.
From S2P Require Import Machine.
From S2P Require Import Bio.
#[local] Open Scope Z_scope.

(** ** The abstract cache *)

Definition fset {A} (k : Z) (v : A) (f : Z → A) : Z → A := λ x, if decide (x = k) then v else f x.

Lemma fset_eq {A} k (v : A) f : fset k v f k = v.
Proof. unfold fset. by rewrite decide_True. Qed.
Lemma fset_ne {A} k (v : A) f x : x ≠ k → fset k v f x = f x.
Proof. intros. unfold fset. by rewrite decide_False. Qed.

Record acache := mk_acache {
  acontent : Z → list Z;
  adisk : Z → list Z;
  awrites : list (Z * list Z);
  aref : gmap Z Z;
  aheld : gmap Z nat
}.
#[export] Instance acache_eta : Settable acache := λ a,
  mk_acache (acontent a) (adisk a) (awrites a) (aref a) (aheld a).

Definition ref (a : acache) (bno : Z) : Z := default 0 (aref a !! bno).
Definition set_ref (bno n : Z) (a : acache) : acache :=
  a <| aref := if decide (n = 0) then delete bno (aref a) else <[bno := n]> (aref a) |>.

Definition a_read (bno : Z) (b : nat) (a : acache) : acache :=
  (set_ref bno (ref a bno + 1) a) <| aheld := <[bno := b]> (aheld a) |>.
Definition a_set (bno : Z) (d : list Z) (a : acache) : acache :=
  a <| acontent := fset bno d (acontent a) |>.
Definition a_write (bno : Z) (a : acache) : acache :=
  (a <| adisk := fset bno (acontent a bno) (adisk a) |>)
    <| awrites := awrites a ++ [(bno, acontent a bno)] |>.
Definition a_release (bno : Z) (a : acache) : acache :=
  (set_ref bno (ref a bno - 1) a) <| aheld := delete bno (aheld a) |>.
Definition a_pin (bno : Z) (a : acache) : acache := set_ref bno (ref a bno + 1) a.
Definition a_unpin (bno : Z) (a : acache) : acache := set_ref bno (ref a bno - 1) a.

(** Counts are positive, locked blocks are in use, a block not in use is on
    disk, blocks have [BSIZE] bytes. *)
Record acache_ok (a : acache) : Prop := {
  ok_pos : ∀ bno n, aref a !! bno = Some n → 0 < n < 2 ^ 31;
  ok_held : ∀ bno b, aheld a !! bno = Some b → is_Some (aref a !! bno);
  ok_clean : ∀ bno, aref a !! bno = None → acontent a bno = adisk a bno;
  ok_len : ∀ bno, length (acontent a bno) = Z.to_nat BSIZE ∧ length (adisk a bno) = Z.to_nat BSIZE
}.

Lemma ref_set bno n a bno' : ref (set_ref bno n a) bno' = if decide (bno' = bno) then n else ref a bno'.
Proof.
  unfold ref, set_ref. simpl. destruct (decide (bno' = bno)) as [->|Hn].
  - destruct (decide (n = 0)) as [->|]; [by rewrite lookup_delete_eq|by rewrite lookup_insert_eq].
  - destruct (decide (n = 0)); [by rewrite lookup_delete_ne|by rewrite lookup_insert_ne].
Qed.
Lemma aref_set_ne bno n a bno' : bno' ≠ bno → aref (set_ref bno n a) !! bno' = aref a !! bno'.
Proof.
  intros Hn. unfold set_ref. simpl.
  destruct (decide (n = 0)); [by rewrite lookup_delete_ne|by rewrite lookup_insert_ne].
Qed.
Lemma aref_set_eq bno n a :
  aref (set_ref bno n a) !! bno = if decide (n = 0) then None else Some n.
Proof. unfold set_ref. simpl. case_decide; [apply lookup_delete_eq|apply lookup_insert_eq]. Qed.

Lemma ref_pos a bno : acache_ok a → is_Some (aref a !! bno) ↔ 0 < ref a bno.
Proof.
  intros Ha. unfold ref. destruct (aref a !! bno) as [n|] eqn:E; simpl.
  - pose proof (ok_pos _ Ha _ _ E). split; [lia|by eexists].
  - split; [intros [? ?]; done|lia].
Qed.
Lemma ref_range a bno : acache_ok a → 0 ≤ ref a bno < 2 ^ 31.
Proof.
  intros Ha. unfold ref. destruct (aref a !! bno) as [n|] eqn:E; simpl; [|lia].
  pose proof (ok_pos _ Ha _ _ E). lia.
Qed.

Lemma set_ref_ok bno n a :
  acache_ok a → 0 ≤ n < 2 ^ 31 →
  (n = 0 → acontent a bno = adisk a bno ∧ aheld a !! bno = None) → acache_ok (set_ref bno n a).
Proof.
  intros Ha Hn H0. split.
  - intros bno' m. destruct (decide (bno' = bno)) as [->|Hne].
    + rewrite aref_set_eq. case_decide; [done|]. intros [= <-]. lia.
    + rewrite aref_set_ne by done. apply (ok_pos _ Ha).
  - intros bno' b Hb. destruct (decide (bno' = bno)) as [->|Hne].
    + rewrite aref_set_eq. case_decide as Hz; [|by eexists]. destruct (H0 Hz) as [_ Hh].
      change (aheld a !! bno = Some b) in Hb. congruence.
    + rewrite aref_set_ne by done. by eapply (ok_held _ Ha).
  - intros bno' Hr. destruct (decide (bno' = bno)) as [->|Hne].
    + rewrite aref_set_eq in Hr. case_decide as Hz; [|done]. by apply H0.
    + rewrite aref_set_ne in Hr by done. by apply (ok_clean _ Ha).
  - apply (ok_len _ Ha).
Qed.

Lemma a_pin_ok bno a : acache_ok a → ref a bno + 1 < 2 ^ 31 → acache_ok (a_pin bno a).
Proof. intros Ha Hr. pose proof (ref_range a bno Ha). apply set_ref_ok; [done|lia|lia]. Qed.

Lemma a_unpin_ok bno a : acache_ok a → 1 < ref a bno → acache_ok (a_unpin bno a).
Proof. intros Ha Hr. pose proof (ref_range a bno Ha). apply set_ref_ok; [done|lia|lia]. Qed.

Lemma a_read_ok bno b a : acache_ok a → ref a bno + 1 < 2 ^ 31 → acache_ok (a_read bno b a).
Proof.
  intros Ha Hr. pose proof (ref_range a bno Ha). pose proof (a_pin_ok bno a Ha Hr) as [H1 H2 H3 H4].
  split; [exact H1| |exact H3|exact H4]. intros bno' b' Hb.
  change (<[bno := b]> (aheld a) !! bno' = Some b') in Hb.
  change (is_Some (aref (a_pin bno a) !! bno')). destruct (decide (bno' = bno)) as [->|Hn].
  - unfold a_pin. rewrite aref_set_eq. rewrite decide_False by lia. by eexists.
  - rewrite lookup_insert_ne in Hb by done. by eapply H2.
Qed.

(** The last user of a block must have written it. *)
Lemma a_release_ok bno a :
  acache_ok a → 0 < ref a bno → (ref a bno = 1 → acontent a bno = adisk a bno) →
  acache_ok (a_release bno a).
Proof.
  intros Ha Hr Hw. pose proof (ref_range a bno Ha).
  assert (acache_ok (a <| aheld := delete bno (aheld a) |>)) as Hb.
  { destruct Ha as [H1 H2 H3 H4]. split; [done| |done|done]. intros bno' b' E.
    change (delete bno (aheld a) !! bno' = Some b') in E. apply lookup_delete_Some in E as [_ E]. by eapply H2. }
  change (a_release bno a) with (set_ref bno (ref a bno - 1) (a <| aheld := delete bno (aheld a) |>)).
  apply set_ref_ok; [done|lia|]. intros Hz. split; [apply Hw; lia|]. apply lookup_delete_eq.
Qed.

Lemma a_set_ok bno d a :
  acache_ok a → is_Some (aref a !! bno) → length d = Z.to_nat BSIZE → acache_ok (a_set bno d a).
Proof.
  intros [H1 H2 H3 H4] Hr Hd. split; [done|done| |].
  - intros bno' Hn. change (aref a !! bno' = None) in Hn. simpl. rewrite fset_ne; [by apply H3|].
    intros ->. rewrite Hn in Hr. by destruct Hr.
  - intros bno'. simpl. split; [|apply H4]. unfold fset. case_decide; [done|apply H4].
Qed.

Lemma a_write_ok bno a : acache_ok a → acache_ok (a_write bno a).
Proof.
  intros [H1 H2 H3 H4]. split; [done|done| |].
  - intros bno' Hn. change (aref a !! bno' = None) in Hn. simpl. unfold fset. case_decide as Hd; [by subst|].
    by apply H3.
  - intros bno'. simpl. split; [apply H4|]. unfold fset. case_decide; apply H4.
Qed.

(** ** The refinement relation *)

Definition lock_ok (pid : Z) (a : acache) (b : nat) (x : buf) : Prop :=
  match aheld a !! blockno x with
  | Some b' => b' = b ∧ b_lock x = mk_sleeplock true pid
  | None => sl_locked (b_lock x) = false
  end.

(** A buffer is unused since boot, or caches a block of [dev]. *)
Definition buf_ok (dev pid : Z) (a : acache) (b : nat) (x : buf) : Prop :=
  (b_dev x = 0 ∧ refcnt x = 0 ∧ sl_locked (b_lock x) = false) ∨
  (b_dev x = dev ∧ valid x = true ∧ refcnt x = ref a (blockno x) ∧
   b_data x = acontent a (blockno x) ∧ lock_ok pid a b x).

Record refines (dev : Z) (s : bst) (a : acache) : Prop := {
  rf_dev : dev ≠ 0;
  rf_lru : ∃ l, lru (bufs s) l;
  rf_uniq : uniq (bufs s);
  rf_buf : ∀ b, (b < 30)%nat → buf_ok dev (mypid s) a b (bufs s !!! b);
  rf_dom : ∀ bno, is_Some (aref a !! bno) →
    ∃ b, (b < 30)%nat ∧ b_dev (bufs s !!! b) = dev ∧ blockno (bufs s !!! b) = bno;
  rf_ok : acache_ok a;
  rf_disk : ∀ bno, disk_block s bno = adisk a bno;
  rf_writes : dwrites s = awrites a
}.

(** Two abstract caches that differ at one block only. *)
Definition agree_off (k : Z) (a a' : acache) : Prop :=
  ∀ bno, bno ≠ k → aref a' !! bno = aref a !! bno ∧ acontent a' bno = acontent a bno ∧
    aheld a' !! bno = aheld a !! bno.

Lemma buf_ok_agree dev pid a a' k b x :
  agree_off k a a' → (b_dev x = dev → blockno x ≠ k) → buf_ok dev pid a b x → buf_ok dev pid a' b x.
Proof.
  intros Hag Hk [H|(H1 & H2 & H3 & H4 & H5)]; [by left|right].
  destruct (Hag _ (Hk H1)) as (E1 & E2 & E3). unfold lock_ok, ref in *. rewrite E1, E2, E3. done.
Qed.

(** An update of one buffer that leaves it caching block [k]. *)
Lemma refines_alter dev s a a' b f k :
  refines dev s a → (b < 30)%nat → agree_off k a a' → acache_ok a' →
  (∀ x, next (f x) = next x ∧ prev (f x) = prev x) →
  b_dev (f (bufs s !!! b)) = dev → blockno (f (bufs s !!! b)) = k →
  (∀ c, (c < 30)%nat → c ≠ b → b_dev (bufs s !!! c) = dev → blockno (bufs s !!! c) ≠ k) →
  blockno (bufs s !!! b) = k ∨ refcnt (bufs s !!! b) = 0 →
  buf_ok dev (mypid s) a' b (f (bufs s !!! b)) →
  (∀ bno, adisk a' bno = adisk a bno) → awrites a' = awrites a →
  refines dev (s <| bufs := alter f b (bufs s) |>) a'.
Proof.
  intros [Hdev [l Hl] Hu Hb Hd Hok Hdk Hw] Hb30 Hag Hok' Hf Ed Ek Hoth Hx Hbok Hdk' Hw'.
  pose proof (proj1 (proj1 Hl)) as Hlen. set (s' := s <| bufs := alter f b (bufs s) |>).
  assert (bufs s' !!! b = f (bufs s !!! b)) as Ab.
  { change (bufs s') with (alter f b (bufs s)). rewrite lookup_alter_nat by lia. by rewrite decide_True. }
  assert (∀ c, c ≠ b → bufs s' !!! c = bufs s !!! c) as An.
  { intros c Hcb. by apply list_lookup_total_alter_ne. }
  split; [done|exists l; by apply lru_keep| | | |done| |].
  - intros c1 c2 H1 H2. destruct (decide (c1 = b)) as [->|N1], (decide (c2 = b)) as [->|N2];
      rewrite ?Ab, ?(An c1), ?(An c2) by done; rewrite ?Ed, ?Ek; [done| | |by apply Hu].
    + intros _ E1 E2. exfalso. by apply (Hoth c2).
    + intros _ E1 E2. exfalso. by apply (Hoth c1).
  - intros c Hc. change (mypid s') with (mypid s). destruct (decide (c = b)) as [->|N]; [by rewrite Ab|].
    rewrite An by done. eapply buf_ok_agree; [done| |by apply Hb]. by apply Hoth.
  - intros bno Hr. destruct (decide (bno = k)) as [->|N]; [exists b; by rewrite Ab|].
    destruct (Hag bno N) as (E & _). rewrite E in Hr. destruct (Hd bno Hr) as (c & Hc & E1 & E2).
    assert (c ≠ b) as Hcb.
    { intros ->. destruct Hx as [Hx|Hx]; [congruence|].
      destruct (Hb b Hb30) as [(E0 & _)|(_ & _ & Er & _)]; [congruence|].
      apply (ref_pos a bno Hok) in Hr. rewrite E2 in Er. lia. }
    exists c. by rewrite An.
  - intros bno. rewrite Hdk'. apply Hdk.
  - rewrite Hw'. exact Hw.
Qed.

(** The buffer of a block in use, and what [refines] says of it. *)
Lemma refines_cached dev s a b :
  refines dev s a → (b < 30)%nat → b_dev (bufs s !!! b) = dev →
  valid (bufs s !!! b) = true ∧ refcnt (bufs s !!! b) = ref a (blockno (bufs s !!! b)) ∧
  b_data (bufs s !!! b) = acontent a (blockno (bufs s !!! b)) ∧ lock_ok (mypid s) a b (bufs s !!! b).
Proof. intros R Hb Hd. destruct (rf_buf _ _ _ R b Hb) as [(E & _)|(_ & H)]; [by destruct (rf_dev _ _ _ R); congruence|done]. Qed.

Lemma refines_held dev s a bno b :
  refines dev s a → aheld a !! bno = Some b →
  (b < 30)%nat ∧ b_dev (bufs s !!! b) = dev ∧ blockno (bufs s !!! b) = bno ∧ held_by_me s b.
Proof.
  intros R Hh. destruct (rf_dom _ _ _ R bno (ok_held _ (rf_ok _ _ _ R) _ _ Hh)) as (c & Hc & E1 & E2).
  destruct (refines_cached _ _ _ _ R Hc E1) as (_ & _ & _ & Hl). unfold lock_ok in Hl. rewrite E2, Hh in Hl.
  destruct Hl as [<- Hl]. unfold held_by_me. by rewrite Hl.
Qed.

Lemma refines_others dev s a b bno :
  refines dev s a → (b < 30)%nat → b_dev (bufs s !!! b) = dev → blockno (bufs s !!! b) = bno →
  ∀ c, (c < 30)%nat → c ≠ b → b_dev (bufs s !!! c) = dev → blockno (bufs s !!! c) ≠ bno.
Proof.
  intros R Hb E1 E2 c Hc Hne E1' E2'. apply Hne. apply (rf_uniq _ _ _ R); [done|done| |congruence|congruence].
  rewrite E1'. apply (rf_dev _ _ _ R).
Qed.

Lemma agree_set_ref k n a : agree_off k a (set_ref k n a).
Proof. intros bno Hn. split; [by apply aref_set_ne|done]. Qed.

(** ** Simulation of each operation *)

(** A buffer can be found for [bno]. *)
Definition room (bno : Z) (a : acache) : Prop :=
  is_Some (aref a !! bno) ∨ (size (aref a) < nbuf)%nat.

Lemma victim_exists dev s a l :
  refines dev s a → lru (bufs s) l → (size (aref a) < nbuf)%nat → victim (bufs s) l ≠ None.
Proof.
  intros R Hl Hsz Hn.
  assert (∀ b, (b < 30)%nat → refcnt (bufs s !!! b) ≠ 0) as Hrc.
  { intros b Hb Hz. apply (lru_elem _ _ _ Hl) in Hb. eapply find_none in Hn.
    - simpl in Hn. by rewrite Hz in Hn.
    - apply in_rev. rewrite rev_involutive. by apply list_elem_of_In. }
  assert (∀ b, (b < 30)%nat → b_dev (bufs s !!! b) = dev ∧ is_Some (aref a !! blockno (bufs s !!! b))) as Hd.
  { intros b Hb. destruct (rf_buf _ _ _ R b Hb) as [(_ & Hz & _)|(E & _ & Er & _)]; [by destruct (Hrc b Hb)|].
    split; [done|]. apply (ref_pos _ _ (rf_ok _ _ _ R)). pose proof (ref_range a (blockno (bufs s !!! b)) (rf_ok _ _ _ R)).
    specialize (Hrc b Hb). lia. }
  set (ks := (λ b, blockno (bufs s !!! b)) <$> seq 0 30).
  assert (NoDup ks) as Hnd.
  { apply NoDup_fmap_2_strong; [|apply NoDup_seq]. intros b1 b2 [_ H1]%elem_of_seq [_ H2]%elem_of_seq E.
    apply (rf_uniq _ _ _ R); [lia|lia| | |done]; rewrite (proj1 (Hd b1 ltac:(lia))); [apply (rf_dev _ _ _ R)|].
    by rewrite (proj1 (Hd b2 ltac:(lia))). }
  assert ((list_to_set ks : gset Z) ⊆ dom (aref a)) as Hsub.
  { intros k [b [-> [_ Hb]%elem_of_seq]]%elem_of_list_to_set%list_elem_of_fmap. apply elem_of_dom. apply Hd. lia. }
  apply subseteq_size in Hsub. rewrite size_list_to_set in Hsub by done.
  rewrite size_dom in Hsub. unfold ks in Hsub. rewrite length_fmap, length_seq in Hsub. unfold nbuf in Hsub, Hsz. lia.
Qed.

Lemma lock_free dev s a b :
  refines dev s a → (b < 30)%nat → refcnt (bufs s !!! b) = 0 → sl_locked (b_lock (bufs s !!! b)) = false.
Proof.
  intros R Hb Hz. destruct (rf_buf _ _ _ R b Hb) as [(_ & _ & H)|(_ & _ & Er & _ & Hl)]; [done|].
  unfold lock_ok in Hl. destruct (aheld a !! _) as [b'|] eqn:E; [|done].
  apply (ok_held _ (rf_ok _ _ _ R)), (ref_pos _ _ (rf_ok _ _ _ R)) in E. lia.
Qed.

Lemma bread_hit dev s a l bno b :
  refines dev s a → lru (bufs s) l → aheld a !! bno = None → ref a bno + 1 < 2 ^ 31 →
  cached (bufs s) dev bno l = Some b →
  wp (bread dev bno) (λ b s', refines dev s' (a_read bno b a)) s.
Proof.
  intros R Hl Hh Hr Ec. pose proof (proj1 (proj1 Hl)) as Hlen.
  pose proof Ec as Ec'. apply cached_some in Ec' as (Hb%(lru_elem _ _ _ Hl) & E1 & E2).
  destruct (refines_cached _ _ _ _ R Hb E1) as (Hv & Erc & Hdata & Hlk).
  unfold lock_ok in Hlk. rewrite E2, Hh in Hlk.
  assert (bget dev bno s = Ret b (s <| bufs := alter (take_lock (mypid s) ∘ share_buf) b (bufs s) |>)) as E.
  { rewrite (bget_eq s l); [by rewrite Ec|done| |congruence].
    intros c Hc%(lru_elem _ _ _ Hl). by eapply lock_free. }
  eapply wp_intro; [apply (bread_fill _ _ _ _ _ _ E eq_refl); [lia|done]|].
  pose proof (ref_range a bno (rf_ok _ _ _ R)).
  assert ((fill (disk_block s bno) ∘ (take_lock (mypid s) ∘ share_buf)) (bufs s !!! b) =
    take_lock (mypid s) (share_buf (bufs s !!! b))) as Ef.
  { unfold compose, fill. simpl. by rewrite Hv. }
  apply (refines_alter dev s a _ b _ bno); rewrite ?Ef; try done.
  - intros k Hk. destruct (agree_set_ref bno (ref a bno + 1) a k Hk) as (A1 & A2 & A3).
    split; [done|]. split; [done|]. by apply lookup_insert_ne.
  - apply a_read_ok; [apply (rf_ok _ _ _ R)|done].
  - intros x. unfold compose, fill. simpl. by destruct (valid x).
  - by eapply refines_others.
  - by left.
  - right. unfold lock_ok, take_lock, share_buf. simpl. rewrite E2, Hdata, E2, Erc, E2.
    rewrite u32_small by lia. split; [done|]. split; [done|]. split; [|split; [done|]].
    + change (ref a bno + 1 = ref (set_ref bno (ref a bno + 1) a) bno). rewrite ref_set. by rewrite decide_True.
    + by rewrite lookup_insert_eq.
Qed.

Lemma bread_miss dev s a l bno b :
  refines dev s a → lru (bufs s) l → ref a bno + 1 < 2 ^ 31 →
  cached (bufs s) dev bno l = None → victim (bufs s) l = Some b →
  wp (bread dev bno) (λ b s', refines dev s' (a_read bno b a)) s.
Proof.
  intros R Hl Hr Ec Ev. pose proof (proj1 (proj1 Hl)) as Hlen.
  pose proof Ev as Ev'. apply victim_some in Ev' as [Hb%(lru_elem _ _ _ Hl) Hrc].
  assert (∀ c, (c < 30)%nat → b_dev (bufs s !!! c) = dev → blockno (bufs s !!! c) ≠ bno) as Hnone.
  { intros c Hc H1 H2. eapply cached_none; [exact Ec| |done|done]. by apply (lru_elem _ _ _ Hl). }
  assert (bget dev bno s = Ret b (s <| bufs := alter (take_lock (mypid s) ∘ reuse dev bno) b (bufs s) |>)) as E.
  { rewrite (bget_eq s l); [by rewrite Ec, Ev|done| |congruence].
    intros c Hc%(lru_elem _ _ _ Hl). by eapply lock_free. }
  eapply wp_intro; [apply (bread_fill _ _ _ _ _ _ E eq_refl); [lia|done]|].
  assert (aref a !! bno = None) as Har.
  { destruct (aref a !! bno) eqn:Er; [|done]. destruct (rf_dom _ _ _ R bno) as (c & Hc & E1 & E2); [by eexists|].
    by destruct (Hnone c Hc). }
  apply (refines_alter dev s a _ b _ bno); try done.
  - intros k Hk. destruct (agree_set_ref bno (ref a bno + 1) a k Hk) as (A1 & A2 & A3).
    split; [done|]. split; [done|]. by apply lookup_insert_ne.
  - apply a_read_ok; [apply (rf_ok _ _ _ R)|done].
  - intros c Hc _. by apply Hnone.
  - by right.
  - right. unfold lock_ok. simpl. split; [done|]. split; [done|]. split; [|split].
    + change (1 = ref (set_ref bno (ref a bno + 1) a) bno). rewrite ref_set. rewrite decide_True by done.
      unfold ref. by rewrite Har.
    + rewrite (rf_disk _ _ _ R). symmetry. by apply (ok_clean _ (rf_ok _ _ _ R)).
    + by rewrite lookup_insert_eq.
Qed.

Lemma bread_refines dev s a bno :
  refines dev s a → aheld a !! bno = None → ref a bno + 1 < 2 ^ 31 → room bno a →
  wp (bread dev bno) (λ b s', refines dev s' (a_read bno b a)) s.
Proof.
  intros R Hh Hr Hroom. destruct (rf_lru _ _ _ R) as [l Hl].
  destruct (cached (bufs s) dev bno l) as [b|] eqn:Ec; [by eapply bread_hit|].
  destruct (victim (bufs s) l) as [b|] eqn:Ev; [by eapply bread_miss|]. exfalso.
  destruct Hroom as [Hi|Hsz]; [|by eapply victim_exists].
  destruct (rf_dom _ _ _ R bno Hi) as (c & Hc & E1 & E2).
  eapply cached_none; [exact Ec| |done|done]. by apply (lru_elem _ _ _ Hl).
Qed.

(** The caller changes the data of a buffer it holds. *)
Definition bset_data (b : nat) (d : list Z) : M bst unit := bset b (λ x, x <| b_data := d |>).

Lemma bset_data_refines dev s a bno b d :
  refines dev s a → aheld a !! bno = Some b → length d = Z.to_nat BSIZE →
  wp (bset_data b d) (λ _ s', refines dev s' (a_set bno d a)) s.
Proof.
  intros R Hh Hd. destruct (refines_held _ _ _ _ _ R Hh) as (Hb & E1 & E2 & _).
  destruct (refines_cached _ _ _ _ R Hb E1) as (Hv & Erc & Hdata & Hlk).
  eapply wp_intro; [reflexivity|]. apply (refines_alter dev s a _ b _ bno); try done.
  - intros k Hk. split; [done|]. split; [|done]. simpl. by rewrite fset_ne.
  - apply a_set_ok; [apply (rf_ok _ _ _ R)| |done]. by eapply (ok_held _ (rf_ok _ _ _ R)).
  - by eapply refines_others.
  - by left.
  - right. split; [done|]. split; [done|]. split; [exact Erc|]. split; [|exact Hlk].
    simpl. rewrite E2. by rewrite fset_eq.
Qed.

(** Reference counts: [bpin], [bunpin] and the first half of [brelse]. *)
Lemma recount_refines dev s a a' b f bno n :
  refines dev s a → (b < 30)%nat → b_dev (bufs s !!! b) = dev → blockno (bufs s !!! b) = bno →
  (∀ x, next (f x) = next x ∧ prev (f x) = prev x ∧ b_dev (f x) = b_dev x ∧ blockno (f x) = blockno x ∧
    valid (f x) = valid x ∧ b_data (f x) = b_data x) →
  refcnt (f (bufs s !!! b)) = n → aref a' = aref (set_ref bno n a) → acontent a' = acontent a →
  adisk a' = adisk a → awrites a' = awrites a → (∀ k, k ≠ bno → aheld a' !! k = aheld a !! k) →
  lock_ok (mypid s) a' b (f (bufs s !!! b)) → acache_ok a' →
  refines dev (s <| bufs := alter f b (bufs s) |>) a'.
Proof.
  intros R Hb E1 E2 Hf Hn Ha1 Ha2 Ha3 Ha4 Ha5 Hlk Hok.
  destruct (refines_cached _ _ _ _ R Hb E1) as (Hv & Erc & Hdata & _).
  destruct (Hf (bufs s !!! b)) as (_ & _ & F3 & F4 & F5 & F6).
  apply (refines_alter dev s a _ b _ bno); try done.
  - intros k Hk. rewrite Ha1, Ha2, Ha5 by done. split; [by apply aref_set_ne|done].
  - intros x. by destruct (Hf x) as (? & ? & _).
  - congruence.
  - congruence.
  - by eapply refines_others.
  - by left.
  - right. split; [congruence|]. split; [congruence|]. split; [|split; [|done]].
    + rewrite F4, E2, Hn. unfold ref. rewrite Ha1.
      change (default 0 (aref (set_ref bno n a) !! bno)) with (ref (set_ref bno n a) bno).
      rewrite ref_set. by rewrite decide_True.
    + rewrite F6, F4, Ha2. done.
  - intros k. by rewrite Ha3.
Qed.

Lemma bpin_refines dev s a bno b :
  refines dev s a → aheld a !! bno = Some b → ref a bno + 1 < 2 ^ 31 →
  wp (bpin b) (λ _ s', refines dev s' (a_pin bno a)) s.
Proof.
  intros R Hh Hr. destruct (refines_held _ _ _ _ _ R Hh) as (Hb & E1 & E2 & _).
  destruct (refines_cached _ _ _ _ R Hb E1) as (_ & Erc & _ & Hlk).
  pose proof (ref_range a bno (rf_ok _ _ _ R)).
  eapply wp_intro; [reflexivity|]. apply (recount_refines dev s a _ b _ bno (ref a bno + 1)); try done.
  - simpl. rewrite Erc, E2, u32_small; [done|lia].
  - by apply a_pin_ok; [apply (rf_ok _ _ _ R)|].
Qed.

Lemma bunpin_refines dev s a bno b :
  refines dev s a → aheld a !! bno = Some b → 1 < ref a bno →
  wp (bunpin b) (λ _ s', refines dev s' (a_unpin bno a)) s.
Proof.
  intros R Hh Hr. destruct (refines_held _ _ _ _ _ R Hh) as (Hb & E1 & E2 & _).
  destruct (refines_cached _ _ _ _ R Hb E1) as (_ & Erc & _ & Hlk).
  pose proof (ref_range a bno (rf_ok _ _ _ R)).
  eapply wp_intro; [reflexivity|]. apply (recount_refines dev s a _ b _ bno (ref a bno - 1)); try done.
  - simpl. rewrite Erc, E2, u32_small; [done|lia].
  - by apply a_unpin_ok; [apply (rf_ok _ _ _ R)|].
Qed.

Lemma bwrite_refines dev s a bno b :
  refines dev s a → aheld a !! bno = Some b →
  wp (bwrite b) (λ _ s', refines dev s' (a_write bno a)) s.
Proof.
  intros R Hh. destruct (refines_held _ _ _ _ _ R Hh) as (Hb & E1 & E2 & Hme).
  destruct (refines_cached _ _ _ _ R Hb E1) as (_ & _ & Hdata & _).
  unfold bwrite. apply wp_bind. eapply wp_intro; [by apply holdingsleep_eq|]. simpl negb. cbv iota.
  eapply wp_intro; [reflexivity|].
  destruct R as [H1 H2 H3 H4 H5 H6 H7 H8]. split; [done|done|done|done|done|by apply a_write_ok| |].
  - intros k. unfold disk_block. simpl. rewrite E2. unfold fset. case_decide as Hk.
    + subst k. rewrite lookup_insert_eq. simpl. by rewrite Hdata, E2.
    + rewrite lookup_insert_ne by done. apply H7.
  - simpl. rewrite H8. by rewrite Hdata, E2.
Qed.

(** Relinking moves no payload. *)
Definition payload (x : buf) := (valid x, b_dev x, blockno x, b_lock x, refcnt x, b_data x).

Lemma payload_alter f b (bs : list buf) c :
  (∀ x, payload (f x) = payload x) → payload (alter f b bs !!! c) = payload (bs !!! c).
Proof. intros Hf. rewrite list_lookup_total_alter. case_decide as Hd; [|done]. destruct Hd as [-> _]. apply Hf. Qed.
Lemma payload_relink b bs c : payload (relink b (unlink b bs) !!! c) = payload (bs !!! c).
Proof. unfold relink, unlink. by rewrite !payload_alter. Qed.

Lemma refines_payload dev s a bs' l :
  refines dev s a → lru bs' l → (∀ c, payload (bs' !!! c) = payload (bufs s !!! c)) →
  refines dev (s <| bufs := bs' |>) a.
Proof.
  intros [H1 H2 H3 H4 H5 H6 H7 H8] Hl Hp.
  assert (∀ c, valid (bs' !!! c) = valid (bufs s !!! c) ∧ b_dev (bs' !!! c) = b_dev (bufs s !!! c) ∧
    blockno (bs' !!! c) = blockno (bufs s !!! c) ∧ b_lock (bs' !!! c) = b_lock (bufs s !!! c) ∧
    refcnt (bs' !!! c) = refcnt (bufs s !!! c) ∧ b_data (bs' !!! c) = b_data (bufs s !!! c)) as Hp'.
  { intros c. specialize (Hp c). unfold payload in Hp. by simplify_eq. }
  split; [done|by exists l| | | |done|done|done].
  - intros b1 b2. simpl. destruct (Hp' b1) as (_ & -> & -> & _), (Hp' b2) as (_ & -> & -> & _). apply H3.
  - intros b Hb. simpl. specialize (H4 b Hb). unfold buf_ok, lock_ok in *.
    destruct (Hp' b) as (-> & -> & -> & -> & -> & ->). done.
  - intros bno Hr. simpl. destruct (H5 bno Hr) as (b & Hb & E1 & E2). exists b.
    by destruct (Hp' b) as (_ & -> & -> & _).
Qed.

Lemma brelse_refines dev s a bno b :
  refines dev s a → aheld a !! bno = Some b → (ref a bno = 1 → acontent a bno = adisk a bno) →
  wp (brelse b) (λ _ s', refines dev s' (a_release bno a)) s.
Proof.
  intros R Hh Hw. destruct (refines_held _ _ _ _ _ R Hh) as (Hb & E1 & E2 & Hme).
  destruct (refines_cached _ _ _ _ R Hb E1) as (_ & Erc & _ & _).
  pose proof (ref_range a bno (rf_ok _ _ _ R)) as Hrg.
  pose proof (proj1 (ref_pos _ _ (rf_ok _ _ _ R)) (ok_held _ (rf_ok _ _ _ R) _ _ Hh)) as Hpos.
  destruct (rf_lru _ _ _ R) as [l Hl]. pose proof (proj1 (proj1 Hl)) as Hlen.
  eapply wp_intro; [apply brelse_eq; [done|lia]|].
  set (sw := s <| bwoken := bwoken s ++ [b] |>).
  assert (refines dev sw a) as Rw by (by destruct R).
  assert (refines dev (sw <| bufs := alter released b (bufs sw) |>) (a_release bno a)) as R'.
  { apply (recount_refines dev sw a _ b _ bno (ref a bno - 1)); try done.
    - simpl. rewrite Erc, E2, u32_small; [done|lia].
    - intros k Hk. simpl. by rewrite lookup_delete_ne.
    - unfold lock_ok. simpl. rewrite E2. by rewrite lookup_delete_eq.
    - by apply a_release_ok; [apply (rf_ok _ _ _ R)| |]. }
  destruct (_ =? 0); [|exact R']. set (s1 := sw <| bufs := alter released b (bufs sw) |>) in R'.
  pose proof (refines_payload _ s1 _ (relink b (unlink b (bufs s1))) (b :: filter (λ c, c ≠ b) l) R') as Rp.
  apply Rp; [|intros c; apply payload_relink]. apply move_front; [by apply lru_keep|done].
Qed.

(** ** Boot *)

Definition a_boot (d : Z → list Z) : acache := mk_acache d d [] ∅ ∅.

Definition idle (x : buf) : Prop := b_dev x = 0 ∧ refcnt x = 0 ∧ sl_locked (b_lock x) = false.

Lemma idle_alter f b (bs : list buf) c :
  (∀ x, idle x → idle (f x)) → (∀ c, idle (bs !!! c)) → idle (alter f b bs !!! c).
Proof.
  intros Hf Hb. rewrite list_lookup_total_alter. case_decide as Hd; [|apply Hb].
  destruct Hd as [-> _]. apply Hf, Hb.
Qed.

Lemma binit_idle s :
  (∀ c, idle (bufs s !!! c)) →
  wp binit (λ _ s', disk s' = disk s ∧ dwrites s' = dwrites s ∧ mypid s' = mypid s ∧
    ∀ c, idle (bufs s' !!! c)) s.
Proof.
  intros H0. unfold binit.
  do 2 (wp_step; eapply wp_intro; [reflexivity|]).
  apply (wp_for_each (λ _ t, disk t = disk s ∧ dwrites t = dwrites s ∧ mypid t = mypid s ∧
    ∀ c, idle (bufs t !!! c))); [| |done].
  - intros b l t (Hd & Hw & Hm & Hz). wp_step. eapply wp_intro; [reflexivity|].
    eapply wp_intro; [apply insert_front_eq|]. split; [done|]. split; [done|]. split; [done|]. intros c.
    unfold relink. simpl. repeat (apply idle_alter; [by intros x (? & ? & ?)|intros ?]). apply Hz.
  - split; [done|]. split; [done|]. split; [done|]. intros c.
    change (idle (alter (λ x, x <| next := HEAD |>) HEAD
      (alter (λ x, x <| prev := HEAD |>) HEAD (bufs s)) !!! c)).
    repeat (apply idle_alter; [by intros x (? & ? & ?)|intros ?]). apply H0.
Qed.

Lemma binit_refines_idle dev s0 :
  dev ≠ 0 → length (bufs s0) = 31%nat → (∀ c, idle (bufs s0 !!! c)) → dwrites s0 = [] →
  (∀ bno, length (disk_block s0 bno) = Z.to_nat BSIZE) →
  wp binit (λ _ s, refines dev s (a_boot (disk_block s0))) s0.
Proof.
  intros Hdev Hlen Hi Hw Hdl. destruct (binit_spec s0 Hlen) as (s & E & Hl).
  destruct (wp_elim _ _ _ (binit_idle _ Hi)) as (r & s' & E' & W1 & W2 & W3 & W4).
  apply (wp_intro _ _ _ _ _ E). rewrite E in E'. apply Ret_inj in E' as [_ <-]. clear E.
  split; [done|by eexists| | | | | |].
  - intros b1 b2 _ _ Hb. by destruct (W4 b1).
  - intros b _. left. apply W4.
  - intros bno [? ?]. done.
  - split; [done|done|done|]. intros bno. split; apply Hdl.
  - intros bno. unfold disk_block. by rewrite W1.
  - by rewrite W2, Hw.
Qed.

(** After [binit] on a machine just booted, the cache refines the disk. *)
Lemma binit_refines dev pid d :
  dev ≠ 0 → (∀ bno x, d !! bno = Some x → length x = Z.to_nat BSIZE) →
  wp binit (λ _ s, refines dev s (a_boot (disk_block (boot_bst pid d)))) (boot_bst pid d).
Proof.
  intros Hdev Hlen. apply binit_refines_idle; [done|apply length_replicate| |reflexivity|].
  - intros c. change (bufs (boot_bst pid d)) with (replicate 31 zero_buf).
    destruct (decide (c < 31)%nat).
    + rewrite lookup_total_replicate_2 by done. split_and!; reflexivity.
    + rewrite list_lookup_total_alt.
      rewrite (lookup_ge_None_2 (replicate 31 zero_buf)) by (rewrite length_replicate; lia).
      split_and!; reflexivity.
  - intros bno. unfold disk_block. change (disk (boot_bst pid d)) with d.
    destruct (d !! bno) eqn:Ed; [exact (Hlen _ _ Ed)|]. exact (length_replicate _ _).
Qed.

(** ** The contract of the cache *)

Class BufOps (S : Type) := {
  bc_read : Z → Z → M S nat;
  bc_blockno : nat → M S Z;
  bc_data : nat → M S (list Z);
  bc_set : nat → list Z → M S unit;
  bc_write : nat → M S unit;
  bc_release : nat → M S unit;
  bc_pin : nat → M S unit;
  bc_unpin : nat → M S unit;
  bc_history : S → list (Z * list Z);   (* the writes the disk received *)
  bc_woken : S → list nat               (* the buffers whose locks wakeup was called on *)
}.

Class BufLaws (S : Type) `{BufOps S} := {
  bc_repr : Z → S → acache → Prop;
  bc_ok dev s a : bc_repr dev s a → acache_ok a;
  bc_history_law dev s a : bc_repr dev s a → bc_history s = awrites a;
  bc_read_law dev s a bno :
    bc_repr dev s a → aheld a !! bno = None → ref a bno + 1 < 2 ^ 31 → room bno a →
    wp (bc_read dev bno) (λ b s', bc_repr dev s' (a_read bno b a)) s;
  bc_blockno_law dev s a bno b :
    bc_repr dev s a → aheld a !! bno = Some b → bc_blockno b s = Ret bno s;
  bc_data_law dev s a bno b :
    bc_repr dev s a → aheld a !! bno = Some b → bc_data b s = Ret (acontent a bno) s;
  bc_set_law dev s a bno b d :
    bc_repr dev s a → aheld a !! bno = Some b → length d = Z.to_nat BSIZE →
    wp (bc_set b d) (λ _ s', bc_repr dev s' (a_set bno d a)) s;
  bc_write_law dev s a bno b :
    bc_repr dev s a → aheld a !! bno = Some b →
    wp (bc_write b) (λ _ s', bc_repr dev s' (a_write bno a)) s;
  bc_release_law dev s a bno b :
    bc_repr dev s a → aheld a !! bno = Some b → (ref a bno = 1 → acontent a bno = adisk a bno) →
    wp (bc_release b) (λ _ s', bc_repr dev s' (a_release bno a)) s;
  bc_pin_law dev s a bno b :
    bc_repr dev s a → aheld a !! bno = Some b → ref a bno + 1 < 2 ^ 31 →
    wp (bc_pin b) (λ _ s', bc_repr dev s' (a_pin bno a)) s;
  bc_unpin_law dev s a bno b :
    bc_repr dev s a → aheld a !! bno = Some b → 1 < ref a bno →
    wp (bc_unpin b) (λ _ s', bc_repr dev s' (a_unpin bno a)) s
}.

#[export] Instance bio_ops : BufOps bst := {|
  bc_read := bread;
  bc_blockno := λ b, gets (λ s, blockno (bufs s !!! b));
  bc_data := λ b, gets (λ s, b_data (bufs s !!! b));
  bc_set := bset_data;
  bc_write := bwrite;
  bc_release := brelse;
  bc_pin := bpin;
  bc_unpin := bunpin;
  bc_history := dwrites;
  bc_woken := bwoken
|}.

Lemma bio_blockno dev s a bno b :
  refines dev s a → aheld a !! bno = Some b → blockno (bufs s !!! b) = bno.
Proof. intros R Hh. by destruct (refines_held _ _ _ _ _ R Hh) as (_ & _ & ? & _). Qed.
Lemma bio_data dev s a bno b :
  refines dev s a → aheld a !! bno = Some b → b_data (bufs s !!! b) = acontent a bno.
Proof.
  intros R Hh. destruct (refines_held _ _ _ _ _ R Hh) as (Hb & E1 & E2 & _).
  destruct (refines_cached _ _ _ _ R Hb E1) as (_ & _ & Hd & _). by rewrite Hd, E2.
Qed.

#[export] Instance bio_laws : BufLaws bst.
Proof.
  refine {| bc_repr := refines |}.
  - apply rf_ok.
  - apply rf_writes.
  - apply bread_refines.
  - intros dev s a bno b R Hh. transitivity (Ret (blockno (bufs s !!! b)) s); [done|]. by rewrite (bio_blockno _ _ _ _ _ R Hh).
  - intros dev s a bno b R Hh. transitivity (Ret (b_data (bufs s !!! b)) s); [done|]. by rewrite (bio_data _ _ _ _ _ R Hh).
  - apply bset_data_refines.
  - apply bwrite_refines.
  - apply brelse_refines.
  - apply bpin_refines.
  - apply bunpin_refines.
Defined.

(** ** Programs that use the cache *)

Inductive bop :=
| BRead (bno : Z)
| BSet (bno : Z) (d : list Z)
| BWrite (bno : Z)
| BRelse (bno : Z)
| BPin (bno : Z)
| BUnpin (bno : Z).

(** What the caller must respect, on the abstract cache: lock a block once,
    touch only blocks it holds, write a block before its last release. *)
Definition a_pre (op : bop) (a : acache) : Prop :=
  match op with
  | BRead bno => aheld a !! bno = None ∧ ref a bno + 1 < 2 ^ 31 ∧ room bno a
  | BSet bno d => is_Some (aheld a !! bno) ∧ length d = Z.to_nat BSIZE
  | BWrite bno => is_Some (aheld a !! bno)
  | BRelse bno => is_Some (aheld a !! bno) ∧ (ref a bno = 1 → acontent a bno = adisk a bno)
  | BPin bno => is_Some (aheld a !! bno) ∧ ref a bno + 1 < 2 ^ 31
  | BUnpin bno => is_Some (aheld a !! bno) ∧ 1 < ref a bno
  end.
Definition a_effect (op : bop) (b : nat) (a : acache) : acache :=
  match op with
  | BRead bno => a_read bno b a
  | BSet bno d => a_set bno d a
  | BWrite bno => a_write bno a
  | BRelse bno => a_release bno a
  | BPin bno => a_pin bno a
  | BUnpin bno => a_unpin bno a
  end.

(** The runs of the abstract cache; the cache chooses the buffers. *)
Fixpoint a_runs (ops : list bop) (a a' : acache) : Prop :=
  match ops with
  | [] => a' = a
  | op :: ops' => ∃ b, a_runs ops' (a_effect op b a) a'
  end.
Fixpoint a_admits (ops : list bop) (a : acache) : Prop :=
  match ops with
  | [] => True
  | op :: ops' => a_pre op a ∧ ∀ b, a_admits ops' (a_effect op b a)
  end.

(** The same program on [bio.c]; [env] is the caller's buffer pointers. *)
Definition run_op (dev : Z) (op : bop) (env : gmap Z nat) : M bst (gmap Z nat) :=
  match op with
  | BRead bno => let! b := bread dev bno in ret (<[bno := b]> env)
  | BSet bno d => do! bset_data (env !!! bno) d in ret env
  | BWrite bno => do! bwrite (env !!! bno) in ret env
  | BRelse bno => do! brelse (env !!! bno) in ret (delete bno env)
  | BPin bno => do! bpin (env !!! bno) in ret env
  | BUnpin bno => do! bunpin (env !!! bno) in ret env
  end.
Fixpoint run_ops (dev : Z) (ops : list bop) (env : gmap Z nat) : M bst (gmap Z nat) :=
  match ops with
  | [] => ret env
  | op :: ops' => let! env' := run_op dev op env in run_ops dev ops' env'
  end.

Lemma run_op_refines dev op s a :
  refines dev s a → a_pre op a →
  wp (run_op dev op (aheld a)) (λ env s', ∃ b, env = aheld (a_effect op b a) ∧ refines dev s' (a_effect op b a)) s.
Proof.
  intros R Hp.
  assert (∀ bno b, aheld a !! bno = Some b → aheld a !!! bno = b) as Ht.
  { intros bno b Hb. by apply lookup_total_correct. }
  destruct op as [bno|bno d|bno|bno|bno|bno]; simpl in *; apply wp_bind.
  - destruct Hp as (H1 & H2 & H3). eapply wp_mono; [|by apply bread_refines]. intros b s' R'. by exists b.
  - destruct Hp as [[b Hb] Hd]. rewrite (Ht _ _ Hb). eapply wp_mono; [|by apply (bset_data_refines dev s a bno b)].
    intros ? s' R'. by exists b.
  - destruct Hp as [b Hb]. rewrite (Ht _ _ Hb). eapply wp_mono; [|by apply (bwrite_refines dev s a bno b)].
    intros ? s' R'. by exists b.
  - destruct Hp as [[b Hb] Hw]. rewrite (Ht _ _ Hb). eapply wp_mono; [|by apply (brelse_refines dev s a bno b)].
    intros ? s' R'. by exists b.
  - destruct Hp as [[b Hb] Hr]. rewrite (Ht _ _ Hb). eapply wp_mono; [|by apply (bpin_refines dev s a bno b)].
    intros ? s' R'. by exists b.
  - destruct Hp as [[b Hb] Hr]. rewrite (Ht _ _ Hb). eapply wp_mono; [|by apply (bunpin_refines dev s a bno b)].
    intros ? s' R'. by exists b.
Qed.

Lemma run_ops_refines dev ops s a :
  refines dev s a → a_admits ops a →
  wp (run_ops dev ops (aheld a)) (λ env s', ∃ a', env = aheld a' ∧ a_runs ops a a' ∧ refines dev s' a') s.
Proof.
  revert s a. induction ops as [|op ops IH]; intros s a R Had; simpl.
  - apply wp_ret. by exists a.
  - destruct Had as [Hp Had]. apply wp_bind. eapply wp_mono; [|by apply run_op_refines].
    intros env s1 (b & -> & R1). eapply wp_mono; [|exact (IH _ _ R1 (Had b))].
    intros env' s' (a' & -> & Hr & R'). exists a'. split; [done|]. split; [by exists b|done].
Qed.

(** C9: The buffer cache refines a map of blocks. From a state that refines
    abstract cache [a], every program of reads, data changes, writes,
    releases, pins and unpins that the abstract cache admits runs on the
    linked, locked, reference-counted buffers of [bio.c] without panicking or
    sleeping, ends in a state that refines the end of a run of the abstract
    cache, sends the disk exactly the writes of that run, and every buffer the
    caller holds shows the abstract contents of its block. *)
Theorem cache_refines_map dev ops s a :
  refines dev s a → a_admits ops a →
  ∃ s' a', run_ops dev ops (aheld a) s = Ret (aheld a') s' ∧ a_runs ops a a' ∧ refines dev s' a' ∧
    dwrites s' = awrites a' ∧
    (∀ bno b, aheld a' !! bno = Some b → b_data (bufs s' !!! b) = acontent a' bno).
Proof.
  intros R Had.
  destruct (wp_elim _ _ _ (run_ops_refines dev ops s a R Had)) as (env & s' & E & a' & -> & Hr & R').
  exists s', a'. split; [done|]. split; [done|]. split; [done|]. split; [apply (rf_writes _ _ _ R')|].
  intros bno b. by apply bio_data with (dev := dev).
Qed.

(** A program that changes block 5 twice, once through and once only in the
    cache. *)
Definition sample_ops : list bop :=
  [BRead 5; BSet 5 (replicate 1024 7); BWrite 5; BPin 5; BSet 5 (replicate 1024 8); BRelse 5; BRead 5].

Lemma sample_admitted d : a_admits sample_ops (a_boot d).
Proof.
  unfold sample_ops. cbn [a_admits a_effect a_pre].
  repeat first
    [ split
    | match goal with |- ∀ b : nat, _ => intros ? end
    | match goal with |- _ = 1 → _ => let H := fresh in intros H; vm_compute in H; discriminate end
    | match goal with |- room _ _ => right; vm_compute; lia end
    | match goal with |- is_Some _ => eexists; reflexivity end
    | match goal with |- _ < _ => reflexivity end
    | reflexivity ].
Qed.

Lemma cache_refines_map_witness :
  ∃ s, binit (boot_bst 1 ∅) = Ret tt s ∧
    ∃ s' a', run_ops 1 sample_ops ∅ s = Ret (aheld a') s' ∧
      acontent a' 5 = replicate 1024 8 ∧ dwrites s' = [(5, replicate 1024 7)].
Proof.
  assert (∀ bno x, (∅ : gmap Z (list Z)) !! bno = Some x → length x = Z.to_nat BSIZE) as Hd.
  { intros bno x Hx. by rewrite lookup_empty in Hx. }
  destruct (wp_elim _ _ _ (binit_refines 1 1 ∅ ltac:(lia) Hd)) as ([] & s & E & R).
  exists s. split; [exact E|].
  destruct (cache_refines_map 1 sample_ops s _ R (sample_admitted _)) as (s' & a' & Er & Ha & _ & Hw & _).
  exists s', a'. split; [exact Er|]. rewrite Hw. unfold sample_ops in Ha. cbn [a_runs] in Ha.
  destruct Ha as (b1 & b2 & b3 & b4 & b5 & b6 & b7 & ->). split; reflexivity.
Defined.
