(* ===== verification/Log.v ===== *)
(** * The log ([kernel/log.c])

    The in-memory log over a buffer cache [S], used through the operations of
    [BufOps]. The header block is read and written as the [struct logheader]
    laid over the data of its buffer. Sleeping on the log is the outcome
    [Sleeps]; calls of [wakeup(&log)] are counted. *)

From S2P Require Import Prelude.
From S2P Require Import Machine.
From S2P Require Import Bio.
From S2P Require Import BioSpec.
#[local] Open Scope Z_scope.

(** ** 32-bit fields of a block *)

Definition get32 (d : list Z) (off : nat) : Z := le_value (take 4 (drop off d)).
Definition put32 (d : list Z) (off : nat) (v : Z) : list Z := take off d ++ le_bytes 4 v ++ drop (off + 4) d.

(** ** State *)

Record logheader := mk_logheader { lh_n : Z; lh_block : list Z }.

Record log {S : Type} := mk_log_st {
  l_start : Z;
  l_size : Z;
  outstanding : Z;
  committing : bool;
  l_dev : Z;
  lh : logheader;
  lwoken : nat;
  cache : S
}.
Arguments log : clear implicits.
#[export] Instance logheader_eta : Settable logheader := λ h, mk_logheader (lh_n h) (lh_block h).
#[export] Instance log_eta {S} : Settable (log S) := λ l,
  mk_log_st S (l_start l) (l_size l) (outstanding l) (committing l) (l_dev l) (lh l) (lwoken l) (cache l).

Record superblock := mk_superblock {
  sb_magic : Z;
  sb_size : Z;
  sb_nblocks : Z;
  sb_ninodes : Z;
  sb_nlog : Z;
  sb_logstart : Z;
  sb_inodestart : Z;
  sb_bmapstart : Z
}.

Definition sizeof_logheader : Z := 4 + 4 * LOGSIZE.
Definition log_chan : Z := 0.      (* &log *)

Section log.
Context {S : Type} `{!BufOps S}.
Implicit Types (l : log S).

Definition with_cache {A} (m : M S A) : M (log S) A := lift cache (λ c l, l <| cache := c |>) m.
Definition bread_log (bno : Z) : M (log S) nat :=
  let! dev := gets l_dev in
  with_cache (bc_read dev (u32 bno)).
Definition log_wakeup : M (log S) unit := modify (λ l, l <| lwoken := Datatypes.S (lwoken l) |>).

(** [log.lh.block[i]]; an index past the array is undefined behaviour. *)
Definition get_block (i : nat) : M (log S) Z :=
  if Z.of_nat i <? LOGSIZE then gets (λ l, lh_block (lh l) !!! i) else panic "undefined: lh.block".
Definition set_block (i : nat) (v : Z) : M (log S) unit :=
  if Z.of_nat i <? LOGSIZE
  then modify (λ l, l <| lh := (lh l) <| lh_block := <[i := v]> (lh_block (lh l)) |> |>)
  else panic "undefined: lh.block".
Definition set_n (n : Z) : M (log S) unit := modify (λ l, l <| lh := (lh l) <| lh_n := n |> |>).

(** The indices of [for(tail = 0; tail < log.lh.n; tail++)]. *)
Definition tails (n : Z) : list nat := seq 0 (Z.to_nat n).

Definition install_body (recovering : bool) (tail : nat) : M (log S) unit :=
  let! start := gets l_start in
  let! lbuf := bread_log (start + Z.of_nat tail + 1) in
  let! bno := get_block tail in
  let! dbuf := bread_log bno in
  let! d := with_cache (bc_data lbuf) in
  do! with_cache (bc_set dbuf d) in
  do! with_cache (bc_write dbuf) in
  do! (if recovering then ret tt else with_cache (bc_unpin dbuf)) in
  do! with_cache (bc_release lbuf) in
  with_cache (bc_release dbuf).
Definition install_trans (recovering : bool) : M (log S) unit :=
  let! n := gets (λ l, lh_n (lh l)) in
  for_each (tails n) (install_body recovering).

Definition read_head : M (log S) unit :=
  let! start := gets l_start in
  let! b := bread_log start in
  let! d := with_cache (bc_data b) in
  do! set_n (s32 (get32 d 0)) in
  do! for_each (tails (s32 (get32 d 0))) (λ i, set_block i (s32 (get32 d (4 + 4 * i)))) in
  with_cache (bc_release b).

(** [hb->n = log.lh.n; hb->block[i] = log.lh.block[i]] in the buffer's data. *)
Definition put_head (n : Z) (block : list Z) (d : list Z) : list Z :=
  fold_left (λ d i, put32 d (4 + 4 * i) (block !!! i)) (tails n) (put32 d 0 n).
Definition write_head : M (log S) unit :=
  let! start := gets l_start in
  let! b := bread_log start in
  let! h := gets lh in
  if LOGSIZE <? lh_n h then panic "undefined: lh.block" else
  let! d := with_cache (bc_data b) in
  do! with_cache (bc_set b (put_head (lh_n h) (lh_block h) d)) in
  do! with_cache (bc_write b) in
  with_cache (bc_release b).

Definition recover_from_log : M (log S) unit :=
  do! read_head in
  do! install_trans true in
  do! set_n 0 in
  write_head.

Definition initlog (dev : Z) (sb : superblock) : M (log S) unit :=
  if BSIZE <=? sizeof_logheader then panic "initlog: too big logheader" else
  do! modify (λ l, l <| l_start := s32 (sb_logstart sb) |>) in
  do! modify (λ l, l <| l_size := s32 (sb_nlog sb) |>) in
  do! modify (λ l, l <| l_dev := dev |>) in
  recover_from_log.

Definition begin_op : M (log S) unit :=
  let! l := gets id in
  if committing l then sleeps log_chan
  else if LOGSIZE <? lh_n (lh l) + (outstanding l + 1) * MAXOPBLOCKS then sleeps log_chan
  else modify (λ l, l <| outstanding := outstanding l + 1 |>).

Definition write_log_body (tail : nat) : M (log S) unit :=
  let! start := gets l_start in
  let! to := bread_log (start + Z.of_nat tail + 1) in
  let! bno := get_block tail in
  let! from := bread_log bno in
  let! d := with_cache (bc_data from) in
  do! with_cache (bc_set to d) in
  do! with_cache (bc_write to) in
  do! with_cache (bc_release from) in
  with_cache (bc_release to).
Definition write_log : M (log S) unit :=
  let! n := gets (λ l, lh_n (lh l)) in
  for_each (tails n) write_log_body.

Definition commit : M (log S) unit :=
  let! n := gets (λ l, lh_n (lh l)) in
  if 0 <? n then
    do! write_log in
    do! write_head in
    do! install_trans false in
    do! set_n 0 in
    write_head
  else ret tt.

Definition end_op : M (log S) unit :=
  do! modify (λ l, l <| outstanding := outstanding l - 1 |>) in
  let! l := gets id in
  if committing l then panic "log.committing" else
  if outstanding l =? 0 then
    do! modify (λ l, l <| committing := true |>) in
    do! commit in
    do! modify (λ l, l <| committing := false |>) in
    log_wakeup
  else log_wakeup.

(** [for(i = 0; i < log.lh.n; i++) if(log.lh.block[i] == b->blockno) break;] *)
Fixpoint log_find (k : nat) (i : nat) (block : list Z) (bno : Z) : nat :=
  match k with
  | O => i
  | Datatypes.S k' => if u32 (block !!! i) =? bno then i else log_find k' (Datatypes.S i) block bno
  end.
Definition log_write (b : nat) : M (log S) unit :=
  let! l := gets id in
  let n := lh_n (lh l) in
  if (LOGSIZE <=? n) || (l_size l - 1 <=? n) then panic "too big a transaction" else
  if outstanding l <? 1 then panic "log_write outside of trans" else
  let! bno := with_cache (bc_blockno b) in
  let i := log_find (Z.to_nat n) 0 (lh_block (lh l)) bno in
  do! set_block i (s32 bno) in
  if Z.of_nat i =? n then
    do! with_cache (bc_pin b) in
    set_n (n + 1)
  else ret tt.

End log.
