(* ===== verification/LogSpec.v ===== *)
(** * What the log's routines do to the cache and the disk

    The effect of each routine of [log.c] on the abstract cache, proved from
    the laws of [BufLaws]: [write_log], [write_head] and [install_trans] are
    sequences of block writes ([a_put]). *)

From S2P Require Import Prelude.
From S2P Require Import Machine.
From S2P Require Import Bio.
From S2P Require Import BioSpec.
From S2P Require Import Log.
#[local] Open Scope Z_scope.

(** ** Fields of a block *)

Lemma get32_range d off : 0 ≤ get32 d off < 2 ^ 32.
Proof.
  unfold get32. assert (∀ l, (length l ≤ 4)%nat → 0 ≤ le_value l < 256 ^ Z.of_nat (length l)) as H.
  { induction l as [|x l IH]; intros Hl; simpl; [lia|]. simpl in Hl.
    pose proof (IH ltac:(lia)). pose proof (u8_range x).
    rewrite Nat2Z.inj_succ, Z.pow_succ_r by lia. lia. }
  set (l := take 4 (drop off d)). assert (length l ≤ 4)%nat as Hl by (unfold l; rewrite length_take; lia).
  pose proof (H l Hl) as Hv. split; [lia|]. eapply Z.lt_le_trans; [apply Hv|].
  change (2 ^ 32) with (256 ^ 4). apply Z.pow_le_mono_r; lia.
Qed.

Lemma length_put32 d off v : (off + 4 ≤ length d)%nat → length (put32 d off v) = length d.
Proof. intros H. unfold put32. rewrite !length_app, length_take, length_drop, length_le_bytes. lia. Qed.

Lemma get_put32_eq d off v : (off + 4 ≤ length d)%nat → get32 (put32 d off v) off = u32 v.
Proof.
  intros H. unfold get32, put32. rewrite drop_app_length' by (rewrite length_take; lia).
  rewrite take_app_length' by (by rewrite length_le_bytes). apply le_value_le_bytes.
Qed.

Lemma get_put32_ne d off off' v :
  (off + 4 ≤ length d)%nat → (off' + 4 ≤ off ∨ off + 4 ≤ off')%nat →
  get32 (put32 d off v) off' = get32 d off'.
Proof.
  intros H Hd. unfold get32. f_equal. apply list_eq. intros i. destruct (decide (i < 4)%nat).
  2:{ rewrite !lookup_take_ge by lia. done. }
  rewrite !lookup_take_lt, !lookup_drop by lia. unfold put32. destruct Hd.
  - rewrite lookup_app_l by (rewrite length_take; lia). by rewrite lookup_take_lt by lia.
  - rewrite lookup_app_r by (rewrite length_take; lia). rewrite lookup_app_r.
    + rewrite lookup_drop. f_equal. rewrite length_take, length_le_bytes. lia.
    + rewrite length_take, length_le_bytes. lia.
Qed.

(** ** The header block *)

(** The number of logged blocks and their numbers, as [read_head] sees
    them. *)
Definition head_n (d : list Z) : Z := s32 (get32 d 0).
Definition head_block (d : list Z) (i : nat) : Z := s32 (get32 d (4 + 4 * i)).

Lemma put_loop_spec (block : list Z) k m d :
  (4 + 4 * (m + k) ≤ length d)%nat →
  let d' := fold_left (λ d i, put32 d (4 + 4 * i) (block !!! i)) (seq m k) d in
  length d' = length d ∧ get32 d' 0 = get32 d 0 ∧
  (∀ i, (m ≤ i < m + k)%nat → get32 d' (4 + 4 * i) = u32 (block !!! i)) ∧
  (∀ i, (i < m)%nat → get32 d' (4 + 4 * i) = get32 d (4 + 4 * i)).
Proof.
  revert m d. induction k as [|k IH]; intros m d Hd; cbn [seq fold_left].
  { split; [done|]. split; [done|]. split; [lia|done]. }
  set (d1 := put32 d (4 + 4 * m) (block !!! m)).
  assert (length d1 = length d) as L1 by (apply length_put32; lia).
  destruct (IH (S m) d1) as (E1 & E2 & E3 & E4); [lia|]. split; [congruence|]. split; [|split].
  - rewrite E2. unfold d1. rewrite get_put32_ne by lia. done.
  - intros i Hi. destruct (decide (i = m)) as [->|Hn]; [|apply E3; lia].
    rewrite E4 by lia. unfold d1. apply get_put32_eq. lia.
  - intros i Hi. rewrite E4 by lia. unfold d1. apply get_put32_ne; lia.
Qed.

Lemma put_head_spec n block d :
  0 ≤ n ≤ 30 → length d = Z.to_nat BSIZE →
  let d' := put_head n block d in
  length d' = Z.to_nat BSIZE ∧ head_n d' = n ∧
  (∀ i, (i < Z.to_nat n)%nat → get32 d' (4 + 4 * i) = u32 (block !!! i)).
Proof.
  intros Hn Hd. unfold put_head, tails. set (d1 := put32 d 0 n).
  assert (length d1 = length d) as L1 by (apply length_put32; rewrite Hd; unfold BSIZE; lia).
  destruct (put_loop_spec block (Z.to_nat n) 0 d1) as (E1 & E2 & E3 & _).
  { rewrite L1, Hd. unfold BSIZE. lia. }
  split; [congruence|]. split.
  - unfold head_n. rewrite E2. unfold d1. rewrite get_put32_eq by (rewrite Hd; unfold BSIZE; lia).
    rewrite u32_small by lia. apply s32_small. lia.
  - intros i Hi. apply E3. lia.
Qed.

(** ** Block writes on the abstract cache *)

(** A block is changed in the cache and on disk, with the uses of blocks as
    before. *)
Definition a_put (x : Z) (d : list Z) (a : acache) : acache := a_write x (a_set x d a).

(** What the log needs of a block: nobody holds it, and its count is far from
    overflow. *)
Definition quiet (x : Z) (a : acache) : Prop :=
  0 ≤ x < 2 ^ 32 ∧ aheld a !! x = None ∧ ref a x + 2 < 2 ^ 31.

Lemma a_put_size x d a : size (aref (a_put x d a)) = size (aref a).
Proof. done. Qed.
Lemma quiet_put x y d a : quiet x a → quiet x (a_put y d a).
Proof. done. Qed.

Lemma size_read x b a : (size (aref (a_read x b a)) ≤ S (size (aref a)))%nat.
Proof.
  unfold a_read, set_ref. simpl. destruct (decide _).
  - rewrite map_size_delete. destruct (aref a !! x); simpl; lia.
  - rewrite map_size_insert. destruct (aref a !! x); simpl; lia.
Qed.

Lemma acache_eq a a' :
  acontent a = acontent a' → adisk a = adisk a' → awrites a = awrites a' → aref a = aref a' →
  aheld a = aheld a' → a = a'.
Proof. destruct a, a'. simpl. by intros -> -> -> -> ->. Qed.

(** Counts that return to what they were. *)
Definition put_ref (x n : Z) (m : gmap Z Z) : gmap Z Z := if decide (n = 0) then delete x m else <[x := n]> m.

Lemma put_ref_lookup x n m k :
  put_ref x n m !! k = if decide (k = x) then (if decide (n = 0) then None else Some n) else m !! k.
Proof.
  unfold put_ref. destruct (decide (k = x)) as [->|Hk]; destruct (decide (n = 0)).
  - apply lookup_delete_eq.
  - apply lookup_insert_eq.
  - by rewrite lookup_delete_ne.
  - by rewrite lookup_insert_ne.
Qed.
Lemma put_ref_back x a : acache_ok a → put_ref x (ref a x) (aref a) = aref a.
Proof.
  intros Ha. apply map_eq. intros k. rewrite put_ref_lookup. destruct (decide (k = x)) as [->|]; [|done].
  unfold ref. destruct (aref a !! x) as [n|] eqn:E; simpl; [|done].
  pose proof (ok_pos _ Ha _ _ E). rewrite decide_False by lia. done.
Qed.
Lemma put_ref_twice x n m r : put_ref x n (put_ref x m r) = put_ref x n r.
Proof. apply map_eq. intros k. rewrite !put_ref_lookup. by destruct (decide (k = x)). Qed.
Lemma put_ref_comm x y n m r : x ≠ y → put_ref x n (put_ref y m r) = put_ref y m (put_ref x n r).
Proof.
  intros Hne. apply map_eq. intros k. rewrite !put_ref_lookup.
  destruct (decide (k = x)), (decide (k = y)); congruence.
Qed.

(** ** Cache operations of the log *)

Section log_spec.
Context {S : Type} `{!BufOps S} `{!BufLaws S}.
Implicit Types (l : log S) (a : acache).

Definition lrep l a : Prop := bc_repr (l_dev l) (cache l) a.

Lemma wp_bread l a bno x (Q : nat → log S → Prop) :
  lrep l a → u32 bno = x → aheld a !! x = None → ref a x + 1 < 2 ^ 31 → room x a →
  (∀ b c, bc_repr (l_dev l) c (a_read x b a) → Q b (l <| cache := c |>)) → wp (bread_log bno) Q l.
Proof.
  intros R Hx Hh Hr Hroom HQ. unfold bread_log. wp_steps. apply wp_lift. rewrite Hx.
  eapply wp_mono; [|by apply bc_read_law]. intros b c Rc. by apply HQ.
Qed.

Lemma wp_data l a x b (Q : list Z → log S → Prop) :
  lrep l a → aheld a !! x = Some b → Q (acontent a x) l → wp (with_cache (bc_data b)) Q l.
Proof.
  intros R Hh HQ. apply wp_lift. eapply wp_intro; [by eapply bc_data_law|]. by destruct l.
Qed.

Lemma wp_cache l a' (m : M S unit) (Q : unit → log S → Prop) :
  wp m (λ _ c, bc_repr (l_dev l) c a') (cache l) →
  (∀ c, bc_repr (l_dev l) c a' → Q tt (l <| cache := c |>)) → wp (with_cache m) Q l.
Proof. intros W HQ. apply wp_lift. eapply wp_mono; [|exact W]. intros [] c Rc. by apply HQ. Qed.

Lemma held_read_eq x b a : aheld (a_read x b a) !! x = Some b.
Proof. apply lookup_insert_eq. Qed.
Lemma held_read_ne x y b a : y ≠ x → aheld (a_read x b a) !! y = aheld a !! y.
Proof. intros. by apply lookup_insert_ne. Qed.
Lemma ref_read x y b a : ref (a_read x b a) y = if decide (y = x) then ref a x + 1 else ref a y.
Proof. apply (ref_set x (ref a x + 1) a y). Qed.

Lemma aref_read x b a : aref (a_read x b a) = put_ref x (ref a x + 1) (aref a).
Proof. done. Qed.
Lemma aref_release x a : aref (a_release x a) = put_ref x (ref a x - 1) (aref a).
Proof. done. Qed.
Lemma ref_release x y a : ref (a_release x a) y = if decide (y = x) then ref a x - 1 else ref a y.
Proof. apply (ref_set x (ref a x - 1) a y). Qed.

(** Two blocks are read, used and released: the counts and locks are as
    before. [u] is the number of pins given up on the second block. *)
Lemma two_blocks_ref x y bx bY (u : Z) a :
  acache_ok a → x ≠ y →
  put_ref x (ref a x) (put_ref y (ref a y - u) (put_ref y (ref a y + 1) (put_ref x (ref a x + 1) (aref a)))) =
  put_ref y (ref a y - u) (aref a) ∧
  (aheld a !! x = None → aheld a !! y = None →
   delete x (delete y (<[y := bY]> (<[x := bx]> (aheld a)))) = aheld a).
Proof.
  intros Ha Hne. split.
  - rewrite put_ref_twice. rewrite (put_ref_comm x y) by done. rewrite put_ref_twice.
    by rewrite put_ref_back.
  - intros Hx Hy. apply map_eq. intros k.
    destruct (decide (k = x)) as [->|]; [by rewrite lookup_delete_eq|]. rewrite lookup_delete_ne by done.
    destruct (decide (k = y)) as [->|]; [by rewrite lookup_delete_eq|].
    by rewrite lookup_delete_ne, !lookup_insert_ne by done.
Qed.

Lemma copy_out_state to from b1 b2 d a :
  acache_ok a → quiet to a → quiet from a → to ≠ from →
  a_release to (a_release from (a_write to (a_set to d (a_read from b2 (a_read to b1 a))))) = a_put to d a.
Proof.
  intros Ha (_ & Ht & _) (_ & Hf & _) Hne.
  set (a2 := a_read from b2 (a_read to b1 a)).
  assert (ref a2 from = ref a from + 1) as Ef.
  { unfold a2. rewrite ref_read, decide_True, ref_read, decide_False by done. done. }
  assert (ref a2 to = ref a to + 1) as Et.
  { unfold a2. rewrite ref_read, decide_False, ref_read, decide_True by done. done. }
  set (a4 := a_write to (a_set to d a2)).
  assert (ref (a_release from a4) to - 1 = ref a to) as E5.
  { rewrite ref_release, decide_False by done. change (ref a4 to) with (ref a2 to). lia. }
  destruct (two_blocks_ref to from b1 b2 0 a Ha Hne) as [Er Eh].
  apply acache_eq; [done|done|done| |by apply Eh].
  rewrite aref_release, E5, aref_release. change (ref a4 from) with (ref a2 from). rewrite Ef.
  change (aref a4) with (aref a2). unfold a2. rewrite !aref_read, ref_read, decide_False by done.
  replace (ref a from + 1 - 1) with (ref a from - 0) by lia. rewrite Er.
  rewrite Z.sub_0_r. by rewrite put_ref_back.
Qed.

Lemma write_log_body_spec l a tail from :
  lrep l a → let to := l_start l + Z.of_nat tail + 1 in
  Z.of_nat tail < LOGSIZE → u32 (lh_block (lh l) !!! tail) = from →
  quiet to a → quiet from a → to ≠ from → 1 ≤ ref a from → (size (aref a) < nbuf)%nat →
  wp (write_log_body tail) (λ _ l', ∃ c, l' = l <| cache := c |> ∧
    bc_repr (l_dev l) c (a_put to (acontent a from) a)) l.
Proof.
  intros R to Htl Hfr Hqt Hqf Hne Hpin Hsz. pose proof (bc_ok _ _ _ R) as Hok.
  pose proof (ref_range a to Hok). pose proof (ref_range a from Hok).
  destruct Hqt as (Hto & Hth & Htr) eqn:E1, Hqf as (Hf & Hfh & Hfr') eqn:E2. clear E1 E2.
  unfold write_log_body. wp_steps.
  eapply (wp_bread _ a _ to); [done|apply u32_small; lia|done|lia|by right|]. intros b1 c1 R1.
  unfold get_block. rewrite (proj2 (Z.ltb_lt _ _)) by done. wp_steps.
  eapply (wp_bread _ (a_read to b1 a) _ from); [done|done|by rewrite held_read_ne| | |].
  { rewrite ref_read, decide_False by done. lia. }
  { left. apply (ref_pos _ _ (bc_ok _ _ _ R1)). rewrite ref_read, decide_False by done. lia. }
  intros b2 c2 R2. wp_step. set (a2 := a_read from b2 (a_read to b1 a)) in R2.
  assert (aheld a2 !! to = Some b1) as H1.
  { unfold a2. rewrite held_read_ne by done. apply held_read_eq. }
  assert (aheld a2 !! from = Some b2) as H2 by apply held_read_eq.
  assert (ref a2 from = ref a from + 1) as Ef.
  { unfold a2. rewrite ref_read, decide_True, ref_read, decide_False by done. done. }
  eapply wp_data; [exact R2|exact H2|]. change (acontent a2 from) with (acontent a from).
  wp_step. eapply wp_cache; [eapply bc_set_law; [exact R2|exact H1|apply (ok_len _ Hok)]|]. intros c3 R3.
  wp_step. eapply wp_cache; [eapply bc_write_law; [exact R3|exact H1]|]. intros c4 R4.
  wp_step. eapply wp_cache; [eapply bc_release_law; [exact R4|exact H2|]|].
  { change (ref a2 from = 1 → acontent (a_write to (a_set to (acontent a from) a2)) from =
      adisk (a_write to (a_set to (acontent a from) a2)) from). lia. }
  intros c5 R5.
  eapply wp_cache; [eapply bc_release_law; [exact R5| |]|].
  { simpl. rewrite lookup_delete_ne by done. exact H1. }
  { intros _. simpl. by rewrite !fset_eq. }
  intros c6 R6. exists c6. split; [done|].
  unfold a2 in R6. rewrite copy_out_state in R6; [exact R6|done|by split|by split|done].
Qed.

(** The effect of installing a block: written, and unpinned unless
    recovering. *)
Definition unpins (recovering : bool) (dst : Z) (a : acache) : acache :=
  if recovering then a else a_unpin dst a.
Definition a_install (recovering : bool) (dst : Z) (d : list Z) (a : acache) : acache :=
  unpins recovering dst (a_put dst d a).

Lemma copy_in_state rec lg dst b1 b2 d a :
  acache_ok a → quiet lg a → quiet dst a → lg ≠ dst →
  a_release dst (a_release lg (unpins rec dst (a_write dst (a_set dst d (a_read dst b2 (a_read lg b1 a)))))) =
  a_install rec dst d a.
Proof.
  intros Ha (_ & Hl & _) (_ & Hd & _) Hne.
  set (a2 := a_read dst b2 (a_read lg b1 a)).
  assert (ref a2 dst = ref a dst + 1) as Ed.
  { unfold a2. rewrite ref_read, decide_True, ref_read, decide_False by done. done. }
  assert (ref a2 lg = ref a lg + 1) as El.
  { unfold a2. rewrite ref_read, decide_False, ref_read, decide_True by done. done. }
  assert (aref a2 = put_ref dst (ref a dst + 1) (put_ref lg (ref a lg + 1) (aref a))) as E2.
  { unfold a2. rewrite !aref_read, ref_read, decide_False by done. done. }
  set (a4 := a_write dst (a_set dst d a2)).
  set (u := if rec then 0 else 1).
  assert (ref (unpins rec dst a4) dst = ref a dst + 1 - u ∧ ref (unpins rec dst a4) lg = ref a lg + 1 ∧
    put_ref dst (ref a dst - u) (aref (unpins rec dst a4)) =
    put_ref dst (ref a dst - u) (put_ref lg (ref a lg + 1) (aref a))) as (U1 & U2 & U3).
  { change (ref a2) with (ref a4) in Ed, El. change (aref a2) with (aref a4) in E2. unfold u.
    destruct rec; cbn [unpins].
    - rewrite E2, put_ref_twice. split; [lia|]. split; [lia|done].
    - unfold a_unpin. rewrite !ref_set, decide_True, decide_False by done. split; [lia|]. split; [lia|].
      change (aref (set_ref dst (ref a4 dst - 1) a4)) with (put_ref dst (ref a4 dst - 1) (aref a4)).
      by rewrite E2, !put_ref_twice. }
  assert (ref (a_release lg (unpins rec dst a4)) dst - 1 = ref a dst - u) as E5.
  { rewrite ref_release, decide_False by done. lia. }
  destruct (two_blocks_ref dst lg b2 b1 0 a Ha) as [_ Eh]; [done|].
  apply acache_eq; [by destruct rec|by destruct rec|by destruct rec| |].
  - rewrite aref_release, E5, aref_release, U2. rewrite put_ref_comm by done. rewrite U3.
    rewrite put_ref_comm by done. rewrite put_ref_twice. replace (ref a lg + 1 - 1) with (ref a lg) by lia.
    rewrite put_ref_back by done. unfold u, a_install. destruct rec; cbn [unpins]; [|done].
    rewrite Z.sub_0_r. by rewrite put_ref_back.
  - transitivity (delete dst (delete lg (aheld a2))).
    { by destruct rec. }
    unfold a2. transitivity (aheld a); [|by destruct rec]. rewrite <- (Eh Hd Hl).
    simpl. f_equal. f_equal. by rewrite insert_insert_ne.
Qed.

Lemma install_body_spec rec l a tail dst :
  lrep l a → let lg := l_start l + Z.of_nat tail + 1 in
  Z.of_nat tail < LOGSIZE → u32 (lh_block (lh l) !!! tail) = dst →
  quiet lg a → quiet dst a → lg ≠ dst → (rec = false → 1 ≤ ref a dst) →
  (size (aref a) + (if rec then 1 else 0) < nbuf)%nat →
  wp (install_body rec tail) (λ _ l', ∃ c, l' = l <| cache := c |> ∧
    bc_repr (l_dev l) c (a_install rec dst (acontent a lg) a)) l.
Proof.
  intros R lg Htl Hds Hql Hqd Hne Hpin Hsz. pose proof (bc_ok _ _ _ R) as Hok.
  pose proof (ref_range a lg Hok). pose proof (ref_range a dst Hok).
  destruct Hql as (Hl & Hlh & Hlr) eqn:E1, Hqd as (Hd & Hdh & Hdr) eqn:E2. clear E1 E2.
  unfold install_body. wp_steps.
  eapply (wp_bread _ a _ lg); [done|apply u32_small; lia|done|lia|right; destruct rec; lia|]. intros b1 c1 R1.
  unfold get_block. rewrite (proj2 (Z.ltb_lt _ _)) by done. wp_steps.
  eapply (wp_bread _ (a_read lg b1 a) _ dst); [done|done|by rewrite held_read_ne| | |].
  { rewrite ref_read, decide_False by done. lia. }
  { destruct rec; [right; pose proof (size_read lg b1 a); lia|left].
    apply (ref_pos _ _ (bc_ok _ _ _ R1)). rewrite ref_read, decide_False by done.
    specialize (Hpin eq_refl). lia. }
  intros b2 c2 R2. wp_step. set (a2 := a_read dst b2 (a_read lg b1 a)) in R2.
  assert (aheld a2 !! lg = Some b1) as H1.
  { unfold a2. rewrite held_read_ne by done. apply held_read_eq. }
  assert (aheld a2 !! dst = Some b2) as H2 by apply held_read_eq.
  assert (ref a2 dst = ref a dst + 1) as Ed.
  { unfold a2. rewrite ref_read, decide_True, ref_read, decide_False by done. done. }
  assert (ref a2 lg = ref a lg + 1) as El.
  { unfold a2. rewrite ref_read, decide_False, ref_read, decide_True by done. done. }
  eapply wp_data; [exact R2|exact H1|]. change (acontent a2 lg) with (acontent a lg).
  wp_step. eapply wp_cache; [eapply bc_set_law; [exact R2|exact H2|apply (ok_len _ Hok)]|]. intros c3 R3.
  wp_step. eapply wp_cache; [eapply bc_write_law; [exact R3|exact H2]|]. intros c4 R4.
  set (a4 := a_write dst (a_set dst (acontent a lg) a2)) in R4. change (ref a2) with (ref a4) in Ed, El.
  wp_step. apply (wp_mono _ (λ _ l', ∃ c, l' = l <| cache := c |> ∧ bc_repr (l_dev l) c (unpins rec dst a4))).
  2:{ destruct rec; [by exists c4|]. eapply wp_cache; [eapply bc_unpin_law; [exact R4|exact H2|]|].
      - specialize (Hpin eq_refl). lia.
      - intros c R'. by exists c. }
  intros _ l' (c5 & -> & R5).
  assert (aheld (unpins rec dst a4) = aheld a2) as Eh by (by destruct rec).
  assert (ref (unpins rec dst a4) lg = ref a lg + 1) as El5.
  { destruct rec; [exact El|]. cbn [unpins]. unfold a_unpin. by rewrite ref_set, decide_False. }
  wp_step. eapply wp_cache; [eapply bc_release_law; [exact R5|by rewrite Eh|]|].
  { intros Hr1. assert (aref a !! lg = None) as Hn.
    { destruct (aref a !! lg) eqn:E; [|done]. assert (0 < ref a lg) by (apply ref_pos; [done|by eexists]). lia. }
    destruct rec; cbn; rewrite !fset_ne by done; by apply (ok_clean _ Hok). }
  intros c6 R6.
  eapply wp_cache; [eapply bc_release_law; [exact R6| |]|].
  { simpl. rewrite lookup_delete_ne by done. by rewrite Eh. }
  { intros _. destruct rec; simpl; by rewrite !fset_eq. }
  intros c7 R7. exists c7. split; [done|].
  unfold a4, a2 in R7. rewrite copy_in_state in R7; [exact R7|done|by split|by split|done].
Qed.

Lemma one_block_state x b d a :
  acache_ok a → quiet x a → a_release x (a_write x (a_set x d (a_read x b a))) = a_put x d a.
Proof.
  intros Ha (_ & Hx & _). set (a3 := a_write x (a_set x d (a_read x b a))).
  assert (ref a3 x - 1 = ref a x) as E.
  { change (ref a3 x) with (ref (a_read x b a) x). rewrite ref_read, decide_True by done. lia. }
  apply acache_eq; [done|done|done| |].
  - rewrite aref_release, E. change (aref a3) with (put_ref x (ref a x + 1) (aref a)).
    rewrite put_ref_twice. by rewrite put_ref_back.
  - simpl. by rewrite delete_insert_id.
Qed.
Lemma read_back_state x b a : acache_ok a → quiet x a → a_release x (a_read x b a) = a.
Proof.
  intros Ha (_ & Hx & _). assert (ref (a_read x b a) x - 1 = ref a x) as E.
  { rewrite ref_read, decide_True by done. lia. }
  apply acache_eq; [done|done|done| |].
  - rewrite aref_release, E, aref_read, put_ref_twice. by rewrite put_ref_back.
  - simpl. by rewrite delete_insert_id.
Qed.

Definition lstate (l l' : log S) (a' : acache) : Prop :=
  ∃ c, l' = l <| cache := c |> ∧ bc_repr (l_dev l) c a'.

Lemma write_head_spec l a :
  lrep l a → quiet (l_start l) a → (size (aref a) < nbuf)%nat → 0 ≤ lh_n (lh l) ≤ LOGSIZE →
  wp write_head (λ _ l', lstate l l' (a_put (l_start l)
    (put_head (lh_n (lh l)) (lh_block (lh l)) (acontent a (l_start l))) a)) l.
Proof.
  intros R Hq Hsz Hn. pose proof (bc_ok _ _ _ R) as Hok. pose proof Hq as (Hx & Hh & Hr).
  unfold write_head. wp_steps.
  eapply (wp_bread _ a _ (l_start l)); [done|by apply u32_small|done|lia|by right|]. intros b c1 R1.
  wp_steps. change (lh (l <| cache := c1 |>)) with (lh l). rewrite (proj2 (Z.ltb_ge _ _)) by lia. wp_step.
  eapply wp_data; [exact R1|apply held_read_eq|].
  wp_step. eapply wp_cache; [eapply bc_set_law; [exact R1|apply held_read_eq|]|].
  { apply put_head_spec; [unfold LOGSIZE, MAXOPBLOCKS in Hn; lia|apply (ok_len _ Hok)]. }
  intros c2 R2. wp_step. eapply wp_cache; [eapply bc_write_law; [exact R2|apply held_read_eq]|]. intros c3 R3.
  eapply wp_cache; [eapply bc_release_law; [exact R3|apply held_read_eq|]|].
  { intros _. simpl. by rewrite !fset_eq. }
  intros c4 R4. exists c4. split; [done|]. rewrite one_block_state in R4; [exact R4|done|done].
Qed.

(** [for(i = 0; i < n; i++) log.lh.block[i] = v(i)]. *)
Lemma set_blocks_spec (v : nat → Z) k m l :
  (m + k ≤ 30)%nat → length (lh_block (lh l)) = 30%nat →
  wp (for_each (seq m k) (λ i, set_block i (v i))) (λ _ l', ∃ bl,
    l' = l <| lh := (lh l) <| lh_block := bl |> |> ∧ length bl = 30%nat ∧
    (∀ i, (m ≤ i < m + k)%nat → bl !!! i = v i) ∧
    (∀ i, (i < m)%nat → bl !!! i = lh_block (lh l) !!! i)) l.
Proof.
  revert m l. induction k as [|k IH]; intros m l Hk Hlen; cbn [seq for_each].
  { apply wp_ret. exists (lh_block (lh l)). split; [by destruct l as [? ? ? ? ? [] ? ?]|].
    split; [done|]. split; [lia|done]. }
  wp_step. unfold set_block. rewrite (proj2 (Z.ltb_lt _ _)) by (unfold LOGSIZE, MAXOPBLOCKS; lia).
  wp_step. set (l1 := l <| lh := (lh l) <| lh_block := <[m := v m]> (lh_block (lh l)) |> |>).
  eapply wp_mono; [|apply (IH (Datatypes.S m) l1); [lia|]].
  2:{ unfold l1. simpl. by rewrite length_insert. }
  intros _ l' (bl & -> & Hbl & H1 & H2). exists bl. split; [done|]. split; [done|]. split.
  - intros i Hi. destruct (decide (i = m)) as [->|Hn]; [|apply H1; lia].
    rewrite H2 by lia. unfold l1. simpl. rewrite list_lookup_total_insert_eq by lia. done.
  - intros i Hi. rewrite H2 by lia. unfold l1. simpl. rewrite list_lookup_total_insert_ne by lia. done.
Qed.

Lemma read_head_spec l a :
  lrep l a → quiet (l_start l) a → (size (aref a) < nbuf)%nat → length (lh_block (lh l)) = 30%nat →
  let d := acontent a (l_start l) in
  0 ≤ head_n d ≤ 30 →
  wp read_head (λ _ l', ∃ bl c,
    l' = (l <| lh := mk_logheader (head_n d) bl |>) <| cache := c |> ∧ bc_repr (l_dev l) c a ∧
    length bl = 30%nat ∧ (∀ i, (i < Z.to_nat (head_n d))%nat → bl !!! i = head_block d i)) l.
Proof.
  intros R Hq Hsz Hlen d Hn. pose proof (bc_ok _ _ _ R) as Hok. pose proof Hq as (Hx & Hh & Hr).
  unfold read_head. wp_steps.
  eapply (wp_bread _ a _ (l_start l)); [done|by apply u32_small|done|lia|by right|]. intros b c1 R1.
  wp_step. eapply wp_data; [exact R1|apply held_read_eq|]. change (acontent (a_read _ b a)) with (acontent a).
  fold d (head_n d). unfold set_n. wp_steps.
  set (l1 := (l <| cache := c1 |>) <| lh := (lh l) <| lh_n := head_n d |> |>).
  eapply wp_mono; [|apply (set_blocks_spec (head_block d) (Z.to_nat (head_n d)) 0 l1); [lia|done]].
  intros _ l' (bl & -> & Hbl & H1 & _).
  eapply wp_cache; [eapply bc_release_law; [exact R1|apply held_read_eq|]|].
  { change (ref (a_read (l_start l) b a) (l_start l) = 1 → acontent a (l_start l) = adisk a (l_start l)).
    rewrite ref_read, decide_True by done. intros Hz. apply (ok_clean _ Hok).
    destruct (aref a !! l_start l) eqn:E; [|done].
    assert (0 < ref a (l_start l)) by (apply ref_pos; [done|by eexists]). lia. }
  intros c2 R2. exists bl, c2. split; [done|]. rewrite read_back_state in R2 by done.
  split; [exact R2|]. split; [done|]. intros i Hi. apply H1. lia.
Qed.

(** ** The loops *)

Definition a_puts (ws : list (Z * list Z)) (a : acache) : acache :=
  fold_left (λ a w, a_put w.1 w.2 a) ws a.
Definition a_installs (rec : bool) (ws : list (Z * list Z)) (a : acache) : acache :=
  fold_left (λ a w, a_install rec w.1 w.2 a) ws a.

(** Consecutive blocks from [p] on: writing them, and their contents. *)
Fixpoint log_writes (p : Z) (ds : list (list Z)) : list (Z * list Z) :=
  match ds with [] => [] | d :: ds' => (p, d) :: log_writes (p + 1) ds' end.
Fixpoint log_data (f : Z → list Z) (p : Z) (k : nat) : list (list Z) :=
  match k with O => [] | Datatypes.S k' => f p :: log_data f (p + 1) k' end.

Definition in_log l (x : Z) : Prop := l_start l ≤ x < l_start l + l_size l.

(** The in-memory header lists [bs]: distinct blocks outside the log, at most
    as many as there are log blocks. *)
Record lists l (bs : list Z) : Prop := {
  ls_n : lh_n (lh l) = Z.of_nat (length bs);
  ls_len : length (lh_block (lh l)) = 30%nat;
  ls_block : ∀ i b, bs !! i = Some b → u32 (lh_block (lh l) !!! i) = b;
  ls_fit : Z.of_nat (length bs) < l_size l ≤ 30;
  ls_nodup : NoDup bs;
  ls_out : ∀ b, b ∈ bs → ¬ in_log l b;
  ls_start : 0 ≤ l_start l < 2 ^ 31 - 30
}.

(** The cache is ready for the log: nobody holds a block of the log or of
    [bs], and a buffer is free. *)
Record ready l (bs : list Z) (a : acache) : Prop := {
  rd_log : ∀ x, in_log l x → quiet x a;
  rd_bs : ∀ b, b ∈ bs → quiet b a;
  rd_free : (size (aref a) < nbuf)%nat
}.

Lemma ready_put l bs x d a : ready l bs a → ready l bs (a_put x d a).
Proof. intros [H1 H2 H3]. split; [apply H1|apply H2|apply H3]. Qed.

Lemma lists_pos l bs m bs1 b bs2 :
  lists l bs → bs = bs1 ++ b :: bs2 → m = length bs1 →
  in_log l (l_start l + Z.of_nat m + 1) ∧ Z.of_nat m < LOGSIZE ∧
  u32 (lh_block (lh l) !!! m) = b ∧ l_start l + Z.of_nat m + 1 ≠ b.
Proof.
  intros Hls Ebs ->. pose proof (ls_fit _ _ Hls) as Hfit. pose proof Hfit as Hf'. rewrite Ebs in Hf'.
  rewrite length_app in Hf'. simpl in Hf'.
  assert (in_log l (l_start l + Z.of_nat (length bs1) + 1)) as Hin by (unfold in_log; lia).
  split; [done|]. split; [unfold LOGSIZE, MAXOPBLOCKS; lia|]. split.
  - apply (ls_block _ _ Hls). rewrite Ebs. rewrite lookup_app_r by lia. by rewrite Nat.sub_diag.
  - intros E. rewrite E in Hin. apply (ls_out _ _ Hls b); [|done]. rewrite Ebs, elem_of_app. right. by left.
Qed.

Lemma lstate_trans l l1 l2 a1 a2 : lstate l l1 a1 → lstate l1 l2 a2 → lstate l l2 a2.
Proof. intros (c1 & -> & R1) (c2 & -> & R2). by exists c2. Qed.

Lemma lists_cache l c bs : lists l bs → lists (l <| cache := c |>) bs.
Proof. by intros [? ? ? ? ? ? ?]. Qed.
Lemma ready_cache l c bs a : ready l bs a → ready (l <| cache := c |>) bs a.
Proof. by intros [? ? ?]. Qed.

Lemma write_log_loop l a bs bs1 bs2 :
  lrep l a → lists l bs → ready l bs a → (∀ b, b ∈ bs → 1 ≤ ref a b) → bs = bs1 ++ bs2 →
  wp (for_each (seq (length bs1) (length bs2)) write_log_body)
    (λ _ l', lstate l l' (a_puts (log_writes (l_start l + Z.of_nat (length bs1) + 1) (acontent a <$> bs2)) a)) l.
Proof.
  revert l a bs1. induction bs2 as [|b bs2 IH]; intros l a bs1 R Hls Hrd Hpin Ebs; cbn [length seq for_each].
  { apply wp_ret. exists (cache l). split; [by destruct l|exact R]. }
  destruct (lists_pos l bs (length bs1) bs1 b bs2 Hls Ebs eq_refl) as (Hin & Hlt & Hblk & Hne).
  assert (b ∈ bs) as Hb by (rewrite Ebs, elem_of_app; right; by left).
  wp_step. eapply wp_mono; [|apply (write_log_body_spec l a (length bs1) b); try done].
  2:{ by apply (rd_log _ _ _ Hrd). }
  2:{ by apply (rd_bs _ _ _ Hrd). }
  2:{ by apply Hpin. }
  2:{ apply (rd_free _ _ _ Hrd). }
  intros _ l1 (c1 & -> & R1). set (to := l_start l + Z.of_nat (length bs1) + 1) in *.
  set (a1 := a_put to (acontent a b) a) in *.
  replace (Datatypes.S (length bs1)) with (length (bs1 ++ [b])) by (rewrite length_app; simpl; lia).
  eapply wp_mono; [|apply (IH (l <| cache := c1 |>) a1 (bs1 ++ [b]))].
  - intros _ l' (c2 & -> & R2). exists c2. split; [done|].
    change (l_start (l <| cache := c1 |>)) with (l_start l) in R2.
    assert (acontent a1 <$> bs2 = acontent a <$> bs2) as E.
    { apply list_fmap_ext. intros i x Hx. unfold a1. simpl. rewrite fset_ne; [done|].
      intros ->. apply (ls_out _ _ Hls to); [|done]. rewrite Ebs, elem_of_app. right. right.
      by eapply list_elem_of_lookup_2. }
    rewrite E in R2. cbn [fmap list_fmap log_writes a_puts fold_left fst snd]. fold a1.
    replace (to + 1) with (l_start l + Z.of_nat (length (bs1 ++ [b])) + 1); [exact R2|].
    unfold to. rewrite length_app. simpl. lia.
  - exact R1.
  - by apply lists_cache.
  - by apply ready_cache, ready_put.
  - done.
  - rewrite Ebs. by rewrite <- app_assoc.
Qed.

Lemma write_log_spec l a bs :
  lrep l a → lists l bs → ready l bs a → (∀ b, b ∈ bs → 1 ≤ ref a b) →
  wp write_log (λ _ l', lstate l l' (a_puts (log_writes (l_start l + 1) (acontent a <$> bs)) a)) l.
Proof.
  intros R Hls Hrd Hpin. unfold write_log, tails. wp_steps. rewrite (ls_n _ _ Hls), Nat2Z.id.
  pose proof (write_log_loop l a bs [] bs R Hls Hrd Hpin eq_refl) as W. simpl in W.
  rewrite Z.add_0_r in W. exact W.
Qed.

Lemma install_ref rec dst d a x :
  ref (a_install rec dst d a) x = if decide (x = dst) then ref a dst - (if rec then 0 else 1) else ref a x.
Proof.
  unfold a_install. destruct rec; cbn [unpins].
  - change (ref (a_put dst d a) x) with (ref a x). destruct (decide (x = dst)) as [->|]; lia.
  - unfold a_unpin. rewrite ref_set. done.
Qed.
Lemma install_quiet rec dst d a x : quiet x a → quiet x (a_install rec dst d a).
Proof.
  intros (H1 & H2 & H3). split; [done|]. split; [by destruct rec|]. rewrite install_ref.
  destruct (decide (x = dst)) as [->|]; destruct rec; lia.
Qed.
Lemma install_size rec dst d a :
  1 ≤ ref a dst ∨ rec = true → (size (aref (a_install rec dst d a)) ≤ size (aref a))%nat.
Proof.
  intros H. unfold a_install. destruct rec; cbn [unpins]; [done|].
  destruct H as [H|H]; [|done]. unfold a_unpin. change (ref (a_put dst d a)) with (ref a).
  unfold set_ref. simpl. destruct (decide _).
  - rewrite map_size_delete. destruct (aref a !! dst); simpl; lia.
  - rewrite map_size_insert. unfold ref in H. destruct (aref a !! dst); simpl in *; lia.
Qed.
Lemma install_content rec dst d a : acontent (a_install rec dst d a) = fset dst d (acontent a).
Proof. by destruct rec. Qed.

Lemma log_data_agree f g p k :
  (∀ x, p ≤ x < p + Z.of_nat k → f x = g x) → log_data f p k = log_data g p k.
Proof.
  revert p. induction k as [|k IH]; intros p H; simpl; [done|]. rewrite H by lia. f_equal.
  apply IH. intros x Hx. apply H. lia.
Qed.

Lemma install_loop (rec : bool) l a bs bs1 bs2 :
  lrep l a → lists l bs → (∀ x, in_log l x → quiet x a) → (∀ b, b ∈ bs2 → quiet b a) →
  (size (aref a) + (if rec then 1 else 0) < nbuf)%nat → (rec = false → ∀ b, b ∈ bs2 → 1 ≤ ref a b) →
  bs = bs1 ++ bs2 →
  let p := l_start l + Z.of_nat (length bs1) + 1 in
  wp (for_each (seq (length bs1) (length bs2)) (install_body rec))
    (λ _ l', lstate l l' (a_installs rec (zip bs2 (log_data (acontent a) p (length bs2))) a)) l.
Proof.
  revert l a bs1. induction bs2 as [|b bs2 IH]; intros l a bs1 R Hls Hql Hqb Hsz Hpin Ebs p; cbn [length seq for_each].
  { apply wp_ret. exists (cache l). split; [by destruct l|exact R]. }
  destruct (lists_pos l bs (length bs1) bs1 b bs2 Hls Ebs eq_refl) as (Hin & Hlt & Hblk & Hne).
  assert (b ∈ bs) as Hb by (rewrite Ebs, elem_of_app; right; by left).
  wp_step. eapply wp_mono; [|apply (install_body_spec rec l a (length bs1) b); try done].
  2:{ by apply Hql. }
  2:{ apply Hqb. by left. }
  2:{ intros Hr. apply Hpin; [done|by left]. }
  intros _ l1 (c1 & -> & R1). fold p in Hin, Hne, R1.
  set (a1 := a_install rec b (acontent a p) a) in *.
  assert (b ∉ bs2) as Hnb.
  { pose proof (ls_nodup _ _ Hls) as Hnd. rewrite Ebs in Hnd. apply NoDup_app in Hnd as (_ & _ & Hnd).
    by apply NoDup_cons in Hnd as [? _]. }
  replace (Datatypes.S (length bs1)) with (length (bs1 ++ [b])) by (rewrite length_app; simpl; lia).
  assert (l_start l + Z.of_nat (length (bs1 ++ [b])) + 1 = p + 1) as Ep.
  { unfold p. rewrite length_app. simpl. lia. }
  eapply wp_mono; [|apply (IH (l <| cache := c1 |>) a1 (bs1 ++ [b]))].
  - intros _ l' (c2 & -> & R2). exists c2. split; [done|].
    change (l_start (l <| cache := c1 |>)) with (l_start l) in R2. rewrite Ep in R2.
    cbn [length log_data zip zip_with a_installs fold_left fst snd]. fold a1.
    rewrite (log_data_agree (acontent a) (acontent a1)); [exact R2|].
    intros x Hx. unfold a1. rewrite install_content. rewrite fset_ne; [done|]. intros ->.
    apply (ls_out _ _ Hls b Hb). pose proof (ls_fit _ _ Hls) as Hfit. rewrite Ebs, length_app in Hfit.
    simpl in Hfit. unfold in_log. unfold p in Hx. lia.
  - exact R1.
  - by apply lists_cache.
  - intros x Hx. apply install_quiet. by apply Hql.
  - intros x Hx. apply install_quiet. apply Hqb. by right.
  - pose proof (install_size rec b (acontent a p) a) as Hs. fold a1 in Hs. destruct rec.
    + specialize (Hs ltac:(by right)). lia.
    + specialize (Hs ltac:(left; apply Hpin; [done|by left])). lia.
  - intros Hr x Hx. unfold a1. rewrite install_ref, decide_False by (intros ->; done).
    apply Hpin; [done|by right].
  - rewrite Ebs. by rewrite <- app_assoc.
Qed.

Lemma install_trans_spec (rec : bool) l a bs :
  lrep l a → lists l bs → ready l bs a → (size (aref a) + (if rec then 1 else 0) < nbuf)%nat →
  (rec = false → ∀ b, b ∈ bs → 1 ≤ ref a b) →
  wp (install_trans rec) (λ _ l', lstate l l'
    (a_installs rec (zip bs (log_data (acontent a) (l_start l + 1) (length bs))) a)) l.
Proof.
  intros R Hls Hrd Hsz Hpin. unfold install_trans, tails. wp_steps. rewrite (ls_n _ _ Hls), Nat2Z.id.
  pose proof (install_loop rec l a bs [] bs R Hls (rd_log _ _ _ Hrd) (rd_bs _ _ _ Hrd) Hsz Hpin eq_refl) as W.
  simpl in W. rewrite Z.add_0_r in W. exact W.
Qed.

(** ** Commit and recovery as sequences of writes *)

Definition commit_writes l (bs : list Z) (a : acache) : list (Z * list Z) :=
  let head n d := put_head n (lh_block (lh l)) d in
  log_writes (l_start l + 1) (acontent a <$> bs) ++
  [(l_start l, head (Z.of_nat (length bs)) (acontent a (l_start l)))] ++
  map (λ b, (b, acontent a b)) bs ++
  [(l_start l, head 0 (head (Z.of_nat (length bs)) (acontent a (l_start l))))].

(** [d] after the writes [ws]. *)
Definition apply_writes (ws : list (Z * list Z)) (d : Z → list Z) : Z → list Z :=
  fold_left (λ d w, fset w.1 w.2 d) ws d.

Lemma puts_fields ws a :
  acontent (a_puts ws a) = apply_writes ws (acontent a) ∧ adisk (a_puts ws a) = apply_writes ws (adisk a) ∧
  awrites (a_puts ws a) = awrites a ++ ws ∧ aref (a_puts ws a) = aref a ∧ aheld (a_puts ws a) = aheld a.
Proof.
  revert a. induction ws as [|[x d] ws IH]; intros a; [by rewrite app_nil_r|].
  cbn [a_puts fold_left apply_writes fst snd]. destruct (IH (a_put x d a)) as (E1 & E2 & E3 & E4 & E5).
  unfold a_puts, apply_writes in *. rewrite E1, E2, E3, E4, E5. simpl. rewrite fset_eq.
  split; [done|]. split; [done|]. split; [|done]. by rewrite <- app_assoc.
Qed.
Lemma installs_fields rec ws a :
  acontent (a_installs rec ws a) = apply_writes ws (acontent a) ∧ adisk (a_installs rec ws a) = apply_writes ws (adisk a) ∧
  awrites (a_installs rec ws a) = awrites a ++ ws ∧ aheld (a_installs rec ws a) = aheld a.
Proof.
  revert a. induction ws as [|[x d] ws IH]; intros a; [by rewrite app_nil_r|].
  cbn [a_installs fold_left apply_writes fst snd]. destruct (IH (a_install rec x d a)) as (E1 & E2 & E3 & E4).
  unfold a_installs, apply_writes in *. rewrite E1, E2, E3, E4. rewrite install_content.
  split; [done|]. split; [destruct rec; simpl; by rewrite fset_eq|].
  split; [destruct rec; simpl; rewrite fset_eq, <- app_assoc; done|]. by destruct rec.
Qed.

Lemma installs_quiet rec ws a x : quiet x a → quiet x (a_installs rec ws a).
Proof.
  revert a. induction ws as [|[y d] ws IH]; intros a Hq; [done|]. apply (IH (a_install rec y d a)).
  by apply install_quiet.
Qed.
Lemma installs_size rec bs ds a :
  NoDup bs → (rec = false → ∀ b, b ∈ bs → 1 ≤ ref a b) →
  (size (aref (a_installs rec (zip bs ds) a)) ≤ size (aref a))%nat.
Proof.
  revert ds a. induction bs as [|b bs IH]; intros [|d ds] a Hnd Hp; [done..|].
  cbn [zip zip_with a_installs fold_left fst snd]. apply NoDup_cons in Hnd as [Hb Hnd].
  etransitivity; [apply (IH ds (a_install rec b d a)); [done|]|].
  - intros Hr x Hx. rewrite install_ref, decide_False by (intros ->; done). apply Hp; [done|by right].
  - apply install_size. destruct rec; [by right|left]. apply Hp; [done|by left].
Qed.

Lemma installs_ref (g : Z → list Z) bs a x :
  NoDup bs →
  ref (a_installs false (map (λ b, (b, g b)) bs) a) x = ref a x - (if decide (x ∈ bs) then 1 else 0).
Proof.
  revert a. induction bs as [|b bs IH]; intros a Hnd; [simpl; lia|].
  apply NoDup_cons in Hnd as [Hb Hnd]. cbn [map a_installs fold_left fst snd].
  transitivity (ref (a_install false b (g b) a) x - (if decide (x ∈ bs) then 1 else 0)); [by apply IH|].
  rewrite install_ref. destruct (decide (x = b)) as [->|Hn].
  - rewrite decide_False by done. rewrite decide_True by (by left). lia.
  - destruct (decide (x ∈ bs)).
    + rewrite decide_True by (by right). lia.
    + rewrite decide_False by (rewrite elem_of_cons; tauto). lia.
Qed.

Lemma apply_writes_other ws f x : x ∉ ws.*1 → apply_writes ws f x = f x.
Proof.
  revert f. induction ws as [|[y d] ws IH]; intros f Hx; [done|].
  simpl in Hx. apply not_elem_of_cons in Hx as [Hy Hx].
  cbn [apply_writes fold_left fst snd]. transitivity (fset y d f x); [by apply (IH (fset y d f))|].
  by rewrite fset_ne.
Qed.
Lemma apply_writes_app ws1 ws2 f : apply_writes (ws1 ++ ws2) f = apply_writes ws2 (apply_writes ws1 f).
Proof. apply fold_left_app. Qed.

Lemma log_writes_fst p ds x : x ∈ (log_writes p ds).*1 → p ≤ x < p + Z.of_nat (length ds).
Proof.
  revert p. induction ds as [|d ds IH]; intros p; simpl; [by intros ?%elem_of_nil|].
  intros [->|Hx]%elem_of_cons; [lia|]. specialize (IH _ Hx). lia.
Qed.
Lemma log_data_writes p ds f : log_data (apply_writes (log_writes p ds) f) p (length ds) = ds.
Proof.
  revert p f. induction ds as [|d ds IH]; intros p f; [done|].
  cbn [log_writes length log_data]. cbn [apply_writes fold_left fst snd].
  fold (apply_writes (log_writes (p + 1) ds) (fset p d f)). f_equal; [|apply IH].
  rewrite apply_writes_other; [apply fset_eq|]. intros Hx%log_writes_fst. lia.
Qed.
Lemma zip_map_content (f : Z → list Z) bs : zip bs (f <$> bs) = map (λ b, (b, f b)) bs.
Proof. induction bs as [|b bs IH]; [done|]. simpl. by f_equal. Qed.

Lemma lists_head_n l bs n : lists l bs → (l_start l ∉ bs) ∧ (∀ x, x ∈ (log_writes (l_start l + 1) n).*1 → x ≠ l_start l).
Proof.
  intros Hls. split.
  - intros Hx. apply (ls_out _ _ Hls _ Hx). pose proof (ls_fit _ _ Hls). unfold in_log. lia.
  - intros x Hx%log_writes_fst. lia.
Qed.

Lemma commit_spec l a bs :
  lrep l a → lists l bs → ready l bs a → (∀ b, b ∈ bs → 1 ≤ ref a b) → bs ≠ [] →
  wp commit (λ _ l', ∃ c a', l' = (l <| lh := (lh l) <| lh_n := 0 |> |>) <| cache := c |> ∧
    bc_repr (l_dev l) c a' ∧ awrites a' = awrites a ++ commit_writes l bs a ∧
    adisk a' = apply_writes (commit_writes l bs a) (adisk a) ∧
    acontent a' = apply_writes (commit_writes l bs a) (acontent a) ∧ aheld a' = aheld a ∧
    (∀ x, ref a' x = ref a x - (if decide (x ∈ bs) then 1 else 0))) l.
Proof.
  intros R Hls Hrd Hpin Hne. pose proof (ls_n _ _ Hls) as Hn. pose proof (ls_fit _ _ Hls) as Hfit.
  assert (in_log l (l_start l)) as Hst by (unfold in_log; lia).
  destruct (lists_head_n l bs (acontent a <$> bs) Hls) as [Hsb Hsw].
  unfold commit. wp_steps. rewrite Hn. rewrite (proj2 (Z.ltb_lt _ _)) by (destruct bs; simpl in *; [done|lia]).
  wp_step. eapply wp_mono; [|by apply (write_log_spec l a bs)].
  intros _ l1 (c1 & -> & R1). set (ws := log_writes (l_start l + 1) (acontent a <$> bs)) in *.
  destruct (puts_fields ws a) as (F1 & F2 & F3 & F4 & F5). set (a1 := a_puts ws a) in *.
  assert (ready l bs a1) as Hrd1.
  { destruct Hrd as [Q1 Q2 Q3]. split; unfold quiet, ref in *; rewrite F4, ?F5; done. }
  assert (acontent a1 (l_start l) = acontent a (l_start l)) as Eh.
  { rewrite F1. apply apply_writes_other. intros Hx. by apply (Hsw _ Hx). }
  wp_step. eapply wp_mono; [|apply (write_head_spec (l <| cache := c1 |>) a1)].
  2:{ exact R1. } 2:{ apply (rd_log _ _ _ Hrd1). exact Hst. } 2:{ apply (rd_free _ _ _ Hrd1). }
  2:{ simpl. rewrite Hn. unfold LOGSIZE, MAXOPBLOCKS. lia. }
  intros _ l2 (c2 & -> & R2).
  change (l_start (l <| cache := c1 |>)) with (l_start l) in R2. change (lh (l <| cache := c1 |>)) with (lh l) in R2.
  rewrite Hn, Eh in R2. set (h1 := put_head (Z.of_nat (length bs)) (lh_block (lh l)) (acontent a (l_start l))) in *.
  set (a2 := a_put (l_start l) h1 a1) in *.
  wp_step. eapply wp_mono; [|apply (install_trans_spec false ((l <| cache := c1 |>) <| cache := c2 |>) a2 bs)].
  2:{ exact R2. } 2:{ do 2 apply lists_cache. exact Hls. } 2:{ do 2 apply ready_cache. by apply ready_put. }
  2:{ pose proof (rd_free _ _ _ Hrd1) as Hf. change (aref a2) with (aref a1). lia. }
  2:{ intros _ b Hb. change (ref a2 b) with (ref a1 b). unfold ref. rewrite F4. by apply Hpin. }
  intros _ l3 (c3 & -> & R3).
  change (l_start ((l <| cache := c1 |>) <| cache := c2 |>)) with (l_start l) in R3.
  assert (log_data (acontent a2) (l_start l + 1) (length bs) = acontent a <$> bs) as Ed.
  { rewrite (log_data_agree _ (acontent a1)).
    - rewrite F1. rewrite <- (length_fmap (acontent a) bs). apply log_data_writes.
    - intros x Hx. unfold a2. simpl. rewrite fset_ne by lia. done. }
  rewrite Ed, zip_map_content in R3. set (ins := map (λ b, (b, acontent a b)) bs) in *.
  destruct (installs_fields false ins a2) as (G1 & G2 & G3 & G4). set (a3 := a_installs false ins a2) in *.
  assert (acontent a3 (l_start l) = h1) as Eh3.
  { rewrite G1. rewrite apply_writes_other; [apply fset_eq|]. unfold ins.
    rewrite <- list_fmap_compose. by rewrite list_fmap_id. }
  wp_step. eapply wp_intro; [reflexivity|].
  set (l4 := (l <| lh := (lh l) <| lh_n := 0 |> |>) <| cache := c3 |>).
  eapply wp_mono; [|apply (write_head_spec l4 a3)].
  2:{ exact R3. } 2:{ apply installs_quiet. apply (rd_log _ _ _ Hrd1). exact Hst. }
  2:{ pose proof (installs_size false bs (acontent a <$> bs) a2 (ls_nodup _ _ Hls)) as Hs.
      rewrite zip_map_content in Hs. fold ins a3 in Hs. eapply Nat.le_lt_trans; [apply Hs|].
      - intros _ b Hb. change (ref a2 b) with (ref a1 b). unfold ref. rewrite F4. by apply Hpin.
      - apply (rd_free _ _ _ Hrd1). }
  2:{ unfold l4. simpl. unfold LOGSIZE, MAXOPBLOCKS. lia. }
  intros _ l5 (c5 & -> & R5). change (l_start l4) with (l_start l) in R5. rewrite Eh3 in R5.
  exists c5, (a_put (l_start l) (put_head 0 (lh_block (lh l)) h1) a3). split; [done|]. split; [exact R5|].
  unfold commit_writes. fold ws ins h1. rewrite !apply_writes_app.
  change (apply_writes [?w] ?f) with (fset w.1 w.2 f). cbn [fst snd a_put a_write a_set].
  simpl. rewrite G1, G2, G3, G4. simpl. rewrite F1, F2, F3, F5, !fset_eq. rewrite <- !app_assoc.
  split; [done|]. split; [done|]. split; [done|]. split; [done|].
  intros x. change (ref a3 x = ref a x - (if decide (x ∈ bs) then 1 else 0)). unfold a3, ins.
  rewrite installs_ref by apply (ls_nodup _ _ Hls). change (ref a2 x) with (ref a1 x).
  unfold ref. by rewrite F4.
Qed.

(** The blocks a header block lists. *)
Definition head_blocks (d : list Z) : list Z :=
  map (λ i, u32 (head_block d i)) (seq 0 (Z.to_nat (head_n d))).

(** A header that recovery can follow in a log of [size] blocks at [start]. *)
Record head_ok (start size : Z) (d : list Z) : Prop := {
  ho_n : 0 ≤ head_n d < size;
  ho_size : size ≤ 30;
  ho_start : 0 ≤ start < 2 ^ 31 - 30;
  ho_nodup : NoDup (head_blocks d);
  ho_out : ∀ b, b ∈ head_blocks d → ¬ (start ≤ b < start + size)
}.

Definition recover_writes (start : Z) (f : Z → list Z) : list (Z * list Z) :=
  let bs := head_blocks (f start) in
  zip bs (log_data f (start + 1) (length bs)) ++ [(start, put32 (f start) 0 0)].

Lemma length_head_blocks d : length (head_blocks d) = Z.to_nat (head_n d).
Proof. unfold head_blocks. by rewrite length_map, length_seq. Qed.

Lemma head_lists l d bl c :
  head_ok (l_start l) (l_size l) d → length bl = 30%nat →
  (∀ i, (i < Z.to_nat (head_n d))%nat → bl !!! i = head_block d i) →
  lists ((l <| lh := mk_logheader (head_n d) bl |>) <| cache := c |>) (head_blocks d).
Proof.
  intros [H1 H2 H3 H4 H5] Hbl Hb. split; simpl.
  - rewrite length_head_blocks. lia.
  - done.
  - intros i b Hi. unfold head_blocks in Hi. rewrite list_lookup_fmap in Hi.
    apply fmap_Some in Hi as (j & Hj & ->). apply lookup_seq in Hj as [-> Hj]. simpl. by rewrite Hb.
  - rewrite length_head_blocks. lia.
  - done.
  - done.
  - done.
Qed.

Lemma log_data_length f p k : length (log_data f p k) = k.
Proof. revert p. induction k; intros p; simpl; auto. Qed.

Lemma zip_fst_subset (bs : list Z) (ds : list (list Z)) x : x ∈ (zip bs ds).*1 → x ∈ bs.
Proof.
  revert ds. induction bs as [|b bs IH]; intros [|d ds]; simpl; [done|done|by intros ?%elem_of_nil|].
  intros [->|H]%elem_of_cons; [by left|right; by eapply IH].
Qed.

Lemma recover_spec l a :
  let d := acontent a (l_start l) in
  lrep l a → head_ok (l_start l) (l_size l) d → ready l (head_blocks d) a →
  (size (aref a) + 1 < nbuf)%nat → length (lh_block (lh l)) = 30%nat →
  wp recover_from_log (λ _ l', ∃ c a' bl, l' = (l <| lh := mk_logheader 0 bl |>) <| cache := c |> ∧
    length bl = 30%nat ∧ bc_repr (l_dev l) c a' ∧
    awrites a' = awrites a ++ recover_writes (l_start l) (acontent a) ∧
    adisk a' = apply_writes (recover_writes (l_start l) (acontent a)) (adisk a) ∧
    acontent a' = apply_writes (recover_writes (l_start l) (acontent a)) (acontent a) ∧
    aheld a' = aheld a ∧ (size (aref a') ≤ size (aref a))%nat) l.
Proof.
  intros d R Hho Hrd Hsz Hlen. pose proof Hho as [Hn Hs30 Hstart Hnd Hout].
  assert (in_log l (l_start l)) as Hst by (unfold in_log; lia).
  unfold recover_from_log. wp_step.
  eapply wp_mono; [|apply (read_head_spec l a R); [by apply (rd_log _ _ _ Hrd)|lia|done|fold d; lia]].
  intros _ l1 (bl & c1 & -> & R1 & Hbl & Hblk).
  fold d in Hblk. fold d. pose proof (head_lists l d bl c1 Hho Hbl Hblk) as Hls.
  set (l1 := (l <| lh := mk_logheader (head_n d) bl |>) <| cache := c1 |>) in *.
  wp_step. eapply wp_mono; [|apply (install_trans_spec true l1 a (head_blocks d) R1 Hls)].
  2:{ by destruct Hrd. } 2:{ exact Hsz. } 2:{ done. }
  intros _ l2 (c2 & -> & R2). change (l_start l1) with (l_start l) in R2.
  set (ins := zip (head_blocks d) (log_data (acontent a) (l_start l + 1) (length (head_blocks d)))) in *.
  destruct (installs_fields true ins a) as (G1 & G2 & G3 & G4). set (a2 := a_installs true ins a) in *.
  assert (size (aref a2) ≤ size (aref a))%nat as Hsz2 by (by apply installs_size).
  assert (acontent a2 (l_start l) = d) as Eh.
  { rewrite G1. rewrite apply_writes_other; [done|]. intros Hx%zip_fst_subset. by apply (Hout _ Hx). }
  wp_step. eapply wp_intro; [reflexivity|].
  set (l3 := (l <| lh := mk_logheader 0 bl |>) <| cache := c2 |>).
  eapply wp_mono; [|apply (write_head_spec l3 a2)].
  2:{ exact R2. } 2:{ apply installs_quiet. apply (rd_log _ _ _ Hrd). exact Hst. } 2:{ lia. }
  2:{ unfold l3. simpl. unfold LOGSIZE, MAXOPBLOCKS. lia. }
  intros _ l4 (c4 & -> & R4). change (l_start l3) with (l_start l) in R4. rewrite Eh in R4.
  exists c4, (a_put (l_start l) (put32 d 0 0) a2), bl. split; [done|]. split; [done|]. split; [exact R4|].
  unfold recover_writes. fold d ins. rewrite !apply_writes_app.
  change (apply_writes [?w] ?f) with (fset w.1 w.2 f). cbn [fst snd a_put a_write a_set].
  simpl. rewrite G1, G2, G3, G4, !fset_eq, <- app_assoc. done.
Qed.

End log_spec.
