(* ===== verification/LogThms.v ===== *)
(** * Crash safety of the log

    A crash keeps a prefix of the block writes and loses memory; the machine
    then boots and runs [initlog]. Whatever the crash point, and however many
    further crashes interrupt recovery itself, a transaction is applied to the
    data blocks completely or not at all. *)

From S2P Require Import Prelude.
From S2P Require Import Machine.
From S2P Require Import Bio.
From S2P Require Import BioSpec.
From S2P Require Import Log.
From S2P Require Import LogSpec.
#[local] Open Scope Z_scope.

(** ** Disks with a log *)

(** The disk after recovery. *)
Definition recovered (start : Z) (f : Z → list Z) : Z → list Z := apply_writes (recover_writes start f) f.

(** A disk whose log can be recovered, with result [V] on the data blocks. *)
Record recovers (start size : Z) (V f : Z → list Z) : Prop := {
  rc_head : head_ok start size (f start);
  rc_len : length (f start) = Z.to_nat BSIZE;
  rc_view : ∀ x, ¬ (start ≤ x < start + size) → recovered start f x = V x
}.

Lemma apply_writes_agree ws f g x :
  x ∈ ws.*1 ∨ f x = g x → apply_writes ws f x = apply_writes ws g x.
Proof.
  revert f g. induction ws as [|[y d] ws IH]; intros f g H.
  { destruct H as [H|H]; [by apply elem_of_nil in H|done]. }
  cbn [apply_writes fold_left fst snd]. apply (IH (fset y d f) (fset y d g)).
  destruct (decide (x = y)) as [->|Hn]; [right; by rewrite !fset_eq|].
  destruct H as [[->|H]%elem_of_cons|H]; [done|by left|right]. by rewrite !fset_ne.
Qed.

Lemma apply_writes_one x d f : apply_writes [(x, d)] f = fset x d f.
Proof. done. Qed.

Lemma zip_fst (bs : list Z) (ds : list (list Z)) : length ds = length bs → (zip bs ds).*1 = bs.
Proof. intros. apply fst_zip. lia. Qed.

(** A cleared header lists nothing. *)
Lemma head_blocks_empty d : head_n d = 0 → head_blocks d = [].
Proof. intros H. unfold head_blocks. by rewrite H. Qed.
Lemma recovered_empty start f x : head_n (f start) = 0 → x ≠ start → recovered start f x = f x.
Proof.
  intros H Hx. unfold recovered, recover_writes. rewrite (head_blocks_empty _ H). simpl. by rewrite fset_ne.
Qed.
Lemma head_n_cleared d : length d = Z.to_nat BSIZE → head_n (put32 d 0 0) = 0 ∧ length (put32 d 0 0) = Z.to_nat BSIZE.
Proof.
  intros H. split.
  - unfold head_n. rewrite get_put32_eq by (rewrite H; unfold BSIZE; lia). done.
  - rewrite length_put32; [done|]. rewrite H. unfold BSIZE. lia.
Qed.
Lemma head_ok_empty start size d :
  head_n d = 0 → 0 < size ≤ 30 → 0 ≤ start < 2 ^ 31 - 30 → head_ok start size d.
Proof.
  intros H Hs Hst. pose proof (head_blocks_empty d H) as E.
  split; rewrite ?E; [lia|lia|lia|apply NoDup_nil_2|by intros b Hb%elem_of_nil].
Qed.

(** A disk that agrees with [f] on the log. *)
Lemma recover_writes_agree start f g :
  (∀ x, start ≤ x ≤ start + head_n (f start) → g x = f x) → 0 ≤ head_n (f start) →
  recover_writes start g = recover_writes start f.
Proof.
  intros H Hn. unfold recover_writes. rewrite (H start) by lia. f_equal. f_equal.
  apply log_data_agree. intros x Hx. rewrite length_head_blocks in Hx. apply H. lia.
Qed.

(** Recovery interrupted after any number of its writes. *)
Lemma recovers_crash start size V f j :
  recovers start size V f → recovers start size V (apply_writes (take j (recover_writes start f)) f).
Proof.
  intros [Hh Hl Hv]. pose proof Hh as [Hn Hs Hst Hnd Hout].
  set (d := f start) in *. set (bs := head_blocks d) in *.
  set (ins := zip bs (log_data f (start + 1) (length bs))).
  assert (ins.*1 = bs) as Efst by (apply zip_fst; by rewrite log_data_length).
  assert (recover_writes start f = ins ++ [(start, put32 d 0 0)]) as EW by done.
  destruct (decide (j ≤ length ins)%nat) as [Hj|Hj].
  - rewrite EW, take_app_le by done. set (f' := apply_writes (take j ins) f).
    assert (∀ y, y ∉ bs → f' y = f y) as Hsame.
    { intros y Hy. apply apply_writes_other. intros Hin. apply Hy. rewrite <- Efst, <- (take_drop j ins), fmap_app.
      rewrite elem_of_app. by left. }
    assert (∀ y, start ≤ y < start + size → f' y = f y) as Hlog.
    { intros y Hy. apply Hsame. intros Hb. by apply (Hout y). }
    assert (f' start = d) as Ed by (apply Hlog; lia).
    split; rewrite ?Ed; [done|done|]. intros x Hx. rewrite <- (Hv x Hx). unfold recovered.
    rewrite (recover_writes_agree start f f'); [|intros y Hy; apply Hlog; fold d in Hy; lia|fold d; lia].
    apply apply_writes_agree. destruct (decide (x ∈ bs)) as [Hb|Hb]; [left|right; by apply Hsame].
    rewrite EW, fmap_app, Efst, elem_of_app. by left.
  - rewrite take_ge by (rewrite EW, length_app; simpl; lia). fold (recovered start f).
    assert (recovered start f start = put32 d 0 0) as Es.
    { unfold recovered. rewrite EW, apply_writes_app. apply fset_eq. }
    destruct (head_n_cleared d Hl) as [E0 L0].
    split; rewrite ?Es; [by apply head_ok_empty; [|lia|lia]|done|]. intros x Hx. rewrite <- (Hv x Hx).
    apply recovered_empty; [by rewrite Es|lia].
Qed.

(** ** The crash points of a commit *)

Lemma u32_s32 x : u32 (s32 x) = u32 x.
Proof. unfold u32, s32. dlia. Qed.
Lemma u32_idem x : u32 (u32 x) = u32 x.
Proof. apply Z.mod_mod. lia. Qed.

(** The data blocks after [bs] have been given the contents [g]. *)
Definition install_all (bs : list Z) (g f : Z → list Z) : Z → list Z :=
  λ x, if decide (x ∈ bs) then g x else f x.

Lemma apply_map bs (g f : Z → list Z) x :
  apply_writes (map (λ b, (b, g b)) bs) f x = install_all bs g f x.
Proof.
  unfold install_all. revert f. induction bs as [|b bs IH]; intros f; [done|].
  cbn [map apply_writes fold_left fst snd].
  transitivity (if decide (x ∈ bs) then g x else fset b (g b) f x); [apply (IH (fset b (g b) f))|].
  destruct (decide (x = b)) as [->|Hn].
  - rewrite fset_eq. rewrite (decide_True (P := b ∈ b :: bs)) by (by left). by destruct (decide _).
  - rewrite fset_ne by done. destruct (decide (x ∈ bs)).
    + rewrite decide_True by (by right). done.
    + rewrite decide_False; [done|]. by rewrite elem_of_cons; intros [?|?].
Qed.

Lemma head_blocks_put {S} (l : log S) bs d :
  lists l bs → length d = Z.to_nat BSIZE →
  let h := put_head (Z.of_nat (length bs)) (lh_block (lh l)) d in
  head_n h = Z.of_nat (length bs) ∧ head_blocks h = bs ∧ length h = Z.to_nat BSIZE.
Proof.
  intros Hls Hd h. pose proof (ls_fit _ _ Hls) as Hfit.
  destruct (put_head_spec (Z.of_nat (length bs)) (lh_block (lh l)) d ltac:(lia) Hd) as (L & N & B).
  fold h in L, N, B. split; [done|]. split; [|done]. unfold head_blocks. rewrite N, Nat2Z.id.
  apply list_eq. intros i. destruct (decide (i < length bs)%nat) as [Hi|Hi].
  - rewrite list_lookup_fmap, lookup_seq_lt by done. simpl.
    destruct (lookup_lt_is_Some_2 bs i Hi) as [b Hb]. rewrite Hb. f_equal.
    unfold head_block. rewrite u32_s32, B by lia. rewrite u32_idem. by apply (ls_block _ _ Hls).
  - rewrite !lookup_ge_None_2; [done|lia|]. rewrite length_map, length_seq. lia.
Qed.

Section crash.
Context {S : Type} `{!BufOps S} `{!BufLaws S}.
Implicit Types (l : log S) (a : acache).

(** The disk when the header has just been written. *)
Lemma committed_recovers l a bs :
  lists l bs → acache_ok a →
  let h1 := put_head (Z.of_nat (length bs)) (lh_block (lh l)) (acontent a (l_start l)) in
  let f1 := apply_writes (log_writes (l_start l + 1) (acontent a <$> bs) ++ [(l_start l, h1)]) (adisk a) in
  recovers (l_start l) (l_size l) (install_all bs (acontent a) (adisk a)) f1 ∧
  recover_writes (l_start l) f1 = map (λ b, (b, acontent a b)) bs ++ [(l_start l, put32 h1 0 0)].
Proof.
  intros Hls Hok h1 f1. pose proof (ls_fit _ _ Hls) as Hfit. pose proof (ls_start _ _ Hls) as Hst.
  destruct (head_blocks_put l bs _ Hls (proj1 (ok_len _ Hok (l_start l)))) as (N & B & L). fold h1 in N, B, L.
  set (lw := log_writes (l_start l + 1) (acontent a <$> bs)) in *.
  assert (f1 = fset (l_start l) h1 (apply_writes lw (adisk a))) as E1 by (unfold f1; by rewrite apply_writes_app).
  assert (f1 (l_start l) = h1) as Es by (rewrite E1; apply fset_eq).
  assert (log_data f1 (l_start l + 1) (length bs) = acontent a <$> bs) as Ed.
  { rewrite (log_data_agree _ (apply_writes lw (adisk a))).
    - unfold lw. rewrite <- (length_fmap (acontent a) bs). apply log_data_writes.
    - intros x Hx. rewrite E1, fset_ne by lia. done. }
  assert (recover_writes (l_start l) f1 = map (λ b, (b, acontent a b)) bs ++ [(l_start l, put32 h1 0 0)]) as EW.
  { unfold recover_writes. by rewrite Es, B, Ed, zip_map_content. }
  split; [|done]. split.
  - rewrite Es. split; rewrite ?N, ?B; [lia|lia|lia|apply (ls_nodup _ _ Hls)|].
    intros b Hb. apply (ls_out _ _ Hls b Hb).
  - by rewrite Es.
  - intros x Hx. unfold recovered. rewrite EW, apply_writes_app.
    change (apply_writes [?w] ?f) with (fset w.1 w.2 f). cbn [fst snd]. rewrite fset_ne by lia.
    rewrite apply_map. unfold install_all. destruct (decide (x ∈ bs)); [done|].
    rewrite E1, fset_ne by lia. unfold lw. apply apply_writes_other.
    intros Hin%log_writes_fst. rewrite length_fmap in Hin. lia.
Qed.

Lemma commit_recovers l a bs k :
  lists l bs → acache_ok a → head_n (adisk a (l_start l)) = 0 →
  recovers (l_start l) (l_size l)
    (if decide (k ≤ length bs)%nat then adisk a else install_all bs (acontent a) (adisk a))
    (apply_writes (take k (commit_writes l bs a)) (adisk a)).
Proof.
  intros Hls Hok H0. pose proof (ls_fit _ _ Hls) as Hfit. pose proof (ls_start _ _ Hls) as Hst.
  destruct (committed_recovers l a bs Hls Hok) as [Hrec EW].
  unfold commit_writes. set (lw := log_writes (l_start l + 1) (acontent a <$> bs)) in *.
  set (h1 := put_head (Z.of_nat (length bs)) (lh_block (lh l)) (acontent a (l_start l))) in *.
  assert (length lw = length bs) as Elw.
  { unfold lw. rewrite <- (length_fmap (acontent a) bs). generalize (acontent a <$> bs), (l_start l + 1).
    intros ds. induction ds as [|d ds IH]; intros p; simpl; [done|]. by rewrite IH. }
  change (put_head 0 (lh_block (lh l)) h1) with (put32 h1 0 0). rewrite <- EW, app_assoc.
  set (f1 := apply_writes (lw ++ [(l_start l, h1)]) (adisk a)) in *.
  destruct (decide (k ≤ length bs)%nat) as [Hk|Hk].
  - rewrite take_app_le by (rewrite length_app; simpl; lia). rewrite take_app_le by lia.
    set (f' := apply_writes (take k lw) (adisk a)).
    assert (∀ y, ¬ (l_start l + 1 ≤ y < l_start l + 1 + Z.of_nat (length bs)) → f' y = adisk a y) as Hsame.
    { intros y Hy. apply apply_writes_other. intros Hin. apply Hy.
      assert (y ∈ lw.*1) as Hin2 by (rewrite <- (take_drop k lw), fmap_app, elem_of_app; by left).
      apply log_writes_fst in Hin2. by rewrite length_fmap in Hin2. }
    assert (f' (l_start l) = adisk a (l_start l)) as Es by (apply Hsame; lia).
    split; rewrite ?Es; [by apply head_ok_empty; [|lia|lia]|apply (ok_len _ Hok)|].
    intros x Hx. rewrite recovered_empty; [apply Hsame; lia|by rewrite Es|lia].
  - rewrite take_app_ge by (rewrite length_app; simpl; lia). rewrite apply_writes_app. fold f1.
    by apply recovers_crash.
Qed.

(** ** Booting *)

(** A machine just booted with disk [f]. *)
Definition booted_log (dev : Z) (lb : log S) (f : Z → list Z) : Prop :=
  bc_repr dev (cache lb) (a_boot f) ∧ length (lh_block (lh lb)) = 30%nat.

(** A boot that crashes after [j] writes of [initlog]. *)
Definition reboot (dev : Z) (sb : superblock) (f f' : Z → list Z) : Prop :=
  ∃ lb lr j, booted_log dev lb f ∧ initlog dev sb lb = Ret tt lr ∧
    f' = apply_writes (take j (bc_history (cache lr))) f.

Lemma initlog_spec dev sb lb V f :
  booted_log dev lb f → recovers (sb_logstart sb) (sb_nlog sb) V f →
  wp (initlog dev sb) (λ _ lr, ∃ ar, bc_repr dev (cache lr) ar ∧ aref ar = ∅ ∧
    awrites ar = recover_writes (sb_logstart sb) f ∧
    (∀ x, ¬ (sb_logstart sb ≤ x < sb_logstart sb + sb_nlog sb) → acontent ar x = V x ∧ adisk ar x = V x) ∧
    head_n (adisk ar (sb_logstart sb)) = 0 ∧
    lh_n (lh lr) = 0 ∧ length (lh_block (lh lr)) = 30%nat ∧
    l_start lr = sb_logstart sb ∧ l_size lr = sb_nlog sb ∧ l_dev lr = dev) lb.
Proof.
  intros [R Hlen] [Hh Hl Hv]. pose proof Hh as [Hn Hs Hst Hnd Hout].
  unfold initlog. change (BSIZE <=? sizeof_logheader) with false. cbv iota. wp_steps.
  match goal with |- wp _ _ ?st => set (l1 := st) end.
  assert (l_start l1 = sb_logstart sb) as E1 by (apply s32_small; lia).
  assert (l_size l1 = sb_nlog sb) as E2 by (apply s32_small; lia).
  eapply wp_mono; [|apply (recover_spec l1 (a_boot f)); rewrite ?E1, ?E2; try done].
  - intros _ lr (c & ar & bl & -> & Hbl & R' & Hw & Hd & Hc & _ & Hsz).
    rewrite E1 in Hw, Hd, Hc. change (acontent (a_boot f)) with f in *. change (adisk (a_boot f)) with f in *.
    assert (aref ar = ∅) as Hr0 by (apply map_size_empty_inv; change (aref (a_boot f)) with (∅ : gmap Z Z) in Hsz;
      rewrite map_size_empty in Hsz; lia).
    exists ar. split; [exact R'|]. split; [done|]. split; [exact Hw|]. split; [|split].
    + intros x Hx. rewrite Hc, Hd. split; by apply Hv.
    + rewrite Hd. unfold recover_writes. rewrite apply_writes_app.
      change (apply_writes [?w] ?g) with (fset w.1 w.2 g). cbn [fst snd]. rewrite fset_eq.
      by apply head_n_cleared.
    + done.
  - split; [|intros b Hb|by vm_compute; lia].
    + intros x Hx. unfold in_log in Hx. rewrite E1, E2 in Hx. split; [lia|]. split; [done|]. by vm_compute.
    + split; [|split; [done|by vm_compute]]. apply list_elem_of_In, in_map_iff in Hb as (i & <- & _).
      pose proof (u32_range (head_block (acontent (a_boot f) (sb_logstart sb)) i)). lia.
  - by vm_compute; lia.
Qed.

Lemma reboots_recover dev sb V f f' :
  rtc (reboot dev sb) f f' → recovers (sb_logstart sb) (sb_nlog sb) V f →
  recovers (sb_logstart sb) (sb_nlog sb) V f'.
Proof.
  induction 1 as [f|f g f' (lb & lr & j & Hb & E & ->) _ IH]; intros Hr; [done|]. apply IH.
  destruct (wp_elim _ _ _ (initlog_spec dev sb lb V f Hb Hr)) as (u & lr' & E' & ar & R & _ & Hw & _).
  rewrite E in E'. apply Ret_inj in E' as [_ <-].
  rewrite (bc_history_law _ _ _ R), Hw. by apply recovers_crash.
Qed.

(** C5: Transactions are atomic across crashes. Let [commit] run on a log
    whose header lists the blocks [bs], pinned in the cache. It returns, and
    let [W] be the block writes it sent to the disk. Suppose the machine
    crashes after any number [k] of them, then crashes again any number of
    times at any point of its recovery, and finally boots and runs [initlog]
    to the end: [initlog] returns, and every data block then holds, in the
    cache and on disk, its old contents if fewer than [length bs + 1] writes
    were made, and otherwise the new contents of every block of [bs] and the
    old contents of all others. The on-disk log is empty again. *)
Theorem log_crash_atomic dev sb l a bs :
  bc_repr dev (cache l) a → l_dev l = dev → l_start l = sb_logstart sb → l_size l = sb_nlog sb →
  lists l bs → ready l bs a → (∀ b, b ∈ bs → 1 ≤ ref a b) → bs ≠ [] →
  head_n (adisk a (l_start l)) = 0 →
  ∃ l' W, commit l = Ret tt l' ∧ bc_history (cache l') = bc_history (cache l) ++ W ∧
    ∀ k f lb, rtc (reboot dev sb) (apply_writes (take k W) (adisk a)) f → booted_log dev lb f →
      ∃ lr ar, initlog dev sb lb = Ret tt lr ∧ bc_repr dev (cache lr) ar ∧
        head_n (adisk ar (l_start l)) = 0 ∧
        ∀ x, ¬ in_log l x →
          acontent ar x = adisk ar x ∧
          adisk ar x = if decide (k ≤ length bs)%nat then adisk a x
                       else if decide (x ∈ bs) then acontent a x else adisk a x.
Proof.
  intros R Hdev Hst Hsz Hls Hrd Hpin Hne H0. subst dev.
  destruct (wp_elim _ _ _ (commit_spec l a bs R Hls Hrd Hpin Hne)) as (u & l' & E & c & a' & -> & R' & Hw & _).
  destruct u. eexists. exists (commit_writes l bs a). split; [exact E|]. split.
  { change (cache (_ <| cache := c |>)) with c.
    by rewrite (bc_history_law _ _ _ R'), (bc_history_law _ _ _ R). }
  intros k f lb Hrb Hb.
  pose proof (commit_recovers l a bs k Hls (bc_ok _ _ _ R) H0) as Hrec. rewrite Hst, Hsz in Hrec.
  apply (reboots_recover _ _ _ _ _ Hrb) in Hrec.
  destruct (wp_elim _ _ _ (initlog_spec _ _ _ _ _ Hb Hrec)) as (u & lr & Er & ar & Rr & _ & _ & Hv & Hz & _).
  destruct u. exists lr, ar. split; [done|]. split; [done|]. rewrite Hst. split; [done|].
  intros x Hx. unfold in_log in Hx. rewrite Hst, Hsz in Hx. destruct (Hv x Hx) as [-> ->].
  split; [done|]. by destruct (decide (k ≤ length bs)%nat).
Qed.

(** ** Adding blocks to a transaction *)

Lemma log_find_spec (block : list Z) bno k i :
  let j := log_find k i block bno in
  (i ≤ j ≤ i + k)%nat ∧ (∀ m, (i ≤ m < j)%nat → u32 (block !!! m) ≠ bno) ∧
  ((j < i + k)%nat → u32 (block !!! j) = bno).
Proof.
  revert i. induction k as [|k IH]; intros i; cbn [log_find].
  { split; [lia|]. split; lia. }
  destruct (Z.eqb_spec (u32 (block !!! i)) bno) as [E|E]; [split; [lia|]; split; [lia|done]|].
  destruct (IH (Datatypes.S i)) as (H1 & H2 & H3). split; [lia|]. split; [|intros Hj; apply H3; lia].
  intros m Hm. destruct (decide (m = i)) as [->|]; [done|]. apply H2. lia.
Qed.

(** The position [log_write] finds in a header that lists [bs]. *)
Lemma log_find_lists l bs bno :
  lists l bs → let j := log_find (length bs) 0 (lh_block (lh l)) bno in
  (bno ∈ bs → bs !! j = Some bno) ∧ (bno ∉ bs → j = length bs) ∧ (j ≤ length bs)%nat.
Proof.
  intros Hls j. destruct (log_find_spec (lh_block (lh l)) bno (length bs) 0) as (H1 & H2 & H3). fold j in H1, H2, H3.
  assert (∀ m, (m < length bs)%nat → ∃ b, bs !! m = Some b ∧ u32 (lh_block (lh l) !!! m) = b) as Hb.
  { intros m Hm. destruct (lookup_lt_is_Some_2 bs m Hm) as [b Eb]. exists b. split; [done|]. by apply (ls_block _ _ Hls). }
  split; [|split; [|lia]].
  - intros [m Hm]%list_elem_of_lookup. pose proof (lookup_lt_Some _ _ _ Hm).
    destruct (decide (j < length bs)%nat) as [Hj|Hj].
    + destruct (Hb j Hj) as (b & Eb & Ub). rewrite Eb. f_equal. rewrite <- Ub. apply H3. lia.
    + destruct (H2 m ltac:(lia)). destruct (Hb m ltac:(lia)) as (b & Eb & ->). congruence.
  - intros Hn. destruct (decide (j < length bs)%nat) as [Hj|Hj]; [|lia].
    destruct (Hb j Hj) as (b & Eb & Ub). destruct Hn. rewrite <- (H3 ltac:(lia)), Ub.
    by eapply list_elem_of_lookup_2.
Qed.

Lemma log_write_spec dev l a bs bno b :
  bc_repr dev (cache l) a → l_dev l = dev → lists l bs → aheld a !! bno = Some b →
  0 ≤ bno < 2 ^ 32 → ¬ in_log l bno → ref a bno + 1 < 2 ^ 31 →
  match log_write b l with
  | Ret _ l' =>
      Z.of_nat (length bs) < l_size l - 1 ∧ 1 ≤ outstanding l ∧ outstanding l' = outstanding l ∧
      committing l' = committing l ∧ l_start l' = l_start l ∧ l_size l' = l_size l ∧ l_dev l' = l_dev l ∧
      if decide (bno ∈ bs) then lists l' bs ∧ bc_repr dev (cache l') a
      else lists l' (bs ++ [bno]) ∧ bc_repr dev (cache l') (a_pin bno a)
  | Panic _ _ => l_size l - 1 ≤ Z.of_nat (length bs) ∨ outstanding l < 1
  | _ => False
  end.
Proof.
  intros R Hdev Hls Hh Hb Hout Hr. subst dev. pose proof Hls as [Hn Hlen Hblk Hfit Hnd Hbs Hst].
  unfold log_write. rewrite (bind_eq (gets id) _ _ _ _ eq_refl). cbn [id]. rewrite Hn.
  destruct ((LOGSIZE <=? Z.of_nat (length bs)) || (l_size l - 1 <=? Z.of_nat (length bs))) eqn:G.
  { apply orb_true_iff in G as [G%Z.leb_le|G%Z.leb_le]; left; unfold LOGSIZE, MAXOPBLOCKS in *; lia. }
  apply orb_false_iff in G as [_ G%Z.leb_gt].
  destruct (Z.ltb_spec (outstanding l) 1) as [Ho|Ho]; [by right|].
  assert (with_cache (bc_blockno b) l = Ret bno l) as Eb.
  { unfold with_cache. erewrite lift_Ret by (by eapply bc_blockno_law). by destruct l. }
  rewrite (bind_eq _ _ _ _ _ Eb), Nat2Z.id.
  destruct (log_find_lists l bs bno Hls) as (J1 & J2 & J3).
  set (j := log_find (length bs) 0 (lh_block (lh l)) bno) in *.
  set (l1 := l <| lh := (lh l) <| lh_block := <[j := s32 bno]> (lh_block (lh l)) |> |>).
  assert (set_block j (s32 bno) l = Ret tt l1) as Es.
  { unfold set_block. rewrite (proj2 (Z.ltb_lt _ _)) by (unfold LOGSIZE, MAXOPBLOCKS; lia). done. }
  rewrite (bind_eq _ _ _ _ _ Es).
  assert (∀ i x, (bs ++ [bno]) !! i = Some x → (i = j ∨ (i < length bs)%nat) → (i = j → x = bno) →
    u32 (<[j := s32 bno]> (lh_block (lh l)) !!! i) = x) as Hblk'.
  { intros i x Hi Hor Hij. destruct (decide (i = j)) as [->|Hne].
    - rewrite list_lookup_total_insert_eq by lia. rewrite u32_s32, u32_small by done. symmetry. by apply Hij.
    - destruct Hor as [?|Hlt]; [done|]. rewrite list_lookup_total_insert_ne by done.
      apply Hblk. by rewrite lookup_app_l in Hi. }
  destruct (decide (bno ∈ bs)) as [Hin|Hin].
  - specialize (J1 Hin). pose proof (lookup_lt_Some _ _ _ J1) as Hj.
    rewrite (proj2 (Z.eqb_neq _ _)) by lia. unfold ret. split; [lia|]. split; [lia|]. do 5 (split; [done|]).
    split; [|exact R]. split; simpl; [done|by rewrite length_insert| |done|done|done|done].
    intros i x Hi. pose proof (lookup_lt_Some _ _ _ Hi). apply Hblk'; [by rewrite lookup_app_l|lia|].
    intros ->. congruence.
  - specialize (J2 Hin). rewrite J2, Z.eqb_refl.
    destruct (wp_elim _ _ _ (bc_pin_law _ _ _ _ _ R Hh Hr)) as ([] & c & Ec & Rc).
    rewrite (bind_eq _ _ l1 tt (l1 <| cache := c |>)).
    2:{ unfold with_cache. by erewrite lift_Ret by exact Ec. }
    unfold set_n, modify. split; [lia|]. split; [lia|]. do 5 (split; [done|]). split; [|exact Rc].
    split; simpl; rewrite ?length_app; simpl; [lia|by rewrite length_insert| |lia| | |done].
    + intros i x Hi. pose proof (lookup_lt_Some _ _ _ Hi) as Hi'. rewrite length_app in Hi'. simpl in Hi'.
      apply Hblk'; [done|lia|]. intros ->. rewrite J2, lookup_app_r, Nat.sub_diag in Hi by lia. by simplify_eq/=.
    + apply NoDup_app. split; [done|]. split; [|apply NoDup_singleton].
      intros x Hx ->%list_elem_of_singleton. done.
    + intros x [Hx|Hx%list_elem_of_singleton]%elem_of_app; [by apply Hbs|by subst x].
Qed.

(** [log_write] on a buffer the caller holds. It panics exactly when the
    header already lists [LOGSIZE] or [size - 1] blocks or no operation is in
    progress, even for a block listed before. Otherwise it returns with the
    header listing each block once: a block already in the transaction is
    absorbed, a new one is appended and pinned in the cache, and the contents
    of cache and disk do not change. *)
Theorem log_write_records dev l a bs bno b :
  bc_repr dev (cache l) a → l_dev l = dev → lists l bs → aheld a !! bno = Some b →
  0 ≤ bno < 2 ^ 32 → ¬ in_log l bno → ref a bno + 1 < 2 ^ 31 →
  match log_write b l with
  | Ret _ l' =>
      Z.of_nat (length bs) < l_size l - 1 ∧ 1 ≤ outstanding l ∧ outstanding l' = outstanding l ∧
      committing l' = committing l ∧ l_start l' = l_start l ∧ l_size l' = l_size l ∧ l_dev l' = l_dev l ∧
      if decide (bno ∈ bs) then lists l' bs ∧ bc_repr dev (cache l') a
      else lists l' (bs ++ [bno]) ∧ bc_repr dev (cache l') (a_pin bno a)
  | Panic _ _ => l_size l - 1 ≤ Z.of_nat (length bs) ∨ outstanding l < 1
  | _ => False
  end.
Proof. apply log_write_spec. Qed.

(** ** The end of the last operation *)

Lemma commit_writes_disk l bs a f x :
  lists l bs → ¬ in_log l x → apply_writes (commit_writes l bs a) f x = install_all bs (acontent a) f x.
Proof.
  intros Hls Hx. pose proof (ls_fit _ _ Hls) as Hfit. unfold commit_writes, in_log in *.
  rewrite !apply_writes_app, !apply_writes_one.
  rewrite fset_ne by lia. rewrite apply_map. unfold install_all. destruct (decide (x ∈ bs)); [done|].
  rewrite fset_ne by lia. apply apply_writes_other. intros Hin%log_writes_fst. rewrite length_fmap in Hin. lia.
Qed.

(** The [end_op] of the last operation in progress makes the transaction
    durable: it returns with every block of the transaction on disk with its
    cached contents and unpinned, every other data block untouched, the log
    empty, no commit in progress and the processes waiting in [begin_op]
    woken. *)
Lemma end_op_spec dev l a bs :
  bc_repr dev (cache l) a → l_dev l = dev → lists l bs → ready l bs a → (∀ b, b ∈ bs → 1 ≤ ref a b) →
  outstanding l = 1 → committing l = false →
  ∃ l' a', end_op l = Ret tt l' ∧ bc_repr dev (cache l') a' ∧
    outstanding l' = 0 ∧ committing l' = false ∧ lists l' [] ∧ lwoken l' = Datatypes.S (lwoken l) ∧
    l_start l' = l_start l ∧ l_size l' = l_size l ∧ l_dev l' = dev ∧ aheld a' = aheld a ∧
    (∀ x, ref a' x = ref a x - (if decide (x ∈ bs) then 1 else 0)) ∧
    ∀ x, ¬ in_log l x → acontent a' x = acontent a x ∧
      adisk a' x = if decide (x ∈ bs) then acontent a x else adisk a x.
Proof.
  intros R Hdev Hls Hrd Hpin Ho Hc. subst dev. pose proof Hls as [Hn Hlen Hblk Hfit Hnd Hbs Hst].
  set (l1 := (l <| outstanding := 0 |>) <| committing := true |>).
  assert (∃ l2 c a', commit l1 = Ret tt l2 ∧ l2 = (l1 <| lh := (lh l) <| lh_n := 0 |> |>) <| cache := c |> ∧
    bc_repr (l_dev l) c a' ∧ aheld a' = aheld a ∧ (∀ x, ref a' x = ref a x - (if decide (x ∈ bs) then 1 else 0)) ∧
    ∀ x, ¬ in_log l x → acontent a' x = acontent a x ∧
      adisk a' x = if decide (x ∈ bs) then acontent a x else adisk a x) as (l2 & c & a' & E & -> & R' & Hh & Hr & Hv).
  { destruct bs as [|b0 bs0] eqn:Eb.
    - exists l1, (cache l), a. split.
      + unfold commit. rewrite (bind_eq (gets _) _ _ _ _ eq_refl). change (lh l1) with (lh l). by rewrite Hn.
      + split; [|split; [exact R|split; [done|split; [|done]]]].
        * unfold l1. destruct l as [? ? ? ? ? [n0 ?] ? ?]. simpl in *. by subst n0.
        * intros x. simpl. lia.
    - rewrite <- Eb in *.
      assert (lists l1 bs) as Hls1 by (by destruct Hls). assert (ready l1 bs a) as Hrd1 by (by destruct Hrd).
      destruct (wp_elim _ _ _ (commit_spec l1 a bs R Hls1 Hrd1 Hpin ltac:(by rewrite Eb)))
        as ([] & l2 & E & c & a' & -> & R' & _ & Hd & Hct & Hh & Hr).
      exists ((l1 <| lh := (lh l) <| lh_n := 0 |> |>) <| cache := c |>), c, a'.
      split; [exact E|]. split; [done|]. split; [exact R'|]. split; [exact Hh|]. split; [exact Hr|]. intros x Hx.
      rewrite Hd, Hct, !(commit_writes_disk l1) by done. unfold install_all. by destruct (decide (x ∈ bs)). }
  set (l3 := ((l1 <| lh := (lh l) <| lh_n := 0 |> |>) <| cache := c |>)) in *.
  exists ((l3 <| committing := false |>) <| lwoken := Datatypes.S (lwoken l) |>), a'.
  split.
  { unfold end_op. set (l0 := l <| outstanding := 0 |>).
    rewrite (bind_eq (modify _) _ l tt l0) by (unfold modify, l0; by rewrite Ho).
    rewrite (bind_eq (gets id) _ _ _ _ eq_refl). change (committing (id l0)) with (committing l). rewrite Hc.
    change (outstanding (id l0) =? 0) with true. cbv iota.
    rewrite (bind_eq (modify _) _ l0 tt l1 eq_refl). rewrite (bind_eq _ _ _ _ _ E).
    by rewrite (bind_eq (modify _) _ _ _ _ eq_refl). }
  split; [exact R'|]. split; [done|]. split; [done|]. split; [|done].
  split; simpl; [done|done|done|lia|apply NoDup_nil_2|by intros b Hb%elem_of_nil|done].
Qed.


End crash.

(** ** A transaction on a concrete machine *)

Definition demo_sb : superblock := mk_superblock 0x10203040 2000 1954 200 30 2 32 45.
Definition demo_ops : list bop := [BRead 100; BSet 100 (replicate 1024 7); BPin 100; BRelse 100].
Definition demo_cache (b : nat) (f : Z → list Z) : acache :=
  a_release 100 (a_pin 100 (a_set 100 (replicate 1024 7) (a_read 100 b (a_boot f)))).
Definition demo_log (s : bst) : log bst :=
  mk_log_st bst 2 30 1 false 1 (mk_logheader 1 (100 :: replicate 29 0)) 0 s.
Definition zero_disk : Z → list Z := λ _, replicate (Z.to_nat BSIZE) 0.

(** The cache after boot on an empty disk, with block 100 changed and pinned. *)
Lemma demo_run : ∃ (s : bst) b, bc_repr 1 s (demo_cache b (disk_block (boot_bst 1 ∅))).
Proof.
  assert (∀ bno x, (∅ : gmap Z (list Z)) !! bno = Some x → length x = Z.to_nat BSIZE) as Hd.
  { intros bno x Hx. by rewrite lookup_empty in Hx. }
  destruct (wp_elim _ _ _ (binit_refines 1 1 ∅ ltac:(lia) Hd)) as ([] & s0 & E & R). clear E.
  generalize dependent (disk_block (boot_bst 1 ∅)). intros f R.
  assert (a_admits demo_ops (a_boot f)) as Had.
  { unfold demo_ops. cbn [a_admits a_effect a_pre].
    repeat first
      [ split
      | match goal with |- ∀ b : nat, _ => intros ? end
      | match goal with |- _ = 1 → _ => let H := fresh in intros H; vm_compute in H; discriminate end
      | match goal with |- room _ _ => right; vm_compute; lia end
      | match goal with |- is_Some _ => eexists; reflexivity end
      | match goal with |- _ < _ => reflexivity end
      | reflexivity ]. }
  destruct (wp_elim _ _ _ (run_ops_refines 1 demo_ops s0 _ R Had)) as (env & s & _ & a' & _ & Hr & R').
  unfold demo_ops in Hr. cbn [a_runs a_effect] in Hr. destruct Hr as (b1 & b2 & b3 & b4 & ->).
  by exists s, b1.
Qed.

Lemma demo_facts b f s :
  ref (demo_cache b f) 100 = 1 ∧ lists (demo_log s) [100] ∧ ready (demo_log s) [100] (demo_cache b f).
Proof.
  assert (aref (demo_cache b f) = {[100 := 1]}) as Er by reflexivity.
  assert (aheld (demo_cache b f) = ∅) as Eh by (unfold demo_cache; simpl; by rewrite delete_insert_id).
  split; [unfold ref; rewrite Er; reflexivity|]. split.
  - split; [reflexivity|reflexivity| |simpl; lia|apply NoDup_singleton| |simpl; lia].
    + intros [|i] x Hx; [injection Hx as <-; reflexivity|discriminate Hx].
    + intros x ->%list_elem_of_singleton. unfold in_log. simpl. lia.
  - assert (∀ x, 0 ≤ x < 2 ^ 32 → quiet x (demo_cache b f)) as Hq.
    { intros x Hx. split; [done|]. split; [by rewrite Eh|]. unfold ref. rewrite Er.
      destruct (decide (x = 100)) as [->|Hn]; [by rewrite lookup_singleton_eq|].
      rewrite lookup_singleton_ne by done. simpl. lia. }
    split.
    + intros x Hx. unfold in_log in Hx. simpl in Hx. apply Hq. lia.
    + intros x ->%list_elem_of_singleton. apply Hq. lia.
    + rewrite Er. rewrite map_size_singleton. unfold nbuf. lia.
Qed.

Lemma log_crash_atomic_witness :
  ∃ (l l' : log bst) a W, commit l = Ret tt l' ∧ acontent a 100 = replicate 1024 7 ∧
    ∀ k f lb, rtc (reboot 1 demo_sb) (apply_writes (take k W) (adisk a)) f → booted_log 1 lb f →
      ∃ lr ar, initlog 1 demo_sb lb = Ret tt lr ∧ bc_repr 1 (cache lr) ar ∧
        adisk ar 100 = if decide (k ≤ 1)%nat then adisk a 100 else replicate 1024 7.
Proof.
  destruct demo_run as (s & b & R). set (f0 := disk_block (boot_bst 1 ∅)) in R.
  destruct (demo_facts b f0 s) as (Hr & Hls & Hrd).
  assert (head_n (adisk (demo_cache b f0) 2) = 0) as H0 by (vm_compute; reflexivity).
  destruct (log_crash_atomic 1 demo_sb (demo_log s) (demo_cache b f0) [100] R eq_refl eq_refl eq_refl Hls Hrd)
    as (l' & W & E & _ & Hall).
  - intros x ->%list_elem_of_singleton. rewrite Hr. reflexivity.
  - discriminate.
  - exact H0.
  - exists (demo_log s), l', (demo_cache b f0), W. split; [exact E|]. split; [reflexivity|].
    intros k f lb Hrb Hb. destruct (Hall k f lb Hrb Hb) as (lr & ar & Er & Rr & _ & Hv).
    exists lr, ar. split; [exact Er|]. split; [exact Rr|].
    destruct (Hv 100) as [_ ->]; [unfold in_log; simpl; lia|].
    rewrite (decide_True (P := 100 ∈ [100])) by (by left). reflexivity.
Defined.

Lemma log_write_records_witness :
  ∃ (l : log bst) b, match log_write b l with
    | Ret _ l' => lists l' [100] ∧ outstanding l' = 1
    | _ => False
    end.
Proof.
  assert (∀ bno x, (∅ : gmap Z (list Z)) !! bno = Some x → length x = Z.to_nat BSIZE) as Hd.
  { intros bno x Hx. by rewrite lookup_empty in Hx. }
  destruct (wp_elim _ _ _ (binit_refines 1 1 ∅ ltac:(lia) Hd)) as ([] & s0 & E & R). clear E.
  generalize dependent (disk_block (boot_bst 1 ∅)). intros f R.
  destruct (wp_elim _ _ _ (bread_refines 1 s0 (a_boot f) 100 R eq_refl eq_refl ltac:(right; vm_compute; lia)))
    as (b & s & _ & R1). change (bc_repr 1 s (a_read 100 b (a_boot f))) in R1.
  set (l := mk_log_st bst 2 30 1 false 1 (mk_logheader 0 (replicate 30 0)) 0 s).
  assert (lists l []) as Hls.
  { split; [reflexivity|reflexivity|done|simpl; lia|apply NoDup_nil_2|by intros x Hx%elem_of_nil|simpl; lia]. }
  exists l, b.
  pose proof (log_write_records 1 l (a_read 100 b (a_boot f)) [] 100 b R1 eq_refl Hls) as T.
  specialize (T ltac:(reflexivity) ltac:(lia) ltac:(unfold in_log; simpl; lia) ltac:(reflexivity)).
  destruct (log_write b l) as [u l'|m l'|ch l'|l']; [|exfalso|done|done].
  - destruct T as (_ & _ & To & _ & _ & _ & _ & T2). rewrite (decide_False (P := 100 ∈ [])) in T2 by (by intros Hx%elem_of_nil).
    split; [apply T2|exact To].
  - simpl in T. lia.
Defined.

(** ** The reservation of [begin_op] *)

(** Three operations admitted by [begin_op] that together write [n] distinct
    blocks, on a file system made with [nlog = LOGSIZE] as mkfs makes it. *)
Definition three_ops (n : nat) : M (log bst) unit :=
  do! with_cache binit in
  do! initlog 1 demo_sb in
  do! begin_op in
  do! begin_op in
  do! begin_op in
  for_each (seq 0 n) (λ i,
    let! b := bread_log (100 + Z.of_nat i) in
    do! log_write b in
    with_cache (bc_release b)).
Definition fresh_log : log bst :=
  mk_log_st bst 0 0 0 false 0 (mk_logheader 0 (replicate 30 0)) 0 (boot_bst 1 ∅).

(** The reservation is one block too generous. [begin_op] admits three
    operations, each entitled to [MAXOPBLOCKS] = 10 blocks; they can write 29
    distinct blocks together, but the 30th makes [log_write] panic with "too
    big a transaction", because one of the [LOGSIZE] blocks holds the
    header. *)
Example log_reservation_short :
  match three_ops 29 fresh_log with
  | Ret _ l => lh_n (lh l) = 29 ∧ outstanding l = 3
  | _ => False
  end ∧
  match three_ops (Z.to_nat (3 * MAXOPBLOCKS)) fresh_log with
  | Panic m _ => m = "too big a transaction"%string
  | _ => False
  end.
Proof. split; [|vm_compute; reflexivity]. vm_compute. split; reflexivity. Qed.
