(* ===== verification/Console.v ===== *)
(** * The UART and the console ([kernel/uart.c], [kernel/console.c])

    Two rings: [cons.buf] holds typed input between the indices [r], [w] and
    [e], [uart_tx_buf] output waiting for the device. The 16550 device is a
    parameter, the class [UartDev]; what goes to its transmit register is
    recorded in [sent]. [procdump] is a parameter, the other side of
    [either_copyin] and [either_copyout] an argument of each call. [wakeup]
    calls are recorded, a read that sleeps ends its run and is resumed with
    what is left to read. *)

From S2P Require Import Prelude.
From S2P Require Import Machine.
#[local] Open Scope Z_scope.

(** Reads and writes of the device's registers, [ReadReg] and [WriteReg]. *)
Class UartDev (D : Type) := {
  read_reg : Z → D → Z * D;
  write_reg : Z → Z → D → D
}.

(** ** Constants *)

Definition RHR : Z := 0.
Definition THR : Z := 0.
Definition IER : Z := 1.
Definition IER_RX_ENABLE : Z := 1.
Definition IER_TX_ENABLE : Z := 2.
Definition FCR : Z := 2.
Definition FCR_FIFO_ENABLE : Z := 1.
Definition FCR_FIFO_CLEAR : Z := 6.
Definition LCR : Z := 3.
Definition LCR_EIGHT_BITS : Z := 3.
Definition LCR_BAUD_LATCH : Z := 128.
Definition LSR : Z := 5.
Definition LSR_RX_READY : Z := 1.
Definition LSR_TX_IDLE : Z := 32.
Definition UART_TX_BUF_SIZE : Z := 32.
Definition INPUT_BUF_SIZE : Z := 128.
Definition BACKSPACE : Z := 256.
Definition C (x : Z) : Z := x - 64.
Definition ctrl_D : Z := C 68.
Definition ctrl_H : Z := C 72.
Definition ctrl_P : Z := C 80.
Definition ctrl_U : Z := C 85.
Definition DEL : Z := 127.
Definition newline : Z := 10.
Definition carriage_return : Z := 13.

(** ** State *)

Inductive cchan := ConsR | UartTxR.       (* &cons.r, &uart_tx_r *)

Record con {D : Type} := mk_con {
  cbuf : list Z;
  cons_r : Z;
  cons_w : Z;
  cons_e : Z;
  uart_tx_buf : list Z;
  uart_tx_w : Z;
  uart_tx_r : Z;
  panicked : bool;
  connected : bool;      (* devsw[CONSOLE] has the console's routines *)
  dev : D;
  sent : list Z;
  cwoken : list cchan
}.
Arguments con : clear implicits.
#[export] Instance con_eta {D} : Settable (con D) := λ s,
  mk_con D (cbuf s) (cons_r s) (cons_w s) (cons_e s) (uart_tx_buf s) (uart_tx_w s) (uart_tx_r s)
    (panicked s) (connected s) (dev s) (sent s) (cwoken s).

(** What a run of [consoleread] or [consolewrite] ends with: asleep, with the
    count still to do, or the result. *)
Inductive crun (R : Type) := CAsleep (n : Z) (got : R) | CDone (r : Z) (got : R).
Arguments CAsleep {R}.
Arguments CDone {R}.

Section console.
Context {D : Type} `{!UartDev D}.
Variable procdump : M (con D) unit.
Variable fuel : nat.                     (* turns of a loop that waits for the device *)
Implicit Types (s : con D).

Definition cwakeup (c : cchan) : M (con D) unit := modify (λ s, s <| cwoken := cwoken s ++ [c] |>).
Definition ReadReg (reg : Z) : M (con D) Z := λ s,
  let r := read_reg reg (dev s) in Ret (u8 r.1) (s <| dev := r.2 |>).
Definition WriteReg (reg v : Z) : M (con D) unit := modify (λ s,
  let s := s <| dev := write_reg reg (u8 v) (dev s) |> in
  if reg =? THR then s <| sent := sent s ++ [u8 v] |> else s).

(** ** uart.c *)

(** Register 0 is not the transmit register while the baud latch is open. *)
Definition uartinit : M (con D) unit := modify (λ s,
  s <| dev := fold_left (λ d w, write_reg w.1 w.2 d)
    [(IER, 0); (LCR, LCR_BAUD_LATCH); (0, 3); (1, 0); (LCR, LCR_EIGHT_BITS);
     (FCR, Z.lor FCR_FIFO_ENABLE FCR_FIFO_CLEAR); (IER, Z.lor IER_TX_ENABLE IER_RX_ENABLE)] (dev s) |>).

(** A panicked kernel spins forever. *)
Definition check_panicked : M (con D) unit := λ s, if panicked s then NoFuel s else Ret tt s.

(** At most [UART_TX_BUF_SIZE] bytes wait, so the loop ends within one turn
    more. *)
Fixpoint uartstart_loop (fuel : nat) : M (con D) unit :=
  match fuel with
  | O => λ s, NoFuel s
  | S fuel' =>
      let! s := gets id in
      if uart_tx_w s =? uart_tx_r s then ret tt else
      let! lsr := ReadReg LSR in
      if Z.land lsr LSR_TX_IDLE =? 0 then ret tt else
      let c := uart_tx_buf s !!! Z.to_nat (uart_tx_r s mod UART_TX_BUF_SIZE) in
      do! modify (λ s, s <| uart_tx_r := u64 (uart_tx_r s + 1) |>) in
      do! cwakeup UartTxR in
      do! WriteReg THR c in
      uartstart_loop fuel'
  end.
Definition uartstart : M (con D) unit := uartstart_loop (S (Z.to_nat UART_TX_BUF_SIZE)).

(** The result is whether the byte was taken; otherwise the caller is asleep
    on [uart_tx_r] and comes back. *)
Definition uartputc (c : Z) : M (con D) bool :=
  do! check_panicked in
  let! s := gets id in
  if uart_tx_w s =? u64 (uart_tx_r s + UART_TX_BUF_SIZE) then ret false else
  do! modify (λ s, s <| uart_tx_buf := <[Z.to_nat (uart_tx_w s mod UART_TX_BUF_SIZE) := u8 c]> (uart_tx_buf s) |>) in
  do! modify (λ s, s <| uart_tx_w := u64 (uart_tx_w s + 1) |>) in
  do! uartstart in
  ret true.

(** [while((ReadReg(LSR) & LSR_TX_IDLE) == 0);]. *)
Fixpoint wait_idle (fuel : nat) : M (con D) unit :=
  match fuel with
  | O => λ s, NoFuel s
  | S fuel' =>
      let! lsr := ReadReg LSR in
      if Z.land lsr LSR_TX_IDLE =? 0 then wait_idle fuel' else ret tt
  end.
Definition uartputc_sync (c : Z) : M (con D) unit :=
  do! check_panicked in
  do! wait_idle fuel in
  WriteReg THR c.

Definition uartgetc : M (con D) Z :=
  let! lsr := ReadReg LSR in
  if negb (Z.land lsr LSR_RX_READY =? 0) then ReadReg RHR else ret (-1).

(** ** console.c *)

Definition consputc (c : Z) : M (con D) unit :=
  if c =? BACKSPACE then
    do! uartputc_sync 8 in do! uartputc_sync 32 in uartputc_sync 8
  else uartputc_sync c.

(** [for(i = 0; i < n; i++)] from [i], [k = n - i]; [fetch i] is the byte at
    [src + i], [None] when [either_copyin] fails. A run that sleeps is resumed
    at the same [i]. *)
Fixpoint consolewrite_loop (k : nat) (fetch : Z → option Z) (i : Z) : M (con D) (crun unit) :=
  match k with
  | O => ret (CDone i tt)
  | S k' =>
      match fetch i with
      | None => ret (CDone i tt)
      | Some c =>
          let! ok := uartputc c in
          if ok then consolewrite_loop k' fetch (i + 1) else ret (CAsleep i tt)
      end
  end.
Definition consolewrite (fetch : Z → option Z) (n i : Z) : M (con D) (crun unit) :=
  consolewrite_loop (Z.to_nat (n - i)) fetch i.

(** One run of [consoleread], with [k] bytes still to read of [target]: the
    result and the bytes copied out. [put i] is whether [either_copyout] of
    byte [i] succeeds. *)
Fixpoint consoleread_loop (k : nat) (target : Z) (put : Z → bool) (killed : bool) : M (con D) (crun (list Z)) :=
  match k with
  | O => ret (CDone target [])
  | S k' =>
      let n := Z.of_nat k in
      let! s := gets id in
      if cons_r s =? cons_w s then
        if killed then ret (CDone (-1) []) else ret (CAsleep n [])
      else
        let c := cbuf s !!! Z.to_nat (cons_r s mod INPUT_BUF_SIZE) in
        do! modify (λ s, s <| cons_r := u32 (cons_r s + 1) |>) in
        if c =? ctrl_D then
          do! (if n <? target then modify (λ s, s <| cons_r := u32 (cons_r s - 1) |>) else ret tt) in
          ret (CDone (target - n) [])
        else if negb (put (target - n)) then ret (CDone (target - n) [])
        else if c =? newline then ret (CDone (target - (n - 1)) [c])
        else
          let! r := consoleread_loop k' target put killed in
          ret (match r with
               | CAsleep n got => CAsleep n (c :: got)
               | CDone res got => CDone res (c :: got)
               end)
  end.
(** A run of [consoleread(user_dst, dst, target)] with [n] bytes to go. *)
Definition consoleread (n target : Z) (put : Z → bool) (killed : bool) : M (con D) (crun (list Z)) :=
  if n <=? 0 then ret (CDone (target - n) []) else consoleread_loop (Z.to_nat n) target put killed.

(** [while(cons.e != cons.w && cons.buf[(cons.e-1) % INPUT_BUF_SIZE] != '\n')]. *)
Fixpoint kill_line (fuel : nat) : M (con D) unit :=
  match fuel with
  | O => λ s, NoFuel s
  | S fuel' =>
      let! s := gets id in
      if negb (cons_e s =? cons_w s) &&
         negb (cbuf s !!! Z.to_nat (u32 (cons_e s - 1) mod INPUT_BUF_SIZE) =? newline) then
        do! modify (λ s, s <| cons_e := u32 (cons_e s - 1) |>) in
        do! consputc BACKSPACE in
        kill_line fuel'
      else ret tt
  end.

Definition consoleintr (c : Z) : M (con D) unit :=
  if c =? ctrl_P then procdump
  else if c =? ctrl_U then kill_line (S (Z.to_nat INPUT_BUF_SIZE))
  else if (c =? ctrl_H) || (c =? DEL) then
    let! s := gets id in
    if negb (cons_e s =? cons_w s) then
      do! modify (λ s, s <| cons_e := u32 (cons_e s - 1) |>) in
      consputc BACKSPACE
    else ret tt
  else
    let! s := gets id in
    if negb (c =? 0) && (u32 (cons_e s - cons_r s) <? INPUT_BUF_SIZE) then
      let c := if c =? carriage_return then newline else c in
      do! consputc c in
      do! modify (λ s, (s <| cbuf := <[Z.to_nat (cons_e s mod INPUT_BUF_SIZE) := u8 c]> (cbuf s) |>)
                        <| cons_e := u32 (cons_e s + 1) |>) in
      let! s := gets id in
      if (c =? newline) || (c =? ctrl_D) || (u32 (cons_e s - cons_r s) =? INPUT_BUF_SIZE) then
        do! modify (λ s, s <| cons_w := cons_e s |>) in
        cwakeup ConsR
      else ret tt
    else ret tt.

(** The receive loop of [uartintr], at most [k] characters. *)
Fixpoint uartintr_loop (k : nat) : M (con D) unit :=
  match k with
  | O => λ s, NoFuel s
  | S k' =>
      let! c := uartgetc in
      if c =? -1 then ret tt else
      do! consoleintr c in
      uartintr_loop k'
  end.
Definition uartintr : M (con D) unit :=
  do! uartintr_loop fuel in
  uartstart.

Definition consoleinit : M (con D) unit :=
  do! uartinit in
  modify (λ s, s <| connected := true |>).

End console.
