(* ===== verification/ConsoleSpec.v ===== *)
(** * The console as a line discipline

    Typed characters are edited in a line and become readable when the line
    ends: the abstract state is the readable bytes and the line being edited.
    [consoleintr] and [consoleread] of [console.c] on the ring [cons.buf] are
    shown to refine it, for every sequence of interrupts and reads. *)

From S2P Require Import Prelude.
From S2P Require Import Machine.
From S2P Require Import Console.
#[local] Open Scope Z_scope.

(** ** The abstract line discipline *)

Record line := mk_line { a_ready : list Z; a_edit : list Z }.

Definition a_erase : list Z := [8; 32; 8].

(** A typed character, and what is echoed for it. *)
Definition a_intr (c : Z) (l : line) : line :=
  if c =? ctrl_P then l
  else if c =? ctrl_U then mk_line (a_ready l) []
  else if (c =? ctrl_H) || (c =? DEL) then mk_line (a_ready l) (removelast (a_edit l))
  else if negb (c =? 0) && (Z.of_nat (length (a_ready l) + length (a_edit l)) <? INPUT_BUF_SIZE) then
    let c := if c =? carriage_return then newline else c in
    let e := a_edit l ++ [u8 c] in
    if (c =? newline) || (c =? ctrl_D) || (Z.of_nat (length (a_ready l) + length e) =? INPUT_BUF_SIZE)
    then mk_line (a_ready l ++ e) []
    else mk_line (a_ready l) e
  else l.
Definition a_echo (c : Z) (l : line) : list Z :=
  if c =? ctrl_U then concat (replicate (length (a_edit l)) a_erase)
  else if (c =? ctrl_H) || (c =? DEL) then match a_edit l with [] => [] | _ => a_erase end
  else if negb (c =? 0) && (Z.of_nat (length (a_ready l) + length (a_edit l)) <? INPUT_BUF_SIZE) then
    [u8 (if c =? carriage_return then newline else c)]
  else [].

(** A read takes bytes up to and with the first newline; a control-D ends it
    and is left for the next read unless nothing was read before it. *)
Fixpoint a_read (k : nat) (target : Z) (put : Z → bool) (killed : bool) (l : list Z) : crun (list Z) * list Z :=
  match k with
  | O => (CDone target [], l)
  | S k' =>
      let n := Z.of_nat k in
      match l with
      | [] => (if killed then CDone (-1) [] else CAsleep n [], [])
      | c :: l' =>
          if c =? ctrl_D then (CDone (target - n) [], if n <? target then l else l')
          else if negb (put (target - n)) then (CDone (target - n) [], l')
          else if c =? newline then (CDone (target - (n - 1)) [c], l')
          else
            let r := a_read k' target put killed l' in
            (match r.1 with
             | CAsleep n got => CAsleep n (c :: got)
             | CDone res got => CDone res (c :: got)
             end, r.2)
      end
  end.

(** ** Pieces of the ring *)

Definition pos (x : Z) : nat := Z.to_nat (x mod INPUT_BUF_SIZE).
Definition seg (buf : list Z) (a : Z) (n : nat) : list Z := map (λ k, buf !!! pos (a + Z.of_nat k)) (seq 0 n).

Lemma pos_u32 x : pos (u32 x) = pos x.
Proof. unfold pos, u32, INPUT_BUF_SIZE. f_equal. dlia. Qed.
Lemma pos_lt x : (pos x < 128)%nat.
Proof. unfold pos, INPUT_BUF_SIZE. pose proof (Z.mod_pos_bound x 128). lia. Qed.
Lemma pos_ne a k e : 0 ≤ k < e → e < 128 → pos (a + k) ≠ pos (a + e).
Proof. unfold pos, INPUT_BUF_SIZE. intros ? ? H. apply Z2Nat.inj in H; dlia. Qed.
Lemma length_seg buf a n : length (seg buf a n) = n.
Proof. unfold seg. by rewrite length_map, length_seq. Qed.
Lemma seg_lookup buf a n k :
  seg buf a n !! k = if decide (k < n)%nat then Some (buf !!! pos (a + Z.of_nat k)) else None.
Proof.
  unfold seg. rewrite list_lookup_fmap. case_decide; [by rewrite lookup_seq_lt|by rewrite lookup_seq_ge by lia].
Qed.
Lemma seg_ext buf buf' a a' n :
  (∀ k, (k < n)%nat → buf !!! pos (a + Z.of_nat k) = buf' !!! pos (a' + Z.of_nat k)) → seg buf a n = seg buf' a' n.
Proof. intros H. apply list_eq. intros k. rewrite !seg_lookup. case_decide; [by rewrite H|done]. Qed.
Lemma seg_app buf a n m : seg buf a (n + m) = seg buf a n ++ seg buf (a + Z.of_nat n) m.
Proof.
  apply list_eq. intros k. rewrite lookup_app, !seg_lookup, length_seg. do 2 case_decide; try lia; try done.
  - rewrite decide_True by lia. do 3 f_equal. lia.
  - by rewrite decide_False by lia.
Qed.
Lemma seg_S_r buf a n : seg buf a (S n) = seg buf a n ++ [buf !!! pos (a + Z.of_nat n)].
Proof. rewrite <- Nat.add_1_r, seg_app. f_equal. unfold seg. simpl. by rewrite Z.add_0_r. Qed.
Lemma seg_S_l buf a n : seg buf a (S n) = buf !!! pos a :: seg buf (a + 1) n.
Proof. change (S n) with (1 + n)%nat. rewrite seg_app. unfold seg at 1. simpl. by rewrite Z.add_0_r. Qed.
Lemma seg_u32 buf a n : seg buf (u32 a) n = seg buf a n.
Proof.
  apply seg_ext. intros k _. f_equal. rewrite <- (pos_u32 (a + _)), <- (pos_u32 (u32 a + _)). f_equal. unfold u32. dlia.
Qed.
Lemma seg_insert buf a n e v :
  (∀ k, (k < n)%nat → pos (a + Z.of_nat k) ≠ pos e) → seg (<[pos e := v]> buf) a n = seg buf a n.
Proof. intros H. apply seg_ext. intros k Hk. apply list_lookup_total_insert_ne. apply not_eq_sym, H, Hk. Qed.

(** ** The console in the ring *)

Section console_spec.
Context {D : Type} `{!UartDev D}.
Implicit Types (s : con D).

Definition n_ready s : Z := u32 (cons_w s - cons_r s).
Definition n_edit s : Z := u32 (cons_e s - cons_w s).
Definition ready_of s : list Z := seg (cbuf s) (cons_r s) (Z.to_nat (n_ready s)).
Definition edit_of s : list Z := seg (cbuf s) (cons_w s) (Z.to_nat (n_edit s)).

Record ring_ok s : Prop := {
  co_len : length (cbuf s) = 128%nat;
  co_r : 0 ≤ cons_r s < 2 ^ 32;
  co_w : 0 ≤ cons_w s < 2 ^ 32;
  co_e : 0 ≤ cons_e s < 2 ^ 32;
  co_fit : n_ready s + n_edit s ≤ INPUT_BUF_SIZE
}.
(** The line being edited has no newline. *)
Record cons_ok s : Prop := {
  co_ring : ring_ok s;
  co_line : Forall (λ c, c ≠ newline) (edit_of s)
}.
Definition cons_rep s (l : line) : Prop := cons_ok s ∧ ready_of s = a_ready l ∧ edit_of s = a_edit l.

Lemma n_ranges s : 0 ≤ n_ready s < 2 ^ 32 ∧ 0 ≤ n_edit s < 2 ^ 32.
Proof. split; apply u32_range. Qed.
Lemma total_used s : ring_ok s → u32 (cons_e s - cons_r s) = n_ready s + n_edit s.
Proof.
  intros [_ Hr Hw He Hf]. unfold n_ready, n_edit, INPUT_BUF_SIZE, u32 in *. dlia.
Qed.
Lemma rep_used s l : cons_rep s l → u32 (cons_e s - cons_r s) = Z.of_nat (length (a_ready l) + length (a_edit l)).
Proof.
  intros (Hok & <- & <-). rewrite (total_used s (co_ring _ Hok)). unfold ready_of, edit_of. rewrite !length_seg.
  pose proof (n_ranges s). lia.
Qed.
Lemma edit_empty s l : cons_rep s l → (cons_e s =? cons_w s) = match a_edit l with [] => true | _ => false end.
Proof.
  intros (Hok & _ & <-). pose proof (co_w _ (co_ring _ Hok)). pose proof (co_e _ (co_ring _ Hok)). unfold edit_of, n_edit.
  destruct (Z.eqb_spec (cons_e s) (cons_w s)) as [E|N].
  - rewrite E, Z.sub_diag. done.
  - assert (0 < u32 (cons_e s - cons_w s)) by (unfold u32; dlia).
    destruct (Z.to_nat (u32 (cons_e s - cons_w s))) eqn:E; [lia|]. done.
Qed.
Lemma ready_empty s l : cons_rep s l → (cons_r s =? cons_w s) = match a_ready l with [] => true | _ => false end.
Proof.
  intros (Hok & <- & _). pose proof (co_w _ (co_ring _ Hok)). pose proof (co_r _ (co_ring _ Hok)). unfold ready_of, n_ready.
  destruct (Z.eqb_spec (cons_r s) (cons_w s)) as [E|N].
  - rewrite E, Z.sub_diag. done.
  - assert (0 < u32 (cons_w s - cons_r s)) by (unfold u32; dlia).
    destruct (Z.to_nat (u32 (cons_w s - cons_r s))) eqn:E; [lia|]. done.
Qed.

(** States with the same ring. *)
Definition same_ring s s' : Prop :=
  cbuf s' = cbuf s ∧ cons_r s' = cons_r s ∧ cons_w s' = cons_w s ∧ cons_e s' = cons_e s ∧ panicked s' = panicked s.
Lemma same_ring_refl s : same_ring s s.
Proof. done. Qed.
Lemma same_ring_trans s1 s2 s3 : same_ring s1 s2 → same_ring s2 s3 → same_ring s1 s3.
Proof. intros (? & ? & ? & ? & ?) (? & ? & ? & ? & ?). split_and!; congruence. Qed.
Lemma rep_same_ring s s' l : same_ring s s' → cons_rep s l → cons_rep s' l.
Proof.
  intros (E1 & E2 & E3 & E4 & _) ([[H1 H2 H3 H4 H5] H6] & Hr & He).
  assert (ready_of s' = ready_of s ∧ edit_of s' = edit_of s ∧ n_ready s' = n_ready s ∧ n_edit s' = n_edit s) as (Er & Ee & Nr & Ne).
  { unfold ready_of, edit_of, n_ready, n_edit. by rewrite E1, E2, E3, E4. }
  split; [split; [split; congruence|by rewrite Ee]|]. by rewrite Er, Ee.
Qed.

(** Erasing the last character of the line. *)
Lemma rep_erase s l :
  cons_rep s l → a_edit l ≠ [] →
  cbuf s !!! pos (u32 (cons_e s - 1)) ≠ newline ∧
  cons_rep (s <| cons_e := u32 (cons_e s - 1) |>) (mk_line (a_ready l) (removelast (a_edit l))).
Proof.
  intros (Hok & Hr & He) Hne. pose proof Hok as [[H1 H2 H3 H4 H5] H6]. set (s' := s <| cons_e := _ |>).
  assert (n_edit s' = n_edit s - 1 ∧ 0 < n_edit s) as [En Hp].
  { assert (cons_e s ≠ cons_w s) as Hn.
    { intros E. apply Hne. rewrite <- He. unfold edit_of, n_edit. by rewrite E, Z.sub_diag. }
    unfold n_edit, s', u32 in *. simpl. dlia. }
  assert (edit_of s = edit_of s' ++ [cbuf s !!! pos (cons_w s + Z.of_nat (Z.to_nat (n_edit s')))]) as Ee.
  { unfold edit_of. rewrite <- seg_S_r. f_equal. lia. }
  assert (edit_of s' = removelast (a_edit l)) as Ee' by (rewrite <- He, Ee; symmetry; apply removelast_last).
  rewrite Ee in H6. apply Forall_app in H6 as [H6 H7]. split.
  { apply Forall_cons_1 in H7 as [H7 _]. rewrite Z2Nat.id in H7 by lia.
    replace (pos (u32 (cons_e s - 1))) with (pos (cons_w s + n_edit s')); [done|].
    rewrite <- pos_u32. f_equal. rewrite En. unfold n_edit, u32. dlia. }
  split; [|by split]. split; [split; try done|done].
  - apply u32_range.
  - rewrite En. change (n_ready s') with (n_ready s). lia.
Qed.

(** Appending a character to the line. *)
Lemma rep_push s l c :
  cons_rep s l → Z.of_nat (length (a_ready l) + length (a_edit l)) < INPUT_BUF_SIZE →
  let s' := (s <| cbuf := <[pos (cons_e s) := u8 c]> (cbuf s) |>) <| cons_e := u32 (cons_e s + 1) |> in
  ready_of s' = a_ready l ∧ edit_of s' = a_edit l ++ [u8 c] ∧ n_ready s' = n_ready s ∧ n_edit s' = n_edit s + 1.
Proof.
  intros R Hlt s'. pose proof (rep_used s l R) as Hu. pose proof R as (Hok & Hr & He).
  pose proof Hok as [[H1 H2 H3 H4 H5] H6]. pose proof (n_ranges s) as [[? ?] [? ?]]. unfold INPUT_BUF_SIZE in *.
  rewrite <- Hu, (total_used s (co_ring _ Hok)) in Hlt.
  assert (n_edit s' = n_edit s + 1) as En by (unfold n_edit, n_ready, s', u32 in *; simpl; dlia).
  assert (pos (cons_e s) = pos (cons_r s + (n_ready s + n_edit s))) as Ep.
  { rewrite <- (pos_u32 (cons_r s + _)). f_equal. rewrite <- (total_used s (co_ring _ Hok)). unfold u32. dlia. }
  assert (pos (cons_e s) = pos (cons_w s + n_edit s)) as Ew.
  { rewrite <- (pos_u32 (cons_w s + _)). f_equal. unfold n_edit, u32. dlia. }
  split; [|split; [|done]].
  - rewrite <- Hr. unfold ready_of. change (n_ready s') with (n_ready s). apply seg_insert. intros k Hk.
    rewrite Ep. apply pos_ne; lia.
  - rewrite <- He. unfold edit_of. rewrite En. replace (Z.to_nat (n_edit s + 1)) with (S (Z.to_nat (n_edit s))) by lia.
    rewrite seg_S_r. change (cons_w s') with (cons_w s). change (cbuf s') with (<[pos (cons_e s) := u8 c]> (cbuf s)).
    f_equal.
    + apply seg_insert. intros k Hk. rewrite Ew. apply pos_ne; lia.
    + rewrite Z2Nat.id, <- Ew by lia. rewrite list_lookup_total_insert_eq; [done|]. rewrite H1. apply pos_lt.
Qed.

(** The line becomes readable. *)
Lemma rep_commit s : ring_ok s → cons_rep (s <| cons_w := cons_e s |>) (mk_line (ready_of s ++ edit_of s) []).
Proof.
  intros Hok. pose proof Hok as [H1 H2 H3 H4 H5]. pose proof (total_used s Hok) as Ht. pose proof (n_ranges s) as [[? ?] [? ?]].
  set (s' := s <| cons_w := cons_e s |>).
  assert (n_ready s' = n_ready s + n_edit s ∧ n_edit s' = 0) as [Nr Ne].
  { split; [exact Ht|]. unfold n_edit, s'. simpl. by rewrite Z.sub_diag. }
  assert (ready_of s' = ready_of s ++ edit_of s) as Er.
  { unfold ready_of, edit_of. rewrite Nr, Z2Nat.inj_add, seg_app by lia. f_equal.
    change (cbuf s') with (cbuf s). change (cons_r s') with (cons_r s). rewrite Z2Nat.id by lia.
    rewrite <- (seg_u32 _ (cons_r s + n_ready s)). f_equal. unfold n_ready, u32. dlia. }
  assert (edit_of s' = []) as Ee by (unfold edit_of; by rewrite Ne).
  split; [|by split]. split; [split; try done; lia|by rewrite Ee].
Qed.

(** Taking the first readable byte. *)
Lemma rep_take s l c rest :
  cons_rep s l → a_ready l = c :: rest →
  cbuf s !!! pos (cons_r s) = c ∧ cons_rep (s <| cons_r := u32 (cons_r s + 1) |>) (mk_line rest (a_edit l)).
Proof.
  intros (Hok & Hr & He) E. pose proof Hok as [[H1 H2 H3 H4 H5] H6]. pose proof (n_ranges s) as [[? ?] [? ?]].
  set (s' := s <| cons_r := _ |>).
  assert (Z.to_nat (n_ready s) = S (length rest)) as Hn.
  { change (S (length rest)) with (length (c :: rest)). rewrite <- E, <- Hr. symmetry. apply length_seg. }
  assert (n_ready s' = n_ready s - 1) as Nr.
  { unfold n_ready, s', u32, INPUT_BUF_SIZE in *. simpl. dlia. }
  assert (c :: rest = cbuf s !!! pos (cons_r s) :: ready_of s') as Eq.
  { rewrite <- E, <- Hr. unfold ready_of. rewrite Nr, Hn, seg_S_l. f_equal.
    change (cons_r s') with (u32 (cons_r s + 1)). rewrite seg_u32. f_equal. lia. }
  injection Eq as Ec Er. split; [done|]. split; [|by split]. split; [split; try done|done].
  - apply u32_range.
  - rewrite Nr. change (n_edit s') with (n_edit s). lia.
Qed.

(** ** The routines *)

(** Within [n] reads of the line status the device is ready to send. *)
Fixpoint idles (n : nat) (d : D) : Prop :=
  match n with
  | O => False
  | S n' => let r := read_reg LSR d in Z.land (u8 r.1) LSR_TX_IDLE ≠ 0 ∨ idles n' r.2
  end.

Context (procdump : M (con D) unit) (fuel : nat).
Hypothesis device_idles : ∀ d, idles fuel d.
Hypothesis procdump_prints : ∀ s, panicked s = false → ∃ s', procdump s = Ret tt s' ∧ same_ring s s'.

Lemma wait_idle_spec n s (Q : unit → con D → Prop) :
  idles n (dev s) → (∀ d, Q tt (s <| dev := d |>)) → wp (wait_idle n) Q s.
Proof.
  revert s. induction n as [|n IH]; intros s Hi HQ; [done|]. cbn [wait_idle]. unfold wp, bind, ReadReg. simpl in Hi.
  destruct (Z.eqb_spec (Z.land (u8 (read_reg LSR (dev s)).1) LSR_TX_IDLE) 0) as [E|N]; [|apply HQ].
  destruct Hi as [?|Hi]; [done|]. apply IH; [exact Hi|]. intros d. apply HQ.
Qed.

Lemma uartputc_sync_spec c s (Q : unit → con D → Prop) :
  panicked s = false → (∀ s', same_ring s s' → sent s' = sent s ++ [u8 c] → Q tt s') →
  wp (uartputc_sync fuel c) Q s.
Proof.
  intros Hp HQ. unfold uartputc_sync. apply wp_bind. unfold check_panicked, wp at 1. rewrite Hp.
  apply wp_bind. apply wait_idle_spec; [apply device_idles|]. intros d. apply wp_modify. by apply HQ.
Qed.

Definition putc_bytes (c : Z) : list Z := if c =? BACKSPACE then a_erase else [u8 c].
Lemma consputc_spec c s (Q : unit → con D → Prop) :
  panicked s = false → (∀ s', same_ring s s' → sent s' = sent s ++ putc_bytes c → Q tt s') → wp (consputc fuel c) Q s.
Proof.
  intros Hp HQ. unfold consputc, putc_bytes in *. destruct (c =? BACKSPACE); [|by apply uartputc_sync_spec].
  apply wp_bind. apply uartputc_sync_spec; [done|]. intros s1 R1 E1. pose proof R1 as (_ & _ & _ & _ & P1).
  apply wp_bind. apply uartputc_sync_spec; [congruence|]. intros s2 R2 E2. pose proof R2 as (_ & _ & _ & _ & P2).
  apply uartputc_sync_spec; [congruence|]. intros s3 R3 E3.
  apply HQ; [by eapply same_ring_trans; [|eapply same_ring_trans]|]. by rewrite E3, E2, E1, <- !(assoc_L (++)).
Qed.

Lemma kill_line_spec n : ∀ s l,
  cons_rep s l → panicked s = false → (length (a_edit l) < n)%nat →
  wp (kill_line fuel n) (λ _ s', cons_rep s' (mk_line (a_ready l) []) ∧ panicked s' = false ∧
    sent s' = sent s ++ concat (replicate (length (a_edit l)) a_erase)) s.
Proof.
  induction n as [|n IH]; intros s l R Hp Hn; [lia|]. cbn [kill_line]. apply wp_bind. apply wp_gets. cbn [id].
  rewrite (edit_empty s l R). destruct (a_edit l) as [|x e] eqn:Ee.
  - apply wp_ret. simpl. rewrite app_nil_r. split; [|done]. by destruct l as [r e']; simpl in *; subst e'.
  - destruct (rep_erase s l R) as [Hnl R']; [by rewrite Ee|]. fold (pos (u32 (cons_e s - 1))).
    rewrite (proj2 (Z.eqb_neq _ _) Hnl). cbn [negb andb]. apply wp_bind, wp_modify. apply wp_bind.
    apply consputc_spec; [done|]. intros s1 R1 E1. pose proof R1 as (_ & _ & _ & _ & P1).
    assert (length (removelast (a_edit l)) = length e) as Hl.
    { rewrite removelast_firstn_len, Ee. rewrite length_take. simpl. lia. }
    eapply wp_mono; [|apply (IH s1 (mk_line (a_ready l) (removelast (a_edit l))))].
    + intros _ s' (H1 & H2 & H3). simpl in *. split; [done|]. split; [done|]. rewrite H3, E1, Hl. simpl.
      by rewrite <- (assoc_L (++)).
    + by eapply rep_same_ring.
    + by rewrite P1.
    + simpl in *. lia.
Qed.

Lemma consoleintr_spec c s l :
  cons_rep s l → panicked s = false → 0 ≤ c < 256 →
  wp (consoleintr procdump fuel c) (λ _ s', cons_rep s' (a_intr c l) ∧ panicked s' = false ∧
    (c ≠ ctrl_P → sent s' = sent s ++ a_echo c l)) s.
Proof.
  intros R Hp Hc. unfold consoleintr, a_intr, a_echo.
  destruct (Z.eqb_spec c ctrl_P) as [->|HP].
  { destruct (procdump_prints s Hp) as (s' & E & Rs). apply (wp_intro _ _ _ _ _ E).
    split; [by eapply rep_same_ring|]. split; [by rewrite (proj2 (proj2 (proj2 (proj2 Rs))))|done]. }
  destruct (Z.eqb_spec c ctrl_U) as [->|HU].
  { eapply wp_mono; [|apply (kill_line_spec _ s l R Hp)].
    { intros _ s' (H1 & H2 & H3). auto. }
    pose proof (rep_used s l R) as Hu. pose proof (total_used s (co_ring _ (proj1 R))) as Ht.
    pose proof (co_fit _ (co_ring _ (proj1 R))). unfold INPUT_BUF_SIZE in *. lia. }
  destruct ((c =? ctrl_H) || (c =? DEL)).
  { apply wp_bind, wp_gets. cbn [id]. rewrite (edit_empty s l R). destruct (a_edit l) as [|x e] eqn:Ee; cbn [negb].
    - apply wp_ret. rewrite app_nil_r. split; [|done]. simpl. destruct l; simpl in *. by subst.
    - destruct (rep_erase s l R) as [_ R']; [by rewrite Ee|]. rewrite Ee in R'. apply wp_bind, wp_modify.
      apply consputc_spec; [done|]. intros s1 R1 E1. split; [by eapply rep_same_ring|].
      split; [by rewrite (proj2 (proj2 (proj2 (proj2 R1))))|done]. }
  apply wp_bind, wp_gets. cbn [id]. rewrite (rep_used s l R).
  destruct (negb (c =? 0) && (Z.of_nat (length (a_ready l) + length (a_edit l)) <? INPUT_BUF_SIZE)) eqn:G.
  2:{ apply wp_ret. rewrite app_nil_r. by split_and!. }
  apply andb_true_iff in G as [_ Hlt%Z.ltb_lt]. set (c' := if c =? carriage_return then newline else c).
  assert (0 ≤ c' < 256) as Hc' by (unfold c', newline; destruct (c =? carriage_return); lia).
  assert (u8 c' = c') as Eu by (by apply u8_small).
  apply wp_bind. apply consputc_spec; [done|]. intros s1 R1 E1. pose proof (rep_same_ring _ _ _ R1 R) as Rep1.
  assert (putc_bytes c' = [u8 c']) as Epb by (unfold putc_bytes; by rewrite (proj2 (Z.eqb_neq c' BACKSPACE)) by (unfold BACKSPACE; lia)).
  rewrite Epb in E1. pose proof (proj2 (proj2 (proj2 (proj2 R1)))) as P1.
  apply wp_bind, wp_modify. destruct (rep_push s1 l c' Rep1 Hlt) as (Pr & Pe & Nr & Ne). cbv zeta in *.
  fold (pos (cons_e s1)). set (s2 := s1 <| cbuf := _ |> <| cons_e := _ |>) in *.
  assert (ring_ok s2) as Ok2.
  { pose proof (rep_used s1 l Rep1) as Hu. destruct Rep1 as ([[H1 H2 H3 H4 H5] H6] & _). rewrite total_used in Hu by done.
    split; try done; [unfold s2; simpl; by rewrite length_insert|apply u32_range|]. rewrite Nr, Ne. unfold INPUT_BUF_SIZE in *. lia. }
  assert (u32 (cons_e s2 - cons_r s2) = Z.of_nat (length (a_ready l) + length (a_edit l ++ [u8 c']))) as Eused.
  { rewrite total_used by done. rewrite <- Pr, <- Pe. unfold ready_of, edit_of. rewrite !length_seg.
    pose proof (n_ranges s2). lia. }
  apply wp_bind, wp_gets. cbn [id]. rewrite Eused. fold c'.
  destruct ((c' =? newline) || (c' =? ctrl_D) || _) eqn:G.
  - apply wp_bind, wp_modify, wp_modify. pose proof (rep_commit s2 Ok2) as Rc. rewrite Pr, Pe in Rc.
    split; [by eapply rep_same_ring; [|exact Rc]|]. split; [by transitivity (panicked s1); [|congruence]|].
    intros _. by transitivity (sent s1).
  - apply orb_false_iff in G as [[G%Z.eqb_neq _]%orb_false_iff _]. apply wp_ret.
    split; [|split; [by transitivity (panicked s1); [|congruence]|intros _; by transitivity (sent s1)]].
    split; [|by split]. split; [done|]. rewrite Pe. apply Forall_app. split; [|constructor; [by rewrite Eu|done]].
    destruct Rep1 as ([_ H6] & _ & He). by rewrite <- He.
Qed.

Lemma consoleread_spec k target put killed : ∀ s l,
  cons_rep s l → panicked s = false →
  wp (consoleread_loop k target put killed) (λ r s', r = (a_read k target put killed (a_ready l)).1 ∧
    cons_rep s' (mk_line (a_read k target put killed (a_ready l)).2 (a_edit l)) ∧ panicked s' = false ∧ sent s' = sent s) s.
Proof.
  induction k as [|k IH]; intros s l R Hp.
  { apply wp_ret. simpl. split; [done|]. destruct l. done. }
  cbn [consoleread_loop a_read]. apply wp_bind, wp_gets. cbn [id]. rewrite (ready_empty s l R).
  destruct (a_ready l) as [|c rest] eqn:Er.
  { destruct killed; apply wp_ret; (split; [done|]; split; [|done]; simpl; rewrite <- Er; by destruct l). }
  destruct (rep_take s l c rest R Er) as [Ec R']. fold (pos (cons_r s)). rewrite Ec.
  apply wp_bind, wp_modify. destruct (c =? ctrl_D).
  - apply wp_bind. destruct (_ <? target).
    + apply wp_modify, wp_ret. split; [done|]. split; [|done]. simpl. rewrite <- Er. destruct l as [r e]. simpl in *.
      eapply rep_same_ring; [|exact R]. split_and!; try done. simpl. pose proof (co_r _ (co_ring _ (proj1 R))). unfold u32. dlia.
    + apply wp_ret, wp_ret. by split_and!.
  - destruct (negb (put _)); [apply wp_ret; by split_and!|]. destruct (c =? newline); [apply wp_ret; by split_and!|].
    apply wp_bind. eapply wp_mono; [|apply (IH _ (mk_line rest (a_edit l)) R' Hp)].
    intros r s' (-> & H2 & H3 & H4). apply wp_ret. by split_and!.
Qed.

(** ** Sequences of events *)

(** An input character, or a run of a read of [n] more bytes of [target]. *)
Inductive event :=
| EIntr (c : Z)
| ERead (n target : Z) (put : Z → bool) (killed : bool).

Definition run_event (ev : event) : M (con D) (list (crun (list Z))) :=
  match ev with
  | EIntr c => do! consoleintr procdump fuel c in ret []
  | ERead n target put killed => let! r := consoleread n target put killed in ret [r]
  end.
Fixpoint run_events (evs : list event) : M (con D) (list (crun (list Z))) :=
  match evs with
  | [] => ret []
  | ev :: evs' => let! r := run_event ev in let! rs := run_events evs' in ret (r ++ rs)
  end.

Definition a_event (ev : event) (l : line) : list (crun (list Z)) * line :=
  match ev with
  | EIntr c => ([], a_intr c l)
  | ERead n target put killed =>
      if n <=? 0 then ([CDone (target - n) []], l)
      else let r := a_read (Z.to_nat n) target put killed (a_ready l) in ([r.1], mk_line r.2 (a_edit l))
  end.
Fixpoint a_events (evs : list event) (l : line) : list (crun (list Z)) * line :=
  match evs with
  | [] => ([], l)
  | ev :: evs' => let r := a_event ev l in let rs := a_events evs' r.2 in (r.1 ++ rs.1, rs.2)
  end.
(** The UART delivers bytes. *)
Definition event_ok (ev : event) : Prop := match ev with EIntr c => 0 ≤ c < 256 | _ => True end.

Lemma run_event_spec ev s l :
  cons_rep s l → panicked s = false → event_ok ev →
  wp (run_event ev) (λ r s', r = (a_event ev l).1 ∧ cons_rep s' (a_event ev l).2 ∧ panicked s' = false) s.
Proof.
  intros R Hp Hev. destruct ev as [c|n target put killed]; simpl; apply wp_bind.
  - eapply wp_mono; [|by apply (consoleintr_spec c s l)]. intros _ s' (H1 & H2 & _). by apply wp_ret.
  - unfold consoleread. destruct (n <=? 0); [by apply wp_ret, wp_ret|].
    eapply wp_mono; [|by apply (consoleread_spec (Z.to_nat n) target put killed s l)].
    intros r s' (-> & H1 & H2 & _). by apply wp_ret.
Qed.

(** C32: The console is a line discipline. Whatever characters are typed and
    whatever reads are made, in any order, each read returns or sleeps with
    exactly the bytes of the abstract discipline: characters are collected in
    a line that backspace and control-U edit, a full line becomes readable at
    its newline, at control-D, or when 128 bytes wait, further input is
    dropped until there is room, and a read gives at most one line. The ring
    indices wrap around at 2^32 without effect. Holds for a device that gets
    ready to send and a [procdump] that only prints. *)
Theorem console_line_discipline evs s l :
  cons_rep s l → panicked s = false → Forall event_ok evs →
  ∃ s', run_events evs s = Ret (a_events evs l).1 s' ∧ cons_rep s' (a_events evs l).2.
Proof.
  intros R Hp Hev. revert s l R Hp. induction Hev as [|ev evs H _ IH]; intros s l R Hp; [by exists s|].
  simpl. destruct (wp_elim _ _ _ (run_event_spec ev s l R Hp H)) as (r & s1 & E & -> & R1 & Hp1).
  rewrite (bind_eq _ _ _ _ _ E). destruct (IH s1 _ R1 Hp1) as (s2 & E2 & R2). rewrite (bind_eq _ _ _ _ _ E2). by exists s2.
Qed.
End console_spec.

(** A device that is always ready, and a console after boot. *)
#[local] Instance demo_uart : UartDev unit := {| read_reg := λ _ d, (LSR_TX_IDLE, d); write_reg := λ _ _ d, d |}.
Definition demo_con (i : Z) : con unit :=
  mk_con unit (replicate 128 0) i i i (replicate 32 0) 0 0 false true tt [] [].
(** "ab", delete, "c", return, with the indices about to wrap around. *)
Definition demo_typing : list event :=
  map EIntr [97; 98; 127; 99; 13] ++ [ERead 10 10 (λ _, true) false; ERead 10 10 (λ _, true) false].

Lemma console_line_discipline_witness :
  ∃ s', run_events (ret tt) 1 demo_typing (demo_con (2 ^ 32 - 2)) =
    Ret [CDone 3 [97; 99; 10]; CAsleep 10 []] s' ∧ cons_rep s' (mk_line [] []).
Proof.
  refine (console_line_discipline (D := unit) (ret tt) 1 _ _ demo_typing (demo_con (2 ^ 32 - 2)) (mk_line [] []) _ _ _).
  - intros []. left. discriminate.
  - intros s Hs. exists s. split; [reflexivity|apply same_ring_refl].
  - split; [|split; reflexivity]. split; [|constructor].
    split; [reflexivity|simpl; lia|simpl; lia|simpl; lia|vm_compute; discriminate].
  - reflexivity.
  - repeat (constructor; [simpl; lia || exact I|]). constructor.
Defined.
