(* ===== verification/Fs.v ===== *)
(** * The file system ([kernel/fs.c])

    Blocks, inodes, directories and path names over the log. An inode pointer
    is an index of [itable.inode], [None] the null pointer. The other side of
    a transfer is an argument: [readi] delivers the bytes and is told how many of
    them each [either_copyout] stores, [writei] is given what each
    [either_copyin] fetches, which on failure may be a part of what was asked
    for. *)

From S2P Require Import Prelude.
From S2P Require Import Machine.
From S2P Require Import KString.
From S2P Require Import Printf.
From S2P Require Import Bio.
From S2P Require Import BioSpec.
From S2P Require Import Log.
#[local] Open Scope Z_scope.

(** ** fs.h, file.h, stat.h *)

Definition ROOTINO : Z := 1.
Definition FSMAGIC : Z := 0x10203040.
Definition NDIRECT : nat := 12.
Definition NINDIRECT : Z := BSIZE / 4.
Definition MAXFILE : Z := Z.of_nat NDIRECT + NINDIRECT.
Definition IPB : Z := BSIZE / 64.
Definition BPB : Z := BSIZE * 8.
Definition DIRSIZ : nat := 14.
Definition sizeof_dirent : Z := 16.
Definition T_DIR : Z := 1.
Definition T_FILE : Z := 2.
Definition T_DEVICE : Z := 3.

Definition IBLOCK (i : Z) (sb : superblock) : Z := u32 (i / IPB + sb_inodestart sb).
Definition BBLOCK (b : Z) (sb : superblock) : Z := u32 (b / BPB + sb_bmapstart sb).

Definition get16 (d : list Z) (off : nat) : Z := le_value (take 2 (drop off d)).
Definition put16 (d : list Z) (off : nat) (v : Z) : list Z := take off d ++ le_bytes 2 v ++ drop (off + 2) d.

Record dinode := mk_dinode {
  d_type : Z;
  d_major : Z;
  d_minor : Z;
  d_nlink : Z;
  d_size : Z;
  d_addrs : list Z
}.

(** [struct dinode] at [off] of a block: 64 bytes. *)
Definition get_dinode (d : list Z) (off : nat) : dinode :=
  mk_dinode (s16 (get16 d off)) (s16 (get16 d (off + 2))) (s16 (get16 d (off + 4)))
    (s16 (get16 d (off + 6))) (get32 d (off + 8))
    (map (λ i, get32 d (off + 12 + 4 * i)) (seq 0 (NDIRECT + 1))).
Definition put_addrs (d : list Z) (off : nat) (addrs : list Z) : list Z :=
  fold_left (λ d i, put32 d (off + 4 * i) (addrs !!! i)) (seq 0 (NDIRECT + 1)) d.
Definition put_dinode (d : list Z) (off : nat) (x : dinode) : list Z :=
  let d := put16 d off (d_type x) in
  let d := put16 d (off + 2) (d_major x) in
  let d := put16 d (off + 4) (d_minor x) in
  let d := put16 d (off + 6) (d_nlink x) in
  let d := put32 d (off + 8) (d_size x) in
  put_addrs d (off + 12) (d_addrs x).

Record inode := mk_inode {
  i_dev : Z;
  inum : Z;
  i_ref : Z;
  i_lock : sleeplock;
  i_valid : bool;
  i_type : Z;
  i_major : Z;
  i_minor : Z;
  nlink : Z;
  i_size : Z;
  addrs : list Z
}.
#[export] Instance inode_eta : Settable inode := λ i,
  mk_inode (i_dev i) (inum i) (i_ref i) (i_lock i) (i_valid i) (i_type i) (i_major i) (i_minor i)
    (nlink i) (i_size i) (addrs i).
Definition zero_inode : inode :=
  mk_inode 0 0 0 (mk_sleeplock false 0) false 0 0 0 0 0 (replicate (NDIRECT + 1) 0).
#[export] Instance inode_inhabited : Inhabited inode := populate zero_inode.

Record stat := mk_stat { st_dev : Z; st_ino : Z; st_type : Z; st_nlink : Z; st_size : Z }.

(** [fpid] is [myproc()->pid], [fcwd] is [myproc()->cwd]; [iwoken] lists the
    inode locks [wakeup] was called on, [fout] is what was printed. *)
Record fsst {S : Type} := mk_fsst {
  flog : log S;
  sb : superblock;
  inodes : list inode;
  fpid : Z;
  fcwd : nat;
  iwoken : list nat;
  fout : list Z
}.
Arguments fsst : clear implicits.
#[export] Instance fsst_eta {S} : Settable (fsst S) := λ s,
  mk_fsst S (flog s) (sb s) (inodes s) (fpid s) (fcwd s) (iwoken s) (fout s).

Section fs.
Context {S : Type} `{!BufOps S}.
Implicit Types (s : fsst S).

Definition with_log {A} (m : M (log S) A) : M (fsst S) A := lift flog (λ l s, s <| flog := l |>) m.

(** The buffer cache and the log, from here. *)
Definition fs_bread (dev bno : Z) : M (fsst S) nat := with_log (with_cache (bc_read dev (u32 bno))).
Definition fs_data (b : nat) : M (fsst S) (list Z) := with_log (with_cache (bc_data b)).
Definition fs_set (b : nat) (d : list Z) : M (fsst S) unit := with_log (with_cache (bc_set b d)).
Definition fs_log_write (b : nat) : M (fsst S) unit := with_log (log_write b).
Definition fs_brelse (b : nat) : M (fsst S) unit := with_log (with_cache (bc_release b)).

Definition geti (i : nat) : M (fsst S) inode := gets (λ s, inodes s !!! i).
Definition seti (i : nat) (f : inode → inode) : M (fsst S) unit :=
  modify (λ s, s <| inodes := alter f i (inodes s) |>).
Definition fprintf (fmt : string) : M (fsst S) unit :=
  modify (λ s, s <| fout := fout s ++ default [] (printf fmt []) |>).

(** ** Super block *)

Definition get_superblock (d : list Z) : superblock :=
  mk_superblock (get32 d 0) (get32 d 4) (get32 d 8) (get32 d 12) (get32 d 16) (get32 d 20)
    (get32 d 24) (get32 d 28).
Definition readsb (dev : Z) : M (fsst S) unit :=
  let! bp := fs_bread dev 1 in
  let! d := fs_data bp in
  do! modify (λ s, s <| sb := get_superblock d |>) in
  fs_brelse bp.

Definition fsinit (dev : Z) : M (fsst S) unit :=
  do! readsb dev in
  let! b := gets sb in
  if negb (sb_magic b =? FSMAGIC) then panic "invalid file system" else
  with_log (initlog dev b).

(** ** Blocks *)

Definition bzero (dev bno : Z) : M (fsst S) unit :=
  let! bp := fs_bread dev bno in
  do! fs_set bp (replicate (Z.to_nat BSIZE) 0) in
  do! fs_log_write bp in
  fs_brelse bp.

(** Bit [bi] of a bitmap block, and setting or clearing it. *)
Definition bit_set (d : list Z) (bi : Z) : bool :=
  negb (Z.land (d !!! Z.to_nat (bi / 8)) (Z.shiftl 1 (bi mod 8)) =? 0).
Definition mark_bit (d : list Z) (bi : Z) : list Z :=
  alter (λ x, u8 (Z.lor x (Z.shiftl 1 (bi mod 8)))) (Z.to_nat (bi / 8)) d.
Definition clear_bit (d : list Z) (bi : Z) : list Z :=
  alter (λ x, u8 (Z.land x (Z.lnot (Z.shiftl 1 (bi mod 8))))) (Z.to_nat (bi / 8)) d.

(** The inner loop of [balloc]: the first clear bit [bi < BPB] with
    [b + bi < size]. *)
Definition free_bit (d : list Z) (b size : Z) : option Z :=
  find (λ bi, negb (bit_set d bi)) (map Z.of_nat (seq 0 (Z.to_nat (Z.min BPB (size - b))))).

(** [for(b = 0; b < sb.size; b += BPB)]. *)
Definition bitmap_starts (size : Z) : list Z :=
  map (λ k, BPB * Z.of_nat k) (seq 0 (Z.to_nat ((size + BPB - 1) / BPB))).

Definition balloc_scan (dev b : Z) : M (fsst S) (option Z) :=
  let! sb := gets sb in
  let! bp := fs_bread dev (BBLOCK b sb) in
  let! d := fs_data bp in
  match free_bit d b (sb_size sb) with
  | Some bi =>
      do! fs_set bp (mark_bit d bi) in
      do! fs_log_write bp in
      do! fs_brelse bp in
      do! bzero dev (b + bi) in
      ret (Some (b + bi))
  | None =>
      do! fs_brelse bp in
      ret None
  end.
Definition balloc (dev : Z) : M (fsst S) Z :=
  let! sb := gets sb in
  let! r := for_until (bitmap_starts (sb_size sb)) (balloc_scan dev) in
  match r with
  | Some b => ret b
  | None => do! fprintf ("balloc: out of blocks" +:+ String (Ascii.ascii_of_nat 10) EmptyString) in ret 0
  end.

Definition bfree (dev b : Z) : M (fsst S) unit :=
  let! sb := gets sb in
  let! bp := fs_bread dev (BBLOCK b sb) in
  let bi := b mod BPB in
  let! d := fs_data bp in
  if negb (bit_set d bi) then panic "freeing free block" else
  do! fs_set bp (clear_bit d bi) in
  do! fs_log_write bp in
  fs_brelse bp.

(** ** Inodes *)

(** Sleep locks of inodes. *)
Definition iacquiresleep (i : nat) : M (fsst S) unit :=
  let! x := geti i in
  if sl_locked (i_lock x) then sleeps (Z.of_nat i) else
  let! me := gets fpid in
  seti i (λ x, x <| i_lock := mk_sleeplock true me |>).
Definition ireleasesleep (i : nat) : M (fsst S) unit :=
  do! seti i (λ x, x <| i_lock := mk_sleeplock false 0 |>) in
  modify (λ s, s <| iwoken := iwoken s ++ [i] |>).
Definition iholdingsleep (i : nat) : M (fsst S) bool :=
  let! x := geti i in
  let! me := gets fpid in
  ret (sl_locked (i_lock x) && (sl_pid (i_lock x) =? me)).

Definition inode_slots : list nat := seq 0 (Z.to_nat NINODE).

Definition iinit : M (fsst S) unit :=
  for_each inode_slots (λ i, seti i (λ x, x <| i_lock := mk_sleeplock false 0 |>)).

(** The scan of [iget]: the entry of the inode, or the first free one. *)
Fixpoint iget_scan (l : list nat) (dev ino : Z) (empty : option nat) : M (fsst S) (nat + option nat) :=
  match l with
  | [] => ret (inr empty)
  | i :: l' =>
      let! x := geti i in
      if (0 <? i_ref x) && (i_dev x =? dev) && (inum x =? ino) then ret (inl i)
      else iget_scan l' dev ino
             (match empty with None => if i_ref x =? 0 then Some i else None | Some _ => empty end)
  end.
Definition iget (dev ino : Z) : M (fsst S) nat :=
  let! r := iget_scan inode_slots dev ino None in
  match r with
  | inl i =>
      do! seti i (λ x, x <| i_ref := s32 (i_ref x + 1) |>) in
      ret i
  | inr None => panic "iget: no inodes"
  | inr (Some i) =>
      do! seti i (λ x, (((x <| i_dev := dev |>) <| inum := ino |>) <| i_ref := 1 |>) <| i_valid := false |>) in
      ret i
  end.

Definition dinode_off (ino : Z) : nat := Z.to_nat (64 * (ino mod IPB)).

Definition ialloc (dev type : Z) : M (fsst S) (option nat) :=
  let! sb := gets sb in
  let! r := for_until (seq 1 (Z.to_nat (sb_ninodes sb - 1))) (λ k,
    let ino := Z.of_nat k in
    let! bp := fs_bread dev (IBLOCK ino sb) in
    let! d := fs_data bp in
    if s16 (get16 d (dinode_off ino)) =? 0 then
      let d := put_dinode d (dinode_off ino) (mk_dinode 0 0 0 0 0 (replicate (NDIRECT + 1) 0)) in
      do! fs_set bp (put16 d (dinode_off ino) type) in
      do! fs_log_write bp in
      do! fs_brelse bp in
      let! i := iget dev ino in
      ret (Some i)
    else
      do! fs_brelse bp in
      ret None) in
  match r with
  | Some i => ret (Some i)
  | None => do! fprintf ("ialloc: no inodes" +:+ String (Ascii.ascii_of_nat 10) EmptyString) in ret None
  end.

Definition dinode_of (x : inode) : dinode :=
  mk_dinode (i_type x) (i_major x) (i_minor x) (nlink x) (i_size x) (addrs x).

Definition iupdate (i : nat) : M (fsst S) unit :=
  let! x := geti i in
  let! sb := gets sb in
  let! bp := fs_bread (i_dev x) (IBLOCK (inum x) sb) in
  let! d := fs_data bp in
  do! fs_set bp (put_dinode d (dinode_off (inum x)) (dinode_of x)) in
  do! fs_log_write bp in
  fs_brelse bp.

Definition idup (i : nat) : M (fsst S) nat :=
  do! seti i (λ x, x <| i_ref := s32 (i_ref x + 1) |>) in
  ret i.

Definition load_dinode (y : dinode) (x : inode) : inode :=
  (((((x <| i_type := d_type y |>) <| i_major := d_major y |>) <| i_minor := d_minor y |>)
    <| nlink := d_nlink y |>) <| i_size := d_size y |>) <| addrs := d_addrs y |>.

Definition ilock (ip : option nat) : M (fsst S) unit :=
  match ip with
  | None => panic "ilock"
  | Some i =>
      let! x := geti i in
      if i_ref x <? 1 then panic "ilock" else
      do! iacquiresleep i in
      let! x := geti i in
      if i_valid x then ret tt else
      let! sb := gets sb in
      let! bp := fs_bread (i_dev x) (IBLOCK (inum x) sb) in
      let! d := fs_data bp in
      do! seti i (load_dinode (get_dinode d (dinode_off (inum x)))) in
      do! fs_brelse bp in
      do! seti i (λ x, x <| i_valid := true |>) in
      let! x := geti i in
      if i_type x =? 0 then panic "ilock: no type" else ret tt
  end.

Definition iunlock (ip : option nat) : M (fsst S) unit :=
  match ip with
  | None => panic "iunlock"
  | Some i =>
      let! h := iholdingsleep i in
      let! x := geti i in
      if negb h || (i_ref x <? 1) then panic "iunlock" else
      ireleasesleep i
  end.

(** ** Inode content *)

Definition bmap (i : nat) (bn : Z) : M (fsst S) Z :=
  let! x := geti i in
  if bn <? Z.of_nat NDIRECT then
    let addr := addrs x !!! Z.to_nat bn in
    if addr =? 0 then
      let! addr := balloc (i_dev x) in
      if addr =? 0 then ret 0 else
      do! seti i (λ x, x <| addrs := <[Z.to_nat bn := addr]> (addrs x) |>) in
      ret addr
    else ret addr
  else
  let bn := bn - Z.of_nat NDIRECT in
  if bn <? NINDIRECT then
    let! addr :=
      (if addrs x !!! NDIRECT =? 0 then
         let! addr := balloc (i_dev x) in
         if addr =? 0 then ret 0 else
         do! seti i (λ x, x <| addrs := <[NDIRECT := addr]> (addrs x) |>) in
         ret addr
       else ret (addrs x !!! NDIRECT)) in
    if addr =? 0 then ret 0 else
    let! bp := fs_bread (i_dev x) addr in
    let! a := fs_data bp in
    let! addr :=
      (if get32 a (4 * Z.to_nat bn) =? 0 then
         let! addr := balloc (i_dev x) in
         if addr =? 0 then ret 0 else
         let! a := fs_data bp in
         do! fs_set bp (put32 a (4 * Z.to_nat bn) addr) in
         do! fs_log_write bp in
         ret addr
       else ret (get32 a (4 * Z.to_nat bn))) in
    do! fs_brelse bp in
    ret addr
  else panic "bmap: out of range".

Definition itrunc (i : nat) : M (fsst S) unit :=
  do! for_each (seq 0 NDIRECT) (λ k,
    let! x := geti i in
    if addrs x !!! k =? 0 then ret tt else
    do! bfree (i_dev x) (addrs x !!! k) in
    seti i (λ x, x <| addrs := <[k := 0]> (addrs x) |>)) in
  let! x := geti i in
  do! (if addrs x !!! NDIRECT =? 0 then ret tt else
       let! bp := fs_bread (i_dev x) (addrs x !!! NDIRECT) in
       do! for_each (seq 0 (Z.to_nat NINDIRECT)) (λ j,
         let! a := fs_data bp in
         if get32 a (4 * j) =? 0 then ret tt else bfree (i_dev x) (get32 a (4 * j))) in
       do! fs_brelse bp in
       do! bfree (i_dev x) (addrs x !!! NDIRECT) in
       seti i (λ x, x <| addrs := <[NDIRECT := 0]> (addrs x) |>)) in
  do! seti i (λ x, x <| i_size := 0 |>) in
  iupdate i.

Definition iput (i : nat) : M (fsst S) unit :=
  let! x := geti i in
  do! (if (i_ref x =? 1) && i_valid x && (nlink x =? 0) then
         do! iacquiresleep i in
         do! itrunc i in
         do! seti i (λ x, x <| i_type := 0 |>) in
         do! iupdate i in
         do! seti i (λ x, x <| i_valid := false |>) in
         ireleasesleep i
       else ret tt) in
  seti i (λ x, x <| i_ref := s32 (i_ref x - 1) |>).

Definition iunlockput (i : nat) : M (fsst S) unit :=
  do! iunlock (Some i) in
  iput i.

Definition stati (i : nat) : M (fsst S) stat :=
  let! x := geti i in
  ret (mk_stat (s32 (i_dev x)) (inum x) (i_type x) (nlink x) (i_size x)).

(** [put tot m] is how many of [m] bytes [either_copyout] stores from
    [dst + tot] on, all of them if it succeeds. The result is the value of
    [tot] and the bytes delivered. *)
Fixpoint readi_loop (fuel : nat) (i : nat) (put : Z → Z → Z) (tot off n : Z) : M (fsst S) (Z * list Z) :=
  match fuel with
  | O => λ s, NoFuel s
  | Datatypes.S fuel' =>
      if tot <? n then
        let! addr := bmap i (off / BSIZE) in
        if addr =? 0 then ret (tot, []) else
        let! x := geti i in
        let! bp := fs_bread (i_dev x) addr in
        let m := Z.min (n - tot) (BSIZE - off mod BSIZE) in
        let! d := fs_data bp in
        do! fs_brelse bp in
        let data := take (Z.to_nat m) (drop (Z.to_nat (off mod BSIZE)) d) in
        if put tot m =? m then
          let! r := readi_loop fuel' i put (tot + m) (off + m) n in
          ret (r.1, data ++ r.2)
        else ret (-1, take (Z.to_nat (put tot m)) data)
      else ret (tot, [])
  end.
(** Blocks touched by [n] bytes, and one more turn to leave the loop. *)
Definition blocks_fuel (n : Z) : nat := Z.to_nat (n / BSIZE + 3).
Definition readi (i : nat) (put : Z → Z → Z) (off n : Z) : M (fsst S) (Z * list Z) :=
  let! x := geti i in
  if (i_size x <? off) || (u32 (off + n) <? off) then ret (0, []) else
  let n := if i_size x <? u32 (off + n) then i_size x - off else n in
  readi_loop (blocks_fuel n) i put 0 off n.

Definition splice (d : list Z) (pos : nat) (bs : list Z) : list Z :=
  take pos d ++ bs ++ drop (pos + length bs) d.

(** [fetch tot m] is whether [either_copyin] of [m] bytes from [src + tot]
    succeeds and the bytes it stored. *)
Fixpoint writei_loop (fuel : nat) (i : nat) (fetch : Z → Z → bool * list Z) (tot off n : Z)
    : M (fsst S) (Z * Z) :=
  match fuel with
  | O => λ s, NoFuel s
  | Datatypes.S fuel' =>
      if tot <? n then
        let! addr := bmap i (off / BSIZE) in
        if addr =? 0 then ret (tot, off) else
        let! x := geti i in
        let! bp := fs_bread (i_dev x) addr in
        let m := Z.min (n - tot) (BSIZE - off mod BSIZE) in
        let got := fetch tot m in
        let! d := fs_data bp in
        do! fs_set bp (splice d (Z.to_nat (off mod BSIZE)) (take (Z.to_nat m) got.2)) in
        if got.1 then
          do! fs_log_write bp in
          do! fs_brelse bp in
          writei_loop fuel' i fetch (tot + m) (off + m) n
        else
          do! fs_brelse bp in
          ret (tot, off)
      else ret (tot, off)
  end.
Definition writei (i : nat) (fetch : Z → Z → bool * list Z) (off n : Z) : M (fsst S) Z :=
  let! x := geti i in
  if (i_size x <? off) || (u32 (off + n) <? off) then ret (-1) else
  if MAXFILE * BSIZE <? u32 (off + n) then ret (-1) else
  let! r := writei_loop (blocks_fuel n) i fetch 0 off n in
  do! seti i (λ x, if i_size x <? r.2 then x <| i_size := r.2 |> else x) in
  do! iupdate i in
  ret r.1.

(** Transfers to and from kernel memory always succeed. *)
Definition kernel_dst : Z → Z → Z := λ _ m, m.
Definition kernel_src (bs : list Z) : Z → Z → bool * list Z :=
  λ tot m, (true, take (Z.to_nat m) (drop (Z.to_nat tot) bs)).

(** ** Directories *)

(** [strncmp(s, t, DIRSIZ)], with the two arrays in a scratch memory. *)
Definition namecmp (s t : list Z) : Z :=
  strncmp (store_bytes (store_bytes ∅ 0 s) 4096 t) 0 4096 (Z.of_nat DIRSIZ).
(** [strncpy(de.name, name, DIRSIZ)] into an array of [DIRSIZ] bytes. *)
Definition strncpy_name (name : list Z) : list Z :=
  load_bytes DIRSIZ (strncpy (store_bytes ∅ 4096 name) 0 4096 (Z.of_nat DIRSIZ)) 0.

(** [struct dirent]. *)
Definition de_inum (de : list Z) : Z := get16 de 0.
Definition de_name (de : list Z) : list Z := take DIRSIZ (drop 2 de).
Definition mk_dirent (ino : Z) (name : list Z) : list Z := le_bytes 2 ino ++ name.

Definition dirent_offsets (size : Z) : list Z :=
  map (λ k, sizeof_dirent * Z.of_nat k) (seq 0 (Z.to_nat ((size + sizeof_dirent - 1) / sizeof_dirent))).

(** The result is the inode found and the offset of its entry. *)
Definition dirlookup (dp : nat) (name : list Z) : M (fsst S) (option (nat * Z)) :=
  let! x := geti dp in
  if negb (i_type x =? T_DIR) then panic "dirlookup not DIR" else
  for_until (dirent_offsets (i_size x)) (λ off,
    let! r := readi dp kernel_dst off sizeof_dirent in
    if negb (r.1 =? sizeof_dirent) then panic "dirlookup read" else
    if de_inum r.2 =? 0 then ret None else
    if namecmp name (de_name r.2) =? 0 then
      let! i := iget (i_dev x) (de_inum r.2) in
      ret (Some (i, off))
    else ret None).

Definition dirlink (dp : nat) (name : list Z) (ino : Z) : M (fsst S) Z :=
  let! r := dirlookup dp name in
  match r with
  | Some (i, _) => do! iput i in ret (-1)
  | None =>
      let! x := geti dp in
      let! r := for_until (dirent_offsets (i_size x)) (λ off,
        let! r := readi dp kernel_dst off sizeof_dirent in
        if negb (r.1 =? sizeof_dirent) then panic "dirlink read" else
        if de_inum r.2 =? 0 then ret (Some off) else ret None) in
      let off := match r with
                 | Some off => off
                 | None => sizeof_dirent * ((i_size x + sizeof_dirent - 1) / sizeof_dirent)
                 end in
      let! n := writei dp (kernel_src (mk_dirent ino (strncpy_name name))) off sizeof_dirent in
      if negb (n =? sizeof_dirent) then ret (-1) else ret 0
  end.

(** ** Paths *)

(** A path is the bytes of a C string before its terminating 0. *)
Fixpoint skip_slashes (path : list Z) : list Z :=
  match path with
  | c :: path' => if c =? 47 then skip_slashes path' else path
  | [] => []
  end.
Fixpoint take_elem (path : list Z) : list Z * list Z :=
  match path with
  | c :: path' => if c =? 47 then ([], path) else let r := take_elem path' in (c :: r.1, r.2)
  | [] => ([], [])
  end.
(** The element goes into [name], an array of [DIRSIZ] bytes. *)
Definition store_elem (s name : list Z) : list Z :=
  if (DIRSIZ <=? length s)%nat then take DIRSIZ s
  else s ++ [0] ++ drop (length s + 1) name.
Definition skipelem (path name : list Z) : option (list Z * list Z) :=
  let path := skip_slashes path in
  match path with
  | [] => None
  | _ =>
      let r := take_elem path in
      Some (skip_slashes r.2, store_elem r.1 name)
  end.

(** [while((path = skipelem(path, name)) != 0)]; the result is the inode and
    the last [name]. *)
Fixpoint namex_loop (fuel : nat) (i : nat) (path : list Z) (parent : bool) (name : list Z)
    : M (fsst S) (option nat * list Z) :=
  match fuel with
  | O => λ s, NoFuel s
  | Datatypes.S fuel' =>
      match skipelem path name with
      | None =>
          if parent then do! iput i in ret (None, name)
          else ret (Some i, name)
      | Some (path, name) =>
          do! ilock (Some i) in
          let! x := geti i in
          if negb (i_type x =? T_DIR) then
            do! iunlockput i in ret (None, name)
          else if parent && (match path with [] => true | _ => false end) then
            do! iunlock (Some i) in ret (Some i, name)
          else
            let! r := dirlookup i name in
            match r with
            | None => do! iunlockput i in ret (None, name)
            | Some (next, _) =>
                do! iunlockput i in
                namex_loop fuel' next path parent name
            end
      end
  end.
Definition namex (path : list Z) (parent : bool) (name : list Z) : M (fsst S) (option nat * list Z) :=
  let! i := (match path with
             | c :: _ => if c =? 47 then iget ROOTDEV ROOTINO else let! c := gets fcwd in idup c
             | [] => let! c := gets fcwd in idup c
             end) in
  namex_loop (Datatypes.S (length path)) i path parent name.

(** [char name[DIRSIZ]] on the stack holds arbitrary bytes [junk]. *)
Definition namei (path junk : list Z) : M (fsst S) (option nat) :=
  let! r := namex path false junk in
  ret r.1.
Definition nameiparent (path name : list Z) : M (fsst S) (option nat * list Z) :=
  namex path true name.

End fs.
