(* ===== verification/FsPath.v ===== *)
(** * Path names

    [skipelem] of [fs.c] against the list of components of a path: the
    non-empty pieces between slashes. *)

From S2P Require Import Prelude.
From S2P Require Import Printf.
From S2P Require Import Fs.
#[local] Open Scope Z_scope.

Definition slash : Z := 47.

Fixpoint split (path : list Z) : list (list Z) :=
  match path with
  | [] => [[]]
  | c :: path' =>
      if c =? slash then [] :: split path'
      else match split path' with
           | e :: es => (c :: e) :: es
           | [] => [[c]]
           end
  end.
Definition components (path : list Z) : list (list Z) := filter (λ e, e ≠ []) (split path).

(** The C string in a name array: the bytes before its first 0, all of them
    when there is none. *)
Fixpoint cname (name : list Z) : list Z :=
  match name with
  | [] => []
  | c :: name' => if c =? 0 then [] else c :: cname name'
  end.

(** The names found by [while((path = skipelem(path, name)) != 0)], the loop
    of [namex]. *)
Fixpoint elems (fuel : nat) (path name : list Z) : option (list (list Z)) :=
  match fuel with
  | O => None
  | S fuel' =>
      match skipelem path name with
      | None => Some []
      | Some (path', name') => option_map (cons (cname name')) (elems fuel' path' name')
      end
  end.

Lemma components_slash path : components (slash :: path) = components path.
Proof. reflexivity. Qed.
Lemma components_skip path : components (skip_slashes path) = components path.
Proof.
  induction path as [|c path IH]; [done|]. simpl skip_slashes. destruct (Z.eqb_spec c 47) as [->|]; [|done].
  by rewrite IH, components_slash.
Qed.
Lemma split_take path :
  split path = (take_elem path).1 :: match (take_elem path).2 with [] => [] | _ :: rest => split rest end.
Proof.
  induction path as [|c path IH]; [done|]. simpl. unfold slash. destruct (c =? 47); [done|].
  rewrite IH. done.
Qed.
(** What is left after an element is empty or starts at a slash. *)
Lemma take_elem_rest path : components (take_elem path).2 = components (match (take_elem path).2 with [] => [] | _ :: r => r end).
Proof.
  induction path as [|c path IH]; [done|]. simpl. destruct (Z.eqb_spec c 47) as [->|]; [|exact IH].
  apply components_slash.
Qed.
Lemma components_elem path :
  (take_elem path).1 ≠ [] → components path = (take_elem path).1 :: components (take_elem path).2.
Proof.
  intros Hne. rewrite take_elem_rest. unfold components at 1. rewrite split_take, filter_cons_True by done.
  by destruct (take_elem path).2.
Qed.

Lemma skip_head path c rest : skip_slashes path = c :: rest → c ≠ 47.
Proof.
  induction path as [|x path IH]; [done|]. simpl. destruct (Z.eqb_spec x 47); [exact IH|]. by intros [= -> _].
Qed.
Lemma components_nil path : components path = [] → skip_slashes path = [].
Proof.
  rewrite <- components_skip. destruct (skip_slashes path) as [|c rest] eqn:E; [done|].
  apply skip_head in E. rewrite components_elem; [done|]. simpl. by destruct (Z.eqb_spec c 47).
Qed.

Lemma take_elem_app path : path = (take_elem path).1 ++ (take_elem path).2.
Proof. induction path as [|c path IH]; [done|]. simpl. destruct (c =? 47); [done|]. simpl. by rewrite <- IH. Qed.
Lemma skip_length path : (length (skip_slashes path) ≤ length path)%nat.
Proof. induction path as [|c path IH]; [done|]. simpl. destruct (c =? 47); simpl; lia. Qed.
Lemma skip_forall (P : Z → Prop) path : Forall P path → Forall P (skip_slashes path).
Proof. induction 1 as [|c path Hc Hp IH]; [done|]. simpl. destruct (c =? 47); [exact IH|]. by constructor. Qed.

Lemma cname_id e : Forall (λ c, c ≠ 0) e → cname e = e.
Proof. induction 1 as [|c e Hc _ IH]; [done|]. simpl. rewrite (proj2 (Z.eqb_neq c 0) Hc). by rewrite IH. Qed.
Lemma cname_zero e rest : Forall (λ c, c ≠ 0) e → cname (e ++ 0 :: rest) = e.
Proof. induction 1 as [|c e Hc _ IH]; [done|]. simpl. rewrite (proj2 (Z.eqb_neq c 0) Hc). by rewrite IH. Qed.

Lemma store_elem_name e name :
  Forall (λ c, c ≠ 0) e → length name = DIRSIZ →
  cname (store_elem e name) = take DIRSIZ e ∧ length (store_elem e name) = DIRSIZ.
Proof.
  intros He Hn. unfold store_elem. destruct (Nat.leb_spec DIRSIZ (length e)) as [Hl|Hl].
  - split; [by apply cname_id, Forall_take|]. rewrite length_take. lia.
  - split; [rewrite take_ge by lia; by apply cname_zero|]. rewrite !length_app, length_drop. simpl. lia.
Qed.

(** One call of [skipelem]. *)
Lemma skipelem_step path name :
  Forall (λ c, c ≠ 0) path → length name = DIRSIZ →
  match skipelem path name with
  | None => components path = []
  | Some (path', name') => ∃ e, components path = e :: components path' ∧ cname name' = take DIRSIZ e ∧
      length name' = DIRSIZ ∧ (path' = [] ↔ components path' = []) ∧
      Forall (λ c, c ≠ 0) path' ∧ (length path' < length path)%nat
  end.
Proof.
  intros Hp Hn. unfold skipelem.
  assert (Forall (λ c, c ≠ 0) (skip_slashes path) ∧ (length (skip_slashes path) ≤ length path)%nat) as [Hs Hle].
  { split; [by apply skip_forall|apply skip_length]. }
  rewrite <- (components_skip path). destruct (skip_slashes path) as [|c rest] eqn:E; [done|].
  apply skip_head in E. set (p := c :: rest) in *.
  assert ((take_elem p).1 ≠ []) as Hne by (simpl; by destruct (Z.eqb_spec c 47)).
  exists (take_elem p).1. rewrite components_skip, components_elem by done.
  pose proof (take_elem_app p) as Ea. rewrite Ea in Hs. apply Forall_app in Hs as [H1 H2].
  destruct (store_elem_name _ name H1 Hn) as [Hc Hl]. split; [done|]. split; [done|]. split; [done|].
  split; [|split].
  - split; [|by intros H%components_nil]. intros H. by rewrite <- components_skip, H.
  - by apply skip_forall.
  - pose proof (skip_length (take_elem p).2). apply (f_equal length) in Ea. rewrite length_app in Ea.
    destruct (take_elem p).1; [done|]. simpl in Ea, Hle. unfold p in *. simpl in *. lia.
Qed.

(** The loop of [namex] visits the components of the path: calling
    [skipelem] until it returns 0 delivers in [name], one after the other and
    whatever [name] held before, the non-empty pieces of the path between
    slashes, each cut to [DIRSIZ] = 14 bytes, and ends within one call per
    byte of the path. What is left of the path is empty exactly after the last
    component, the test by which [nameiparent] stops one level early. *)
Theorem path_components path name :
  Forall (λ c, c ≠ 0) path → length name = DIRSIZ →
  elems (S (length path)) path name = Some (map (take DIRSIZ) (components path)) ∧
  ∀ path' name', skipelem path name = Some (path', name') → (path' = [] ↔ length (components path) = 1%nat).
Proof.
  intros Hp Hn. split.
  - enough (∀ fuel, (length path < fuel)%nat → elems fuel path name = Some (map (take DIRSIZ) (components path)))
      by (apply H; lia).
    intros fuel. revert path name Hp Hn. induction fuel as [|fuel IH]; intros path name Hp Hn Hf; [lia|].
    simpl. pose proof (skipelem_step path name Hp Hn) as H. destruct (skipelem path name) as [[path' name']|].
    + destruct H as (e & -> & Hc & Hl & _ & Hp' & Hlt). rewrite IH by (done || lia). simpl. by rewrite Hc.
    + by rewrite H.
  - intros path' name' E. pose proof (skipelem_step path name Hp Hn) as H. rewrite E in H.
    destruct H as (e & -> & _ & _ & -> & _). simpl. destruct (components path'); split; naive_solver.
Qed.

Lemma path_components_witness :
  elems 28 (bytes "///a//bb/averylongfilename1"%string) (replicate 14 255) =
    Some [bytes "a"%string; bytes "bb"%string; bytes "averylongfilen"%string].
Proof.
  set (path := bytes "///a//bb/averylongfilename1"%string).
  assert (Forall (λ c, c ≠ 0) path) as Hp by (repeat (constructor; [discriminate|]); constructor).
  exact (proj1 (path_components path (replicate 14 255) Hp eq_refl)).
Defined.
