(* ===== verification/FsInode.v ===== *)
(** * The inode on disk

    [struct dinode] laid out in the bytes of a block: storing and loading. *)

From S2P Require Import Prelude.
From S2P Require Import Machine.
From S2P Require Import Log.
From S2P Require Import LogSpec.
From S2P Require Import Fs.
#[local] Open Scope Z_scope.

(** ** Replacing bytes of a block *)

Definition slice (n off : nat) (d : list Z) : list Z := take n (drop off d).

Lemma length_splice y pos z : (pos + length z ≤ length y)%nat → length (splice y pos z) = length y.
Proof. intros. unfold splice. rewrite !length_app, length_take, length_drop. lia. Qed.
Lemma splice_lookup_opt y pos z (k : nat) :
  (pos + length z ≤ length y)%nat →
  splice y pos z !! k = if decide (pos ≤ k < pos + length z)%nat then z !! (k - pos)%nat else y !! k.
Proof.
  intros H. unfold splice. case_decide as Hk.
  - rewrite lookup_app_r by (rewrite length_take; lia). rewrite length_take, lookup_app_l by lia.
    by replace (k - pos `min` length y)%nat with (k - pos)%nat by lia.
  - destruct (decide (k < pos)%nat).
    + rewrite lookup_app_l by (rewrite length_take; lia). by rewrite lookup_take_lt by lia.
    + rewrite lookup_app_r by (rewrite length_take; lia). rewrite length_take, lookup_app_r, lookup_drop by lia.
      by replace (pos + length z + (k - pos `min` length y - length z))%nat with k by lia.
Qed.
Lemma splice_lookup y pos z (k : nat) :
  (pos + length z ≤ length y)%nat →
  splice y pos z !!! k = if decide (pos ≤ k < pos + length z)%nat then z !!! (k - pos)%nat else y !!! k.
Proof. intros H. rewrite !list_lookup_total_alt, splice_lookup_opt by done. by case_decide. Qed.

Lemma slice_splice_eq y pos z n : length z = n → (pos + n ≤ length y)%nat → slice n pos (splice y pos z) = z.
Proof.
  intros <- H. unfold slice, splice. rewrite drop_app_length' by (rewrite length_take; lia). by rewrite take_app_length.
Qed.
Lemma slice_splice_ne y pos z n off :
  (pos + length z ≤ length y)%nat → (off + n ≤ pos ∨ pos + length z ≤ off)%nat → slice n off (splice y pos z) = slice n off y.
Proof.
  intros H Hd. apply list_eq. intros k. unfold slice. destruct (decide (k < n)%nat) as [Hk|Hk].
  - rewrite !lookup_take_lt, !lookup_drop, splice_lookup_opt by lia. by rewrite decide_False by lia.
  - by rewrite !lookup_take_ge by lia.
Qed.

Lemma put16_splice d off v : put16 d off v = splice d off (le_bytes 2 v).
Proof. reflexivity. Qed.
Lemma put32_splice d off v : put32 d off v = splice d off (le_bytes 4 v).
Proof. reflexivity. Qed.
Lemma get16_slice d off : get16 d off = le_value (slice 2 off d).
Proof. reflexivity. Qed.
Lemma get32_slice d off : get32 d off = le_value (slice 4 off d).
Proof. reflexivity. Qed.

(** ** The block addresses *)

Lemma put_addrs_fold (addrs : list Z) off k : ∀ m d,
  (off + 4 * (m + k) ≤ length d)%nat →
  let d' := fold_left (λ d i, put32 d (off + 4 * i) (addrs !!! i)) (seq m k) d in
  length d' = length d ∧
  (∀ j, (m ≤ j < m + k)%nat → get32 d' (off + 4 * j) = u32 (addrs !!! j)) ∧
  (∀ n p, (p + n ≤ off + 4 * m ∨ off + 4 * (m + k) ≤ p)%nat → slice n p d' = slice n p d).
Proof.
  induction k as [|k IH]; intros m d Hl; cbn [seq fold_left]; [split; [done|]; split; [lia|done]|].
  set (d1 := put32 d (off + 4 * m) (addrs !!! m)).
  assert (length d1 = length d) as L1 by (apply length_put32; lia).
  destruct (IH (S m) d1 ltac:(lia)) as (H1 & H2 & H3). split; [congruence|]. split.
  - intros j Hj. destruct (decide (j = m)) as [->|]; [|apply H2; lia].
    rewrite get32_slice, H3, <- get32_slice by lia. apply get_put32_eq. lia.
  - intros n p Hp. rewrite H3 by lia. unfold d1. rewrite put32_splice.
    apply slice_splice_ne; rewrite length_le_bytes; lia.
Qed.

(** ** The whole inode *)

Definition dinode_ok (x : dinode) : Prop :=
  -2 ^ 15 ≤ d_type x < 2 ^ 15 ∧ -2 ^ 15 ≤ d_major x < 2 ^ 15 ∧ -2 ^ 15 ≤ d_minor x < 2 ^ 15 ∧
  -2 ^ 15 ≤ d_nlink x < 2 ^ 15 ∧ 0 ≤ d_size x < 2 ^ 32 ∧
  length (d_addrs x) = (NDIRECT + 1)%nat ∧ Forall (λ a, 0 ≤ a < 2 ^ 32) (d_addrs x).

Lemma s16_le v : -2 ^ 15 ≤ v < 2 ^ 15 → s16 (le_value (le_bytes 2 v)) = v.
Proof. intros. rewrite le_value_le_bytes. change (256 ^ Z.of_nat 2) with 65536. unfold s16. simpl. dlia. Qed.

Lemma put_dinode_spec d off x :
  (off + 64 ≤ length d)%nat →
  let d' := put_dinode d off x in
  length d' = length d ∧
  (dinode_ok x → get_dinode d' off = x) ∧
  (∀ n p, (p + n ≤ off ∨ off + 64 ≤ p)%nat → slice n p d' = slice n p d).
Proof.
  intros Hl. unfold put_dinode, put_addrs. rewrite !put16_splice, put32_splice.
  set (d1 := splice d off _). set (d2 := splice d1 _ _). set (d3 := splice d2 _ _). set (d4 := splice d3 _ _).
  set (d5 := splice d4 _ _).
  assert (length d1 = length d) as L1 by (apply length_splice; rewrite length_le_bytes; lia).
  assert (length d2 = length d) as L2 by (unfold d2; rewrite length_splice; rewrite ?length_le_bytes; lia).
  assert (length d3 = length d) as L3 by (unfold d3; rewrite length_splice; rewrite ?length_le_bytes; lia).
  assert (length d4 = length d) as L4 by (unfold d4; rewrite length_splice; rewrite ?length_le_bytes; lia).
  assert (length d5 = length d) as L5 by (unfold d5; rewrite length_splice; rewrite ?length_le_bytes; lia).
  destruct (put_addrs_fold (d_addrs x) (off + 12) (NDIRECT + 1) 0 d5) as (F1 & F2 & F3); [unfold NDIRECT; lia|].
  set (d6 := fold_left _ _ d5) in *. split; [congruence|]. split.
  - intros (R1 & R2 & R3 & R4 & R5 & R6 & R7). unfold get_dinode. rewrite !get16_slice, get32_slice.
    rewrite !F3 by (unfold NDIRECT; lia).
    assert (slice 4 (off + 8) d5 = le_bytes 4 (d_size x)) as -> by (apply slice_splice_eq; [apply length_le_bytes|lia]).
    unfold d5. rewrite !(slice_splice_ne d4) by (rewrite length_le_bytes; lia).
    assert (slice 2 (off + 6) d4 = le_bytes 2 (d_nlink x)) as -> by (apply slice_splice_eq; [apply length_le_bytes|lia]).
    unfold d4. rewrite !(slice_splice_ne d3) by (rewrite length_le_bytes; lia).
    assert (slice 2 (off + 4) d3 = le_bytes 2 (d_minor x)) as -> by (apply slice_splice_eq; [apply length_le_bytes|lia]).
    unfold d3. rewrite !(slice_splice_ne d2) by (rewrite length_le_bytes; lia).
    assert (slice 2 (off + 2) d2 = le_bytes 2 (d_major x)) as -> by (apply slice_splice_eq; [apply length_le_bytes|lia]).
    unfold d2. rewrite !(slice_splice_ne d1) by (rewrite length_le_bytes; lia).
    assert (slice 2 off d1 = le_bytes 2 (d_type x)) as -> by (apply slice_splice_eq; [apply length_le_bytes|lia]).
    rewrite !s16_le by done. rewrite le_value_le_bytes. change (256 ^ Z.of_nat 4) with (2 ^ 32). rewrite Z.mod_small by done.
    assert (map (λ i, get32 d6 (off + 12 + 4 * i)) (seq 0 (NDIRECT + 1)) = d_addrs x) as ->; [|by destruct x].
    apply list_eq. intros j. rewrite list_lookup_fmap. destruct (decide (j < NDIRECT + 1)%nat) as [Hj|Hj].
    + rewrite lookup_seq_lt by done. change (0 + j)%nat with j. cbn [fmap option_fmap option_map]. rewrite F2 by lia.
      destruct (lookup_lt_is_Some_2 (d_addrs x) j ltac:(lia)) as [a Ha]. rewrite Ha, (list_lookup_total_correct _ _ _ Ha).
      f_equal. apply u32_small. by apply (Forall_lookup_1 _ _ _ _ R7 Ha).
    + rewrite lookup_seq_ge by lia. symmetry. apply lookup_ge_None. lia.
  - intros n p Hp. rewrite F3 by (unfold NDIRECT; lia).
    unfold d5. rewrite slice_splice_ne by (rewrite length_le_bytes; lia).
    unfold d4. rewrite slice_splice_ne by (rewrite length_le_bytes; lia).
    unfold d3. rewrite slice_splice_ne by (rewrite length_le_bytes; lia).
    unfold d2. rewrite slice_splice_ne by (rewrite length_le_bytes; lia).
    apply slice_splice_ne; rewrite length_le_bytes; lia.
Qed.
