(* ===== verification/FsSpec.v ===== *)
(** * File-system operations as changes of blocks

    Inside an operation ([begin_op] ... [end_op]) the blocks in use are those
    of the transaction and those whose buffers the caller holds. [tx] describes
    such a state by the contents of all blocks; the routines of [fs.c] that
    change blocks are rules that move between such descriptions. *)

From S2P Require Import Prelude.
From S2P Require Import Machine.
From S2P Require Import Printf.
From S2P Require Import Bio.
From S2P Require Import BioSpec.
From S2P Require Import Log.
From S2P Require Import LogSpec.
From S2P Require Import LogThms.
From S2P Require Import Fs.
#[local] Open Scope Z_scope.

Section fs_spec.
Context {S : Type} `{!BufOps S} `{!BufLaws S}.
Implicit Types (s : fsst S) (a : acache) (bs : list Z) (hm : gmap Z nat) (c : Z → list Z).

(** In a transaction on the blocks [bs], with the buffers [hm] held: the only
    uses of blocks are the log's pins and the caller's. Without [w] no operation
    needs to be in progress, and nothing can be written. *)
Record pinned {w : bool} (dev : Z) s a bs hm : Prop := {
  pn_rep : lrep (flog s) a;
  pn_dev : l_dev (flog s) = dev;
  pn_lists : lists (flog s) bs;
  pn_out : w = true → 1 ≤ outstanding (flog s);
  pn_held : aheld a = hm;
  pn_ref : ∀ x, ref a x = (if decide (x ∈ bs) then 1 else 0) + (if decide (is_Some (hm !! x)) then 1 else 0)
}.
(** [c] are the contents of the blocks as seen through the cache, [d] those of
    the disk. *)
Definition txw {w : bool} (dev : Z) s bs hm c d : Prop := ∃ a, pinned (w := w) dev s a bs hm ∧ acontent a = c ∧ adisk a = d.
Notation tx := (txw (w := true)).

Definition add_block (bno : Z) bs : list Z := if decide (bno ∈ bs) then bs else bs ++ [bno].

(** The log stays where it is, and no operation begins or ends. *)
Definition same_log (l l' : log S) : Prop :=
  l_start l' = l_start l ∧ l_size l' = l_size l ∧ outstanding l' = outstanding l ∧ committing l' = committing l.
(** Only the log and the cache moved. *)
Definition moves s s' : Prop :=
  s' = s <| flog := flog s' |> ∧ same_log (flog s) (flog s').

Lemma same_log_refl l : same_log l l.
Proof. done. Qed.
Lemma same_log_trans l1 l2 l3 : same_log l1 l2 → same_log l2 l3 → same_log l1 l3.
Proof. intros (? & ? & ? & ?) (? & ? & ? & ?). split_and!; congruence. Qed.
Lemma same_log_in l l' x : same_log l l' → in_log l' x ↔ in_log l x.
Proof. intros (H1 & H2 & _). unfold in_log. by rewrite H1, H2. Qed.

Lemma moves_refl s : moves s s.
Proof. by destruct s. Qed.
Lemma moves_trans s1 s2 s3 : moves s1 s2 → moves s2 s3 → moves s1 s3.
Proof. intros (E1 & H1) (E2 & H2). split; [|by eapply same_log_trans]. rewrite E2, E1. done. Qed.
Lemma moves_log s l : same_log (flog s) l → moves s (s <| flog := l |>).
Proof. by intros. Qed.
Lemma moves_in_log s s' x : moves s s' → in_log (flog s') x ↔ in_log (flog s) x.
Proof. intros (_ & H). by apply same_log_in. Qed.
Lemma moves_size s s' : moves s s' → l_size (flog s') = l_size (flog s).
Proof. intros (_ & H). apply H. Qed.
Lemma moves_sb s s' : moves s s' → sb s' = sb s ∧ inodes s' = inodes s ∧ fout s' = fout s.
Proof. intros (-> & _). done. Qed.

Lemma pinned_dom {w} dev s a bs hm : pinned (w := w) dev s a bs hm → dom (aref a) = list_to_set bs ∪ dom hm.
Proof.
  intros P. pose proof (bc_ok _ _ _ (pn_rep _ _ _ _ _ P)) as Ha. apply set_eq. intros x.
  rewrite elem_of_dom, (ref_pos _ _ Ha), (pn_ref _ _ _ _ _ P), elem_of_union, elem_of_list_to_set, elem_of_dom.
  destruct (decide (x ∈ bs)), (decide (is_Some (hm !! x))); split; intros; try lia; tauto.
Qed.
Lemma pinned_size {w} dev s a bs hm : pinned (w := w) dev s a bs hm → (size (aref a) ≤ length bs + size hm)%nat.
Proof.
  intros P. rewrite <- size_dom, (pinned_dom _ _ _ _ _ P), <- (size_dom (D := gset Z) hm).
  rewrite <- (size_list_to_set (C := gset Z) bs (ls_nodup _ _ (pn_lists _ _ _ _ _ P))).
  rewrite size_union_alt. assert (dom hm ∖ list_to_set bs ⊆ dom hm) as Hs%subseteq_size by (by apply subseteq_difference_l). lia.
Qed.

Lemma block_ref_read bno b a x : ref (a_read bno b a) x = if decide (x = bno) then ref a bno + 1 else ref a x.
Proof. exact (ref_set bno (ref a bno + 1) a x). Qed.
Lemma block_ref_release bno a x : ref (a_release bno a) x = if decide (x = bno) then ref a bno - 1 else ref a x.
Proof. exact (ref_set bno (ref a bno - 1) a x). Qed.
Lemma ref_pin bno a x : ref (a_pin bno a) x = if decide (x = bno) then ref a bno + 1 else ref a x.
Proof. exact (ref_set bno (ref a bno + 1) a x). Qed.

Lemma tx_len {w} dev s bs hm c d x : txw (w := w) dev s bs hm c d → length (c x) = Z.to_nat BSIZE.
Proof. intros (a & P & <- & _). eapply ok_len, bc_ok, (pn_rep _ _ _ _ _ P). Qed.
(** A block that is not in the transaction and not held is as on disk. *)
Lemma tx_clean {w} dev s bs hm c d x : txw (w := w) dev s bs hm c d → x ∉ bs → hm !! x = None → c x = d x.
Proof.
  intros (a & P & <- & <-) Hx Hh. pose proof (bc_ok _ _ _ (pn_rep _ _ _ _ _ P)) as Ha. apply (ok_clean _ Ha).
  destruct (aref a !! x) as [n|] eqn:E; [|done]. pose proof (ok_pos _ Ha _ _ E).
  pose proof (pn_ref _ _ _ _ _ P x) as Hr. unfold ref in Hr. rewrite E, !decide_False in Hr by (done || by rewrite Hh; intros []). simpl in Hr. lia.
Qed.
Lemma tx_fit {w} dev s bs hm c d : txw (w := w) dev s bs hm c d → Z.of_nat (length bs) < l_size (flog s) ≤ 30.
Proof. intros (a & P & _). apply (ls_fit _ _ (pn_lists _ _ _ _ _ P)). Qed.

Lemma tx_flog {w} dev s s' bs hm c d : flog s' = flog s → txw (w := w) dev s bs hm c d → txw (w := w) dev s' bs hm c d.
Proof. intros E (a & [? ? ? ? ? ?] & ? & ?). exists a. split; [by split; rewrite ?E|done]. Qed.

Lemma tx_bread {w} dev s bs hm c d bno (Q : nat → fsst S → Prop) :
  txw (w := w) dev s bs hm c d → 0 ≤ bno < 2 ^ 32 → hm !! bno = None → (length bs + size hm < 30)%nat →
  (∀ b s', moves s s' → txw (w := w) dev s' bs (<[bno := b]> hm) c d → Q b s') → wp (fs_bread dev bno) Q s.
Proof.
  intros (a & P & <- & <-) Hb Hh Hroom HQ. unfold fs_bread. rewrite (u32_small bno) by done. apply wp_lift, wp_lift.
  pose proof P as [R Hd Hls Ho Ehm Hr]. unfold lrep in R. rewrite Hd in R.
  pose proof (Hr bno) as Hrb. rewrite (decide_False (P := is_Some (hm !! bno))) in Hrb by (rewrite Hh; by intros []).
  eapply wp_mono; [|apply (bc_read_law dev _ a bno R)].
  - intros b l R'. apply HQ; [by apply moves_log|]. exists (a_read bno b a). split; [|done].
    split; simpl; [unfold lrep; simpl; by rewrite Hd|done|by apply lists_cache|done|by rewrite Ehm|].
    intros x. rewrite block_ref_read. destruct (decide (x = bno)) as [->|Hne].
    + rewrite (decide_True (P := is_Some _)) by (rewrite lookup_insert_eq; by eexists). lia.
    + by rewrite lookup_insert_ne, Hr by done.
  - by rewrite Ehm.
  - destruct (decide (bno ∈ bs)); lia.
  - right. pose proof (pinned_size _ _ _ _ _ P). unfold nbuf. lia.
Qed.

Lemma tx_data {w} dev s bs hm c d bno b (Q : list Z → fsst S → Prop) :
  txw (w := w) dev s bs hm c d → hm !! bno = Some b → Q (c bno) s → wp (fs_data b) Q s.
Proof.
  intros (a & P & <- & <-) Hh HQ. unfold fs_data. apply wp_lift.
  eapply wp_data; [apply (pn_rep _ _ _ _ _ P)|rewrite (pn_held _ _ _ _ _ P); exact Hh|]. by destruct s.
Qed.

Lemma tx_set {w} dev s bs hm c d bno b y (Q : unit → fsst S → Prop) :
  txw (w := w) dev s bs hm c d → hm !! bno = Some b → length y = Z.to_nat BSIZE →
  (∀ s', moves s s' → txw (w := w) dev s' bs hm (fset bno y c) d → Q tt s') → wp (fs_set b y) Q s.
Proof.
  intros (a & P & <- & <-) Hh Hd HQ. unfold fs_set. apply wp_lift. pose proof P as [R H1 H2 H3 H4 H5].
  eapply wp_cache; [eapply bc_set_law; [exact R|by rewrite H4|done]|].
  intros l R'. apply HQ; [by apply moves_log|]. exists (a_set bno y a). split; [|done].
  split; [exact R'|done|by apply lists_cache|done|done|done].
Qed.

Lemma tx_log_write dev s bs hm c d bno b (Q : unit → fsst S → Prop) :
  tx dev s bs hm c d → hm !! bno = Some b → 0 ≤ bno < 2 ^ 32 → ¬ in_log (flog s) bno →
  Z.of_nat (length bs) < l_size (flog s) - 1 →
  (∀ s', moves s s' → tx dev s' (add_block bno bs) hm c d → Q tt s') → wp (fs_log_write b) Q s.
Proof.
  intros (a & P & <- & <-) Hh Hb Hout Hsp HQ. pose proof P as [R Hd Hls Ho Ehm Hr]. unfold fs_log_write.
  apply wp_lift. pose proof (Hr bno) as Hrb. rewrite (decide_True (P := is_Some (hm !! bno))) in Hrb by (by eexists).
  assert (ref a bno + 1 < 2 ^ 31) as Hlt by (destruct (decide (bno ∈ bs)); lia).
  pose proof (log_write_spec _ (flog s) a bs bno b R eq_refl Hls ltac:(by rewrite Ehm) Hb Hout Hlt) as W.
  unfold wp. destruct (log_write b (flog s)) as [u l|m l|ch l|l] eqn:E; [|lia|done|done].
  destruct u. destruct W as (_ & _ & Wo & Wc & Wl & Ws & Wd & W). apply HQ; [by apply moves_log|]. unfold add_block.
  destruct (decide (bno ∈ bs)) as [Hin|Hin]; destruct W as [W1 W2].
  - exists a. split; [|done]. split; simpl; [unfold lrep; by rewrite Wd|congruence|done|intros _; specialize (Ho eq_refl); lia|done|done].
  - exists (a_pin bno a). split; [|done]. split; simpl; [unfold lrep; by rewrite Wd|congruence|done|intros _; specialize (Ho eq_refl); lia|done|].
    intros x. rewrite ref_pin. destruct (decide (x = bno)) as [->|Hne].
    + rewrite decide_True by (rewrite elem_of_app; right; by left). rewrite (decide_True (P := is_Some _)) by (by eexists). lia.
    + rewrite Hr. f_equal. apply decide_ext. rewrite elem_of_app, list_elem_of_singleton. tauto.
Qed.

Lemma tx_release {w} dev s bs hm c d bno b (Q : unit → fsst S → Prop) :
  txw (w := w) dev s bs hm c d → hm !! bno = Some b → (bno ∉ bs → c bno = d bno) →
  (∀ s', moves s s' → txw (w := w) dev s' bs (delete bno hm) c d → Q tt s') → wp (fs_brelse b) Q s.
Proof.
  intros (a & P & <- & <-) Hh Hcl HQ. pose proof P as [R Hd Hls Ho Ehm Hr]. unfold fs_brelse. apply wp_lift.
  pose proof (Hr bno) as Hrb. rewrite (decide_True (P := is_Some (hm !! bno))) in Hrb by (by eexists).
  eapply wp_cache; [eapply (bc_release_law _ _ _ bno); [exact R|by rewrite Ehm|]|].
  { rewrite Hrb. destruct (decide (bno ∈ bs)); [lia|]. intros _. by apply Hcl. }
  intros l R'. apply HQ; [by apply moves_log|]. exists (a_release bno a). split; [|done].
  split; simpl; [exact R'|done|by apply lists_cache|done|by rewrite Ehm|].
  intros x. rewrite block_ref_release. destruct (decide (x = bno)) as [->|Hne].
  - rewrite (decide_False (P := is_Some _)) by (rewrite lookup_delete_eq; by intros []). lia.
  - by rewrite lookup_delete_ne, Hr by done.
Qed.

(** ** The free map *)

Lemma find_seq (f : Z → bool) n m :
  match find f (map Z.of_nat (seq m n)) with
  | Some x => Z.of_nat m ≤ x < Z.of_nat (m + n) ∧ f x = true ∧ (∀ j, Z.of_nat m ≤ j < x → f j = false)
  | None => ∀ j, Z.of_nat m ≤ j < Z.of_nat (m + n) → f j = false
  end.
Proof.
  revert m. induction n as [|n IH]; intros m; simpl; [lia|].
  destruct (f (Z.of_nat m)) eqn:E; [split; [lia|]; split; [done|lia]|].
  specialize (IH (Datatypes.S m)). destruct (find f _) as [x|].
  - destruct IH as (H1 & H2 & H3). split; [lia|]. split; [done|]. intros j Hj.
    destruct (decide (j = Z.of_nat m)) as [->|]; [done|]. apply H3. lia.
  - intros j Hj. destruct (decide (j = Z.of_nat m)) as [->|]; [done|]. apply IH. lia.
Qed.

Lemma free_bit_spec d b size :
  match free_bit d b size with
  | Some bi => 0 ≤ bi < BPB ∧ b + bi < size ∧ bit_set d bi = false ∧ (∀ j, 0 ≤ j < bi → bit_set d j = true)
  | None => ∀ j, 0 ≤ j < BPB → b + j < size → bit_set d j = true
  end.
Proof.
  unfold free_bit. pose proof (find_seq (λ bi, negb (bit_set d bi)) (Z.to_nat (Z.min BPB (size - b))) 0) as H.
  destruct (find _ _) as [bi|].
  - destruct H as (H1 & H2 & H3). split; [lia|]. split; [lia|]. split; [apply negb_true_iff; exact H2|].
    intros j Hj. apply negb_false_iff. apply H3. lia.
  - intros j Hj Hs. apply negb_false_iff. apply H. lia.
Qed.

Lemma land_bit x k : 0 ≤ k → (Z.land x (Z.shiftl 1 k) =? 0) = negb (Z.testbit x k).
Proof.
  intros Hk. rewrite Z.shiftl_1_l. destruct (Z.eqb_spec (Z.land x (2 ^ k)) 0) as [E|E].
  - assert (Z.testbit (Z.land x (2 ^ k)) k = false) as Hb by (rewrite E; apply Z.bits_0).
    rewrite Z.land_spec, Z.pow2_bits_true, andb_true_r in Hb by done. by rewrite Hb.
  - destruct (Z.testbit x k) eqn:Eb; [done|]. destruct E. apply Z.bits_inj'. intros n Hn.
    rewrite Z.land_spec, Z.bits_0. destruct (decide (n = k)) as [->|]; [by rewrite Eb|].
    rewrite Z.pow2_bits_false by done. apply andb_false_r.
Qed.
Lemma bit_set_eq d bi : bit_set d bi = Z.testbit (d !!! Z.to_nat (bi / 8)) (bi mod 8).
Proof. unfold bit_set. rewrite land_bit by (apply Z.mod_pos_bound; lia). apply negb_involutive. Qed.

Lemma u8_bit x k : 0 ≤ k < 8 → Z.testbit (u8 x) k = Z.testbit x k.
Proof. intros. unfold u8. rewrite Z.mod_pow2_bits_low by lia. done. Qed.

Lemma byte_pos bi : 0 ≤ bi < BPB → (Z.to_nat (bi / 8) < Z.to_nat BSIZE)%nat.
Proof. unfold BPB, BSIZE. intros. dlia. Qed.

Lemma bit_alter (g : Z → Z) (d : list Z) (bi bj : Z) :
  length d = Z.to_nat BSIZE → 0 ≤ bi < BPB → 0 ≤ bj < BPB →
  (∀ x k, 0 ≤ k < 8 → k ≠ bi mod 8 → Z.testbit (g x) k = Z.testbit x k) →
  bit_set (alter g (Z.to_nat (bi / 8)) d) bj =
  if decide (bj = bi) then Z.testbit (g (d !!! Z.to_nat (bi / 8))) (bi mod 8) else bit_set d bj.
Proof.
  intros Hd Hi Hj Hg. rewrite !bit_set_eq. pose proof (byte_pos bi Hi).
  rewrite list_lookup_total_alter. destruct (decide (bj = bi)) as [->|Hne].
  - rewrite decide_True; [done|]. split; [done|lia].
  - case_decide as Hc; [|done]. destruct Hc as [Hc _]. rewrite <- Hc.
    assert (bi / 8 = bj / 8) by (apply Z2Nat.inj; dlia).
    apply Hg; [apply Z.mod_pos_bound; lia|]. intros Em. apply Hne.
    pose proof (Z.div_mod bi 8). pose proof (Z.div_mod bj 8). lia.
Qed.

Lemma bit_mark d bi bj :
  length d = Z.to_nat BSIZE → 0 ≤ bi < BPB → 0 ≤ bj < BPB →
  bit_set (mark_bit d bi) bj = if decide (bj = bi) then true else bit_set d bj.
Proof.
  intros Hd Hi Hj. pose proof (Z.mod_pos_bound bi 8). unfold mark_bit. rewrite bit_alter; try done.
  - rewrite u8_bit, Z.lor_spec, Z.shiftl_1_l, Z.pow2_bits_true, orb_true_r by lia. done.
  - intros x k Hk Hne. rewrite u8_bit, Z.lor_spec, Z.shiftl_1_l, Z.pow2_bits_false, orb_false_r by lia. done.
Qed.
Lemma bit_clear d bi bj :
  length d = Z.to_nat BSIZE → 0 ≤ bi < BPB → 0 ≤ bj < BPB →
  bit_set (clear_bit d bi) bj = if decide (bj = bi) then false else bit_set d bj.
Proof.
  intros Hd Hi Hj. pose proof (Z.mod_pos_bound bi 8). unfold clear_bit. rewrite bit_alter; try done.
  - rewrite u8_bit, Z.land_spec, Z.lnot_spec, Z.shiftl_1_l, Z.pow2_bits_true, andb_false_r by lia. done.
  - intros x k Hk Hne.
    rewrite u8_bit, Z.land_spec, Z.lnot_spec, Z.shiftl_1_l, Z.pow2_bits_false, andb_true_r by lia. done.
Qed.

(** ** Changing a block *)

Lemma elem_of_add x bno bs : x ∈ add_block bno bs ↔ x = bno ∨ x ∈ bs.
Proof.
  unfold add_block. case_decide as H; [|rewrite elem_of_app, list_elem_of_singleton; tauto].
  split; [tauto|]. by intros [->|].
Qed.
Lemma length_add_block bno bs : (length (add_block bno bs) ≤ length bs + 1)%nat.
Proof. unfold add_block. case_decide; rewrite ?length_app; simpl; lia. Qed.

Lemma tx_store dev s bs hm c d bno b y :
  tx dev s bs hm c d → hm !! bno = Some b → length y = Z.to_nat BSIZE → 0 ≤ bno < 2 ^ 32 →
  ¬ in_log (flog s) bno → Z.of_nat (length bs) < l_size (flog s) - 1 →
  wp (do! fs_set b y in do! fs_log_write b in fs_brelse b)
    (λ _ s', moves s s' ∧ tx dev s' (add_block bno bs) (delete bno hm) (fset bno y c) d) s.
Proof.
  intros H Hh Hd Hb Hout Hsp. apply wp_bind. eapply tx_set; [done|done|done|]. intros s1 M1 H1.
  apply wp_bind. eapply tx_log_write; [exact H1|done|done|by rewrite (moves_in_log _ _ _ M1)| |].
  { by rewrite (moves_size _ _ M1). }
  intros s2 M2 H2. eapply tx_release; [exact H2|done| |].
  { intros Hn. destruct Hn. apply elem_of_add. by left. }
  intros s3 M3 H3. split; [|done]. by eapply moves_trans; [|eapply moves_trans].
Qed.

Lemma wp_seq3 {A B C D} (m1 : M (fsst S) A) (m2 : M (fsst S) B) (m3 : M (fsst S) C) (k : M (fsst S) D) Q s :
  wp (do! m1 in do! m2 in m3) (λ _ s', wp k Q s') s → wp (do! m1 in do! m2 in do! m3 in k) Q s.
Proof.
  unfold wp, bind. destruct (m1 s) as [x s1| | |]; try done. destruct (m2 s1) as [y s2| | |]; try done.
  by destruct (m3 s2).
Qed.

Definition zero_block : list Z := replicate (Z.to_nat BSIZE) 0.

Lemma bzero_spec dev s bs hm c d bno :
  tx dev s bs hm c d → 0 ≤ bno < 2 ^ 32 → ¬ in_log (flog s) bno → hm !! bno = None →
  Z.of_nat (length bs + size hm) < l_size (flog s) - 1 →
  wp (bzero dev bno) (λ _ s', moves s s' ∧ tx dev s' (add_block bno bs) hm (fset bno zero_block c) d) s.
Proof.
  intros H Hb Hout Hh Hsp. pose proof (tx_fit _ _ _ _ _ _ H). unfold bzero. apply wp_bind.
  eapply tx_bread; [done|done|done|lia|]. intros b s1 M1 H1.
  eapply wp_mono; [|eapply tx_store; [exact H1|apply lookup_insert_eq|apply length_replicate|done| |]].
  - intros u s' [M2 P]. split; [by eapply moves_trans|]. by rewrite delete_insert_id in P.
  - by rewrite (moves_in_log _ _ _ M1).
  - rewrite (moves_size _ _ M1). lia.
Qed.

(** ** Allocation of blocks *)

(** Whether block [x] is marked in use. *)
Definition in_use (sb : superblock) c (x : Z) : bool := bit_set (c (BBLOCK x sb)) (x mod BPB).

(** A block that is neither in the log nor in the bitmap nor in the inode
    area, nor block 0. *)
Record data_block s (x : Z) : Prop := {
  db_range : 0 < x < sb_size (sb s);
  db_log : ¬ in_log (flog s) x;
  db_map : ∀ y, 0 ≤ y < sb_size (sb s) → BBLOCK y (sb s) ≠ x;
  db_ino : ∀ i, 0 ≤ i < sb_ninodes (sb s) → IBLOCK i (sb s) ≠ x
}.

(** The layout of the disk that mkfs makes: log, inodes and bitmap apart. *)
Record layout s : Prop := {
  ly_size : 0 ≤ sb_size (sb s) < 2 ^ 31;
  ly_start : 0 ≤ sb_bmapstart (sb s) < 2 ^ 31;
  ly_ninodes : 0 ≤ sb_ninodes (sb s) < 2 ^ 31;
  ly_istart : 0 ≤ sb_inodestart (sb s) < 2 ^ 31;
  ly_map : ∀ x, 0 ≤ x < sb_size (sb s) → ¬ in_log (flog s) (BBLOCK x (sb s));
  ly_ino : ∀ i, 0 ≤ i < sb_ninodes (sb s) → ¬ in_log (flog s) (IBLOCK i (sb s));
  ly_apart : ∀ i x, 0 ≤ i < sb_ninodes (sb s) → 0 ≤ x < sb_size (sb s) → IBLOCK i (sb s) ≠ BBLOCK x (sb s)
}.
(** Only data blocks are free. *)
Definition bitmap_ok s c : Prop := ∀ x, 0 ≤ x < sb_size (sb s) → in_use (sb s) c x = false → data_block s x.
(** Buffers held during an allocation are of data blocks in use. *)
Definition apart s c hm : Prop := ∀ x b, hm !! x = Some b → data_block s x ∧ in_use (sb s) c x = true.

Lemma apart_map s c hm x : apart s c hm → 0 ≤ x < sb_size (sb s) → hm !! BBLOCK x (sb s) = None.
Proof.
  intros Ha Hx. destruct (hm !! _) as [b|] eqn:E; [|done]. destruct (Ha _ _ E) as [D _]. by destruct (db_map _ _ D x Hx).
Qed.
Lemma apart_free s c hm x : apart s c hm → in_use (sb s) c x = false → hm !! x = None.
Proof. intros Ha Hx. destruct (hm !! x) as [b|] eqn:E; [|done]. destruct (Ha _ _ E). congruence. Qed.
Lemma apart_empty s c : apart s c ∅.
Proof. intros x b Hx. by rewrite lookup_empty in Hx. Qed.

(** The super block, the place of the log and the process stay: what depends
    only on them carries over. *)
Definition geo s s' : Prop := sb s' = sb s ∧ same_log (flog s) (flog s') ∧ fpid s' = fpid s.
Lemma moves_geo s s' : moves s s' → geo s s'.
Proof. intros Mv. split; [apply (moves_sb _ _ Mv)|]. split; [apply Mv|]. by rewrite (proj1 Mv). Qed.
Lemma geo_trans s1 s2 s3 : geo s1 s2 → geo s2 s3 → geo s1 s3.
Proof. intros (? & ? & ?) (? & ? & ?). split; [congruence|]. split; [by eapply same_log_trans|congruence]. Qed.
Lemma geo_size s s' : geo s s' → l_size (flog s') = l_size (flog s).
Proof. intros (_ & H & _). apply H. Qed.
(** The super block and the place of the log stay. *)
Definition place s s' : Prop :=
  sb s' = sb s ∧ l_start (flog s') = l_start (flog s) ∧ l_size (flog s') = l_size (flog s).
Lemma geo_place s s' : geo s s' → place s s'.
Proof. intros (H & (H1 & H2 & _) & _). by split_and!. Qed.
Lemma in_log_place s s' x : place s s' → in_log (flog s') x ↔ in_log (flog s) x.
Proof. intros (_ & H1 & H2). unfold in_log. by rewrite H1, H2. Qed.
Lemma data_block_place s s' x : place s s' → data_block s x → data_block s' x.
Proof.
  intros G [H1 H2 H3 H4]. rewrite <- (in_log_place _ _ x G) in H2. destruct G as (E & _). by split; rewrite ?E.
Qed.
Lemma layout_place s s' : place s s' → layout s → layout s'.
Proof.
  intros G [H1 H2 H3 H4 H5 H6 H7]. pose proof (proj1 G) as E.
  split; rewrite ?E; try done; intros x Hx; rewrite (in_log_place _ _ _ G); auto.
Qed.
Lemma bitmap_ok_place s s' c : place s s' → bitmap_ok s c → bitmap_ok s' c.
Proof. intros G H x. rewrite (proj1 G). intros Hx Hf. eapply data_block_place; [done|]. by apply H. Qed.

Lemma in_log_geo s s' x : geo s s' → in_log (flog s') x ↔ in_log (flog s) x.
Proof. intros G. apply in_log_place, geo_place, G. Qed.
Lemma layout_geo s s' : geo s s' → layout s → layout s'.
Proof. intros G. apply layout_place, geo_place, G. Qed.
Lemma bitmap_ok_geo s s' c : geo s s' → bitmap_ok s c → bitmap_ok s' c.
Proof. intros G. apply bitmap_ok_place, geo_place, G. Qed.
Lemma apart_geo s s' c hm : geo s s' → apart s c hm → apart s' c hm.
Proof.
  intros G H x b Hx. destruct (H x b Hx). split; [by eapply data_block_place; [apply geo_place|]|]. by rewrite (proj1 G).
Qed.

Lemma bblock_eq sb x :
  0 ≤ x < 2 ^ 31 → 0 ≤ sb_bmapstart sb < 2 ^ 31 →
  BBLOCK x sb = x / BPB + sb_bmapstart sb ∧ 0 ≤ BBLOCK x sb < 2 ^ 32.
Proof.
  intros Hx Hs. unfold BBLOCK. assert (0 ≤ x / BPB ≤ x) by (unfold BPB, BSIZE; dlia).
  rewrite u32_small by lia. lia.
Qed.
Lemma bblock_same sb k x : BPB * k ≤ x < BPB * k + BPB → BBLOCK (BPB * k) sb = BBLOCK x sb ∧ x mod BPB = x - BPB * k.
Proof.
  intros Hx. assert (BPB * k / BPB = x / BPB ∧ x mod BPB = x - BPB * k) as [H1 H2] by (unfold BPB, BSIZE in *; dlia).
  unfold BBLOCK. by rewrite H1.
Qed.
Lemma length_mark d bi : length (mark_bit d bi) = length d.
Proof. apply length_alter. Qed.
Lemma length_clear d bi : length (clear_bit d bi) = length d.
Proof. apply length_alter. Qed.

(** The contents after block [x] was marked in use and zeroed. *)
Definition allocated (sb : superblock) c (x : Z) : Z → list Z :=
  fset x zero_block (fset (BBLOCK x sb) (mark_bit (c (BBLOCK x sb)) (x mod BPB)) c).
Definition alloc_blocks (sb : superblock) bs (x : Z) : list Z := add_block x (add_block (BBLOCK x sb) bs).

(** What one turn of the outer loop of [balloc], from block [b], leaves. *)
Definition scan_post (dev : Z) s bs hm c d (b : Z) (r : option Z) s' : Prop :=
  moves s s' ∧
  match r with
  | Some x =>
      b ≤ x < b + BPB ∧ x < sb_size (sb s) ∧ in_use (sb s) c x = false ∧
      (∀ j, b ≤ j < x → in_use (sb s) c j = true) ∧
      tx dev s' (alloc_blocks (sb s) bs x) hm (allocated (sb s) c x) d
  | None =>
      tx dev s' bs hm c d ∧ ∀ j, b ≤ j < b + BPB → j < sb_size (sb s) → in_use (sb s) c j = true
  end.

Lemma balloc_scan_spec dev s bs hm c d k :
  tx dev s bs hm c d → layout s → bitmap_ok s c → apart s c hm → 0 ≤ BPB * k < sb_size (sb s) →
  Z.of_nat (length bs + size hm) < l_size (flog s) - 2 →
  wp (balloc_scan dev (BPB * k)) (scan_post dev s bs hm c d (BPB * k)) s.
Proof.
  intros H Ly Hbm Hap Hk Hsp. pose proof (tx_fit _ _ _ _ _ _ H) as Hfit. pose proof (ly_size _ Ly) as Hsz. pose proof (ly_start _ Ly) as Hst.
  unfold balloc_scan. wp_steps. pose proof (bblock_eq (sb s) (BPB * k) ltac:(lia) Hst) as [_ Hbb].
  eapply tx_bread; [done|done|by eapply apart_map|lia|]. intros b s1 M1 H1.
  apply wp_bind. eapply tx_data; [exact H1|apply lookup_insert_eq|].
  pose proof (free_bit_spec (c (BBLOCK (BPB * k) (sb s))) (BPB * k) (sb_size (sb s))) as F.
  destruct (free_bit _ _ _) as [bi|].
  - destruct F as (Hbi & Hlt & Hfree & Hmin). set (x := BPB * k + bi) in *.
    pose proof (bblock_same (sb s) k x ltac:(lia)) as [Ex Em].
    replace (x - BPB * k) with bi in Em by lia.
    assert (in_use (sb s) c x = false) as Hxf by (unfold in_use; by rewrite Em, <- Ex).
    pose proof (Hbm x ltac:(lia) Hxf) as D. rewrite Ex in *.
    apply wp_seq3. eapply wp_mono; [|eapply tx_store; [exact H1|apply lookup_insert_eq| |done| |]].
    + intros _ s2 (M2 & H2). apply wp_bind. rewrite delete_insert_id in H2 by (eapply apart_map; [done|lia]).
      assert (moves s s2) as M02 by (by eapply moves_trans).
      eapply wp_mono; [|eapply bzero_spec; [exact H2|lia| | |]].
      * intros _ s3 (M3 & H3). apply wp_ret.
        split; [by eapply moves_trans|]. split; [lia|]. split; [done|]. split; [done|]. split.
        { intros j Hj. unfold in_use. pose proof (bblock_same (sb s) k j ltac:(lia)) as [Ej Ejm].
          rewrite <- Ej, Ex, Ejm. apply Hmin. lia. }
        unfold alloc_blocks, allocated. by rewrite Em.
      * rewrite (moves_in_log _ _ _ M02). apply (db_log _ _ D).
      * by eapply apart_free.
      * rewrite (moves_size _ _ M02). pose proof (length_add_block (BBLOCK x (sb s)) bs). lia.
    + rewrite length_mark. by eapply tx_len.
    + rewrite (moves_in_log _ _ _ M1). apply (ly_map _ Ly). lia.
    + rewrite (moves_size _ _ M1). lia.
  - apply wp_bind. eapply tx_release; [exact H1|apply lookup_insert_eq| |].
    { intros Hn. eapply (tx_clean _ _ _ _ _ _ _ H); [done|by eapply apart_map]. }
    intros s2 M2 H2. rewrite delete_insert_id in H2 by (by eapply apart_map).
    apply wp_ret. split; [by eapply moves_trans|]. split; [done|].
    intros j Hj Hjs. unfold in_use. pose proof (bblock_same (sb s) k j ltac:(lia)) as [Ej Ejm].
    rewrite <- Ej, Ejm. apply F; lia.
Qed.

(** The outer loop of [balloc], from turn [m] on. *)
Lemma balloc_loop_spec dev bs hm c d s0 n : ∀ m s,
  tx dev s bs hm c d → layout s → bitmap_ok s c → apart s c hm → moves s0 s →
  Z.of_nat (length bs + size hm) < l_size (flog s) - 2 →
  (n = O ∨ BPB * (Z.of_nat (m + n) - 1) < sb_size (sb s0)) →
  wp (for_until (map (λ k, BPB * Z.of_nat k) (seq m n)) (balloc_scan dev))
    (λ r s', ∃ b, scan_post dev s0 bs hm c d b r s' ∧
      match r with
      | Some _ => BPB * Z.of_nat m ≤ b ∧ ∀ j, BPB * Z.of_nat m ≤ j < b → in_use (sb s0) c j = true
      | None => ∀ j, BPB * Z.of_nat m ≤ j < BPB * Z.of_nat (m + n) → j < sb_size (sb s0) →
          in_use (sb s0) c j = true
      end) s.
Proof.
  induction n as [|n IH]; intros m s H Ly Hb Hap Mv Hsp Hn; pose proof (moves_sb _ _ Mv) as (Esb & _ & _).
  - apply wp_ret. exists (sb_size (sb s0)). split; [split; [done|]; split; [done|lia]|]. lia.
  - cbn [seq map for_until]. apply wp_bind.
    eapply wp_mono; [|apply (balloc_scan_spec dev s bs hm c d (Z.of_nat m) H Ly Hb Hap); [|done]].
    2: { rewrite Esb. destruct Hn as [?|Hn]; [lia|]. unfold BPB, BSIZE in *. lia. }
    intros r s' [Ms P]. rewrite Esb in P. assert (moves s0 s') as Ms' by (by eapply moves_trans).
    destruct r as [x|].
    + apply wp_ret. exists (BPB * Z.of_nat m). split; [by split|]. split; lia.
    + destruct P as [H' Hall].
      eapply wp_mono; [|apply (IH (Datatypes.S m) s' H' (layout_geo _ _ (moves_geo _ _ Ms) Ly)
        (bitmap_ok_geo _ _ _ (moves_geo _ _ Ms) Hb) (apart_geo _ _ _ _ (moves_geo _ _ Ms) Hap) Ms')].
      * intros r2 s2 (b & Hp & Hq). exists b. split; [exact Hp|].
        assert (∀ j, BPB * Z.of_nat m ≤ j < BPB * Z.of_nat (Datatypes.S m) → j < sb_size (sb s0) →
          in_use (sb s0) c j = true) as Hfirst by (intros; apply Hall; unfold BPB, BSIZE in *; lia).
        destruct r2 as [x|].
        -- destruct Hq as [Hq1 Hq2]. split; [unfold BPB, BSIZE in *; lia|]. intros j Hj.
           destruct (decide (j < BPB * Z.of_nat (Datatypes.S m))); [|apply Hq2; lia].
           apply Hfirst; [lia|]. destruct Hp as (_ & Hp1 & Hp2 & _). lia.
        -- intros j Hj Hs. destruct (decide (j < BPB * Z.of_nat (Datatypes.S m))); [apply Hfirst; lia|].
           apply Hq; [|done]. rewrite Nat.add_succ_comm. lia.
      * by rewrite (moves_size _ _ Ms).
      * rewrite Nat.add_succ_comm. destruct Hn as [?|Hn]; [lia|]. by right.
Qed.

Definition out_of_blocks : list Z :=
  default [] (printf ("balloc: out of blocks" +:+ String (Ascii.ascii_of_nat 10) EmptyString) []).

(** [balloc] allocates the least free block or finds the disk full. *)
Definition balloc_post (dev : Z) s bs hm c d (x : Z) s' : Prop :=
  (moves s s' ∧ 0 < x < sb_size (sb s) ∧ in_use (sb s) c x = false ∧
   (∀ j, 0 ≤ j < x → in_use (sb s) c j = true) ∧
   tx dev s' (alloc_blocks (sb s) bs x) hm (allocated (sb s) c x) d) ∨
  (x = 0 ∧ (∀ j, 0 ≤ j < sb_size (sb s) → in_use (sb s) c j = true) ∧
   s' = s <| flog := flog s' |> <| fout := fout s ++ out_of_blocks |> ∧
   geo s s' ∧ tx dev s' bs hm c d).

Lemma balloc_spec dev s bs hm c d :
  tx dev s bs hm c d → layout s → bitmap_ok s c → apart s c hm →
  Z.of_nat (length bs + size hm) < l_size (flog s) - 2 →
  wp (balloc dev) (balloc_post dev s bs hm c d) s.
Proof.
  intros H Ly Hb Hap Hsp. set (n := Z.to_nat ((sb_size (sb s) + BPB - 1) / BPB)).
  assert (BPB * (Z.of_nat n - 1) < sb_size (sb s) ≤ BPB * Z.of_nat n) as Hn.
  { pose proof (ly_size _ Ly). unfold n, BPB, BSIZE in *. dlia. }
  unfold balloc. wp_steps. unfold bitmap_starts. fold n.
  eapply wp_mono; [|exact (balloc_loop_spec dev bs hm c d s n 0 s H Ly Hb Hap (moves_refl s) Hsp (or_intror (proj1 Hn)))].
  intros r s1 (b & [Mv P] & Q). destruct r as [x|].
  - destruct P as (Hx1 & Hx2 & Hx3 & Hx4 & P). apply wp_ret. left. split; [done|].
    assert (0 < x) by (apply (db_range _ _ (Hb x ltac:(lia) Hx3))).
    split; [done|]. split; [done|]. split; [|done].
    intros j Hj. destruct (decide (j < b)); [apply (proj2 Q); lia|apply Hx4; lia].
  - destruct P as [P1 P2]. apply wp_bind. apply wp_modify. apply wp_ret. right.
    split; [done|]. split; [intros j Hj; apply Q; lia|].
    pose proof Mv as (E & _). split; [by rewrite E|]. split; [by apply (moves_geo _ _ Mv)|].
    by eapply tx_flog; [|exact P1].
Qed.

(** Changing the bit of [x] in its bitmap block changes no other bit. *)
Lemma in_use_fset sb c c' y v x z :
  0 ≤ sb_bmapstart sb < 2 ^ 31 → 0 ≤ x < 2 ^ 31 → 0 ≤ z < 2 ^ 31 →
  (∀ bj, 0 ≤ bj < BPB → bit_set y bj = if decide (bj = x mod BPB) then v else bit_set (c (BBLOCK x sb)) bj) →
  c' (BBLOCK z sb) = fset (BBLOCK x sb) y c (BBLOCK z sb) →
  in_use sb c' z = if decide (z = x) then v else in_use sb c z.
Proof.
  intros Hst Hx Hz Hd E. unfold in_use at 1. rewrite E.
  pose proof (bblock_eq sb x Hx Hst) as [Ex _]. pose proof (bblock_eq sb z Hz Hst) as [Ez _].
  destruct (decide (BBLOCK z sb = BBLOCK x sb)) as [Eb|Nb].
  - rewrite Eb, fset_eq, Hd by (apply Z.mod_pos_bound; reflexivity). assert (z / BPB = x / BPB) as Ed by lia.
    assert (z mod BPB = x mod BPB ↔ z = x) as Hiff.
    { split; [|by intros ->]. intros Em. rewrite (Z.div_mod z BPB), (Z.div_mod x BPB) by done. by rewrite Ed, Em. }
    unfold in_use. rewrite Eb. destruct (decide (z = x)), (decide (z mod BPB = x mod BPB)); tauto.
  - rewrite fset_ne by done. rewrite decide_False; [done|]. by intros ->.
Qed.

Lemma in_use_alloc s c x z :
  layout s → (∀ b, length (c b) = Z.to_nat BSIZE) → data_block s x → 0 ≤ z < sb_size (sb s) →
  in_use (sb s) (allocated (sb s) c x) z = if decide (z = x) then true else in_use (sb s) c z.
Proof.
  intros Ly Hl D Hz. pose proof (db_range _ _ D). pose proof (ly_size _ Ly). pose proof (ly_start _ Ly).
  eapply in_use_fset; [done|lia|lia| |].
  - intros bj Hj. apply bit_mark; [done|apply Z.mod_pos_bound; reflexivity|done].
  - unfold allocated. by rewrite (fset_ne x) by (by apply (db_map _ _ D)).
Qed.
Lemma in_use_free sb c x z :
  (∀ b, length (c b) = Z.to_nat BSIZE) → 0 ≤ sb_bmapstart sb < 2 ^ 31 → 0 ≤ x < 2 ^ 31 → 0 ≤ z < 2 ^ 31 →
  in_use sb (fset (BBLOCK x sb) (clear_bit (c (BBLOCK x sb)) (x mod BPB)) c) z =
  if decide (z = x) then false else in_use sb c z.
Proof.
  intros Hl Hst Hx Hz. eapply in_use_fset; [done|done|done| |done].
  intros bj Hj. apply bit_clear; [done|apply Z.mod_pos_bound; reflexivity|done].
Qed.
End fs_spec.
Notation tx := (txw (w := true)).
