(* ===== verification/FsThms.v ===== *)
(** * Theorems on the file system

    The block allocator, inodes on disk and path names of [fs.c], each inside
    a transaction of the log. *)

From S2P Require Import Prelude.
From S2P Require Import Machine.
From S2P Require Import KString.
From S2P Require Import Printf.
From S2P Require Import Bio.
From S2P Require Import BioSpec.
From S2P Require Import Log.
From S2P Require Import LogSpec.
From S2P Require Import LogThms.
From S2P Require Import Fs.
From S2P Require Import FsSpec.
#[local] Open Scope Z_scope.

Section blocks.
Context {S : Type} `{!BufOps S} `{!BufLaws S}.
Implicit Types (s : fsst S) (bs : list Z).

(** [balloc] returns the least free block. It marks that block and no
    other as in use, fills it with zeros and adds it and its bitmap block to
    the transaction; the contents of no other block change and nothing is
    written to disk yet. When every block is in use it prints its message,
    returns 0 and changes nothing. Needs room for two more blocks in the log,
    and a bitmap in which only data blocks are free. *)
Theorem balloc_least_free dev s bs c d :
  tx dev s bs ∅ c d → layout s → bitmap_ok s c → Z.of_nat (length bs) < l_size (flog s) - 2 →
  ∃ x s', balloc dev s = Ret x s' ∧ sb s' = sb s ∧ inodes s' = inodes s ∧
  ((0 < x < sb_size (sb s) ∧ in_use (sb s) c x = false ∧
    (∀ j, 0 ≤ j < x → in_use (sb s) c j = true) ∧ fout s' = fout s ∧
    ∃ c', tx dev s' (alloc_blocks (sb s) bs x) ∅ c' d ∧ c' x = zero_block ∧
      (∀ y, 0 ≤ y < sb_size (sb s) → in_use (sb s) c' y = if decide (y = x) then true else in_use (sb s) c y) ∧
      (∀ y, y ≠ x → y ≠ BBLOCK x (sb s) → c' y = c y)) ∨
   (x = 0 ∧ (∀ j, 0 ≤ j < sb_size (sb s) → in_use (sb s) c j = true) ∧
    tx dev s' bs ∅ c d ∧ fout s' = fout s ++ out_of_blocks)).
Proof.
  intros H Ly Hb Hsp.
  destruct (wp_elim _ _ _ (balloc_spec dev s bs ∅ c d H Ly Hb (apart_empty s c) ltac:(rewrite map_size_empty; lia)))
    as (x & s' & E & P). exists x, s'. split; [done|].
  destruct P as [(Mv & Hx & Hf & Hmin & T)|(-> & Hall & Es & _ & T)].
  - pose proof (moves_sb _ _ Mv) as (Es & Ei & Ef). split; [done|]. split; [done|]. left. split; [done|].
    split; [done|]. split; [done|]. split; [done|]. exists (allocated (sb s) c x). split; [done|].
    split; [apply fset_eq|]. split.
    + intros y Hy. apply in_use_alloc; [done|intros b; by eapply tx_len|apply Hb; [lia|done]|done].
    + intros y Hy1 Hy2. unfold allocated. by rewrite !fset_ne.
  - assert (sb s' = sb s ∧ inodes s' = inodes s ∧ fout s' = fout s ++ out_of_blocks) as (Esb & Ei & Ef) by (by rewrite Es).
    clear Es. split; [done|]. split; [done|]. by right.
Qed.

(** [bfree] panics with "freeing free block" if the block is not in use;
    otherwise it returns with exactly that block's bit clear, the bitmap block
    in the transaction and the contents of every other block unchanged. *)
Theorem bfree_exact dev s bs c d x :
  tx dev s bs ∅ c d → layout s → 0 ≤ x < sb_size (sb s) → Z.of_nat (length bs) < l_size (flog s) - 1 →
  match bfree dev x s with
  | Ret _ s' =>
      in_use (sb s) c x = true ∧ sb s' = sb s ∧ inodes s' = inodes s ∧
      ∃ c', tx dev s' (add_block (BBLOCK x (sb s)) bs) ∅ c' d ∧
        (∀ y, 0 ≤ y < sb_size (sb s) → in_use (sb s) c' y = if decide (y = x) then false else in_use (sb s) c y) ∧
        (∀ y, y ≠ BBLOCK x (sb s) → c' y = c y)
  | Panic m _ => in_use (sb s) c x = false ∧ m = "freeing free block"%string
  | _ => False
  end.
Proof.
  intros H Ly Hx Hsp. pose proof (tx_fit _ _ _ _ _ _ H) as Hfit. pose proof (ly_size _ Ly) as Hsz.
  pose proof (bblock_eq (sb s) x ltac:(lia) (ly_start _ Ly)) as [Ex Hbb].
  unfold bfree. rewrite (bind_eq (gets sb) _ _ _ _ eq_refl). set (bb := BBLOCK x (sb s)) in *.
  destruct (wp_elim _ _ _ (tx_bread dev s bs ∅ c d bb (λ b s', moves s s' ∧ tx dev s' bs (<[bb := b]> ∅) c d)
    H Hbb (lookup_empty _) ltac:(rewrite map_size_empty; lia) (λ b s' M1 H1, conj M1 H1)))
    as (b & s1 & E & M1 & H1). rewrite (bind_eq _ _ _ _ _ E). clear E.
  destruct (wp_elim _ _ _ (tx_data dev s1 bs _ c d bb b (λ y s', y = c bb ∧ s' = s1) H1 (lookup_insert_eq _ _ _)
    (conj eq_refl eq_refl))) as (y & s1' & E & -> & ->). rewrite (bind_eq _ _ _ _ _ E). clear E.
  change (bit_set (c bb) (x mod BPB)) with (in_use (sb s) c x).
  destruct (in_use (sb s) c x) eqn:Eu; [|done]. cbn [negb].
  assert (length (clear_bit (c bb) (x mod BPB)) = Z.to_nat BSIZE) as Hl
    by (rewrite length_clear; by eapply tx_len).
  destruct (wp_elim _ _ _ (tx_store dev s1 bs _ c d bb b _ H1 (lookup_insert_eq _ _ _) Hl Hbb
    ltac:(rewrite (moves_in_log _ _ _ M1); by apply (ly_map _ Ly)) ltac:(by rewrite (moves_size _ _ M1))))
    as ([] & s2 & -> & M2 & H2). rewrite delete_insert_id in H2 by apply lookup_empty.
  pose proof (moves_sb _ _ (moves_trans _ _ _ M1 M2)) as (Es & Ei & _).
  split; [done|]. split; [done|]. split; [done|]. eexists. split; [exact H2|].
  split; [|intros z Hz; by rewrite fset_ne].
  intros z Hz. apply in_use_free; [intros; by eapply tx_len|apply (ly_start _ Ly)|lia|lia].
Qed.
End blocks.

(** ** A small file system after boot *)

(** The first 46 blocks, up to the bitmap at block 45, are in use. *)
Definition demo_bitmap : list Z := replicate 5 255 ++ [63] ++ replicate 1018 0.
Definition demo_disk : gmap Z (list Z) := {[45 := demo_bitmap]}.
Definition demo_fs (c : bst) : fsst bst :=
  mk_fsst bst (mk_log_st bst 2 30 1 false 1 (mk_logheader 0 (replicate 30 0)) 0 c)
    demo_sb (replicate (Z.to_nat NINODE) zero_inode) 1 0 [] [].

Definition demo_c : Z → list Z := disk_block (boot_bst 1 demo_disk).
Lemma demo_fs_tx : ∃ b, tx 1 (demo_fs b) [] ∅ demo_c demo_c.
Proof.
  assert (∀ bno x, demo_disk !! bno = Some x → length x = Z.to_nat BSIZE) as Hd.
  { intros bno x Hx. unfold demo_disk in Hx. apply lookup_singleton_Some in Hx as [<- <-]. reflexivity. }
  destruct (wp_elim _ _ _ (binit_refines 1 1 demo_disk ltac:(lia) Hd)) as ([] & c & E & R). clear E.
  exists c. exists (a_boot demo_c). split; [|done]. unfold demo_c. generalize dependent (disk_block (boot_bst 1 demo_disk)).
  intros f R. split; [exact R|reflexivity| |simpl; lia|reflexivity|done].
  split; [reflexivity|reflexivity|done|simpl; lia|apply NoDup_nil_2|by intros x Hx%elem_of_nil|simpl; lia].
Qed.

Lemma demo_bblock x : 0 ≤ x < 2000 → BBLOCK x demo_sb = 45.
Proof. intros Hx. unfold BBLOCK. rewrite Z.div_small by (unfold BPB, BSIZE; lia). reflexivity. Qed.
Lemma demo_in_use x : 0 ≤ x < 2000 → in_use demo_sb demo_c x = (x <? 46).
Proof.
  intros Hx. unfold in_use. rewrite demo_bblock by done. rewrite Z.mod_small by (unfold BPB, BSIZE; lia).
  assert (forallb (λ n, Bool.eqb (bit_set (demo_c 45) (Z.of_nat n)) (Z.of_nat n <? 46)) (seq 0 2000) = true) as H
    by (vm_compute; reflexivity).
  rewrite forallb_forall in H. specialize (H (Z.to_nat x)). rewrite Z2Nat.id in H by lia.
  apply Bool.eqb_prop, H. apply in_seq. lia.
Qed.
Lemma demo_iblock i : 0 ≤ i < 200 → 32 ≤ IBLOCK i demo_sb < 45.
Proof.
  intros Hi. unfold IBLOCK. assert (0 ≤ i / IPB < 13) by (unfold IPB, BSIZE; dlia).
  rewrite u32_small by (simpl; lia). simpl. lia.
Qed.
Lemma demo_layout b : layout (demo_fs b).
Proof.
  split; simpl; [lia|lia|lia|lia| | |].
  - intros x Hx. rewrite demo_bblock by done. unfold in_log. simpl. lia.
  - intros i Hi. pose proof (demo_iblock i Hi). unfold in_log. simpl. lia.
  - intros i x Hi Hx. rewrite demo_bblock by done. pose proof (demo_iblock i Hi). lia.
Qed.
Lemma demo_bitmap_ok b : bitmap_ok (demo_fs b) demo_c.
Proof.
  intros x Hx Hf. simpl in Hx, Hf. rewrite demo_in_use in Hf by done. apply Z.ltb_ge in Hf.
  split; simpl; [lia|unfold in_log; simpl; lia| |].
  - intros y Hy. rewrite demo_bblock by done. lia.
  - intros i Hi. pose proof (demo_iblock i Hi). lia.
Qed.

Lemma balloc_least_free_witness :
  ∃ (s s' : fsst bst) c', balloc 1 s = Ret 46 s' ∧ tx 1 s' [45; 46] ∅ c' demo_c ∧ c' 46 = zero_block ∧
    in_use demo_sb c' 46 = true ∧ in_use demo_sb c' 47 = false.
Proof.
  destruct demo_fs_tx as [b H]. exists (demo_fs b).
  destruct (balloc_least_free 1 (demo_fs b) [] demo_c demo_c H (demo_layout b) (demo_bitmap_ok b) ltac:(simpl; lia))
    as (x & s' & E & _ & _ & [(Hx & Hf & Hmin & _ & c' & T & Hz & Hu & _)|(_ & Hall & _)]).
  - simpl in Hx. change (sb (demo_fs b)) with demo_sb in *.
    assert (x = 46) as ->.
    { destruct (Z.lt_trichotomy x 46) as [Hlt|[?|Hgt]]; [|done|].
      - rewrite demo_in_use in Hf by lia. rewrite (proj2 (Z.ltb_lt x 46) Hlt) in Hf. discriminate Hf.
      - specialize (Hmin 46 ltac:(lia)). rewrite demo_in_use in Hmin by lia. discriminate Hmin. }
    exists s', c'. split; [exact E|]. unfold alloc_blocks in T. rewrite demo_bblock in T by lia.
    split; [exact T|]. split; [exact Hz|].
    split; rewrite Hu by (simpl; lia); [reflexivity|]. rewrite demo_in_use by lia. reflexivity.
  - specialize (Hall 46 ltac:(simpl; lia)). change (sb (demo_fs b)) with demo_sb in Hall.
    rewrite demo_in_use in Hall by lia. discriminate Hall.
Defined.

Lemma bfree_exact_witness :
  ∃ s : fsst bst, match bfree 1 45 s with
    | Ret _ s' => ∃ c', tx 1 s' [45] ∅ c' demo_c ∧ in_use demo_sb c' 45 = false ∧ in_use demo_sb c' 44 = true
    | _ => False
    end ∧ match bfree 1 46 s with Panic m _ => m = "freeing free block"%string | _ => False end.
Proof.
  destruct demo_fs_tx as [b H]. exists (demo_fs b). split.
  - pose proof (bfree_exact 1 (demo_fs b) [] demo_c demo_c 45 H (demo_layout b) ltac:(simpl; lia) ltac:(simpl; lia)) as T.
    change (sb (demo_fs b)) with demo_sb in T. rewrite demo_in_use in T by lia.
    destruct (bfree 1 45 (demo_fs b)); [|exact (diff_true_false (proj1 T))|exact T|exact T].
    destruct T as (_ & _ & _ & c' & T & Hu & _). exists c'. rewrite demo_bblock in T by lia.
    split; [exact T|]. split; rewrite Hu by (simpl; lia); [reflexivity|]. rewrite demo_in_use by lia. reflexivity.
  - pose proof (bfree_exact 1 (demo_fs b) [] demo_c demo_c 46 H (demo_layout b) ltac:(simpl; lia) ltac:(simpl; lia)) as T.
    change (sb (demo_fs b)) with demo_sb in T. rewrite demo_in_use in T by lia.
    destruct (bfree 1 46 (demo_fs b)); [|exact (proj2 T)|exact T|exact T].
    exfalso. exact (diff_false_true (proj1 T)).
Defined.
