(* ===== verification/FsFile.v ===== *)
(** * Files as sequences of bytes

    The blocks of an inode, direct and indirect, as one array of bytes;
    [bmap], [readi], [writei] and [iupdate] of [fs.c] act on it. *)

From S2P Require Import Prelude.
From S2P Require Import Machine.
From S2P Require Import Bio.
From S2P Require Import BioSpec.
From S2P Require Import Log.
From S2P Require Import LogSpec.
From S2P Require Import Fs.
From S2P Require Import FsSpec.
#[local] Open Scope Z_scope.

Section fs_file.
Context {S : Type} `{!BufOps S} `{!BufLaws S}.
Implicit Types (s : fsst S) (x : inode) (c : Z → list Z) (bs : list Z).

Lemma length_alloc_blocks sb bs y : (length (alloc_blocks sb bs y) ≤ length bs + 2)%nat.
Proof.
  unfold alloc_blocks. pose proof (length_add_block y (add_block (BBLOCK y sb) bs)).
  pose proof (length_add_block (BBLOCK y sb) bs). lia.
Qed.

(** ** The block map of an inode *)

Lemma maxfile : MAXFILE = Z.of_nat NDIRECT + 256.
Proof. reflexivity. Qed.
Definition indirect x : Z := addrs x !!! NDIRECT.
(** The disk block of block [bn] of the file, 0 if there is none. *)
Definition faddr x c (bn : Z) : Z :=
  if bn <? Z.of_nat NDIRECT then addrs x !!! Z.to_nat bn
  else if indirect x =? 0 then 0
  else get32 (c (indirect x)) (4 * Z.to_nat (bn - Z.of_nat NDIRECT)).
Definition fblock x c (bn : Z) : list Z := if faddr x c bn =? 0 then zero_block else c (faddr x c bn).
Definition fbyte x c (p : Z) : Z := fblock x c (p / BSIZE) !!! Z.to_nat (p mod BSIZE).

(** A data block marked in use. *)
Definition owned s c (b : Z) : Prop := data_block s b ∧ in_use (sb s) c b = true.

(** The blocks of the file are in use and distinct, and every byte below [sz]
    has a block. *)
Record file_ok s x c (sz : Z) : Prop := {
  fo_len : length (addrs x) = (NDIRECT + 1)%nat;
  fo_inum : 0 ≤ inum x < sb_ninodes (sb s);
  fo_ind : indirect x ≠ 0 → owned s c (indirect x);
  fo_blk : ∀ bn, 0 ≤ bn < MAXFILE → faddr x c bn ≠ 0 → owned s c (faddr x c bn) ∧ faddr x c bn ≠ indirect x;
  fo_inj : ∀ b1 b2, 0 ≤ b1 < MAXFILE → 0 ≤ b2 < MAXFILE → faddr x c b1 = faddr x c b2 → faddr x c b1 ≠ 0 → b1 = b2;
  fo_full : ∀ bn, 0 ≤ bn → bn * BSIZE < sz → faddr x c bn ≠ 0;
  fo_size : 0 ≤ sz ≤ MAXFILE * BSIZE
}.

Lemma owned_place s s' c b : place s s' → owned s c b → owned s' c b.
Proof. intros G [H1 H2]. split; [by eapply data_block_place|]. by rewrite (proj1 G). Qed.
Lemma file_ok_place s s' x c sz : place s s' → file_ok s x c sz → file_ok s' x c sz.
Proof.
  intros G [H1 H2 H3 H4 H5 H6 H7]. split; rewrite ?(proj1 G); try done.
  - intros Hi. by eapply owned_place, H3.
  - intros bn Hb Hf. destruct (H4 bn Hb Hf). split; [by eapply owned_place|done].
Qed.
Lemma owned_geo s s' c b : geo s s' → owned s c b → owned s' c b.
Proof. intros G. apply owned_place, geo_place, G. Qed.
Lemma file_ok_geo s s' x c sz : geo s s' → file_ok s x c sz → file_ok s' x c sz.
Proof. intros G. apply file_ok_place, geo_place, G. Qed.

Lemma owned_range s c b : layout s → owned s c b → 0 < b < 2 ^ 31 ∧ b < sb_size (sb s).
Proof. intros Ly [D _]. pose proof (db_range _ _ D). pose proof (ly_size _ Ly). lia. Qed.

(** Contents that agree on the blocks in use give the same file. *)
Definition agree s c c' : Prop := ∀ b, owned s c b → c' b = c b.
Lemma faddr_agree s x c c' sz bn : agree s c c' → file_ok s x c sz → faddr x c' bn = faddr x c bn.
Proof.
  intros A F. unfold faddr. destruct (bn <? _); [done|]. destruct (Z.eqb_spec (indirect x) 0); [done|].
  by rewrite A by (by apply (fo_ind _ _ _ _ F)).
Qed.
Lemma fblock_agree s x c c' sz bn :
  agree s c c' → file_ok s x c sz → 0 ≤ bn < MAXFILE → fblock x c' bn = fblock x c bn.
Proof.
  intros A F Hb. unfold fblock. rewrite (faddr_agree s x c c' sz) by done.
  destruct (Z.eqb_spec (faddr x c bn) 0) as [|Hn]; [done|]. apply A. by apply (fo_blk _ _ _ _ F).
Qed.
Lemma file_ok_agree s x c c' sz :
  agree s c c' → (∀ b, owned s c b → owned s c' b) → file_ok s x c sz → file_ok s x c' sz.
Proof.
  intros A O F. pose proof (λ bn, faddr_agree s x c c' sz bn A F) as E. destruct F as [H1 H2 H3 H4 H5 H6 H7].
  split; try done.
  - intros Hi. by apply O, H3.
  - intros bn Hb. rewrite E. intros Hf. destruct (H4 bn Hb Hf). split; [by apply O|done].
  - intros b1 b2. rewrite !E. apply H5.
  - intros bn. rewrite E. apply H6.
Qed.

(** ** Allocation *)

Section alloc.
Context (s : fsst S) (c : Z → list Z) (y : Z).
Context (Ly : layout s) (Hlen : ∀ b, length (c b) = Z.to_nat BSIZE).
Context (Dy : data_block s y) (Hy : in_use (sb s) c y = false).
#[local] Abbreviation c1 := (allocated (sb s) c y).

Lemma alloc_in_use z : 0 ≤ z < sb_size (sb s) → in_use (sb s) c1 z = if decide (z = y) then true else in_use (sb s) c z.
Proof. by apply in_use_alloc. Qed.
Lemma alloc_new : c1 y = zero_block ∧ owned s c1 y.
Proof.
  split; [apply fset_eq|]. split; [done|]. pose proof (db_range _ _ Dy). rewrite alloc_in_use by lia. by case_decide.
Qed.
Lemma alloc_agree : agree s c c1.
Proof.
  intros b [D U]. unfold allocated. rewrite !fset_ne; [done| |by intros ->; congruence].
  apply not_eq_sym, (db_map _ _ D). pose proof (db_range _ _ Dy). lia.
Qed.
Lemma alloc_owned b : owned s c b → owned s c1 b.
Proof.
  intros [D U]. split; [done|]. pose proof (db_range _ _ D). rewrite alloc_in_use by lia. by case_decide.
Qed.
Lemma alloc_bitmap : bitmap_ok s c → bitmap_ok s c1.
Proof. intros H x Hx. rewrite alloc_in_use by done. case_decide; [done|]. by apply H. Qed.
Lemma alloc_len b : length (c1 b) = Z.to_nat BSIZE.
Proof.
  unfold allocated, fset. case_decide; [apply length_replicate|]. case_decide; [|done]. by rewrite length_mark.
Qed.
Lemma alloc_fresh x sz bn : file_ok s x c sz → 0 ≤ bn < MAXFILE → faddr x c bn ≠ y.
Proof.
  intros F Hb E. pose proof (db_range _ _ Dy). destruct (fo_blk _ _ _ _ F bn Hb ltac:(lia)) as [[_ U] _]. congruence.
Qed.
Lemma alloc_fresh_ind x sz : file_ok s x c sz → indirect x ≠ y.
Proof.
  intros F E. pose proof (db_range _ _ Dy). destruct (fo_ind _ _ _ _ F ltac:(lia)) as [_ U]. congruence.
Qed.
End alloc.

(** Entering block [y], all zeros, at a free place [bn] of the map. *)
Lemma file_link s x c x' c' sz bn y :
  file_ok s x c sz → 0 ≤ bn < MAXFILE → faddr x c bn = 0 →
  owned s c y → y ≠ indirect x → (∀ b, 0 ≤ b < MAXFILE → faddr x c b ≠ y) → c' y = zero_block →
  length (addrs x') = (NDIRECT + 1)%nat → inum x' = inum x → indirect x' = indirect x →
  (∀ b, owned s c b → owned s c' b ∧ (b ≠ indirect x → c' b = c b)) →
  (∀ b, 0 ≤ b < MAXFILE → faddr x' c' b = if decide (b = bn) then y else faddr x c b) →
  file_ok s x' c' sz ∧ ∀ b, 0 ≤ b < MAXFILE → fblock x' c' b = fblock x c b.
Proof.
  intros [H1 H2 H3 H4 H5 H6 H7] Hbn H0 Oy Hyi Hfr Hz Hl Hi Hind Hag E.
  assert (y ≠ 0) as Hy0 by (pose proof (db_range _ _ (proj1 Oy)); lia). split.
  - split; rewrite ?Hi, ?Hind; try done.
    + intros Hn. by apply Hag, H3.
    + intros b Hb. rewrite E by done. case_decide; [intros _; split; [by apply Hag|done]|].
      intros Hf. destruct (H4 b Hb Hf). split; [by apply Hag|done].
    + intros b1 b2 Hb1 Hb2. rewrite !E by done. repeat case_decide; intros Hq Hn.
      * congruence.
      * symmetry in Hq. by destruct (Hfr b2 Hb2).
      * by destruct (Hfr b1 Hb1).
      * by apply H5.
    + intros b Hb Hs. assert (b < MAXFILE) by (unfold MAXFILE, BSIZE in *; lia).
      rewrite E by lia. case_decide; [done|]. by apply H6.
  - intros b Hb. unfold fblock. rewrite E by done. case_decide as Hd.
    + subst b. rewrite H0, (proj2 (Z.eqb_neq y 0) Hy0). done.
    + destruct (Z.eqb_spec (faddr x c b) 0) as [|Hn]; [done|]. destruct (H4 b Hb Hn). by apply Hag.
Qed.

(** A direct block. *)
Lemma faddr_direct x c (k : nat) y bn :
  length (addrs x) = (NDIRECT + 1)%nat → (k < NDIRECT)%nat → 0 ≤ bn →
  let x' := x <| addrs := <[k := y]> (addrs x) |> in
  indirect x' = indirect x ∧ faddr x' c bn = if decide (bn = Z.of_nat k) then y else faddr x c bn.
Proof.
  intros Hl Hk Hb x'. assert (indirect x' = indirect x) as Ei.
  { unfold indirect, x'. simpl. by rewrite list_lookup_total_insert_ne by lia. }
  split; [done|]. unfold faddr. rewrite Ei. destruct (Z.ltb_spec bn (Z.of_nat NDIRECT)) as [Hlt|Hge].
  - simpl. case_decide as Hd.
    + subst bn. rewrite Nat2Z.id, list_lookup_total_insert_eq; [done|lia].
    + rewrite list_lookup_total_insert_ne; [done|lia].
  - rewrite decide_False by lia. done.
Qed.

Lemma get32_zero off : get32 zero_block off = 0.
Proof.
  unfold get32, zero_block. rewrite drop_replicate, take_replicate. generalize (4 `min` (Z.to_nat BSIZE - off))%nat.
  intros n. induction n as [|n IH]; [done|]. change (u8 0 + 256 * le_value (replicate n 0) = 0). by rewrite IH.
Qed.
(** The indirect block, all zeros: the map stays. *)
Lemma faddr_new_indirect x c y bn :
  length (addrs x) = (NDIRECT + 1)%nat → indirect x = 0 → c y = zero_block → 0 ≤ bn < MAXFILE →
  let x' := x <| addrs := <[NDIRECT := y]> (addrs x) |> in
  indirect x' = y ∧ faddr x' c bn = faddr x c bn.
Proof.
  intros Hl Hi Hz Hb x'. assert (indirect x' = y) as Ei.
  { unfold indirect, x'. simpl. rewrite list_lookup_total_insert_eq; [done|]. rewrite Hl. lia. }
  split; [done|]. unfold faddr. rewrite Ei, Hi. destruct (Z.ltb_spec bn (Z.of_nat NDIRECT)) as [Hlt|Hge].
  - simpl. rewrite list_lookup_total_insert_ne; [done|lia].
  - rewrite Hz, get32_zero. by destruct (y =? 0).
Qed.

(** An entry of the indirect block. *)
Lemma faddr_entry x c k y bn :
  length (c (indirect x)) = Z.to_nat BSIZE → indirect x ≠ 0 → 0 ≤ k < NINDIRECT → 0 ≤ y < 2 ^ 32 → 0 ≤ bn < MAXFILE →
  let c' := fset (indirect x) (put32 (c (indirect x)) (4 * Z.to_nat k) y) c in
  faddr x c' bn = if decide (bn = k + Z.of_nat NDIRECT) then y else faddr x c bn.
Proof.
  intros Hl Hi Hk Hy Hb c'. unfold MAXFILE, NINDIRECT in *. unfold faddr.
  destruct (Z.ltb_spec bn (Z.of_nat NDIRECT)) as [Hlt|Hge]; [rewrite decide_False by lia; done|].
  rewrite (proj2 (Z.eqb_neq (indirect x) 0) Hi). unfold c'. rewrite fset_eq.
  change (BSIZE / 4) with 256 in *. change (Z.to_nat BSIZE) with 1024%nat in Hl.
  case_decide as Hd.
  - subst bn. replace (k + Z.of_nat NDIRECT - Z.of_nat NDIRECT) with k by lia.
    rewrite get_put32_eq by lia. by apply u32_small.
  - apply get_put32_ne; lia.
Qed.

(** ** bmap *)

(** Every block is in use. *)
Definition full s c : Prop := ∀ j, 0 ≤ j < sb_size (sb s) → in_use (sb s) c j = true.

(** Of the inodes, only [i] changes, and only its block map. *)
Record touches (i : nat) s s' : Prop := {
  tc_geo : geo s s';
  tc_length : length (inodes s') = length (inodes s);
  tc_others : ∀ j, j ≠ i → inodes s' !!! j = inodes s !!! j;
  tc_self : ∃ ad, inodes s' !!! i = (inodes s !!! i) <| addrs := ad |>
}.
Lemma touches_same i s s' : geo s s' → inodes s' = inodes s → touches i s s'.
Proof. intros G E. split; [done|by rewrite E|by rewrite E|]. exists (addrs (inodes s !!! i)). rewrite E. by destruct (inodes s !!! i). Qed.
Lemma touches_trans i s1 s2 s3 : touches i s1 s2 → touches i s2 s3 → touches i s1 s3.
Proof.
  intros [G1 L1 O1 [a1 A1]] [G2 L2 O2 [a2 A2]]. split; [by eapply geo_trans|congruence| |].
  - intros j Hj. by rewrite O2, O1.
  - exists a2. by rewrite A2, A1.
Qed.
Lemma touches_moves i s s' : moves s s' → touches i s s'.
Proof. intros Mv. apply touches_same; [by apply moves_geo|apply (moves_sb _ _ Mv)]. Qed.
Lemma touches_seti i s ad :
  (i < length (inodes s))%nat →
  let s' := s <| inodes := alter (λ x, x <| addrs := ad |>) i (inodes s) |> in
  touches i s s' ∧ inodes s' !!! i = (inodes s !!! i) <| addrs := ad |>.
Proof.
  intros Hi s'. assert (inodes s' !!! i = (inodes s !!! i) <| addrs := ad |>) as E.
  { unfold s'. simpl. rewrite list_lookup_total_alter. by rewrite decide_True. }
  split; [|done]. split; [done|by apply length_alter| |by eexists].
  intros j Hj. unfold s'. simpl. rewrite list_lookup_total_alter. rewrite decide_False; [done|]. intros [? ?]. done.
Qed.

(** [ip->addrs[k] = balloc(ip->dev)], unless the disk is full. *)
Lemma alloc_at_spec dev s bs c d i (k : nat) :
  tx dev s bs ∅ c d → layout s → bitmap_ok s c → (i < length (inodes s))%nat →
  Z.of_nat (length bs) < l_size (flog s) - 2 →
  wp (let! addr := balloc dev in
      if addr =? 0 then ret 0 else
      do! seti i (λ x, x <| addrs := <[k := addr]> (addrs x) |>) in
      ret addr)
    (λ addr s', touches i s s' ∧
      ((addr = 0 ∧ full s c ∧ tx dev s' bs ∅ c d ∧ inodes s' = inodes s) ∨
       (addr ≠ 0 ∧ data_block s addr ∧ in_use (sb s) c addr = false ∧
        tx dev s' (alloc_blocks (sb s) bs addr) ∅ (allocated (sb s) c addr) d ∧
        inodes s' !!! i = (inodes s !!! i) <| addrs := <[k := addr]> (addrs (inodes s !!! i)) |>))) s.
Proof.
  intros H Ly Hb Hi Hsp. apply wp_bind.
  eapply wp_mono; [|apply (balloc_spec dev s bs ∅ c d H Ly Hb (apart_empty s c)); rewrite map_size_empty; lia].
  intros y s1 [(Mv & Hy & Hf & _ & T)|(-> & Hfull & Es & G & T)].
  - rewrite (proj2 (Z.eqb_neq y 0)) by lia. pose proof (moves_sb _ _ Mv) as (_ & Ei & _).
    apply wp_bind, wp_modify, wp_ret.
    assert (alter (λ x, x <| addrs := <[k := y]> (addrs x) |>) i (inodes s1) =
      alter (λ x, x <| addrs := <[k := y]> (addrs (inodes s1 !!! i)) |>) i (inodes s1)) as Ea.
    { apply list_alter_ext; [|done]. intros x Hx. by rewrite (list_lookup_total_correct _ _ _ Hx). }
    rewrite Ea. destruct (touches_seti i s1 (<[k := y]> (addrs (inodes s1 !!! i)))) as [Tc E]; [by rewrite Ei|].
    split; [eapply touches_trans; [by apply touches_moves|exact Tc]|]. right. split; [lia|].
    split; [apply Hb; [lia|done]|]. split; [done|]. split; [by eapply tx_flog; [|exact T]|].
    rewrite E, Ei. done.
  - change (0 =? 0) with true. apply wp_ret. split; [|left]. 2: split; [done|]; split; [done|]; split; [done|]; by rewrite Es.
    apply touches_same; [done|by rewrite Es].
Qed.

(** [addr] is the block of the file at [bn], 0 on a full disk; the contents of
    the file stay, and at most [n] blocks were added to the transaction. *)
Definition bmap_post (n : nat) (dev : Z) s bs c d i (sz bn addr : Z) s' : Prop := ∃ bs' c',
  touches i s s' ∧ tx dev s' bs' ∅ c' d ∧ bitmap_ok s' c' ∧ file_ok s' (inodes s' !!! i) c' sz ∧
  (∀ b, 0 ≤ b < MAXFILE → fblock (inodes s' !!! i) c' b = fblock (inodes s !!! i) c b) ∧
  (length bs' ≤ length bs + n)%nat ∧
  ((addr = 0 ∧ full s' c') ∨ (addr ≠ 0 ∧ faddr (inodes s' !!! i) c' bn = addr ∧ (addr ∈ bs' ∨ (faddr (inodes s !!! i) c bn = addr ∧ bs' = bs)))).

(** A state described for [bmap]: the transaction, the disk layout and the file. *)
Record file_txw {w : bool} (dev : Z) s bs c d (i : nat) (sz : Z) : Prop := {
  ft_tx : txw (w := w) dev s bs ∅ c d;
  ft_layout : layout s;
  ft_bitmap : bitmap_ok s c;
  ft_file : file_ok s (inodes s !!! i) c sz;
  ft_index : (i < length (inodes s))%nat;
  ft_dev : i_dev (inodes s !!! i) = dev
}.
Notation file_tx := (file_txw (w := true)).

(** No block was added. *)
Lemma bmap_unchanged n dev s s' bs c d i sz bn addr :
  file_tx dev s bs c d i sz → geo s s' → inodes s' = inodes s → tx dev s' bs ∅ c d →
  (addr = 0 ∧ full s c) ∨ (addr ≠ 0 ∧ faddr (inodes s !!! i) c bn = addr) → bmap_post n dev s bs c d i sz bn addr s'.
Proof.
  intros [_ _ Hb F _ _] G Ei T Ha. exists bs, c. rewrite Ei. split; [by apply touches_same|]. split; [done|].
  split; [by eapply bitmap_ok_geo|]. split; [by eapply file_ok_geo|]. split; [done|]. split; [lia|].
  destruct Ha as [[-> Hf]|[Hn Ha]]; [left|right; auto]. split; [done|]. intros j. rewrite (proj1 G). apply Hf.
Qed.

Lemma bmap_direct_alloc dev s bs c d i sz bn :
  file_tx dev s bs c d i sz → 0 ≤ bn < Z.of_nat NDIRECT → faddr (inodes s !!! i) c bn = 0 →
  Z.of_nat (length bs) < l_size (flog s) - 2 →
  wp (let! addr := balloc dev in
      if addr =? 0 then ret 0 else
      do! seti i (λ x, x <| addrs := <[Z.to_nat bn := addr]> (addrs x) |>) in
      ret addr) (bmap_post 2 dev s bs c d i sz bn) s.
Proof.
  intros FT Hbn H0 Hsp. pose proof FT as [H Ly Hb F Hi Hd]. set (x := inodes s !!! i) in *.
  assert (∀ b, length (c b) = Z.to_nat BSIZE) as Hlen by (intros; by eapply tx_len).
  eapply wp_mono; [|by apply (alloc_at_spec dev s bs c d i (Z.to_nat bn))].
  intros y s' [Tc [(-> & Hf & T & Ei)|(Hy0 & Dy & Hy & T & Ex)]].
  - apply bmap_unchanged; [done|apply Tc|done|done|by left].
  - set (c1 := allocated (sb s) c y) in *. fold x in Ex.
    pose proof (alloc_agree s c y Dy Hy) as Ag. pose proof (alloc_owned s c y Ly Hlen Dy) as Ow.
    pose proof (file_ok_agree s x c c1 sz Ag Ow F) as F1.
    pose proof (λ b, faddr_direct x c1 (Z.to_nat bn) y b (fo_len _ _ _ _ F) ltac:(lia)) as Fd.
    destruct (alloc_new s c y Ly Hlen Dy) as [Hz Oy].
    assert (∀ b, faddr x c1 b = faddr x c b) as Efa by (intros; by eapply faddr_agree).
    destruct (file_link s x c1 (x <| addrs := <[Z.to_nat bn := y]> (addrs x) |>) c1 sz bn y F1) as [F2 Hblk].
    + rewrite maxfile. lia.
    + by rewrite Efa.
    + done.
    + intros E. by eapply (alloc_fresh_ind s c y Dy Hy x sz F).
    + intros b Hb'. rewrite Efa. by apply (alloc_fresh s c y Dy Hy x sz b F).
    + done.
    + simpl. rewrite length_insert. apply (fo_len _ _ _ _ F).
    + done.
    + apply (Fd 0). lia.
    + done.
    + intros b Hb'. destruct (Fd b ltac:(lia)) as [_ ->]. by rewrite Z2Nat.id by lia.
    + exists (alloc_blocks (sb s) bs y), c1. pose proof (tc_geo _ _ _ Tc) as G. rewrite Ex.
      split; [done|]. split; [done|]. split; [eapply bitmap_ok_geo; [done|]; by apply alloc_bitmap|].
      split; [by eapply file_ok_geo|]. split; [|split].
      * intros b Hb'. rewrite Hblk by done. by eapply fblock_agree.
      * pose proof (length_alloc_blocks (sb s) bs y). lia.
      * right. split; [done|]. split; [|left; apply elem_of_add; by left].
        destruct (Fd bn ltac:(lia)) as [_ ->]. rewrite decide_True by lia. done.
Qed.

Lemma faddr_indirect x c bn :
  Z.of_nat NDIRECT ≤ bn → indirect x ≠ 0 → faddr x c bn = get32 (c (indirect x)) (4 * Z.to_nat (bn - Z.of_nat NDIRECT)).
Proof.
  intros Hb Hi. unfold faddr. rewrite (proj2 (Z.ltb_ge bn _) Hb). by rewrite (proj2 (Z.eqb_neq _ 0) Hi).
Qed.

(** The file after a new block [y] was entered in the indirect block. *)
Lemma file_entry s x c sz bn y :
  layout s → (∀ b, length (c b) = Z.to_nat BSIZE) → file_ok s x c sz → bitmap_ok s c →
  data_block s y → in_use (sb s) c y = false → indirect x ≠ 0 → Z.of_nat NDIRECT ≤ bn < MAXFILE → faddr x c bn = 0 →
  let c1 := allocated (sb s) c y in
  let c2 := fset (indirect x) (put32 (c1 (indirect x)) (4 * Z.to_nat (bn - Z.of_nat NDIRECT)) y) c1 in
  file_ok s x c2 sz ∧ bitmap_ok s c2 ∧ faddr x c2 bn = y ∧ ∀ b, 0 ≤ b < MAXFILE → fblock x c2 b = fblock x c b.
Proof.
  intros Ly Hlen F Hb Dy Hy Hi Hbn H0 c1 c2. pose proof (fo_ind _ _ _ _ F Hi) as Oi.
  pose proof (alloc_agree s c y Dy Hy) as Ag. pose proof (alloc_owned s c y Ly Hlen Dy) as Ow.
  pose proof (file_ok_agree s x c c1 sz Ag Ow F) as F1. destruct (alloc_new s c y Ly Hlen Dy) as [Hz Oy].
  assert (∀ b, faddr x c1 b = faddr x c b) as Efa by (intros; by eapply faddr_agree).
  assert (indirect x ≠ y) as Hne by (by eapply alloc_fresh_ind).
  assert (∀ z, 0 ≤ z < sb_size (sb s) → in_use (sb s) c2 z = in_use (sb s) c1 z) as Eu.
  { intros z Hz'. unfold in_use, c2. rewrite fset_ne; [done|]. by apply (db_map _ _ (proj1 Oi)). }
  assert (∀ b, 0 ≤ b < MAXFILE → faddr x c2 b = if decide (b = bn) then y else faddr x c1 b) as Ef.
  { intros b Hb'. unfold c2. pose proof (owned_range _ _ _ Ly Oy). rewrite faddr_entry; try done; try lia.
    - by replace (bn - Z.of_nat NDIRECT + Z.of_nat NDIRECT) with bn by lia.
    - apply alloc_len, Hlen.
    - change NINDIRECT with 256. rewrite maxfile in Hbn. lia. }
  destruct (file_link s x c1 x c2 sz bn y F1) as [F2 Hblk]; try done.
  - lia.
  - by rewrite Efa.
  - intros b Hb'. rewrite Efa. by eapply alloc_fresh.
  - unfold c2. rewrite fset_ne by done. done.
  - apply (fo_len _ _ _ _ F).
  - intros b [Db Ub]. split; [split; [done|]|].
    + rewrite Eu; [done|]. pose proof (db_range _ _ Db). lia.
    + intros Hn. unfold c2. by rewrite fset_ne.
  - split; [done|]. split; [|split].
    + intros z Hz'. rewrite Eu by done. by apply (alloc_bitmap s c y Ly Hlen Dy Hb).
    + rewrite Ef by lia. by rewrite decide_True.
    + intros b Hb'. rewrite Hblk by done. by eapply fblock_agree.
Qed.

(** A new entry of the indirect block [a], whose buffer [b] is held. *)
Lemma bmap_entry_alloc dev s s1 bs c d i sz bn b :
  let a := indirect (inodes s !!! i) in
  let off := (4 * Z.to_nat (bn - Z.of_nat NDIRECT))%nat in
  file_tx dev s bs c d i sz → Z.of_nat NDIRECT ≤ bn < MAXFILE → a ≠ 0 → faddr (inodes s !!! i) c bn = 0 →
  Z.of_nat (length bs) < l_size (flog s) - 3 →
  geo s s1 → inodes s1 = inodes s → tx dev s1 bs (<[a := b]> ∅) c d →
  wp (let! addr := balloc dev in
      if addr =? 0 then ret 0 else
      let! y := fs_data b in
      do! fs_set b (put32 y off addr) in
      do! fs_log_write b in
      ret addr)
    (λ addr s', wp (do! fs_brelse b in ret addr) (bmap_post 3 dev s bs c d i sz bn) s') s1.
Proof.
  intros a off FT Hbn Hin H0 Hsp G1 Ei1 H1. pose proof FT as [H Ly Hb F Hi Hd]. set (x := inodes s !!! i) in *.
  pose proof (fo_ind _ _ _ _ F Hin) as Oa. fold a in Oa. pose proof (owned_range _ _ _ Ly Oa) as Ra.
  assert (∀ b, length (c b) = Z.to_nat BSIZE) as Hlen by (intros; by eapply tx_len).
  apply wp_bind. eapply wp_mono; [|apply (balloc_spec dev s1 bs (<[a := b]> ∅) c d H1)].
  - intros y s2 [(Mv & Hy & Hf & _ & T)|(-> & Hfull & Es & G & T)].
    + rewrite (proj1 G1) in *. pose proof (Hb y ltac:(lia) Hf) as Dy.
      rewrite (proj2 (Z.eqb_neq y 0)) by lia. apply wp_bind.
      eapply tx_data; [exact T|apply lookup_insert_eq|]. apply wp_bind.
      eapply tx_set; [exact T|apply lookup_insert_eq| |].
      { rewrite length_put32; rewrite alloc_len by done; [done|].
        change (Z.to_nat BSIZE) with 1024%nat. rewrite maxfile in Hbn. unfold off. lia. }
      intros s3 M3 H3. apply wp_bind. pose proof (moves_trans _ _ _ Mv M3) as M13.
      pose proof (geo_trans _ _ _ G1 (moves_geo _ _ M13)) as G3. pose proof (length_alloc_blocks (sb s) bs y) as Hn.
      eapply tx_log_write; [exact H3|apply lookup_insert_eq|lia| | |].
      { rewrite (in_log_geo _ _ _ G3). apply (db_log _ _ (proj1 Oa)). }
      { rewrite (geo_size _ _ G3). lia. }
      intros s4 M4 H4. apply wp_ret. apply wp_bind.
      eapply tx_release; [exact H4|apply lookup_insert_eq| |].
      { intros Hn'. destruct Hn'. apply elem_of_add. by left. }
      intros s5 M5 H5. apply wp_ret. rewrite delete_insert_id in H5 by apply lookup_empty.
      pose proof (moves_trans _ _ _ M13 (moves_trans _ _ _ M4 M5)) as M15.
      pose proof (geo_trans _ _ _ G1 (moves_geo _ _ M15)) as G5. pose proof (moves_sb _ _ M15) as (_ & Ei5 & _).
      destruct (file_entry s x c sz bn y Ly Hlen F Hb Dy Hf Hin Hbn H0) as (F2 & B2 & A2 & Hblk).
      eexists _, _. rewrite Ei5, Ei1. split; [apply touches_same; [done|congruence]|]. split; [exact H5|].
      split; [by eapply bitmap_ok_geo|]. split; [by eapply file_ok_geo|]. split; [exact Hblk|].
      pose proof (length_add_block a (alloc_blocks (sb s) bs y)). split; [lia|]. right. split; [lia|].
      split; [exact A2|]. left. apply elem_of_add. right. apply elem_of_add. by left.
    + change (0 =? 0) with true. apply wp_ret. apply wp_bind.
      eapply tx_release; [exact T|apply lookup_insert_eq|intros Hn; by apply (tx_clean _ _ _ _ _ _ _ H)|].
      intros s3 M3 H3. rewrite delete_insert_id in H3 by apply lookup_empty. apply wp_ret.
      pose proof (moves_sb _ _ M3) as (_ & Ex & _).
      apply bmap_unchanged; [done| |rewrite Ex, Es; done|done|left; split; [done|by rewrite (proj1 G1) in Hfull]].
      eapply geo_trans; [exact G1|]. eapply geo_trans; [exact G|]. by apply moves_geo.
  - by eapply layout_geo.
  - by eapply bitmap_ok_geo.
  - intros z b' Hz. apply lookup_insert_Some in Hz as [[<- _]|[_ Hz]]; [|by rewrite lookup_empty in Hz].
    by apply (owned_geo _ _ _ _ G1).
  - rewrite (geo_size _ _ G1), map_size_insert_None, map_size_empty by apply lookup_empty. lia.
Qed.

(** The second half of the indirect case of [bmap]. *)
Definition bmap_second (dev a : Z) (off : nat) : M (fsst S) Z :=
  let! bp := fs_bread dev a in
  let! a := fs_data bp in
  let! addr :=
    (if get32 a off =? 0 then
       let! addr := balloc dev in
       if addr =? 0 then ret 0 else
       let! a := fs_data bp in
       do! fs_set bp (put32 a off addr) in
       do! fs_log_write bp in
       ret addr
     else ret (get32 a off)) in
  do! fs_brelse bp in
  ret addr.
Lemma bmap_second_spec dev s bs c d i sz bn :
  file_tx dev s bs c d i sz → Z.of_nat NDIRECT ≤ bn < MAXFILE → indirect (inodes s !!! i) ≠ 0 →
  Z.of_nat (length bs) < l_size (flog s) - 3 →
  wp (bmap_second dev (indirect (inodes s !!! i)) (4 * Z.to_nat (bn - Z.of_nat NDIRECT)))
    (bmap_post 3 dev s bs c d i sz bn) s.
Proof.
  intros FT Hbn Hin Hsp. pose proof FT as [H Ly Hb F Hi Hd].
  pose proof (owned_range _ _ _ Ly (fo_ind _ _ _ _ F Hin)) as Ra. pose proof (tx_fit _ _ _ _ _ _ H) as Hfit.
  unfold bmap_second. apply wp_bind. eapply tx_bread; [exact H|lia|apply lookup_empty|rewrite map_size_empty; lia|].
  intros b s1 M1 H1. pose proof (moves_geo _ _ M1) as G1. pose proof (moves_sb _ _ M1) as (_ & Ei1 & _).
  apply wp_bind. eapply tx_data; [exact H1|apply lookup_insert_eq|].
  rewrite <- (faddr_indirect _ c bn) by (done || lia).
  apply wp_bind. destruct (Z.eqb_spec (faddr (inodes s !!! i) c bn) 0) as [E0|N0].
  - by eapply bmap_entry_alloc.
  - apply wp_ret. apply wp_bind. eapply tx_release; [exact H1|apply lookup_insert_eq| |].
    { intros Hn. by apply (tx_clean _ _ _ _ _ _ _ H). }
    intros s2 M2 H2. rewrite delete_insert_id in H2 by apply lookup_empty. apply wp_ret.
    pose proof (moves_trans _ _ _ M1 M2) as M02. apply bmap_unchanged; [done|by apply moves_geo|by apply (moves_sb _ _ M02)|done|by right].
Qed.

Lemma bmap_post_mono n m dev s bs c d i sz bn addr s' :
  (n ≤ m)%nat → bmap_post n dev s bs c d i sz bn addr s' → bmap_post m dev s bs c d i sz bn addr s'.
Proof. intros Hn (bs' & c' & H1 & H2 & H3 & H4 & H5 & H6 & H7). exists bs', c'. split_and!; try done. lia. Qed.

(** The indirect block was allocated first. *)
Lemma bmap_new_indirect dev s s1 bs c d i sz y :
  file_tx dev s bs c d i sz → indirect (inodes s !!! i) = 0 → data_block s y → in_use (sb s) c y = false →
  touches i s s1 → tx dev s1 (alloc_blocks (sb s) bs y) ∅ (allocated (sb s) c y) d →
  inodes s1 !!! i = (inodes s !!! i) <| addrs := <[NDIRECT := y]> (addrs (inodes s !!! i)) |> →
  file_tx dev s1 (alloc_blocks (sb s) bs y) (allocated (sb s) c y) d i sz ∧ indirect (inodes s1 !!! i) = y ∧
  ∀ b, 0 ≤ b < MAXFILE →
    faddr (inodes s1 !!! i) (allocated (sb s) c y) b = faddr (inodes s !!! i) c b ∧
    fblock (inodes s1 !!! i) (allocated (sb s) c y) b = fblock (inodes s !!! i) c b.
Proof.
  intros [H Ly Hb F Hi Hd] Hin Dy Hy Tc T Ex. set (x := inodes s !!! i) in *. set (c1 := allocated (sb s) c y) in *.
  assert (∀ b, length (c b) = Z.to_nat BSIZE) as Hlen by (intros; by eapply tx_len).
  pose proof (alloc_agree s c y Dy Hy) as Ag. pose proof (alloc_owned s c y Ly Hlen Dy) as Ow.
  destruct (alloc_new s c y Ly Hlen Dy) as [Hz Oy]. pose proof (tc_geo _ _ _ Tc) as G.
  pose proof (λ b, faddr_new_indirect x c1 y b (fo_len _ _ _ _ F) Hin Hz) as Fi. cbv zeta in Fi. rewrite <- Ex in Fi.
  assert (∀ b, 0 ≤ b < MAXFILE → faddr (inodes s1 !!! i) c1 b = faddr x c b) as Ef.
  { intros b Hb'. destruct (Fi b Hb') as [_ ->]. by eapply faddr_agree. }
  pose proof (proj1 (Fi 0 ltac:(rewrite maxfile; lia))) as Ei.
  assert (∀ b, 0 ≤ b < MAXFILE → faddr x c b ≠ 0 → owned s c (faddr x c b)) as Ob by (intros b ? ?; by apply (fo_blk _ _ _ _ F)).
  split; [|split; [done|]].
  - split; [done|by eapply layout_geo|eapply bitmap_ok_geo; [done|]; by apply alloc_bitmap| | |].
    + pose proof F as [H1 H2 H3 H4 H5 H6 H7]. split.
      * rewrite Ex. simpl. by rewrite length_insert.
      * by rewrite Ex, (proj1 G).
      * rewrite Ei. intros _. by eapply owned_geo.
      * intros b Hb'. rewrite Ef, Ei by done. intros Hn. split; [eapply owned_geo; [done|]; by apply Ow, Ob|].
        by apply (alloc_fresh s c y Dy Hy x sz b F).
      * intros b1 b2 Hb1 Hb2. rewrite !Ef by done. by apply H5.
      * intros b Hb' Hs. assert (b < MAXFILE) by (unfold MAXFILE, BSIZE in *; lia). rewrite Ef by lia. by apply H6.
      * done.
    + by rewrite (tc_length _ _ _ Tc).
    + by rewrite Ex.
  - intros b Hb'. split; [by apply Ef|]. unfold fblock. rewrite Ef by done.
    destruct (Z.eqb_spec (faddr x c b) 0); [done|]. by apply Ag, Ob.
Qed.

Lemma bmap_spec dev s bs c d i sz bn :
  file_tx dev s bs c d i sz → 0 ≤ bn < MAXFILE → Z.of_nat (length bs) < l_size (flog s) - 5 →
  wp (bmap i bn) (bmap_post 5 dev s bs c d i sz bn) s.
Proof.
  intros FT Hbn Hsp. pose proof FT as [H Ly Hb F Hi Hd]. unfold bmap. apply wp_bind.
  unfold geti. apply wp_gets. set (x := inodes s !!! i) in *.
  destruct (Z.ltb_spec bn (Z.of_nat NDIRECT)) as [Hlt|Hge].
  - assert (faddr x c bn = addrs x !!! Z.to_nat bn) as Ef by (unfold faddr; by rewrite (proj2 (Z.ltb_lt _ _) Hlt)).
    rewrite <- Ef. destruct (Z.eqb_spec (faddr x c bn) 0) as [E0|N0].
    + rewrite Hd. eapply wp_mono; [|apply (bmap_direct_alloc dev s bs c d i sz bn FT); [lia|done|lia]].
      intros addr s'. apply bmap_post_mono. lia.
    + apply wp_ret. apply bmap_unchanged; [done|done|done|done|by right].
  - rewrite (proj2 (Z.ltb_lt (bn - Z.of_nat NDIRECT) NINDIRECT)) by (change NINDIRECT with 256; rewrite maxfile in Hbn; lia).
    rewrite Hd. fold (indirect x). apply wp_bind. destruct (Z.eqb_spec (indirect x) 0) as [E0|N0].
    + eapply wp_mono; [|apply (alloc_at_spec dev s bs c d i NDIRECT H Ly Hb Hi); lia].
      intros y s1 [Tc [(-> & Hf & T & Ei)|(Hy0 & Dy & Hy & T & Ex)]].
      * change (0 =? 0) with true. apply wp_ret. apply bmap_unchanged; [done|apply Tc|done|done|by left].
      * rewrite (proj2 (Z.eqb_neq y 0) Hy0).
        destruct (bmap_new_indirect dev s s1 bs c d i sz y FT E0 Dy Hy Tc T Ex) as (FT1 & Ei & Hsame).
        pose proof (length_alloc_blocks (sb s) bs y) as Hn. pose proof (tc_geo _ _ _ Tc) as G.
        pose proof (bmap_second_spec dev s1 _ _ d i sz bn FT1 ltac:(lia) ltac:(by rewrite Ei)
          ltac:(rewrite (geo_size _ _ G); lia)) as B2.
        rewrite Ei in B2. eapply wp_mono; [|exact B2].
        intros addr s' (bs' & c' & P1 & P2 & P3 & P4 & P5 & P6 & P7).
        exists bs', c'. split; [by eapply touches_trans|]. split; [done|]. split; [done|]. split; [done|].
        split; [|split; [lia|]].
        -- intros b Hb'. rewrite P5 by done. by apply Hsame.
        -- destruct P7 as [P7|(Q1 & Q2 & [Q3|[Q3 _]])]; [by left|right; auto|].
           right. split; [done|]. split; [done|]. destruct (Hsame bn ltac:(lia)) as [Q4 _]. rewrite Q4 in Q3.
           destruct Q1. rewrite <- Q3. unfold faddr. rewrite (proj2 (Z.ltb_ge _ _) Hge). fold x. by rewrite E0.
    + apply wp_ret. rewrite (proj2 (Z.eqb_neq _ 0) N0).
      eapply wp_mono; [|apply (bmap_second_spec dev s bs c d i sz bn FT); [lia|done|lia]].
      intros addr s'. apply bmap_post_mono. lia.
Qed.
End fs_file.
Notation file_tx := (file_txw (w := true)).
