(* ===== verification/FsRw.v ===== *)
(** * Reading and writing files

    [readi] returns the bytes of the file, [writei] replaces them; [iupdate]
    puts the inode on disk. Built on the block map of FsFile.v. *)

From S2P Require Import Prelude.
From S2P Require Import Machine.
From S2P Require Import Bio.
From S2P Require Import BioSpec.
From S2P Require Import Log.
From S2P Require Import LogSpec.
From S2P Require Import Fs.
From S2P Require Import FsInode.
From S2P Require Import FsSpec.
From S2P Require Import FsFile.
#[local] Open Scope Z_scope.

Section fs_rw.
Context {S : Type} `{!BufOps S} `{!BufLaws S}.
Implicit Types (s : fsst S) (x : inode) (c : Z → list Z) (bs : list Z).

(** ** bmap of a block that exists *)

Lemma bmap_mapped {w} dev s bs c d i sz bn :
  file_txw (w := w) dev s bs c d i sz → 0 ≤ bn < MAXFILE → faddr (inodes s !!! i) c bn ≠ 0 →
  wp (bmap i bn) (λ addr s', addr = faddr (inodes s !!! i) c bn ∧ moves s s' ∧ txw (w := w) dev s' bs ∅ c d) s.
Proof.
  intros [H Ly Hb F Hi Hd] Hbn Hn. unfold bmap. apply wp_bind. unfold geti. apply wp_gets.
  set (x := inodes s !!! i) in *. destruct (Z.ltb_spec bn (Z.of_nat NDIRECT)) as [Hlt|Hge].
  - assert (faddr x c bn = addrs x !!! Z.to_nat bn) as Ef by (unfold faddr; by rewrite (proj2 (Z.ltb_lt _ _) Hlt)).
    rewrite <- Ef, (proj2 (Z.eqb_neq _ 0) Hn). apply wp_ret. split; [done|]. split; [apply moves_refl|done].
  - rewrite (proj2 (Z.ltb_lt (bn - Z.of_nat NDIRECT) NINDIRECT)) by (change NINDIRECT with 256; rewrite maxfile in Hbn; lia).
    assert (indirect x ≠ 0) as Hin.
    { intros E. apply Hn. unfold faddr. rewrite (proj2 (Z.ltb_ge _ _) Hge). by rewrite E. }
    rewrite Hd. fold (indirect x). rewrite (proj2 (Z.eqb_neq _ 0) Hin). apply wp_bind, wp_ret.
    rewrite (proj2 (Z.eqb_neq _ 0) Hin). pose proof (owned_range _ _ _ Ly (fo_ind _ _ _ _ F Hin)).
    pose proof (tx_fit _ _ _ _ _ _ H). apply wp_bind.
    eapply tx_bread; [exact H|lia|apply lookup_empty|rewrite map_size_empty; lia|]. intros b s1 M1 T1.
    apply wp_bind. eapply tx_data; [exact T1|apply lookup_insert_eq|].
    rewrite <- (faddr_indirect x c bn) by done. rewrite (proj2 (Z.eqb_neq _ 0) Hn).
    apply wp_bind, wp_ret. apply wp_bind. eapply tx_release; [exact T1|apply lookup_insert_eq| |].
    { intros Hn'. by apply (tx_clean _ _ _ _ _ _ _ H). }
    intros s2 M2 T2. rewrite delete_insert_id in T2 by apply lookup_empty. apply wp_ret.
    split; [done|]. split; [by eapply moves_trans|done].
Qed.

(** ** readi *)

(** The number of blocks that [k] bytes from offset [o] in a block touch. *)
Definition nblocks (o k : Z) : Z := if k <=? 0 then 0 else (o + k + BSIZE - 1) / BSIZE.
Lemma nblocks_step o k :
  0 ≤ o < BSIZE → 0 < k → let m := Z.min k (BSIZE - o) in nblocks o k = 1 + nblocks ((o + m) mod BSIZE) (k - m).
Proof.
  intros Ho Hk m. unfold nblocks, m, BSIZE in *. rewrite (proj2 (Z.leb_gt k 0) Hk).
  destruct (Z.min_spec k (1024 - o)) as [[Hm ->]|[Hm ->]].
  - rewrite (proj2 (Z.leb_le (k - k) 0)) by lia. dlia.
  - replace (o + (1024 - o)) with (1 * 1024) by lia. rewrite Z.mod_mul by lia.
    destruct (Z.leb_spec (k - (1024 - o)) 0); dlia.
Qed.
Lemma nblocks_nonneg o k : 0 ≤ o → 0 ≤ nblocks o k.
Proof. intros. unfold nblocks, BSIZE. destruct (Z.leb_spec k 0); dlia. Qed.
Lemma nblocks_fuel o k : 0 ≤ o < BSIZE → 0 ≤ k → nblocks o k < Z.of_nat (blocks_fuel k).
Proof. intros. unfold nblocks, blocks_fuel, BSIZE in *. destruct (Z.leb_spec k 0); dlia. Qed.

Lemma block_pos p : 0 ≤ p → p = BSIZE * (p / BSIZE) + p mod BSIZE ∧ 0 ≤ p mod BSIZE < BSIZE ∧ 0 ≤ p / BSIZE.
Proof. unfold BSIZE. intros. dlia. Qed.

(** A piece of one block is a piece of the file. *)
Lemma block_bytes x c off m :
  length (fblock x c (off / BSIZE)) = Z.to_nat BSIZE → 0 ≤ off → 0 ≤ m ≤ BSIZE - off mod BSIZE →
  take (Z.to_nat m) (drop (Z.to_nat (off mod BSIZE)) (fblock x c (off / BSIZE))) = map (fbyte x c) (seqZ off m).
Proof.
  intros Hl Ho Hm. destruct (block_pos off Ho) as (E1 & E2 & E3). apply list_eq. intros k.
  destruct (decide (Z.of_nat k < m)) as [Hk|Hk].
  - rewrite lookup_take_lt, lookup_drop by lia. rewrite list_lookup_fmap, lookup_seqZ_lt by lia. simpl.
    unfold fbyte. assert ((off + Z.of_nat k) / BSIZE = off / BSIZE ∧ (off + Z.of_nat k) mod BSIZE = off mod BSIZE + Z.of_nat k) as [-> ->]
      by (unfold BSIZE in *; dlia).
    replace (Z.to_nat (off mod BSIZE + Z.of_nat k)) with (Z.to_nat (off mod BSIZE) + k)%nat by lia.
    apply list_lookup_lookup_total_lt. lia.
  - rewrite lookup_take_ge by lia. symmetry. apply lookup_ge_None. rewrite length_map, length_seqZ. lia.
Qed.

Lemma fblock_len {w} dev s bs c d i sz bn : file_txw (w := w) dev s bs c d i sz → length (fblock (inodes s !!! i) c bn) = Z.to_nat BSIZE.
Proof.
  intros [H _ _ _ _ _]. unfold fblock. destruct (_ =? 0); [apply length_replicate|by eapply tx_len].
Qed.

Lemma file_tx_moves {w} dev s s' bs c d i sz :
  file_txw (w := w) dev s bs c d i sz → moves s s' → txw (w := w) dev s' bs ∅ c d → file_txw (w := w) dev s' bs c d i sz.
Proof.
  intros [H Ly Hb F Hi Hd] Mv T. pose proof (moves_geo _ _ Mv) as G. pose proof (moves_sb _ _ Mv) as (_ & Ei & _).
  split; rewrite ?Ei; try done; [by eapply layout_geo|by eapply bitmap_ok_geo|by eapply file_ok_geo].
Qed.

(** The destination takes [n] bytes. *)
Definition accepts (put : Z → Z → Z) (n : Z) : Prop := ∀ t m, 0 ≤ t → 0 ≤ m → t + m ≤ n → put t m = m.
Lemma accepts_kernel n : accepts kernel_dst n.
Proof. done. Qed.
Lemma accepts_less put n n' : accepts put n → n' ≤ n → accepts put n'.
Proof. intros H Hn t m ? ? ?. apply H; lia. Qed.

Lemma readi_loop_spec {w} dev i bs c d ok fuel : ∀ s tot off n,
  file_txw (w := w) dev s bs c d i (i_size (inodes s !!! i)) → accepts ok n →
  0 ≤ off → 0 ≤ tot ≤ n → off + (n - tot) ≤ i_size (inodes s !!! i) → nblocks (off mod BSIZE) (n - tot) < Z.of_nat fuel →
  wp (readi_loop fuel i ok tot off n)
    (λ r s', moves s s' ∧ txw (w := w) dev s' bs ∅ c d ∧ r = (n, map (fbyte (inodes s !!! i) c) (seqZ off (n - tot)))) s.
Proof.
  induction fuel as [|fuel IH]; intros s tot off n FT Hok Ho Ht Hsz Hf.
  { pose proof (block_pos off Ho). pose proof (nblocks_nonneg (off mod BSIZE) (n - tot)). lia. }
  cbn [readi_loop]. destruct (Z.ltb_spec tot n) as [Hlt|Hge].
  2:{ apply wp_ret. split; [apply moves_refl|]. split; [apply FT|]. assert (n - tot = 0) as -> by lia.
      assert (tot = n) as -> by lia. done. }
  destruct (block_pos off Ho) as (E1 & E2 & E3). pose proof (ft_file _ _ _ _ _ _ _ FT) as F.
  pose proof (fo_size _ _ _ _ F) as Hmax. set (x := inodes s !!! i) in *.
  assert (0 ≤ off / BSIZE < MAXFILE) as Hbn by (unfold BSIZE in *; dlia).
  assert (faddr x c (off / BSIZE) ≠ 0) as Hn by (apply (fo_full _ _ _ _ F); unfold BSIZE in *; lia).
  apply wp_bind. eapply wp_mono; [|by apply (bmap_mapped (w := w) dev s bs c d i (i_size x))].
  intros addr s1 (-> & M1 & T1). fold x. rewrite (proj2 (Z.eqb_neq _ 0) Hn).
  pose proof (moves_sb _ _ M1) as (_ & Ei1 & _). apply wp_bind. unfold geti. apply wp_gets. rewrite Ei1. fold x.
  pose proof (proj1 (fo_blk _ _ _ _ F _ Hbn Hn)) as Oa. pose proof (owned_range _ _ _ (ft_layout _ _ _ _ _ _ _ FT) Oa).
  rewrite (ft_dev _ _ _ _ _ _ _ FT : i_dev x = dev). apply wp_bind. pose proof (tx_fit _ _ _ _ _ _ T1).
  eapply tx_bread; [exact T1|lia|apply lookup_empty|rewrite map_size_empty; lia|]. intros b s2 M2 T2.
  apply wp_bind. eapply tx_data; [exact T2|apply lookup_insert_eq|]. apply wp_bind.
  eapply tx_release; [exact T2|apply lookup_insert_eq| |].
  { intros Hn'. by apply (tx_clean _ _ _ _ _ _ _ T1). }
  intros s3 M3 T3. rewrite delete_insert_id in T3 by apply lookup_empty. cbv zeta. rewrite Hok, Z.eqb_refl by lia.
  pose proof (moves_trans _ _ _ M1 (moves_trans _ _ _ M2 M3)) as M03. pose proof (moves_sb _ _ M03) as (_ & Ei3 & _).
  pose proof (nblocks_step (off mod BSIZE) (n - tot) E2 ltac:(lia)) as Hnb. cbv zeta in Hnb.
  set (m := Z.min (n - tot) (BSIZE - off mod BSIZE)) in *. apply wp_bind.
  assert (0 < m ≤ n - tot ∧ m ≤ BSIZE - off mod BSIZE) as Hm by lia.
  eapply wp_mono; [|apply (IH s3 (tot + m) (off + m) n)]; rewrite ?Ei3; fold x; try done; try lia.
  - intros r s' (M4 & T4 & ->). apply wp_ret. split; [by eapply moves_trans|]. split; [done|]. simpl. f_equal.
    replace (c (faddr x c (off / BSIZE))) with (fblock x c (off / BSIZE)) by (unfold fblock; by rewrite (proj2 (Z.eqb_neq _ 0) Hn)).
    rewrite block_bytes by (done || lia || by eapply fblock_len). rewrite <- map_app, <- seqZ_app by lia.
    do 2 f_equal. lia.
  - pose proof (file_tx_moves _ _ _ _ _ _ _ _ FT M03 T3) as FT3. done.
  - rewrite Z.add_mod_idemp_l in Hnb by done. replace (n - (tot + m)) with (n - tot - m) by lia. lia.
Qed.

Lemma readi_spec {w} dev s bs c d i ok off n :
  file_txw (w := w) dev s bs c d i (i_size (inodes s !!! i)) → accepts ok n → 0 ≤ off → 0 ≤ n → off + n < 2 ^ 32 →
  let x := inodes s !!! i in
  let k := if decide (off ≤ i_size x) then Z.min n (i_size x - off) else 0 in
  wp (readi i ok off n) (λ r s', moves s s' ∧ txw (w := w) dev s' bs ∅ c d ∧ r = (k, map (fbyte x c) (seqZ off k))) s.
Proof.
  intros FT Hok Ho Hn Hlt x k. unfold readi. apply wp_bind. unfold geti. apply wp_gets. fold x.
  rewrite (u32_small (off + n)) by lia. rewrite (proj2 (Z.ltb_ge (off + n) off)) by lia. rewrite orb_false_r.
  unfold k. destruct (Z.ltb_spec (i_size x) off) as [Hs|Hs].
  { rewrite decide_False by lia. apply wp_ret. split; [apply moves_refl|]. split; [apply FT|done]. }
  rewrite decide_True by lia.
  assert ((if i_size x <? off + n then i_size x - off else n) = Z.min n (i_size x - off)) as ->.
  { destruct (Z.ltb_spec (i_size x) (off + n)); lia. }
  set (n' := Z.min n (i_size x - off)). destruct (block_pos off Ho) as (E1 & E2 & E3).
  eapply wp_mono; [|apply (readi_loop_spec dev i bs c d ok _ s 0 off n' FT (accepts_less _ _ _ Hok (Z.le_min_l _ _)) Ho)]; [|lia|fold x; lia|].
  - intros r s' (M & T & ->). fold x. by rewrite Z.sub_0_r.
  - rewrite Z.sub_0_r. apply nblocks_fuel; [done|lia].
Qed.

(** ** Writing a block of the file *)

Lemma file_store s x c sz bn y :
  file_ok s x c sz → 0 ≤ bn < MAXFILE → faddr x c bn ≠ 0 →
  let c' := fset (faddr x c bn) y c in
  file_ok s x c' sz ∧ (bitmap_ok s c → bitmap_ok s c') ∧
  (∀ b, faddr x c' b = faddr x c b) ∧
  ∀ b, 0 ≤ b < MAXFILE → fblock x c' b = if decide (b = bn) then y else fblock x c b.
Proof.
  intros F Hbn Hn c'. destruct (fo_blk _ _ _ _ F bn Hbn Hn) as [[Da Ua] Hni].
  assert (∀ b, faddr x c' b = faddr x c b) as Ef.
  { intros b. unfold faddr at 1 2. destruct (b <? _); [done|]. destruct (indirect x =? 0); [done|].
    unfold c'. by rewrite fset_ne. }
  assert (∀ z, 0 ≤ z < sb_size (sb s) → in_use (sb s) c' z = in_use (sb s) c z) as Eu.
  { intros z Hz. unfold in_use, c'. rewrite fset_ne; [done|]. by apply (db_map _ _ Da). }
  assert (∀ b, owned s c b → owned s c' b) as Ow.
  { intros b [Db Ub]. split; [done|]. rewrite Eu; [done|]. pose proof (db_range _ _ Db). lia. }
  split; [|split; [|split; [done|]]].
  - destruct F as [H1 H2 H3 H4 H5 H6 H7]. split; try done.
    + intros Hi. by apply Ow, H3.
    + intros b Hb. rewrite Ef. intros Hf. destruct (H4 b Hb Hf). split; [by apply Ow|done].
    + intros b1 b2. rewrite !Ef. apply H5.
    + intros b. rewrite Ef. apply H6.
  - intros Hb z Hz. rewrite Eu by done. by apply Hb.
  - intros b Hb. unfold fblock. rewrite Ef. destruct (decide (b = bn)) as [->|Hne].
    + rewrite (proj2 (Z.eqb_neq _ 0) Hn). apply fset_eq.
    + destruct (Z.eqb_spec (faddr x c b) 0) as [|Hn']; [done|]. apply fset_ne. intros E.
      by apply Hne, (fo_inj _ _ _ _ F).
Qed.

(** The mapped part of the file grows to the end of a mapped block. *)
Lemma file_grow s x c sz sz' bn :
  file_ok s x c sz → faddr x c bn ≠ 0 → 0 ≤ bn < MAXFILE → bn * BSIZE ≤ sz → sz' ≤ Z.max sz ((bn + 1) * BSIZE) →
  0 ≤ sz' → file_ok s x c sz'.
Proof.
  intros [H1 H2 H3 H4 H5 H6 H7] Hn Hbn Hs Hs' H0. split; try done.
  - intros b Hb Hlt. destruct (decide (b = bn)) as [->|]; [done|]. apply H6; [done|]. unfold BSIZE in *. lia.
  - unfold BSIZE, MAXFILE in *. lia.
Qed.

(** The bytes of the file after [m] bytes [z] were put at [off] of a block. *)
Lemma fbyte_store x c c' off z p :
  0 ≤ off → Z.of_nat (length z) ≤ BSIZE - off mod BSIZE → length (fblock x c (off / BSIZE)) = Z.to_nat BSIZE →
  0 ≤ p < MAXFILE * BSIZE →
  (∀ b, 0 ≤ b < MAXFILE → fblock x c' b =
    if decide (b = off / BSIZE) then splice (fblock x c (off / BSIZE)) (Z.to_nat (off mod BSIZE)) z else fblock x c b) →
  fbyte x c' p = if decide (off ≤ p < off + Z.of_nat (length z)) then z !!! Z.to_nat (p - off) else fbyte x c p.
Proof.
  intros Ho Hz Hl Hp E. destruct (block_pos off Ho) as (E1 & E2 & E3). destruct (block_pos p) as (P1 & P2 & P3); [lia|].
  unfold fbyte. rewrite E by (unfold BSIZE in *; lia). case_decide as Hb.
  - rewrite splice_lookup by (change (Z.to_nat BSIZE) with 1024%nat in *; unfold BSIZE in *; lia).
    rewrite <- Hb in E1. do 2 case_decide; try lia; [f_equal; lia|by rewrite Hb].
  - rewrite decide_False; [done|]. intros Hq. apply Hb. unfold BSIZE in *. lia.
Qed.

(** ** writei *)

(** The source delivers the bytes [src]. *)
Definition delivers (fetch : Z → Z → bool * list Z) (src : list Z) (n : Z) : Prop :=
  n ≤ Z.of_nat (length src) ∧
  ∀ t m, 0 ≤ t → 0 ≤ m → t + m ≤ n → fetch t m = (true, take (Z.to_nat m) (drop (Z.to_nat t) src)).

(** One turn: the block [addr] of the file is read, changed and logged. *)
Lemma write_block_spec dev s bs c d i sz off z (k : M (fsst S) (Z * Z)) Q :
  let x := inodes s !!! i in
  let a := faddr x c (off / BSIZE) in
  let c' := fset a (splice (c a) (Z.to_nat (off mod BSIZE)) z) c in
  file_tx dev s bs c d i sz → 0 ≤ off ≤ sz → 0 ≤ off / BSIZE < MAXFILE → a ≠ 0 →
  0 ≤ Z.of_nat (length z) ≤ BSIZE - off mod BSIZE → Z.of_nat (length bs) < l_size (flog s) - 1 →
  (∀ s', moves s s' → file_tx dev s' (add_block a bs) c' d i (Z.max sz (off + Z.of_nat (length z))) →
    (∀ p, 0 ≤ p < MAXFILE * BSIZE → fbyte x c' p =
      if decide (off ≤ p < off + Z.of_nat (length z)) then z !!! Z.to_nat (p - off) else fbyte x c p) → wp k Q s') →
  wp (let! bp := fs_bread dev a in
      let! y := fs_data bp in
      do! fs_set bp (splice y (Z.to_nat (off mod BSIZE)) z) in
      do! fs_log_write bp in
      do! fs_brelse bp in k) Q s.
Proof.
  intros x a c' FT Hoff Hbn Hn Hz Hsp HQ. pose proof FT as [H Ly Hb F Hi Hd].
  destruct (block_pos off ltac:(lia)) as (E1 & E2 & E3).
  destruct (fo_blk _ _ _ _ F _ Hbn Hn) as [Oa _]. pose proof (owned_range _ _ _ Ly Oa). fold x a in Oa, H0.
  pose proof (tx_fit _ _ _ _ _ _ H) as Hfit. apply wp_bind.
  eapply tx_bread; [exact H|lia|apply lookup_empty|rewrite map_size_empty; lia|]. intros b s1 M1 T1.
  apply wp_bind. eapply tx_data; [exact T1|apply lookup_insert_eq|].
  pose proof (tx_len _ _ _ _ _ _ a H) as Hl. apply wp_seq3.
  eapply wp_mono; [|eapply tx_store; [exact T1|apply lookup_insert_eq| |lia| |]].
  - intros _ s2 [M2 T2]. rewrite delete_insert_id in T2 by apply lookup_empty.
    pose proof (moves_trans _ _ _ M1 M2) as M02.
    destruct (file_store s x c sz (off / BSIZE) (splice (c a) (Z.to_nat (off mod BSIZE)) z) F Hbn Hn) as (F' & B' & Ef & Hblk).
    fold a c' in F', B', Ef, Hblk. apply HQ; [done| |].
    + pose proof (moves_geo _ _ M02) as G. pose proof (moves_sb _ _ M02) as (_ & Ei & _).
      split; rewrite ?Ei; try done; [by eapply layout_geo|by eapply bitmap_ok_geo; [|apply B']|].
      eapply file_ok_geo; [done|]. eapply (file_grow s x c' sz _ (off / BSIZE)); [done|by rewrite Ef|done|lia| |lia].
      unfold BSIZE in *. lia.
    + intros p Hp. pose proof (fo_size _ _ _ _ F).
      assert (fblock x c (off / BSIZE) = c a) as Eb by (unfold fblock; fold a; by rewrite (proj2 (Z.eqb_neq _ 0) Hn)).
      apply fbyte_store; [lia|lia|by rewrite Eb|done|]. rewrite Eb. exact Hblk.
  - rewrite length_splice; [done|]. rewrite Hl. unfold BSIZE in *. lia.
  - rewrite (moves_in_log _ _ _ M1). apply (db_log _ _ (proj1 Oa)).
  - by rewrite (moves_size _ _ M1).
Qed.

Definition write_post (dev : Z) s bs c d i (src : list Z) (sz tot off n : Z) (r : Z * Z) s' : Prop := ∃ bs' c',
  touches i s s' ∧ file_tx dev s' bs' c' d i (Z.max sz r.2) ∧
  tot ≤ r.1 ≤ n ∧ r.2 = off + (r.1 - tot) ∧ (r.1 = n ∨ full s' c') ∧
  Z.of_nat (length bs') ≤ Z.of_nat (length bs) + 5 * nblocks (off mod BSIZE) (n - tot) ∧
  ∀ p, 0 ≤ p < MAXFILE * BSIZE → fbyte (inodes s' !!! i) c' p =
    if decide (off ≤ p < r.2) then src !!! Z.to_nat (tot + (p - off)) else fbyte (inodes s !!! i) c p.

Lemma fbyte_blocks x c x' c' p :
  (∀ b, 0 ≤ b < MAXFILE → fblock x' c' b = fblock x c b) → 0 ≤ p < MAXFILE * BSIZE → fbyte x' c' p = fbyte x c p.
Proof. intros H Hp. unfold fbyte. rewrite H; [done|]. destruct (block_pos p) as (? & ? & ?); [lia|]. unfold BSIZE in *. lia. Qed.

Lemma writei_loop_spec dev i d fetch src n fuel : ∀ s bs c sz tot off,
  file_tx dev s bs c d i sz → delivers fetch src n → 0 ≤ off ≤ sz → 0 ≤ tot ≤ n → off + (n - tot) ≤ MAXFILE * BSIZE →
  nblocks (off mod BSIZE) (n - tot) < Z.of_nat fuel →
  Z.of_nat (length bs) + 5 * nblocks (off mod BSIZE) (n - tot) + 1 < l_size (flog s) →
  wp (writei_loop fuel i fetch tot off n) (write_post dev s bs c d i src sz tot off n) s.
Proof.
  induction fuel as [|fuel IH]; intros s bs c sz tot off FT Hde Ho Ht Hmax Hf Hsp.
  { pose proof (block_pos off ltac:(lia)). pose proof (nblocks_nonneg (off mod BSIZE) (n - tot)). lia. }
  destruct (block_pos off ltac:(lia)) as (E1 & E2 & E3).
  assert (∀ s' bs' c', touches i s s' → file_tx dev s' bs' c' d i sz → (tot = n ∨ full s' c') →
    Z.of_nat (length bs') ≤ Z.of_nat (length bs) + 5 * nblocks (off mod BSIZE) (n - tot) →
    (∀ b, 0 ≤ b < MAXFILE → fblock (inodes s' !!! i) c' b = fblock (inodes s !!! i) c b) →
    write_post dev s bs c d i src sz tot off n (tot, off) s') as Hstop.
  { intros s' bs' c' Tc FT' Hr Hbs Hblk. exists bs', c'. simpl. rewrite Z.max_l by lia.
    split; [done|]. split; [done|]. split; [lia|]. split; [lia|]. split; [done|]. split; [done|].
    intros p Hp. rewrite decide_False by lia. by apply fbyte_blocks. }
  cbn [writei_loop]. destruct (Z.ltb_spec tot n) as [Hlt|Hge].
  2:{ pose proof (nblocks_nonneg (off mod BSIZE) (n - tot)). apply wp_ret.
      apply (Hstop s bs c); [by apply touches_same|done|left; lia|lia|done]. }
  pose proof (nblocks_step (off mod BSIZE) (n - tot) E2 ltac:(lia)) as Hnb. cbv zeta in Hnb.
  set (m := Z.min (n - tot) (BSIZE - off mod BSIZE)) in *. rewrite Z.add_mod_idemp_l in Hnb by done.
  pose proof (nblocks_nonneg ((off + m) mod BSIZE) (n - tot - m)) as Hnn.
  assert (0 ≤ (off + m) mod BSIZE) by (apply Z.mod_pos_bound; done).
  assert (0 ≤ off / BSIZE < MAXFILE) as Hbn by (unfold BSIZE in *; dlia).
  apply wp_bind. eapply wp_mono; [|apply (bmap_spec dev s bs c d i sz (off / BSIZE) FT Hbn); lia].
  intros addr s1 (bs1 & c1 & Tc & T1 & B1 & F1 & Hblk & Hl1 & Hr).
  assert (file_tx dev s1 bs1 c1 d i sz) as FT1.
  { destruct FT as [HT Ly Hb F Hi Hd]. pose proof (tc_geo _ _ _ Tc) as G.
    split; [done|by eapply layout_geo|done|done|by rewrite (tc_length _ _ _ Tc)|].
    destruct (tc_self _ _ _ Tc) as [ad ->]. done. }
  destruct Hr as [[-> Hfull]|(Hn & Ea & Hin)].
  { change (0 =? 0) with true. apply wp_ret. apply (Hstop s1 bs1 c1); [done|done|by right|lia|done]. }
  rewrite (proj2 (Z.eqb_neq _ 0) Hn). apply wp_bind. unfold geti. apply wp_gets.
  rewrite (ft_dev _ _ _ _ _ _ _ FT1). destruct Hde as [Hsrc Hfe]. rewrite (Hfe tot m) by lia. cbn [fst snd].
  rewrite take_take, Nat.min_id. set (z := take (Z.to_nat m) (drop (Z.to_nat tot) src)).
  assert (Z.of_nat (length z) = m) as Hz by (unfold z; rewrite length_take, length_drop; lia).
  pose proof (geo_size _ _ (tc_geo _ _ _ Tc)) as El1. rewrite <- Ea.
  eapply (write_block_spec dev s1 bs1 c1 d i sz off z _ _ FT1); [lia|done|by rewrite Ea|lia|lia|].
  rewrite Ea, Hz. intros s2 M2 FT2 Hby. pose proof (moves_sb _ _ M2) as (_ & Ei2 & _).
  assert ((length (add_block addr bs1) ≤ length bs + 5)%nat) as Hl2.
  { unfold add_block. case_decide as Hc; [lia|]. destruct Hin as [?|[_ ->]]; [done|]. rewrite length_app. simpl. lia. }
  eapply wp_mono; [|apply (IH s2 _ _ (Z.max sz (off + m)) (tot + m) (off + m) FT2 (conj Hsrc Hfe))]; try lia.
  - intros r s' (bs' & c' & Tc' & FT' & R1 & R2 & R3 & R4 & R5). exists bs', c'.
    split; [eapply touches_trans; [done|]; eapply touches_trans; [by apply touches_moves|done]|].
    split; [by rewrite Z.max_assoc in FT' || (replace (Z.max sz r.2) with (Z.max (Z.max sz (off + m)) r.2) by lia)|].
    split; [lia|]. split; [lia|]. split; [done|].
    split; [replace (n - (tot + m)) with (n - tot - m) in R4 by lia; lia|].
    intros p Hp. rewrite R5 by done. rewrite Ei2, Hby by done. rewrite (fbyte_blocks _ c _ c1 p Hblk Hp).
    repeat case_decide; try lia; try (f_equal; lia); try done.
    unfold z. rewrite lookup_total_take_lt, lookup_total_drop by lia. f_equal. lia.
  - replace (n - (tot + m)) with (n - tot - m) by lia. lia.
  - replace (n - (tot + m)) with (n - tot - m) by lia. rewrite (geo_size _ _ (moves_geo _ _ M2)), El1. lia.
Qed.

(** ** iupdate *)

Lemma iblock_range s ino : layout s → 0 ≤ ino < sb_ninodes (sb s) → 0 ≤ IBLOCK ino (sb s) < 2 ^ 32.
Proof.
  intros Ly Hi. pose proof (ly_istart _ Ly). pose proof (ly_ninodes _ Ly). unfold IBLOCK.
  assert (0 ≤ ino / IPB ≤ ino) by (change IPB with 16; dlia). rewrite u32_small by lia. lia.
Qed.
Lemma dinode_off_fit ino : (dinode_off ino + 64 ≤ Z.to_nat BSIZE)%nat.
Proof.
  unfold dinode_off. change IPB with 16. pose proof (Z.mod_pos_bound ino 16 ltac:(lia)). change (Z.to_nat BSIZE) with 1024%nat. lia.
Qed.

(** Writing an inode block changes no file and no bit of the bitmap. *)
Lemma file_iblock s x c sz ino y :
  layout s → 0 ≤ ino < sb_ninodes (sb s) → file_ok s x c sz → bitmap_ok s c →
  let c' := fset (IBLOCK ino (sb s)) y c in
  file_ok s x c' sz ∧ bitmap_ok s c' ∧ ∀ b, 0 ≤ b < MAXFILE → fblock x c' b = fblock x c b.
Proof.
  intros Ly Hi F Hb c'.
  assert (∀ z, 0 ≤ z < sb_size (sb s) → in_use (sb s) c' z = in_use (sb s) c z) as Eu.
  { intros z Hz. unfold in_use, c'. rewrite fset_ne; [done|]. by apply not_eq_sym, (ly_apart _ Ly). }
  assert (agree s c c') as Ag.
  { intros b [D _]. unfold c'. apply fset_ne. by apply not_eq_sym, (db_ino _ _ D). }
  split; [|split].
  - eapply file_ok_agree; [done| |done]. intros b [D U]. split; [done|]. rewrite Eu; [done|].
    pose proof (db_range _ _ D). lia.
  - intros z Hz. rewrite Eu by done. by apply Hb.
  - intros b Hb'. by eapply fblock_agree.
Qed.

Lemma iupdate_spec dev s bs c d i sz :
  file_tx dev s bs c d i sz → Z.of_nat (length bs) < l_size (flog s) - 1 →
  let x := inodes s !!! i in
  let ib := IBLOCK (inum x) (sb s) in
  let c' := fset ib (put_dinode (c ib) (dinode_off (inum x)) (dinode_of x)) c in
  wp (iupdate i) (λ _ s', moves s s' ∧ file_tx dev s' (add_block ib bs) c' d i sz ∧
    ∀ b, 0 ≤ b < MAXFILE → fblock x c' b = fblock x c b) s.
Proof.
  intros FT Hsp x ib c'. pose proof FT as [H Ly Hb F Hi Hd]. pose proof (tx_fit _ _ _ _ _ _ H) as Hfit.
  pose proof (fo_inum _ _ _ _ F : 0 ≤ inum x < _) as Hino. pose proof (iblock_range s _ Ly Hino) as Rib. fold ib in Rib.
  unfold iupdate. apply wp_bind. unfold geti. apply wp_gets. fold x. apply wp_bind, wp_gets. fold ib.
  rewrite (Hd : i_dev x = dev). apply wp_bind.
  eapply tx_bread; [exact H|done|apply lookup_empty|rewrite map_size_empty; lia|]. intros b s1 M1 T1.
  apply wp_bind. eapply tx_data; [exact T1|apply lookup_insert_eq|].
  pose proof (tx_len _ _ _ _ _ _ ib H) as Hl.
  destruct (put_dinode_spec (c ib) (dinode_off (inum x)) (dinode_of x)) as (L & _ & _);
    [rewrite Hl; apply dinode_off_fit|].
  eapply wp_mono; [|eapply tx_store; [exact T1|apply lookup_insert_eq|by rewrite L|done| |]].
  - intros _ s2 [M2 T2]. rewrite delete_insert_id in T2 by apply lookup_empty.
    pose proof (moves_trans _ _ _ M1 M2) as M02. pose proof (moves_geo _ _ M02) as G.
    pose proof (moves_sb _ _ M02) as (_ & Ei & _).
    destruct (file_iblock s x c sz (inum x) (put_dinode (c ib) (dinode_off (inum x)) (dinode_of x)) Ly Hino F Hb) as (F' & B' & E').
    fold ib c' in F', B', E'. split; [done|]. split; [|done].
    split; rewrite ?Ei; try done; [by eapply layout_geo|by eapply bitmap_ok_geo|by eapply file_ok_geo].
  - rewrite (moves_in_log _ _ _ M1). by apply (ly_ino _ Ly).
  - by rewrite (moves_size _ _ M1).
Qed.

(** [writei]: at most [n] bytes of [src] are in the file at [off], the rest of
    the file is as before, and the inode block holds the inode. *)
Definition writei_post (dev : Z) s bs c d i (src : list Z) (off n r : Z) s' : Prop := ∃ bs' c',
  let x := inodes s !!! i in
  let x' := inodes s' !!! i in
  geo s s' ∧ file_tx dev s' bs' c' d i (i_size x') ∧
  (length (inodes s') = length (inodes s) ∧ ∀ j, j ≠ i → inodes s' !!! j = inodes s !!! j) ∧
  (∃ ad, x' = x <| addrs := ad |> <| i_size := i_size x' |>) ∧
  0 ≤ r ≤ n ∧ (r = n ∨ full s' c') ∧ i_size x' = Z.max (i_size x) (off + r) ∧
  get_dinode (c' (IBLOCK (inum x) (sb s))) (dinode_off (inum x)) = dinode_of x' ∧
  Z.of_nat (length bs') ≤ Z.of_nat (length bs) + 5 * nblocks (off mod BSIZE) n + 1 ∧
  ∀ p, 0 ≤ p < MAXFILE * BSIZE → fbyte x' c' p =
    if decide (off ≤ p < off + r) then src !!! Z.to_nat (p - off) else fbyte x c p.

(** The inode fields fit in the fields of [struct dinode]. *)
Definition inode_ok x : Prop :=
  -2 ^ 15 ≤ i_type x < 2 ^ 15 ∧ -2 ^ 15 ≤ i_major x < 2 ^ 15 ∧ -2 ^ 15 ≤ i_minor x < 2 ^ 15 ∧ -2 ^ 15 ≤ nlink x < 2 ^ 15.

Lemma inode_dinode_ok s x c sz :
  layout s → inode_ok x → file_ok s x c sz → 0 ≤ i_size x < 2 ^ 32 → dinode_ok (dinode_of x).
Proof.
  intros Ly (H1 & H2 & H3 & H4) F Hs. split; [done|]. split; [done|]. split; [done|]. split; [done|]. split; [done|].
  split; [apply (fo_len _ _ _ _ F)|]. apply Forall_lookup. intros k a Ha. simpl in Ha.
  pose proof (lookup_lt_Some _ _ _ Ha) as Hk. rewrite (fo_len _ _ _ _ F) in Hk. apply list_lookup_total_correct in Ha.
  destruct (decide (a = 0)) as [->|Hn]; [lia|]. destruct (decide (k = NDIRECT)) as [->|].
  - pose proof (owned_range _ _ _ Ly (fo_ind _ _ _ _ F ltac:(unfold indirect; congruence))) as [Hr _].
    unfold indirect in Hr. rewrite Ha in Hr. lia.
  - assert (faddr x c (Z.of_nat k) = a) as Ef.
    { unfold faddr. rewrite (proj2 (Z.ltb_lt _ _)) by lia. by rewrite Nat2Z.id. }
    destruct (fo_blk _ _ _ _ F (Z.of_nat k)) as [Ow _]; [rewrite maxfile; lia|congruence|].
    pose proof (owned_range _ _ _ Ly Ow) as [Hr _]. rewrite Ef in Hr. lia.
Qed.

(** The parts of an inode that its file depends on. *)
Definition same_map x x' : Prop := addrs x' = addrs x ∧ inum x' = inum x ∧ i_dev x' = i_dev x.
Lemma same_map_faddr x x' c b : same_map x x' → faddr x' c b = faddr x c b.
Proof. intros (E & _). unfold faddr, indirect. by rewrite E. Qed.
Lemma same_map_fbyte x x' c p : same_map x x' → fbyte x' c p = fbyte x c p.
Proof. intros E. unfold fbyte, fblock. by rewrite (same_map_faddr x x'). Qed.
Lemma file_ok_map s x x' c sz : same_map x x' → file_ok s x c sz → file_ok s x' c sz.
Proof.
  intros E [H1 H2 H3 H4 H5 H6 H7]. pose proof (λ b, same_map_faddr x x' c b E) as Ef. destruct E as (Ea & En & _).
  assert (indirect x' = indirect x) as Ei by (unfold indirect; by rewrite Ea).
  split; rewrite ?Ea, ?En, ?Ei; try done.
  - intros b. rewrite Ef. apply H4.
  - intros b1 b2. rewrite !Ef. apply H5.
  - intros b. rewrite Ef. apply H6.
Qed.

(** Changing other fields of the inode. *)
Lemma file_tx_map {w} dev s bs c d i sz (f : inode → inode) :
  file_txw (w := w) dev s bs c d i sz → same_map (inodes s !!! i) (f (inodes s !!! i)) →
  let s' := s <| inodes := alter f i (inodes s) |> in
  file_txw (w := w) dev s' bs c d i sz ∧ inodes s' !!! i = f (inodes s !!! i) ∧
  ∀ j, j ≠ i → inodes s' !!! j = inodes s !!! j.
Proof.
  intros [H Ly Hb F Hi Hd] Ef s'.
  assert (inodes s' !!! i = f (inodes s !!! i)) as Ei.
  { unfold s'. simpl. rewrite list_lookup_total_alter. by rewrite decide_True. }
  assert (geo s s') as G by done. split; [|split; [done|]].
  - split; [by eapply tx_flog; [|exact H]|by eapply layout_geo|by eapply bitmap_ok_geo| | |].
    + rewrite Ei. by eapply file_ok_geo, file_ok_map.
    + unfold s'. simpl. by rewrite length_alter.
    + rewrite Ei. rewrite <- Hd. apply Ef.
  - intros j Hj. unfold s'. simpl. rewrite list_lookup_total_alter. rewrite decide_False; [done|]. by intros [? ?].
Qed.

Lemma writei_spec dev s bs c d i fetch src off n :
  file_tx dev s bs c d i (i_size (inodes s !!! i)) → inode_ok (inodes s !!! i) → delivers fetch src n →
  0 ≤ off ≤ i_size (inodes s !!! i) → 0 ≤ n → off + n ≤ MAXFILE * BSIZE →
  Z.of_nat (length bs) + 5 * nblocks (off mod BSIZE) n + 1 < l_size (flog s) →
  wp (writei i fetch off n) (writei_post dev s bs c d i src off n) s.
Proof.
  intros FT Hok Hde Ho Hn Hmax Hsp. unfold writei. apply wp_bind. unfold geti. apply wp_gets. set (x := inodes s !!! i) in *.
  assert (MAXFILE * BSIZE = 274432) as Emax by reflexivity.
  rewrite (u32_small (off + n)) by lia. rewrite (proj2 (Z.ltb_ge (i_size x) off)) by lia.
  rewrite (proj2 (Z.ltb_ge (off + n) off)), (proj2 (Z.ltb_ge (MAXFILE * BSIZE) (off + n))) by lia. cbn [orb].
  apply wp_bind. destruct (block_pos off ltac:(lia)) as (_ & E2 & _).
  eapply wp_mono; [|apply (writei_loop_spec dev i d fetch src n _ s bs c (i_size x) 0 off FT Hde Ho)]; rewrite ?Z.sub_0_r.
  2,3,5: lia. 2: by apply nblocks_fuel.
  intros [tot off'] s1 (bs1 & c1 & Tc & FT1 & R1 & R2 & R3 & R4 & R5). cbn [fst snd] in *. rewrite Z.sub_0_r in *.
  destruct (tc_self _ _ _ Tc) as [ad Ex1]. fold x in Ex1. set (x1 := inodes s1 !!! i) in *.
  assert (i_size x1 = i_size x ∧ inum x1 = inum x) as [Es1 En1] by (by rewrite Ex1).
  apply wp_bind, wp_modify. set (sz := Z.max (i_size x) off') in *.
  set (grow := λ x : inode, if i_size x <? off' then x <| i_size := off' |> else x).
  assert (grow x1 = x1 <| i_size := sz |>) as Eg.
  { unfold grow, sz. rewrite <- Es1. destruct (Z.ltb_spec (i_size x1) off'); [by rewrite Z.max_r by lia|].
    rewrite Z.max_l by lia. by destruct x1. }
  destruct (file_tx_map dev s1 bs1 c1 d i sz grow FT1) as (FT2 & Ei2 & Hj2).
  { fold x1. by rewrite Eg. }
  fold x1 in Ei2. rewrite Eg in Ei2.
  cbv zeta in *. set (s2 := s1 <| inodes := _ |>) in *. fold x1 in Ei2. pose proof (tc_geo _ _ _ Tc) as G1.
  apply wp_bind. eapply wp_mono; [|apply (iupdate_spec dev s2 bs1 c1 d i sz FT2)].
  2: { change (flog s2) with (flog s1). rewrite (geo_size _ _ G1). lia. }
  rewrite Ei2. intros _ s3 (M3 & FT3 & Hblk). apply wp_ret.
  pose proof (moves_sb _ _ M3) as (Esb3 & Ei3 & _). set (x2 := x1 <| i_size := sz |>) in *.
  assert (sb s2 = sb s) as Esb by apply G1. rewrite Esb in *.
  eexists _, _. rewrite Ei3, Ei2. change (inum x2) with (inum x1) in *. rewrite En1 in *.
  split; [eapply geo_trans; [exact G1|]; exact (moves_geo _ _ M3)|]. split; [exact FT3|].
  split; [split; [unfold s2; simpl; rewrite length_alter; apply Tc|]; intros j Hj; rewrite Hj2 by done; by apply (tc_others _ _ _ Tc)|].
  split; [exists ad; unfold x2; by rewrite Ex1|]. split; [lia|].
  split.
  { destruct R3 as [?|R3]; [by left|right]. intros j. rewrite Esb3. intros Hj.
    destruct (ft_layout _ _ _ _ _ _ _ FT2) as [_ _ _ _ _ _ Lap]. rewrite Esb in Lap.
    unfold in_use. rewrite fset_ne; [unfold full in R3; rewrite (proj1 G1) in R3; by apply R3|].
    apply not_eq_sym, Lap; [|done]. pose proof (fo_inum _ _ _ _ (ft_file _ _ _ _ _ _ _ FT)) as Hin. fold x in Hin. done. }
  split; [change (sz = Z.max (i_size x) (off + tot)); lia|]. split.
  - rewrite fset_eq. apply put_dinode_spec.
    + rewrite (tx_len _ _ _ _ _ _ _ (ft_tx _ _ _ _ _ _ _ FT2)). apply dinode_off_fit.
    + assert (inode_ok x2) as Hok2 by (unfold inode_ok, x2; rewrite Ex1; exact Hok).
      eapply (inode_dinode_ok s2 x2 c1 sz); [apply FT2|done| |].
      * pose proof (ft_file _ _ _ _ _ _ _ FT2) as F2. by rewrite Ei2 in F2.
      * simpl. pose proof (fo_size _ _ _ _ (ft_file _ _ _ _ _ _ _ FT2)). lia.
  - split; [pose proof (length_add_block (IBLOCK (inum x) (sb s)) bs1); lia|].
    intros p Hp. rewrite (fbyte_blocks x2 c1 x2 _ p Hblk Hp).
    change (fbyte x2 c1 p) with (fbyte x1 c1 p). rewrite R5 by done.
    replace off' with (off + tot) by lia. by rewrite Z.add_0_l.
Qed.
End fs_rw.
