(* ===== verification/FsRwThms.v ===== *)
(** * Theorems on files

    The contents of a file as a list of bytes: [writei] splices into it,
    [readi] returns slices of it, [end_op] puts it on disk, and [ilock] reads
    back the inode that [iupdate] wrote. *)

From S2P Require Import Prelude.
From S2P Require Import Machine.
From S2P Require Import Bio.
From S2P Require Import BioSpec.
From S2P Require Import Log.
From S2P Require Import LogSpec.
From S2P Require Import LogThms.
From S2P Require Import Fs.
From S2P Require Import FsInode.
From S2P Require Import FsSpec.
From S2P Require Import FsFile.
From S2P Require Import FsRw.
From S2P Require Import FsThms.
#[local] Open Scope Z_scope.

(** The contents of the file of inode [x] when the blocks hold [c]. *)
Definition contents (x : inode) (c : Z → list Z) : list Z := map (fbyte x c) (seqZ 0 (i_size x)).
(** The list [old] with [z] written at [off], where it may end past the end. *)
Definition overwrite (old : list Z) (off : Z) (z : list Z) : list Z :=
  take (Z.to_nat off) old ++ z ++ drop (Z.to_nat off + length z) old.

Lemma contents_lookup x c (k : nat) :
  contents x c !! k = if decide (Z.of_nat k < i_size x) then Some (fbyte x c (Z.of_nat k)) else None.
Proof.
  unfold contents. rewrite list_lookup_fmap. case_decide as Hk.
  - rewrite lookup_seqZ_lt by lia. simpl. by rewrite Z.add_0_l.
  - rewrite lookup_seqZ_ge by lia. done.
Qed.
Lemma length_file_contents x c : length (contents x c) = Z.to_nat (i_size x).
Proof. unfold contents. by rewrite length_map, length_seqZ. Qed.

Lemma overwrite_lookup old off z (k : nat) :
  0 ≤ off ≤ Z.of_nat (length old) →
  overwrite old off z !! k = if decide (off ≤ Z.of_nat k < off + Z.of_nat (length z)) then z !! (k - Z.to_nat off)%nat else old !! k.
Proof.
  intros Ho. unfold overwrite. case_decide as Hk.
  - rewrite lookup_app_r, length_take, lookup_app_l by (rewrite ?length_take; lia). f_equal. lia.
  - destruct (decide (Z.of_nat k < off)).
    + rewrite lookup_app_l, lookup_take_lt by (rewrite ?length_take; lia). done.
    + rewrite lookup_app_r, length_take, lookup_app_r, lookup_drop by (rewrite ?length_take; lia). f_equal. lia.
Qed.

Lemma overwrite_nil z : overwrite [] 0 z = z.
Proof. unfold overwrite. simpl. by rewrite drop_nil, app_nil_r. Qed.
Lemma slice_all k z : (length z ≤ k)%nat → slice k (Z.to_nat 0) z = z.
Proof. apply take_ge. Qed.

Lemma contents_write x c x' c' off r src :
  0 ≤ off ≤ i_size x → 0 ≤ r ≤ Z.of_nat (length src) → i_size x' = Z.max (i_size x) (off + r) →
  i_size x' ≤ MAXFILE * BSIZE →
  (∀ p, 0 ≤ p < MAXFILE * BSIZE → fbyte x' c' p =
    if decide (off ≤ p < off + r) then src !!! Z.to_nat (p - off) else fbyte x c p) →
  contents x' c' = overwrite (contents x c) off (take (Z.to_nat r) src).
Proof.
  intros Ho Hr Hs Hm Hb. apply list_eq. intros k. rewrite overwrite_lookup by (rewrite length_file_contents; lia).
  rewrite !contents_lookup, length_take, Hs. destruct (decide (off ≤ Z.of_nat k < off + Z.of_nat (Z.to_nat r `min` length src))) as [Hk|Hk].
  - rewrite decide_True by lia. rewrite Hb, decide_True by lia. rewrite lookup_take_lt by lia. symmetry.
    replace (Z.to_nat (Z.of_nat k - off)) with (k - Z.to_nat off)%nat by lia. apply list_lookup_lookup_total_lt. lia.
  - repeat case_decide; try lia; [|done]. rewrite Hb by lia. by rewrite decide_False by lia.
Qed.

Lemma contents_slice x c o k :
  0 ≤ o → 0 ≤ k → 0 ≤ i_size x →
  let k' := if decide (o ≤ i_size x) then Z.min k (i_size x - o) else 0 in
  map (fbyte x c) (seqZ o k') = slice (Z.to_nat k) (Z.to_nat o) (contents x c) ∧
  Z.of_nat (length (slice (Z.to_nat k) (Z.to_nat o) (contents x c))) = k'.
Proof.
  intros Ho Hk Hs k'. unfold slice. split.
  - apply list_eq. intros j. rewrite list_lookup_fmap. destruct (decide (Z.of_nat j < k')) as [Hj|Hj].
    + rewrite lookup_seqZ_lt by lia. unfold k' in Hj. case_decide; [|lia].
      rewrite lookup_take_lt, lookup_drop, contents_lookup, decide_True by lia. simpl. do 2 f_equal. lia.
    + rewrite lookup_seqZ_ge by lia. symmetry. apply lookup_ge_None. rewrite length_take, length_drop, length_file_contents.
      unfold k' in Hj. case_decide; lia.
  - rewrite length_take, length_drop, length_file_contents. unfold k'. case_decide; lia.
Qed.

Section file_thms.
Context {S : Type} `{!BufOps S} `{!BufLaws S}.
Implicit Types (s : fsst S) (bs : list Z).

(** No operation is in progress: the log is empty, no block is in use, and
    cache and disk agree on [c]. *)
Record idle_fs (dev : Z) s (c : Z → list Z) : Prop := {
  id_log : ∃ a, lrep (flog s) a ∧ aheld a = ∅ ∧ (∀ x, ref a x = 0) ∧ acontent a = c ∧ ∀ x, adisk a x = c x;
  id_dev : l_dev (flog s) = dev;
  id_lists : lists (flog s) [];
  id_out : outstanding (flog s) = 0;
  id_com : committing (flog s) = false
}.

Lemma tx_ready {w} dev s a bs : pinned (w := w) dev s a bs ∅ → ready (flog s) bs a.
Proof.
  intros P. pose proof P as [R Hd Hls _ Ehm Hr].
  assert (∀ x, 0 ≤ x < 2 ^ 32 → quiet x a) as Hq.
  { intros x Hx. split; [done|]. split; [by rewrite Ehm|]. rewrite Hr. do 2 case_decide; lia. }
  split.
  - intros x Hx. apply Hq. pose proof (ls_start _ _ Hls). pose proof (ls_fit _ _ Hls). unfold in_log in Hx. lia.
  - intros x Hx. apply Hq. apply list_elem_of_lookup in Hx as [k Hk]. rewrite <- (ls_block _ _ Hls _ _ Hk). apply u32_range.
  - pose proof (pinned_size _ _ _ _ _ P) as Hsz. rewrite map_size_empty in Hsz. pose proof (ls_fit _ _ Hls). unfold nbuf. lia.
Qed.

(** The end of the operation that holds the only transaction. *)
Lemma tx_end_op dev s bs c d :
  tx dev s bs ∅ c d → outstanding (flog s) = 1 → committing (flog s) = false →
  ∃ s' c', with_log end_op s = Ret tt s' ∧ s' = s <| flog := flog s' |> ∧ idle_fs dev s' c' ∧
    l_start (flog s') = l_start (flog s) ∧ l_size (flog s') = l_size (flog s) ∧
    ∀ x, ¬ in_log (flog s) x → c' x = c x.
Proof.
  intros H Ho Hc. pose proof H as (a & P & Ec & Ed). pose proof P as [R Hd Hls _ Ehm Hr]. unfold lrep in R. rewrite Hd in R.
  destruct (end_op_spec dev (flog s) a bs R Hd Hls (tx_ready _ _ _ _ P))
    as (l' & a' & E & R' & Ho' & Hc' & Hl & _ & Hst & Hsz & Hdv & Hh & Hrf & Hv); [|done|done|].
  { intros b Hb. rewrite Hr, decide_True by done. case_decide; lia. }
  exists (s <| flog := l' |>), (acontent a'). split; [unfold with_log; by erewrite lift_Ret|]. split; [done|].
  split; [|split; [done|split; [done|]]].
  - split; [|done|done|done|done]. exists a'. split; [unfold lrep; simpl; by rewrite Hdv|]. split; [by rewrite Hh|].
    assert (∀ x, ref a' x = 0) as H0.
    { intros x. rewrite Hrf, Hr, (decide_False (P := is_Some _)) by (rewrite lookup_empty; by intros []). case_decide; lia. }
    split; [done|]. split; [done|]. intros x. symmetry. pose proof (bc_ok _ _ _ R') as Ha. apply (ok_clean _ Ha).
    apply eq_None_not_Some. rewrite (ref_pos _ _ Ha), H0. lia.
  - intros x Hx. destruct (Hv x Hx) as [-> _]. by rewrite Ec.
Qed.

(** The start of an operation when there is no other. *)
Lemma idle_begin_op dev s c :
  idle_fs dev s c → ∃ s' d, with_log begin_op s = Ret tt s' ∧ s' = s <| flog := flog s' |> ∧ tx dev s' [] ∅ c d ∧
    outstanding (flog s') = 1 ∧ committing (flog s') = false ∧
    l_start (flog s') = l_start (flog s) ∧ l_size (flog s') = l_size (flog s).
Proof.
  intros [(a & R & Hh & Hr & Hc & _) Hd Hl Ho Hcm]. set (l' := (flog s) <| outstanding := 1 |>).
  exists (s <| flog := l' |>), (adisk a). split; [|split; [done|split; [|done]]].
  - unfold with_log, lift, begin_op. rewrite (bind_eq (gets id) _ _ _ _ eq_refl). cbn [id]. rewrite Hcm, Ho.
    rewrite (ls_n _ _ Hl : lh_n (lh (flog s)) = 0). change (LOGSIZE <? 0 + (0 + 1) * MAXOPBLOCKS) with false. unfold modify, l'. by rewrite Ho.
  - exists a. split; [|done]. split; [exact R|done|by destruct Hl|intros _; simpl; lia|done|].
    intros x. by rewrite Hr.
Qed.

(** C6: What is written is read. [writei] of [n] bytes at an offset within
    the file, ending within the largest size a file can have, returns how many it wrote, all of them unless the disk became
    full, and the file is then the old file overwritten with these bytes from
    that offset on, extended if they go past its end: every later [readi] of
    [k] bytes at [o] returns exactly that slice of it, cut at the new end.
    Covers direct and indirect blocks, present or allocated on the way, for
    any source that delivers its bytes, provided the log has room for five
    blocks per block written. *)
Theorem writei_readi dev s bs c d i fetch src off n :
  let x := inodes s !!! i in
  file_tx dev s bs c d i (i_size x) → inode_ok x → delivers fetch src n →
  0 ≤ off ≤ i_size x → 0 ≤ n → off + n ≤ MAXFILE * BSIZE →
  Z.of_nat (length bs) + 5 * nblocks (off mod BSIZE) n + 1 < l_size (flog s) →
  ∃ r s' c', writei i fetch off n s = Ret r s' ∧ 0 ≤ r ≤ n ∧ (r = n ∨ full s' c') ∧
    (∀ j, j ≠ i → inodes s' !!! j = inodes s !!! j) ∧
    let new := overwrite (contents x c) off (take (Z.to_nat r) src) in
    i_size (inodes s' !!! i) = Z.of_nat (length new) ∧
    ∀ ok o k, accepts ok k → 0 ≤ o → 0 ≤ k → o + k < 2 ^ 32 →
      let part := slice (Z.to_nat k) (Z.to_nat o) new in
      ∃ s'', readi i ok o k s' = Ret (Z.of_nat (length part), part) s''.
Proof.
  intros x FT Hok Hde Ho Hn Hmax Hsp.
  destruct (wp_elim _ _ _ (writei_spec dev s bs c d i fetch src off n FT Hok Hde Ho Hn Hmax Hsp))
    as (r & s' & E & bs' & c' & _ & FT' & [_ Hj] & _ & Hr & Hfull & Hsz & _ & _ & Hb). fold x in Hsz, Hb.
  pose proof (fo_size _ _ _ _ (ft_file _ _ _ _ _ _ _ FT')) as Hs'. pose proof (proj1 Hde) as Hsrc.
  assert (contents (inodes s' !!! i) c' = overwrite (contents x c) off (take (Z.to_nat r) src)) as Ec
    by (apply contents_write; [done|lia|done|lia|done]).
  exists r, s', c'. split; [done|]. split; [done|]. split; [done|]. split; [done|]. cbv zeta. rewrite <- Ec.
  split; [rewrite length_file_contents; lia|]. intros ok o k Hok' Ho' Hk Hlt.
  destruct (contents_slice (inodes s' !!! i) c' o k Ho' Hk (proj1 Hs')) as [E1 E2].
  destruct (wp_elim _ _ _ (readi_spec dev s' bs' c' d i ok o k FT' Hok' Ho' Hk Hlt)) as (r' & s'' & E' & _ & _ & ->).
  exists s''. by rewrite E', E2, E1.
Qed.

(** A completed operation is on disk. If [writei] ran in the only
    operation in progress, the following [end_op] returns with the log empty
    and the disk itself holding the new file: the blocks on disk, followed
    from the inode on disk, contain the overwritten contents. *)
Lemma writei_durable dev s bs c d i fetch src off n :
  let x := inodes s !!! i in
  file_tx dev s bs c d i (i_size x) → inode_ok x → delivers fetch src n →
  0 ≤ off ≤ i_size x → 0 ≤ n → off + n ≤ MAXFILE * BSIZE →
  Z.of_nat (length bs) + 5 * nblocks (off mod BSIZE) n + 1 < l_size (flog s) →
  outstanding (flog s) = 1 → committing (flog s) = false →
  ∃ r s' s'' a, writei i fetch off n s = Ret r s' ∧ with_log end_op s' = Ret tt s'' ∧
    bc_repr dev (cache (flog s'')) a ∧ lh_n (lh (flog s'')) = 0 ∧
    let x' := inodes s'' !!! i in
    get_dinode (adisk a (IBLOCK (inum x) (sb s))) (dinode_off (inum x)) = dinode_of x' ∧
    contents x' (adisk a) = overwrite (contents x c) off (take (Z.to_nat r) src).
Proof.
  intros x FT Hok Hde Ho Hn Hmax Hsp Hout Hcom.
  destruct (wp_elim _ _ _ (writei_spec dev s bs c d i fetch src off n FT Hok Hde Ho Hn Hmax Hsp))
    as (r & s' & E & bs' & c' & G & FT' & [_ Hj] & _ & Hr & Hfull & Hsz & Hdi & _ & Hb). fold x in Hsz, Hb, Hdi.
  pose proof (ft_file _ _ _ _ _ _ _ FT') as F'. pose proof (fo_size _ _ _ _ F') as Hs'. pose proof (proj1 Hde) as Hsrc.
  assert (contents (inodes s' !!! i) c' = overwrite (contents x c) off (take (Z.to_nat r) src)) as Ec
    by (apply contents_write; [done|lia|done|lia|done]).
  pose proof G as (Gsb & (G1 & G2 & G3 & G4) & _).
  destruct (tx_end_op dev s' bs' c' d (ft_tx _ _ _ _ _ _ _ FT') ltac:(congruence) ltac:(congruence))
    as (s'' & c2 & E' & Es & [(a & R & _ & _ & Ea & Hd) Hdev Hl _ _] & _ & _ & Hv).
  assert (∀ x, ¬ in_log (flog s') x → adisk a x = c' x) as Hvd by (intros z Hz; by rewrite Hd, Hv).
  exists r, s', s'', a. split; [done|]. split; [done|]. split; [unfold lrep in R; by rewrite Hdev in R|].
  split; [exact (ls_n _ _ Hl)|]. cbv zeta. assert (inodes s'' = inodes s') as -> by (by rewrite Es). split.
  - rewrite <- Hdi. f_equal. apply Hvd. rewrite (in_log_geo _ _ _ G). apply (ly_ino _ (ft_layout _ _ _ _ _ _ _ FT)).
    apply (fo_inum _ _ _ _ (ft_file _ _ _ _ _ _ _ FT)).
  - rewrite <- Ec. unfold contents. apply map_ext_in. intros p Hp. rewrite <- list_elem_of_In, elem_of_seqZ in Hp.
    apply fbyte_blocks; [|lia]. intros b Hb'. eapply fblock_agree; [|exact F'|done].
    intros z [D _]. by apply Hvd, (db_log _ _ D).
Qed.

(** ** Loading an inode *)

(** What stays when only inode [i] is changed. *)
Definition beside s s' : Prop :=
  flog s' = flog s ∧ sb s' = sb s ∧ fpid s' = fpid s ∧ length (inodes s') = length (inodes s).
Lemma wp_seti i f s (Q : unit → fsst S → Prop) :
  (i < length (inodes s))%nat →
  (∀ s', beside s s' → inodes s' !!! i = f (inodes s !!! i) → Q tt s') → wp (seti i f) Q s.
Proof.
  intros Hi HQ. apply wp_modify. apply HQ.
  - split_and!; try done. apply length_alter.
  - simpl. rewrite list_lookup_total_alter. by rewrite decide_True.
Qed.

(** [ilock] of an entry to be filled from block [ib]. *)
Lemma ilock_fills dev s bs c d i :
  let y := inodes s !!! i in
  let ib := IBLOCK (inum y) (sb s) in
  let z := get_dinode (c ib) (dinode_off (inum y)) in
  tx dev s bs ∅ c d → (i < length (inodes s))%nat → (length bs < 30)%nat → 0 ≤ ib < 2 ^ 32 →
  i_dev y = dev → 1 ≤ i_ref y → sl_locked (i_lock y) = false → i_valid y = false → d_type z ≠ 0 →
  wp (ilock (Some i)) (λ _ s', tx dev s' bs ∅ c d ∧
    inodes s' !!! i = load_dinode z (y <| i_lock := mk_sleeplock true (fpid s) |>) <| i_valid := true |>) s.
Proof.
  intros y ib z H Hi Hn Rib Hd Hr Hl Hv Ht. unfold ilock. apply wp_bind. unfold geti at 1. apply wp_gets. fold y.
  rewrite (proj2 (Z.ltb_ge _ _)) by lia. apply wp_bind.
  unfold iacquiresleep. apply wp_bind. unfold geti. apply wp_gets. fold y. rewrite Hl.
  apply wp_bind, wp_gets. apply wp_seti; [done|]. intros s1 (F1 & B1 & P1 & L1) E1. fold y in E1.
  apply wp_bind, wp_gets. rewrite E1. cbn [i_valid i_dev inum]. simpl (i_valid _). rewrite Hv.
  apply wp_bind, wp_gets. rewrite B1. simpl (i_dev _). simpl (inum _). rewrite Hd. fold ib. apply wp_bind.
  eapply tx_bread; [by eapply tx_flog; [|exact H]|done|apply lookup_empty|rewrite map_size_empty; lia|].
  intros b s2 M2 T2. pose proof (moves_sb _ _ M2) as (_ & Ei2 & _).
  apply wp_bind. eapply tx_data; [exact T2|apply lookup_insert_eq|]. fold z. apply wp_bind.
  apply wp_seti; [by rewrite Ei2, L1|]. intros s3 (F3 & _ & _ & L3) E3. apply wp_bind.
  eapply tx_release; [by eapply tx_flog; [|exact T2]|apply lookup_insert_eq| |].
  { intros Hb. by apply (tx_clean _ _ _ _ _ _ _ H). }
  intros s4 M4 T4. rewrite delete_insert_id in T4 by apply lookup_empty. pose proof (moves_sb _ _ M4) as (_ & Ei4 & _).
  apply wp_bind. apply wp_seti; [by rewrite Ei4, L3, Ei2, L1|]. intros s5 (F5 & _) E5.
  rewrite Ei4, E3, Ei2, E1 in E5. apply wp_bind, wp_gets.
  assert (i_type (inodes s5 !!! i) = d_type z) as -> by (by rewrite E5). rewrite (proj2 (Z.eqb_neq _ 0) Ht). apply wp_ret. split; [by eapply tx_flog; [|exact T4]|]. exact E5.
Qed.

(** [ilock] reads back what [iupdate] wrote. After [iupdate] of an inode,
    an entry of the same inode that is not valid, is referenced and not
    locked, as [iget] leaves it, is filled by [ilock] with exactly the type,
    device numbers, link count, size and block addresses of that inode,
    marked valid and locked by the caller. *)
Theorem iupdate_ilock dev s bs c d i y :
  let x := inodes s !!! i in
  file_tx dev s bs c d i (i_size x) → inode_ok x → i_type x ≠ 0 →
  Z.of_nat (length bs) < l_size (flog s) - 2 →
  i_dev y = dev → inum y = inum x → 1 ≤ i_ref y → sl_locked (i_lock y) = false → i_valid y = false →
  ∃ s', iupdate i s = Ret tt s' ∧
  ∃ s'', ilock (Some i) (s' <| inodes := <[i := y]> (inodes s') |>) = Ret tt s'' ∧
    inodes s'' !!! i = load_dinode (dinode_of x) (y <| i_lock := mk_sleeplock true (fpid s) |>) <| i_valid := true |>.
Proof.
  intros x FT Hok Ht Hsp Hd Hi Hr Hl Hv. pose proof FT as [H Ly Hb F Hidx Hdev].
  pose proof (fo_inum _ _ _ _ F) as Hino. pose proof (fo_size _ _ _ _ F) as Hsz. fold x in Hino, Hsz, F.
  destruct (wp_elim _ _ _ (iupdate_spec dev s bs c d i (i_size x) FT ltac:(lia))) as ([] & s' & E & M & FT' & _).
  fold x in FT'. exists s'. split; [done|]. set (ib := IBLOCK (inum x) (sb s)) in *.
  set (c' := fset ib _ c) in *. set (s1 := s' <| inodes := <[i := y]> (inodes s') |>).
  pose proof (moves_sb _ _ M) as (Esb & Ei & _). assert (fpid s' = fpid s) as Ep by (by rewrite (proj1 M)).
  assert (inodes s1 !!! i = y) as Ey.
  { unfold s1. simpl. rewrite list_lookup_total_insert_eq; [done|]. by rewrite Ei. }
  assert (get_dinode (c' ib) (dinode_off (inum x)) = dinode_of x) as Eg.
  { unfold c'. rewrite fset_eq. apply put_dinode_spec; [rewrite (tx_len _ _ _ _ _ _ _ H); apply dinode_off_fit|].
    assert (MAXFILE * BSIZE = 274432) as Emax by reflexivity. eapply inode_dinode_ok; [done|done|done|lia]. }
  pose proof (tx_fit _ _ _ _ _ _ H). pose proof (length_add_block ib bs).
  assert (IBLOCK (inum (inodes s1 !!! i)) (sb s1) = ib) as Eib by (rewrite Ey, Hi; unfold s1; simpl; by rewrite Esb).
  pose proof (ilock_fills dev s1 (add_block ib bs) c' d i) as W. cbv zeta in W.
  rewrite Eib, Ey, Hi, Eg in W.
  destruct (wp_elim _ _ _ (W ltac:(eapply tx_flog; [|apply FT']; done) ltac:(unfold s1; simpl; rewrite length_insert, Ei; done)
    ltac:(lia) (iblock_range s _ Ly Hino) Hd Hr Hl Hv Ht)) as ([] & s'' & E' & _ & Es). exists s''. split; [done|].
  rewrite Es. change (fpid s1) with (fpid s'). by rewrite Ep.
Qed.
End file_thms.

(** ** An empty file on a small disk *)

Definition demo_inode : inode := (zero_inode <| i_dev := 1 |> <| inum := 5 |> <| i_ref := 1 |> <| i_valid := true |>
  <| i_type := T_FILE |> <| nlink := 1 |>).
Definition demo_file (b : bst) : fsst bst := (demo_fs b) <| inodes := <[0%nat := demo_inode]> (inodes (demo_fs b)) |>.

Lemma demo_faddr c bn : 0 ≤ bn → faddr demo_inode c bn = 0.
Proof.
  intros Hb. unfold faddr. destruct (Z.ltb_spec bn (Z.of_nat NDIRECT)) as [Hlt|]; [|done].
  change (addrs demo_inode) with (replicate (NDIRECT + 1) 0). rewrite lookup_total_replicate_2; [done|]. lia.
Qed.
Lemma demo_file_tx : ∃ b, file_tx 1 (demo_file b) [] demo_c demo_c 0 0.
Proof.
  destruct demo_fs_tx as [b H]. exists b. assert (geo (demo_fs b) (demo_file b)) as G by done.
  split; [by eapply tx_flog; [|exact H]|eapply layout_geo; [done|apply demo_layout]|eapply bitmap_ok_geo; [done|apply demo_bitmap_ok]| |simpl; lia|done].
  change (inodes (demo_file b) !!! 0%nat) with demo_inode.
  split; [done|vm_compute; split; [discriminate|reflexivity]|by intros []| | |unfold BSIZE; lia|vm_compute; split; discriminate].
  - intros bn Hb Hn. by rewrite demo_faddr in Hn by lia.
  - intros b1 b2 Hb1 Hb2 _ Hn. by rewrite demo_faddr in Hn by lia.
Qed.
Lemma demo_inode_ok : inode_ok demo_inode.
Proof. unfold inode_ok, demo_inode, T_FILE. simpl. lia. Qed.
Lemma demo_delivers src : delivers (kernel_src src) src (Z.of_nat (length src)).
Proof. split; [lia|]. done. Qed.

(** The same steps evaluated. *)
Example demo_run_write :
  match binit (boot_bst 1 demo_disk) with
  | Ret _ b =>
      match writei 0 (kernel_src [1; 2; 3]) 0 3 (demo_file b) with
      | Ret r s' => r = 3 ∧
          match readi 0 kernel_dst 1 10 s' with
          | Ret q _ => q = (2, [2; 3])
          | _ => False
          end
      | _ => False
      end
  | _ => False
  end.
Proof. vm_compute. split; reflexivity. Qed.

Lemma writei_readi_witness :
  ∃ (s s' : fsst bst) r c', writei 0 (kernel_src [1; 2; 3]) 0 3 s = Ret r s' ∧ 0 ≤ r ≤ 3 ∧ (r = 3 ∨ full s' c') ∧
    ∃ s'', readi 0 kernel_dst 0 100 s' = Ret (r, take (Z.to_nat r) [1; 2; 3]) s''.
Proof.
  destruct demo_file_tx as [b FT]. exists (demo_file b).
  destruct (writei_readi 1 (demo_file b) [] demo_c demo_c 0 (kernel_src [1; 2; 3]) [1; 2; 3] 0 3)
    as (r & s' & c' & E & Hr & Hfull & _ & _ & Hread).
  - exact FT.
  - exact demo_inode_ok.
  - exact (demo_delivers [1; 2; 3]).
  - vm_compute. split; discriminate.
  - lia.
  - vm_compute. discriminate.
  - vm_compute. reflexivity.
  - exists s', r, c'. split; [exact E|]. split; [exact Hr|]. split; [exact Hfull|].
    destruct (Hread kernel_dst 0 100 (accepts_kernel 100)) as (s'' & E''); [lia|lia|lia|]. exists s''.
    change (contents (inodes (demo_file b) !!! 0%nat) demo_c) with (@nil Z) in E''.
    rewrite overwrite_nil, slice_all, length_take in E'' by (rewrite ?length_take; simpl; lia).
    rewrite E''. do 2 f_equal. simpl. lia.
Defined.

Lemma writei_durable_witness :
  ∃ (s s' s'' : fsst bst) r a, writei 0 (kernel_src [1; 2; 3]) 0 3 s = Ret r s' ∧ with_log end_op s' = Ret tt s'' ∧
    bc_repr 1 (cache (flog s'')) a ∧ contents (inodes s'' !!! 0%nat) (adisk a) = take (Z.to_nat r) [1; 2; 3].
Proof.
  destruct demo_file_tx as [b FT]. exists (demo_file b).
  destruct (writei_durable 1 (demo_file b) [] demo_c demo_c 0 (kernel_src [1; 2; 3]) [1; 2; 3] 0 3)
    as (r & s' & s'' & a & E & E' & R & _ & _ & Hc).
  - exact FT.
  - exact demo_inode_ok.
  - exact (demo_delivers [1; 2; 3]).
  - vm_compute. split; discriminate.
  - lia.
  - vm_compute. discriminate.
  - vm_compute. reflexivity.
  - reflexivity.
  - reflexivity.
  - exists s', s'', r, a. split; [exact E|]. split; [exact E'|]. split; [exact R|]. rewrite Hc.
    change (contents (inodes (demo_file b) !!! 0%nat) demo_c) with (@nil Z). apply overwrite_nil.
Defined.

Lemma iupdate_ilock_witness :
  ∃ s s' s'' : fsst bst, iupdate 0 s = Ret tt s' ∧
    ilock (Some 0%nat) (s' <| inodes := <[0%nat := demo_inode <| i_valid := false |> <| i_type := 0 |>]> (inodes s') |>) = Ret tt s'' ∧
    i_type (inodes s'' !!! 0%nat) = T_FILE ∧ nlink (inodes s'' !!! 0%nat) = 1.
Proof.
  destruct demo_file_tx as [b FT]. exists (demo_file b).
  destruct (iupdate_ilock 1 (demo_file b) [] demo_c demo_c 0 (demo_inode <| i_valid := false |> <| i_type := 0 |>))
    as (s' & E & s'' & E' & Hx).
  - exact FT.
  - exact demo_inode_ok.
  - discriminate.
  - simpl. lia.
  - reflexivity.
  - reflexivity.
  - simpl. lia.
  - reflexivity.
  - reflexivity.
  - exists s', s''. split; [exact E|]. split; [exact E'|]. rewrite Hx. split; reflexivity.
Defined.
