(* ===== verification/FsDir.v ===== *)
(** * Directories

    A directory is a file of 16-byte entries. [dirlookup] finds the first entry
    in use with the name, [dirlink] adds one; together they are lookup and
    insertion of a map from names to inode numbers. The name in an array of
    [DIRSIZ] bytes is what comes before its first zero, if there is one:
    [namecmp] compares names, [strncpy] stores one. *)

From S2P Require Import Prelude.
From S2P Require Import Machine.
From S2P Require Import KString.
From S2P Require Import Printf.
From S2P Require Import Bio.
From S2P Require Import BioSpec.
From S2P Require Import Log.
From S2P Require Import LogSpec.
From S2P Require Import LogThms.
From S2P Require Import Fs.
From S2P Require Import FsInode.
From S2P Require Import FsSpec.
From S2P Require Import FsFile.
From S2P Require Import FsRw.
From S2P Require Import FsThms.
From S2P Require Import FsRwThms.
#[local] Open Scope Z_scope.

(** ** Names *)


Definition name_key (l : list Z) : list Z := until_nul (take DIRSIZ l).
Definition is_bytes (l : list Z) : Prop := Forall (λ c, 0 ≤ c < 256) l.
Definition padded_to (n : nat) (l : list Z) : list Z := l ++ replicate (n - length l) 0.

(** *** Strings *)

Lemma length_until_nul l : (length (until_nul l) ≤ length l)%nat.
Proof. induction l as [|c l IH]; simpl; [done|]. destruct (c =? 0); simpl; lia. Qed.
Lemma until_nul_zeros l n : until_nul (l ++ replicate n 0) = until_nul l.
Proof. induction l as [|c l IH]; simpl; [by destruct n|]. by rewrite IH. Qed.
Lemma until_nul_idem l : until_nul (until_nul l) = until_nul l.
Proof. induction l as [|c l IH]; simpl; [done|]. destruct (c =? 0) eqn:E; [done|]. simpl. by rewrite E, IH. Qed.

(** Strings are equal if they agree up to the end of the first. *)
Lemma until_nul_eq n : ∀ s t : list Z,
  until_nul (take n s) = until_nul (take n t) ↔
  ∀ i, (i < n)%nat → (∀ j, (j < i)%nat → default 0 (s !! j) ≠ 0) → default 0 (s !! i) = default 0 (t !! i).
Proof.
  induction n as [|n IH]; intros s t; [split; [intros _ i Hi; lia|done]|].
  assert (∀ u : list Z, until_nul (take (S n) u) = if default 0 (u !! 0%nat) =? 0 then [] else default 0 (u !! 0%nat) :: until_nul (take n (tail u))) as E.
  { intros [|c u]; [done|]. done. }
  assert (∀ (u : list Z) i, u !! S i = tail u !! i) as Et by (intros [|c u] i; done). rewrite !E. split.
  - intros Heq i Hi Hnz. destruct i as [|i].
    + destruct (Z.eqb_spec (default 0 (s !! 0%nat)) 0), (Z.eqb_spec (default 0 (t !! 0%nat)) 0); try done; congruence.
    + pose proof (Hnz 0%nat ltac:(lia)) as H0. rewrite (proj2 (Z.eqb_neq _ _) H0) in Heq.
      destruct (Z.eqb_spec (default 0 (t !! 0%nat)) 0); [done|]. injection Heq as _ Heq. rewrite !Et. apply (proj1 (IH (tail s) (tail t)) Heq); [lia|].
      intros j Hj. rewrite <- Et. apply Hnz. lia.
  - intros H. pose proof (H 0%nat ltac:(lia) ltac:(intros; lia)) as H0. rewrite <- H0. destruct (Z.eqb_spec (default 0 (s !! 0%nat)) 0) as [|Hne]; [done|].
    f_equal. apply IH. intros i Hi Hnz. rewrite <- !Et. apply H; [lia|]. intros [|j] Hj; [done|]. rewrite Et. apply Hnz. lia.
Qed.

(** *** Comparing *)

Lemma load8_array m a l (i : nat) :
  is_bytes l → (∀ x, a ≤ x → load8 m x = 0) → load8 (store_bytes m a l) (a + Z.of_nat i) = default 0 (l !! i).
Proof.
  intros Hl Hz. destruct (l !! i) as [c|] eqn:E; simpl.
  - rewrite (load8_store_bytes _ _ _ _ _ E). unfold is_bytes in Hl. rewrite Forall_lookup in Hl. apply u8_small. by eapply Hl.
  - apply lookup_ge_None in E. rewrite load8_store_bytes_ne by zlia. apply Hz. lia.
Qed.

Lemma load8_empty x : load8 ∅ x = 0.
Proof. done. Qed.

Theorem namecmp_eq s t : is_bytes s → is_bytes t → Z.of_nat (length s) ≤ 4096 → namecmp s t = 0 ↔ name_key s = name_key t.
Proof.
  intros Hs Ht Hl. unfold namecmp, strncmp, name_key. rewrite strncmp_loop_zero, until_nul_eq. rewrite Nat2Z.id.
  set (m := store_bytes (store_bytes ∅ 0 s) 4096 t).
  assert (∀ i, (i < DIRSIZ)%nat → load8 m (0 + Z.of_nat i) = default 0 (s !! i)) as Ls.
  { intros i Hi. unfold m, DIRSIZ in *. rewrite load8_store_bytes_ne by zlia. by apply load8_array. }
  assert (∀ i, load8 m (4096 + Z.of_nat i) = default 0 (t !! i)) as Lt.
  { intros i. apply load8_array; [done|]. intros x Hx. rewrite load8_store_bytes_ne by zlia. done. }
  split.
  - intros H i Hi Hnz. rewrite <- Ls, <- Lt by done. apply H; [lia|]. intros j Hj. replace j with (Z.of_nat (Z.to_nat j)) by lia.
    rewrite Ls by lia. apply Hnz. lia.
  - intros H i Hi Hnz. replace i with (Z.of_nat (Z.to_nat i)) by lia. rewrite Ls, Lt by lia. apply H; [lia|]. intros j Hj.
    rewrite <- Ls by lia. apply Hnz. lia.
Qed.

(** *** Storing *)

Lemma strncpy_pad_load n : ∀ m s x, load8 (strncpy_pad n m s) x = if decide (in_range s (Z.of_nat n) x) then 0 else load8 m x.
Proof.
  induction n as [|n IH]; intros m s x; cbn [strncpy_pad]; [rewrite decide_False by zlia; done|]. rewrite IH.
  destruct (decide (x = s)) as [->|Hne]; [rewrite decide_False, load8_store8_eq, decide_True by zlia; done|].
  rewrite load8_store8_ne by done. repeat case_decide; zlia || done.
Qed.

(** What is read at [s] afterwards, for arrays that do not overlap. *)
Lemma strncpy_load n : ∀ m s t, bytes_ok m → s + Z.of_nat n ≤ t ∨ t + Z.of_nat n ≤ s →
  let '(m', s', n') := strncpy_copy n m s t (Z.of_nat n) in
  load_bytes n (strncpy_pad (Z.to_nat n') m' s') s = padded_to n (until_nul (load_bytes n m t)) ∧
  ∀ x, ¬ in_range s (Z.of_nat n) x → load8 (strncpy_pad (Z.to_nat n') m' s') x = load8 m x.
Proof.
  induction n as [|n IH]; intros m s t Hb Hd; cbn [strncpy_copy load_bytes until_nul]; [by split|].
  set (c := load8 m t). set (m1 := store8 m s c). assert (load8 m1 s = c) as E1 by (unfold m1; rewrite load8_store8_eq; apply u8_small, Hb).
  destruct (Z.eqb_spec c 0) as [E0|E0].
  - replace (Z.to_nat (Z.of_nat (S n) - 1)) with n by lia. split.
    + rewrite strncpy_pad_load, decide_False, E1, E0 by zlia. unfold padded_to. cbn [length app Nat.sub replicate]. f_equal.
      apply list_eq. intros i. destruct (decide (i < n)%nat) as [Hi|Hi].
      * rewrite load_bytes_lookup, lookup_replicate_2 by done. by rewrite strncpy_pad_load, decide_True by zlia.
      * by rewrite !lookup_ge_None_2 by (rewrite ?length_load_bytes, ?length_replicate; lia).
    + intros x Hx. rewrite strncpy_pad_load, decide_False by zlia. apply load8_store8_ne. zlia.
  - specialize (IH m1 (s + 1) (t + 1) (bytes_ok_store8 _ _ _ Hb) ltac:(lia)). replace (Z.of_nat (S n) - 1) with (Z.of_nat n) by lia.
    destruct (strncpy_copy n m1 (s + 1) (t + 1) (Z.of_nat n)) as [[m' s'] n']. destruct IH as [H1 H2]. split.
    + rewrite H2, E1, H1 by zlia. rewrite (load_bytes_agree n m1 m (t + 1)); [done|]. intros x Hx. apply load8_store8_ne. zlia.
    + intros x Hx. rewrite H2 by zlia. apply load8_store8_ne. zlia.
Qed.

Lemma take_pad n (l : list Z) : ∀ i, (i < n)%nat → (take n l ++ replicate (n - length l) 0) !! i = Some (default 0 (l !! i)).
Proof.
  intros i Hi. destruct (decide (i < length l)%nat) as [Hl|Hl].
  - rewrite lookup_app_l, lookup_take_lt by (rewrite ?length_take; lia). destruct (lookup_lt_is_Some_2 l i Hl) as [c ->]. done.
  - rewrite lookup_app_r, lookup_replicate_2 by (rewrite length_take; lia). by rewrite lookup_ge_None_2 by lia.
Qed.

(** [strncpy] stores the name, and zeros after it. *)
Theorem strncpy_name_eq name : is_bytes name → strncpy_name name = padded_to DIRSIZ (name_key name).
Proof.
  intros Hn. unfold strncpy_name, strncpy. set (m := store_bytes ∅ 4096 name). rewrite Nat2Z.id.
  pose proof (strncpy_load DIRSIZ m 0 4096) as H. destruct (strncpy_copy DIRSIZ m 0 4096 (Z.of_nat DIRSIZ)) as [[m' s'] n'].
  destruct H as [-> _]; [by apply bytes_ok_store_bytes|unfold DIRSIZ; lia|]. f_equal. unfold name_key.
  rewrite <- (until_nul_zeros (take DIRSIZ name) (DIRSIZ - length name)). f_equal. apply list_eq. intros i.
  destruct (decide (i < DIRSIZ)%nat) as [Hi|Hi].
  - rewrite load_bytes_lookup, take_pad by done. f_equal. by apply load8_array.
  - rewrite !lookup_ge_None_2 by (rewrite ?length_load_bytes, ?length_app, ?length_take, ?length_replicate; lia). done.
Qed.

Lemma length_strncpy_name name : length (strncpy_name name) = DIRSIZ.
Proof. unfold strncpy_name. apply length_load_bytes. Qed.
Lemma name_key_stored name : is_bytes name → name_key (strncpy_name name) = name_key name.
Proof.
  intros Hn. unfold name_key at 1. rewrite take_ge by (by rewrite length_strncpy_name). rewrite strncpy_name_eq by done.
  unfold padded_to. rewrite until_nul_zeros. apply until_nul_idem.
Qed.

(** ** Entries *)


(** Entry [k] of the directory with inode [x]. *)
Definition ent (x : inode) (c : Z → list Z) (k : nat) : list Z := map (fbyte x c) (seqZ (16 * Z.of_nat k) 16).
Definition free_entry (de : list Z) : bool := de_inum de =? 0.
Definition names (name de : list Z) : bool := negb (free_entry de) && bool_decide (name_key name = name_key (de_name de)).
(** The first entry with the name, of [n], and its inode number. *)
Definition dir_find (x : inode) (c : Z → list Z) (n : nat) (name : list Z) : option (nat * Z) :=
  match list_find (λ k, names name (ent x c k) = true) (seq 0 n) with
  | Some (k, _) => Some (k, de_inum (ent x c k))
  | None => None
  end.
(** A directory of [n] entries. *)
Definition is_dir (x : inode) (c : Z → list Z) (n : nat) : Prop :=
  i_type x = T_DIR ∧ i_size x = 16 * Z.of_nat n ∧ ∀ k, (k < n)%nat → is_bytes (ent x c k).

Lemma length_ent x c k : length (ent x c k) = 16%nat.
Proof. unfold ent. by rewrite length_map, length_seqZ. Qed.
Lemma ent_at x c k : map (fbyte x c) (seqZ (16 * Z.of_nat k) 16) = ent x c k.
Proof. done. Qed.
Lemma name_bytes de : is_bytes de → is_bytes (de_name de).
Proof. intros H. unfold de_name. by apply Forall_take, Forall_drop. Qed.
Lemma offsets_eq n : dirent_offsets (16 * Z.of_nat n) = map (λ k, 16 * Z.of_nat k) (seq 0 n).
Proof. unfold dirent_offsets, sizeof_dirent. do 2 f_equal. replace ((16 * Z.of_nat n + 16 - 1) / 16) with (Z.of_nat n) by dlia. apply Nat2Z.id. Qed.

(** ** Searching a list *)

Lemma find_in_seq (P : nat → bool) m : ∀ n k y, list_find (λ k, P k = true) (seq m n) = Some (k, y) → y = (m + k)%nat ∧ (k < n)%nat ∧ P (m + k)%nat = true.
Proof.
  intros n k y (Hl & Hp & _)%list_find_Some. apply lookup_seq in Hl as [-> Hk]. done.
Qed.
Lemma find_first (P : nat → bool) n : 
  match list_find (λ k, P k = true) (seq 0 n) with
  | Some (k, y) => y = k ∧ (k < n)%nat ∧ P k = true ∧ ∀ j, (j < k)%nat → P j = false
  | None => ∀ j, (j < n)%nat → P j = false
  end.
Proof.
  destruct (list_find _ _) as [[k y]|] eqn:E.
  - apply list_find_Some in E as (Hl & Hp & Hj). apply lookup_seq in Hl as [-> Hk]. split_and!; [done|done|done|].
    intros j Hjk. apply not_true_iff_false. apply (Hj j j); [|done]. apply lookup_seq. split; [done|lia].
  - apply list_find_None in E. rewrite Forall_forall in E. intros j Hj. apply not_true_iff_false. apply E. apply elem_of_seq. lia.
Qed.
Lemma find_is (P : nat → bool) n k : (k < n)%nat → P k = true → (∀ j, (j < k)%nat → P j = false) →
  list_find (λ k, P k = true) (seq 0 n) = Some (k, k).
Proof.
  intros Hk Hp Hj. apply list_find_Some. split; [by apply lookup_seq|]. split; [done|]. intros j y Hl Hlt. apply lookup_seq in Hl as [-> _].
  simpl. by rewrite (Hj j Hlt).
Qed.
Lemma find_not (P : nat → bool) n : (∀ j, (j < n)%nat → P j = false) → list_find (λ k, P k = true) (seq 0 n) = None.
Proof. intros H. apply list_find_None, Forall_forall. intros j Hj%elem_of_seq. rewrite H by lia. done. Qed.

Lemma find_agree (P Q : nat → bool) n : (∀ j, (j < n)%nat → P j = Q j) →
  list_find (λ k, P k = true) (seq 0 n) = list_find (λ k, Q k = true) (seq 0 n).
Proof.
  intros H. pose proof (find_first P n) as HP. destruct (list_find (λ k, P k = true) (seq 0 n)) as [[k y]|].
  - destruct HP as (-> & Hk & Hp & Hj). symmetry. apply find_is; [done|by rewrite <- H|]. intros j Hlt. rewrite <- H by lia. auto.
  - symmetry. apply find_not. intros j Hj. rewrite <- H by done. auto.
Qed.

(** ** A new entry *)

Lemma le_bytes_bytes n : ∀ v, is_bytes (le_bytes n v).
Proof. induction n as [|n IH]; intros v; [by apply Forall_nil_2|]. apply Forall_cons_2; [apply u8_range|apply IH]. Qed.
Lemma until_nul_bytes l : is_bytes l → is_bytes (Printf.until_nul l).
Proof. induction 1 as [|a l Ha _ IH]; simpl; [by apply Forall_nil_2|]. destruct (a =? 0); [by apply Forall_nil_2|by apply Forall_cons_2]. Qed.
Lemma new_entry name ino : is_bytes name → 0 < ino < 65536 → let de := mk_dirent ino (strncpy_name name) in
  length de = 16%nat ∧ is_bytes de ∧ de_inum de = ino ∧ ∀ name', names name' de = bool_decide (name_key name' = name_key name).
Proof.
  intros Hn Hi de. assert (length (le_bytes 2 ino) = 2%nat) as Hl by apply length_le_bytes.
  assert (de_inum de = ino) as Ei.
  { unfold de_inum, get16. rewrite drop_0. unfold de, mk_dirent. rewrite take_app_length' by done. rewrite le_value_le_bytes. apply Z.mod_small. simpl. lia. }
  assert (de_name de = strncpy_name name) as En.
  { unfold de_name, de, mk_dirent. rewrite drop_app_length' by done. apply take_ge. by rewrite length_strncpy_name. }
  split; [unfold de, mk_dirent; by rewrite length_app, length_strncpy_name, Hl|]. split; [|split; [done|]].
  - apply Forall_app. split; [apply le_bytes_bytes|]. rewrite strncpy_name_eq by done. apply Forall_app.
    split; [by apply until_nul_bytes, Forall_take|apply Forall_replicate; lia].
  - intros name'. unfold names, free_entry. rewrite Ei, En, name_key_stored by done. rewrite (proj2 (Z.eqb_neq _ _)) by lia. done.
Qed.

Lemma names_key name name' de : name_key name = name_key name' → names name de = names name' de.
Proof. intros E. unfold names. by rewrite E. Qed.

(** Looking up after an entry was stored at [k], which was free or the end. *)
Lemma dir_find_link x c n x' c' n' k name ino name' :
  is_bytes name → 0 < ino < 65536 →
  (k < n)%nat ∧ n' = n ∧ free_entry (ent x c k) = true ∨ k = n ∧ n' = S n →
  ent x' c' k = mk_dirent ino (strncpy_name name) → (∀ j, (j < n')%nat → j ≠ k → ent x' c' j = ent x c j) →
  dir_find x c n name = None →
  dir_find x' c' n' name' = if decide (name_key name' = name_key name) then Some (k, ino) else dir_find x c n name'.
Proof.
  intros Hn Hi Hk Ek Ej Hnone. destruct (new_entry name ino Hn Hi) as (_ & _ & Hino & Hnm). rewrite <- Ek in Hino, Hnm.
  assert (∀ j, (j < n)%nat → names name (ent x c j) = false) as Hno.
  { unfold dir_find in Hnone. pose proof (find_first (λ k, names name (ent x c k)) n) as Hf. by destruct (list_find _ _) as [[? ?]|]. }
  assert (k < n')%nat as Hkn by (destruct Hk as [(? & -> & _)|(-> & ->)]; lia).
  specialize (Hnm name'). unfold dir_find. case_decide as Hkey.
  - rewrite (find_is (λ k, names name' (ent x' c' k)) n' k); [by rewrite Hino|done|by rewrite Hnm, bool_decide_eq_true_2|].
    intros j Hj. rewrite Ej by lia. rewrite (names_key name' name) by done. apply Hno. destruct Hk as [(? & -> & _)|(-> & ->)]; lia.
  - rewrite bool_decide_eq_false_2 in Hnm by done.
    assert (∀ j, (j < n)%nat → names name' (ent x' c' j) = names name' (ent x c j)) as Hsame.
    { intros j Hj. destruct (decide (j = k)) as [->|Hne]; [|rewrite Ej; [done|destruct Hk as [(? & -> & _)|(-> & ->)]; lia|done]].
      rewrite Hnm. destruct Hk as [(_ & _ & Hfree)|(-> & _)]; [|lia]. unfold names. by rewrite Hfree. }
    pose proof (find_first (λ k, names name' (ent x c k)) n) as Hf. destruct (list_find (λ k, names name' (ent x c k) = true) _) as [[j y]|].
    + destruct Hf as (-> & Hj & Hp & Hlt). rewrite (find_is (λ k, names name' (ent x' c' k)) n' j).
      * rewrite Ej; [done|destruct Hk as [(? & -> & _)|(-> & ->)]; lia|]. intros ->. rewrite <- Hsame in Hp by done. congruence.
      * destruct Hk as [(? & -> & _)|(-> & ->)]; lia.
      * by rewrite Hsame.
      * intros i Hij. rewrite Hsame by lia. auto.
    + rewrite find_not; [done|]. intros j Hj. destruct (decide (j = k)) as [->|Hne]; [by rewrite Hnm|].
      rewrite Hsame; [apply Hf|]; destruct Hk as [(? & -> & _)|(-> & ->)]; lia.
Qed.

Section dir.
Context {S : Type} `{!BufOps S} `{!BufLaws S}.
Implicit Types (s : fsst S) (bs : list Z).

(** ** [iget] *)

Lemma iget_scan_spec dev ino l : ∀ e s, ∃ r, iget_scan l dev ino e s = Ret r s ∧
  match r with
  | inl i => i ∈ l ∧ i_dev (inodes s !!! i) = dev ∧ inum (inodes s !!! i) = ino
  | inr e' => (∀ i, e' = Some i → e = Some i ∨ i ∈ l) ∧ (e' = None → e = None ∧ ∀ i, i ∈ l → i_ref (inodes s !!! i) ≠ 0)
  end.
Proof.
  induction l as [|i l IH]; intros e s; cbn [iget_scan].
  { exists (inr e). split; [done|]. split; [by left|]. intros ->. split; [done|]. by intros ? ?%elem_of_nil. }
  unfold bind, geti, gets. set (x := inodes s !!! i).
  destruct ((0 <? i_ref x) && (i_dev x =? dev) && (inum x =? ino)) eqn:E.
  - apply andb_true_iff in E as [[_ E1]%andb_true_iff E2]. exists (inl i). split; [done|].
    split; [by left|]. split; [by apply Z.eqb_eq in E1|by apply Z.eqb_eq in E2].
  - destruct (IH (match e with None => if i_ref x =? 0 then Some i else None | Some _ => e end) s) as (r & -> & Hr). exists r. split; [done|].
    destruct r as [j|e']; [destruct Hr as (? & ?); split; [by right|done]|]. destruct Hr as [H1 H2]. split.
    + intros j Hj. destruct (H1 j Hj) as [He|He]; [|right; by right]. destruct e; [by left|]. destruct (i_ref x =? 0); [|done].
      injection He as ->. right. by left.
    + intros Hn. destruct (H2 Hn) as [He Hl]. destruct e; [done|]. destruct (Z.eqb_spec (i_ref x) 0) as [|Hx]; [done|]. split; [done|].
      intros j [->|Hj]%elem_of_cons; [exact Hx|by apply Hl].
Qed.

(** There is a free entry in the inode table. *)
Definition has_room s : Prop := (length (inodes s) = Z.to_nat NINODE) ∧ ∃ i, i ∈ inode_slots ∧ i_ref (inodes s !!! i) = 0.

Lemma iget_spec dev ino s : has_room s →
  ∃ i s', iget dev ino s = Ret i s' ∧ i_dev (inodes s' !!! i) = dev ∧ inum (inodes s' !!! i) = ino.
Proof.
  intros [Hlen [i0 [Hin0 Hr0]]]. unfold iget. destruct (iget_scan_spec dev ino inode_slots None s) as (r & E & Hr).
  rewrite (bind_eq _ _ _ _ _ E).
  assert (∀ i f, i ∈ inode_slots → inodes (s <| inodes := alter f i (inodes s) |>) !!! i = f (inodes s !!! i)) as Ha.
  { intros i f Hi. simpl. rewrite list_lookup_total_alter, decide_True; [done|]. split; [done|]. unfold inode_slots in Hi. apply elem_of_seq in Hi. lia. }
  destruct r as [i|[i|]].
  - destruct Hr as (Hi & Hd & Hn). eexists i, _. split; [reflexivity|]. rewrite Ha by done. done.
  - destruct Hr as [Hr _]. destruct (Hr i eq_refl) as [|Hi]; [done|]. eexists i, _. split; [reflexivity|]. rewrite Ha by done. done.
  - destruct Hr as [_ Hr]. destruct (Hr eq_refl) as [_ Hn]. by destruct (Hn i0 Hin0).
Qed.

(** ** Scanning the entries *)

(** A loop over entries that does nothing at those where [P] is false ends
    at the first where it is true. *)
Lemma entries_scan {R} dev bs c d dp (P : list Z → bool) (act : Z → list Z → M (fsst S) (option R)) msg (Q : option R → fsst S → Prop) x n :
  (∀ off de, P de = false → act off de = ret None) → 16 * Z.of_nat n ≤ i_size x →
  ∀ s, inodes s !!! dp = x → file_tx dev s bs c d dp (i_size x) →
  (∀ s', moves s s' → tx dev s' bs ∅ c d →
     match list_find (λ k, P (ent x c k) = true) (seq 0 n) with
     | None => Q None s'
     | Some (k, _) => wp (act (16 * Z.of_nat k) (ent x c k)) (λ r s'', is_Some r ∧ Q r s'') s'
     end) →
  wp (for_until (map (λ k, 16 * Z.of_nat k) (seq 0 n)) (λ off,
    let! r := readi dp kernel_dst off sizeof_dirent in
    if negb (r.1 =? sizeof_dirent) then panic msg else act off r.2)) Q s.
Proof.
  intros Hact Hn s Hx FT HQ. assert (∀ m k s1, (k + m = n)%nat → moves s s1 → tx dev s1 bs ∅ c d → (∀ j, (j < k)%nat → P (ent x c j) = false) →
    wp (for_until (map (λ k, 16 * Z.of_nat k) (seq k m)) (λ off,
      let! r := readi dp kernel_dst off sizeof_dirent in
      if negb (r.1 =? sizeof_dirent) then panic msg else act off r.2)) Q s1) as Hgen.
  2: { apply (Hgen n 0%nat s); [done|apply moves_refl|apply FT|]. intros j Hj. lia. }
  induction m as [|m IH]; intros k s1 Hk Mv T Hj; cbn [seq map for_until].
  { apply wp_ret. specialize (HQ s1 Mv T). rewrite find_not in HQ; [done|]. intros j Hjn. apply Hj. lia. }
  pose proof (moves_sb _ _ Mv) as (_ & Ei & _). pose proof (file_tx_moves _ _ _ _ _ _ _ _ FT Mv T) as FT1.
  assert (inodes s1 !!! dp = x) as Hx1 by (by rewrite Ei). rewrite <- Hx1 in FT1.
  assert (16 * Z.of_nat k + 16 ≤ i_size x ∧ i_size x < 2 ^ 31) as [Hlt Hmax].
  { pose proof (fo_size _ _ _ _ (ft_file _ _ _ _ _ _ _ FT)) as Hs. assert (MAXFILE * BSIZE = 274432) by reflexivity. lia. }
  apply wp_bind, wp_bind. eapply wp_mono; [|apply (readi_spec dev s1 bs c d dp kernel_dst (16 * Z.of_nat k) sizeof_dirent FT1); [done|lia|done|unfold sizeof_dirent; lia]].
  rewrite Hx1. intros r s2 (M2 & T2 & ->). unfold sizeof_dirent. rewrite decide_True by lia. replace (Z.min 16 (i_size x - 16 * Z.of_nat k)) with 16 by lia.
  cbn [fst snd]. change (16 =? 16) with true. cbn [negb]. rewrite ent_at. pose proof (moves_trans _ _ _ Mv M2) as M02.
  destruct (P (ent x c k)) eqn:EP.
  - specialize (HQ s2 M02 T2). rewrite (find_is (λ k, P (ent x c k)) n k) in HQ by (done || lia).
    eapply wp_mono; [|exact HQ]. intros [v|] s3 [Hs Hq]; [|by destruct Hs]. by apply wp_ret.
  - rewrite Hact by done. apply wp_ret. apply IH; [lia|done|done|]. intros j Hjk. destruct (decide (j = k)) as [->|]; [done|]. apply Hj. lia.
Qed.

Lemma names_test name de : is_bytes name → is_bytes de → Z.of_nat (length name) ≤ 4096 →
  (if de_inum de =? 0 then false else namecmp name (de_name de) =? 0) = names name de.
Proof.
  intros Hn Hd Hl. unfold names, free_entry. destruct (de_inum de =? 0); [done|]. cbn [negb andb].
  pose proof (namecmp_eq name (de_name de) Hn (name_bytes _ Hd) Hl) as H.
  destruct (Z.eqb_spec (namecmp name (de_name de)) 0); symmetry; [apply bool_decide_eq_true|apply bool_decide_eq_false]; tauto.
Qed.

(** [dirlookup] is [dir_find], with a reference to the inode found. *)
Lemma dirlookup_spec dev s bs c d dp n name (Q : option (nat * Z) → fsst S → Prop) :
  let x := inodes s !!! dp in
  file_tx dev s bs c d dp (i_size x) → is_dir x c n → is_bytes name → Z.of_nat (length name) ≤ 4096 →
  (∀ s', moves s s' → tx dev s' bs ∅ c d →
     match dir_find x c n name with
     | None => Q None s'
     | Some (k, ino) => wp (iget dev ino) (λ i s'', Q (Some (i, 16 * Z.of_nat k)) s'') s'
     end) →
  wp (dirlookup dp name) Q s.
Proof.
  intros x FT (Ht & Hs & Hb) Hn Hl HQ. unfold dirlookup. apply wp_bind. unfold geti. apply wp_gets. fold x. rewrite Ht, Hs, offsets_eq.
  change (negb (T_DIR =? T_DIR)) with false. cbv iota.
  (* the entries are bytes, so the test of the loop is [names] *)
  set (P := λ de, if de_inum de =? 0 then false else namecmp name (de_name de) =? 0).
  apply (entries_scan dev bs c d dp P (λ off de, if de_inum de =? 0 then ret None else
    if namecmp name (de_name de) =? 0 then let! i := iget (i_dev x) (de_inum de) in ret (Some (i, off)) else ret None) _ Q x n); [|lia|done|done|].
  - intros off de HP. unfold P in HP. destruct (de_inum de =? 0); [done|]. by rewrite HP.
  - intros s' Mv T. specialize (HQ s' Mv T). unfold dir_find in HQ.
    assert (list_find (λ k, P (ent x c k) = true) (seq 0 n) = list_find (λ k, names name (ent x c k) = true) (seq 0 n)) as ->.
    { apply find_agree. intros k Hk. unfold P. apply names_test; auto. }
    pose proof (find_first (λ k, names name (ent x c k)) n) as Hf. destruct (list_find _ _) as [[k y]|]; [|done].
    destruct Hf as (_ & Hk & Hnm & _). rewrite <- names_test in Hnm by auto. destruct (de_inum (ent x c k) =? 0); [done|]. rewrite Hnm.
    apply wp_bind. rewrite (ft_dev _ _ _ _ _ _ _ FT : i_dev x = dev). eapply wp_mono; [|exact HQ]. intros i s'' Hq. apply wp_ret. eauto.
Qed.

(** ** [dirlink] *)

Lemma moves_full s s' c : moves s s' → full s c → full s' c.
Proof. intros M. unfold full. by rewrite (proj1 (moves_sb _ _ M)). Qed.

Lemma fbyte_ent x c x' c' j j' : (∀ o, 0 ≤ o < 16 → fbyte x' c' (16 * Z.of_nat j + o) = fbyte x c (16 * Z.of_nat j' + o)) → ent x' c' j = ent x c j'.
Proof.
  intros H. unfold ent. apply list_eq. intros i. destruct (decide (i < 16)%nat) as [Hi|Hi].
  - rewrite !list_lookup_fmap, !lookup_seqZ_lt by lia. simpl. f_equal. apply H. lia.
  - rewrite !list_lookup_fmap, !lookup_seqZ_ge by lia. done.
Qed.

(** A free entry, or the end of the directory. *)
Definition slot_for (x : inode) (c : Z → list Z) (n k n' : nat) : Prop :=
  (k < n)%nat ∧ n' = n ∧ free_entry (ent x c k) = true ∨ k = n ∧ n' = Datatypes.S n.

(** The write of the entry. *)
Lemma write_entry dev s bs c d dp n k n' name ino :
  let x := inodes s !!! dp in
  file_tx dev s bs c d dp (i_size x) → is_dir x c n → inode_ok x → slot_for x c n k n' →
  16 * Z.of_nat n' ≤ MAXFILE * BSIZE → Z.of_nat (length bs) + 6 < l_size (flog s) → is_bytes name → 0 < ino < 65536 →
  wp (writei dp (kernel_src (mk_dirent ino (strncpy_name name))) (16 * Z.of_nat k) sizeof_dirent)
    (λ r s', ∃ bs' c', let x' := inodes s' !!! dp in
      (r = 16 ∨ full s' c') ∧ (∀ j, j ≠ dp → inodes s' !!! j = inodes s !!! j) ∧
      file_tx dev s' bs' c' d dp (i_size x') ∧ length (inodes s') = length (inodes s) ∧
      (r = 16 → is_dir x' c' n' ∧ ent x' c' k = mk_dirent ino (strncpy_name name) ∧
         ∀ j, (j < n')%nat → j ≠ k → ent x' c' j = ent x c j)) s.
Proof.
  intros x FT (Ht & Hs & Hb) Hok Hk Hmax Hsp Hn Hi. destruct (new_entry name ino Hn Hi) as (Hl & Hbe & _).
  set (de := mk_dirent ino (strncpy_name name)) in *. assert (k < n' ∧ n ≤ n' ∧ k ≤ n)%nat as (Hkn & Hnn & Hkn') by (destruct Hk as [(? & -> & _)|(-> & ->)]; lia).
  assert (MAXFILE * BSIZE = 274432) as Em by reflexivity.
  assert (nblocks ((16 * Z.of_nat k) mod BSIZE) sizeof_dirent = 1) as Hnb.
  { unfold nblocks, sizeof_dirent. change (16 <=? 0) with false. cbv iota. unfold BSIZE. dlia. }
  eapply wp_mono; [|apply (writei_spec dev s bs c d dp (kernel_src de) de (16 * Z.of_nat k) sizeof_dirent FT Hok)]; fold x; unfold sizeof_dirent in *; try lia.
  2: { split; [rewrite Hl; lia|done]. }
  intros r s' (bs' & c' & G & FT' & [Hlen Hj] & [ad Ex] & Hr & Hfull & Hsz & _ & _ & Hby). fold x in Ex, Hsz, Hby. exists bs', c'. cbv zeta.
  set (x' := inodes s' !!! dp) in *. split; [done|]. split; [done|]. split; [done|]. split; [done|]. intros ->.
  assert (i_size x' = 16 * Z.of_nat n') as Hs' by (rewrite Hsz, Hs; destruct Hk as [(? & -> & _)|(-> & ->)]; lia).
  assert (ent x' c' k = de) as Ek.
  { unfold ent. apply list_eq. intros o. destruct (decide (o < 16)%nat) as [Ho|Ho].
    - rewrite list_lookup_fmap, lookup_seqZ_lt by lia. simpl. rewrite Hby, decide_True by lia.
      symmetry. rewrite (list_lookup_lookup_total_lt de o) by lia. do 2 f_equal. lia.
    - by rewrite list_lookup_fmap, lookup_seqZ_ge, lookup_ge_None_2 by lia. }
  assert (∀ j, (j < n')%nat → j ≠ k → ent x' c' j = ent x c j) as Eo.
  { intros j Hjn Hne. apply fbyte_ent. intros o Ho. rewrite Hby, decide_False by lia. done. }
  split; [|done]. split; [by rewrite Ex|]. split; [done|]. intros j Hjn. destruct (decide (j = k)) as [->|Hne]; [by rewrite Ek|].
  rewrite Eo by done. apply Hb. destruct Hk as [(? & -> & _)|(-> & ->)]; lia.
Qed.

Definition linked dev bs c d dp n name ino s (r : Z) s' : Prop := ∃ bs' c', let x' := inodes s' !!! dp in
  (r = 0 ∨ r = -1 ∧ full s' c') ∧ (∀ j, j ≠ dp → inodes s' !!! j = inodes s !!! j) ∧ length (inodes s') = length (inodes s) ∧
  file_tx dev s' bs' c' d dp (i_size x') ∧
  (r = 0 → ∃ k n', is_dir x' c' n' ∧
     ∀ name', dir_find x' c' n' name' = if decide (name_key name' = name_key name) then Some (k, ino) else dir_find (inodes s !!! dp) c n name').

Lemma dirlink_spec dev s bs c d dp n name ino :
  let x := inodes s !!! dp in
  file_tx dev s bs c d dp (i_size x) → is_dir x c n → inode_ok x → dir_find x c n name = None →
  16 * (Z.of_nat n + 1) ≤ MAXFILE * BSIZE → Z.of_nat (length bs) + 6 < l_size (flog s) →
  is_bytes name → Z.of_nat (length name) ≤ 4096 → 0 < ino < 65536 →
  wp (dirlink dp name ino) (linked dev bs c d dp n name ino s) s.
Proof.
  intros x FT Hdir Hok Hnone Hmax Hsp Hn Hl Hi. pose proof Hdir as (Ht & Hs & Hb). unfold dirlink. apply wp_bind.
  apply (dirlookup_spec dev s bs c d dp n name); [done..|]. fold x. intros s1 M1 T1. rewrite Hnone.
  pose proof (moves_sb _ _ M1) as (_ & Ei1 & _). pose proof (file_tx_moves _ _ _ _ _ _ _ _ FT M1 T1) as FT1.
  apply wp_bind. unfold geti. apply wp_gets. rewrite Ei1. fold x. rewrite Hs, offsets_eq. apply wp_bind.
  assert (inodes s1 !!! dp = x) as Hx1 by (by rewrite Ei1).
  apply (entries_scan dev bs c d dp free_entry (λ off de, if de_inum de =? 0 then ret (Some off) else ret None) _ _ x n); [|lia|done|by fold x in FT1|].
  { intros off de HP. unfold free_entry in HP. by rewrite HP. }
  intros s2 M2 T2. pose proof (file_tx_moves _ _ _ _ _ _ _ _ FT1 M2 T2) as FT2. pose proof (moves_sb _ _ M2) as (_ & Ei2 & _).
  assert (inodes s2 !!! dp = x) as Hx2 by (by rewrite Ei2). pose proof (moves_trans _ _ _ M1 M2) as M02.
  assert (∀ k n', slot_for x c n k n' → wp (let! w := writei dp (kernel_src (mk_dirent ino (strncpy_name name))) (16 * Z.of_nat k) sizeof_dirent in
    if negb (w =? sizeof_dirent) then ret (-1) else ret 0) (linked dev bs c d dp n name ino s) s2) as Hw.
  { intros k n' Hk. apply wp_bind. eapply wp_mono; [|apply (write_entry dev s2 bs c d dp n k n' name ino)]; rewrite ?Hx2; try done.
    - intros r s' (bs' & c' & Hr & Hj & FT' & Hlen & Hdone). unfold linked, sizeof_dirent. destruct (Z.eqb_spec r 16) as [->|Hne]; cbn [negb]; apply wp_ret; exists bs', c'; cbv zeta.
      + split; [by left|]. split; [intros j Hne; by rewrite Hj, Ei2, Ei1|]. split; [by rewrite Hlen, Ei2, Ei1|]. split; [done|]. intros _.
        destruct (Hdone eq_refl) as (Hd' & Ek & Eo). exists k, n'. split; [done|]. intros name'. fold x. by eapply (dir_find_link x c n).
      + split; [right; split; [done|]; by destruct Hr|]. split; [intros j Hj'; by rewrite Hj, Ei2, Ei1|]. split; [by rewrite Hlen, Ei2, Ei1|]. by split.
    - destruct Hk as [(? & -> & _)|(-> & ->)]; lia.
    - by rewrite (moves_size _ _ M02). }
  pose proof (find_first (λ k, free_entry (ent x c k)) n) as Hf. destruct (list_find _ _) as [[k y]|].
  - destruct Hf as (_ & Hk & Hfree & _). unfold free_entry in Hfree. rewrite Hfree. apply wp_ret. split; [by eexists|]. apply (Hw k n). by left.
  - replace (sizeof_dirent * ((16 * Z.of_nat n + sizeof_dirent - 1) / sizeof_dirent)) with (16 * Z.of_nat n) by (unfold sizeof_dirent; dlia).
    apply (Hw n (Datatypes.S n)). by right.
Qed.

(** C7: a directory is a map from names to inodes. [dirlink] of a name that is
    not in the directory, when the directory is smaller than the largest file,
    the inode table has a free slot and the log has room for six blocks,
    succeeds unless the disk became full, and afterwards [dirlookup] finds the inode number that was linked under the name, and
    under every other name what it found before, or nothing; names are compared
    by their first 14 characters. *)
Theorem dirlink_dirlookup dev s bs c d dp n name ino :
  let x := inodes s !!! dp in
  file_tx dev s bs c d dp (i_size x) → is_dir x c n → inode_ok x → dir_find x c n name = None →
  16 * (Z.of_nat n + 1) ≤ MAXFILE * BSIZE → Z.of_nat (length bs) + 6 < l_size (flog s) →
  is_bytes name → Z.of_nat (length name) ≤ 4096 → 0 < ino < 65536 → (length (inodes s) = Z.to_nat NINODE) →
  (∃ i0, i0 ∈ inode_slots ∧ i0 ≠ dp ∧ i_ref (inodes s !!! i0) = 0) →
  ∃ r s' c', dirlink dp name ino s = Ret r s' ∧ (r = 0 ∨ r = -1 ∧ full s' c') ∧
    (r = 0 → ∀ name', is_bytes name' → Z.of_nat (length name') ≤ 4096 →
       match (if decide (name_key name' = name_key name) then Some ino else option_map snd (dir_find x c n name')) with
       | Some j => ∃ i off s'', dirlookup dp name' s' = Ret (Some (i, off)) s'' ∧ i_dev (inodes s'' !!! i) = dev ∧ inum (inodes s'' !!! i) = j
       | None => ∃ s'', dirlookup dp name' s' = Ret None s''
       end).
Proof.
  intros x FT Hdir Hok Hnone Hmax Hsp Hn Hl Hi Hlen (i0 & Hin0 & Hne & Hr0).
  destruct (wp_elim _ _ _ (dirlink_spec dev s bs c d dp n name ino FT Hdir Hok Hnone Hmax Hsp Hn Hl Hi)) as (r & s' & E & bs' & c' & Hr & Hj & Hln & FT' & Hdone).
  exists r, s', c'. split; [done|]. split; [done|]. intros -> name' Hn' Hl'. destruct (Hdone eq_refl) as (k & n' & Hdir' & Hfind).
  assert (∀ s'', moves s' s'' → has_room s'') as Hroom.
  { intros s'' M. pose proof (moves_sb _ _ M) as (_ & Ei & _). split; [by rewrite Ei, Hln|]. exists i0. split; [done|]. by rewrite Ei, Hj. }
  specialize (Hfind name'). fold x in Hfind.
  set (Q := λ (o : option (nat * Z)) s'', match dir_find (inodes s' !!! dp) c' n' name' with
    | Some (_, j) => ∃ i off, o = Some (i, off) ∧ i_dev (inodes s'' !!! i) = dev ∧ inum (inodes s'' !!! i) = j | None => o = None end).
  assert (wp (dirlookup dp name') Q s') as HW.
  { apply (dirlookup_spec dev s' bs' c' d dp n' name'); [done..|]. intros s'' M T. unfold Q. destruct (dir_find _ c' n' name') as [[k' j]|]; [|done].
    destruct (iget_spec dev j s'' (Hroom s'' M)) as (i & s3 & E3 & Hd & Hnum). unfold wp. rewrite E3. eauto. }
  destruct (wp_elim _ _ _ HW) as (o & s'' & E' & Ho). unfold Q in Ho. rewrite Hfind in Ho. rewrite E'.
  destruct (decide _) as [Hkey|Hkey]; [destruct Ho as (i & off & -> & H1 & H2); eauto 6|].
  destruct (dir_find x c n name') as [[k' j]|]; simpl; [destruct Ho as (i & off & -> & H1 & H2); eauto 6|]. subst o. eauto.
Qed.
End dir.

(** ** An empty directory on a small disk *)

Definition demo_dir (b : bst) : fsst bst :=
  (demo_file b) <| inodes := alter (λ x, x <| i_type := T_DIR |>) 0%nat (inodes (demo_file b)) |>.

Example demo_links :
  match binit (boot_bst 1 demo_disk) with
  | Ret _ b =>
      match (do! dirlink 0 (Printf.bytes "a.c") 7 in do! dirlink 0 (Printf.bytes "b.c") 9 in dirlink 0 (Printf.bytes "a.c") 8) (demo_dir b) with
      | Ret r s' => r = -1 ∧
          match dirlookup 0 (Printf.bytes "b.c") s' with
          | Ret (Some (i, off)) s'' => off = 16 ∧ inum (inodes s'' !!! i) = 9
          | _ => False
          end
      | _ => False
      end
  | _ => False
  end.
Proof. vm_compute. repeat split. Qed.

Lemma dirlink_dirlookup_witness : ∃ (s s' : fsst bst) r c', dirlink 0 (Printf.bytes "a.c") 7 s = Ret r s' ∧ (r = 0 ∨ r = -1 ∧ full s' c') ∧
  (r = 0 → ∃ i off s'', dirlookup 0 (Printf.bytes "a.c") s' = Ret (Some (i, off)) s'' ∧ i_dev (inodes s'' !!! i) = 1 ∧ inum (inodes s'' !!! i) = 7).
Proof.
  destruct demo_file_tx as [b FT]. exists (demo_dir b).
  destruct (file_tx_map 1 (demo_file b) [] demo_c demo_c 0 0 (λ x, x <| i_type := T_DIR |>) FT) as (FT' & Ex & _); [split_and!; reflexivity|].
  assert (is_bytes (Printf.bytes "a.c")) as Hb.
  { change (Forall (λ c, 0 ≤ c < 256) [97; 46; 99]). repeat (apply Forall_cons_2; [lia|]). apply Forall_nil_2. }
  destruct (dirlink_dirlookup 1 (demo_dir b) [] demo_c demo_c 0 0 (Printf.bytes "a.c") 7) as (r & s' & c' & E & Hr & Hl).
  - exact FT'.
  - split; [reflexivity|]. split; [reflexivity|]. intros k Hk. lia.
  - unfold inode_ok. vm_compute. repeat split; discriminate.
  - reflexivity.
  - vm_compute. discriminate.
  - vm_compute. reflexivity.
  - exact Hb.
  - vm_compute. discriminate.
  - lia.
  - reflexivity.
  - exists 1%nat. split; [apply elem_of_seq; unfold NINODE; lia|]. split; [discriminate|reflexivity].
  - exists s', r, c'. split; [exact E|]. split; [exact Hr|]. intros H0. specialize (Hl H0 (Printf.bytes "a.c") Hb).
    rewrite decide_True in Hl by reflexivity. apply Hl. vm_compute. discriminate.
Defined.
