(* ===== verification/File.v ===== *)
(** * Open files and the file system calls ([kernel/file.c], [kernel/sysfile.c])

    The file table, pipes as files, and the system calls on descriptors and
    paths, over the file system of Fs.v, the pipes of Pipe.v, the page
    allocator and the console. The state holds what these calls use of the
    current process: its descriptors, and in the file system state its pid and
    working directory. User memory is an argument of a call: [usrc i] is the
    byte at [addr + i] if it can be read, [udst i] whether the byte at
    [addr + i] can be written; what a call writes there is in its result. Calls
    of [wakeup] are recorded: [pwoken] has those on pipes, the log, the inodes,
    the buffers and the console have lists of their own. *)

From stdpp Require Import gmap.
From S2P Require Import Prelude.
From S2P Require Import Machine.
From S2P Require Import Kalloc.
From S2P Require Import Pipe.
From S2P Require Import Bio.
From S2P Require Import BioSpec.
From S2P Require Import Log.
From S2P Require Import Console.
From S2P Require Import Fs.
#[local] Open Scope Z_scope.

Definition CONSOLE : Z := 1.

Inductive ftype := FD_NONE | FD_PIPE | FD_INODE | FD_DEVICE.

(** [f_pipe] is the address of the pipe's page, [f_ip] the index of the inode. *)
Record file := mk_file {
  f_type : ftype;
  f_ref : Z;
  readable : bool;
  writable : bool;
  f_pipe : Z;
  f_ip : nat;
  f_off : Z;
  f_major : Z
}.
#[export] Instance file_eta : Settable file := λ f,
  mk_file (f_type f) (f_ref f) (readable f) (writable f) (f_pipe f) (f_ip f) (f_off f) (f_major f).
Definition zero_file : file := mk_file FD_NONE 0 false false 0 0 0 0.
#[export] Instance file_inhabited : Inhabited file := populate zero_file.

Record kfs {S D : Type} := mk_kfs {
  kfsys : fsst S;
  ftable : list file;
  pipes : gmap Z Pipe.pipe;       (* the page at an address, used as a pipe *)
  kpages : kmem;
  kcon : con D;
  ofile : list (option nat);      (* myproc()->ofile *)
  pwoken : list Z                 (* addresses in pipes wakeup was called on *)
}.
Arguments kfs : clear implicits.
#[export] Instance kfs_eta {S D} : Settable (kfs S D) := λ s,
  mk_kfs S D (kfsys s) (ftable s) (pipes s) (kpages s) (kcon s) (ofile s) (pwoken s).

(** The other side of a transfer, and what [killed(myproc())] returns: in the
    turn of a write for byte [i]; a read asks at most once before it sleeps or
    ends, [ukilled 0]. *)
Record user := mk_user {
  usrc : Z → option Z;
  udst : Z → bool;
  ukilled : Z → bool
}.

(** [&pi->nread] and [&pi->nwrite] of the pipe at [pi]. *)
Definition pipe_nread (pi : Z) : Z := pi + 536.
Definition pipe_nwrite (pi : Z) : Z := pi + 540.
Definition pipe_chan (pi : Z) (c : Pipe.pchan) : Z :=
  match c with Pipe.ReadChan => pipe_nread pi | Pipe.WriteChan => pipe_nwrite pi end.

(** [either_copyin] of [m] bytes from [addr + tot]: it stores what comes
    before the first byte that cannot be read. *)
Fixpoint fetch_bytes (src : Z → option Z) (m : nat) (i : Z) : bool * list Z :=
  match m with
  | O => (true, [])
  | Datatypes.S m' =>
      match src i with
      | None => (false, [])
      | Some b => let r := fetch_bytes src m' (i + 1) in (r.1, b :: r.2)
      end
  end.
Definition user_fetch (u : user) (base : Z) : Z → Z → bool * list Z :=
  λ tot m, fetch_bytes (usrc u) (Z.to_nat m) (base + tot).

(** [either_copyout] of [m] bytes to [addr + i]: how many come before the
    first one that cannot be written. *)
Fixpoint put_bytes (dst : Z → bool) (m : nat) (i : Z) : Z :=
  match m with
  | O => 0
  | Datatypes.S m' => if dst i then 1 + put_bytes dst m' (i + 1) else 0
  end.
Definition user_put (u : user) : Z → Z → Z := λ tot m, put_bytes (udst u) (Z.to_nat m) tot.

Section file.
Context {S D : Type} `{!BufOps S} `{!UartDev D} `{!KernelImage}.
Implicit Types (s : kfs S D).

Definition with_fs {A} (m : M (fsst S) A) : M (kfs S D) A := lift kfsys (λ t s, s <| kfsys := t |>) m.
Definition with_pages {A} (m : M kmem A) : M (kfs S D) A := lift kpages (λ t s, s <| kpages := t |>) m.
Definition with_con {A} (m : M (con D) A) : M (kfs S D) A := lift kcon (λ t s, s <| kcon := t |>) m.
Definition fbegin_op : M (kfs S D) unit := with_fs (with_log begin_op).
Definition fend_op : M (kfs S D) unit := with_fs (with_log end_op).
(** The pipe at [pi], after a routine turned [p] into [p']. *)
Definition set_pipe (pi : Z) (p p' : Pipe.pipe) s : kfs S D :=
  (s <| pipes := <[pi := p']> (pipes s) |>)
    <| pwoken := pwoken s ++ map (pipe_chan pi) (drop (length (Pipe.wakeups p)) (Pipe.wakeups p')) |>.
(** The pipe at [pi]; another address is undefined behaviour. *)
Definition with_pipe {A} (pi : Z) (m : M Pipe.pipe A) : M (kfs S D) A := λ s,
  match pipes s !! pi with
  | None => Panic "undefined: pipe" s
  | Some p =>
      match m p with
      | Ret a p' => Ret a (set_pipe pi p p' s)
      | Panic msg p' => Panic msg (set_pipe pi p p' s)
      | Sleeps ch p' => Sleeps ch (set_pipe pi p p' s)
      | NoFuel p' => NoFuel (set_pipe pi p p' s)
      end
  end.

Definition getf (f : nat) : M (kfs S D) file := gets (λ s, ftable s !!! f).
Definition setf (f : nat) (g : file → file) : M (kfs S D) unit :=
  modify (λ s, s <| ftable := alter g f (ftable s) |>).
Definition inode_of (i : nat) : M (kfs S D) inode := with_fs (geti i).

(** ** file.c *)

Definition file_slots : list nat := seq 0 (Z.to_nat NFILE).

Definition filealloc : M (kfs S D) (option nat) :=
  for_until file_slots (λ f,
    let! x := getf f in
    if f_ref x =? 0 then
      do! setf f (λ x, x <| f_ref := 1 |>) in
      ret (Some f)
    else ret None).

Definition filedup (f : nat) : M (kfs S D) nat :=
  let! x := getf f in
  if f_ref x <? 1 then panic "filedup" else
  do! setf f (λ x, x <| f_ref := s32 (f_ref x + 1) |>) in
  ret f.

(** [pipeclose]: the page goes back when both ends are closed. *)
Definition file_pipeclose (pi : Z) (w : bool) : M (kfs S D) unit :=
  let! gone := with_pipe pi (Pipe.pipeclose w) in
  if gone then
    do! modify (λ s, s <| pipes := delete pi (pipes s) |>) in
    with_pages (kfree pi)
  else ret tt.

Definition fileclose (f : nat) : M (kfs S D) unit :=
  let! x := getf f in
  if f_ref x <? 1 then panic "fileclose" else
  do! setf f (λ x, x <| f_ref := s32 (f_ref x - 1) |>) in
  let! ff := getf f in
  if 0 <? f_ref ff then ret tt else
  do! setf f (λ x, (x <| f_ref := 0 |>) <| f_type := FD_NONE |>) in
  match f_type ff with
  | FD_PIPE => file_pipeclose (f_pipe ff) (writable ff)
  | FD_INODE | FD_DEVICE =>
      do! fbegin_op in
      do! with_fs (iput (f_ip ff)) in
      fend_op
  | FD_NONE => ret tt
  end.

(** [ok] is whether [copyout] succeeds; the [struct stat] is what it is given
    to copy. *)
Definition filestat (f : nat) (ok : bool) : M (kfs S D) (Z * option stat) :=
  let! x := getf f in
  match f_type x with
  | FD_INODE | FD_DEVICE =>
      do! with_fs (ilock (Some (f_ip x))) in
      let! st := with_fs (stati (f_ip x)) in
      do! with_fs (iunlock (Some (f_ip x))) in
      ret (if ok then 0 else -1, Some st)
  | _ => ret (-1, None)
  end.

(** Whether [devsw[major]] has routines: the console's, once connected. *)
Definition device_ready (major : Z) : M (kfs S D) bool :=
  let! s := gets id in
  ret (negb ((major <? 0) || (NDEV <=? major)) && (major =? CONSOLE) && connected (kcon s)).

(** A run that went to sleep in the pipe or the console, or the result with
    the bytes delivered. [n] is what is left to read. *)
Definition fileread (f : nat) (n target : Z) (u : user) : M (kfs S D) (crun (list Z)) :=
  let! x := getf f in
  if negb (readable x) then ret (CDone (-1) []) else
  match f_type x with
  | FD_PIPE =>
      let! r := with_pipe (f_pipe x) (Pipe.piperead (udst u) (ukilled u 0) n) in
      ret (match r with
           | Pipe.Asleep _ => CAsleep n []
           | Pipe.Done r => CDone r.1 r.2
           end)
  | FD_DEVICE =>
      let! ok := device_ready (f_major x) in
      if negb ok then ret (CDone (-1) []) else
      with_con (consoleread n target (udst u) (ukilled u 0))
  | FD_INODE =>
      do! with_fs (ilock (Some (f_ip x))) in
      let! r := with_fs (readi (f_ip x) (user_put u) (f_off x) (u32 n)) in
      do! (if 0 <? r.1 then setf f (λ x, x <| f_off := u32 (f_off x + r.1) |>) else ret tt) in
      do! with_fs (iunlock (Some (f_ip x))) in
      ret (CDone r.1 r.2)
  | FD_NONE => panic "fileread"
  end.

Definition max_write : Z := (MAXOPBLOCKS - 1 - 1 - 2) / 2 * BSIZE.

(** [while(i < n)] for an inode: the value of [i] at the end. Each turn but
    the last writes [max_write] bytes. *)
Fixpoint filewrite_loop (fuel : nat) (f : nat) (n i : Z) (u : user) : M (kfs S D) Z :=
  match fuel with
  | O => λ s, NoFuel s
  | Datatypes.S fuel' =>
      if i <? n then
        let n1 := if max_write <? n - i then max_write else n - i in
        do! fbegin_op in
        let! x := getf f in
        do! with_fs (ilock (Some (f_ip x))) in
        let! r := with_fs (writei (f_ip x) (user_fetch u i) (f_off x) n1) in
        do! (if 0 <? r then setf f (λ x, x <| f_off := u32 (f_off x + r) |>) else ret tt) in
        do! with_fs (iunlock (Some (f_ip x))) in
        do! fend_op in
        if negb (r =? n1) then ret i
        else filewrite_loop fuel' f n (i + r) u
      else ret i
  end.
Definition write_fuel (n : Z) : nat := Z.to_nat (Z.max 0 n / max_write + 2).

(** [i] is where a write that slept in the pipe or the console resumes. *)
Definition filewrite (f : nat) (n i : Z) (u : user) : M (kfs S D) (crun unit) :=
  let! x := getf f in
  if negb (writable x) then ret (CDone (-1) tt) else
  match f_type x with
  | FD_PIPE =>
      let! r := with_pipe (f_pipe x) (Pipe.pipewrite (usrc u) (ukilled u) n i) in
      ret (match r with
           | Pipe.Asleep i => CAsleep i tt
           | Pipe.Done r => CDone r tt
           end)
  | FD_DEVICE =>
      let! ok := device_ready (f_major x) in
      if negb ok then ret (CDone (-1) tt) else
      with_con (consolewrite (usrc u) n i)
  | FD_INODE =>
      let! i := filewrite_loop (write_fuel n) f n 0 u in
      ret (CDone (if i =? n then n else -1) tt)
  | FD_NONE => panic "filewrite"
  end.

(** [pipealloc]: a page, and a file for each end; the page is filled with
    [kalloc]'s junk. *)
Definition pipealloc : M (kfs S D) (option (nat * nat)) :=
  let! f0 := filealloc in
  match f0 with
  | None => ret None
  | Some f0 =>
      let! f1 := filealloc in
      match f1 with
      | None => do! fileclose f0 in ret None
      | Some f1 =>
          let! pi := with_pages kalloc in
          if pi =? 0 then
            do! fileclose f0 in
            do! fileclose f1 in
            ret None
          else
            do! modify (λ s, s <| pipes := <[pi := Pipe.init_pipe (replicate 512 5)]> (pipes s) |>) in
            do! setf f0 (λ x, (((x <| f_type := FD_PIPE |>) <| readable := true |>) <| writable := false |>) <| f_pipe := pi |>) in
            do! setf f1 (λ x, (((x <| f_type := FD_PIPE |>) <| readable := false |>) <| writable := true |>) <| f_pipe := pi |>) in
            ret (Some (f0, f1))
      end
  end.

(** ** sysfile.c *)

(** The argument checks of [argfd]: the file of descriptor [fd]. *)
Definition argfd (fd : Z) : M (kfs S D) (option nat) :=
  if (fd <? 0) || (NOFILE <=? fd) then ret None else gets (λ s, ofile s !!! Z.to_nat fd).

Definition set_ofile (fd : Z) (v : option nat) : M (kfs S D) unit :=
  modify (λ s, s <| ofile := <[Z.to_nat fd := v]> (ofile s) |>).

Definition fdalloc (f : nat) : M (kfs S D) (option Z) :=
  for_until (map Z.of_nat (seq 0 (Z.to_nat NOFILE))) (λ fd,
    let! x := gets (λ s, ofile s !!! Z.to_nat fd) in
    match x with
    | None => do! set_ofile fd (Some f) in ret (Some fd)
    | Some _ => ret None
    end).

Definition sys_dup (fd : Z) : M (kfs S D) Z :=
  let! f := argfd fd in
  match f with
  | None => ret (-1)
  | Some f =>
      let! fd := fdalloc f in
      match fd with
      | None => ret (-1)
      | Some fd => do! filedup f in ret fd
      end
  end.

Definition sys_read (fd n left : Z) (u : user) : M (kfs S D) (crun (list Z)) :=
  let! f := argfd fd in
  match f with
  | None => ret (CDone (-1) [])
  | Some f => fileread f left n u
  end.

Definition sys_write (fd n i : Z) (u : user) : M (kfs S D) (crun unit) :=
  let! f := argfd fd in
  match f with
  | None => ret (CDone (-1) tt)
  | Some f => filewrite f n i u
  end.

Definition sys_close (fd : Z) : M (kfs S D) Z :=
  let! f := argfd fd in
  match f with
  | None => ret (-1)
  | Some f =>
      do! set_ofile fd None in
      do! fileclose f in
      ret 0
  end.

Definition sys_fstat (fd : Z) (ok : bool) : M (kfs S D) (Z * option stat) :=
  let! f := argfd fd in
  match f with
  | None => ret (-1, None)
  | Some f => filestat f ok
  end.

End file.
