(* ===== verification/SysFile.v ===== *)
(** * System calls on paths ([kernel/sysfile.c])

    [link], [unlink], [open], [mkdir], [mknod], [chdir] and [pipe]. A path is
    [None] when [argstr] fails. [junk] is what the uninitialised array
    [char name[DIRSIZ]] holds. *)

From S2P Require Import Prelude.
From S2P Require Import Machine.
From S2P Require Import Kalloc.
From S2P Require Import Printf.
From S2P Require Import BioSpec.
From S2P Require Import Log.
From S2P Require Import Console.
From S2P Require Import Fs.
From S2P Require Import File.
#[local] Open Scope Z_scope.

Section sysfile.
Context {S D : Type} `{!BufOps S} `{!UartDev D} `{!KernelImage}.
Variable junk : list Z.

Definition upd_inode (i : nat) (f : inode → inode) : M (kfs S D) unit := with_fs (seti i f).
(** [ip->nlink += k], a [short]. *)
Definition add_nlink (i : nat) (k : Z) : M (kfs S D) unit := upd_inode i (λ x, x <| nlink := s16 (nlink x + k) |>).

(** The end of [sys_link] on failure. *)
Definition link_bad (ip : nat) : M (kfs S D) Z :=
  do! with_fs (ilock (Some ip)) in
  do! add_nlink ip (-1) in
  do! with_fs (iupdate ip) in
  do! with_fs (iunlockput ip) in
  do! fend_op in
  ret (-1).

Definition sys_link (old new : option (list Z)) : M (kfs S D) Z :=
  match old, new with
  | Some old, Some new =>
      do! fbegin_op in
      let! ip := with_fs (namei old junk) in
      match ip with
      | None => do! fend_op in ret (-1)
      | Some ip =>
          do! with_fs (ilock (Some ip)) in
          let! x := inode_of ip in
          if i_type x =? T_DIR then
            do! with_fs (iunlockput ip) in
            do! fend_op in
            ret (-1)
          else
          do! add_nlink ip 1 in
          do! with_fs (iupdate ip) in
          do! with_fs (iunlock (Some ip)) in
          let! r := with_fs (nameiparent new junk) in
          match r.1 with
          | None => link_bad ip
          | Some dp =>
              do! with_fs (ilock (Some dp)) in
              let! xd := inode_of dp in
              let! xi := inode_of ip in
              let! failed :=
                (if negb (i_dev xd =? i_dev xi) then ret true
                 else let! e := with_fs (dirlink dp r.2 (inum xi)) in ret (e <? 0)) in
              if (failed : bool) then
                do! with_fs (iunlockput dp) in
                link_bad ip
              else
                do! with_fs (iunlockput dp) in
                do! with_fs (iput ip) in
                do! fend_op in
                ret 0
          end
      end
  | _, _ => ret (-1)
  end.

(** The offsets from the third entry on. *)
Definition isdirempty (dp : nat) : M (kfs S D) bool :=
  let! x := inode_of dp in
  let! r := for_until (drop 2 (dirent_offsets (i_size x))) (λ off,
    let! r := with_fs (readi dp kernel_dst off sizeof_dirent) in
    if negb (r.1 =? sizeof_dirent) then panic "isdirempty: readi" else
    if negb (de_inum r.2 =? 0) then ret (Some tt) else ret None) in
  ret (match r with Some _ => false | None => true end).

Definition unlink_bad (dp : nat) : M (kfs S D) Z :=
  do! with_fs (iunlockput dp) in
  do! fend_op in
  ret (-1).

Definition sys_unlink (path : option (list Z)) : M (kfs S D) Z :=
  match path with
  | None => ret (-1)
  | Some path =>
      do! fbegin_op in
      let! r := with_fs (nameiparent path junk) in
      match r.1 with
      | None => do! fend_op in ret (-1)
      | Some dp =>
          do! with_fs (ilock (Some dp)) in
          if (namecmp r.2 (bytes "." ++ [0]) =? 0) || (namecmp r.2 (bytes ".." ++ [0]) =? 0) then unlink_bad dp else
          let! e := with_fs (dirlookup dp r.2) in
          match e with
          | None => unlink_bad dp
          | Some (ip, off) =>
              do! with_fs (ilock (Some ip)) in
              let! x := inode_of ip in
              if nlink x <? 1 then panic "unlink: nlink < 1" else
              let! keep :=
                (if i_type x =? T_DIR then let! e := isdirempty ip in ret (negb e) else ret false) in
              if (keep : bool) then
                do! with_fs (iunlockput ip) in
                unlink_bad dp
              else
                let! n := with_fs (writei dp (kernel_src (replicate (Z.to_nat sizeof_dirent) 0)) off sizeof_dirent) in
                if negb (n =? sizeof_dirent) then panic "unlink: writei" else
                do! (if i_type x =? T_DIR then
                       do! add_nlink dp (-1) in with_fs (iupdate dp)
                     else ret tt) in
                do! with_fs (iunlockput dp) in
                do! add_nlink ip (-1) in
                do! with_fs (iupdate ip) in
                do! with_fs (iunlockput ip) in
                do! fend_op in
                ret 0
          end
      end
  end.

(** The [fail] label of [create]. *)
Definition create_fail (ip dp : nat) : M (kfs S D) (option nat) :=
  do! upd_inode ip (λ x, x <| nlink := 0 |>) in
  do! with_fs (iupdate ip) in
  do! with_fs (iunlockput ip) in
  do! with_fs (iunlockput dp) in
  ret None.

Definition create (path : list Z) (type major minor : Z) : M (kfs S D) (option nat) :=
  let! r := with_fs (nameiparent path junk) in
  match r.1 with
  | None => ret None
  | Some dp =>
      let name := r.2 in
      do! with_fs (ilock (Some dp)) in
      let! e := with_fs (dirlookup dp name) in
      match e with
      | Some (ip, _) =>
          do! with_fs (iunlockput dp) in
          do! with_fs (ilock (Some ip)) in
          let! x := inode_of ip in
          if (type =? T_FILE) && ((i_type x =? T_FILE) || (i_type x =? T_DEVICE)) then ret (Some ip) else
          do! with_fs (iunlockput ip) in
          ret None
      | None =>
          let! xd := inode_of dp in
          let! ip := with_fs (ialloc (i_dev xd) type) in
          match ip with
          | None =>
              do! with_fs (iunlockput dp) in
              ret None
          | Some ip =>
              do! with_fs (ilock (Some ip)) in
              do! upd_inode ip (λ x, ((x <| i_major := s16 major |>) <| i_minor := s16 minor |>) <| nlink := 1 |>) in
              do! with_fs (iupdate ip) in
              let! x := inode_of ip in
              let! dots :=
                (if type =? T_DIR then
                   let! a := with_fs (dirlink ip (bytes "." ++ [0]) (inum x)) in
                   if a <? 0 then ret false else
                   let! xd := inode_of dp in
                   let! b := with_fs (dirlink ip (bytes ".." ++ [0]) (inum xd)) in
                   ret (negb (b <? 0))
                 else ret true) in
              if negb dots then create_fail ip dp else
              let! l := with_fs (dirlink dp name (inum x)) in
              if l <? 0 then create_fail ip dp else
              do! (if type =? T_DIR then
                     do! add_nlink dp 1 in with_fs (iupdate dp)
                   else ret tt) in
              do! with_fs (iunlockput dp) in
              ret (Some ip)
          end
      end
  end.

(** The inode [sys_open] opens, locked: created or looked up. *)
Definition open_inode (path : list Z) (omode : Z) : M (kfs S D) (option nat) :=
  if negb (Z.land omode O_CREATE =? 0) then create path T_FILE 0 0 else
  let! ip := with_fs (namei path junk) in
  match ip with
  | None => ret None
  | Some ip =>
      do! with_fs (ilock (Some ip)) in
      let! x := inode_of ip in
      if (i_type x =? T_DIR) && negb (omode =? O_RDONLY) then
        do! with_fs (iunlockput ip) in
        ret None
      else ret (Some ip)
  end.

(** [f = filealloc()] and [fd = fdalloc(f)], undone if there is no
    descriptor. *)
Definition open_file : M (kfs S D) (option (nat * Z)) :=
  let! f := filealloc in
  match f with
  | None => ret None
  | Some f =>
      let! fd := fdalloc f in
      match fd with
      | None => do! fileclose f in ret None
      | Some fd => ret (Some (f, fd))
      end
  end.

Definition sys_open (path : option (list Z)) (omode : Z) : M (kfs S D) Z :=
  match path with
  | None => ret (-1)
  | Some path =>
      do! fbegin_op in
      let! ip := open_inode path omode in
      match ip with
      | None => do! fend_op in ret (-1)
      | Some ip =>
          let! x := inode_of ip in
          if (i_type x =? T_DEVICE) && ((i_major x <? 0) || (NDEV <=? i_major x)) then
            do! with_fs (iunlockput ip) in
            do! fend_op in
            ret (-1)
          else
          let! r := open_file in
          match r with
          | None =>
              do! with_fs (iunlockput ip) in
              do! fend_op in
              ret (-1)
          | Some (f, fd) =>
              do! (if i_type x =? T_DEVICE
                   then setf f (λ y, (y <| f_type := FD_DEVICE |>) <| f_major := i_major x |>)
                   else setf f (λ y, (y <| f_type := FD_INODE |>) <| f_off := 0 |>)) in
              do! setf f (λ y, ((y <| f_ip := ip |>)
                <| readable := Z.land omode O_WRONLY =? 0 |>)
                <| writable := negb (Z.land omode O_WRONLY =? 0) || negb (Z.land omode O_RDWR =? 0) |>) in
              do! (if negb (Z.land omode O_TRUNC =? 0) && (i_type x =? T_FILE) then with_fs (itrunc ip) else ret tt) in
              do! with_fs (iunlock (Some ip)) in
              do! fend_op in
              ret fd
          end
      end
  end.

Definition sys_mkdir (path : option (list Z)) : M (kfs S D) Z :=
  do! fbegin_op in
  let! ip := (match path with None => ret None | Some path => create path T_DIR 0 0 end) in
  match ip with
  | None => do! fend_op in ret (-1)
  | Some ip =>
      do! with_fs (iunlockput ip) in
      do! fend_op in
      ret 0
  end.

Definition sys_mknod (path : option (list Z)) (major minor : Z) : M (kfs S D) Z :=
  do! fbegin_op in
  let! ip := (match path with None => ret None | Some path => create path T_DEVICE major minor end) in
  match ip with
  | None => do! fend_op in ret (-1)
  | Some ip =>
      do! with_fs (iunlockput ip) in
      do! fend_op in
      ret 0
  end.

Definition sys_chdir (path : option (list Z)) : M (kfs S D) Z :=
  do! fbegin_op in
  let! ip := (match path with None => ret None | Some path => with_fs (namei path junk) end) in
  match ip with
  | None => do! fend_op in ret (-1)
  | Some ip =>
      do! with_fs (ilock (Some ip)) in
      let! x := inode_of ip in
      if negb (i_type x =? T_DIR) then
        do! with_fs (iunlockput ip) in
        do! fend_op in
        ret (-1)
      else
      do! with_fs (iunlock (Some ip)) in
      let! c := with_fs (gets fcwd) in
      do! with_fs (iput c) in
      do! fend_op in
      do! with_fs (modify (λ s, s <| fcwd := ip |>)) in
      ret 0
  end.

(** [ok0] and [ok1] are whether the two [copyout]s of the descriptors
    succeed; the result is the return value and the descriptors they are
    given to copy. *)
Definition sys_pipe (ok0 ok1 : bool) : M (kfs S D) (Z * list Z) :=
  let! r := pipealloc in
  match r with
  | None => ret (-1, [])
  | Some (rf, wf) =>
      let! fd0 := fdalloc rf in
      match fd0 with
      | None =>
          do! fileclose rf in
          do! fileclose wf in
          ret (-1, [])
      | Some fd0 =>
          let! fd1 := fdalloc wf in
          match fd1 with
          | None =>
              do! set_ofile fd0 None in
              do! fileclose rf in
              do! fileclose wf in
              ret (-1, [])
          | Some fd1 =>
              if negb ok0 || negb ok1 then
                do! set_ofile fd0 None in
                do! set_ofile fd1 None in
                do! fileclose rf in
                do! fileclose wf in
                ret (-1, if ok0 then [fd0; fd1] else [fd0])
              else ret (0, [fd0; fd1])
          end
      end
  end.

End sysfile.
