(* ===== verification/FileThms.v ===== *)
(** * Writing and reading an open file

    [filewrite] of [file.c] cuts a write into chunks, each an operation of the
    log of its own. Together they overwrite the file with all the bytes. [fileread] reads outside
    of any operation of the log: what it needs of the file system is that the
    inode is idle, and it leaves it so. *)

From stdpp Require Import gmap.
From S2P Require Import Prelude.
From S2P Require Import Machine.
From S2P Require Import Kalloc.
From S2P Require Import Bio.
From S2P Require Import BioSpec.
From S2P Require Import Log.
From S2P Require Import LogSpec.
From S2P Require Import LogThms.
From S2P Require Import Console.
From S2P Require Import Fs.
From S2P Require Import FsInode.
From S2P Require Import FsSpec.
From S2P Require Import FsFile.
From S2P Require Import FsRw.
From S2P Require Import FsThms.
From S2P Require Import FsRwThms.
From S2P Require Import File.
#[local] Open Scope Z_scope.

Section chunk.
Context {S : Type} `{!BufOps S} `{!BufLaws S}.
Implicit Types (s : fsst S) (c : Z → list Z).

(** No operation is in progress, and inode [i] is a well-formed file that
    nobody has locked. *)
Record file_idle (dev : Z) s c (i : nat) : Prop := {
  fi_idle : idle_fs dev s c;
  fi_layout : layout s;
  fi_bitmap : bitmap_ok s c;
  fi_file : file_ok s (inodes s !!! i) c (i_size (inodes s !!! i));
  fi_index : (i < length (inodes s))%nat;
  fi_dev : i_dev (inodes s !!! i) = dev;
  fi_inode : inode_ok (inodes s !!! i);
  fi_lock : sl_locked (i_lock (inodes s !!! i)) = false;
  fi_ref : 1 ≤ i_ref (inodes s !!! i);
  fi_valid : i_valid (inodes s !!! i) = true
}.

Lemma ilock_valid s i :
  let x := inodes s !!! i in
  (i < length (inodes s))%nat → sl_locked (i_lock x) = false → 1 ≤ i_ref x → i_valid x = true →
  ilock (Some i) s = Ret tt (s <| inodes := alter (λ x, x <| i_lock := mk_sleeplock true (fpid s) |>) i (inodes s) |>).
Proof.
  intros x Hi Hl Hr Hv. unfold ilock. rewrite (bind_eq (geti i) _ s x s eq_refl).
  rewrite (proj2 (Z.ltb_ge _ _)) by lia. set (s' := s <| inodes := _ |>).
  assert (iacquiresleep i s = Ret tt s') as E.
  { unfold iacquiresleep. rewrite (bind_eq (geti i) _ s x s eq_refl), Hl. done. }
  rewrite (bind_eq _ _ _ _ _ E). rewrite (bind_eq (geti i) _ s' (inodes s' !!! i) s' eq_refl).
  assert (i_valid (inodes s' !!! i) = true) as ->; [|done].
  unfold s'. simpl. rewrite list_lookup_total_alter. by rewrite decide_True.
Qed.

Lemma iunlock_held s i :
  let x := inodes s !!! i in
  i_lock x = mk_sleeplock true (fpid s) → 1 ≤ i_ref x →
  iunlock (Some i) s = Ret tt (s <| inodes := alter (λ x, x <| i_lock := mk_sleeplock false 0 |>) i (inodes s) |>
    <| iwoken := iwoken s ++ [i] |>).
Proof.
  intros x Hl Hr. unfold iunlock.
  assert (iholdingsleep i s = Ret true s) as E.
  { unfold iholdingsleep. rewrite (bind_eq (geti i) _ s x s eq_refl), (bind_eq (gets fpid) _ s _ s eq_refl), Hl.
    simpl. by rewrite Z.eqb_refl. }
  rewrite (bind_eq _ _ _ _ _ E), (bind_eq (geti i) _ s x s eq_refl). by rewrite (proj2 (Z.ltb_ge _ _)) by lia.
Qed.

(** What a file depends on, apart from the log. *)
Lemma file_tx_same dev s s' bs c d i sz :
  flog s' = flog s → sb s' = sb s → inodes s' = inodes s → file_tx dev s bs c d i sz → file_tx dev s' bs c d i sz.
Proof.
  intros E1 E2 E3 [H Ly Hb F Hi Hd]. assert (place s s') as G by (split_and!; congruence).
  split; rewrite ?E3; try done;
    [by eapply tx_flog|by eapply layout_place|by eapply bitmap_ok_place|by eapply file_ok_place].
Qed.
Lemma contents_map x x' c : same_map x x' → i_size x' = i_size x → contents x' c = contents x c.
Proof. intros E Es. unfold contents. rewrite Es. apply map_ext. intros p. by apply same_map_fbyte. Qed.

(** Contents that agree outside the log give the same file. *)
Lemma file_outside_log s x c c' sz :
  layout s → bitmap_ok s c → file_ok s x c sz → (∀ b, ¬ in_log (flog s) b → c' b = c b) →
  bitmap_ok s c' ∧ file_ok s x c' sz ∧ (full s c → full s c') ∧
  (i_size x = sz → contents x c' = contents x c).
Proof.
  intros Ly Hb F Hc.
  assert (∀ z, 0 ≤ z < sb_size (sb s) → in_use (sb s) c' z = in_use (sb s) c z) as Eu.
  { intros z Hz. unfold in_use. rewrite Hc; [done|]. by apply (ly_map _ Ly). }
  assert (agree s c c') as Ag by (intros b [D _]; apply Hc, (db_log _ _ D)).
  split; [intros z Hz; rewrite Eu by done; by apply Hb|]. split; [|split].
  - eapply file_ok_agree; [done| |done]. intros b [D U]. split; [done|]. rewrite Eu; [done|].
    pose proof (db_range _ _ D). lia.
  - intros Hf z Hz. rewrite Eu by done. by apply Hf.
  - intros <-. pose proof (fo_size _ _ _ _ F). unfold contents. apply map_ext_in. intros p Hp.
    rewrite <- list_elem_of_In, elem_of_seqZ in Hp. apply fbyte_blocks; [|lia]. intros b Hb'. by eapply fblock_agree.
Qed.

(** One chunk: an operation that locks the inode, writes and unlocks it. *)
Lemma write_chunk dev s c i fetch src off n :
  let x := inodes s !!! i in
  file_idle dev s c i → delivers fetch src n → 0 ≤ off ≤ i_size x → 0 ≤ n → off + n ≤ MAXFILE * BSIZE →
  5 * nblocks (off mod BSIZE) n + 1 < l_size (flog s) →
  ∃ s1 s2 r s3 s4 s5 c',
    with_log begin_op s = Ret tt s1 ∧ ilock (Some i) s1 = Ret tt s2 ∧ writei i fetch off n s2 = Ret r s3 ∧
    iunlock (Some i) s3 = Ret tt s4 ∧ with_log end_op s4 = Ret tt s5 ∧
    file_idle dev s5 c' i ∧ 0 ≤ r ≤ n ∧ (r = n ∨ full s5 c') ∧ l_size (flog s5) = l_size (flog s) ∧
    contents (inodes s5 !!! i) c' = overwrite (contents x c) off (take (Z.to_nat r) src).
Proof.
  intros x [Hid Ly Hb F Hi Hd Hio Hlk Hrf Hv] Hde Ho Hn Hmax Hsp. fold x in F, Hd, Hio, Hlk, Hrf, Hv.
  destruct (idle_begin_op dev s c Hid) as (s1 & d & E1 & Es1 & T1 & O1 & C1 & P1 & Z1).
  assert (sb s1 = sb s ∧ inodes s1 = inodes s) as [Esb1 Ei1] by (by rewrite Es1).
  assert (place s s1) as G1 by (split_and!; done). exists s1.
  assert (file_tx dev s1 [] c d i (i_size x)) as FT1.
  { split; rewrite ?Ei1; try done; [by eapply layout_place|by eapply bitmap_ok_place|by eapply file_ok_place]. }
  pose proof (ilock_valid s1 i) as E2. rewrite Ei1 in E2. specialize (E2 Hi Hlk Hrf Hv).
  destruct (file_tx_map dev s1 [] c d i (i_size x) (λ x, x <| i_lock := mk_sleeplock true (fpid s1) |>) FT1) as (FT2 & Ex2 & _);
    [by rewrite Ei1|]. rewrite Ei1 in FT2, Ex2. fold x in Ex2. set (s2 := s1 <| inodes := _ |>) in *. exists s2.
  set (x2 := inodes s2 !!! i) in *.
  pose proof (writei_spec dev s2 [] c d i fetch src off n) as W. fold x2 in W. rewrite Ex2 in W.
  destruct (wp_elim _ _ _ (W FT2 Hio Hde Ho Hn Hmax ltac:(change (flog s2) with (flog s1); rewrite Z1; simpl length; lia)))
    as (r & s3 & E3 & bs3 & c3 & G3 & FT3 & _ & (ad & Ex3) & Hr & Hf3 & Hsz & _ & _ & Hby).
  fold x2 in Ex3, Hsz, Hby. rewrite Ex2 in Ex3, Hsz, Hby. exists r, s3. set (x3 := inodes s3 !!! i) in *.
  assert (contents x3 c3 = overwrite (contents x c) off (take (Z.to_nat r) src)) as Ec3.
  { pose proof (fo_size _ _ _ _ (ft_file _ _ _ _ _ _ _ FT3)) as Hs3. fold x3 in Hs3. pose proof (proj1 Hde).
    apply contents_write; [done|lia|exact Hsz|lia|exact Hby]. }
  assert (i_lock x3 = mk_sleeplock true (fpid s3) ∧ i_ref x3 = i_ref x ∧ i_valid x3 = true ∧ inode_ok x3) as (L3 & R3 & V3 & I3).
  { rewrite Ex3. destruct G3 as (_ & _ & ->). by split_and!. }
  pose proof (iunlock_held s3 i L3 ltac:(fold x3; lia)) as E4.
  destruct (file_tx_map dev s3 bs3 c3 d i (i_size x3) (λ x, x <| i_lock := mk_sleeplock false 0 |>) FT3) as (FT4 & Ex4 & _);
    [done|]. fold x3 in Ex4. set (s4' := s3 <| inodes := _ |>) in *. set (s4 := s4' <| iwoken := _ |>) in E4. exists s4.
  apply (file_tx_same dev s4' s4) in FT4; [|done..].
  destruct G3 as (Gsb & (Gst & Gsz & Gout & Gcom) & Gpid).
  destruct (tx_end_op dev s4 bs3 c3 d (ft_tx _ _ _ _ _ _ _ FT4)) as (s5 & c5 & E5 & Es5 & Hid5 & P5 & Z5 & Hc5);
    [by transitivity (outstanding (flog s2))|by transitivity (committing (flog s2))|]. exists s5, c5.
  assert (sb s5 = sb s4 ∧ inodes s5 = inodes s4) as [Esb5 Ei5] by (by rewrite Es5).
  assert (place s4 s5) as G5 by (split_and!; done). destruct FT4 as [T4 Ly4 B4 F4 I4 D4].
  change (inodes s4 !!! i) with (inodes s4' !!! i) in F4, D4. rewrite Ex4 in F4, D4. set (x4 := x3 <| i_lock := _ |>) in *.
  destruct (file_outside_log s4 x4 c3 c5 (i_size x3) Ly4 B4 F4 Hc5) as (B5 & F5 & Hf5 & Hcon).
  split; [done|]. split; [done|]. split; [done|]. split; [done|]. split; [done|].
  assert (inodes s5 !!! i = x4) as Ex5 by (by rewrite Ei5).
  split; [split; rewrite ?Ex5; try done|].
  - by eapply layout_place.
  - by eapply bitmap_ok_place.
  - by eapply file_ok_place.
  - by rewrite Ei5.
  - change (1 ≤ i_ref x3). lia.
  - split; [done|]. split; [|split].
    + destruct Hf3 as [?|Hf3]; [by left|right]. intros z. rewrite Esb5. apply Hf5. exact Hf3.
    + rewrite Z5. change (flog s4) with (flog s3). rewrite Gsz. exact Z1.
    + rewrite Ex5, <- Ec3. rewrite Hcon by done. by apply contents_map.
Qed.
End chunk.

(** ** All the chunks *)

Lemma overwrite_twice old off (src : list Z) i r :
  0 ≤ off ≤ Z.of_nat (length old) → 0 ≤ i → 0 ≤ r → i + r ≤ Z.of_nat (length src) →
  overwrite (overwrite old off (take (Z.to_nat i) src)) (off + i) (take (Z.to_nat r) (drop (Z.to_nat i) src)) =
  overwrite old off (take (Z.to_nat (i + r)) src).
Proof.
  intros Ho Hi Hr Hs. apply list_eq. intros k.
  assert (off + i ≤ Z.of_nat (length (overwrite old off (take (Z.to_nat i) src)))) as Hl.
  { unfold overwrite. rewrite !length_app, !length_take, length_drop. lia. }
  rewrite !overwrite_lookup, !length_take, length_drop by lia.
  repeat case_decide; try lia; try done.
  - rewrite !lookup_take_lt, lookup_drop by lia. f_equal. lia.
  - rewrite !lookup_take_lt by lia. done.
Qed.

Lemma fetch_bytes_all src l m : ∀ i,
  (m ≤ length l)%nat → (∀ k, (k < m)%nat → src (i + Z.of_nat k) = Some (l !!! k)) →
  fetch_bytes src m i = (true, take m l).
Proof.
  revert l. induction m as [|m IH]; intros l i Hm H; [done|]. destruct l as [|b l]; simpl in Hm; [lia|].
  assert (src i = Some b) as E by (pose proof (H 0%nat) as H0; rewrite Z.add_0_r in H0; apply H0; lia).
  simpl. rewrite E, (IH l); [done|lia|].
  intros k Hk. replace (i + 1 + Z.of_nat k) with (i + Z.of_nat (Datatypes.S k)) by lia. by rewrite H by lia.
Qed.

Lemma user_delivers u src n i m :
  n = Z.of_nat (length src) → (∀ k, 0 ≤ k < n → usrc u k = Some (src !!! Z.to_nat k)) → 0 ≤ i → 0 ≤ m → i + m ≤ n →
  delivers (user_fetch u i) (drop (Z.to_nat i) src) m.
Proof.
  intros Hn Hu Hi Hm Hle. split; [rewrite length_drop; lia|]. intros t k Ht Hk Htk. unfold user_fetch.
  apply fetch_bytes_all; [rewrite !length_drop; lia|]. intros j Hj. rewrite Hu by lia.
  rewrite !lookup_total_drop. do 2 f_equal. lia.
Qed.

Lemma max_write_eq : max_write = 3072.
Proof. reflexivity. Qed.
Lemma chunk_blocks o k : 0 ≤ o < BSIZE → k ≤ max_write → nblocks o k ≤ 4.
Proof. rewrite max_write_eq. intros. unfold nblocks, BSIZE in *. destruct (k <=? 0); dlia. Qed.

Section filewrite.
Context {S D : Type} `{!BufOps S} `{!BufLaws S} `{!UartDev D} `{!KernelImage}.
Implicit Types (K : kfs S D) (c : Z → list Z).

(** The file [f] is open on inode [ip] at offset [off], and the inode is idle. *)
Record open_at (dev : Z) K c (f ip : nat) (off : Z) : Prop := {
  oa_index : (f < length (ftable K))%nat;
  oa_type : f_type (ftable K !!! f) = FD_INODE;
  oa_write : writable (ftable K !!! f) = true;
  oa_ip : f_ip (ftable K !!! f) = ip;
  oa_off : f_off (ftable K !!! f) = off;
  oa_idle : file_idle dev (kfsys K) c ip
}.

Lemma with_fs_eq {A} (m : M (fsst S) A) K a s' :
  m (kfsys K) = Ret a s' → with_fs m K = Ret a (K <| kfsys := s' |>).
Proof. intros E. unfold with_fs. by erewrite lift_Ret. Qed.

(** The file table after the offset of [f] has advanced by [r]. *)
Definition advance (f : nat) (r : Z) (ft : list file) : list file :=
  if 0 <? r then alter (λ x, x <| f_off := u32 (f_off x + r) |>) f ft else ft.
Lemma advance_spec f r ft off :
  (f < length ft)%nat → f_off (ft !!! f) = off → 0 ≤ off → 0 ≤ r → off + r < 2 ^ 32 →
  length (advance f r ft) = length ft ∧ (∀ g, g ≠ f → advance f r ft !!! g = ft !!! g) ∧
  advance f r ft !!! f = (ft !!! f) <| f_off := off + r |>.
Proof.
  intros Hf Hoff Ho Hr Hlt. unfold advance. destruct (Z.ltb_spec 0 r).
  - split; [apply length_alter|]. split.
    + intros g Hg. rewrite list_lookup_total_alter. rewrite decide_False; [done|]. by intros [? ?].
    + rewrite list_lookup_total_alter, decide_True by done. rewrite Hoff, u32_small by lia. done.
  - split; [done|]. split; [done|]. assert (r = 0) as -> by lia. rewrite Z.add_0_r, <- Hoff. by destruct (ft !!! f).
Qed.

(** Only the file system and the entry of [f] moved. *)
Definition only_file (f : nat) K K' : Prop :=
  K' = (K <| kfsys := kfsys K' |>) <| ftable := ftable K' |> ∧ (∀ g, g ≠ f → ftable K' !!! g = ftable K !!! g) ∧
  length (ftable K') = length (ftable K) ∧ l_size (flog (kfsys K')) = l_size (flog (kfsys K)).
Lemma only_file_refl f K : only_file f K K.
Proof. split; [by destruct K|done]. Qed.
Lemma only_file_trans f K1 K2 K3 : only_file f K1 K2 → only_file f K2 K3 → only_file f K1 K3.
Proof.
  intros (E1 & G1 & N1 & L1) (E2 & G2 & N2 & L2). split; [|split; [|split; congruence]]; [rewrite E2, E1; by destruct K1|].
  intros g Hg. by rewrite G2, G1.
Qed.

(** One turn of the loop of [filewrite]. *)
Lemma filewrite_turn dev K c f ip off n1 fetch src (k : Z → M (kfs S D) Z) :
  open_at dev K c f ip off → delivers fetch src n1 → 0 ≤ off ≤ i_size (inodes (kfsys K) !!! ip) → 0 ≤ n1 ≤ max_write →
  off + n1 ≤ MAXFILE * BSIZE → 21 < l_size (flog (kfsys K)) →
  ∃ r K' c',
    (do! fbegin_op in
     let! x := getf f in
     do! with_fs (ilock (Some (f_ip x))) in
     let! r := with_fs (writei (f_ip x) fetch (f_off x) n1) in
     do! (if 0 <? r then setf f (λ x, x <| f_off := u32 (f_off x + r) |>) else ret tt) in
     do! with_fs (iunlock (Some (f_ip x))) in
     do! fend_op in k r) K = k r K' ∧
    open_at dev K' c' f ip (off + r) ∧ 0 ≤ r ≤ n1 ∧ (r = n1 ∨ full (kfsys K') c') ∧
    only_file f K K' ∧
    contents (inodes (kfsys K') !!! ip) c' =
      overwrite (contents (inodes (kfsys K) !!! ip) c) off (take (Z.to_nat r) src).
Proof.
  intros [Hf Ht Hw Hip Hoff Hid] Hde Ho Hn Hmax Hl.
  pose proof (chunk_blocks (off mod BSIZE) n1 ltac:(apply Z.mod_pos_bound; done) ltac:(lia)) as Hnb.
  destruct (write_chunk dev (kfsys K) c ip fetch src off n1 Hid Hde Ho ltac:(lia) Hmax ltac:(lia))
    as (s1 & s2 & r & s3 & s4 & s5 & c' & E1 & E2 & E3 & E4 & E5 & Hid' & Hr & Hfull & Hsz & Hc).
  set (ft := advance f r (ftable K)).
  exists r, (K <| kfsys := s5 |> <| ftable := ft |>), c'.
  assert (MAXFILE * BSIZE = 274432) as Em by reflexivity.
  destruct (advance_spec f r (ftable K) off Hf Hoff) as (L & Hg & Ef); [lia..|]. fold ft in L, Hg, Ef.
  split.
  { set (K1 := K <| kfsys := s1 |>). set (K2 := K1 <| kfsys := s2 |>). set (K3 := K2 <| kfsys := s3 |>).
    set (K4 := K3 <| ftable := ft |>). set (K5 := K4 <| kfsys := s4 |>).
    assert (fbegin_op K = Ret tt K1) as F1 by (by apply with_fs_eq).
    assert (getf f K1 = Ret (ftable K !!! f) K1) as F2 by done.
    assert (with_fs (ilock (Some ip)) K1 = Ret tt K2) as F3 by (by apply with_fs_eq).
    assert (with_fs (writei ip fetch off n1) K2 = Ret r K3) as F4 by (by apply with_fs_eq).
    assert ((if 0 <? r then setf f (λ x, x <| f_off := u32 (f_off x + r) |>) else ret tt) K3 = Ret tt K4) as F5.
    { unfold K4, ft, advance. by destruct (0 <? r). }
    assert (with_fs (iunlock (Some ip)) K4 = Ret tt K5) as F6 by (by apply with_fs_eq).
    assert (fend_op K5 = Ret tt (K <| kfsys := s5 |> <| ftable := ft |>)) as F7 by (by apply (with_fs_eq _ K5 tt s5)).
    rewrite (bind_eq _ _ _ _ _ F1), (bind_eq _ _ _ _ _ F2), Hip, Hoff, (bind_eq _ _ _ _ _ F3), (bind_eq _ _ _ _ _ F4).
    by rewrite (bind_eq _ _ _ _ _ F5), (bind_eq _ _ _ _ _ F6), (bind_eq _ _ _ _ _ F7). }
  split; [split; simpl; rewrite ?L, ?Ef; done|]. split; [done|]. split; [done|]. split; [by split_and!|]. done.
Qed.

Lemma filewrite_loop_spec dev f ip u src n old off fuel : ∀ K c i,
  n = Z.of_nat (length src) → (∀ k, 0 ≤ k < n → usrc u k = Some (src !!! Z.to_nat k)) →
  0 ≤ off ≤ Z.of_nat (length old) → off + n ≤ MAXFILE * BSIZE →
  open_at dev K c f ip (off + i) → 0 ≤ i ≤ n → 21 < l_size (flog (kfsys K)) →
  contents (inodes (kfsys K) !!! ip) c = overwrite old off (take (Z.to_nat i) src) →
  (n - i + max_write - 1) / max_write < Z.of_nat fuel →
  ∃ j m K' c', filewrite_loop fuel f n i u K = Ret j K' ∧ (if j =? n then n else -1) = (if m =? n then n else -1) ∧
    0 ≤ m ≤ n ∧ (m = n ∨ full (kfsys K') c') ∧ open_at dev K' c' f ip (off + m) ∧
    only_file f K K' ∧
    contents (inodes (kfsys K') !!! ip) c' = overwrite old off (take (Z.to_nat m) src).
Proof.
  induction fuel as [|fuel IH]; intros K c i Hn Hu Ho Hmax Hop Hi Hl Hc Hfu; rewrite max_write_eq in Hfu.
  { exfalso. dlia. }
  cbn [filewrite_loop]. destruct (Z.ltb_spec i n) as [Hlt|Hge].
  2:{ assert (i = n) as -> by lia. exists n, n, K, c. rewrite Z.eqb_refl. split_and!; try done; try lia; by destruct K. }
  set (n1 := if max_write <? n - i then max_write else n - i).
  assert (0 < n1 ≤ max_write ∧ i + n1 ≤ n ∧ (n1 = n - i ∨ n1 = max_write)) as (Hn1 & Hin & Hor).
  { unfold n1. rewrite max_write_eq. destruct (Z.ltb_spec 3072 (n - i)); lia. }
  assert (Z.of_nat (length (overwrite old off (take (Z.to_nat i) src))) = i_size (inodes (kfsys K) !!! ip)) as Hlen.
  { rewrite <- Hc, length_file_contents. pose proof (fo_size _ _ _ _ (fi_file _ _ _ _ (oa_idle _ _ _ _ _ _ Hop))). lia. }
  assert (off + i ≤ i_size (inodes (kfsys K) !!! ip)) as Hoi.
  { rewrite <- Hlen. unfold overwrite. rewrite !length_app, !length_take, length_drop. lia. }
  destruct (filewrite_turn dev K c f ip (off + i) n1 (user_fetch u i) (drop (Z.to_nat i) src)
    (λ r, if negb (r =? n1) then ret i else filewrite_loop fuel f n (i + r) u) Hop) as (r & K' & c' & E & Hop' & Hr & Hfull & Hg & Hc');
    [eapply user_delivers; [done|done|lia|lia|lia]|lia|lia|lia|done|].
  rewrite Hc, overwrite_twice in Hc' by lia. replace (off + i + r) with (off + (i + r)) in Hop' by lia.
  rewrite E. destruct (Z.eqb_spec r n1) as [->|Hne]; cbn [negb].
  - destruct (IH K' c' (i + n1)) as (j & m & K2 & c2 & E2 & Hj & Hm & Hf2 & Hop2 & Hg2 & Hc2); try done; try lia.
    { by rewrite (proj2 (proj2 (proj2 Hg))). }
    { rewrite max_write_eq in *. dlia. }
    exists j, m, K2, c2. split; [done|]. split; [done|]. split; [done|]. split; [done|]. split; [done|]. split; [|done].
    by eapply only_file_trans.
  - exists i, (i + r), K', c'. split; [done|]. rewrite (proj2 (Z.eqb_neq i n)), (proj2 (Z.eqb_neq (i + r) n)) by lia.
    destruct Hfull as [?|Hfull]; [lia|]. split_and!; try done; try lia. by right.
Qed.

Lemma filewrite_spec dev K c f ip off n u src :
  open_at dev K c f ip off → 0 ≤ off ≤ i_size (inodes (kfsys K) !!! ip) → off + n ≤ MAXFILE * BSIZE →
  n = Z.of_nat (length src) → (∀ k, 0 ≤ k < n → usrc u k = Some (src !!! Z.to_nat k)) →
  21 < l_size (flog (kfsys K)) →
  ∃ m K' c', filewrite f n 0 u K = Ret (CDone (if m =? n then n else -1) tt) K' ∧
    0 ≤ m ≤ n ∧ (m = n ∨ full (kfsys K') c') ∧ open_at dev K' c' f ip (off + m) ∧
    only_file f K K' ∧
    contents (inodes (kfsys K') !!! ip) c' =
      overwrite (contents (inodes (kfsys K) !!! ip) c) off (take (Z.to_nat m) src).
Proof.
  intros Hop Ho Hmax Hn Hu Hl. pose proof (length_file_contents (inodes (kfsys K) !!! ip) c) as Hlen.
  destruct (filewrite_loop_spec dev f ip u src n (contents (inodes (kfsys K) !!! ip) c) off (write_fuel n) K c 0)
    as (j & m & K' & c' & E & Hj & Hm & Hf & Hop' & Hg & Hc); try done; try lia.
  - by rewrite Z.add_0_r.
  - symmetry. unfold overwrite. simpl. rewrite Nat.add_0_r. apply take_drop.
  - unfold write_fuel. rewrite max_write_eq. dlia.
  - exists m, K', c'. split; [|split; [done|]; split; [done|]; split; [done|]; by split]. unfold filewrite.
    rewrite (bind_eq (getf f) _ _ (ftable K !!! f) _ eq_refl), (oa_write _ _ _ _ _ _ Hop), (oa_type _ _ _ _ _ _ Hop).
    cbn [negb]. rewrite (bind_eq _ _ _ _ _ E), Hj. done.
Qed.

(** C8: A [write] to an open file writes everything or the disk is full.
    [filewrite] of [n] bytes cuts them into chunks of at most three blocks,
    each committed on its own; for a file whose inode nobody uses and user
    memory that holds the bytes [src], with an offset within the file, an end
    within the largest size a file can have and a log that holds the blocks of a
    chunk, it returns, and the file, in the cache
    and on disk, is the old one overwritten at the offset of the open file
    with the first [m] bytes, the offset advanced by [m]. The result is [n]
    if all were written; otherwise it is -1 and no block is free. *)
Theorem filewrite_all dev K c f ip off n u src :
  open_at dev K c f ip off → 0 ≤ off ≤ i_size (inodes (kfsys K) !!! ip) → off + n ≤ MAXFILE * BSIZE →
  n = Z.of_nat (length src) → (∀ k, 0 ≤ k < n → usrc u k = Some (src !!! Z.to_nat k)) →
  21 < l_size (flog (kfsys K)) →
  ∃ m K' c', filewrite f n 0 u K = Ret (CDone (if m =? n then n else -1) tt) K' ∧
    0 ≤ m ≤ n ∧ (m = n ∨ full (kfsys K') c') ∧ open_at dev K' c' f ip (off + m) ∧
    (∀ g, g ≠ f → ftable K' !!! g = ftable K !!! g) ∧
    contents (inodes (kfsys K') !!! ip) c' =
      overwrite (contents (inodes (kfsys K) !!! ip) c) off (take (Z.to_nat m) src).
Proof.
  intros Hop Ho Hmax Hn Hu Hl. destruct (filewrite_spec dev K c f ip off n u src Hop Ho Hmax Hn Hu Hl) as (m & K' & c' & E & Hm & Hf & Hop' & (_ & Hg & _) & Hc).
  by exists m, K', c'.
Qed.
End filewrite.

Section idle.
Context {S : Type} `{!BufOps S} `{!BufLaws S}.
Implicit Types (s : fsst S) (c : Z → list Z).

(** ** States without an operation *)

Lemma idle_tx dev s c : idle_fs dev s c → ∃ d, txw (w := false) dev s [] ∅ c d.
Proof.
  intros [(a & R & Hh & Hr & Hc & _) Hd Hl _ _]. exists (adisk a), a. split; [|done].
  by split.
Qed.
Lemma tx_idle dev s s' c d : idle_fs dev s c → moves s s' → txw (w := false) dev s' [] ∅ c d → idle_fs dev s' c.
Proof.
  intros [_ _ _ Ho Hm] (_ & _ & _ & Eo & Em) T. pose proof T as (a & P & Hc & Hd). pose proof P as [R Hdv Hl _ Hh Hr].
  split; [|done|done|congruence|congruence]. exists a. split_and!; [done|done|intros x; by rewrite Hr|done|].
  intros x. rewrite Hd. symmetry. by eapply tx_clean; [exact T|apply not_elem_of_nil|].
Qed.
Lemma idle_same dev s s' c : flog s' = flog s → idle_fs dev s c → idle_fs dev s' c.
Proof. intros E [H1 H2 H3 H4 H5]. split; by rewrite ?E. Qed.

(** What an idle file depends on, apart from the log and the lock. *)
Lemma file_idle_step dev s s' c i x' :
  file_idle dev s c i → idle_fs dev s' c → place s s' → inodes s' !!! i = x' → length (inodes s') = length (inodes s) →
  same_map (inodes s !!! i) x' → i_size x' = i_size (inodes s !!! i) → inode_ok x' →
  sl_locked (i_lock x') = false → 1 ≤ i_ref x' → i_valid x' = true → file_idle dev s' c i.
Proof.
  intros [Hid Ly Hb F Hi Hd Hio Hlk Hrf Hv] Hid' G <- El Em Es Hio' Hlk' Hrf' Hv'. pose proof Em as (_ & _ & Ed).
  split; try done; try congruence.
  - by eapply layout_place.
  - by eapply bitmap_ok_place.
  - rewrite Es. eapply file_ok_place; [done|]. by eapply file_ok_map.
Qed.

(** ** Reading *)

Lemma read_file dev s c i ok off n :
  file_idle dev s c i → accepts ok n → 0 ≤ off → 0 ≤ n → off + n < 2 ^ 32 →
  let part := slice (Z.to_nat n) (Z.to_nat off) (contents (inodes s !!! i) c) in
  ∃ s1 s2 s3, ilock (Some i) s = Ret tt s1 ∧ readi i ok off n s1 = Ret (Z.of_nat (length part), part) s2 ∧
    iunlock (Some i) s2 = Ret tt s3 ∧ file_idle dev s3 c i ∧ contents (inodes s3 !!! i) c = contents (inodes s !!! i) c ∧
    l_size (flog s3) = l_size (flog s) ∧ ∀ j, j ≠ i → inodes s3 !!! j = inodes s !!! j.
Proof.
  intros Hfi Hok Ho Hn Hlt. set (x := inodes s !!! i). pose proof Hfi as [Hid Ly Hb F Hi Hd Hio Hlk Hrf Hv]. fold x in F, Hd, Hio, Hlk, Hrf, Hv.
  destruct (idle_tx dev s c Hid) as [d T]. assert (file_txw (w := false) dev s [] c d i (i_size x)) as FT by (split; done).
  pose proof (ilock_valid s i Hi Hlk Hrf Hv) as E1. set (s1 := s <| inodes := _ |>) in E1. exists s1.
  destruct (file_tx_map dev s [] c d i (i_size x) (λ x, x <| i_lock := mk_sleeplock true (fpid s) |>) FT) as (FT1 & Ex1 & J1); [done|].
  fold s1 in FT1, Ex1, J1. fold x in Ex1. set (x1 := x <| i_lock := _ |>) in Ex1.
  assert (file_txw (w := false) dev s1 [] c d i (i_size (inodes s1 !!! i))) as FT1' by (by rewrite Ex1).
  destruct (wp_elim _ _ _ (readi_spec dev s1 [] c d i ok off n FT1' Hok Ho Hn Hlt)) as (r & s2 & E2 & M2 & T2 & ->).
  rewrite Ex1 in E2. destruct (contents_slice x1 c off n Ho Hn (proj1 (fo_size _ _ _ _ F))) as [C1 C2].
  rewrite C1, <- C2 in E2. assert (contents x1 c = contents x c) as Ec by (by apply contents_map). rewrite Ec in E2. exists s2.
  pose proof (moves_sb _ _ M2) as (Esb2 & Ei2 & _). assert (fpid s2 = fpid s) as Ep by (rewrite (proj1 M2); done).
  assert (inodes s2 !!! i = x1) as Ex2 by (by rewrite Ei2).
  pose proof (iunlock_held s2 i) as E3. rewrite Ex2, Ep in E3. specialize (E3 eq_refl Hrf).
  set (s3 := _ <| iwoken := _ |>) in E3. exists s3. split; [done|]. split; [done|]. split; [done|].
  assert (inodes s3 !!! i = x1 <| i_lock := mk_sleeplock false 0 |>) as Ex3.
  { unfold s3. simpl. rewrite list_lookup_total_alter, decide_True by (by rewrite Ei2; unfold s1; simpl; rewrite length_alter).
    by rewrite Ex2. }
  split; [|split; [|split]].
  - eapply (file_idle_step dev s s3 c i _ Hfi); [|split_and!|exact Ex3| | | |done|done|done|done]; try done.
    + eapply (idle_same dev s2); [done|]. eapply (tx_idle dev s1); [|done|done]. by eapply (idle_same dev s).
    + apply M2.
    + apply M2.
    + unfold s3. simpl. rewrite length_alter, Ei2. unfold s1. simpl. by rewrite length_alter.
  - rewrite Ex3, <- Ec. by apply contents_map.
  - apply M2.
  - intros j Hj. rewrite <- J1 by done. rewrite <- Ei2. unfold s3. simpl. rewrite list_lookup_total_alter, decide_False; [done|]. by intros [? _].
Qed.
End idle.

Section fileread.
Context {S D : Type} `{!BufOps S} `{!BufLaws S} `{!UartDev D} `{!KernelImage}.
Implicit Types (K : kfs S D) (c : Z → list Z).

(** The file [f] is open for reading on inode [ip] at offset [off], and the
    inode is idle. *)
Record read_at (dev : Z) K c (f ip : nat) (off : Z) : Prop := {
  ra_index : (f < length (ftable K))%nat;
  ra_type : f_type (ftable K !!! f) = FD_INODE;
  ra_read : readable (ftable K !!! f) = true;
  ra_ip : f_ip (ftable K !!! f) = ip;
  ra_off : f_off (ftable K !!! f) = off;
  ra_idle : file_idle dev (kfsys K) c ip
}.

Lemma put_bytes_all dst m : ∀ i, (∀ k, (k < m)%nat → dst (i + Z.of_nat k) = true) → put_bytes dst m i = Z.of_nat m.
Proof.
  induction m as [|m IH]; intros i Hd; [done|]. cbn [put_bytes].
  assert (dst i = true) as -> by (rewrite <- (Z.add_0_r i); apply (Hd 0%nat); lia). rewrite IH; [lia|].
  intros k Hk. replace (i + 1 + Z.of_nat k) with (i + Z.of_nat (Datatypes.S k)) by lia. apply Hd. lia.
Qed.
Lemma user_accepts u n : (∀ k, 0 ≤ k < n → udst u k = true) → accepts (user_put u) n.
Proof.
  intros Hd t m Ht Hm Hle. unfold user_put. rewrite put_bytes_all by (intros k Hk; apply Hd; lia). lia.
Qed.

Lemma fileread_spec dev K c f ip off n u :
  read_at dev K c f ip off → 0 ≤ off → 0 ≤ n → off + n < 2 ^ 32 → (∀ k, 0 ≤ k < n → udst u k = true) →
  let part := slice (Z.to_nat n) (Z.to_nat off) (contents (inodes (kfsys K) !!! ip) c) in
  ∃ K', fileread f n n u K = Ret (CDone (Z.of_nat (length part)) part) K' ∧
    read_at dev K' c f ip (off + Z.of_nat (length part)) ∧ only_file f K K' ∧
    contents (inodes (kfsys K') !!! ip) c = contents (inodes (kfsys K) !!! ip) c.
Proof.
  intros [Hf Ht Hr Hip Hoff Hid] Ho Hn Hlt Hu part. pose proof (user_accepts u n Hu) as Hok.
  destruct (read_file dev (kfsys K) c ip (user_put u) off n Hid Hok Ho Hn Hlt) as (s1 & s2 & s3 & E1 & E2 & E3 & Hid' & Hc & Hl & _).
  fold part in E2. assert (Z.of_nat (length part) ≤ n) as Hlen by (unfold part, slice; rewrite length_take; lia). set (r := Z.of_nat (length part)) in *.
  set (ft := advance f r (ftable K)).
  destruct (advance_spec f r (ftable K) off Hf Hoff) as (L & Hg & Ef); [lia..|]. fold ft in L, Hg, Ef.
  set (K3 := (K <| kfsys := s3 |>) <| ftable := ft |>). exists K3. split; [|split; [|split]].
  - set (K1 := K <| kfsys := s1 |>). set (K2 := K1 <| kfsys := s2 |>). set (K4 := K2 <| ftable := ft |>).
    assert (with_fs (ilock (Some ip)) K = Ret tt K1) as F1 by (by apply with_fs_eq).
    assert (with_fs (readi ip (user_put u) off n) K1 = Ret (r, part) K2) as F2 by (by apply with_fs_eq).
    assert ((if 0 <? r then setf f (λ x, x <| f_off := u32 (f_off x + r) |>) else ret tt) K2 = Ret tt K4) as F3.
    { unfold K4, ft, advance. by destruct (0 <? r). }
    assert (with_fs (iunlock (Some ip)) K4 = Ret tt K3) as F4 by (by apply (with_fs_eq _ K4 tt s3)).
    unfold fileread. rewrite (bind_eq (getf f) _ _ (ftable K !!! f) _ eq_refl), Hr, Ht. cbn [negb].
    rewrite Hip, Hoff, (u32_small n) by lia.
    by rewrite (bind_eq _ _ _ _ _ F1), (bind_eq _ _ _ _ _ F2), (bind_eq _ _ _ _ _ F3), (bind_eq _ _ _ _ _ F4).
  - split; simpl; rewrite ?L, ?Ef; done.
  - by split_and!.
  - exact Hc.
Qed.
End fileread.

(** ** An open file on a small disk *)

#[local] Instance quiet_uart : UartDev unit := {| read_reg := λ _ d, (LSR_TX_IDLE, d); write_reg := λ _ _ d, d |}.
Definition demo_open (b : bst) : kfs bst unit :=
  mk_kfs bst unit
    ((demo_file b) <| flog := (flog (demo_file b)) <| outstanding := 0 |> |>)
    [mk_file FD_INODE 1 true true 0 0 0 0] ∅ (mk_kmem ∅ 0)
    (mk_con unit (replicate 128 0) 0 0 0 (replicate 32 0) 0 0 false true tt [] []) (replicate (Z.to_nat NOFILE) None) [].

Lemma demo_open_at : ∃ b, open_at 1 (demo_open b) demo_c 0 0 0.
Proof.
  destruct demo_file_tx as [b [H Ly Hb F Hi Hd]]. exists b. set (s := kfsys (demo_open b)).
  assert (place (demo_file b) s) as G by done.
  split; [simpl; lia|reflexivity|reflexivity|reflexivity|reflexivity|]. fold s.
  split; [|by eapply layout_place|by eapply bitmap_ok_place|by eapply file_ok_place|exact Hi|exact Hd|exact demo_inode_ok|reflexivity|vm_compute; discriminate|reflexivity].
  destruct H as (a & [R Hdev Hls _ Hh Hr] & Hc & _).
  split; [|exact Hdev|by destruct Hls|reflexivity|reflexivity]. exists a. split; [exact R|]. split; [exact Hh|].
  assert (∀ x, ref a x = 0) as H0 by (intros x; rewrite Hr; reflexivity).
  split; [done|]. split; [done|]. intros x. rewrite <- Hc. symmetry. pose proof (bc_ok _ _ _ R) as Ha.
  apply (ok_clean _ Ha), eq_None_not_Some. rewrite (ref_pos _ _ Ha), H0. lia.
Qed.

Lemma filewrite_all_witness :
  ∃ (K K' : kfs bst unit) m c', filewrite 0 3 0 (mk_user (λ i, [1; 2; 3] !! Z.to_nat i) (λ _, true) (λ _, false)) K =
      Ret (CDone (if m =? 3 then 3 else -1) tt) K' ∧
    open_at 1 K' c' 0 0 m ∧ contents (inodes (kfsys K') !!! 0%nat) c' = take (Z.to_nat m) [1; 2; 3].
Proof.
  destruct demo_open_at as [b Hop]. exists (demo_open b).
  destruct (filewrite_all 1 (demo_open b) demo_c 0 0 0 3 (mk_user (λ i, [1; 2; 3] !! Z.to_nat i) (λ _, true) (λ _, false)) [1; 2; 3] Hop)
    as (m & K' & c' & E & Hm & _ & Hop' & _ & Hc).
  - vm_compute. split; discriminate.
  - vm_compute. discriminate.
  - reflexivity.
  - intros k Hk. simpl. assert (k = 0 ∨ k = 1 ∨ k = 2) as Hor by lia.
    destruct Hor as [Hor|[Hor|Hor]]; subst k; reflexivity.
  - reflexivity.
  - exists K', m, c'. split; [exact E|]. split; [exact Hop'|]. rewrite Hc.
    change (contents (inodes (kfsys (demo_open b)) !!! 0%nat) demo_c) with (@nil Z). apply overwrite_nil.
Defined.
