(* ===== verification/Umalloc.v ===== *)
(** * The user-level allocator ([user/umalloc.c])

    [malloc] and [free] on the bytes of the process: free blocks form a
    circular list through their headers, in address order, starting at the
    static [base]. *)

From S2P Require Import Prelude.
From S2P Require Import Machine.
#[local] Open Scope Z_scope.

(** Where the program's image puts [base], where the heap starts, and the
    largest size the kernel lets the process grow to. *)
Class UserImage := {
  base : Z;
  heap_start : Z;
  heap_max : Z;
  image_ok : 0 < base ∧ base + 16 ≤ heap_start ∧ heap_start ≤ heap_max
             ∧ heap_max < 2 ^ 38 ∧ heap_max - heap_start < 2 ^ 31
}.

(** The process's memory, the static [freep], its size, and whether the
    kernel has memory for each of the coming requests. *)
Record uheap := mk_uheap { um : memory; freep : Z; brk : Z; grants : list bool }.
#[export] Instance uheap_settable : Settable uheap := λ s, mk_uheap (um s) (freep s) (brk s) (grants s).

(** [union header]: [s.ptr] at offset 0, [s.size] at offset 8, 16 bytes. *)
Definition sizeof_Header : Z := 16.
Definition hptr (m : memory) (p : Z) : Z := load64 m p.
Definition hsize (m : memory) (p : Z) : Z := load32 m (p + 8).
Definition set_hptr (p v : Z) : M uheap unit := modify (λ s, s <| um := store64 (um s) p v |>).
Definition set_hsize (p v : Z) : M uheap unit := modify (λ s, s <| um := store32 (um s) (p + 8) v |>).
Definition get_hptr (p : Z) : M uheap Z := gets (λ s, hptr (um s) p).
Definition get_hsize (p : Z) : M uheap Z := gets (λ s, hsize (um s) p).

(** [&p[k]] for a [Header *p]. *)
Definition hdr (p k : Z) : Z := p + sizeof_Header * k.

Section alloc.
Context `{UserImage}.

(** The system call [sbrk(int n)], with the result of [sys_sbrk]: the old
    size, or -1 if the kernel has no memory for the growth. Shrinking by more
    than the size leaves it as it is. *)
Definition sbrk (n : Z) : M uheap Z := λ s,
  let old := brk s in
  if 0 <? n then
    let granted := match grants s with [] => true | g :: _ => g end in
    let s := s <| grants := tail (grants s) |> in
    if granted && (old + n <=? heap_max) then Ret old (s <| brk := old + n |>)
    else Ret (u64 (-1)) s
  else
    let new := u64 (old + n) in
    Ret old (s <| brk := if old <=? new then old else new |>).

(** [for(p = freep; !(bp > p && bp < p->s.ptr); p = p->s.ptr)
    if(p >= p->s.ptr && (bp > p || bp < p->s.ptr)) break;] *)
Definition free_search (bp p : Z) : M uheap (Z + Z) :=
  let! next := get_hptr p in
  if (p <? bp) && (bp <? next) then ret (inr p)
  else if (next <=? p) && ((p <? bp) || (bp <? next)) then ret (inr p)
  else ret (inl next).

(** [if(bp + bp->s.size == p->s.ptr)], where [next] is [p->s.ptr]. *)
Definition join_upper (bp next : Z) : M uheap unit :=
  let! bsize := get_hsize bp in
  if hdr bp bsize =? next then
    let! nsize := get_hsize next in
    do! set_hsize bp (u32 (bsize + nsize)) in
    let! nnext := get_hptr next in
    set_hptr bp nnext
  else set_hptr bp next.
(** [if(p + p->s.size == bp)] *)
Definition join_lower (p bp : Z) : M uheap unit :=
  let! psize := get_hsize p in
  if hdr p psize =? bp then
    let! bsize := get_hsize bp in
    do! set_hsize p (u32 (psize + bsize)) in
    let! bnext := get_hptr bp in
    set_hptr p bnext
  else set_hptr p bp.

Definition free (fuel : nat) (ap : Z) : M uheap unit :=
  let bp := hdr ap (-1) in
  let! p0 := gets freep in
  let! p := loop fuel (free_search bp) p0 in
  let! next := get_hptr p in
  do! join_upper bp next in
  do! join_lower p bp in
  modify (λ s, s <| freep := p |>).

(** The product is computed in 64 bits and passed as an [int]. *)
Definition morecore (fuel : nat) (nu : Z) : M uheap Z :=
  let nu := if nu <? 4096 then 4096 else nu in
  let! p := sbrk (s32 (nu * sizeof_Header)) in
  if p =? u64 (-1) then ret 0
  else
    do! set_hsize p nu in
    do! free fuel (hdr p 1) in
    gets freep.

(** One round of the loop of [malloc] with its locals [prevp] and [p]; leaves
    with the result. *)
Definition malloc_body (fuel : nat) (nunits : Z) (pp : Z * Z) : M uheap (Z * Z + Z) :=
  let '(prevp, p) := pp in
  let! psize := get_hsize p in
  if nunits <=? psize then
    if psize =? nunits then
      let! next := get_hptr p in
      do! set_hptr prevp next in
      do! modify (λ s, s <| freep := prevp |>) in
      ret (inr (hdr p 1))
    else
      do! set_hsize p (u32 (psize - nunits)) in
      let! left := get_hsize p in
      let p := hdr p left in
      do! set_hsize p nunits in
      do! modify (λ s, s <| freep := prevp |>) in
      ret (inr (hdr p 1))
  else
    let! fp := gets freep in
    if p =? fp then
      let! p := morecore fuel nunits in
      if p =? 0 then ret (inr 0)
      else let! next := get_hptr p in ret (inl (p, next))
    else let! next := get_hptr p in ret (inl (p, next)).

Definition nunits_of (nbytes : Z) : Z := u32 ((nbytes + sizeof_Header - 1) / sizeof_Header + 1).

Definition malloc (fuel : nat) (nbytes : Z) : M uheap Z :=
  let nunits := nunits_of nbytes in
  let! fp := gets freep in
  let! prevp := (if fp =? 0 then
                   do! set_hptr base base in
                   do! modify (λ s, s <| freep := base |>) in
                   do! set_hsize base 0 in
                   ret base
                 else ret fp) in
  let! p := get_hptr prevp in
  loop fuel (malloc_body fuel nunits) (prevp, p).
End alloc.
