(* ===== verification/UmallocSpec.v ===== *)
(** * Correctness of the user-level allocator

    The memory holds a circular list of free blocks, sorted by address and
    maximally coalesced; free and allocated blocks tile disjoint parts of the
    heap. [free] and [malloc] keep this invariant and write outside the live
    blocks only. *)

From stdpp Require Import sorting.
From S2P Require Import Prelude.
From S2P Require Import Machine.
From S2P Require Import Umalloc.
#[local] Open Scope Z_scope.

(** ** Blocks *)

(** The address of a block's header and its size in units of 16 bytes. *)
Abbreviation block := (Z * Z)%type.
Definition bend (x : block) : Z := hdr x.1 x.2.
Definition disj (x y : block) : Prop := bend x ≤ y.1 ∨ bend y ≤ x.1.

Fixpoint apart (l : list block) : Prop :=
  match l with [] => True | x :: l' => Forall (disj x) l' ∧ apart l' end.

Lemma disj_sym x y : disj x y → disj y x.
Proof. unfold disj. tauto. Qed.

Lemma apart_app l1 l2 : apart (l1 ++ l2) ↔ apart l1 ∧ apart l2 ∧ Forall (λ x, Forall (disj x) l2) l1.
Proof.
  induction l1 as [|x l1 IH]; simpl; [split; [|tauto]; intros; auto|].
  rewrite Forall_app, Forall_cons, IH. tauto.
Qed.

#[export] Instance apart_perm : Proper (Permutation ==> iff) apart.
Proof.
  assert (∀ l1 l2, l1 ≡ₚ l2 → apart l1 → apart l2) as H.
  { intros l1 l2 P. induction P as [|x l1 l2 P IH|x y l|l1 l2 l3 P1 IH1 P2 IH2]; simpl; [done|..].
    - intros [H1 H2]. split; [by rewrite <- P|auto].
    - rewrite !Forall_cons. intros [[H1 H2] [H3 H4]]. auto using disj_sym.
    - auto. }
  intros l1 l2 P. split; apply H; [done|by symmetry].
Qed.

(** ** The linked list of free blocks *)

(** From the header at [a] the links go through the blocks [L] to [b]. *)
Fixpoint linked (m : memory) (a : Z) (L : list block) (b : Z) : Prop :=
  match L with
  | [] => hptr m a = b
  | x :: L' => hptr m a = x.1 ∧ hsize m x.1 = x.2 ∧ linked m x.1 L' b
  end.

(** The last header of a list that starts at [a], the first of one that ends
    at [b]. *)
Definition endof (a : Z) (L : list block) : Z := match last L with Some x => x.1 | None => a end.
Definition startof (L : list block) (b : Z) : Z := match L with x :: _ => x.1 | [] => b end.

Lemma endof_snoc a L x : endof a (L ++ [x]) = x.1.
Proof. unfold endof. by rewrite last_snoc. Qed.
Lemma endof_cons a L x : endof a (x :: L) = endof x.1 L.
Proof. unfold endof. rewrite last_cons. by destruct (last L). Qed.

Lemma linked_start m a L b : linked m a L b → hptr m a = startof L b.
Proof. destruct L; simpl; [done|]. tauto. Qed.

Lemma linked_app m a L1 L2 b :
  linked m a (L1 ++ L2) b ↔ linked m a L1 (startof L2 b) ∧ linked m (endof a L1) L2 b.
Proof.
  revert a. induction L1 as [|x L1 IH]; intros a; cbn [app linked].
  - unfold endof. simpl. split; [|tauto]. intros Hl. split; [by apply linked_start|done].
  - rewrite IH, endof_cons. tauto.
Qed.

Lemma linked_mid m a L1 x L2 b :
  linked m a (L1 ++ x :: L2) b ↔ linked m a L1 x.1 ∧ hsize m x.1 = x.2 ∧ linked m x.1 L2 b.
Proof.
  rewrite linked_app. cbn [linked startof]. split; [tauto|]. intros (H1 & H2 & H3).
  split; [done|]. split; [|done]. clear -H1. revert a H1.
  induction L1 as [|y L1 IH]; intros a H1; [done|]. rewrite endof_cons. apply IH, H1.
Qed.

Lemma linked_end m a L b : linked m a L b → hptr m (endof a L) = b.
Proof.
  revert a. induction L as [|x L IH]; intros a Hl; [done|]. rewrite endof_cons. apply IH, Hl.
Qed.

(** ** Reading headers after writes *)

Definition sep (x y : Z) : Prop := x + 16 ≤ y ∨ y + 16 ≤ x.

Lemma hptr_store64_eq m a v : 0 ≤ v < 2 ^ 64 → hptr (store64 m a v) a = v.
Proof. apply load64_store64. Qed.
Lemma hptr_store64_ne m a v x : sep a x → hptr (store64 m a v) x = hptr m x.
Proof. intros Hs. apply load_store_ne. unfold sep in Hs. lia. Qed.
Lemma hptr_store32 m a v x : a = x ∨ sep a x → hptr (store32 m (a + 8) v) x = hptr m x.
Proof. intros Hs. apply load_store_ne. unfold sep in Hs. lia. Qed.
Lemma hsize_store32_eq m a v : 0 ≤ v < 2 ^ 32 → hsize (store32 m (a + 8) v) a = v.
Proof. intros. unfold hsize. rewrite load_store_eq. by apply Z.mod_small. Qed.
Lemma hsize_store32_ne m a v x : sep a x → hsize (store32 m (a + 8) v) x = hsize m x.
Proof. intros Hs. apply load_store_ne. unfold sep in Hs. lia. Qed.
Lemma hsize_store64 m a v x : a = x ∨ sep a x → hsize (store64 m a v) x = hsize m x.
Proof. intros Hs. apply load_store_ne. unfold sep in Hs. lia. Qed.

Lemma linked_frame m m' a L b :
  (∀ x, x = a ∨ x ∈ L.*1 → hptr m' x = hptr m x) → (∀ x, x ∈ L.*1 → hsize m' x = hsize m x) →
  linked m a L b → linked m' a L b.
Proof.
  revert a. induction L as [|y L IH]; intros a Hp Hs; cbn [linked].
  - rewrite Hp by auto. done.
  - intros (H1 & H2 & H3). rewrite Hp by auto. rewrite Hs by (apply list_elem_of_fmap; exists y; split; [done|left]).
    split; [done|]. split; [done|]. apply IH; [|intros; apply Hs; by right|done].
    intros x Hx. apply Hp. right. destruct Hx as [->|Hx]; [left|by right].
Qed.

Lemma linked_store32 m w v a L b :
  w = a ∨ sep w a → Forall (λ x, sep w x.1) L → linked m a L b → linked (store32 m (w + 8) v) a L b.
Proof.
  intros Ha HL. assert (∀ x, x ∈ L.*1 → sep w x) as HL'.
  { intros x (y & -> & Hy)%list_elem_of_fmap. rewrite Forall_forall in HL. auto. }
  apply linked_frame.
  - intros x [->|Hx]; apply hptr_store32; auto.
  - intros x Hx. apply hsize_store32_ne. auto.
Qed.
Lemma linked_store64 m w v a L b :
  sep w a → Forall (λ x, sep w x.1) L → linked m a L b → linked (store64 m w v) a L b.
Proof.
  intros Ha HL. assert (∀ x, x ∈ L.*1 → sep w x) as HL'.
  { intros x (y & -> & Hy)%list_elem_of_fmap. rewrite Forall_forall in HL. auto. }
  apply linked_frame.
  - intros x [->|Hx]; apply hptr_store64_ne; auto.
  - intros x Hx. apply hsize_store64. auto.
Qed.

(** Redirecting the last link of a list, and the first. *)
Lemma linked_relink m v a L b :
  0 ≤ v < 2 ^ 64 → Forall (λ x, sep a x.1) L →
  StronglySorted (λ x y : block, sep x.1 y.1) L → linked m a L b →
  linked (store64 m (endof a L) v) a L v.
Proof.
  intros Hv. revert a. induction L as [|x L IH]; intros a Ha Hs Hl.
  - simpl. by apply hptr_store64_eq.
  - rewrite endof_cons. destruct Hl as (H1 & H2 & H3). apply Forall_cons in Ha as [Hax HaL].
    apply StronglySorted_inv in Hs as [Hs Hx].
    assert (sep (endof x.1 L) a) as He.
    { clear -HaL Hax. unfold endof. destruct (last L) as [y|] eqn:E; [|unfold sep in *; lia].
      apply last_Some in E as [L' ->]. rewrite Forall_app, Forall_singleton in HaL. unfold sep in *. lia. }
    cbn [linked]. rewrite hptr_store64_ne by done. split; [done|]. split; [|by apply IH].
    rewrite hsize_store64; [done|]. unfold endof. destruct (last L) as [y|] eqn:E; [|by left].
    right. apply last_Some in E as [L' ->]. rewrite Forall_app, Forall_singleton in Hx. unfold sep in *. lia.
Qed.
Lemma linked_restart m a a' L b :
  hptr m a' = hptr m a → linked m a L b → linked m a' L b.
Proof. intros E. destruct L; simpl; rewrite E; done. Qed.

(** ** The invariant *)

Section spec.
Context `{UserImage}.

Definition in_heap (top : Z) (x : block) : Prop := 1 ≤ x.2 ∧ heap_start ≤ x.1 ∧ bend x ≤ top.
Definition gap (x y : block) : Prop := bend x < y.1.

(** [L]: the free blocks in address order; [A]: the allocated blocks. *)
Record heap_ok (s : uheap) (L A : list block) : Prop := {
  ok_link : linked (um s) base L base;
  ok_base : hsize (um s) base = 0;
  ok_freep : freep s = base ∨ freep s ∈ L.*1;
  ok_sorted : StronglySorted gap L;
  ok_apart : apart (L ++ A);
  ok_in : Forall (in_heap (brk s)) (L ++ A);
  ok_size : Forall (λ x, hsize (um s) x.1 = x.2) A;
  ok_brk : heap_start ≤ brk s ≤ heap_max
}.

(** Bytes that belong to the allocator: the header [base] and blocks [L]. *)
Definition owned (L : list block) (a : Z) : Prop :=
  base ≤ a < base + 16 ∨ Exists (λ x : block, x.1 ≤ a < bend x) L.

Lemma sorted_sep L top : StronglySorted gap L → Forall (in_heap top) L → StronglySorted (λ x y : block, sep x.1 y.1) L.
Proof.
  induction 1 as [|x L Hs IH Hx]; intros Hin; [constructor|]. apply Forall_cons in Hin as [Hi Hin].
  constructor; [auto|]. eapply Forall_impl; [exact Hx|]. intros y. unfold gap, bend, hdr, sizeof_Header, sep.
  destruct Hi as (? & _). intros. lia.
Qed.

(** ** Walking the circular list *)

Definition node (L : list block) (x : Z) : Prop := ∃ L1 L2, L = L1 ++ L2 ∧ x = endof base L1.

Lemma node_base L : node L base.
Proof. by exists [], L. Qed.
Lemma node_block L x : x ∈ L.*1 → node L x.
Proof.
  intros (y & -> & (L1 & L2 & ->)%list_elem_of_split)%list_elem_of_fmap. exists (L1 ++ [y]), L2.
  by rewrite endof_snoc, <- app_assoc.
Qed.
Lemma node_freep s L A : heap_ok s L A → node L (freep s).
Proof. intros Hok. destruct (ok_freep _ _ _ Hok) as [->|Hf]; [apply node_base|by apply node_block]. Qed.

Lemma node_next m L L1 L2 :
  linked m base L base → L = L1 ++ L2 → hptr m (endof base L1) = startof L2 base.
Proof. intros Hl ->. apply linked_app in Hl as [_ Hl]. by apply linked_start in Hl. Qed.

(** The walk from one header to another takes at most [length L] links. *)
Lemma walk_right m L1 L2 L3 :
  linked m base (L1 ++ L2 ++ L3) base →
  Nat.iter (length L2) (hptr m) (endof base L1) = endof base (L1 ++ L2).
Proof.
  revert L1. induction L2 as [|x L2 IH]; intros L1 Hl; [by rewrite app_nil_r|].
  cbn [length]. rewrite Nat.iter_succ_r.
  rewrite (node_next m (L1 ++ (x :: L2) ++ L3) L1 ((x :: L2) ++ L3) Hl eq_refl). cbn [startof app].
  rewrite <- (endof_snoc base L1 x). replace (L1 ++ x :: L2) with ((L1 ++ [x]) ++ L2) by (by rewrite <- app_assoc).
  apply IH. by rewrite <- app_assoc.
Qed.

Lemma walk_round m L1 L2 : linked m base (L1 ++ L2) base → Nat.iter (S (length L2)) (hptr m) (endof base L1) = base.
Proof.
  intros Hl. rewrite Nat.iter_succ, (walk_right m L1 L2 []) by (by rewrite app_nil_r).
  by apply (node_next m (L1 ++ L2) (L1 ++ L2) []); rewrite ?app_nil_r.
Qed.

Lemma walk m L x y : linked m base L base → node L x → node L y →
  ∃ k, (k ≤ length L)%nat ∧ Nat.iter k (hptr m) x = y.
Proof.
  intros Hl (L1 & L2 & E1 & ->) (M1 & M2 & E2 & ->). rewrite E1 in E2.
  destruct (app_eq_inv _ _ _ _ E2) as [(k & -> & ->)|(k & -> & ->)]; subst L.
  - (* y is behind: to base and on *)
    destruct k as [|z k].
    { exists 0%nat. split; [lia|]. by rewrite app_nil_r. }
    exists (length M1 + S (length L2))%nat. split; [rewrite !length_app; simpl; lia|].
    rewrite Nat.iter_add, walk_round by done. rewrite <- app_assoc in Hl. by apply (walk_right m [] M1 ((z :: k) ++ L2)).
  - exists (length k). split; [rewrite !length_app; lia|]. by apply walk_right with M2.
Qed.

Lemma node_step m L x : linked m base L base → node L x → node L (hptr m x).
Proof.
  intros Hl (L1 & L2 & -> & ->). rewrite (node_next m (L1 ++ L2) L1 L2 Hl eq_refl).
  destruct L2 as [|y L2]; [apply node_base|]. cbn [startof]. exists (L1 ++ [y]), L2.
  by rewrite endof_snoc, <- app_assoc.
Qed.

(** ** Where [free] inserts a block *)

Lemma endof_bound P L : P base → Forall (λ x : block, P x.1) L → P (endof base L).
Proof.
  intros Hb HL. unfold endof. destruct (last L) as [x|] eqn:E; [|done].
  apply last_Some in E as [L' ->]. apply Forall_app in HL as [_ HL]. by apply Forall_inv in HL.
Qed.
Lemma endof_lt_next L1 y L2 top :
  StronglySorted gap (L1 ++ y :: L2) → Forall (in_heap top) (L1 ++ y :: L2) → endof base L1 < y.1.
Proof.
  intros Hs Hin. pose proof image_ok as I. apply Forall_app in Hin as [Hin1 [Hy _]%Forall_cons].
  unfold endof. destruct (last L1) as [x|] eqn:E; [|destruct Hy; lia].
  apply last_Some in E as [L' ->]. rewrite <- app_assoc in Hs. cbn [app] in Hs.
  apply StronglySorted_app in Hs as (_ & _ & Hs). apply StronglySorted_inv in Hs as [_ Hx].
  apply Forall_cons in Hx as [Hx _]. apply Forall_app in Hin1 as [_ Hin1]. apply Forall_inv in Hin1.
  unfold gap, bend, hdr, sizeof_Header in *. destruct Hin1. lia.
Qed.

Definition free_exit (bp p next : Z) : Prop := (p < bp < next) ∨ (next ≤ p ∧ (p < bp ∨ bp < next)).

Lemma free_exit_iff m L1 L2 b top x :
  linked m base (L1 ++ L2) base → StronglySorted gap (L1 ++ L2) → Forall (in_heap top) (L1 ++ L2) →
  base < b → Forall (λ x : block, x.1 < b) L1 → Forall (λ x : block, b < x.1) L2 → node (L1 ++ L2) x →
  free_exit b x (hptr m x) ↔ x = endof base L1.
Proof.
  intros Hl Hs Hin Hb H1 H2 (M1 & M2 & E & ->). pose proof image_ok as I.
  rewrite (node_next m _ M1 M2 Hl E). unfold free_exit. split.
  - intros Hex. destruct (app_eq_inv _ _ _ _ E) as [([|z k] & E1 & E2)|([|z k] & E1 & E2)];
      [by rewrite E1, app_nil_r| |by rewrite E1, app_nil_r|]; exfalso.
    + (* L1 goes on after M1: the next header is still below b *)
      subst. cbn [app startof] in *. apply Forall_app in H1 as [_ [Hz _]%Forall_cons].
      rewrite <- app_assoc in Hs, Hin. cbn [app] in Hs, Hin.
      pose proof (endof_lt_next _ _ _ _ Hs Hin). lia.
    + (* M1 goes on after L1: its last header is above b *)
      subst. assert (b < endof base (L1 ++ z :: k)) as Hx.
      { unfold endof. rewrite last_app_cons. destruct (last (z :: k)) as [y|] eqn:Ey; [|by apply last_None in Ey].
        apply last_Some in Ey as [l' Ey]. rewrite Ey in H2.
        apply Forall_app in H2 as [H2 _]. apply Forall_app in H2 as [_ H2]. by apply Forall_inv in H2. }
      destruct M2 as [|y M2]; cbn [startof] in *; [lia|].
      rewrite app_assoc in Hs, Hin. pose proof (endof_lt_next _ _ _ _ Hs Hin). lia.
  - intros Ex. assert (startof M2 base = startof L2 base) as ->.
    { rewrite <- (node_next m _ M1 M2 Hl E), Ex. by apply (node_next m (L1 ++ L2)). }
    rewrite Ex. assert (endof base L1 < b) as Hlt by (by apply (endof_bound (λ x, x < b))).
    destruct L2 as [|y L2]; cbn [startof].
    + right. split; [|lia]. apply (endof_bound (λ x, base ≤ x)); [lia|].
      rewrite app_nil_r in Hin. eapply Forall_impl; [exact Hin|]. intros y (_ & Hy & _). lia.
    + left. apply Forall_cons in H2 as [H2 _]. lia.
Qed.

#[local] Instance free_exit_dec bp p next : Decision (free_exit bp p next).
Proof. unfold free_exit. apply _. Defined.
Lemma free_search_eq b x s :
  free_search b x s = Ret (if decide (free_exit b x (hptr (um s) x)) then inr x else inl (hptr (um s) x)) s.
Proof.
  unfold free_search, get_hptr, gets, bind, ret. generalize (hptr (um s) x). intros nx.
  case_decide as Hd; unfold free_exit in Hd; destruct ((x <? b) && (b <? nx)) eqn:E1; try done; try lia;
    destruct ((nx <=? x) && ((x <? b) || (b <? nx))) eqn:E2; try done; lia.
Qed.

Lemma free_search_spec s L1 L2 b fuel : ∀ k x,
  linked (um s) base (L1 ++ L2) base → StronglySorted gap (L1 ++ L2) → Forall (in_heap (brk s)) (L1 ++ L2) →
  base < b → Forall (λ x : block, x.1 < b) L1 → Forall (λ x : block, b < x.1) L2 → node (L1 ++ L2) x →
  Nat.iter k (hptr (um s)) x = endof base L1 → (k < fuel)%nat →
  loop fuel (free_search b) x s = Ret (endof base L1) s.
Proof.
  induction fuel as [|fuel IH]; intros k x Hl Hs Hin Hb H1 H2 Hx Hk Hf; [lia|].
  cbn [loop]. pose proof (free_exit_iff _ _ _ _ _ x Hl Hs Hin Hb H1 H2 Hx) as He.
  rewrite (bind_eq _ _ _ _ _ (free_search_eq b x s)).
  destruct (decide (free_exit b x (hptr (um s) x))) as [Hex|Hex]; [by rewrite He in Hex; subst x|].
  destruct k as [|k]; [by exfalso; apply Hex, He|].
  rewrite Nat.iter_succ_r in Hk. apply (IH k); try done; [by apply node_step|lia].
Qed.

(** ** Geometry of coalescing *)

Lemma gap_after w L top :
  StronglySorted gap L → Forall (in_heap top) L → (∀ y L', L = y :: L' → gap w y) → Forall (gap w) L.
Proof.
  intros Hs Hin Hw. destruct L as [|y L]; [done|]. pose proof (Hw y L eq_refl) as Hy.
  apply StronglySorted_inv in Hs as [_ Hs]. apply Forall_cons in Hin as [(Hi & _) _].
  constructor; [done|]. eapply Forall_impl; [exact Hs|]. intros z. unfold gap, bend, hdr, sizeof_Header in *. intros. lia.
Qed.
Lemma gap_before L w top :
  StronglySorted gap L → Forall (in_heap top) L → (∀ L' y, L = L' ++ [y] → gap y w) → Forall (λ x, gap x w) L.
Proof.
  intros Hs Hin Hw. destruct (last L) as [y|] eqn:E; [|by apply last_None in E as ->].
  apply last_Some in E as [L' ->]. pose proof (Hw L' y eq_refl) as Hy.
  apply StronglySorted_app in Hs as (Hs & _ & _). apply Forall_app in Hin as [_ [(Hi & _) _]%Forall_cons].
  apply Forall_app. split; [|by apply Forall_singleton]. apply Forall_forall. intros x Hx.
  specialize (Hs x y Hx ltac:(by left)). unfold gap, bend, hdr, sizeof_Header in *. lia.
Qed.

Lemma sorted_insert L1 w L2 :
  StronglySorted gap L1 → StronglySorted gap L2 → Forall (λ x, gap x w) L1 → Forall (gap w) L2 → in_heap heap_max w →
  StronglySorted gap (L1 ++ w :: L2).
Proof.
  intros H1 H2 Ha Hb Hw. apply StronglySorted_app. split; [|split; [done|by constructor]].
  rewrite Forall_forall in Ha, Hb. intros x y Hx [->|Hy]%elem_of_cons; [auto|].
  specialize (Ha x Hx). specialize (Hb y Hy). unfold gap, bend, hdr, sizeof_Header in *. destruct Hw. lia.
Qed.

(** Two adjacent blocks as one. *)
Lemma disj_merge x y z : 1 ≤ z.2 → bend x = y.1 → disj x z → disj y z → disj (x.1, x.2 + y.2) z.
Proof. unfold disj, bend, hdr, sizeof_Header. simpl. intros. lia. Qed.
Lemma apart_merge x y l top :
  Forall (in_heap top) l → bend x = y.1 → apart (x :: y :: l) → apart ((x.1, x.2 + y.2) :: l).
Proof.
  intros Hin E (Hx & Hy & Hl). apply Forall_cons in Hx as [_ Hx]. split; [|done].
  rewrite Forall_forall in *. intros z Hz. apply disj_merge; auto. by destruct (Hin z Hz).
Qed.

Lemma disj_sep top x y : in_heap top x → in_heap top y → disj x y → sep x.1 y.1.
Proof. unfold in_heap, disj, bend, hdr, sizeof_Header, sep. lia. Qed.
Lemma apart_sep top w l : apart (w :: l) → Forall (in_heap top) (w :: l) → Forall (λ x, sep w.1 x.1) l.
Proof.
  intros [Ha _] [Hw Hl]%Forall_cons. rewrite Forall_forall in *. intros x Hx. eapply disj_sep; eauto.
Qed.

(** ** Joining with the block above *)

(** The size of the block [(b, n)] and the list after it, once joined. *)
Definition up (b n : Z) (L2 : list block) : Z * list block :=
  match L2 with
  | y :: L2' => if hdr b n =? y.1 then (n + y.2, L2') else (n, L2)
  | [] => (n, L2)
  end.

Lemma up_geometry top b n L1 L2 A :
  apart ((b, n) :: (L1 ++ L2) ++ A) → Forall (in_heap top) ((b, n) :: (L1 ++ L2) ++ A) →
  StronglySorted gap (L1 ++ L2) → Forall (λ x : block, b < x.1) L2 →
  let r := up b n L2 in
  n ≤ r.1 ∧ apart ((b, r.1) :: (L1 ++ r.2) ++ A) ∧ Forall (in_heap top) ((b, r.1) :: (L1 ++ r.2) ++ A)
  ∧ StronglySorted gap (L1 ++ r.2) ∧ Forall (gap (b, r.1)) r.2 ∧ (length r.2 ≤ length L2)%nat.
Proof.
  intros Ha Hin Hs H2. unfold up. pose proof Hin as [Hb Hin']%Forall_cons. destruct L2 as [|y L2].
  { simpl. auto 10 with lia. }
  assert (hdr b n ≤ y.1) as Hle.
  { destruct Ha as [Ha _]. rewrite !Forall_app in Ha. destruct Ha as [[_ [Hd _]%Forall_cons] _].
    apply Forall_cons in H2 as [H2 _]. rewrite !Forall_app in Hin'. destruct Hin' as [[_ [Hy _]%Forall_cons] _].
    destruct Hy. unfold disj, bend, hdr, sizeof_Header in *. simpl in *. lia. }
  assert (apart ((b, n) :: y :: (L1 ++ L2) ++ A)) as Ha'.
  { rewrite <- !app_assoc in Ha |- *. cbn [app] in Ha. by rewrite (Permutation_middle L1 (L2 ++ A) y). }
  assert (Forall (in_heap top) (y :: (L1 ++ L2) ++ A)) as Hin2.
  { rewrite <- !app_assoc in Hin' |- *. cbn [app] in Hin'. by rewrite (Permutation_middle L1 (L2 ++ A) y). }
  pose proof Hin2 as [Hy Hin3]%Forall_cons.
  apply StronglySorted_app in Hs as (Hc & Hs1 & [Hs2 Hy2]%StronglySorted_inv).
  destruct (Z.eqb_spec (hdr b n) y.1) as [E|E]; cbv zeta; cbn [fst snd].
  - destruct Hy as (Hy1 & Hy3 & Hy4). destruct Hb as (Hb1 & Hb2 & Hb3). split; [lia|].
    split; [by apply (apart_merge (b, n) y _ top)|]. split.
    { constructor; [|done]. unfold in_heap, bend, hdr, sizeof_Header in *. simpl in *. lia. }
    split; [apply StronglySorted_app; split; [|done]; intros; apply Hc; [done|by right]|].
    split; [|simpl; lia]. eapply Forall_impl; [exact Hy2|]. unfold gap, bend, hdr, sizeof_Header in *. simpl in *. lia.
  - split; [lia|]. split; [done|]. split; [done|]. split; [by apply StronglySorted_app; split; [|split; [|constructor]]|].
    split; [|done]. rewrite !Forall_app in Hin'. destruct Hin' as [[_ Hin'] _].
    apply (gap_after _ _ top); [by constructor|done|].
    intros y' L' [= <- <-]. unfold gap, bend. simpl. lia.
Qed.

(** A block [(b, n)] that is in none of the lists, between the free blocks
    [L1] and [L2]. *)
Record placed (s : uheap) (b n : Z) (L1 L2 A : list block) : Prop := {
  pl_link : linked (um s) base (L1 ++ L2) base;
  pl_base : hsize (um s) base = 0;
  pl_size : hsize (um s) b = n;
  pl_sizes : Forall (λ x, hsize (um s) x.1 = x.2) A;
  pl_apart : apart ((b, n) :: (L1 ++ L2) ++ A);
  pl_in : Forall (in_heap (brk s)) ((b, n) :: (L1 ++ L2) ++ A);
  pl_sorted : StronglySorted gap (L1 ++ L2);
  pl_lo : Forall (λ x : block, x.1 < b) L1;
  pl_hi : Forall (λ x : block, b < x.1) L2;
  pl_brk : heap_start ≤ brk s ≤ heap_max
}.

(** The header [b] has been filled in, but the list does not lead to it. *)
Record prepared (m : memory) (b n : Z) (L1 L2 A : list block) : Prop := {
  pr_lo : ∃ z, linked m base L1 z;
  pr_base : hsize m base = 0;
  pr_size : hsize m b = n;
  pr_hi : linked m b L2 base;
  pr_sizes : Forall (λ x, hsize m x.1 = x.2) A
}.

Lemma block_small top x : in_heap top x → top ≤ heap_max → 0 ≤ x.2 < 2 ^ 32 ∧ 0 ≤ x.1 < 2 ^ 38 ∧ sep base x.1.
Proof. pose proof image_ok. unfold in_heap, bend, hdr, sizeof_Header, sep. lia. Qed.

(** Writing the header [b] keeps the lists it is not in. *)
Lemma prepared_frame m m' L1 A b :
  (∀ x, sep b x → hptr m' x = hptr m x ∧ hsize m' x = hsize m x) →
  sep b base → Forall (λ x : block, sep b x.1) (L1 ++ A) →
  (∃ z, linked m base L1 z) → hsize m base = 0 → Forall (λ x : block, hsize m x.1 = x.2) A →
  (∃ z, linked m' base L1 z) ∧ hsize m' base = 0 ∧ Forall (λ x : block, hsize m' x.1 = x.2) A.
Proof.
  intros Hf Hb Hs (z & Hl) H0 HA. apply Forall_app in Hs as [Hs1 Hs2]. rewrite Forall_forall in Hs1, Hs2.
  assert (∀ x, x ∈ L1.*1 → sep b x) as HL by (intros x (y & -> & Hy)%list_elem_of_fmap; auto).
  split; [|split].
  - exists z. eapply linked_frame; [..|exact Hl].
    + intros x [->|Hx]; apply Hf; auto.
    + intros x Hx. apply Hf; auto.
  - destruct (Hf base Hb) as [_ ->]. done.
  - rewrite Forall_forall in *. intros x Hx. destruct (Hf x.1 (Hs2 x Hx)) as [_ ->]. auto.
Qed.

Lemma join_upper_spec s b n L1 L2 A :
  placed s b n L1 L2 A →
  wp (join_upper b (startof L2 base)) (λ _ s', ∃ m', s' = s <| um := m' |>
    ∧ prepared m' b (up b n L2).1 L1 (up b n L2).2 A
    ∧ mem_agree (λ a, ¬ in_range b 16 a) (um s) m') s.
Proof.
  intros P. pose proof image_ok as I. destruct (pl_brk _ _ _ _ _ _ P) as [_ Hbrk].
  pose proof (apart_sep _ _ _ (pl_apart _ _ _ _ _ _ P) (pl_in _ _ _ _ _ _ P)) as Hsep. cbn [fst] in Hsep.
  pose proof (pl_in _ _ _ _ _ _ P) as [Hb Hin]%Forall_cons.
  destruct (block_small _ _ Hb Hbrk) as (Hn & Hb64 & Hbase). cbn [fst snd] in *.
  assert (sep b base) as Hbb by (unfold sep in *; lia).
  pose proof (pl_link _ _ _ _ _ _ P) as Hl. apply linked_app in Hl as [Hl1 Hl2].
  rewrite !Forall_app in Hsep. destruct Hsep as [[Hsep1 Hsep2] HsepA].
  assert (Forall (λ x : block, sep b x.1) (L1 ++ A)) as Hs1A by (by apply Forall_app).
  unfold join_upper, get_hsize, get_hptr, set_hptr, set_hsize. wp_steps.
  rewrite (pl_size _ _ _ _ _ _ P). unfold up. destruct L2 as [|y L2]; cbn [startof] in *.
  - destruct (Z.eqb_spec (hdr b n) base) as [E|_].
    { exfalso. destruct Hb as (? & ? & _). unfold hdr, sizeof_Header in *. simpl in *. lia. }
    wp_steps. eexists. split; [done|]. split.
    + destruct (prepared_frame (um s) (store64 (um s) b base) L1 A b) as (F1 & F2 & F3);
        [|done|done|eauto|apply P|apply P|].
      { intros x Hx. split; [by apply hptr_store64_ne|by apply hsize_store64; right]. }
      constructor; try done; [rewrite hsize_store64 by auto; apply P|]. simpl. apply hptr_store64_eq. lia.
    + intros a Ha. symmetry. apply load8_store_ne. unfold in_range in *. lia.
  - destruct Hl2 as (_ & Hy & Hl2). apply Forall_cons in Hsep2 as [Hby Hsep2].
    rewrite !Forall_app in Hin. destruct Hin as [[_ [Hyin HinL2]%Forall_cons] _].
    destruct (block_small _ _ Hyin Hbrk) as (Hk & Hy64 & _).
    destruct (Z.eqb_spec (hdr b n) y.1) as [E|E]; wp_steps; eexists; (split; [done|]).
    + assert (u32 (n + hsize (um s) y.1) = n + y.2) as ->.
      { rewrite Hy. apply u32_small. destruct Hb as (? & ? & _), Hyin as (? & _ & ?).
        unfold bend, hdr, sizeof_Header in *. simpl in *. lia. }
      cbn [um upd]. cbn [fst snd]. rewrite hptr_store32 by (by right).
      set (m1 := store32 (um s) (b + 8) (n + y.2)). set (v := hptr (um s) y.1).
      assert (v = startof L2 base) as Ev by (by apply linked_start).
      split.
      * destruct (prepared_frame (um s) (store64 m1 b v) L1 A b) as (F1 & F2 & F3);
          [|done|done|eauto|apply P|apply P|].
        { intros x Hx. rewrite hptr_store64_ne, hsize_store64 by auto. unfold m1.
          by rewrite hptr_store32, hsize_store32_ne by auto. }
        constructor; try done.
        -- rewrite hsize_store64 by auto. unfold m1. apply hsize_store32_eq.
           destruct Hb as (? & ? & _), Hyin as (? & _ & ?). unfold bend, hdr, sizeof_Header in *. simpl in *. lia.
        -- apply (linked_restart _ y.1).
           { rewrite hptr_store64_eq by (apply load64_range). rewrite hptr_store64_ne by done. unfold m1.
             by rewrite hptr_store32 by auto. }
           apply linked_store64; [done|done|]. apply linked_store32; [by right|done|done].
      * intros a Ha. symmetry. unfold in_range in Ha. unfold m1. do 2 (rewrite load8_store_ne by (unfold in_range; lia)). done.
    + cbn [fst snd]. split.
      * destruct (prepared_frame (um s) (store64 (um s) b y.1) L1 A b) as (F1 & F2 & F3);
          [|done|done|eauto|apply P|apply P|].
        { intros x Hx. split; [by apply hptr_store64_ne|by apply hsize_store64; right]. }
        constructor; try done; [rewrite hsize_store64 by auto; apply P|]. cbn [linked].
        rewrite hptr_store64_eq by lia. rewrite hsize_store64 by auto. split; [done|]. split; [done|].
        by apply linked_store64.
      * intros a Ha. symmetry. apply load8_store_ne. unfold in_range in *. lia.
Qed.

(** ** Joining with the block below *)

(** What is known of a prepared block. *)
Record ready (s : uheap) (b n : Z) (L1 L2 A : list block) : Prop := {
  rd_pre : prepared (um s) b n L1 L2 A;
  rd_apart : apart ((b, n) :: (L1 ++ L2) ++ A);
  rd_in : Forall (in_heap (brk s)) ((b, n) :: (L1 ++ L2) ++ A);
  rd_sorted : StronglySorted gap (L1 ++ L2);
  rd_lo : Forall (λ x : block, x.1 < b) L1;
  rd_hi : Forall (gap (b, n)) L2;
  rd_brk : heap_start ≤ brk s ≤ heap_max
}.

Lemma ready_heap s b n L1 L2 A :
  ready s b n L1 L2 A → apart ((L1 ++ (b, n) :: L2) ++ A) ∧ Forall (in_heap (brk s)) ((L1 ++ (b, n) :: L2) ++ A).
Proof.
  intros R. assert ((L1 ++ (b, n) :: L2) ++ A ≡ₚ (b, n) :: (L1 ++ L2) ++ A) as ->.
  { rewrite <- !app_assoc. cbn [app]. symmetry. apply Permutation_middle. }
  split; apply R.
Qed.

(** The block below ends before [b]. *)
Lemma ready_below s b n L0 x L2 A : ready s b n (L0 ++ [x]) L2 A → bend x ≤ b.
Proof.
  intros R. destruct (rd_apart _ _ _ _ _ _ R) as [Ha _]. rewrite !Forall_app in Ha.
  destruct Ha as [[[_ Hx] _] _]. apply Forall_inv in Hx.
  pose proof (rd_lo _ _ _ _ _ _ R) as [_ Hlo]%Forall_app. apply Forall_inv in Hlo.
  pose proof (rd_in _ _ _ _ _ _ R) as [(Hn & _) _]%Forall_cons.
  unfold disj, bend, hdr, sizeof_Header in *. simpl in *. lia.
Qed.

(** The header before [b] is apart from the headers after it and from those
    of allocated blocks. *)
Lemma ready_sep s b n L1 L2 A :
  ready s b n L1 L2 A → let p := endof base L1 in
  sep p b ∧ Forall (λ x : block, sep p x.1) L2 ∧ Forall (λ x : block, sep p x.1) A ∧ (p = base ∨ sep p base).
Proof.
  intros R. cbv zeta. destruct (rd_brk _ _ _ _ _ _ R) as [_ Hbrk]. pose proof (rd_in _ _ _ _ _ _ R) as Hin.
  destruct (last L1) as [x|] eqn:E.
  - apply last_Some in E as [L0 ->]. rewrite endof_snoc.
    assert ((b, n) :: ((L0 ++ [x]) ++ L2) ++ A ≡ₚ x :: (b, n) :: (L0 ++ L2) ++ A) as P.
    { rewrite <- !app_assoc. cbn [app]. rewrite <- Permutation_middle. constructor. }
    pose proof (rd_apart _ _ _ _ _ _ R) as Ha. rewrite P in Ha, Hin.
    pose proof (apart_sep _ _ _ Ha Hin) as Hs. apply Forall_cons in Hs as [Hs1 Hs2].
    rewrite !Forall_app in Hs2. destruct Hs2 as [[_ Hs2] Hs3].
    apply Forall_cons in Hin as [Hx _]. destruct (block_small _ _ Hx Hbrk) as (_ & _ & Hb).
    split; [done|]. split; [done|]. split; [done|]. right. unfold sep in *. lia.
  - apply last_None in E as ->. unfold endof. simpl. apply Forall_cons in Hin as [Hb Hin].
    apply Forall_app in Hin as [Hin1 Hin2]. cbn [app] in Hin1. split; [by eapply (block_small _ (b, n))|].
    split; [|split; [|by left]]; eapply Forall_impl; eauto; intros x Hx; by eapply block_small.
Qed.

Lemma link_in_spec s b n L1 L2 A :
  ready s b n L1 L2 A → (∀ L0 x, L1 = L0 ++ [x] → bend x ≠ b) →
  heap_ok (s <| um := store64 (um s) (endof base L1) b |> <| freep := endof base L1 |>) (L1 ++ (b, n) :: L2) A.
Proof.
  intros R Hne. pose proof (rd_pre _ _ _ _ _ _ R) as [(z & Hlo) Hb0 Hbn Hhi HA].
  destruct (rd_brk _ _ _ _ _ _ R) as [_ Hbrk]. destruct (ready_heap _ _ _ _ _ _ R) as [Hap Hin].
  destruct (ready_sep _ _ _ _ _ _ R) as (Hpb & HpL & HpA & Hp0).
  pose proof (rd_in _ _ _ _ _ _ R) as [Hb Hin']%Forall_cons. rewrite !Forall_app in Hin'.
  destruct Hin' as [[Hin1 Hin2] _]. destruct (block_small _ _ Hb Hbrk) as (_ & Hb64 & _). cbn [fst snd] in *.
  pose proof (rd_sorted _ _ _ _ _ _ R) as (_ & Hs1 & Hs2)%StronglySorted_app.
  constructor; cbn [um freep brk upd]; try done.
  - apply linked_mid. cbn [fst snd]. split; [|split].
    + apply linked_relink with z; [lia| |by eapply sorted_sep|done].
      eapply Forall_impl; [exact Hin1|]. intros x Hx. by eapply block_small.
    + rewrite hsize_store64 by auto. done.
    + by apply linked_store64.
  - rewrite hsize_store64; [done|]. destruct Hp0; auto.
  - destruct (last L1) as [x|] eqn:E.
    + apply last_Some in E as [L0 ->]. rewrite endof_snoc. right. apply list_elem_of_fmap. exists x.
      split; [done|]. rewrite !elem_of_app. left. right. by left.
    + apply last_None in E as ->. by left.
  - apply sorted_insert; [done..| |apply R|].
    + apply (gap_before _ _ (brk s)); [done|done|]. intros L0 x ->.
      pose proof (ready_below _ _ _ _ _ _ _ R). specialize (Hne L0 x eq_refl). unfold gap. simpl. lia.
    + destruct Hb as (? & ? & ?). split; [done|]. split; [done|lia].
  - eapply Forall_impl; [|intros x Hx; exact Hx]. rewrite Forall_forall in *. intros x Hx.
    rewrite hsize_store64 by auto. auto.
  - apply R.
Qed.

Lemma merge_down_spec s b n L0 x L2 A :
  ready s b n (L0 ++ [x]) L2 A → bend x = b →
  0 ≤ x.2 + n < 2 ^ 32 ∧
  heap_ok (s <| um := store64 (store32 (um s) (x.1 + 8) (x.2 + n)) x.1 (hptr (um s) b) |> <| freep := x.1 |>)
    (L0 ++ (x.1, x.2 + n) :: L2) A.
Proof.
  intros R E. pose proof image_ok as I.
  pose proof (rd_pre _ _ _ _ _ _ R) as [(z & Hlo) Hb0 Hbn Hhi HA]. apply linked_mid in Hlo as (Hlo & Hx & _).
  destruct (rd_brk _ _ _ _ _ _ R) as [Hbrk0 Hbrk].
  pose proof (ready_sep _ _ _ _ _ _ R) as (Hpb & HpL & HpA & Hp0). rewrite endof_snoc in *.
  assert ((b, n) :: ((L0 ++ [x]) ++ L2) ++ A ≡ₚ x :: (b, n) :: (L0 ++ L2) ++ A) as P.
  { rewrite <- !app_assoc. cbn [app]. rewrite <- Permutation_middle. constructor. }
  pose proof (rd_apart _ _ _ _ _ _ R) as Ha. pose proof (rd_in _ _ _ _ _ _ R) as Hin. rewrite P in Ha, Hin.
  pose proof Hin as [Hxin [Hbin Hrest]%Forall_cons]%Forall_cons.
  assert (in_heap (brk s) (x.1, x.2 + n)) as Hw.
  { unfold in_heap, bend, hdr, sizeof_Header in *. simpl in *. lia. }
  destruct (block_small _ _ Hw Hbrk) as (Hw32 & _). split; [done|].
  apply (apart_merge x (b, n) _ (brk s) Hrest E) in Ha. cbn [snd] in Ha.
  assert ((L0 ++ (x.1, x.2 + n) :: L2) ++ A ≡ₚ (x.1, x.2 + n) :: (L0 ++ L2) ++ A) as P2.
  { rewrite <- !app_assoc. cbn [app]. symmetry. apply Permutation_middle. }
  pose proof (rd_sorted _ _ _ _ _ _ R) as Hs. rewrite <- app_assoc in Hs. cbn [app] in Hs.
  apply StronglySorted_app in Hs as (Hs0 & Hs1 & [Hs2 Hx2]%StronglySorted_inv).
  assert (Forall (λ y : block, sep x.1 y.1) L0) as Hx0.
  { rewrite !Forall_app in Hrest. destruct Hrest as [[Hin0 _] _]. rewrite Forall_forall in Hin0 |- *. intros y Hy.
    specialize (Hs0 y x Hy ltac:(by left)). destruct (Hin0 y Hy). unfold gap, bend, hdr, sizeof_Header, sep in *. lia. }
  assert (sep x.1 base) as Hx_base.
  { destruct (block_small _ _ Hxin Hbrk) as (_ & _ & H0). unfold sep in *. lia. }
  constructor; cbn [um freep brk upd]; try done.
  - apply linked_mid. cbn [fst snd]. split; [|split].
    + apply linked_store64; [done|done|]. by apply linked_store32; [right| |].
    + rewrite hsize_store64 by auto. by apply hsize_store32_eq.
    + apply (linked_restart _ b).
      { rewrite hptr_store64_eq by apply load64_range. by rewrite hptr_store64_ne, hptr_store32 by auto. }
      apply linked_store64; [done|done|]. by apply linked_store32; [right| |].
  - rewrite hsize_store64, hsize_store32_ne by auto. done.
  - right. apply list_elem_of_fmap. exists (x.1, x.2 + n). split; [done|]. rewrite elem_of_app. right. by left.
  - apply sorted_insert; [done..| | |].
    + apply Forall_forall. intros y Hy. specialize (Hs0 y x Hy ltac:(by left)). done.
    + eapply Forall_impl; [apply R|]. unfold gap, bend, hdr, sizeof_Header in *. simpl in *. lia.
    + destruct Hw as (? & ? & ?). split; [done|]. split; [done|lia].
  - by rewrite P2.
  - rewrite P2. by constructor.
  - rewrite Forall_forall in *. intros y Hy. rewrite hsize_store64, hsize_store32_ne by auto. auto.
Qed.

Lemma join_lower_spec s b n L1 L2 A :
  ready s b n L1 L2 A →
  wp (join_lower (endof base L1) b) (λ _ s', ∃ m' L', s' = s <| um := m' |>
    ∧ heap_ok (s <| um := m' |> <| freep := endof base L1 |>) L' A
    ∧ Exists (λ x : block, n ≤ x.2) L' ∧ (length L' ≤ S (length L1 + length L2))%nat
    ∧ mem_agree (λ a, ¬ in_range (endof base L1) 16 a) (um s) m') s.
Proof.
  intros R. unfold join_lower, get_hsize, get_hptr, set_hptr, set_hsize. wp_steps.
  set (p := endof base L1). destruct (Z.eqb_spec (hdr p (hsize (um s) p)) b) as [E|E]; wp_steps.
  - destruct (last L1) as [x|] eqn:El.
    2: { exfalso. apply last_None in El as ->. unfold p, endof in E. simpl in E.
         rewrite (pr_base _ _ _ _ _ _ (rd_pre _ _ _ _ _ _ R)) in E. pose proof image_ok as I.
         pose proof (rd_in _ _ _ _ _ _ R) as [(_ & Hb & _) _]%Forall_cons. unfold hdr in E. simpl in *. lia. }
    apply last_Some in El as [L0 ->].
    assert (p = x.1) as Ep by apply endof_snoc. clearbody p. subst p.
    destruct (pr_lo _ _ _ _ _ _ (rd_pre _ _ _ _ _ _ R)) as (z & (_ & Hx & _)%linked_mid).
    rewrite Hx in E |- *. rewrite (pr_size _ _ _ _ _ _ (rd_pre _ _ _ _ _ _ R)).
    destruct (merge_down_spec s b n L0 x L2 A R E) as [Hr Hok]. rewrite u32_small by done.
    cbn [um upd]. pose proof (ready_sep _ _ _ _ _ _ R) as (Hpb & _). rewrite endof_snoc in Hpb.
    rewrite hptr_store32 by auto. eexists _, _. split; [done|]. split; [exact Hok|].
    pose proof (rd_in _ _ _ _ _ _ R) as [_ [Hin _]%Forall_app]%Forall_cons.
    rewrite !Forall_app in Hin. destruct Hin as [[_ Hin] _]. apply Forall_inv in Hin as (Hx1 & _).
    split; [apply Exists_app; right; left; simpl; lia|].
    split; [rewrite !length_app; simpl; lia|]. intros a Ha. symmetry. unfold in_range in Ha.
    do 2 (rewrite load8_store_ne by (unfold in_range; lia)). done.
  - eexists _, _. split; [done|]. split; [apply link_in_spec; [exact R|]|].
    { intros L0 x -> Ex. apply E. unfold p. rewrite endof_snoc.
      destruct (pr_lo _ _ _ _ _ _ (rd_pre _ _ _ _ _ _ R)) as (z & (_ & -> & _)%linked_mid). done. }
    split; [apply Exists_app; right; left; simpl; lia|].
    split; [rewrite length_app; simpl; lia|]. intros a Ha. symmetry. apply load8_store_ne. unfold in_range in *. lia.
Qed.

(** ** [free] *)

Lemma split_at b L : StronglySorted gap L → Forall (λ x : block, x.1 ≠ b ∧ 1 ≤ x.2) L →
  ∃ L1 L2, L = L1 ++ L2 ∧ Forall (λ x : block, x.1 < b) L1 ∧ Forall (λ x : block, b < x.1) L2.
Proof.
  induction 1 as [|x L Hs IH Hx]; intros Hne; [by exists [], []|].
  apply Forall_cons in Hne as [[Hxb Hx1] Hne]. destruct (Z_lt_ge_dec x.1 b) as [Hlt|Hge].
  - destruct (IH Hne) as (L1 & L2 & -> & H1 & H2). exists (x :: L1), L2. split; [done|]. by split; [constructor|].
  - exists [], (x :: L). split; [done|]. split; [done|]. constructor; [lia|].
    eapply Forall_impl; [exact Hx|]. unfold gap, bend, hdr, sizeof_Header. intros y Hy. lia.
Qed.

Lemma heap_ok_placed s L A b n :
  heap_ok s L ((b, n) :: A) → ∃ L1 L2, L = L1 ++ L2 ∧ placed s b n L1 L2 A.
Proof.
  intros Hok. assert (L ++ (b, n) :: A ≡ₚ (b, n) :: L ++ A) as P by (symmetry; apply Permutation_middle).
  pose proof (ok_apart _ _ _ Hok) as Ha. pose proof (ok_in _ _ _ Hok) as Hin. rewrite P in Ha, Hin.
  destruct (split_at b L) as (L1 & L2 & -> & H1 & H2); [apply Hok| |].
  { destruct Ha as [[Ha _]%Forall_app _]. apply Forall_cons in Hin as [Hb [Hin _]%Forall_app].
    rewrite Forall_forall in *. intros x Hx. specialize (Ha x Hx). destruct (Hin x Hx) as (? & _), Hb as (? & _).
    unfold disj, bend, hdr, sizeof_Header in *. simpl in *. lia. }
  pose proof (ok_size _ _ _ Hok) as [Hn HA]%Forall_cons.
  exists L1, L2. split; [done|]. constructor; try done; apply Hok.
Qed.

Lemma owned_endof s b n L1 L2 A a :
  placed s b n L1 L2 A → in_range (endof base L1) 16 a → owned ((b, n) :: L1 ++ L2) a.
Proof.
  intros P Ha. destruct (last L1) as [x|] eqn:E.
  - apply last_Some in E as [L0 ->]. rewrite endof_snoc in Ha.
    pose proof (pl_in _ _ _ _ _ _ P) as [_ Hin]%Forall_cons. rewrite !Forall_app in Hin.
    destruct Hin as [[[_ Hx%Forall_inv] _] _]. right. right. rewrite !Exists_app. left. right. left.
    destruct Hx. unfold in_range, bend, hdr, sizeof_Header in *. lia.
  - apply last_None in E as ->. left. exact Ha.
Qed.

(** [free] of an allocated block puts it back into the free list. *)
Lemma free_spec s L A b n fuel :
  heap_ok s L ((b, n) :: A) → (length L < fuel)%nat →
  wp (free fuel (hdr b 1)) (λ _ s', ∃ L', heap_ok s' L' A ∧ brk s' = brk s ∧ grants s' = grants s
    ∧ Exists (λ x : block, n ≤ x.2) L' ∧ (length L' ≤ S (length L))%nat
    ∧ mem_agree (λ a, ¬ owned ((b, n) :: L) a) (um s) (um s')) s.
Proof.
  intros Hok Hf. destruct (heap_ok_placed _ _ _ _ _ Hok) as (L1 & L2 & -> & P).
  unfold free. replace (hdr (hdr b 1) (-1)) with b by (unfold hdr; lia). wp_steps.
  pose proof (pl_in _ _ _ _ _ _ P) as [Hb Hin]%Forall_cons. apply Forall_app in Hin as [Hin _].
  pose proof image_ok as I.
  destruct (walk (um s) (L1 ++ L2) (freep s) (endof base L1)) as (k & Hk & Ek);
    [apply P|by eapply node_freep|by exists L1, L2|].
  assert (base < b) as Hbb by (destruct Hb as (_ & Hb & _); simpl in Hb; lia).
  eapply wp_intro; [apply (free_search_spec s L1 L2 b fuel k); try apply P; try done; [by eapply node_freep|lia]|].
  unfold get_hptr at 1. wp_steps.
  rewrite (node_next (um s) _ L1 L2 (pl_link _ _ _ _ _ _ P) eq_refl).
  eapply wp_mono; [|by apply join_upper_spec]. intros _ s1 (m1 & -> & Hpre & Hm1). wp_steps.
  destruct (up_geometry (brk s) b n L1 L2 A) as (G1 & G2 & G3 & G4 & G5 & G6); [apply P..|].
  eapply wp_mono; [|apply (join_lower_spec (s <| um := m1 |>) b (up b n L2).1 L1 (up b n L2).2 A); constructor; try done; apply P].
  intros _ s2 (m2 & L' & -> & Hok' & Hex & Hlen & Hm2). wp_steps.
  exists L'. split; [exact Hok'|]. split; [done|]. split; [done|].
  split; [eapply Exists_impl; [exact Hex|]; simpl; intros; lia|].
  split; [rewrite length_app; lia|]. intros a Ha. cbn [um upd] in *. rewrite (Hm1 a), (Hm2 a); [done| |].
  - intros Hc. apply Ha. by eapply owned_endof.
  - intros Hc. apply Ha. right. left. destruct Hb as (Hn & _). unfold in_range, bend, hdr, sizeof_Header in *. simpl in *. lia.
Qed.
End spec.
