(* ===== verification/UmallocThms.v ===== *)
(** * Correctness of [malloc], and safety of the allocator in use

    [malloc] finds a block or reports that the kernel has no memory; for every
    sequence of allocations, releases and stores into live blocks, live blocks
    are disjoint and keep what was stored. *)

From stdpp Require Import sorting.
From S2P Require Import Prelude.
From S2P Require Import Machine.
From S2P Require Import Umalloc.
From S2P Require Import UmallocSpec.
#[local] Open Scope Z_scope.

Section thms.
Context `{UserImage}.

(** ** Taking a block off the list *)

Lemma heap_parts s L1 x L2 A :
  heap_ok s (L1 ++ x :: L2) A →
  (linked (um s) base L1 x.1 ∧ hsize (um s) x.1 = x.2 ∧ linked (um s) x.1 L2 base)
  ∧ in_heap (brk s) x ∧ sep base x.1 ∧ Forall (λ y : block, sep x.1 y.1) (L1 ++ L2 ++ A)
  ∧ apart (x :: L1 ++ L2 ++ A) ∧ Forall (in_heap (brk s)) (x :: L1 ++ L2 ++ A).
Proof.
  intros Hok. assert ((L1 ++ x :: L2) ++ A ≡ₚ x :: L1 ++ L2 ++ A) as P.
  { rewrite <- app_assoc. symmetry. apply Permutation_middle. }
  pose proof (ok_apart _ _ _ Hok) as Ha. pose proof (ok_in _ _ _ Hok) as Hin. rewrite P in Ha, Hin.
  pose proof Hin as [Hx _]%Forall_cons. destruct (ok_brk _ _ _ Hok) as [_ Hbrk].
  split; [by apply linked_mid, Hok|]. split; [done|]. split; [by eapply block_small|].
  split; [by eapply apart_sep|]. done.
Qed.

(** The header before a free block, and the others. *)
Lemma before_sep s L1 x L2 A :
  heap_ok s (L1 ++ x :: L2) A → let p := endof base L1 in
  Forall (λ y : block, sep p y.1) (x :: L2 ++ A) ∧ (p = base ∨ sep p base).
Proof.
  intros Hok. cbv zeta. destruct (ok_brk _ _ _ Hok) as [_ Hbrk]. destruct (last L1) as [y|] eqn:E.
  - apply last_Some in E as [L0 ->]. rewrite endof_snoc. rewrite <- app_assoc in Hok. cbn [app] in Hok.
    destruct (heap_parts _ _ _ _ _ Hok) as (_ & _ & Hb & Hs & _). apply Forall_app in Hs as [_ Hs].
    split; [done|]. right. unfold sep in *. lia.
  - apply last_None in E as ->. destruct (heap_parts _ _ _ _ _ Hok) as (_ & _ & _ & _ & _ & Hin).
    split; [|by left]. eapply Forall_impl; [exact Hin|]. intros y Hy. by eapply block_small.
Qed.

Lemma endof_member L1 L : L1 = [] ∨ endof base L1 ∈ L1.*1 → endof base L1 = base ∨ endof base L1 ∈ (L1 ++ L).*1.
Proof. intros [->|Hm]; [by left|]. right. rewrite fmap_app, elem_of_app. by left. Qed.
Lemma endof_cases L1 : L1 = [] ∨ endof base L1 ∈ L1.*1.
Proof.
  destruct (last L1) as [y|] eqn:E; [|by apply last_None in E; left].
  apply last_Some in E as [L0 ->]. right. rewrite endof_snoc, fmap_app, elem_of_app. right. by left.
Qed.

(** The whole block is taken. *)
Lemma take_whole s L1 x L2 A :
  heap_ok s (L1 ++ x :: L2) A →
  heap_ok (s <| um := store64 (um s) (endof base L1) (hptr (um s) x.1) |> <| freep := endof base L1 |>)
    (L1 ++ L2) (x :: A).
Proof.
  intros Hok. destruct (heap_parts _ _ _ _ _ Hok) as ((Hl1 & Hx & Hl2) & Hxin & Hxb & Hs & Ha & Hin).
  destruct (before_sep _ _ _ _ _ Hok) as [[Hpx [HpL HpA]%Forall_app]%Forall_cons Hp0].
  assert ((L1 ++ L2) ++ x :: A ≡ₚ x :: L1 ++ L2 ++ A) as P.
  { rewrite app_assoc. symmetry. apply Permutation_middle. }
  pose proof (ok_sorted _ _ _ Hok) as (Hc & Hs1 & [Hs2 Hx2]%StronglySorted_inv)%StronglySorted_app.
  assert (hptr (um s) x.1 = startof L2 base) as En by (by apply linked_start).
  pose proof Hin as [_ [Hin1 _]%Forall_app]%Forall_cons. destruct (ok_brk _ _ _ Hok) as [_ Hbrk].
  constructor; cbn [um freep brk upd].
  - apply linked_app. split.
    + rewrite <- En. apply linked_relink with x.1; [apply load64_range| |by eapply sorted_sep|done].
      eapply Forall_impl; [exact Hin1|]. intros y Hy. by eapply block_small.
    + apply (linked_restart _ x.1); [|by apply linked_store64].
      rewrite hptr_store64_eq by apply load64_range. by rewrite hptr_store64_ne.
  - rewrite hsize_store64; [apply Hok|]. destruct Hp0; auto.
  - apply endof_member, endof_cases.
  - apply StronglySorted_app. split; [|done]. intros y z Hy Hz. apply Hc; [done|by right].
  - by rewrite P.
  - by rewrite P.
  - constructor; [by rewrite hsize_store64 by auto|]. pose proof (ok_size _ _ _ Hok) as HA.
    rewrite Forall_forall in *. intros y Hy. rewrite hsize_store64 by auto. auto.
  - apply Hok.
Qed.

(** The upper part of a block is taken. *)
Lemma take_part s L1 x L2 A n :
  heap_ok s (L1 ++ x :: L2) A → 1 ≤ n < x.2 → let q := hdr x.1 (x.2 - n) in
  heap_ok (s <| um := store32 (store32 (um s) (x.1 + 8) (x.2 - n)) (q + 8) n |> <| freep := endof base L1 |>)
    (L1 ++ (x.1, x.2 - n) :: L2) ((q, n) :: A).
Proof.
  intros Hok Hn q. destruct (heap_parts _ _ _ _ _ Hok) as ((Hl1 & Hx & Hl2) & Hxin & Hxb & Hs & Ha & Hin).
  destruct (ok_brk _ _ _ Hok) as [_ Hbrk]. pose proof image_ok as I.
  destruct (block_small _ _ Hxin Hbrk) as (Hx32 & Hx38 & _).
  assert ((L1 ++ (x.1, x.2 - n) :: L2) ++ (q, n) :: A ≡ₚ (x.1, x.2 - n) :: (q, n) :: L1 ++ L2 ++ A) as P.
  { rewrite <- app_assoc. cbn [app]. rewrite <- Permutation_middle. constructor.
    rewrite app_assoc, <- Permutation_middle, app_assoc. done. }
  assert (q = x.1 + 16 * (x.2 - n)) as Eq by done.
  pose proof Ha as [Hd Hap]. pose proof Hin as [_ Hin']%Forall_cons.
  assert (∀ y, y ∈ L1 ++ L2 ++ A → disj (x.1, x.2 - n) y ∧ disj (q, n) y ∧ sep q y.1) as Hall.
  { intros y Hy. rewrite Forall_forall in Hd, Hin'. specialize (Hd y Hy). destruct (Hin' y Hy) as (Hy1 & _).
    unfold disj, bend, hdr, sizeof_Header, sep in *. simpl. lia. }
  assert (sep q x.1 ∧ sep q base) as [Hqx Hqb].
  { destruct Hxin as (_ & Hx1 & _). unfold sep. lia. }
  assert (∀ l, (∀ y, y ∈ l → y ∈ L1 ++ L2 ++ A) → Forall (λ y : block, sep x.1 y.1) l ∧ Forall (λ y : block, sep q y.1) l) as Hsub.
  { intros l Hl. rewrite Forall_forall in Hs. rewrite !Forall_forall. split; intros y Hy; [by apply Hs, Hl|by apply Hall, Hl]. }
  destruct (Hsub L1) as [Hx_1 Hq_1]; [intros y; rewrite !elem_of_app; tauto|]. destruct (Hsub L2) as [Hx_2 Hq_2]; [intros y; rewrite !elem_of_app; tauto|].
  destruct (Hsub A) as [Hx_A Hq_A]; [intros y; rewrite !elem_of_app; tauto|].
  constructor; cbn [um freep brk upd].
  - apply linked_mid. cbn [fst snd]. split; [|split].
    + apply linked_store32; [by right|done|]. apply linked_store32; [right; unfold sep in *; lia|done|done].
    + rewrite hsize_store32_ne by done. apply hsize_store32_eq. lia.
    + apply linked_store32; [by right|done|]. by apply linked_store32; [left| |].
  - rewrite !hsize_store32_ne by (unfold sep in *; lia). apply Hok.
  - apply endof_member, endof_cases.
  - pose proof (ok_sorted _ _ _ Hok) as (Hc & Hs1 & [Hs2 Hx2]%StronglySorted_inv)%StronglySorted_app.
    apply sorted_insert; [done..| | |].
    + apply Forall_forall. intros y Hy. apply (Hc y x Hy). by left.
    + eapply Forall_impl; [exact Hx2|]. unfold gap, bend, hdr, sizeof_Header. simpl. intros. lia.
    + destruct Hxin as (? & ? & ?). unfold in_heap, bend, hdr, sizeof_Header in *. simpl in *. lia.
  - rewrite P. split; [constructor|split; [|done]].
    + unfold disj, bend, hdr, sizeof_Header in *. simpl. lia.
    + apply Forall_forall. intros y Hy. by apply Hall.
    + apply Forall_forall. intros y Hy. by apply Hall.
  - rewrite P. unfold in_heap, bend, hdr, sizeof_Header in Hxin.
    constructor; [|constructor; [|done]]; unfold in_heap, bend, hdr, sizeof_Header; simpl; lia.
  - constructor; [by apply hsize_store32_eq; simpl; lia|]. pose proof (ok_size _ _ _ Hok) as HA.
    rewrite Forall_forall in *. intros y Hy. rewrite !hsize_store32_ne by auto. auto.
  - apply Hok.
Qed.

(** ** The loop of [malloc] *)

(** A free block determines the header that links to it. *)
Lemma predecessor m L L1 x L2 K1 K2 top :
  StronglySorted gap L → Forall (in_heap top) L → linked m base L base →
  L = L1 ++ x :: L2 → L = K1 ++ K2 → hptr m (endof base K1) = x.1 → K1 = L1.
Proof.
  intros Hs Hin Hl E1 E2 Hx. rewrite (node_next m L K1 K2 Hl E2) in Hx. pose proof image_ok as I.
  assert (∀ y, y ∈ L → base < y.1) as Hb.
  { intros y Hy. rewrite Forall_forall in Hin. destruct (Hin y Hy) as (_ & Hy1 & _). lia. }
  destruct K2 as [|y K2]; cbn [startof] in Hx.
  { exfalso. specialize (Hb x). rewrite E1 in Hb. specialize (Hb ltac:(rewrite elem_of_app; right; by left)). lia. }
  assert (∀ l1 l2 (u v : block), L = l1 ++ u :: l2 → v ∈ l2 → u.1 < v.1) as Hlt.
  { intros l1 l2 u v -> Hv. apply StronglySorted_app in Hs as (_ & _ & [_ Hu]%StronglySorted_inv).
    apply Forall_app in Hin as [_ [(Hu1 & _) _]%Forall_cons].
    rewrite Forall_forall in Hu. specialize (Hu v Hv). unfold gap, bend, hdr, sizeof_Header in *. lia. }
  rewrite E1 in E2. destruct (app_eq_inv _ _ _ _ E2) as [([|z k] & A1 & A2)|([|z k] & A1 & A2)].
  - by rewrite A1, app_nil_r.
  - exfalso. injection A2 as <- A2. assert (y.1 < x.1); [|lia]. apply (Hlt K1 (k ++ x :: L2) y x).
    + rewrite E1, A1, <- app_assoc. done.
    + rewrite elem_of_app. right. by left.
  - by rewrite A1, app_nil_r.
  - exfalso. injection A2 as <- A2. assert (x.1 < y.1); [|lia]. apply (Hlt L1 L2 x y E1).
    rewrite A2, elem_of_app. right. by left.
Qed.

(** Bytes after the header of an allocated block. *)
Definition live (A : list block) (a : Z) : Prop := Exists (λ x : block, x.1 + 16 ≤ a < bend x) A.

Lemma live_not_owned s L A a : heap_ok s L A → live A a → a < brk s ∧ ¬ owned L a.
Proof.
  intros Hok (x & Hx & Ha)%Exists_exists. pose proof image_ok as I.
  pose proof (ok_in _ _ _ Hok) as [HinL HinA]%Forall_app. rewrite Forall_forall in HinA.
  destruct (HinA x Hx) as (Hx1 & Hx2 & Hx3). split; [lia|].
  pose proof (ok_apart _ _ _ Hok) as (_ & _ & Hd)%apart_app.
  intros [Hc|(y & Hy & Hc)%Exists_exists]; [lia|]. rewrite Forall_forall in Hd.
  specialize (Hd y Hy). rewrite Forall_forall in Hd. specialize (Hd x Hx). unfold disj in Hd. lia.
Qed.

(** What a successful [malloc] of [n] units leaves: a new allocated block, and
    bytes outside the allocator's as they were. *)
Definition taken (s : uheap) (L A : list block) (n : Z) (r : Z) (s' : uheap) : Prop :=
  ∃ q L', r = hdr q 1 ∧ heap_ok s' L' ((q, n) :: A)
    ∧ mem_agree (live A) (um s) (um s') ∧ brk s ≤ brk s'.

(** The walk is at [p], behind [prevp]. *)
Definition walking (s : uheap) (L : list block) (prevp p : Z) : Prop := node L prevp ∧ hptr (um s) prevp = p.

Lemma walking_next s L A prevp p : heap_ok s L A → walking s L prevp p → walking s L p (hptr (um s) p).
Proof. intros Hok [Hn <-]. split; [|done]. apply node_step; [apply Hok|done]. Qed.

Lemma owned_block L1 x L2 a : x.1 ≤ a < bend x → owned (L1 ++ x :: L2) a.
Proof. intros Ha. right. apply Exists_app. right. by left. Qed.

(** A large enough block is taken. *)
Lemma malloc_take fuel n s L A prevp p :
  heap_ok s L A → walking s L prevp p → 1 ≤ n → n ≤ hsize (um s) p →
  wp (malloc_body fuel n (prevp, p)) (λ r s', ∃ v, r = inr v ∧ taken s L A n v s') s.
Proof.
  intros Hok [(K1 & K2 & EK & ->) Hp] Hn1 Hn. pose proof Hok as [Hl H0 _ Hs _ Hin _ [_ Hbrk]].
  assert (node L p) as (M1 & M2 & EM & Ep) by (rewrite <- Hp; apply node_step; [done|by exists K1, K2]).
  apply Forall_app in Hin as [Hin _].
  destruct (last M1) as [x|] eqn:Ex; [|apply last_None in Ex as ->; unfold endof in Ep; simpl in Ep; rewrite Ep in Hn; lia].
  apply last_Some in Ex as [L1 ->]. rewrite endof_snoc in Ep. rewrite <- app_assoc in EM. cbn [app] in EM.
  assert (K1 = L1) as -> by (eapply predecessor; [exact Hs|exact Hin|exact Hl|exact EM|exact EK|congruence]).
  clear EK K2 Hp. subst p. subst L. destruct (heap_parts _ _ _ _ _ Hok) as ((_ & Hx & _) & Hxin & _).
  destruct (block_small _ _ Hxin Hbrk) as (Hx32 & _).
  unfold malloc_body, get_hsize, get_hptr, set_hptr, set_hsize. wp_steps. rewrite Hx in *.
  rewrite (proj2 (Z.leb_le n x.2)) by done. destruct (Z.eqb_spec x.2 n) as [E|E]; wp_steps.
  - eexists. split; [done|]. exists x.1, (L1 ++ M2). split; [done|]. split.
    { rewrite <- E, <- (surjective_pairing x). by apply take_whole. }
    split; [|cbn; lia]. intros a Hlv. destruct (live_not_owned _ _ _ _ Hok Hlv) as [_ Ha]. symmetry. cbn [um upd]. apply load8_store_ne. intros Hc. apply Ha.
    destruct (last L1) as [y|] eqn:Ey.
    + apply last_Some in Ey as [L0 ->]. rewrite endof_snoc in Hc. rewrite <- app_assoc. apply owned_block.
      rewrite <- !app_assoc in Hin. apply Forall_app in Hin as [_ [(Hy & _) _]%Forall_cons].
      unfold in_range, bend, hdr, sizeof_Header in *. lia.
    + apply last_None in Ey as ->. left. unfold in_range, endof in Hc. simpl in Hc. lia.
  - cbn [um upd]. rewrite u32_small, hsize_store32_eq by lia. eexists. split; [done|].
    exists (hdr x.1 (x.2 - n)), (L1 ++ (x.1, x.2 - n) :: M2). split; [done|].
    split; [exact (take_part s L1 x M2 A n Hok ltac:(lia))|]. split; [|cbn; lia]. intros a Hlv. destruct (live_not_owned _ _ _ _ Hok Hlv) as [_ Ha]. symmetry. cbn [um upd].
    assert (¬ (x.1 ≤ a < bend x)) as Hna by (intros Hc; by apply Ha, owned_block).
    unfold bend, hdr, sizeof_Header in Hna. rewrite !load8_store_ne; [done|unfold in_range, hdr, sizeof_Header; lia..].
Qed.

(** A small block is passed. *)
Lemma malloc_pass fuel n s prevp p :
  hsize (um s) p < n → p ≠ freep s → malloc_body fuel n (prevp, p) s = Ret (inl (p, hptr (um s) p)) s.
Proof.
  intros Hn Hp. unfold malloc_body, get_hsize, get_hptr, gets, bind, ret.
  rewrite (proj2 (Z.leb_gt n (hsize (um s) p))) by done. by rewrite (proj2 (Z.eqb_neq p (freep s))).
Qed.

Lemma node_large s L A x n : heap_ok s L A → x ∈ L → n ≤ x.2 → n ≤ hsize (um s) x.1.
Proof.
  intros Hok (L1 & L2 & ->)%list_elem_of_split Hn. by destruct (heap_parts _ _ _ _ _ Hok) as ((_ & -> & _) & _).
Qed.

(** With a large block [k] links ahead, before the walk comes back to
    [freep], the loop takes a block. *)
Lemma malloc_finds mfuel n L A t fuel : ∀ s k prevp p,
  heap_ok s L A → walking s L prevp p → 1 ≤ n → n ≤ hsize (um s) t →
  Nat.iter k (hptr (um s)) p = t → (∀ j, (j < k)%nat → Nat.iter j (hptr (um s)) p ≠ freep s) → (k < fuel)%nat →
  wp (loop fuel (malloc_body mfuel n) (prevp, p)) (taken s L A n) s.
Proof.
  induction fuel as [|fuel IH]; intros s k prevp p Hok Hw Hn1 Ht Hk Hfree Hf; [lia|].
  cbn [loop]. apply wp_bind. destruct (Z_le_gt_dec n (hsize (um s) p)) as [Hle|Hgt].
  - eapply wp_mono; [|by apply (malloc_take mfuel n s L A prevp p)]. intros r s' (v & -> & Hv). by apply wp_ret.
  - destruct k as [|k]; [simpl in Hk; subst; lia|].
    eapply wp_intro; [apply malloc_pass; [lia|by apply (Hfree 0%nat); lia]|].
    rewrite Nat.iter_succ_r in Hk. apply (IH s k); try done; [by eapply walking_next| |lia].
    intros j Hj. specialize (Hfree (S j) ltac:(lia)). by rewrite Nat.iter_succ_r in Hfree.
Qed.

(** The least number of steps with a property. *)
Lemma least (P : nat → Prop) `{∀ k, Decision (P k)} k :
  P k → ∃ k', (k' ≤ k)%nat ∧ P k' ∧ ∀ j, (j < k')%nat → ¬ P j.
Proof.
  induction k as [k IH] using lt_wf_ind. intros Hk.
  destruct (decide (Exists P (seq 0 k))) as [(j & Hj & HPj)%Exists_exists|Hno].
  - apply elem_of_seq in Hj. destruct (IH j ltac:(lia) HPj) as (k' & ? & ?). exists k'. split; [lia|done].
  - exists k. split; [done|]. split; [done|]. intros j Hj HP. apply Hno, Exists_exists. exists j.
    split; [apply elem_of_seq; lia|done].
Qed.

(** From [freep] the walk meets a large block before it comes back. *)
Lemma malloc_after_growth mfuel n L A s fuel :
  heap_ok s L A → Exists (λ x : block, n ≤ x.2) L → 1 ≤ n → (length L < fuel)%nat →
  wp (loop fuel (malloc_body mfuel n) (freep s, hptr (um s) (freep s))) (taken s L A n) s.
Proof.
  intros Hok (x & Hx & Hnx)%Exists_exists Hn Hf. pose proof (node_freep _ _ _ Hok) as Hfp.
  set (p := hptr (um s) (freep s)). assert (node L p) as Hp by (apply node_step; [apply Hok|done]).
  destruct (walk (um s) L p x.1) as (k0 & Hk0 & Ek0); [apply Hok|done|by apply node_block, list_elem_of_fmap; eauto|].
  destruct (least (λ k, Nat.iter k (hptr (um s)) p = x.1) k0 Ek0) as (k & Hk & Ek & Hleast).
  apply (malloc_finds mfuel n L A x.1 fuel s k); try done; [by eapply node_large| |lia].
  intros j Hj Ej. apply (Hleast (k - S j)%nat); [lia|].
  assert (Nat.iter (S j) (hptr (um s)) p = p) as Er by (by rewrite Nat.iter_succ, Ej).
  rewrite <- Er at 1. rewrite <- Nat.iter_add. by replace (k - S j + S j)%nat with k by lia.
Qed.

(** ** [morecore] *)

(** New memory at the end of the heap, as an allocated block. *)
Lemma grown_heap s L A nu g :
  heap_ok s L A → 1 ≤ nu → brk s + 16 * nu ≤ heap_max →
  heap_ok (mk_uheap (store32 (um s) (brk s + 8) nu) (freep s) (brk s + 16 * nu) g) L ((brk s, nu) :: A).
Proof.
  intros Hok Hnu Hmax. pose proof Hok as [Hl H0 Hfp Hs Ha Hin HA [Hbrk0 Hbrk]]. pose proof image_ok as I.
  assert (L ++ (brk s, nu) :: A ≡ₚ (brk s, nu) :: L ++ A) as P by (symmetry; apply Permutation_middle).
  assert (∀ x, x ∈ L ++ A → sep (brk s) x.1 ∧ disj (brk s, nu) x ∧ in_heap (brk s + 16 * nu) x) as Hall.
  { intros x Hx. rewrite Forall_forall in Hin. destruct (Hin x Hx) as (? & ? & ?).
    unfold sep, disj, in_heap, bend, hdr, sizeof_Header in *. simpl. lia. }
  assert (Forall (λ x : block, sep (brk s) x.1) L ∧ Forall (λ x : block, sep (brk s) x.1) A) as [HsL HsA].
  { rewrite !Forall_forall. split; intros x Hx; apply Hall, elem_of_app; auto. }
  assert (sep (brk s) base) as Hb by (unfold sep; lia).
  constructor; cbn [um freep brk]; try done.
  - apply linked_store32; [by right|done|done].
  - by rewrite hsize_store32_ne.
  - rewrite P. split; [|done]. apply Forall_forall. intros x Hx. by apply Hall.
  - rewrite P. constructor; [unfold in_heap, bend, hdr, sizeof_Header; simpl; lia|].
    apply Forall_forall. intros x Hx. by apply Hall.
  - constructor; [apply hsize_store32_eq; simpl; lia|]. rewrite Forall_forall in *. intros x Hx.
    rewrite hsize_store32_ne by auto. auto.
  - lia.
Qed.

Lemma morecore_spec fuel n s L A :
  heap_ok s L A → 1 ≤ n → 16 * n < 2 ^ 31 → (length L < fuel)%nat →
  wp (morecore fuel n) (λ r s',
    (r = 0 ∧ s' = s <| grants := tail (grants s) |>)
    ∨ (r = freep s' ∧ r ≠ 0 ∧ ∃ L', heap_ok s' L' A ∧ Exists (λ x : block, n ≤ x.2) L' ∧ (length L' ≤ S (length L))%nat
       ∧ mem_agree (live A) (um s) (um s') ∧ brk s ≤ brk s')) s.
Proof.
  intros Hok Hn Hn31 Hf. pose proof image_ok as I. destruct (ok_brk _ _ _ Hok) as [Hbrk0 Hbrk].
  unfold morecore. set (nu := if n <? 4096 then 4096 else n).
  assert (n ≤ nu ∧ 16 * nu < 2 ^ 31 ∧ 1 ≤ nu) as (Hnu & Hnu31 & Hnu1) by (unfold nu; destruct (Z.ltb_spec n 4096); lia).
  rewrite s32_small by (unfold sizeof_Header; lia). replace (nu * sizeof_Header) with (16 * nu) by (unfold sizeof_Header; lia).
  apply wp_bind. unfold sbrk, wp at 1. cbv zeta. rewrite (proj2 (Z.ltb_lt 0 (16 * nu))) by lia.
  destruct (_ && _) eqn:Eg.
  2: { rewrite Z.eqb_refl. apply wp_ret. by left. }
  apply andb_true_iff in Eg as [_ Hmax%Z.leb_le].
  destruct (Z.eqb_spec (brk s) (u64 (-1))) as [E|_]; [change (u64 (-1)) with (2 ^ 64 - 1) in E; lia|].
  unfold set_hsize. wp_steps.
  eapply wp_mono; [|apply (free_spec _ L A (brk s) nu); [apply (grown_heap s L A nu (tail (grants s))); try done|done]].
  intros _ s' (L' & Hok' & Eb & _ & Hex & Hlen & Hm). cbn [brk um upd] in *. wp_steps. right. split; [done|].
  split.
  { destruct (ok_freep _ _ _ Hok') as [->|(x & -> & Hx)%list_elem_of_fmap]; [lia|].
    pose proof (ok_in _ _ _ Hok') as Hin. rewrite Forall_forall in Hin.
    destruct (Hin x ltac:(rewrite elem_of_app; by left)) as (_ & ? & _). lia. }
  exists L'. split; [done|]. split; [eapply Exists_impl; [exact Hex|]; simpl; intros; lia|]. split; [done|].
  split; [|lia]. intros a Hlv. destruct (live_not_owned _ _ _ _ Hok Hlv) as [Ha Hno]. rewrite <- (Hm a).
  - symmetry. apply load8_store_ne. unfold in_range. lia.
  - intros [Hc|[Hc|Hc]%Exists_cons]; [by apply Hno; left| |by apply Hno; right]. simpl in Hc. lia.
Qed.

(** ** [malloc] *)

(** The first loop round trip, growing the heap when it is back at [freep]. *)
Lemma malloc_loop_spec mfuel n L A fuel : ∀ s k prevp p,
  heap_ok s L A → walking s L prevp p → 1 ≤ n → 16 * n < 2 ^ 31 → (length L < mfuel)%nat →
  Nat.iter k (hptr (um s)) p = freep s → (k + length L + 2 < fuel)%nat →
  wp (loop fuel (malloc_body mfuel n) (prevp, p))
    (λ r s', taken s L A n r s' ∨ (r = 0 ∧ s' = s <| grants := tail (grants s) |>)) s.
Proof.
  induction fuel as [|fuel IH]; intros s k prevp p Hok Hw Hn1 Hn31 Hm Hk Hf; [lia|].
  cbn [loop]. apply wp_bind. destruct (Z_le_gt_dec n (hsize (um s) p)) as [Hle|Hgt].
  { eapply wp_mono; [|by apply (malloc_take mfuel n s L A prevp p)]. intros r s' (v & -> & Hv). apply wp_ret. by left. }
  destruct (decide (p = freep s)) as [->|Hne].
  - unfold malloc_body, get_hsize, get_hptr. wp_steps. rewrite (proj2 (Z.leb_gt n (hsize (um s) (freep s)))) by lia.
    wp_steps. rewrite Z.eqb_refl. wp_steps. eapply wp_mono; [|by apply (morecore_spec mfuel n s L A)].
    intros r s1 [(-> & ->)|(-> & Hr & L' & Hok' & Hex & Hlen & Hag & Hb)].
    + rewrite Z.eqb_refl. repeat apply wp_ret. by right.
    + rewrite (proj2 (Z.eqb_neq (freep s1) 0)) by done. wp_steps.
      eapply wp_mono; [|apply (malloc_after_growth mfuel n L' A s1); [done|done|done|lia]].
      intros r s2 (q & L2 & -> & Hok2 & Hag2 & Hb2). left. exists q, L2. split; [done|]. split; [done|].
      split; [|lia]. by transitivity (um s1).
  - eapply wp_intro; [apply malloc_pass; [lia|done]|].
    destruct k as [|k]; [done|]. rewrite Nat.iter_succ_r in Hk.
    apply (IH s k); try done; [by eapply walking_next|lia].
Qed.

(** The free list has at most one block per unit of the heap. *)
Lemma sorted_length L lo top :
  StronglySorted gap L → Forall (λ x, in_heap top x ∧ lo ≤ x.1) L → lo ≤ top → lo + 16 * Z.of_nat (length L) ≤ top.
Proof.
  intros Hs. revert lo. induction Hs as [|x L Hs IH Hx]; intros lo Hin Hlo; [simpl; lia|].
  apply Forall_cons in Hin as [[(Hx1 & Hx2 & Hx3) Hxlo] Hin]. unfold bend, hdr, sizeof_Header in Hx3.
  enough (bend x + 16 * Z.of_nat (length L) ≤ top) by (unfold bend, hdr, sizeof_Header in *; cbn [length]; lia).
  apply IH; [|unfold bend, hdr, sizeof_Header; lia].
  rewrite Forall_forall in *. intros y Hy. destruct (Hin y Hy). specialize (Hx y Hy). unfold gap in Hx. split; [done|lia].
Qed.

Lemma heap_length s L A : heap_ok s L A → heap_start + 16 * Z.of_nat (length L) ≤ heap_max.
Proof.
  intros Hok. destruct (ok_brk _ _ _ Hok). pose proof (ok_in _ _ _ Hok) as [Hin _]%Forall_app.
  pose proof (sorted_length L heap_start (brk s) (ok_sorted _ _ _ Hok)) as Hlen.
  enough (heap_start + 16 * Z.of_nat (length L) ≤ brk s) by lia. apply Hlen; [|lia].
  eapply Forall_impl; [exact Hin|]. intros x Hx. split; [done|]. by destruct Hx as (_ & ? & _).
Qed.

(** Fuel for the loops: twice round the longest list. *)
Definition enough_fuel (fuel : nat) : Prop := (heap_max - heap_start) / 8 + 4 < Z.of_nat fuel.

Lemma enough_length s L A fuel : enough_fuel fuel → heap_ok s L A → (2 * length L + 4 ≤ fuel)%nat.
Proof. intros Hf Hok. apply heap_length in Hok. unfold enough_fuel in Hf. dlia. Qed.

(** Before the first call, or with a free list in memory. *)
Definition heap_inv (s : uheap) (A : list block) : Prop :=
  (freep s = 0 ∧ A = [] ∧ heap_start ≤ brk s ≤ heap_max) ∨ ∃ L, heap_ok s L A.

Lemma nunits_bounds nbytes : 0 ≤ nbytes < 2 ^ 31 - 64 →
  1 ≤ nunits_of nbytes ∧ nbytes ≤ 16 * (nunits_of nbytes - 1) ∧ 16 * nunits_of nbytes < 2 ^ 31.
Proof. intros Hn. unfold nunits_of, sizeof_Header. rewrite u32_small by dlia. dlia. Qed.

Lemma heap_init s :
  heap_start ≤ brk s ≤ heap_max →
  heap_ok (s <| um := store32 (store64 (um s) base base) (base + 8) 0 |> <| freep := base |>) [] [].
Proof.
  intros Hb. pose proof image_ok as I. constructor; cbn [um freep brk upd]; try done; try (by constructor); try (by left).
  - simpl. rewrite hptr_store32 by auto. apply hptr_store64_eq. lia.
  - by apply hsize_store32_eq.
Qed.

Lemma malloc_heap s L A fuel nbytes :
  heap_ok s L A → 0 ≤ nbytes < 2 ^ 31 - 64 → enough_fuel fuel →
  wp (let! p := get_hptr (freep s) in loop fuel (malloc_body fuel (nunits_of nbytes)) (freep s, p))
    (λ r s', taken s L A (nunits_of nbytes) r s' ∨ (r = 0 ∧ s' = s <| grants := tail (grants s) |>)) s.
Proof.
  intros Hok Hn Hf. pose proof (enough_length _ _ _ _ Hf Hok) as Hlen. destruct (nunits_bounds _ Hn) as (H1 & _ & H3).
  unfold get_hptr. wp_steps. pose proof (node_freep _ _ _ Hok) as Hfp.
  destruct (walk (um s) L (hptr (um s) (freep s)) (freep s)) as (k & Hk & Ek);
    [apply Hok|by apply node_step; [apply Hok|]|done|].
  apply (malloc_loop_spec fuel _ L A fuel s k); try done; lia.
Qed.

Lemma malloc_spec s A fuel nbytes :
  heap_inv s A → 0 ≤ nbytes < 2 ^ 31 - 64 → enough_fuel fuel →
  wp (malloc fuel nbytes) (λ r s', mem_agree (live A) (um s) (um s') ∧
    ((r = 0 ∧ heap_inv s' A) ∨ (r ≠ 0 ∧ heap_inv s' ((hdr r (-1), nunits_of nbytes) :: A)))) s.
Proof.
  intros Hinv Hn Hf. pose proof image_ok as I.
  assert (∀ s0 L, heap_ok s0 L A →
    wp (let! p := get_hptr (freep s0) in loop fuel (malloc_body fuel (nunits_of nbytes)) (freep s0, p))
      (λ r s', mem_agree (live A) (um s0) (um s') ∧
        ((r = 0 ∧ heap_inv s' A) ∨ (r ≠ 0 ∧ heap_inv s' ((hdr r (-1), nunits_of nbytes) :: A)))) s0) as Hgo.
  { intros s0 L Hok. eapply wp_mono; [|by apply malloc_heap].
    intros r s' [(q & L' & -> & Hok' & Hag & _)|(-> & ->)].
    - split; [done|]. right. split.
      + pose proof (ok_in _ _ _ Hok') as [_ [(_ & Hq & _) _]%Forall_cons]%Forall_app.
        simpl in Hq. unfold hdr, sizeof_Header. lia.
      + right. exists L'. by replace (hdr (hdr q 1) (-1)) with q by (unfold hdr; lia).
    - split; [done|]. left. split; [done|]. right. exists L. by destruct Hok. }
  unfold malloc. cbv zeta. apply wp_bind, wp_gets. destruct Hinv as [(E & -> & Hb)|(L & Hok)].
  - rewrite E, Z.eqb_refl. unfold set_hptr, set_hsize. wp_steps. cbn [upd um].
    pose proof (Hgo _ _ (heap_init s Hb)) as Hi.
    eapply wp_mono in Hi; [exact Hi|]. intros r s' [_ Hr]. split; [|done]. intros a Ha. by apply Exists_nil in Ha.
  - assert (freep s ≠ 0) as Hne.
    { destruct (ok_freep _ _ _ Hok) as [->|(x & -> & Hx)%list_elem_of_fmap]; [lia|].
      pose proof (ok_in _ _ _ Hok) as [Hin _]%Forall_app. rewrite Forall_forall in Hin. destruct (Hin x Hx) as (_ & ? & _). lia. }
    rewrite (proj2 (Z.eqb_neq (freep s) 0)) by done. apply wp_bind, wp_ret. by eapply Hgo.
Qed.

(** ** The allocator in use *)

Lemma heap_inv_perm s A A' : A ≡ₚ A' → heap_inv s A → heap_inv s A'.
Proof.
  intros P [(E & -> & Hb)|(L & [])]; [left|right].
  - by apply Permutation_nil in P as ->.
  - exists L. constructor; try done; by rewrite <- P.
Qed.

Lemma live_cons x A a : live A a → live (x :: A) a.
Proof. by right. Qed.

Lemma free_live s x A fuel :
  heap_inv s (x :: A) → enough_fuel fuel →
  wp (free fuel (hdr x.1 1)) (λ _ s', heap_inv s' A ∧ mem_agree (live A) (um s) (um s')) s.
Proof.
  intros [(_ & [=] & _)|(L & Hok)] Hf. pose proof (enough_length _ _ _ _ Hf Hok) as Hlen. destruct x as [b n].
  eapply wp_mono; [|apply (free_spec s L A b n fuel); [done|lia]].
  intros _ s' (L' & Hok' & _ & _ & _ & _ & Hag). split; [right; by exists L'|].
  intros a Ha. apply Hag. intros Hc.
  destruct (live_not_owned _ _ _ _ Hok (live_cons _ _ _ Ha)) as [_ Hno].
  destruct Hc as [Hc|[Hc|Hc]%Exists_cons]; [by apply Hno; left| |by apply Hno; right].
  pose proof (ok_apart _ _ _ Hok) as (_ & [Hd _] & _)%apart_app. apply Exists_exists in Ha as (y & Hy & Hya).
  rewrite Forall_forall in Hd. specialize (Hd y Hy). unfold disj in Hd. lia.
Qed.

(** A program's view: the pointers it holds with the sizes it asked for, and
    the bytes it has stored. *)
Record use := mk_use { u_heap : uheap; u_ptrs : list (Z * Z); u_data : gmap Z Z }.

Definition block_of (pn : Z * Z) : block := (hdr pn.1 (-1), nunits_of pn.2).
Definition within (pn : Z * Z) (a : Z) : Prop := pn.1 ≤ a < pn.1 + pn.2.

Inductive ustep (fuel : nat) : use → use → Prop :=
| u_malloc h ps d nbytes p h' :
    0 ≤ nbytes < 2 ^ 31 - 64 → malloc fuel nbytes h = Ret p h' → p ≠ 0 →
    ustep fuel (mk_use h ps d) (mk_use h' ((p, nbytes) :: ps) d)
| u_malloc_null h ps d nbytes h' :
    0 ≤ nbytes < 2 ^ 31 - 64 → malloc fuel nbytes h = Ret 0 h' →
    ustep fuel (mk_use h ps d) (mk_use h' ps d)
| u_free h ps1 pn ps2 d h' :
    free fuel pn.1 h = Ret tt h' →
    ustep fuel (mk_use h (ps1 ++ pn :: ps2) d)
      (mk_use h' (ps1 ++ ps2) (filter (λ kv, ¬ within pn kv.1) d))
| u_store h ps d a v :
    Exists (λ pn, within pn a) ps →
    ustep fuel (mk_use h ps d) (mk_use (h <| um := store8 (um h) a v |>) ps (<[a := u8 v]> d)).

(** What holds throughout. *)
Record use_ok (u : use) : Prop := {
  uo_heap : heap_inv (u_heap u) (map block_of (u_ptrs u));
  uo_sizes : Forall (λ pn : Z * Z, 0 ≤ pn.2 < 2 ^ 31 - 64) (u_ptrs u);
  uo_live : ∀ a v, u_data u !! a = Some v → Exists (λ pn, within pn a) (u_ptrs u);
  uo_data : ∀ a v, u_data u !! a = Some v → load8 (um (u_heap u)) a = v
}.

Lemma within_live ps a :
  Forall (λ pn : Z * Z, 0 ≤ pn.2 < 2 ^ 31 - 64) ps → Exists (λ pn, within pn a) ps → live (map block_of ps) a.
Proof.
  intros Hs (pn & Hpn & Ha)%Exists_exists. rewrite Forall_forall in Hs.
  destruct (nunits_bounds _ (Hs pn Hpn)) as (_ & H2 & _). apply Exists_exists. exists (block_of pn).
  split; [apply list_elem_of_fmap; eauto|]. unfold within, block_of, bend, hdr, sizeof_Header in *. simpl. lia.
Qed.

(** A store into a live block does not reach the allocator's headers. *)
Lemma store_live s A a v : heap_inv s A → live A a → heap_inv (s <| um := store8 (um s) a v |>) A.
Proof.
  intros [(_ & -> & _)|(L & Hok)] Ha; [by apply Exists_nil in Ha|]. right. exists L.
  pose proof Hok as [Hl H0 Hfp Hs Hap Hin HA Hb]. destruct (live_not_owned _ _ _ _ Hok Ha) as [Hbrk Hno].
  pose proof Ha as (w & Hw & Haw)%Exists_exists.
  assert (∀ x, (x = base ∨ x ∈ (L ++ A).*1) → a < x ∨ x + 16 ≤ a) as Hout.
  { intros x Hx. destruct (Z_lt_le_dec a x) as [|Hge]; [by left|]. right.
    destruct (Z_lt_le_dec a (x + 16)) as [Hlt|]; [|done]. exfalso.
    destruct Hx as [->|(y & -> & Hy)%list_elem_of_fmap]; [apply Hno; left; lia|].
    rewrite Forall_forall in Hin. destruct (Hin y Hy) as (Hy1 & _).
    apply elem_of_app in Hy as [Hy|Hy].
    - apply Hno. right. apply Exists_exists. exists y. split; [done|]. unfold bend, hdr, sizeof_Header. lia.
    - apply apart_app in Hap as (_ & HapA & _).
      assert (∀ l, apart l → ∀ u z, u ∈ l → z ∈ l → u = z ∨ disj u z) as Hd.
      { clear. induction l as [|c l IH]; intros Hl u z Hu Hz; [by apply not_elem_of_nil in Hu|].
        destruct Hl as [Hc Hl]. rewrite Forall_forall in Hc.
        apply elem_of_cons in Hu as [->|Hu]; apply elem_of_cons in Hz as [->|Hz]; auto using disj_sym. }
      destruct (Hd A HapA y w Hy Hw) as [->|Hd'].
      + lia.
      + unfold disj, bend, hdr, sizeof_Header in *. lia. }
  assert (∀ x, (x = base ∨ x ∈ (L ++ A).*1) → hptr (store8 (um s) a v) x = hptr (um s) x ∧ hsize (store8 (um s) a v) x = hsize (um s) x) as Hhdr.
  { intros x Hx. specialize (Hout x Hx). split; apply load_agree; intros z Hz; apply load8_store8_ne; unfold in_range in Hz; lia. }
  constructor; cbn [um freep brk upd]; try done.
  - eapply linked_frame; [..|exact Hl]; intros x Hx; apply Hhdr; rewrite fmap_app, elem_of_app; tauto.
  - destruct (Hhdr base (or_introl eq_refl)) as [_ ->]. done.
  - rewrite Forall_forall in *. intros x Hx. destruct (Hhdr x.1) as [_ ->]; [|auto].
    right. apply list_elem_of_fmap. exists x. split; [done|]. apply elem_of_app. by right.
Qed.

Lemma block_of_hdr pn : hdr (block_of pn).1 1 = pn.1.
Proof. unfold block_of, hdr. simpl. lia. Qed.

Lemma use_free u ps1 pn ps2 fuel :
  use_ok u → u_ptrs u = ps1 ++ pn :: ps2 → enough_fuel fuel →
  wp (free fuel pn.1) (λ _ h', heap_inv h' (map block_of (ps1 ++ ps2))
    ∧ mem_agree (live (map block_of (ps1 ++ ps2))) (um (u_heap u)) (um h')) (u_heap u).
Proof.
  intros [Hh _ _ _] E Hf. rewrite E in Hh. rewrite <- (block_of_hdr pn). apply free_live; [|done].
  eapply heap_inv_perm; [|exact Hh]. rewrite !map_app. cbn [map]. symmetry. apply Permutation_middle.
Qed.

Lemma ustep_ok fuel u u' : enough_fuel fuel → ustep fuel u u' → use_ok u → use_ok u'.
Proof.
  intros Hf Hst. destruct Hst as [h ps d n p h' Hn E Hp|h ps d n h' Hn E|h ps1 pn ps2 d h' E|h ps d a v Ha];
    intros Hu; pose proof Hu as [Hh Hs Hl Hd]; cbn [u_heap u_ptrs u_data] in *.
  - pose proof (malloc_spec h _ fuel n Hh Hn Hf) as Hm. unfold wp in Hm. rewrite E in Hm.
    destruct Hm as [Hag [[-> _]|[_ Hm]]]; [done|]. constructor; cbn; [done|by constructor| |].
    + intros a v Ha. right. eauto.
    + intros a v Ha. rewrite <- (Hag a); [eauto|]. eapply within_live; eauto.
  - pose proof (malloc_spec h _ fuel n Hh Hn Hf) as Hm. unfold wp in Hm. rewrite E in Hm.
    destruct Hm as [Hag [[_ Hm]|[Hc _]]]; [|done]. constructor; cbn; [done|done|done|].
    intros a v Ha. rewrite <- (Hag a); [eauto|]. eapply within_live; eauto.
  - pose proof (use_free _ _ _ _ _ Hu eq_refl Hf) as Hm. unfold wp in Hm. cbn [u_heap] in Hm. rewrite E in Hm.
    destruct Hm as [Hm Hag]. apply Forall_app in Hs as [Hs1 [_ Hs2]%Forall_cons].
    assert (∀ a v, filter (λ kv, ¬ within pn kv.1) d !! a = Some v → d !! a = Some v ∧ Exists (λ pn, within pn a) (ps1 ++ ps2)) as Hf'.
    { intros a v [Ha Hw]%map_lookup_filter_Some. split; [done|]. specialize (Hl a v Ha).
      apply Exists_app in Hl as [Hl|[Hl|Hl]%Exists_cons]; [apply Exists_app; by left|done|apply Exists_app; by right]. }
    constructor; cbn; [done|by apply Forall_app| |]; intros a v [Ha Hx]%Hf'; [done|].
    rewrite <- (Hag a); [by apply Hd|]. apply within_live; [by apply Forall_app|done].
  - assert (live (map block_of ps) a) as Hlive by (by apply within_live).
    constructor; cbn; [by apply store_live|done| |]; intros a' v'.
    + destruct (decide (a' = a)) as [->|Hne]; [done|]. rewrite lookup_insert_ne by done. apply Hl.
    + destruct (decide (a' = a)) as [->|Hne].
      * rewrite lookup_insert_eq. intros [= <-]. apply load8_store8_eq.
      * rewrite lookup_insert_ne, load8_store8_ne by done. apply Hd.
Qed.

Lemma apart_lookup l (i j : nat) x y : apart l → l !! i = Some x → l !! j = Some y → i ≠ j → disj x y.
Proof.
  revert i j. induction l as [|z l IH]; intros i j Hl Hi Hj Hij; [done|].
  destruct Hl as [Hz Ha]. rewrite Forall_forall in Hz.
  destruct i as [|i], j as [|j]; simpl in *; simplify_eq; try done.
  - by apply Hz, list_elem_of_lookup_2 with j.
  - by apply disj_sym, Hz, list_elem_of_lookup_2 with i.
  - apply (IH i j); auto.
Qed.

Lemma heap_inv_blocks s A : heap_inv s A → apart A ∧ Forall (in_heap (brk s)) A.
Proof.
  intros [(_ & -> & _)|(L & Hok)]; [by repeat constructor|].
  pose proof (ok_apart _ _ _ Hok) as (_ & Ha & _)%apart_app. by pose proof (ok_in _ _ _ Hok) as [_ Hi]%Forall_app.
Qed.

(** C21: The user allocator is safe for every sequence of [malloc]s of fewer
    than 2^31 - 64 bytes each, [free]s of pointers the program holds and stores
    into the memory it was given: the regions it holds lie in the heap and never
    overlap, every byte stored in one is still there, [malloc] and [free] never
    touch them, and both always return. The bound on the sizes is needed:
    larger requests wrap in the [int] that is passed to [sbrk]
    ([malloc_huge_not_refused]). *)
Theorem malloc_safe fuel h u :
  enough_fuel fuel → freep h = 0 → heap_start ≤ brk h ≤ heap_max →
  rtc (ustep fuel) (mk_use h [] ∅) u →
  (∀ i j p q, i ≠ j → u_ptrs u !! i = Some p → u_ptrs u !! j = Some q → p.1 + p.2 ≤ q.1 ∨ q.1 + q.2 ≤ p.1)
  ∧ Forall (λ p, heap_start < p.1 ∧ p.1 + p.2 ≤ brk (u_heap u)) (u_ptrs u)
  ∧ (∀ a v, u_data u !! a = Some v → load8 (um (u_heap u)) a = v)
  ∧ (∀ n, 0 ≤ n < 2 ^ 31 - 64 → ∃ r h', malloc fuel n (u_heap u) = Ret r h')
  ∧ (∀ p, p ∈ u_ptrs u → ∃ h', free fuel p.1 (u_heap u) = Ret tt h').
Proof.
  intros Hf H0 Hb Hr.
  assert (use_ok u) as Hu.
  { apply (rtc_ind_r (λ u, use_ok u) (mk_use h [] ∅)) in Hr; [done|..].
    - constructor; cbn; [by left|done|intros a v Ha; by rewrite lookup_empty in Ha..].
    - intros u1 u2 _ Hst Hok. by eapply ustep_ok. }
  pose proof Hu as [Hh Hs Hl Hd]. destruct (heap_inv_blocks _ _ Hh) as [Ha Hi].
  assert (∀ p, p ∈ u_ptrs u → p.2 ≤ 16 * (nunits_of p.2 - 1)) as Hn.
  { intros p Hp. rewrite Forall_forall in Hs. by apply nunits_bounds, Hs. }
  split; [|split; [|split; [done|split]]].
  - intros i j p q Hij Hp Hq. assert (disj (block_of p) (block_of q)) as Hdj.
    { apply (apart_lookup _ i j _ _ Ha); [by rewrite list_lookup_fmap, Hp|by rewrite list_lookup_fmap, Hq|done]. }
    pose proof (Hn p ltac:(by eapply list_elem_of_lookup_2)). pose proof (Hn q ltac:(by eapply list_elem_of_lookup_2)).
    unfold disj, block_of, bend, hdr, sizeof_Header in Hdj. simpl in Hdj. lia.
  - apply Forall_forall. intros p Hp. rewrite Forall_forall in Hi. specialize (Hn p Hp).
    destruct (Hi (block_of p)) as (_ & Hp1 & Hp2); [apply list_elem_of_fmap; eauto|].
    unfold block_of, bend, hdr, sizeof_Header in Hp1, Hp2. simpl in *. lia.
  - intros n Hnb. destruct (wp_elim _ _ _ (malloc_spec _ _ fuel n Hh Hnb Hf)) as (r & h' & E & _). eauto.
  - intros p (ps1 & ps2 & E)%list_elem_of_split.
    destruct (wp_elim _ _ _ (use_free u ps1 p ps2 fuel Hu E Hf)) as ([] & h' & E' & _). eauto.
Qed.
End thms.

(** A run: two blocks, a store in the second, and the first released. *)
#[local] Program Instance demo_image : UserImage := {| base := 4096; heap_start := 16384; heap_max := 16384 + 2 ^ 17 |}.
Next Obligation. lia. Qed.

Definition demo_heap : uheap := mk_uheap ∅ 0 16384 [].
Definition demo_fuel : nat := Z.to_nat 16400.
Definition state_after {A} (m : M uheap A) (s : uheap) : uheap :=
  match m s with Ret _ s' | Panic _ s' | Sleeps _ s' | NoFuel s' => s' end.
Definition demo_h1 : uheap := Eval vm_compute in state_after (malloc demo_fuel 100) demo_heap.
Definition demo_h2 : uheap := Eval vm_compute in state_after (malloc demo_fuel 20) demo_h1.
Definition demo_h3 : uheap := demo_h2 <| um := store8 (um demo_h2) 81769 77 |>.

Lemma malloc_safe_witness :
  load8 (um (state_after (free demo_fuel 81808) demo_h3)) 81769 = 77.
Proof.
  set (h := state_after (free demo_fuel 81808) demo_h3).
  destruct (malloc_safe demo_fuel demo_heap
    (mk_use h [(81760, 20)] (filter (λ kv, ¬ within (81808, 100) kv.1) (<[81769 := u8 77]> ∅)))) as (_ & _ & Hd & _).
  - vm_compute. reflexivity.
  - reflexivity.
  - vm_compute. split; discriminate.
  - eapply rtc_l; [apply (u_malloc demo_fuel demo_heap [] ∅ 100 81808 demo_h1); [lia|vm_compute; reflexivity|lia]|].
    eapply rtc_l; [apply (u_malloc demo_fuel demo_h1 _ ∅ 20 81760 demo_h2); [lia|vm_compute; reflexivity|lia]|].
    eapply rtc_l; [apply (u_store demo_fuel demo_h2 _ ∅ 81769 77); left; vm_compute; split; [discriminate|reflexivity]|].
    apply rtc_once. apply (u_free demo_fuel demo_h3 [(81760, 20)] (81808, 100) [] _ h). vm_compute. reflexivity.
  - apply Hd. reflexivity.
Defined.

(** The size in bytes is passed to [sbrk] as an [int]: a request of three
    thousand million bytes asks it to shrink the process. [malloc] returns a
    pointer, although the process has not grown. *)
Example malloc_huge_not_refused :
  match malloc demo_fuel 3000000000 demo_heap with
  | Ret p s => p ≠ 0 ∧ brk s = brk demo_heap
  | _ => False
  end.
Proof. vm_compute. done. Qed.
