(* ===== verification/Ulib.v ===== *)
(** * The user library ([user/ulib.c], [user/printf.c])

    String routines on the bytes of the process, as the C loops, and [printf]
    as the characters it writes one by one. The wrappers of system calls are
    with the programs that use them. *)

From S2P Require Import Prelude.
From S2P Require Import Machine.
From S2P Require Import KString.
From S2P Require Import Printf.
#[local] Open Scope Z_scope.

Module Ulib.

(** ** Strings *)

(** The loops that end at a zero byte have the number of turns as fuel. *)
Fixpoint strcpy_loop (fuel : nat) (m : memory) (s t : Z) : option memory :=
  match fuel with
  | O => None
  | S fuel' =>
      let m' := store8 m s (load8 m t) in
      if load8 m t =? 0 then Some m' else strcpy_loop fuel' m' (s + 1) (t + 1)
  end.
Definition strcpy (fuel : nat) (m : memory) (s t : Z) : option memory := strcpy_loop fuel m s t.

Fixpoint strcmp (fuel : nat) (m : memory) (p q : Z) : option Z :=
  match fuel with
  | O => None
  | S fuel' =>
      if negb (load8 m p =? 0) && (load8 m p =? load8 m q) then strcmp fuel' m (p + 1) (q + 1)
      else Some (u8 (load8 m p) - u8 (load8 m q))
  end.

Fixpoint strlen_loop (fuel : nat) (m : memory) (s n : Z) : option Z :=
  match fuel with
  | O => None
  | S fuel' => if load8 m (s + n) =? 0 then Some (u32 n) else strlen_loop fuel' m s (s32 (n + 1))
  end.
Definition strlen (fuel : nat) (m : memory) (s : Z) : option Z := strlen_loop fuel m s 0.

Definition memset (m : memory) (dst c n : Z) : memory := memset_loop (Z.to_nat n) m dst 0 c.

(** A pointer to the character, or null. *)
Fixpoint strchr (fuel : nat) (m : memory) (s c : Z) : option Z :=
  match fuel with
  | O => None
  | S fuel' => if load8 m s =? 0 then Some 0 else if load8 m s =? c then Some s else strchr fuel' m (s + 1) c
  end.

Fixpoint atoi_loop (fuel : nat) (m : memory) (s n : Z) : option Z :=
  match fuel with
  | O => None
  | S fuel' =>
      let c := load8 m s in
      if (48 <=? c) && (c <=? 57) then atoi_loop fuel' m (s + 1) (s32 (n * 10 + c - 48)) else Some n
  end.
Definition atoi (fuel : nat) (m : memory) (s : Z) : option Z := atoi_loop fuel m s 0.

Definition memmove (m : memory) (vdst vsrc n : Z) : memory :=
  if vdst <? vsrc then move_up (Z.to_nat n) m vdst vsrc
  else move_down (Z.to_nat n) m (vdst + n) (vsrc + n).
Definition memcmp (m : memory) (s1 s2 n : Z) : Z := memcmp_loop (Z.to_nat n) m s1 s2.
Definition memcpy (m : memory) (dst src n : Z) : memory := memmove m dst src (s32 n).

(** [gets(buf, max)] with the bytes that its calls of [read] will return, and
    nothing after them: the line and the bytes left. *)
Fixpoint gets (max : nat) (input : list Z) : list Z * list Z :=
  match max with
  | O | S O => ([], input)
  | S max' =>
      match input with
      | [] => ([], [])
      | c :: input' =>
          if (c =? 10) || (c =? 13) then ([c], input')
          else let '(l, rest) := gets max' input' in (c :: l, rest)
      end
  end.

(** ** [printf] *)

(** [digits[d]] *)
Definition digit (d : Z) : Z := if d <? 10 then 48 + d else 55 + d.

(** The [do { } while] loop of [printint]. *)
Fixpoint printint_digits (fuel : nat) (x base : Z) : list Z :=
  match fuel with
  | O => []
  | S fuel' => digit (x mod base) :: (if x / base =? 0 then [] else printint_digits fuel' (x / base) base)
  end.
(** [buf] before it is printed backwards. *)
Definition printint_buf (xx base : Z) (sgn : bool) : list Z :=
  let neg := sgn && (xx <? 0) in
  let x := if neg then u32 (- xx) else u32 xx in
  printint_digits 32 x base ++ (if neg then [45] else []).
Definition printint (xx base : Z) (sgn : bool) : list Z := rev (printint_buf xx base sgn).

Fixpoint printptr_loop (n : nat) (x : Z) : list Z :=
  match n with
  | O => []
  | S n' => digit (Z.shiftr x 60) :: printptr_loop n' (u64 (Z.shiftl x 4))
  end.
Definition printptr (x : Z) : list Z := [48; 120] ++ printptr_loop 16 x.

(** Variadic arguments: an [int], a [uint64], a string or null, a [uint]. *)
Inductive uarg := UInt (z : Z) | ULong (z : Z) | UStr (s : option (list Z)) | UChar (z : Z).

(** One conversion: what it prints and the arguments left, or [None] when the
    next argument is not of its type. [va_arg(ap, uint64)] for ['l'] is passed
    as an [int]. *)
Definition conversion (c : Z) (args : list uarg) : option (list Z * list uarg) :=
  if c =? 100 (* d *) then match args with UInt z :: args' => Some (printint z 10 true, args') | _ => None end
  else if c =? 108 (* l *) then match args with ULong z :: args' => Some (printint (s32 z) 10 false, args') | _ => None end
  else if c =? 120 (* x *) then match args with UInt z :: args' => Some (printint z 16 false, args') | _ => None end
  else if c =? 112 (* p *) then match args with ULong z :: args' => Some (printptr z, args') | _ => None end
  else if c =? 115 (* s *) then
    match args with UStr s :: args' => Some (until_nul (default (bytes "(null)") s), args') | _ => None end
  else if c =? 99 (* c *) then match args with UChar z :: args' => Some ([u8 z], args') | _ => None end
  else if c =? 37 then Some ([c], args)
  else Some ([37; c], args).

(** [state] is the C variable: whether the last character was a percent sign. *)
Fixpoint vprintf (fmt : list Z) (state : bool) (args : list uarg) : option (list Z) :=
  match fmt with
  | [] => Some []
  | c :: fmt' =>
      if c =? 0 then Some []
      else if negb state then
        if c =? 37 then vprintf fmt' true args else prepend [c] (vprintf fmt' false args)
      else
        match conversion c args with
        | Some (out, args') => prepend out (vprintf fmt' false args')
        | None => None
        end
  end.

(** What [fprintf] writes to its file. *)
Definition fprintf (fmt : string) (args : list uarg) : option (list Z) := vprintf (bytes fmt) false args.

Example fprintf_ex :
  fprintf "%s has %d%% (%x) %p %c%z" [UStr (Some (bytes "f")); UInt (-5); UInt 255; ULong 4096; UChar 65] =
  Some (bytes "f has -5% (FF) 0x0000000000001000 A%z").
Proof. reflexivity. Qed.

(** ** Copies *)

(** Whatever way the regions overlap, the bytes moved are the old ones. *)
Theorem memmove_moves m d s n x :
  bytes_ok m →
  load8 (memmove m d s n) x = if decide (in_range d n x) then load8 m (s + (x - d)) else load8 m x.
Proof.
  intros Hb. unfold memmove. destruct (decide (0 ≤ n)) as [Hn|Hn].
  - destruct (Z.ltb_spec d s).
    + rewrite move_up_load by (done || lia). by rewrite Z2Nat.id.
    + rewrite move_down_load by (done || lia). rewrite Z2Nat.id by done.
      repeat case_decide; unfold in_range in *; try lia; f_equal; lia.
  - rewrite (Z2Nat.nonpos n) by lia. simpl. rewrite decide_False by (unfold in_range; lia). by destruct (d <? s).
Qed.

(** ** C strings *)

Definition cstr (m : memory) (a : Z) (s : list Z) : Prop :=
  Forall (λ c, 0 < c < 256) s ∧ ∀ i, (i ≤ length s)%nat → load8 m (a + Z.of_nat i) = default 0 (s !! i).

Lemma cstr_nil m a : cstr m a [] → load8 m a = 0.
Proof. intros [_ H]. specialize (H 0%nat ltac:(simpl; lia)). by rewrite Z.add_0_r in H. Qed.
Lemma cstr_cons m a c s : cstr m a (c :: s) → load8 m a = c ∧ 0 < c < 256 ∧ cstr m (a + 1) s.
Proof.
  intros [Hs H]. apply Forall_cons in Hs as [Hc Hs]. pose proof (H 0%nat ltac:(simpl; lia)) as H0. rewrite Z.add_0_r in H0.
  split_and!; [done|lia|lia|]. split; [done|]. intros i Hi. specialize (H (S i) ltac:(simpl; lia)). simpl in H. rewrite <- H. f_equal. lia.
Qed.

Lemma strlen_spec m a s fuel : cstr m a s → (length s < fuel)%nat → Z.of_nat (length s) < 2 ^ 31 → strlen fuel m a = Some (Z.of_nat (length s)).
Proof.
  intros [Hs H] Hf Hl. unfold strlen. assert (∀ k fuel, (k ≤ length s)%nat → (length s - k < fuel)%nat →
    strlen_loop fuel m a (Z.of_nat k) = Some (Z.of_nat (length s))) as Hg; [|by apply (Hg 0%nat); lia].
  clear fuel Hf. intros k fuel. revert k. induction fuel as [|fuel IH]; intros k Hk Hf; [lia|]. simpl. rewrite H by done.
  destruct (decide (k < length s)%nat) as [Hlt|Hge].
  - destruct (lookup_lt_is_Some_2 s k Hlt) as [c Hc]. rewrite Hc. simpl. rewrite Forall_lookup in Hs. specialize (Hs k c Hc).
    destruct (Z.eqb_spec c 0); [lia|]. rewrite s32_small by lia. replace (Z.of_nat k + 1) with (Z.of_nat (S k)) by lia. apply IH; lia.
  - rewrite lookup_ge_None_2 by lia. simpl. rewrite u32_small by lia. do 2 f_equal. lia.
Qed.

(** The first difference decides; a string is before its extensions. *)
Fixpoint lex (s t : list Z) : Z :=
  match s, t with
  | [], [] => 0
  | [], c :: _ => - c
  | c :: _, [] => c
  | c :: s', d :: t' => if c =? d then lex s' t' else c - d
  end.
Lemma lex_zero s t : Forall (λ c, 0 < c < 256) s → Forall (λ c, 0 < c < 256) t → lex s t = 0 ↔ s = t.
Proof.
  revert t. induction s as [|c s IH]; intros [|d t] Hs Ht; simpl; [done| | |].
  - apply Forall_cons in Ht as [? _]. split; [lia|done].
  - apply Forall_cons in Hs as [? _]. split; [lia|done].
  - apply Forall_cons in Hs as [? Hs], Ht as [? Ht]. destruct (Z.eqb_spec c d) as [->|]; [rewrite IH by done|]; split; try congruence; lia.
Qed.

Lemma strcmp_spec fuel : ∀ m p q s t, cstr m p s → cstr m q t → (length s < fuel)%nat → strcmp fuel m p q = Some (lex s t).
Proof.
  induction fuel as [|fuel IH]; intros m p q s t Hs Ht Hf; [lia|]. cbn [strcmp].
  destruct s as [|c s]; [apply cstr_nil in Hs|apply cstr_cons in Hs as (Hc & Hcr & Hs)];
    (destruct t as [|d t]; [apply cstr_nil in Ht|apply cstr_cons in Ht as (Hd & Hdr & Ht)]).
  - by rewrite Hs, Ht.
  - rewrite Hs, Hd. simpl. change (u8 0) with 0. rewrite u8_small by lia. done.
  - rewrite Hc, Ht. destruct (Z.eqb_spec c 0); [lia|]. simpl. change (u8 0) with 0. rewrite u8_small by lia. f_equal. lia.
  - rewrite Hc, Hd. simpl in Hf |- *. destruct (Z.eqb_spec c 0); [lia|]. simpl. destruct (Z.eqb_spec c d) as [->|].
    + apply IH; [done|done|lia].
    + by rewrite !u8_small by lia.
Qed.

(** ** Numbers printed and read *)

(** The value of decimal digits, most significant first, after [n]. *)
Definition dec (n : Z) (l : list Z) : Z := foldl (λ n c, n * 10 + (c - 48)) n l.

Lemma printint_digits_dec fuel x :
  0 ≤ x < 10 ^ Z.of_nat fuel → (0 < fuel)%nat →
  Forall (λ c, 48 ≤ c ≤ 57) (printint_digits fuel x 10) ∧ dec 0 (rev (printint_digits fuel x 10)) = x.
Proof.
  revert x. induction fuel as [|fuel IH]; intros x Hx Hf; [lia|]. cbn [printint_digits].
  assert (48 ≤ digit (x mod 10) ≤ 57 ∧ digit (x mod 10) - 48 = x mod 10) as [Hd Ed].
  { unfold digit. destruct (Z.ltb_spec (x mod 10) 10); dlia. }
  destruct (Z.eqb_spec (x / 10) 0) as [E|E].
  - split; [by apply Forall_singleton|]. cbn [rev app dec foldl]. dlia.
  - rewrite Nat2Z.inj_succ, Z.pow_succ_r in Hx by lia.
    assert (0 < fuel)%nat by (destruct fuel; [change (10 ^ Z.of_nat 0) with 1 in Hx; dlia|lia]).
    destruct (IH (x / 10)) as [H1 H2]; [dlia|done|]. split; [by constructor|]. cbn [rev]. unfold dec in *. rewrite foldl_app, H2. simpl. dlia.
Qed.

Lemma dec_mono n l : 0 ≤ n → Forall (λ c, 48 ≤ c ≤ 57) l → n ≤ dec n l.
Proof.
  revert n. induction l as [|c l IH]; intros n Hn Hl; [unfold dec; simpl; lia|]. apply Forall_cons in Hl as [Hc Hl].
  specialize (IH (n * 10 + (c - 48)) ltac:(lia) Hl). unfold dec in *. simpl. lia.
Qed.

Lemma atoi_spec fuel : ∀ m a l c rest n, cstr m a (l ++ c :: rest) ∨ (cstr m a l ∧ c = 0) → Forall (λ c, 48 ≤ c ≤ 57) l → ¬ 48 ≤ c ≤ 57 →
  0 ≤ n → dec n l < 2 ^ 31 → (length l < fuel)%nat → atoi_loop fuel m a n = Some (dec n l).
Proof.
  induction fuel as [|fuel IH]; intros m a l c rest n Hm Hl Hc Hn Hd Hf; [lia|]. cbn [atoi_loop]. destruct l as [|d l].
  - assert (load8 m a = c) as ->.
    { destruct Hm as [Hm|[Hm ->]]; [by apply cstr_cons in Hm as [? _]|by apply cstr_nil in Hm]. }
    destruct (Z.leb_spec 48 c), (Z.leb_spec c 57); simpl; try done; lia.
  - assert (load8 m a = d ∧ (cstr m (a + 1) (l ++ c :: rest) ∨ (cstr m (a + 1) l ∧ c = 0))) as [-> Hm'].
    { destruct Hm as [Hm|[Hm ->]]; apply cstr_cons in Hm as (? & _ & ?); auto. }
    apply Forall_cons in Hl as [Hdr Hl]. destruct (Z.leb_spec 48 d), (Z.leb_spec d 57); try lia. simpl.
    pose proof (dec_mono (n * 10 + (d - 48)) l ltac:(lia) Hl) as Hmono. unfold dec in Hd, Hmono. simpl in Hd. fold (dec (n * 10 + (d - 48)) l) in *.
    rewrite s32_small by lia. replace (n * 10 + d - 48) with (n * 10 + (d - 48)) by lia. simpl in Hf.
    apply (IH m (a + 1) l c rest); try done; lia.
Qed.

(** [atoi] reads back what [%d] prints of a number that is not negative. *)
Theorem atoi_printf_roundtrip m a n :
  0 ≤ n < 2 ^ 31 → (∀ out, fprintf "%d" [UInt n] = Some out → cstr m a out) → atoi 33 m a = Some n.
Proof.
  intros Hn Hm. specialize (Hm _ eq_refl). rewrite app_nil_r in Hm. unfold printint, printint_buf in Hm.
  destruct (Z.ltb_spec n 0) as [|_] in Hm; [lia|]. rewrite andb_false_r, app_nil_r, u32_small in Hm by lia.
  destruct (printint_digits_dec 32 n ltac:(change (Z.of_nat 32) with 32; lia) ltac:(lia)) as [H1 H2].
  assert (length (printint_digits 32 n 10) ≤ 32)%nat as Hlen.
  { clear. generalize 32%nat as k, n as x. induction k as [|k IH]; intros x; simpl; [lia|]. destruct (_ =? 0); simpl; [lia|]. specialize (IH (x / 10)). lia. }
  unfold atoi. rewrite (atoi_spec 33 m a (rev (printint_digits 32 n 10)) 0 [] 0); [by rewrite H2| |by apply Forall_rev|lia|lia|lia|].
  - by right.
  - rewrite length_rev. lia.
Qed.
End Ulib.
