(* ===== verification/Grep.v ===== *)
(** * The pattern matcher and line filter of [user/grep.c]

    A C string is the list of its bytes before the terminating zero. The
    matcher is shown to decide the language of a regular expression; the
    filter is shown to print the matching lines however its reads are cut. *)

From S2P Require Import Prelude.
#[local] Open Scope Z_scope.

Definition cstr : Type := list Z.

Definition caret : Z := 94.
Definition dollar : Z := 36.
Definition dot : Z := 46.
Definition star : Z := 42.
Definition nl : Z := 10.

(** ** [matchstar], [matchhere], [match] *)

(** [do{ if(matchhere(re, text)) return 1; } while( *text!='\0' &&
    ( *text++==c || c=='.') );] where [here] is [matchhere(re, .)]. *)
Fixpoint matchstar (here : cstr → bool) (c : Z) (text : cstr) : bool :=
  if here text then true
  else match text with
       | [] => false
       | t :: text' => if (t =? c) || (c =? dot) then matchstar here c text' else false
       end.

Fixpoint matchhere (re text : cstr) : bool :=
  match re with
  | [] => true
  | r0 :: re1 =>
      match re1 with
      | r1 :: re2 =>
          if r1 =? star then matchstar (matchhere re2) r0 text
          else match text with
               | t :: text' => if (r0 =? dot) || (r0 =? t) then matchhere re1 text' else false
               | [] => false
               end
      | [] =>
          if r0 =? dollar then match text with [] => true | _ => false end
          else match text with
               | t :: text' => if (r0 =? dot) || (r0 =? t) then matchhere re1 text' else false
               | [] => false
               end
      end
  end.

(** [do{ if(matchhere(re, text)) return 1; }while( *text++ != '\0');] *)
Fixpoint match_from (re text : cstr) : bool :=
  if matchhere re text then true
  else match text with [] => false | _ :: text' => match_from re text' end.

Definition match_re (re text : cstr) : bool :=
  match re with
  | r0 :: re1 => if r0 =? caret then matchhere re1 text else match_from re text
  | [] => match_from re text
  end.

(** ** Regular expressions *)

Inductive regex :=
| Eps
| Any
| Char (c : Z)
| Seq (r1 r2 : regex)
| Star (r : regex).

Inductive matches : regex → list Z → Prop :=
| m_eps : matches Eps []
| m_any c : matches Any [c]
| m_char c : matches (Char c) [c]
| m_seq r1 r2 w1 w2 : matches r1 w1 → matches r2 w2 → matches (Seq r1 r2) (w1 ++ w2)
| m_star_nil r : matches (Star r) []
| m_star_app r w1 w2 : matches r w1 → matches (Star r) w2 → matches (Star r) (w1 ++ w2).

(** The pattern syntax: a character or [.], possibly starred, in sequence; a
    final [$] anchors at the end, an initial [^] at the start. *)
Definition atom (c : Z) : regex := if c =? dot then Any else Char c.

Fixpoint parse (re : cstr) : regex * bool :=
  match re with
  | [] => (Eps, false)
  | r0 :: re1 =>
      match re1 with
      | r1 :: re2 =>
          if r1 =? star then let p := parse re2 in (Seq (Star (atom r0)) p.1, p.2)
          else let p := parse re1 in (Seq (atom r0) p.1, p.2)
      | [] => if r0 =? dollar then (Eps, true) else (Seq (atom r0) Eps, false)
      end
  end.

Definition anchored (re : cstr) : bool := match re with r0 :: _ => r0 =? caret | [] => false end.
Definition body (re : cstr) : cstr := if anchored re then tail re else re.

(** [text] contains a word of the pattern, at its start or end where the
    pattern is anchored. *)
Definition found (re text : cstr) : Prop :=
  ∃ pre word post, text = pre ++ word ++ post ∧ matches (parse (body re)).1 word
    ∧ (anchored re = true → pre = []) ∧ ((parse (body re)).2 = true → post = []).

(** ** The matcher decides the language *)

Definition prefix_in (p : regex * bool) (text : cstr) : Prop :=
  ∃ word post, text = word ++ post ∧ matches p.1 word ∧ (p.2 = true → post = []).

Lemma matches_atom c w : matches (atom c) w ↔ ∃ t, w = [t] ∧ (c = dot ∨ c = t).
Proof.
  unfold atom. destruct (Z.eqb_spec c dot) as [E|E]; split.
  - intros H. inversion H; subst. by exists c0; eauto.
  - intros (t & -> & _). constructor.
  - intros H. inversion H; subst. by exists c; eauto.
  - intros (t & -> & [Hc| Hc]); [done|subst c; constructor].
Qed.

Lemma atom_test c t : (c =? dot) || (c =? t) = true ↔ c = dot ∨ c = t.
Proof. rewrite orb_true_iff, !Z.eqb_eq. done. Qed.

Lemma prefix_seq_atom c p text :
  prefix_in (Seq (atom c) p.1, p.2) text ↔
  ∃ t text', text = t :: text' ∧ (c = dot ∨ c = t) ∧ prefix_in p text'.
Proof.
  split.
  - intros (word & post & -> & Hm & Hp). inversion Hm as [| | |? ? w1 w2 H1 H2| |]; subst.
    apply matches_atom in H1 as (t & -> & Hc). exists t, (w2 ++ post). split; [done|].
    split; [done|]. by exists w2, post.
  - intros (t & text' & -> & Hc & (w & post & -> & Hm & Hp)).
    exists ([t] ++ w), post. split; [done|]. split; [|done].
    constructor; [|done]. apply matches_atom. eauto.
Qed.

(** A starred atom matches nothing or one character and then more. *)
Lemma star_atom_cons c w :
  matches (Star (atom c)) w ↔ w = [] ∨ ∃ t w', w = t :: w' ∧ (c = dot ∨ c = t) ∧ matches (Star (atom c)) w'.
Proof.
  split.
  - intros H. inversion H as [| | | | |? w1 w2 H1 H2]; subst; [by left|].
    apply matches_atom in H1 as (t & -> & Hc). right. by exists t, w2.
  - intros [->|(t & w' & -> & Hc & Hm)]; [constructor|].
    apply (m_star_app _ [t]); [|done]. apply matches_atom. eauto.
Qed.

Lemma prefix_seq_star c p text :
  prefix_in (Seq (Star (atom c)) p.1, p.2) text ↔
  prefix_in p text ∨ ∃ t text', text = t :: text' ∧ (c = dot ∨ c = t)
                       ∧ prefix_in (Seq (Star (atom c)) p.1, p.2) text'.
Proof.
  split.
  - intros (word & post & -> & Hm & Hp). inversion Hm as [| | |? ? w1 w2 H1 H2| |]; subst.
    apply star_atom_cons in H1 as [->|(t & w' & -> & Hc & Hs)].
    + left. by exists w2, post.
    + right. exists t, ((w' ++ w2) ++ post). split; [done|]. split; [done|].
      exists (w' ++ w2), post. split; [done|]. split; [|done]. by constructor.
  - intros [(w & post & -> & Hm & Hp)|(t & text' & -> & Hc & (w & post & -> & Hm & Hp))].
    + exists ([] ++ w), post. split; [done|]. split; [|done]. constructor; [constructor|done].
    + inversion Hm as [| | |? ? w1 w2 H1 H2| |]; subst.
      exists ((t :: w1) ++ w2), post. split; [done|]. split; [|done].
      constructor; [|done]. apply star_atom_cons. right. by exists t, w1.
Qed.

Lemma matchstar_spec here c p text :
  (∀ text, here text = true ↔ prefix_in p text) →
  matchstar here c text = true ↔ prefix_in (Seq (Star (atom c)) p.1, p.2) text.
Proof.
  intros Hh. induction text as [|t text IH]; simpl; rewrite prefix_seq_star.
  - destruct (here []) eqn:E.
    + rewrite Hh in E. by split; [left|].
    + split; [done|]. intros [H|(? & ? & [=] & _)]. apply Hh in H. congruence.
  - destruct (here (t :: text)) eqn:E; [rewrite Hh in E; by split; [left|]|].
    rewrite orb_comm. assert ((c =? dot) || (t =? c) = (c =? dot) || (c =? t)) as ->
      by (by rewrite (Z.eqb_sym t c)).
    destruct ((c =? dot) || (c =? t)) eqn:Et.
    + rewrite IH. apply atom_test in Et. split; [intros; right; by exists t, text|].
      intros [H|(? & ? & [= <- <-] & _ & H)]; [apply Hh in H; congruence|done].
    + split; [done|]. intros [H|(? & ? & [= <- <-] & Hc & _)]; [apply Hh in H; congruence|].
      apply atom_test in Hc. congruence.
Qed.

Lemma matchhere_one p r0 re1 text :
  (∀ text, matchhere re1 text = true ↔ prefix_in p text) →
  (match text with
   | t :: text' => if (r0 =? dot) || (r0 =? t) then matchhere re1 text' else false
   | [] => false
   end = true) ↔ prefix_in (Seq (atom r0) p.1, p.2) text.
Proof.
  intros IH. rewrite prefix_seq_atom. destruct text as [|t text'].
  - split; [done|]. by intros (? & ? & [=] & _).
  - destruct ((r0 =? dot) || (r0 =? t)) eqn:Et.
    + rewrite IH. apply atom_test in Et. split; [intros; by exists t, text'|].
      by intros (? & ? & [= <- <-] & _ & H).
    + split; [done|]. intros (? & ? & [= <- <-] & Hc & _). apply atom_test in Hc. congruence.
Qed.

Lemma matchhere_spec re text : matchhere re text = true ↔ prefix_in (parse re) text.
Proof.
  revert text. induction re as [re IH] using (induction_ltof1 _ length). unfold ltof in IH. intros text.
  destruct re as [|r0 [|r1 re2]].
  - simpl. split; [intros _; exists [], text; by repeat constructor|done].
  - simpl. destruct (r0 =? dollar) eqn:Ed.
    + split.
      * destruct text; [|done]. intros _. exists [], []. by repeat constructor.
      * intros (w & post & -> & Hm & Hp). simpl in *. inversion Hm; subst. by rewrite Hp.
    + apply (matchhere_one (Eps, false) r0 []). intros t. simpl.
      split; [intros _; exists [], t; by repeat constructor|done].
  - cbn [matchhere parse]. destruct (r1 =? star).
    + apply matchstar_spec. intros t. apply IH. simpl. lia.
    + apply (matchhere_one (parse (r1 :: re2)) r0 (r1 :: re2)). intros t. apply IH. simpl. lia.
Qed.

Lemma match_from_spec re text :
  match_from re text = true ↔ ∃ pre rest, text = pre ++ rest ∧ prefix_in (parse re) rest.
Proof.
  induction text as [|t text IH]; cbn [match_from].
  - destruct (matchhere re []) eqn:E.
    + split; [|done]. intros _. apply matchhere_spec in E. by exists [], [].
    + split; [done|]. intros (pre & rest & H & Hp). destruct pre, rest; try done.
      apply matchhere_spec in Hp. congruence.
  - destruct (matchhere re (t :: text)) eqn:E.
    + split; [|done]. intros _. apply matchhere_spec in E. by exists [], (t :: text).
    + rewrite IH. split.
      * intros (pre & rest & -> & Hp). by exists (t :: pre), rest.
      * intros ([|? pre] & rest & H & Hp).
        -- simpl in H. subst. apply matchhere_spec in Hp. congruence.
        -- injection H as <- ->. by exists pre, rest.
Qed.

(** C27: The matcher of [grep] decides its pattern language: [match(re, text)]
    is true exactly when [text] contains a word of the regular expression the
    pattern denotes, at the start of [text] if the pattern begins with [^] and
    at its end if the pattern ends with [$]. *)
Theorem match_decides_language re text : match_re re text = true ↔ found re text.
Proof.
  unfold match_re, found, body, anchored. destruct re as [|r0 re1]; [|destruct (r0 =? caret); cbn [tail]].
  2: { rewrite matchhere_spec. split.
       - intros (w & post & -> & Hm & Hp). by exists [], w, post.
       - intros (pre & w & post & -> & Hm & Hpre & Hp). rewrite (Hpre eq_refl). by exists w, post. }
  all: rewrite match_from_spec; split;
    [intros (pre & rest & -> & (w & post & -> & Hm & Hp)); by exists pre, w, post
    |intros (pre & w & post & -> & Hm & _ & Hp); exists pre, (w ++ post); split; [done|by exists w, post]].
Qed.

(** ** The line filter [grep] *)

(** Standard input, the sizes its reads will return ([None] for a failing
    read, all that is asked for once the list ends), and standard output. *)
Record io := mk_io { input : list Z; cuts : list (option nat); output : list Z }.

(** [read(fd, buf, n)]: [None] is -1; no bytes are returned only at the end of
    the file or if none were asked for. *)
Definition read (n : nat) : M io (option (list Z)) := λ s,
  match cuts s with
  | None :: cuts' => Ret None (mk_io (input s) cuts' (output s))
  | c =>
      let k := match c with Some c :: _ => Nat.min n (Nat.max 1 c) | _ => n end in
      Ret (Some (take k (input s))) (mk_io (drop k (input s)) (tail c) (output s))
  end.
(** [write(1, p, n)] *)
Definition write (bytes : list Z) : M io unit :=
  modify (λ s, mk_io (input s) (cuts s) (output s ++ bytes)).

(** [strchr(p, c)] for [p = buf + k], and the C string at [s]. *)
Fixpoint strchr (s : list Z) (c : Z) (k : nat) : option nat :=
  match s with
  | [] => None
  | b :: s' => if b =? 0 then None else if b =? c then Some k else strchr s' c (S k)
  end.
Fixpoint cstr_of (s : list Z) : cstr :=
  match s with [] => [] | b :: s' => if b =? 0 then [] else b :: cstr_of s' end.

Definition bufsize : nat := 1024.

(** [memmove(buf + at, src, n)] of [n] bytes into the array [buf]. *)
Definition put_bytes (buf : list Z) (pos : nat) (bytes : list Z) : list Z :=
  take pos buf ++ bytes ++ drop (pos + length bytes) buf.

(** [while((q = strchr(p, '\n')) != 0){ *q = 0; if(match(pattern, p)){ *q =
    '\n'; write(1, p, q+1 - p); } p = q+1; }] *)
Definition scan_body (pattern : cstr) (bp : list Z * nat) : M io (list Z * nat + list Z * nat) :=
  let '(buf, p) := bp in
  match strchr (drop p buf) nl p with
  | None => ret (inr (buf, p))
  | Some q =>
      let buf := <[q := 0]> buf in
      if match_re pattern (cstr_of (drop p buf)) then
        let buf := <[q := nl]> buf in
        do! write (take (S q - p) (drop p buf)) in
        ret (inl (buf, S q))
      else ret (inl (buf, S q))
  end.

(** The scan of [buf] up to [m], and the move of what is left to its front. *)
Definition grep_scan (pattern : cstr) (buf : list Z) (m : nat) : M io (list Z * nat + unit) :=
  let! bp := loop (S bufsize) (scan_body pattern) (buf, 0%nat) in
  let '(buf, p) := bp in
  if (0 <? m)%nat then
    let m := (m - p)%nat in
    ret (inl (put_bytes buf 0 (take m (drop p buf)), m))
  else ret (inl (buf, m)).

(** One round of [while((n = read(fd, buf+m, sizeof(buf)-m-1)) > 0)]. *)
Definition grep_body (pattern : cstr) (bm : list Z * nat) : M io (list Z * nat + unit) :=
  let '(buf, m) := bm in
  let! r := read (bufsize - m - 1) in
  match r with
  | None | Some [] => ret (inr tt)
  | Some bytes =>
      let buf := put_bytes buf m bytes in
      let m := (m + length bytes)%nat in
      let buf := <[m := 0]> buf in
      grep_scan pattern buf m
  end.

(** [grep(pattern, fd)]: every read but the last returns a byte, so the
    number of bytes of input bounds the rounds. *)
Definition grep (pattern : cstr) : M io unit := λ s,
  loop (S (length (input s))) (grep_body pattern) (replicate bufsize 0, 0%nat) s.

(** ** Lines of a text *)

(** The complete lines of [acc ++ l], and the unfinished line after them, for
    [acc] without newlines. *)
Fixpoint lines (acc l : list Z) : list (list Z) :=
  match l with
  | [] => []
  | b :: l' => if b =? nl then acc :: lines [] l' else lines (acc ++ [b]) l'
  end.
Fixpoint leftover (acc l : list Z) : list Z :=
  match l with
  | [] => acc
  | b :: l' => if b =? nl then leftover [] l' else leftover (acc ++ [b]) l'
  end.

(** What [grep] is to print for some lines. *)
Definition printed (pattern : cstr) (ls : list (list Z)) : list Z :=
  concat (map (λ l, if match_re pattern l then l ++ [nl] else []) ls).

Lemma lines_app acc l1 l2 : lines acc (l1 ++ l2) = lines acc l1 ++ lines (leftover acc l1) l2.
Proof. revert acc. induction l1 as [|b l1 IH]; intros acc; simpl; [done|]. destruct (b =? nl); rewrite IH; done. Qed.
Lemma leftover_app acc l1 l2 : leftover acc (l1 ++ l2) = leftover (leftover acc l1) l2.
Proof. revert acc. induction l1 as [|b l1 IH]; intros acc; simpl; [done|]. by destruct (b =? nl). Qed.

Lemma printed_app pattern l1 l2 : printed pattern (l1 ++ l2) = printed pattern l1 ++ printed pattern l2.
Proof. unfold printed. by rewrite map_app, concat_app. Qed.

(** A text is a first line, or has no newline. *)
Lemma first_line l :
  (∃ l1 l2, l = l1 ++ nl :: l2 ∧ nl ∉ l1) ∨ nl ∉ l.
Proof.
  induction l as [|b l IH]; [right; apply not_elem_of_nil|].
  destruct (decide (b = nl)) as [->|Hb]; [left; exists [], l; split; [done|apply not_elem_of_nil]|].
  destruct IH as [(l1 & l2 & -> & H)|H].
  - left. exists (b :: l1), l2. split; [done|]. apply not_elem_of_cons. auto.
  - right. apply not_elem_of_cons. auto.
Qed.

Lemma lines_none acc l : nl ∉ l → lines acc l = [] ∧ leftover acc l = acc ++ l.
Proof.
  revert acc. induction l as [|b l IH]; intros acc H; simpl; [by rewrite app_nil_r|].
  apply not_elem_of_cons in H as [Hb H]. rewrite (proj2 (Z.eqb_neq b nl)) by done.
  destruct (IH (acc ++ [b]) H) as [-> ->]. by rewrite <- app_assoc.
Qed.
Lemma lines_first acc l1 l2 :
  nl ∉ l1 → lines acc (l1 ++ nl :: l2) = (acc ++ l1) :: lines [] l2
    ∧ leftover acc (l1 ++ nl :: l2) = leftover [] l2.
Proof.
  intros H. rewrite lines_app, leftover_app. destruct (lines_none acc l1 H) as [-> ->]. simpl. done.
Qed.

Lemma leftover_no_nl acc l : nl ∉ acc → nl ∉ leftover acc l.
Proof.
  revert acc. induction l as [|b l IH]; intros acc H; simpl; [done|].
  destruct (Z.eqb_spec b nl) as [E|E]; apply IH; [apply not_elem_of_nil|].
  rewrite not_elem_of_app, list_elem_of_singleton. split; [done|congruence].
Qed.

(** ** The inner loop *)

Definition nonzero (l : list Z) : Prop := Forall (λ b, b ≠ 0) l.

Lemma strchr_found c s1 s2 k :
  c ≠ 0 → nonzero s1 → c ∉ s1 → strchr (s1 ++ c :: s2) c k = Some (k + length s1)%nat.
Proof.
  intros Hc. revert k. induction s1 as [|b s1 IH]; intros k Hz Hn; simpl.
  - rewrite (proj2 (Z.eqb_neq c 0)), Z.eqb_refl by done. f_equal. lia.
  - apply Forall_cons in Hz as [Hb Hz]. apply not_elem_of_cons in Hn as [Hbc Hn].
    rewrite (proj2 (Z.eqb_neq b 0)), (proj2 (Z.eqb_neq b c)), IH by done. f_equal. lia.
Qed.
Lemma strchr_none c s1 s2 k : nonzero s1 → c ∉ s1 → strchr (s1 ++ 0 :: s2) c k = None.
Proof.
  revert k. induction s1 as [|b s1 IH]; intros k Hz Hn; simpl; [done|].
  apply Forall_cons in Hz as [Hb Hz]. apply not_elem_of_cons in Hn as [Hbc Hn].
  rewrite (proj2 (Z.eqb_neq b 0)), (proj2 (Z.eqb_neq b c)), IH by done. done.
Qed.
Lemma cstr_of_app s1 s2 : nonzero s1 → cstr_of (s1 ++ 0 :: s2) = s1.
Proof.
  induction s1 as [|b s1 IH]; simpl; [done|]. intros [Hb Hz]%Forall_cons.
  rewrite (proj2 (Z.eqb_neq b 0)) by done. by rewrite IH.
Qed.
Lemma insert_at {A} (l1 l2 : list A) x y (n : nat) :
  n = length l1 → <[n := x]> (l1 ++ y :: l2) = l1 ++ x :: l2.
Proof. intros ->. induction l1 as [|b l1 IH]; simpl; [done|]. f_equal. exact IH. Qed.

(** A buffer that holds [txt] at [length A]. *)
Definition holds (A txt T : list Z) : list Z := A ++ txt ++ 0 :: T.

Lemma scan_line pattern A l1 l2 T s :
  nonzero l1 → nl ∉ l1 →
  wp (scan_body pattern (holds A (l1 ++ nl :: l2) T, length A)) (λ r s', ∃ A',
    r = inl (holds A' l2 T, length A') ∧ length A' = (length A + S (length l1))%nat
    ∧ s' = mk_io (input s) (cuts s) (output s ++ printed pattern [l1])) s.
Proof.
  intros Hz Hn. unfold scan_body, holds. rewrite drop_app_length, <- app_assoc. cbn [app].
  rewrite strchr_found by done.
  set (q := (length A + length l1)%nat).
  assert (∀ x y r, <[q := x]> (A ++ l1 ++ y :: r) = A ++ l1 ++ x :: r) as Hins.
  { intros x y r. rewrite !(app_assoc A). apply insert_at. rewrite length_app. done. }
  rewrite Hins, drop_app_length, cstr_of_app, Hins by done.
  assert (∀ x r, ∃ A', A ++ l1 ++ x :: r = A' ++ r ∧ length A' = (length A + S (length l1))%nat) as HA.
  { intros x r. exists (A ++ l1 ++ [x]). rewrite !length_app, <- !app_assoc. simpl. split; [done|lia]. }
  assert (S q = length A + S (length l1))%nat as Hq by (unfold q; lia).
  unfold printed. cbn [map concat]. rewrite app_nil_r. destruct (match_re pattern l1).
  - unfold write. wp_steps. destruct (HA nl (l2 ++ 0 :: T)) as (A' & E & L). exists A'.
    split; [by rewrite E, Hq, L|]. split; [done|]. f_equal. f_equal. rewrite drop_app_length.
    replace (S q - length A)%nat with (length (l1 ++ [nl])) by (rewrite length_app; simpl; lia).
    change (l1 ++ nl :: l2 ++ 0 :: T) with (l1 ++ [nl] ++ l2 ++ 0 :: T). rewrite app_assoc. apply take_app_length.
  - apply wp_ret. destruct (HA 0 (l2 ++ 0 :: T)) as (A' & E & L). exists A'.
    split; [by rewrite E, Hq, L|]. split; [done|]. rewrite app_nil_r. by destruct s.
Qed.

Lemma scan_spec pattern fuel A txt T s :
  nonzero txt → (length txt < fuel)%nat →
  wp (loop fuel (scan_body pattern) (holds A txt T, length A)) (λ r s', ∃ A',
    r = (holds A' (leftover [] txt) T, length A')
    ∧ (length A' + length (leftover [] txt) = length A + length txt)%nat
    ∧ s' = mk_io (input s) (cuts s) (output s ++ printed pattern (lines [] txt))) s.
Proof.
  revert A txt s. induction fuel as [|fuel IH]; intros A txt s Hz Hf; [lia|].
  cbn [loop]. apply wp_bind. destruct (first_line txt) as [(l1 & l2 & -> & Hn)|Hn].
  - apply Forall_app in Hz as [Hz1 [_ Hz2]%Forall_cons].
    eapply wp_mono; [|by apply scan_line]. intros r s1 (A' & -> & L & ->).
    rewrite length_app in Hf. simpl in Hf.
    eapply wp_mono; [|apply IH; [done|lia]].
    intros r s2 (A2 & -> & L2 & ->). simpl. destruct (lines_first [] l1 l2 Hn) as [-> ->].
    exists A2. split; [done|]. split; [rewrite length_app; simpl in *; lia|].
    f_equal. rewrite <- app_assoc, <- printed_app. done.
  - unfold scan_body, holds. rewrite drop_app_length, strchr_none by done. repeat apply wp_ret.
    destruct (lines_none [] txt Hn) as [-> ->]. exists A. split; [done|]. split; [simpl; lia|].
    unfold printed. simpl. rewrite app_nil_r. by destruct s.
Qed.

(** ** The outer loop *)

Lemma lines_long acc l n : Forall (λ x, (length x ≤ n)%nat) (lines acc l) → (n < length acc)%nat → lines acc l = [].
Proof.
  revert acc. induction l as [|b l IH]; intros acc H Hn; simpl in *; [done|]. destruct (b =? nl).
  - apply Forall_cons in H as [H _]. lia.
  - apply IH; [done|]. rewrite length_app. lia.
Qed.

Lemma leftover_nonzero acc l : nonzero acc → nonzero l → nonzero (leftover acc l).
Proof.
  unfold nonzero. revert acc. induction l as [|b l IH]; intros acc Ha Hl; simpl; [done|].
  apply Forall_cons in Hl as [Hb Hl]. destruct (b =? nl); apply IH; try done.
  apply Forall_app. split; [done|]. by apply Forall_singleton.
Qed.

Lemma lines_pend pend l : nl ∉ pend → lines [] (pend ++ l) = lines pend l ∧ leftover [] (pend ++ l) = leftover pend l.
Proof. intros H. rewrite lines_app, leftover_app. by destruct (lines_none [] pend H) as [-> ->]. Qed.

(** A read that is asked for [n] bytes. *)
Lemma read_spec n s :
  Forall is_Some (cuts s) →
  wp (read n) (λ r s', ∃ k, r = Some (take k (input s)) ∧ (k ≤ n)%nat ∧ ((0 < n)%nat → (0 < k)%nat)
    ∧ input s' = drop k (input s) ∧ output s' = output s ∧ Forall is_Some (cuts s')) s.
Proof.
  intros H. unfold read, wp. destruct (cuts s) as [|c cs] eqn:E.
  - exists n. simpl. repeat split; auto with lia.
  - apply Forall_cons in H as [[c0 ->] H]. exists (Nat.min n (Nat.max 1 c0)). simpl.
    split; [done|]. split; [lia|]. split; [lia|]. auto.
Qed.

Definition buffered (buf : list Z) (m : nat) (pend : list Z) : Prop :=
  length buf = bufsize ∧ take m buf = pend ∧ length pend = m ∧ (m < bufsize)%nat ∧ (nl ∉ pend) ∧ nonzero pend.

(** The buffer after a read and the scan of what it returned. *)
Lemma grep_round pattern buf m pend bytes s :
  buffered buf m pend → bytes ≠ [] → nonzero bytes → (length bytes ≤ bufsize - m - 1)%nat →
  wp (grep_scan pattern (<[(m + length bytes)%nat := 0]> (put_bytes buf m bytes)) (m + length bytes))
    (λ r s', ∃ buf' m', r = inl (buf', m') ∧ buffered buf' m' (leftover pend bytes)
      ∧ s' = mk_io (input s) (cuts s) (output s ++ printed pattern (lines pend bytes))) s.
Proof.
  intros (Hl & Hp & Hm & Hmb & Hnl & Hnz) Hne Hz Hle. unfold grep_scan.
  set (T := drop (S (m + length bytes)) buf).
  assert (<[(m + length bytes)%nat := 0]> (put_bytes buf m bytes) = holds [] (pend ++ bytes) T) as ->.
  { unfold put_bytes, holds. rewrite Hp. simpl.
    destruct (drop (m + length bytes) buf) as [|y r] eqn:E.
    { apply (f_equal length) in E. rewrite length_drop in E. simpl in E. lia. }
    rewrite app_assoc, (insert_at _ _ _ y) by (rewrite length_app; lia).
    f_equal. f_equal. unfold T. apply (f_equal (drop 1)) in E. rewrite drop_drop in E. cbn [drop] in E.
    rewrite drop_0 in E. rewrite <- E. f_equal. lia. }
  assert (length T = bufsize - S (m + length bytes))%nat as HT by (unfold T; rewrite length_drop; lia).
  apply wp_bind. eapply wp_mono; [|apply scan_spec].
  2: { apply Forall_app. done. }
  2: { rewrite length_app. lia. }
  intros r s' (A' & -> & L & ->). destruct (lines_pend pend bytes Hnl) as [E1 E2]. rewrite E1, E2 in *.
  rewrite length_app in L. simpl in L. destruct (Nat.ltb_spec 0 (m + length bytes)) as [_|Hc].
  2: { destruct bytes; [done|simpl in Hc; lia]. }
  apply wp_ret. eexists _, _. split; [done|]. split; [|done].
  unfold holds. rewrite drop_app_length.
  replace (m + length bytes - length A')%nat with (length (leftover pend bytes)) by lia.
  rewrite take_app_length. unfold put_bytes. simpl.
  split; [rewrite !length_app, length_drop, !length_app; simpl; lia|].
  split; [apply take_app_length|]. split; [done|]. split; [lia|].
  split; [by apply leftover_no_nl|by apply leftover_nonzero].
Qed.

Lemma grep_loop_spec pattern fuel buf m pend s :
  buffered buf m pend → nonzero (input s) → Forall is_Some (cuts s) → (length (input s) < fuel)%nat →
  Forall (λ l, (length l ≤ bufsize - 2)%nat) (lines pend (input s)) →
  wp (loop fuel (grep_body pattern) (buf, m))
    (λ _ s', output s' = output s ++ printed pattern (lines pend (input s))) s.
Proof.
  revert buf m pend s. induction fuel as [|fuel IH]; intros buf m pend s Hb Hz Hc Hf Hlen; [lia|].
  cbn [loop grep_body]. apply wp_bind, wp_bind. eapply wp_mono; [|by apply read_spec].
  intros r s1 (k & -> & Hk & Hk0 & Ei & Eo & Hc1).
  pose proof Hb as (Hl & _ & Hm & Hmb & _).
  destruct (take k (input s)) as [|b bs] eqn:Et.
  - repeat apply wp_ret. rewrite Eo. assert (lines pend (input s) = []) as ->; [|by rewrite app_nil_r].
    destruct (decide (m = bufsize - 1)%nat) as [->|Hne].
    + apply (lines_long _ _ (bufsize - 2)); [done|]. rewrite Hm. vm_compute. lia.
    + destruct (input s) as [|x xs]; [done|]. exfalso. assert (0 < k)%nat as Hk1 by (apply Hk0; unfold bufsize in *; lia).
      destruct k; [lia|done].
  - set (bytes := b :: bs) in *.
    assert (input s = bytes ++ input s1) as Es by (rewrite Ei, <- Et; symmetry; apply take_drop).
    rewrite Es in Hz, Hlen, Hf |- *. apply Forall_app in Hz as [Hz1 Hz2].
    rewrite lines_app in Hlen |- *. apply Forall_app in Hlen as [_ Hlen].
    eapply wp_mono; [|apply (grep_round pattern buf m pend bytes s1); [done|done|done|]].
    2: { rewrite <- Et, length_take. lia. }
    intros r s2 (buf' & m' & -> & Hb' & ->). rewrite length_app in Hf. simpl in Hf.
    eapply wp_mono; [|apply (IH buf' m' (leftover pend bytes)); simpl; try done; lia].
    simpl. intros _ s3 ->. by rewrite Eo, <- app_assoc, <- printed_app.
Qed.

(** C28: [grep] prints exactly the matching lines. For input without zero
    bytes whose complete lines have at most 1022 characters, however the reads
    cut the input, [grep(pattern, fd)] returns after printing, in order, each
    complete line that [match] accepts, and nothing else. *)
Theorem grep_prints_matching pattern s :
  nonzero (input s) → Forall is_Some (cuts s) →
  Forall (λ l, (length l ≤ 1022)%nat) (lines [] (input s)) →
  wp (grep pattern) (λ _ s', output s' = output s ++
    concat (map (λ l, if match_re pattern l then l ++ [nl] else []) (lines [] (input s)))) s.
Proof.
  intros Hz Hc Hlen. apply (grep_loop_spec pattern _ _ 0%nat []); try done; [|lia].
  split; [by rewrite length_replicate|]. repeat split; [|apply not_elem_of_nil|apply Forall_nil_2].
  vm_compute. lia.
Qed.

(** ["^a.*b$"] on the lines ["acb"], ["cab"], ["ab"] and an unfinished ["ab"],
    read in pieces of one, five and the remaining bytes. *)
Lemma grep_prints_matching_witness :
  let s := mk_io [97; 99; 98; 10; 99; 97; 98; 10; 97; 98; 10; 97; 98] [Some 1%nat; Some 5%nat] [] in
  let pattern := [94; 97; 46; 42; 98; 36] in
  match grep pattern s with Ret _ s' => output s' = [97; 99; 98; 10; 97; 98; 10] | _ => False end.
Proof.
  cbv zeta. set (s := mk_io _ _ _). set (pattern := [94; 97; 46; 42; 98; 36]).
  pose proof (grep_prints_matching pattern s) as H.
  destruct (wp_elim _ _ _ (H ltac:(repeat constructor; lia) ltac:(repeat constructor; eauto)
    ltac:(vm_compute; repeat constructor))) as (a & s' & -> & ->).
  vm_compute. reflexivity.
Defined.

(** A line of 1023 characters fills the buffer: the next read asks for no
    bytes, and what follows the line is not searched. *)
Example grep_long_line_stops :
  match grep [98] (mk_io (replicate 1023 97 ++ [10; 98; 10]) [] []) with
  | Ret _ s' => output s' = [] ∧ input s' = [10; 98; 10]
  | _ => False
  end.
Proof. vm_compute. done. Qed.
