(* ===== verification/Textutils.v ===== *)
(** * Text utilities ([user/wc.c], [user/cat.c], [main] of [user/grep.c])

    The programs read files piece by piece, as in Grep.v, and print. A program
    that calls [exit(1)] is a [Panic]; one that reaches [exit(0)] returns. A
    file argument is its name and, if it can be opened, its bytes; [close] has
    no effect on what is read and written. *)

From S2P Require Import Prelude.
From S2P Require Import Printf.
From S2P Require Import Ulib.
From S2P Require Import Grep.
#[local] Open Scope Z_scope.

Definition sizeof_buf : nat := 512.
Definition farg : Type := list Z * option (list Z).

(** [printf] to standard output. *)
Definition uprintf (fmt : string) (args : list Ulib.uarg) : M io unit := write (default [] (Ulib.fprintf fmt args)).
(** [open(argv[i], 0)]: the reads that follow are of this file. *)
Definition open_arg (f : farg) : M io bool := λ s,
  match f.2 with
  | Some bytes => Ret true (mk_io bytes (cuts s) (output s))
  | None => Ret false s
  end.

(** ** [wc] *)

(** The characters of " \r\t\n\v". *)
Definition blanks : list Z := [32; 13; 9; 10; 11].
Record counts := mk_counts { cl : Z; cw : Z; cc : Z; inword : bool }.

(** The body of [for(i=0; i<n; i++)]. *)
Definition wc_char (s : counts) (b : Z) : counts :=
  let c := s32 (cc s + 1) in
  let l := if b =? 10 then s32 (cl s + 1) else cl s in
  if existsb (Z.eqb b) blanks && negb (b =? 0) then mk_counts l (cw s) c false
  else if negb (inword s) then mk_counts l (s32 (cw s + 1)) c true
  else mk_counts l (cw s) c (inword s).

Definition wc_body (s : counts) : M io (counts + option counts) :=
  let! r := read sizeof_buf in
  match r with
  | None => ret (inr None)
  | Some [] => ret (inr (Some s))
  | Some bytes => ret (inl (foldl wc_char s bytes))
  end.
Definition wc (name : list Z) : M io unit := λ s0,
  (let! r := loop (S (length (input s0))) wc_body (mk_counts 0 0 0 false) in
   match r with
   | None => do! uprintf "wc: read error
" [] in panic "exit(1)"
   | Some s => uprintf "%d %d %d %s
" [Ulib.UInt (cl s); Ulib.UInt (cw s); Ulib.UInt (cc s); Ulib.UStr (Some name)]
   end) s0.
Definition wc_main (files : list farg) : M io unit :=
  match files with
  | [] => wc []
  | _ => for_each files (λ f,
      let! ok := open_arg f in
      if negb ok then do! uprintf "wc: cannot open %s
" [Ulib.UStr (Some f.1)] in panic "exit(1)"
      else wc f.1)
  end.

(** ** [cat] *)

(** With how many bytes each write can take (all, once the list ends) and what
    is written to the standard error. *)
Record cio := mk_cio { c_io : io; limits : list nat; errs : list Z }.
Definition with_io {A} (m : M io A) : M cio A := lift c_io (λ i s, mk_cio i (limits s) (errs s)) m.
Definition eprintf (fmt : string) (args : list Ulib.uarg) : M cio unit :=
  modify (λ s, mk_cio (c_io s) (limits s) (errs s ++ default [] (Ulib.fprintf fmt args))).
Definition write_some (bytes : list Z) : M cio nat := λ s,
  let k := match limits s with [] => length bytes | k :: _ => Nat.min k (length bytes) end in
  Ret k (mk_cio (mk_io (input (c_io s)) (cuts (c_io s)) (output (c_io s) ++ take k bytes)) (tail (limits s)) (errs s)).

Definition cat_body (_ : unit) : M cio (unit + bool) :=
  let! r := with_io (read sizeof_buf) in
  match r with
  | None => ret (inr false)
  | Some [] => ret (inr true)
  | Some bytes =>
      let! k := write_some bytes in
      if negb (k =? length bytes)%nat then
        do! eprintf "cat: write error
" [] in
        panic "exit(1)"
      else ret (inl tt)
  end.
Definition cat : M cio unit := λ s0,
  (let! ok := loop (S (length (input (c_io s0)))) cat_body tt in
   if negb ok then
     do! eprintf "cat: read error
" [] in
     panic "exit(1)"
   else ret tt) s0.
Definition cat_main (files : list farg) : M cio unit :=
  match files with
  | [] => cat
  | _ => for_each files (λ f,
      let! ok := with_io (open_arg f) in
      if negb ok then do! eprintf "cat: cannot open %s
" [Ulib.UStr (Some f.1)] in panic "exit(1)"
      else cat)
  end.

(** ** [grep] on files *)

(** With the arguments after the program's name; [args] is the pattern, if
    there is one, and the files. *)
Definition grep_main (args : option (list Z * list farg)) : M cio unit :=
  match args with
  | None => do! eprintf "usage: grep pattern [file ...]
" [] in panic "exit(1)"
  | Some (pattern, []) => with_io (grep pattern)
  | Some (pattern, files) => for_each files (λ f,
      let! ok := with_io (open_arg f) in
      if negb ok then do! with_io (uprintf "grep: cannot open %s
" [Ulib.UStr (Some f.1)]) in panic "exit(1)"
      else with_io (grep pattern))
  end.

(** ** Words *)

Definition is_blank (b : Z) : bool := existsb (Z.eqb b) blanks.

(** The words of [cur ++ l], where [cur] has no blanks. *)
Fixpoint words (cur l : list Z) : list (list Z) :=
  match l with
  | [] => if decide (cur = []) then [] else [cur]
  | b :: l' => if is_blank b then (if decide (cur = []) then words [] l' else cur :: words [] l') else words (cur ++ [b]) l'
  end.

(** They are not empty, have no blanks, and are all of the text but blanks. *)
Lemma words_spec l : ∀ cur, Forall (λ b, is_blank b = false) cur →
  Forall (λ w, w ≠ [] ∧ Forall (λ b, is_blank b = false) w) (words cur l) ∧
  concat (words cur l) = cur ++ filter (λ b, is_blank b = false) l.
Proof.
  induction l as [|b l IH]; intros cur Hc; cbn [words].
  - case_decide; [subst; done|]. split; [by apply Forall_singleton|done].
  - destruct (is_blank b) eqn:E.
    + destruct (IH [] (Forall_nil_2 _)) as [H1 H2]. rewrite filter_cons_False by congruence. case_decide; [by subst|].
      split; [by constructor|]. simpl. by rewrite H2.
    + rewrite filter_cons_True by done. destruct (IH (cur ++ [b])) as [H1 H2]; [apply Forall_app; split; [done|by apply Forall_singleton]|].
      split; [done|]. by rewrite H2, <- app_assoc.
Qed.

(** The counts after the text [l]. *)
Definition counted (l : list Z) (s : counts) : Prop :=
  cl s = Z.of_nat (length (filter (.= 10) l)) ∧ cw s = Z.of_nat (length (words [] l)) ∧ cc s = Z.of_nat (length l) ∧
  (inword s = true ↔ ∃ b, last l = Some b ∧ is_blank b = false).

Lemma words_snoc l : ∀ cur b, Forall (λ b, is_blank b = false) cur →
  length (words cur (l ++ [b])) =
    (length (words cur l) + (if is_blank b then 0 else match last (cur ++ l) with Some c => if is_blank c then 1 else 0 | None => 1 end))%nat.
Proof.
  induction l as [|c l IH]; intros cur b Hc; cbn [words app].
  - rewrite app_nil_r. destruct (is_blank b) eqn:E; [by case_decide; simpl|]. rewrite decide_False by (by destruct cur).
    destruct (decide (cur = [])) as [->|Hn]; [done|]. destruct (last cur) as [x|] eqn:El; [|by apply last_None in El].
    rewrite Forall_forall in Hc. apply last_Some_elem_of in El. by rewrite (Hc x El).
  - destruct (is_blank c) eqn:E.
    + assert (last (cur ++ c :: l) = last (c :: l)) as -> by (rewrite last_app, last_cons; by destruct (last l)).
      assert (match last (c :: l) with Some x => if is_blank x then 1 else 0 | None => 1 end =
        match last ([] ++ l) with Some x => if is_blank x then 1 else 0 | None => 1 end)%nat as ->.
      { destruct l as [|y l]; simpl; [by rewrite E|done]. }
      case_decide; simpl; rewrite IH by done; done.
    + rewrite IH; [|apply Forall_app; split; [done|by apply Forall_singleton]]. by rewrite <- app_assoc.
Qed.

Lemma words_le l : (length (words [] l) ≤ length l)%nat.
Proof.
  induction l as [|b l IH] using rev_ind; [done|]. rewrite words_snoc, length_app by done. simpl.
  repeat case_match; lia.
Qed.

Lemma counted_char l s b : counted l s → Z.of_nat (length l) + 1 < 2 ^ 31 → counted (l ++ [b]) (wc_char s b).
Proof.
  intros (Hl & Hw & Hc & Hi) Hlen. pose proof (words_le l) as Hlw. pose proof (length_filter (.= 10) l) as Hlf.
  assert (existsb (Z.eqb b) blanks && negb (b =? 0) = is_blank b) as Eb.
  { unfold is_blank. destruct (Z.eqb_spec b 0) as [->|]; [done|]. apply andb_true_r. }
  assert (∀ w i, counted (l ++ [b]) (mk_counts (if b =? 10 then s32 (cl s + 1) else cl s) w (s32 (cc s + 1)) i) ↔
    w = Z.of_nat (length (words [] (l ++ [b]))) ∧ (i = true ↔ is_blank b = false)) as Hgoal.
  { intros w i. unfold counted. cbn [cl cw cc inword]. rewrite last_snoc, filter_app, !length_app, Hl, Hc. simpl length.
    assert ((if b =? 10 then s32 (Z.of_nat (length (filter (.= 10) l)) + 1) else Z.of_nat (length (filter (.= 10) l))) =
      Z.of_nat (length (filter (.= 10) l) + length (filter (.= 10) [b]))) as ->.
    { destruct (Z.eqb_spec b 10); [rewrite filter_cons_True, s32_small by (done || lia)|rewrite filter_cons_False by done]; simpl; lia. }
    assert ((∃ x, Some b = Some x ∧ is_blank x = false) ↔ is_blank b = false) as -> by (split; [by intros (x & [= <-] & ?)|eauto]).
    rewrite s32_small by lia. split; [tauto|]. intros [H1 H2]. split_and!; [lia|done|lia|apply H2..]. }
  unfold wc_char. rewrite Eb. rewrite words_snoc in Hgoal by done. simpl app in Hgoal. destruct (is_blank b) eqn:E.
  - apply Hgoal. split; [lia|done].
  - assert (inword s = match last l with Some c => negb (is_blank c) | None => false end) as Ein.
    { destruct (last l) as [c|] eqn:El; [destruct (is_blank c) eqn:Ec|]; simpl.
      - apply not_true_iff_false. rewrite Hi. intros (x & [= <-] & Hx). congruence.
      - rewrite Hi. eauto.
      - apply not_true_iff_false. rewrite Hi. by intros (x & [=] & _). }
    destruct (inword s) eqn:Es; cbn [negb]; apply Hgoal; (split; [|done]); destruct (last l) as [c|]; try (destruct (is_blank c)); simpl in *; try done;
      rewrite ?s32_small by lia; lia.
Qed.

Lemma counted_bytes bytes : ∀ l s, counted l s → Z.of_nat (length (l ++ bytes)) < 2 ^ 31 → counted (l ++ bytes) (foldl wc_char s bytes).
Proof.
  induction bytes as [|b bytes IH]; intros l s H Hl; [by rewrite app_nil_r|]. simpl.
  replace (l ++ b :: bytes) with ((l ++ [b]) ++ bytes) in * by (by rewrite <- app_assoc).
  apply IH; [|done]. apply counted_char; [done|]. rewrite !length_app in Hl. simpl in Hl. lia.
Qed.

Lemma wc_loop_spec fuel : ∀ done st s, counted done st → Forall is_Some (cuts s) → (length (input s) < fuel)%nat →
  Z.of_nat (length (done ++ input s)) < 2 ^ 31 →
  wp (loop fuel wc_body st) (λ r s', ∃ st', r = Some st' ∧ counted (done ++ input s) st' ∧ output s' = output s ∧ Forall is_Some (cuts s')) s.
Proof.
  induction fuel as [|fuel IH]; intros l st s Hst Hc Hf Hlen; [lia|]. cbn [loop]. unfold wc_body at 1. apply wp_bind, wp_bind.
  eapply wp_mono; [|by apply read_spec]. intros r s1 (k & -> & Hk & Hk0 & Ei & Eo & Hc1).
  specialize (Hk0 ltac:(unfold sizeof_buf; lia)). destruct (take k (input s)) as [|b bs] eqn:Et.
  - apply wp_ret, wp_ret. exists st. assert (input s = []) as -> by (destruct (input s); [done|]; destruct k; [lia|done]). rewrite app_nil_r. done.
  - apply wp_ret. assert (input s = (b :: bs) ++ input s1) as Es by (rewrite Ei, <- Et; symmetry; apply take_drop).
    rewrite Es, app_assoc in *. rewrite length_app in Hf. simpl in Hf. rewrite <- Eo. apply IH; try done; [|lia].
    apply counted_bytes; [done|]. rewrite length_app in Hlen. lia.
Qed.

Lemma counted_zero : counted [] (mk_counts 0 0 0 false).
Proof. split_and!; try done. split; [done|]. by intros (x & [=] & _). Qed.

(** What [wc] prints for a file. *)
Definition wc_line (text name : list Z) : list Z :=
  default [] (Ulib.fprintf "%d %d %d %s
" [Ulib.UInt (Z.of_nat (length (filter (.= 10) text))); Ulib.UInt (Z.of_nat (length (words [] text)));
     Ulib.UInt (Z.of_nat (length text)); Ulib.UStr (Some name)]).

Lemma wc_prints name s : Forall is_Some (cuts s) → Z.of_nat (length (input s)) < 2 ^ 31 →
  wp (wc name) (λ _ s', output s' = output s ++ wc_line (input s) name ∧ Forall is_Some (cuts s')) s.
Proof.
  intros Hc Hlen. unfold wc. change (wp (bind (loop (S (length (input s))) wc_body (mk_counts 0 0 0 false)) (λ r,
    match r with
    | None => do! uprintf "wc: read error
" [] in panic "exit(1)"
    | Some s => uprintf "%d %d %d %s
" [Ulib.UInt (cl s); Ulib.UInt (cw s); Ulib.UInt (cc s); Ulib.UStr (Some name)]
    end)) (λ _ s', output s' = output s ++ wc_line (input s) name ∧ Forall is_Some (cuts s')) s).
  apply wp_bind. eapply wp_mono; [|apply (wc_loop_spec _ [] _ s counted_zero); [done|lia|done]].
  intros r s1 (st & -> & (E1 & E2 & E3 & _) & Eo & Hc1). unfold uprintf, write. apply wp_modify. simpl output. simpl cuts.
  rewrite Eo. split; [|done]. unfold wc_line. by rewrite E1, E2, E3.
Qed.

(** [wc] counts. For files of fewer than 2^31 bytes, however the reads cut
    them, [wc] prints for each file its number of newlines, of words (maximal
    runs of characters other than blanks) and of bytes, with its name, in the
    order of the arguments. *)
Theorem wc_counts (files : list (list Z * list Z)) s :
  files ≠ [] → Forall is_Some (cuts s) → Forall (λ f : list Z * list Z, Z.of_nat (length f.2) < 2 ^ 31) files →
  wp (wc_main (map (λ f, (f.1, Some f.2)) files)) (λ _ s', output s' = output s ++ concat (map (λ f, wc_line f.2 f.1) files)) s.
Proof.
  intros Hne Hc Hl. unfold wc_main. destruct (map _ files) as [|f0 fs0] eqn:Em; [by destruct files|]. rewrite <- Em. clear Hne Em f0 fs0.
  revert s Hc. induction Hl as [|f files Hf _ IH]; intros s Hc; simpl; [rewrite app_nil_r; done|].
  apply wp_bind. unfold open_arg, wp at 1, bind. simpl. 
  pose proof (wc_prints f.1 (mk_io f.2 (cuts s) (output s)) Hc Hf) as H. unfold wp in H. destruct (wc f.1 _) as [u s1| | |]; try done.
  destruct H as [Ho Hc1]. eapply wp_mono; [|apply (IH s1 Hc1)]. simpl. intros _ s2 ->. rewrite Ho. simpl. by rewrite <- app_assoc.
Qed.

(** ["a b\nc"] and the empty file, the first read in two pieces. *)
Lemma wc_counts_witness :
  wp (wc_main (map (λ f : list Z * list Z, (f.1, Some f.2)) [([120], [97; 32; 98; 10; 99]); ([121], [])]))
    (λ _ s', output s' = [] ++ concat (map (λ f, wc_line f.2 f.1) [([120], [97; 32; 98; 10; 99]); ([121], [])]))
    (mk_io [] [Some 3%nat] []).
Proof.
  apply (wc_counts [([120], [97; 32; 98; 10; 99]); ([121], [])] (mk_io [] [Some 3%nat] [])).
  - discriminate.
  - apply Forall_cons_2; [eexists; reflexivity|apply Forall_nil_2].
  - repeat apply Forall_cons_2; [vm_compute; reflexivity|vm_compute; reflexivity|apply Forall_nil_2].
Defined.
Example wc_line_ex : wc_line [97; 32; 98; 10; 99] [120] = bytes "1 3 5 x
".
Proof. reflexivity. Qed.

(** ** [cat] copies *)

Lemma read_input n s : ∃ r s', read n s = Ret r s' ∧ output s' = output s ∧
  match r with Some bytes => input s = bytes ++ input s' ∧ (bytes = [] → (0 < n)%nat → input s = []) | None => input s' = input s end.
Proof.
  unfold read. destruct (cuts s) as [|[c|] cs]; eexists _, _; (split; [reflexivity|]); (split; [done|]); simpl; [| |done].
  - split; [by rewrite take_drop|]. intros E Hn. destruct (input s); [done|]. by destruct n; [lia|].
  - split; [by rewrite take_drop|]. intros E Hn. destruct (input s); [done|]. destruct (Nat.min n (Nat.max 1 c)) eqn:Em; [lia|done].
Qed.

(** Output so far: a part of the input, all of it if the program returns. *)
Definition copied (s : cio) {A} (o : outcome cio A) : Prop :=
  ∃ k, let out s' := output (c_io s') = output (c_io s) ++ take k (input (c_io s)) in
  match o with
  | Ret _ s' => out s' ∧ (length (input (c_io s)) ≤ k)%nat
  | Panic _ s' => out s'
  | Sleeps _ _ | NoFuel _ => False
  end.

(** One turn of the loop. *)
Lemma cat_turn s : match cat_body tt s with
  | Ret (inl _) s' => ∃ bytes, bytes ≠ [] ∧ input (c_io s) = bytes ++ input (c_io s') ∧ output (c_io s') = output (c_io s) ++ bytes
  | Ret (inr ok) s' => output (c_io s') = output (c_io s) ∧ (ok = true → input (c_io s) = [])
  | Panic _ s' => ∃ k, output (c_io s') = output (c_io s) ++ take k (input (c_io s))
  | Sleeps _ _ | NoFuel _ => False
  end.
Proof.
  unfold cat_body, with_io, lift, bind. destruct (read_input sizeof_buf (c_io s)) as (r & i1 & E & Eo & Hr). rewrite E.
  destruct r as [[|b bs]|]; simpl; [split; [done|]; intros _; apply Hr; [done|unfold sizeof_buf; lia]| |done].
  destruct Hr as [Hr _]. set (bytes := b :: bs) in *. set (k := match limits s with [] => length bytes | k :: _ => Nat.min k (length bytes) end).
  change (match limits s with [] => S (length bs) | k :: _ => Nat.min k (S (length bs)) end) with k. change (S (length bs)) with (length bytes).
  assert (k ≤ length bytes)%nat as Hk by (unfold k; destruct (limits s); lia).
  destruct (Nat.eqb_spec k (length bytes)) as [Ek|Ek]; simpl.
  - exists bytes. split_and!; [done|done|]. by rewrite Eo, Ek, take_ge.
  - exists k. by rewrite Eo, Hr, take_app_le.
Qed.

Lemma cat_loop_copies fuel : ∀ s, (length (input (c_io s)) < fuel)%nat →
  copied s ((let! ok := loop fuel cat_body tt in if negb ok then (do! eprintf "cat: read error
" [] in panic "exit(1)") else ret tt) s).
Proof.
  induction fuel as [|fuel IH]; intros s Hf; [lia|]. pose proof (cat_turn s) as Ht. unfold copied. cbn [loop]. unfold bind at 1 2.
  destruct (cat_body tt s) as [[[]|ok] s1|m s1|ch s1|s1]; try done.
  - destruct Ht as (bytes & Hne & Hi & Ho). rewrite Hi, length_app in Hf. destruct (IH s1) as [k Hk]; [destruct bytes; [done|simpl in Hf; lia]|].
    exists (length bytes + k)%nat. cbv zeta in *. unfold bind at 1 in Hk.
    rewrite Hi, take_app_add. destruct (loop fuel cat_body tt s1) as [ok s2|m s2|ch s2|s2]; try done.
    + destruct ok; simpl in *; [destruct Hk as [-> Hk]|rewrite Hk]; rewrite Ho, <- app_assoc; [split; [done|rewrite length_app; lia]|done].
    + by rewrite Hk, Ho, <- app_assoc.
  - destruct Ht as [Ho Hi]. exists 0%nat. cbv zeta. destruct ok; simpl; rewrite Ho, app_nil_r; [|done]. split; [done|]. by rewrite Hi.
Qed.

(** [cat] writes a part of its input and nothing else, whatever reads and
    writes do, and all of it if it returns; it does not end early if every read
    succeeds and every write takes what it is given. *)
Theorem cat_copies s :
  copied s (cat s) ∧
  (Forall is_Some (cuts (c_io s)) → limits s = [] →
   wp cat (λ _ s', output (c_io s') = output (c_io s) ++ input (c_io s)) s).
Proof.
  assert (copied s (cat s)) as Hc by (apply cat_loop_copies; lia). split; [done|]. intros Hr Hw.
  assert (∀ fuel s, (length (input (c_io s)) < fuel)%nat → Forall is_Some (cuts (c_io s)) → limits s = [] →
    ∃ s', loop fuel cat_body tt s = Ret true s') as Hret.
  { clear. induction fuel as [|fuel IH]; intros s Hf Hr Hw; [lia|]. cbn [loop]. unfold cat_body at 1, with_io, lift, bind.
    pose proof (read_spec sizeof_buf (c_io s) Hr) as H. unfold wp in H. destruct (read sizeof_buf (c_io s)) as [r i1| | |]; try done.
    destruct H as (k & -> & Hk & Hk0 & Ei & _ & Hc). specialize (Hk0 ltac:(unfold sizeof_buf; lia)).
    destruct (take k (input (c_io s))) as [|b bs] eqn:Et; [eexists; reflexivity|].
    unfold write_some. cbn [limits c_io]. rewrite Hw, Nat.eqb_refl. cbn [negb]. unfold ret at 1. apply IH; [|done|done].
    simpl. rewrite Ei, length_drop. apply (f_equal length) in Et. rewrite length_take in Et. simpl in Et. lia. }
  destruct (Hret (S (length (input (c_io s)))) s ltac:(lia) Hr Hw) as [s' E].
  unfold wp, cat in *. unfold bind in *. rewrite E in *. simpl in *. destruct Hc as (k & Ho & Hk). by rewrite Ho, take_ge.
Qed.
