(* ===== verification/Ls.v ===== *)
(** * [ls] ([user/ls.c], [stat] of [user/ulib.c])

    What the kernel answers is a parameter: [look] gives, for a path that can
    be opened, the result of [fstat] and the bytes that [read] returns. The two
    character arrays are lists of their size, and a write outside of them is a
    [Panic]. *)

From S2P Require Import Prelude.
From S2P Require Import Machine.
From S2P Require Import Printf.
From S2P Require Import Fs.
From S2P Require Import FsInode.
From S2P Require Import Ulib.
#[local] Open Scope Z_scope.

Record node := mk_node { n_stat : option stat; n_bytes : list Z }.

(** Standard output and error, and the static buffer of [fmtname]. *)
Record lsst := mk_lsst { l_out : list Z; l_err : list Z; fbuf : list Z }.
Definition lprintf (fmt : string) (args : list Ulib.uarg) : M lsst unit :=
  modify (λ s, mk_lsst (l_out s ++ default [] (Ulib.fprintf fmt args)) (l_err s) (fbuf s)).
Definition leprintf (fmt : string) (args : list Ulib.uarg) : M lsst unit :=
  modify (λ s, mk_lsst (l_out s) (l_err s ++ default [] (Ulib.fprintf fmt args)) (fbuf s)).

(** [bs] is stored from index [pos] of the array on. *)
Definition array_put (buf : list Z) (pos : nat) (bs : list Z) : M lsst (list Z) :=
  if (pos + length bs <=? length buf)%nat then ret (splice buf pos bs) else panic "out of bounds".

(** ** [fmtname] *)

(** The loop from [p = path + n] down, and the [p++] after it. *)
Fixpoint slash_from (path : list Z) (n : nat) : nat :=
  match n with
  | O => if default 0 (path !! O) =? 47 then 1 else 0
  | S n' => if default 0 (path !! n) =? 47 then S n else slash_from path n'
  end.
Definition fmtname (path : list Z) : M lsst (list Z) :=
  let p := drop (slash_from path (length path)) path in
  if (DIRSIZ <=? length p)%nat then ret p
  else
    let! buf := gets fbuf in
    let! buf := array_put buf 0 p in
    let! buf := array_put buf (length p) (replicate (DIRSIZ - length p) 32) in
    do! modify (λ s, mk_lsst (l_out s) (l_err s) buf) in
    ret (until_nul buf).

(** ** [ls] *)

Definition sizeof_lsbuf : nat := 512.

Section ls.
Context (look : list Z → option node).

(** [stat(n, &st)] of the library. *)
Definition ustat (n : list Z) : option stat := match look n with Some f => n_stat f | None => None end.

(** The [while] loop, with the bytes that are left to read; [p] is the index
    after the slash. *)
Fixpoint ls_entries (fuel : nat) (bytes buf : list Z) (p : nat) : M lsst unit :=
  match fuel with
  | O => λ s, NoFuel s
  | S fuel' =>
      let de := take 16 bytes in
      if negb (length de =? 16)%nat then ret tt
      else if de_inum de =? 0 then ls_entries fuel' (drop 16 bytes) buf p
      else
        let! buf := array_put buf p (de_name de) in
        let! buf := array_put buf (p + DIRSIZ) [0] in
        let name := until_nul buf in
        do! (match ustat name with
             | None => lprintf "ls: cannot stat %s
" [Ulib.UStr (Some name)]
             | Some st =>
                 let! nm := fmtname name in
                 lprintf "%s %d %d %d
" [Ulib.UStr (Some nm); Ulib.UInt (st_type st); Ulib.UInt (s32 (st_ino st)); Ulib.UInt (s32 (st_size st))]
             end) in
        ls_entries fuel' (drop 16 bytes) buf p
  end.

(** [buf0] is what the array on the stack holds. *)
Definition ls (buf0 path : list Z) : M lsst unit :=
  match look path with
  | None => leprintf "ls: cannot open %s
" [Ulib.UStr (Some path)]
  | Some f =>
      match n_stat f with
      | None => leprintf "ls: cannot stat %s
" [Ulib.UStr (Some path)]
      | Some st =>
          if (st_type st =? T_DEVICE) || (st_type st =? T_FILE) then
            let! nm := fmtname path in
            lprintf "%s %d %d %l
" [Ulib.UStr (Some nm); Ulib.UInt (st_type st); Ulib.UInt (s32 (st_ino st)); Ulib.ULong (st_size st)]
          else if st_type st =? T_DIR then
            if (sizeof_lsbuf <? length path + 1 + DIRSIZ + 1)%nat then lprintf "ls: path too long
" []
            else
              let! buf := array_put buf0 0 (path ++ [0]) in
              let! buf := array_put buf (length path) [47] in
              ls_entries (S (length (n_bytes f))) (n_bytes f) buf (length path + 1)
          else ret tt
      end
  end.
Definition ls_main (buf0 : list Z) (args : list (list Z)) : M lsst unit :=
  match args with
  | [] => ls buf0 (bytes ".")
  | _ => for_each args (ls buf0)
  end.
End ls.

(** ** Names *)

Lemma slash_from_last d b n : 47 ∉ b → (d = [] ∨ last d = Some 47) → (length d ≤ S n)%nat → (n ≤ length (d ++ b))%nat →
  slash_from (d ++ b) n = length d.
Proof.
  intros Hb Hd. assert (∀ n, (length d ≤ n)%nat → (default 0 ((d ++ b) !! n) =? 47) = false) as Hr.
  { intros k Hk. rewrite lookup_app_r by done. apply Z.eqb_neq. destruct (b !! (k - length d)%nat) as [c|] eqn:E; [|done].
    simpl. intros ->. apply Hb. by eapply list_elem_of_lookup_2. }
  assert (∀ n, length d = S n → (default 0 ((d ++ b) !! n) =? 47) = true) as Hl.
  { intros k Hk. destruct Hd as [->|Hd]; [done|]. rewrite lookup_app_l by lia. rewrite last_lookup, Hk in Hd. simpl in Hd. by rewrite Hd. }
  induction n as [|n IH]; intros Hn Hle; cbn [slash_from].
  - destruct (decide (length d = 0)%nat) as [E|E]; [rewrite Hr by lia; lia|]. rewrite Hl by lia. lia.
  - destruct (decide (length d = S (S n))) as [E|E]; [rewrite Hl by done; lia|]. rewrite Hr by lia. apply IH; lia.
Qed.

(** A name in a column of [DIRSIZ] characters. *)
Definition padded (b : list Z) : list Z := b ++ replicate (DIRSIZ - length b) 32.

(** The static buffer keeps a nul in its last byte. *)
Definition fbuf_ok (s : lsst) : Prop := length (fbuf s) = 15%nat ∧ fbuf s !! 14%nat = Some 0.

Lemma until_nul_app l r : Forall (λ c, c ≠ 0) l → until_nul (l ++ 0 :: r) = l.
Proof. induction 1 as [|c l Hc _ IH]; [done|]. simpl. destruct (Z.eqb_spec c 0); [done|]. by rewrite IH. Qed.

Lemma splice_zero buf bs : splice buf 0 bs = bs ++ drop (length bs) buf.
Proof. done. Qed.

Lemma fmtname_pads d b s : 47 ∉ b → (d = [] ∨ last d = Some 47) → Forall (λ c, c ≠ 0) b → (length b ≤ DIRSIZ)%nat → fbuf_ok s →
  ∃ s', fmtname (d ++ b) s = Ret (padded b) s' ∧ l_out s' = l_out s ∧ l_err s' = l_err s ∧ fbuf_ok s'.
Proof.
  intros Hb Hd Hn Hl [Hlen H14]. unfold fmtname. rewrite slash_from_last by (done || rewrite ?length_app; lia). rewrite drop_app_length. unfold padded.
  destruct (Nat.leb_spec DIRSIZ (length b)) as [Hge|Hlt].
  - exists s. replace (DIRSIZ - length b)%nat with 0%nat by lia. by rewrite app_nil_r.
  - unfold DIRSIZ in *. unfold bind at 1, gets, array_put. rewrite (proj2 (Nat.leb_le _ _)) by lia. unfold bind at 1, ret at 1.
    rewrite length_splice, length_replicate, Hlen, (proj2 (Nat.leb_le _ _)) by lia. unfold bind, ret, modify.
    set (buf := splice (splice (fbuf s) 0 b) (length b) (replicate (14 - length b) 32)).
    assert (buf = (b ++ replicate (14 - length b) 32) ++ [0]) as ->.
    { unfold buf. rewrite splice_zero. unfold splice. rewrite take_app_length, length_replicate, <- app_assoc. do 2 f_equal.
      rewrite drop_app_ge, drop_drop by lia. replace (length b + (length b + (14 - length b) - length b))%nat with 14%nat by lia.
      apply drop_S in H14. rewrite H14, drop_ge by lia. done. }
    eexists. rewrite until_nul_app; [|apply Forall_app; split; [done|by apply Forall_replicate]]. split; [reflexivity|]. split_and!; try done.
    split; cbn [fbuf]; [rewrite !length_app, length_replicate; simpl; lia|].
    rewrite lookup_app_r by (rewrite length_app, length_replicate; lia). rewrite length_app, length_replicate.
    by replace (14 - (length b + (14 - length b)))%nat with 0%nat by lia.
Qed.

(** ** Directories *)

Definition entry : Type := Z * list Z.
Definition entry_ok (e : entry) : Prop :=
  0 ≤ e.1 < 65536 ∧ (length e.2 ≤ DIRSIZ)%nat ∧ (47 ∉ e.2) ∧ Forall (λ c, c ≠ 0) e.2.
(** The 16 bytes of an entry on the disk. *)
Definition encode (e : entry) : list Z := mk_dirent e.1 (e.2 ++ replicate (DIRSIZ - length e.2) 0).

Lemma length_encode e : entry_ok e → length (encode e) = 16%nat.
Proof. intros (_ & Hl & _). unfold encode, mk_dirent. unfold DIRSIZ in *. rewrite !length_app, length_replicate. simpl. lia. Qed.
Lemma encode_inum e : entry_ok e → de_inum (encode e) = e.1.
Proof.
  intros ((H0 & H1) & _). unfold de_inum, get16, encode, mk_dirent. rewrite drop_0, take_app_length' by done. rewrite le_value_le_bytes. apply Z.mod_small. simpl. lia.
Qed.
Lemma encode_name e : entry_ok e → de_name (encode e) = e.2 ++ replicate (DIRSIZ - length e.2) 0.
Proof.
  intros (_ & Hl & _). unfold de_name, encode, mk_dirent. rewrite drop_app_length' by done. apply take_ge.
  rewrite length_app, length_replicate. lia.
Qed.

Section lists.
Context (look : list Z → option node).

(** The line for an entry of the directory [path]. *)
Definition entry_line (path : list Z) (e : entry) : list Z :=
  let full := path ++ [47] ++ e.2 in
  default [] (match ustat look full with
              | None => Ulib.fprintf "ls: cannot stat %s
" [Ulib.UStr (Some full)]
              | Some st => Ulib.fprintf "%s %d %d %d
" [Ulib.UStr (Some (padded e.2)); Ulib.UInt (st_type st); Ulib.UInt (s32 (st_ino st)); Ulib.UInt (s32 (st_size st))]
              end).

(** The buffer holds the directory and a slash. *)
Definition buf_at (path buf : list Z) : Prop := (length buf = sizeof_lsbuf) ∧ ∃ rest, buf = path ++ [47] ++ rest.

Lemma array_put_ok buf pos bs s : (pos + length bs ≤ length buf)%nat → array_put buf pos bs s = Ret (splice buf pos bs) s.
Proof. intros H. unfold array_put. by rewrite (proj2 (Nat.leb_le _ _) H). Qed.

Lemma put_name path buf nm : buf_at path buf → (length path + 1 + length nm + 1 ≤ sizeof_lsbuf)%nat →
  ∃ rest, splice (splice buf (length path + 1) nm) (length path + 1 + length nm) [0] = path ++ [47] ++ nm ++ 0 :: rest ∧
    length (path ++ [47] ++ nm ++ 0 :: rest) = sizeof_lsbuf.
Proof.
  intros [Hlen [rest ->]] Hl. rewrite app_assoc in *. set (d := path ++ [47]) in *. replace (length path + 1)%nat with (length d) in * by (unfold d; rewrite length_app; simpl; lia).
  rewrite length_app in Hlen. unfold splice at 2. rewrite take_app_length, drop_app_ge by lia.
  replace (length d + length nm - length d)%nat with (length nm) by lia. unfold splice. rewrite (app_assoc d nm), <- length_app, take_app_length.
  rewrite drop_app_ge by (simpl; lia). exists (drop 1 (drop (length nm) rest)). rewrite length_app. simpl length.
  replace (length d + length nm + 1 - (length d + length nm))%nat with 1%nat by lia. unfold d. rewrite <- !app_assoc. split; [done|].
  unfold d in Hlen, Hl. repeat (rewrite ?length_app, ?length_cons, ?length_drop in *; simpl in * ). lia.
Qed.

Lemma ls_entries_spec path es : Forall (λ c, c ≠ 0) path → (length path + 1 + DIRSIZ + 1 ≤ sizeof_lsbuf)%nat → Forall entry_ok es →
  ∀ fuel buf s, buf_at path buf → fbuf_ok s → (length es < fuel)%nat →
  ∃ s', ls_entries look fuel (concat (map encode es)) buf (length path + 1) s = Ret tt s' ∧ l_err s' = l_err s ∧ fbuf_ok s' ∧
    l_out s' = l_out s ++ concat (map (entry_line path) (filter (λ e, e.1 ≠ 0) es)).
Proof.
  intros Hp Hfit. induction 1 as [|e es He Hes IH]; intros fuel buf s Hb Hs Hf; (destruct fuel as [|fuel]; [simpl in Hf; lia|]).
  - exists s. by rewrite app_nil_r.
  - cbn [ls_entries map concat]. rewrite take_app_length', drop_app_length', length_encode by (done || symmetry; by apply length_encode). cbn [Nat.eqb negb].
    rewrite encode_inum by done. simpl in Hf. destruct (Z.eqb_spec e.1 0) as [E|E].
    { rewrite filter_cons_False by tauto. apply IH; [done|done|lia]. }
    rewrite filter_cons_True by done. cbn [map concat]. rewrite encode_name by done. set (nm := e.2 ++ replicate (DIRSIZ - length e.2) 0).
    destruct He as (_ & Hl & Hsl & Hnz). assert (length nm = DIRSIZ) as Hnm by (unfold nm; rewrite length_app, length_replicate; lia).
    destruct (put_name path buf nm Hb ltac:(by rewrite Hnm)) as (rest & Eb & Hblen). destruct Hb as [Hlen _].
    unfold bind at 1. rewrite array_put_ok by lia. unfold bind at 1. rewrite array_put_ok by (rewrite length_splice; simpl; lia).
    rewrite Hnm in Eb. rewrite Eb. clear Eb.
    assert (until_nul (path ++ [47] ++ nm ++ 0 :: rest) = path ++ [47] ++ e.2) as ->.
    { unfold nm. rewrite <- app_assoc. destruct (replicate (DIRSIZ - length e.2) 0 ++ 0 :: rest) as [|z zs] eqn:Ez; [by destruct (DIRSIZ - _)%nat|].
      assert (z = 0) as -> by (destruct (DIRSIZ - _)%nat; simpl in Ez; congruence). rewrite !app_assoc. apply until_nul_app.
      repeat (apply Forall_app; split); try done. by apply Forall_singleton. }
    set (full := path ++ [47] ++ e.2). unfold bind at 1.
    assert (∃ s1, (match ustat look full with
      | None => lprintf "ls: cannot stat %s
" [Ulib.UStr (Some full)]
      | Some st => let! nm := fmtname full in lprintf "%s %d %d %d
" [Ulib.UStr (Some nm); Ulib.UInt (st_type st); Ulib.UInt (s32 (st_ino st)); Ulib.UInt (s32 (st_size st))]
      end) s = Ret tt s1 ∧ l_err s1 = l_err s ∧ fbuf_ok s1 ∧ l_out s1 = l_out s ++ entry_line path e) as (s1 & -> & He1 & Hf1 & Ho1).
    { unfold entry_line. fold full. destruct (ustat look full) as [st|]; [|by eexists].
      destruct (fmtname_pads (path ++ [47]) e.2 s Hsl ltac:(right; apply last_snoc) Hnz Hl Hs) as (s1 & E1 & Eo & Ee & Hs1).
      unfold bind. replace full with ((path ++ [47]) ++ e.2) by (unfold full; by rewrite <- app_assoc). rewrite E1. eexists. split; [reflexivity|].
      cbn [l_err l_out]. rewrite Eo. done. }
    destruct (IH fuel (path ++ [47] ++ nm ++ 0 :: rest) s1) as (s' & -> & He' & Hf' & Ho'); [split; [done|by eexists]|done|lia|].
    exists s'. split_and!; [done|congruence|apply Hf'..|]. by rewrite Ho', Ho1, <- app_assoc.
Qed.

(** [ls] lists a directory. For a path that leaves room for a name in the
    buffer, [ls] prints a line for every entry in use, in the order of the
    directory: the name in its column with the type, number and size of the
    file, or that it cannot be found. No write leaves the arrays. *)
Theorem ls_lists buf0 path st es s :
  length buf0 = sizeof_lsbuf → (length path + 1 + DIRSIZ + 1 ≤ sizeof_lsbuf)%nat → Forall (λ c, c ≠ 0) path →
  look path = Some (mk_node (Some st) (concat (map encode es))) → st_type st = T_DIR → Forall entry_ok es → fbuf_ok s →
  ∃ s', ls look buf0 path s = Ret tt s' ∧ l_err s' = l_err s ∧
    l_out s' = l_out s ++ concat (map (entry_line path) (filter (λ e, e.1 ≠ 0) es)).
Proof.
  intros Hb0 Hfit Hp Hlook Ht Hes Hs. unfold ls. rewrite Hlook. cbn [n_stat n_bytes]. rewrite Ht.
  change (T_DIR =? T_DEVICE) with false. change (T_DIR =? T_FILE) with false. change (T_DIR =? T_DIR) with true. cbn [orb].
  rewrite (proj2 (Nat.ltb_ge _ _)) by done. unfold bind at 1. rewrite array_put_ok by (rewrite length_app; simpl; lia).
  assert (length (splice buf0 0 (path ++ [0])) = sizeof_lsbuf) as Hb1 by (rewrite length_splice by (rewrite length_app; simpl; lia); done).
  unfold bind at 1. rewrite array_put_ok by (rewrite Hb1; simpl; lia).
  destruct (ls_entries_spec path es Hp Hfit Hes (S (length (concat (map encode es))))
    (splice (splice buf0 0 (path ++ [0])) (length path) [47]) s) as (s' & E & He & _ & Ho); [|done| |by exists s'].
  - split; [by rewrite length_splice by (rewrite Hb1; simpl; lia)|].
    exists (drop (length path + 1) buf0). rewrite splice_zero. unfold splice. rewrite <- app_assoc, take_app_length. do 2 f_equal.
    rewrite drop_app_ge by (simpl; lia). simpl. replace (length path + 1 - length path)%nat with 1%nat by lia.
    simpl. by rewrite drop_0, length_app.
  - clear -Hes. induction Hes as [|e es He _ IH]; cbn [map concat]; [simpl; lia|]. rewrite length_app, (length_encode e He). cbn [length]. lia.
Qed.

(** A path that leaves no room is refused before anything is copied. *)
Theorem ls_refuses buf0 path f st s :
  look path = Some f → n_stat f = Some st → st_type st = T_DIR → (sizeof_lsbuf < length path + 1 + DIRSIZ + 1)%nat →
  ls look buf0 path s = lprintf "ls: path too long
" [] s.
Proof.
  intros Hlook Hst Ht Hl. unfold ls. rewrite Hlook, Hst, Ht. change (T_DIR =? T_DEVICE) with false. change (T_DIR =? T_FILE) with false.
  change (T_DIR =? T_DIR) with true. cbn [orb]. by rewrite (proj2 (Nat.ltb_lt _ _) Hl).
Qed.
End lists.

(** The root of a small file system, with an entry that is not in use and one
    whose file is gone. *)
Definition demo_entries : list entry := [(1, bytes "."); (0, bytes "old"); (2, bytes "README"); (3, bytes "gone")].
Definition demo_look (path : list Z) : option node :=
  if decide (path = bytes "/") then Some (mk_node (Some (mk_stat 1 1 T_DIR 1 64)) (concat (map encode demo_entries)))
  else if decide (path = bytes "//.") then Some (mk_node (Some (mk_stat 1 1 T_DIR 1 64)) [])
  else if decide (path = bytes "//README") then Some (mk_node (Some (mk_stat 1 2 T_FILE 1 2059)) [])
  else None.
Definition demo_lsst : lsst := mk_lsst [] [] (replicate 15 0).

Lemma ls_lists_witness : ∃ s', ls demo_look (replicate 512 170) (bytes "/") demo_lsst = Ret tt s' ∧ l_err s' = [] ∧
  l_out s' = bytes ".              1 1 64
README         2 2 2059
ls: cannot stat //gone
".
Proof.
  destruct (ls_lists demo_look (replicate 512 170) (bytes "/") (mk_stat 1 1 T_DIR 1 64) demo_entries demo_lsst) as (s' & E & He & Ho).
  - reflexivity.
  - vm_compute. lia.
  - apply Forall_singleton. discriminate.
  - vm_compute. reflexivity.
  - reflexivity.
  - repeat (apply Forall_cons_2; [split; [vm_compute; split; [discriminate|reflexivity]|split; [vm_compute; lia|split; [|repeat (apply Forall_cons_2; [discriminate|]); apply Forall_nil_2]]]; apply (bool_decide_unpack _); vm_compute; exact I|]).
    apply Forall_nil_2.
  - split; reflexivity.
  - exists s'. split; [exact E|]. split; [exact He|]. rewrite Ho. vm_compute. reflexivity.
Defined.
