(* ===== verification/Sh.v ===== *)
(** * The command parser of the shell ([user/sh.c])

    The line is an array of characters [s] followed by a zero; [char *ps] is a
    position in it and the parser's state. Commands refer to their words by
    the positions [q] and [eq] of their ends until [nulterminate] writes zeros
    at the latter. Running out of the recursion bound is [NoFuel]. *)

From S2P Require Import Prelude.
From S2P Require Import Machine.
#[local] Open Scope Z_scope.

Definition MAXARGS : nat := 10.

Definition whitespace : list Z := [32; 9; 13; 10; 11].
Definition symbols : list Z := [60; 124; 62; 38; 59; 40; 41].
Definition c_bar : Z := 124.
Definition c_lp : Z := 40.
Definition c_rp : Z := 41.
Definition c_semi : Z := 59.
Definition c_amp : Z := 38.
Definition c_lt : Z := 60.
Definition c_gt : Z := 62.
Definition tok_append : Z := 43.
Definition tok_word : Z := 97.

(** [struct cmd]: a word is the pair of its [q] and [eq]. *)
Definition span : Type := nat * nat.
Inductive cmd :=
| EXEC (argv : list span)
| REDIR (c : cmd) (file : span) (mode fd : Z)
| PIPE (left right : cmd)
| LIST (left right : cmd)
| BACK (c : cmd).

(** [strchr(toks, c)] is not null; the terminating zero is not found. *)
Definition in_set (toks : list Z) (c : Z) : bool := negb (c =? 0) && existsb (Z.eqb c) toks.

Section parser.
(** The characters before the terminating zero. *)
Context (s : list Z).
Definition es : nat := length s.
(** [*p], which is zero at [es]. *)
Definition at_pos (p : nat) : Z := nth p s 0.

(** [while(s < es && test( *s )) s++;] *)
Fixpoint skip_while (test : Z → bool) (k : nat) (p : nat) : nat :=
  match k with
  | O => p
  | S k' => if (p <? es)%nat && test (at_pos p) then skip_while test k' (S p) else p
  end.
Definition skip_ws (p : nat) : nat := skip_while (in_set whitespace) es p.
Definition is_word_char (c : Z) : bool := negb (in_set whitespace c) && negb (in_set symbols c).

(** Returns the token and the span of its text. *)
Definition gettoken : M nat (Z * span) := λ ps,
  let q := skip_ws ps in
  let c := at_pos q in
  let '(r, eq) :=
    if c =? 0 then (0, q)
    else if existsb (Z.eqb c) [c_bar; c_lp; c_rp; c_semi; c_amp; c_lt] then (c, S q)
    else if c =? c_gt then
      if at_pos (S q) =? c_gt then (tok_append, S (S q)) else (c, S q)
    else (tok_word, skip_while is_word_char es q) in
  Ret (r, (q, eq)) (skip_ws eq).

Definition peek (toks : list Z) : M nat bool := λ ps,
  let p := skip_ws ps in Ret (in_set toks (at_pos p)) p.

(** One redirection of the loop of [parseredirs]: the file, mode and
    descriptor to pass to [redircmd]. *)
Definition parseredir : M nat (span * Z * Z) :=
  let! t := gettoken in
  let! f := gettoken in
  if negb (f.1 =? tok_word) then panic "missing file for redirection"
  else
    if t.1 =? c_lt then ret (f.2, O_RDONLY, 0)
    else if t.1 =? c_gt then ret (f.2, Z.lor (Z.lor O_WRONLY O_CREATE) O_TRUNC, 1)
    else ret (f.2, Z.lor O_WRONLY O_CREATE, 1).

(** [redircmd] around a command whose [struct execcmd] may still be filled
    in: the wrappers so far, innermost first. *)
Definition wrap (rs : list (span * Z * Z)) (c : cmd) : cmd :=
  fold_left (λ c r, REDIR c r.1.1 r.1.2 r.2) rs c.

Fixpoint parseredirs (fuel : nat) (rs : list (span * Z * Z)) : M nat (list (span * Z * Z)) :=
  match fuel with
  | O => λ p, NoFuel p
  | S fuel' =>
      let! more := peek [c_lt; c_gt] in
      if more then
        let! r := parseredir in
        parseredirs fuel' (rs ++ [r])
      else ret rs
  end.

(** The loop of [parseexec] over arguments. *)
Fixpoint parseargs (fuel : nat) (argv : list span) (rs : list (span * Z * Z)) : M nat cmd :=
  match fuel with
  | O => λ p, NoFuel p
  | S fuel' =>
      let! stop := peek [c_bar; c_rp; c_amp; c_semi] in
      if stop then ret (wrap rs (EXEC argv))
      else
        let! t := gettoken in
        if t.1 =? 0 then ret (wrap rs (EXEC argv))
        else if negb (t.1 =? tok_word) then panic "syntax"
        else
          let argv := argv ++ [t.2] in
          if (MAXARGS <=? length argv)%nat then panic "too many args"
          else
            let! rs := parseredirs fuel' rs in
            parseargs fuel' argv rs
  end.

(** [while(peek(ps, es, "&")){ gettoken(ps, es, 0, 0); cmd = backcmd(cmd); }] *)
Fixpoint parseback (fuel : nat) (c : cmd) : M nat cmd :=
  match fuel with
  | O => λ p, NoFuel p
  | S fuel' =>
      let! more := peek [c_amp] in
      if more then do! gettoken in parseback fuel' (BACK c) else ret c
  end.

Fixpoint parseline (fuel : nat) : M nat cmd :=
  match fuel with
  | O => λ p, NoFuel p
  | S fuel' =>
      let! c := parsepipe fuel' in
      let! c := parseback fuel' c in
      let! more := peek [c_semi] in
      if more then
        do! gettoken in
        let! r := parseline fuel' in
        ret (LIST c r)
      else ret c
  end
with parsepipe (fuel : nat) : M nat cmd :=
  match fuel with
  | O => λ p, NoFuel p
  | S fuel' =>
      let! c := parseexec fuel' in
      let! more := peek [c_bar] in
      if more then
        do! gettoken in
        let! r := parsepipe fuel' in
        ret (PIPE c r)
      else ret c
  end
with parseexec (fuel : nat) : M nat cmd :=
  match fuel with
  | O => λ p, NoFuel p
  | S fuel' =>
      let! block := peek [c_lp] in
      if block then parseblock fuel'
      else
        let! rs := parseredirs fuel' [] in
        parseargs fuel' [] rs
  end
with parseblock (fuel : nat) : M nat cmd :=
  match fuel with
  | O => λ p, NoFuel p
  | S fuel' =>
      let! open := peek [c_lp] in
      if negb open then panic "parseblock"
      else
        do! gettoken in
        let! c := parseline fuel' in
        let! close := peek [c_rp] in
        if negb close then panic "syntax - missing )"
        else
          do! gettoken in
          let! rs := parseredirs fuel' [] in
          ret (wrap rs c)
  end.

(** Each call or round that does not consume a character goes to one of four
    functions, so this bounds the depth. *)
Definition parse_fuel : nat := (5 * es + 10)%nat.

(** [*p = 0] for the positions past the last word. *)
Fixpoint nulterminate (buf : list Z) (c : cmd) : list Z :=
  match c with
  | EXEC argv => fold_left (λ b (w : span), <[w.2 := 0]> b) argv buf
  | REDIR c w _ _ => <[w.2 := 0]> (nulterminate buf c)
  | PIPE l r | LIST l r => nulterminate (nulterminate buf l) r
  | BACK c => nulterminate buf c
  end.

(** The command and the buffer its words are in. *)
Definition parsecmd : outcome nat (cmd * list Z) :=
  (let! c := parseline parse_fuel in
   do! peek [] in
   let! p := gets id in
   if negb (p =? es)%nat then panic "syntax"
   else ret (c, nulterminate (s ++ [0]) c)) 0%nat.
End parser.

(** The C string at a position. *)
Fixpoint string_at (b : list Z) : list Z :=
  match b with [] => [] | c :: b' => if c =? 0 then [] else c :: string_at b' end.
