(* ===== verification/ShSpec.v ===== *)
(** * The shell's parser accepts its grammar

    A command line is a spelling of tokens with white space between them; the
    grammar relates tokens to syntax trees whose words are strings. Every
    spelling of every derivation is parsed to its tree, and the strings that
    [nulterminate] leaves in the buffer are the tree's words. *)

From S2P Require Import Prelude.
From S2P Require Import Machine.
From S2P Require Import Sh.
#[local] Open Scope Z_scope.

(** ** Tokens and their spelling *)

Inductive tok := Sym (c : Z) | Append | Word (w : list Z).

Definition text (t : tok) : list Z :=
  match t with Sym c => [c] | Append => [c_gt; c_gt] | Word w => w end.
Definition is_ws (c : Z) : Prop := in_set whitespace c = true.
Definition word_char (c : Z) : Prop := c ≠ 0 ∧ is_word_char c = true.

Definition tok_ok (t : tok) : Prop :=
  match t with Sym c => c ∈ symbols | Append => True | Word w => w ≠ [] ∧ Forall word_char w end.
(** What follows does not continue the token. *)
Definition stops (t : tok) (r : list Z) : Prop :=
  match t, r with
  | Word _, c :: _ => is_word_char c = false
  | Sym x, c :: _ => x = c_gt → c ≠ c_gt
  | _, _ => True
  end.

Inductive spells : list Z → list tok → Prop :=
| sp_nil ws : Forall is_ws ws → spells ws []
| sp_cons ws t r ts : Forall is_ws ws → tok_ok t → stops t r → spells r ts → spells (ws ++ text t ++ r) (t :: ts).

(** ** Syntax trees and the grammar *)

Inductive ast :=
| Exec (argv : list (list Z))
| Redir (c : ast) (file : list Z) (mode fd : Z)
| Pipe (left right : ast)
| Seq (left right : ast)
| Back (c : ast).

Inductive rkind := Input | Output | Appending.
Definition redir : Type := rkind * list Z.
Definition redir_toks (r : redir) : list tok :=
  [match r.1 with Input => Sym c_lt | Output => Sym c_gt | Appending => Append end; Word r.2].
Definition rmode (k : rkind) : Z :=
  match k with
  | Input => O_RDONLY
  | Output => Z.lor (Z.lor O_WRONLY O_CREATE) O_TRUNC
  | Appending => Z.lor O_WRONLY O_CREATE
  end.
Definition rfd (k : rkind) : Z := match k with Input => 0 | _ => 1 end.
(** Redirections around a command, the first innermost. *)
Definition redirected (rs : list redir) (c : ast) : ast :=
  fold_left (λ c r, Redir c r.2 (rmode r.1) (rfd r.1)) rs c.

Definition arg_toks (a : list Z * list redir) : list tok := Word a.1 :: flat_map redir_toks a.2.

Inductive gline : list tok → ast → Prop :=
| gl_last ts c k : gpipe ts c → gline (ts ++ replicate k (Sym c_amp)) (Nat.iter k Back c)
| gl_list ts c k ts' c' : gpipe ts c → gline ts' c' →
    gline (ts ++ replicate k (Sym c_amp) ++ Sym c_semi :: ts') (Seq (Nat.iter k Back c) c')
with gpipe : list tok → ast → Prop :=
| gp_last ts c : gexec ts c → gpipe ts c
| gp_pipe ts c ts' c' : gexec ts c → gpipe ts' c' → gpipe (ts ++ Sym c_bar :: ts') (Pipe c c')
with gexec : list tok → ast → Prop :=
| ge_block ts c rs : gline ts c →
    gexec (Sym c_lp :: ts ++ Sym c_rp :: flat_map redir_toks rs) (redirected rs c)
| ge_simple rs args : (length args < MAXARGS)%nat →
    gexec (flat_map redir_toks rs ++ flat_map arg_toks args)
      (redirected (rs ++ concat (map snd args)) (Exec (map fst args))).

Scheme gline_mut := Minimality for gline Sort Prop
  with gpipe_mut := Minimality for gpipe Sort Prop
  with gexec_mut := Minimality for gexec Sort Prop.
Combined Scheme grammar_ind from gline_mut, gpipe_mut, gexec_mut.

(** ** Characters *)

Lemma in_set_true toks c : in_set toks c = true ↔ c ≠ 0 ∧ c ∈ toks.
Proof.
  unfold in_set. rewrite andb_true_iff, negb_true_iff, Z.eqb_neq, existsb_exists. split.
  - intros [H0 (x & Hx & ->%Z.eqb_eq)]. split; [done|]. by apply list_elem_of_In.
  - intros [H0 Hx]. split; [done|]. exists c. rewrite <- list_elem_of_In. split; [done|]. apply Z.eqb_refl.
Qed.

(** The first character of a token. *)
Definition lead (t : tok) : Z := match t with Sym c => c | Append => c_gt | Word w => nth 0 w 0 end.
Definition first_in (toks : list Z) (ts : list tok) : bool :=
  match ts with [] => false | t :: _ => in_set toks (lead t) end.

Lemma symbol_not_ws c : c ∈ symbols → c ≠ 0 ∧ in_set whitespace c = false.
Proof. unfold symbols. intros H. repeat (apply elem_of_cons in H as [->|H]; [done|]). by apply not_elem_of_nil in H. Qed.

Lemma lead_text t : tok_ok t → ∃ r, text t = lead t :: r ∧ lead t ≠ 0 ∧ in_set whitespace (lead t) = false.
Proof.
  destruct t as [c| |w]; simpl.
  - intros Hc. apply symbol_not_ws in Hc. eauto.
  - intros _. by exists [c_gt].
  - intros [Hw Hf]. destruct w as [|c w]; [done|]. apply Forall_cons in Hf as [[H0 Hc] _]. exists w. simpl.
    split; [done|]. split; [done|]. unfold is_word_char in Hc. apply andb_true_iff in Hc as [Hc _].
    by apply negb_true_iff in Hc.
Qed.

Lemma lead_word_not_symbol w : tok_ok (Word w) → ∀ toks, (∀ c, c ∈ toks → c ∈ symbols) → in_set toks (lead (Word w)) = false.
Proof.
  intros [Hw Hf] toks Hs. destruct w as [|c w]; [done|]. apply Forall_cons in Hf as [[H0 Hc] _]. simpl.
  apply not_true_is_false. intros [_ Hin]%in_set_true. unfold is_word_char in Hc.
  apply andb_true_iff in Hc as [_ Hc]. apply negb_true_iff in Hc.
  assert (in_set symbols c = true) by (apply in_set_true; auto). congruence.
Qed.

Lemma spells_length s ts : spells s ts → (length ts ≤ length s)%nat.
Proof.
  induction 1 as [|ws t r ts Hws Ht Hst Hr IH]; simpl; [lia|]. rewrite !length_app.
  destruct (lead_text t Ht) as (x & -> & _). simpl. lia.
Qed.

(** ** The lexer on a spelling *)

Section lexer.
Context (s : list Z).

Definition pos (ts : list tok) (p : nat) : Prop := (p ≤ es s)%nat ∧ spells (drop p s) ts.

Lemma at_pos_drop p : at_pos s p = match drop p s with c :: _ => c | [] => 0 end.
Proof.
  unfold at_pos. revert p. induction s as [|c l IH]; intros [|p]; simpl; done.
Qed.
Lemma drop_nonempty p c r : drop p s = c :: r → (p < es s)%nat ∧ drop (S p) s = r.
Proof.
  intros E. split.
  - unfold es. destruct (decide (p < length s)%nat); [done|]. rewrite drop_ge in E by lia. done.
  - change (S p) with (1 + p)%nat. rewrite Nat.add_comm, <- drop_drop, E. done.
Qed.

Lemma skip_while_spec test k p a r :
  drop p s = a ++ r → Forall (λ c, test c = true) a → (∀ c r', r = c :: r' → test c = false) → (length a ≤ k)%nat →
  skip_while s test k p = (p + length a)%nat ∧ drop (p + length a) s = r.
Proof.
  revert k p. induction a as [|c a IH]; intros k p E Ha Hr Hk; cbn [app length] in *.
  - rewrite Nat.add_0_r. split; [|done]. destruct k as [|k]; [done|]. cbn [skip_while].
    rewrite at_pos_drop, E. destruct r as [|c r']; [|by rewrite (Hr c r' eq_refl), andb_false_r].
    destruct (Nat.ltb_spec p (es s)) as [Hp|]; [|done]. exfalso.
    apply (f_equal length) in E. rewrite length_drop in E. unfold es in Hp. simpl in E. lia.
  - apply Forall_cons in Ha as [Hc Ha]. destruct k as [|k]; [lia|]. cbn [skip_while].
    destruct (drop_nonempty p c _ E) as [Hp E']. rewrite at_pos_drop, E, Hc.
    rewrite (proj2 (Nat.ltb_lt p (es s)) Hp). cbn [andb].
    destruct (IH k (S p) E' Ha Hr ltac:(lia)) as [-> ?]. rewrite Nat.add_succ_r. done.
Qed.

Lemma skip_ws_spec p ws r :
  (p ≤ es s)%nat → drop p s = ws ++ r → Forall is_ws ws → (∀ c r', r = c :: r' → in_set whitespace c = false) →
  skip_ws s p = (p + length ws)%nat ∧ drop (p + length ws) s = r ∧ (p + length ws ≤ es s)%nat.
Proof.
  intros Hp E Hws Hr. assert (length ws ≤ es s - p)%nat as Hl.
  { apply (f_equal length) in E. rewrite length_drop, length_app in E. unfold es. lia. }
  destruct (skip_while_spec (in_set whitespace) (es s) p ws r E Hws Hr ltac:(lia)) as [E1 E2].
  split; [exact E1|]. split; [done|lia].
Qed.

(** Skipping white space leads to the next token. *)
Lemma skip_ws_pos p ts :
  pos ts p → ∃ p', skip_ws s p = p' ∧ (p' ≤ es s)%nat ∧
    match ts with
    | [] => drop p' s = []
    | t :: ts' => ∃ r, drop p' s = text t ++ r ∧ tok_ok t ∧ stops t r ∧ spells r ts'
    end.
Proof.
  intros [Hp Hs]. remember (drop p s) as d eqn:E0. destruct Hs as [ws Hws|ws t r ts Hws Ht Hst Hr].
  - destruct (skip_ws_spec p ws [] Hp) as (E & Ed & Hle); [rewrite app_nil_r; congruence|done|by intros ? ? [=]|]. eauto.
  - destruct (lead_text t Ht) as (x & Et & _ & Hl).
    destruct (skip_ws_spec p ws (text t ++ r) Hp) as (E & Ed & Hle); [congruence|done| |].
    { intros c r'. rewrite Et. intros [= <- _]. done. }
    exists (p + length ws)%nat. split; [done|]. split; [done|]. exists r. auto.
Qed.

Lemma pos_token p t r ts : (p ≤ es s)%nat → drop p s = text t ++ r → tok_ok t → stops t r → spells r ts → pos (t :: ts) p.
Proof. intros Hp E Ht Hst Hr. split; [done|]. rewrite E. by apply (sp_cons []). Qed.

Lemma peek_spec toks ts p :
  pos ts p → wp (peek s toks) (λ b p', b = first_in toks ts ∧ pos ts p') p.
Proof.
  intros Hp. destruct (skip_ws_pos p ts Hp) as (p' & E & Hle & Hd). unfold peek, wp. rewrite E, at_pos_drop.
  destruct ts as [|t ts].
  - rewrite Hd. split; [done|]. split; [done|]. rewrite Hd. by apply sp_nil.
  - destruct Hd as (r & Ed & Ht & Hst & Hr). split; [|by eapply pos_token].
    rewrite Ed. destruct (lead_text t Ht) as (x & -> & _). done.
Qed.

(** The text between two positions, and a span that is a whole word. *)
Definition word (w : span) : list Z := take (w.2 - w.1) (drop w.1 s).
Definition span_ok (w : span) : Prop :=
  (w.1 < w.2 ≤ es s)%nat ∧ Forall word_char (word w) ∧ (w.2 = es s ∨ is_word_char (at_pos s w.2) = false).

Definition code (t : tok) : Z := match t with Sym c => c | Append => tok_append | Word _ => tok_word end.

Lemma gettoken_end p : pos [] p → wp (gettoken s) (λ r p', r.1 = 0 ∧ pos [] p') p.
Proof.
  intros Hp. destruct (skip_ws_pos p [] Hp) as (q & E & Hle & Hd). unfold gettoken, wp. rewrite E, at_pos_drop, Hd.
  simpl. split; [done|]. destruct (skip_ws_pos q []) as (q' & -> & Hle' & Hd').
  - split; [done|]. rewrite Hd. by apply sp_nil.
  - split; [done|]. rewrite Hd'. by apply sp_nil.
Qed.

(** The end of the token at [q]. *)
Definition token_end (q : nat) : Z * nat :=
  let c := at_pos s q in
  if c =? 0 then (0, q)
  else if existsb (Z.eqb c) [c_bar; c_lp; c_rp; c_semi; c_amp; c_lt] then (c, S q)
  else if c =? c_gt then
    if at_pos s (S q) =? c_gt then (tok_append, S (S q)) else (c, S q)
  else (tok_word, skip_while s is_word_char (es s) q).

Lemma token_end_spec q t r :
  drop q s = text t ++ r → tok_ok t → stops t r → token_end q = (code t, (q + length (text t))%nat).
Proof.
  intros E Ht Hst. unfold token_end. rewrite at_pos_drop, E. destruct t as [c| |w]; cbn [text app length code].
  - rewrite (at_pos_drop (S q)). destruct (drop_nonempty q c r E) as [_ ->].
    rewrite !Nat.add_succ_r, Nat.add_0_r. simpl in Ht. unfold symbols in Ht.
    repeat (apply elem_of_cons in Ht as [->|Ht]; [try done|]).
    + simpl. destruct r as [|c' r]; [done|]. simpl in Hst. rewrite (proj2 (Z.eqb_neq c' c_gt)); [done|by apply Hst].
    + by apply not_elem_of_nil in Ht.
  - rewrite (at_pos_drop (S q)). destruct (drop_nonempty q _ _ E) as [_ ->]. simpl. f_equal. lia.
  - destruct Ht as [Hw Hf]. destruct w as [|c w]; [done|]. cbn [app]. pose proof Hf as [[Hc0 Hc] _]%Forall_cons.
    assert (∀ x, x ∈ symbols → c ≠ x) as Hsym.
    { intros x Hx ->. unfold is_word_char in Hc. apply andb_true_iff in Hc as [_ Hc%negb_true_iff].
      assert (in_set symbols x = true) by (by apply in_set_true). congruence. }
    rewrite (proj2 (Z.eqb_neq c 0)) by done.
    assert (existsb (Z.eqb c) [c_bar; c_lp; c_rp; c_semi; c_amp; c_lt] = false) as ->.
    { cbn [existsb]. rewrite !(proj2 (Z.eqb_neq c _)); [done|apply Hsym; rewrite list_elem_of_In; simpl; tauto..]. }
    rewrite (proj2 (Z.eqb_neq c c_gt)) by (apply Hsym; rewrite list_elem_of_In; simpl; tauto). f_equal.
    apply (skip_while_spec is_word_char (es s) q (c :: w) r); [done| | |].
    + eapply Forall_impl; [exact Hf|]. by intros x [_ Hx].
    + intros c' r' ->. exact Hst.
    + apply (f_equal length) in E. rewrite length_drop, length_app in E. unfold es. simpl in *. lia.
Qed.

Lemma gettoken_spec t ts p :
  pos (t :: ts) p → wp (gettoken s) (λ r p', r.1 = code t ∧ pos ts p' ∧ word r.2 = text t
    ∧ ∀ w, t = Word w → span_ok r.2) p.
Proof.
  intros Hp. destruct (skip_ws_pos p _ Hp) as (q & E & Hle & r & Ed & Ht & Hst & Hr).
  pose proof (token_end_spec q t r Ed Ht Hst) as Ete. unfold token_end in Ete.
  unfold gettoken, wp. rewrite E. cbv zeta in Ete |- *. rewrite Ete. clear Ete.
  set (e := (q + length (text t))%nat).
  assert (drop e s = r) as Ee.
  { unfold e. rewrite <- drop_drop, Ed. apply drop_app_length. }
  assert (e ≤ es s)%nat as He.
  { apply (f_equal length) in Ed. rewrite length_drop, length_app in Ed. unfold e, es in *. lia. }
  assert (word (q, e) = text t) as Ew.
  { unfold word, e. simpl. rewrite Ed. replace (q + length (text t) - q)%nat with (length (text t)) by lia. apply take_app_length. }
  cbn [fst snd]. split; [done|]. split; [|split; [done|]].
  - destruct (skip_ws_pos e ts) as (q' & -> & Hle' & Hd').
    + split; [done|]. by rewrite Ee.
    + destruct ts as [|t' ts]; [split; [done|]; rewrite Hd'; by apply sp_nil|].
      destruct Hd' as (r' & Ed' & Ht' & Hst' & Hr'). by eapply pos_token.
  - intros w ->. simpl in Ew, Ht. destruct Ht as [Hw Hf]. unfold span_ok. rewrite Ew. cbn [fst snd].
    split; [|split; [done|]].
    + split; [|done]. unfold e. simpl. destruct w; [done|simpl; lia].
    + rewrite at_pos_drop, Ee. destruct r as [|c r]; [|by right]. left. clearbody e.
      apply (f_equal length) in Ee. rewrite length_drop in Ee. unfold es in *. simpl in Ee. lia.
Qed.
End lexer.

(** ** The parser on a spelling *)

Section parsing.
Context (s : list Z).
#[local] Abbreviation pos := (pos s).

(** The tree of a command with its words read from the line. *)
Fixpoint resolve (c : cmd) : ast :=
  match c with
  | EXEC argv => Exec (map (word s) argv)
  | REDIR c w mode fd => Redir (resolve c) (word s w) mode fd
  | PIPE l r => Pipe (resolve l) (resolve r)
  | LIST l r => Seq (resolve l) (resolve r)
  | BACK c => Back (resolve c)
  end.
Fixpoint spans (c : cmd) : list span :=
  match c with
  | EXEC argv => argv
  | REDIR c w _ _ => spans c ++ [w]
  | PIPE l r | LIST l r => spans l ++ spans r
  | BACK c => spans c
  end.
Definition good (a : ast) (c : cmd) : Prop := resolve c = a ∧ Forall (span_ok s) (spans c).

Definition rgood (r' : span * Z * Z) (r : redir) : Prop :=
  word s r'.1.1 = r.2 ∧ span_ok s r'.1.1 ∧ r'.1.2 = rmode r.1 ∧ r'.2 = rfd r.1.

Lemma good_wrap rs' rs c a : Forall2 rgood rs' rs → good a c → good (redirected rs a) (wrap rs' c).
Proof.
  intros Hrs. revert c a. induction Hrs as [|[[w m] f] [k x] rs' rs (Hw & Hok & Hm & Hf) Hrs IH]; intros c a Hc; [done|].
  unfold wrap, redirected. simpl in *. apply IH. destruct Hc as [Hr Hs]. split.
  - simpl. by rewrite Hr, Hw, Hm, Hf.
  - simpl. apply Forall_app. split; [done|]. by apply Forall_singleton.
Qed.
Lemma good_back k c a : good a c → good (Nat.iter k Back a) (Nat.iter k BACK c).
Proof. intros Hc. induction k as [|k [IH1 IH2]]; [done|]. split; simpl; [by f_equal|done]. Qed.

Lemma parseredir_spec r ts p :
  pos (redir_toks r ++ ts) p → wp (parseredir s) (λ r' p', rgood r' r ∧ pos ts p') p.
Proof.
  intros Hp. unfold parseredir. apply wp_bind. eapply wp_mono; [|apply gettoken_spec; exact Hp].
  intros t p1 (Et & Hp1 & _). apply wp_bind. eapply wp_mono; [|apply gettoken_spec; exact Hp1].
  intros f p2 (Ef & Hp2 & Ew & Hok). rewrite Ef. cbn [code]. rewrite Z.eqb_refl. cbn [negb].
  specialize (Hok _ eq_refl). simpl in Ew. rewrite Et. destruct r as [[] x]; cbn [code fst snd rgood redir_toks] in *;
    apply wp_ret; (split; [|exact Hp2]); (split; [exact Ew|]); (split; [exact Hok|done]).
Qed.

Lemma parseredirs_spec rs ts fuel acc p :
  pos (flat_map redir_toks rs ++ ts) p → first_in [c_lt; c_gt] ts = false → (length rs < fuel)%nat →
  wp (parseredirs s fuel acc) (λ r p', ∃ rs', r = acc ++ rs' ∧ Forall2 rgood rs' rs ∧ pos ts p') p.
Proof.
  revert fuel acc p. induction rs as [|r rs IH]; intros fuel acc p Hp Hts Hf; (destruct fuel as [|fuel]; [lia|]);
    cbn [parseredirs]; apply wp_bind; (eapply wp_mono; [|by apply peek_spec]); intros b p1 (-> & Hp1).
  - simpl. rewrite Hts. apply wp_ret. exists []. rewrite app_nil_r. split; [done|]. split; [constructor|done].
  - assert (first_in [c_lt; c_gt] (flat_map redir_toks (r :: rs) ++ ts) = true) as -> by (by destruct r as [[] x]).
    apply wp_bind. cbn [flat_map] in Hp1. rewrite <- app_assoc in Hp1.
    eapply wp_mono; [|by apply parseredir_spec]. intros r' p2 (Hr & Hp2). simpl in Hf.
    eapply wp_mono; [|apply (IH fuel (acc ++ [r']) p2 Hp2 Hts); lia].
    intros x p3 (rs' & -> & Hrs & Hp3). exists (r' :: rs'). rewrite <- app_assoc. split; [done|]. by split; [constructor|].
Qed.

(** The tokens that end a simple command. *)
Definition ends (toks : list Z) (ts : list tok) : Prop :=
  match ts with [] => True | t :: _ => ∃ c, t = Sym c ∧ c ∈ toks end.

Lemma ends_first toks toks' ts :
  ends toks ts → (∀ c, c ∈ toks → in_set toks' c = false) → first_in toks' ts = false.
Proof. destruct ts as [|t ts]; [done|]. intros (c & -> & Hc) H. by apply H. Qed.

Definition exec_end : list Z := [c_bar; c_rp; c_amp; c_semi].

Lemma pos_ok ts p : pos ts p → Forall tok_ok ts.
Proof. intros [_ Hs]. by induction Hs; constructor. Qed.

(** Only the redirections of an argument are before the next one. *)
Lemma args_not_redir args ts :
  Forall tok_ok (flat_map arg_toks args ++ ts) → ends exec_end ts → first_in [c_lt; c_gt] (flat_map arg_toks args ++ ts) = false.
Proof.
  intros Hp He. destruct args as [|[w rs] args].
  - simpl. apply (ends_first exec_end); [done|]. unfold exec_end. intros c Hc.
    repeat (apply elem_of_cons in Hc as [->|Hc]; [done|]). by apply not_elem_of_nil in Hc.
  - cbn [flat_map app arg_toks fst] in *. apply Forall_cons in Hp as [Hp _]. apply lead_word_not_symbol; [done|].
    intros c. rewrite !list_elem_of_In. simpl. intuition (subst; simpl; tauto).
Qed.

Lemma parseargs_spec args fuel argv rs p ts words reds :
  pos (flat_map arg_toks args ++ ts) p → ends exec_end ts → (length argv + length args < MAXARGS)%nat →
  (length (flat_map arg_toks args) < fuel)%nat →
  map (word s) argv = words → Forall (span_ok s) argv → Forall2 rgood rs reds →
  wp (parseargs s fuel argv rs) (λ c p', pos ts p'
    ∧ good (redirected (reds ++ concat (map snd args)) (Exec (words ++ map fst args))) c) p.
Proof.
  revert fuel argv rs p words reds. induction args as [|[w wrs] args IH]; intros fuel argv rs p words reds Hp He Hmax Hf Hw Hs Hr;
    (destruct fuel as [|fuel]; [simpl in Hf; lia|]); cbn [parseargs]; apply wp_bind;
    (eapply wp_mono; [|by apply peek_spec]); intros b p1 (-> & Hp1).
  - cbn [map concat]. rewrite !app_nil_r. assert (good (redirected reds (Exec words)) (wrap rs (EXEC argv))) as Hg.
    { apply good_wrap; [done|]. split; [by simpl; f_equal|done]. }
    cbn [flat_map app] in *. destruct ts as [|t ts]; cbn [first_in].
    + apply wp_bind. eapply wp_mono; [|by apply gettoken_end]. intros t p2 (-> & Hp2). rewrite Z.eqb_refl. by apply wp_ret.
    + destruct He as (c & -> & Hc). cbn [lead].
      assert (in_set [c_bar; c_rp; c_amp; c_semi] c = true) as ->.
      { apply in_set_true. split; [|done]. intros ->. unfold exec_end in Hc. repeat (apply elem_of_cons in Hc as [[=]|Hc]). by apply not_elem_of_nil in Hc. }
      by apply wp_ret.
  - assert (first_in [c_bar; c_rp; c_amp; c_semi] (flat_map arg_toks ((w, wrs) :: args) ++ ts) = false) as ->.
    { cbn [flat_map app arg_toks fst] in *. apply pos_ok, Forall_cons in Hp as [Hp _]. apply lead_word_not_symbol; [done|].
      intros c. rewrite !list_elem_of_In. simpl. intuition (subst; simpl; tauto). }
    cbn [flat_map arg_toks fst snd app] in Hp1. rewrite <- app_assoc in Hp1.
    apply wp_bind. eapply wp_mono; [|by apply gettoken_spec]. intros t p2 (Et & Hp2 & Ew & Hok). specialize (Hok w eq_refl).
    rewrite Et. cbn [code]. change (tok_word =? 0) with false. rewrite Z.eqb_refl. cbn [negb].
    rewrite length_app. cbn [length] in *.
    destruct (Nat.leb_spec MAXARGS (length argv + 1)) as [Hc|_]; [lia|].
    cbn [flat_map arg_toks fst snd app length] in Hf. rewrite length_app in Hf.
    assert (length (flat_map redir_toks wrs) = 2 * length wrs)%nat as Hlen by (clear; induction wrs; simpl; lia).
    apply wp_bind. eapply wp_mono; [|apply (parseredirs_spec wrs (flat_map arg_toks args ++ ts) fuel rs p2 Hp2); [|lia]].
    2: { apply pos_ok, Forall_app in Hp2 as [_ Hp2]. by apply args_not_redir. }
    intros r p3 (rs' & -> & Hrs & Hp3).
    eapply wp_mono; [|apply (IH fuel (argv ++ [t.2]) (rs ++ rs') p3 (words ++ [w]) (reds ++ wrs) Hp3 He)].
    + intros c p4 (Hp4 & Hg). split; [done|]. cbn [map fst snd concat]. by rewrite !app_assoc, <- (app_assoc words) in *.
    + rewrite length_app. simpl. lia.
    + lia.
    + rewrite map_app, Hw. simpl. by rewrite Ew.
    + apply Forall_app. split; [done|]. by apply Forall_singleton.
    + by apply Forall2_app.
Qed.

Lemma parseback_spec k fuel c p ts :
  pos (replicate k (Sym c_amp) ++ ts) p → first_in [c_amp] ts = false → (k < fuel)%nat →
  wp (parseback s fuel c) (λ c' p', c' = Nat.iter k BACK c ∧ pos ts p') p.
Proof.
  revert fuel c p. induction k as [|k IH]; intros fuel c p Hp Hts Hf; (destruct fuel as [|fuel]; [lia|]);
    cbn [parseback]; apply wp_bind; (eapply wp_mono; [|by apply peek_spec]); intros b p1 (-> & Hp1).
  - simpl. rewrite Hts. by apply wp_ret.
  - change (first_in [c_amp] (replicate (S k) (Sym c_amp) ++ ts)) with true. apply wp_bind.
    eapply wp_mono; [|apply gettoken_spec; exact Hp1]. intros t p2 (_ & Hp2 & _).
    eapply wp_mono; [|apply (IH fuel (BACK c) p2 Hp2 Hts); lia]. intros c' p3 (-> & Hp3).
    split; [|done]. by rewrite <- Nat.iter_succ_r.
Qed.

Definition line_end : list Z := [c_rp].
Definition pipe_end : list Z := [c_rp; c_amp; c_semi].

Ltac solve_mem := rewrite ?list_elem_of_In in *; simpl in *; tauto.
Ltac solve_ends :=
  eapply ends_first; [eassumption|];
  let c := fresh in let H := fresh in
  intros c H; unfold line_end, pipe_end, exec_end in H;
  repeat (apply elem_of_cons in H as [->|H]; [done|]); by apply not_elem_of_nil in H.

Lemma ends_mono toks toks' ts : ends toks ts → (∀ c, c ∈ toks → c ∈ toks') → ends toks' ts.
Proof. destruct ts as [|t ts]; [done|]. intros (c & -> & Hc) H. exists c. auto. Qed.

(** What comes after the commands of a line, before [&] and [;]. *)
Lemma ends_amps k ts : ends line_end ts → ends pipe_end (replicate k (Sym c_amp) ++ ts).
Proof.
  intros He. destruct k as [|k]; simpl; [eapply ends_mono; [done|]|exists c_amp; split; [done|]].
  - intros c Hc. unfold line_end, pipe_end in *. solve_mem.
  - unfold pipe_end. solve_mem.
Qed.
Lemma ends_amps_semi k ts : ends pipe_end (replicate k (Sym c_amp) ++ Sym c_semi :: ts).
Proof. destruct k as [|k]; simpl; [exists c_semi|exists c_amp]; (split; [done|unfold pipe_end; solve_mem]). Qed.

(** The first token of a simple command is not a parenthesis. *)
Lemma simple_not_block rs args ts :
  Forall tok_ok (flat_map redir_toks rs ++ flat_map arg_toks args ++ ts) → ends exec_end ts →
  first_in [c_lp] (flat_map redir_toks rs ++ flat_map arg_toks args ++ ts) = false.
Proof.
  intros Hok He. destruct rs as [|[[] x] rs]; [|done..]. simpl in *. destruct args as [|[w wrs] args]; simpl in *.
  - solve_ends.
  - apply Forall_cons in Hok as [Hw _]. apply lead_word_not_symbol; [done|].
    intros c. rewrite !list_elem_of_In. simpl. intuition (subst; simpl; tauto).
Qed.

Lemma parse_simple rs args fuel p ts :
  pos ((flat_map redir_toks rs ++ flat_map arg_toks args) ++ ts) p → ends exec_end ts → (length args < MAXARGS)%nat →
  (length (flat_map redir_toks rs ++ flat_map arg_toks args) < fuel)%nat →
  wp (let! r := parseredirs s fuel [] in parseargs s fuel [] r)
    (λ c p', good (redirected (rs ++ concat (map snd args)) (Exec (map fst args))) c ∧ pos ts p') p.
Proof.
  intros Hp He Hmax Hf. rewrite <- app_assoc in Hp. rewrite length_app in Hf.
  assert (length (flat_map redir_toks rs) = 2 * length rs)%nat as Hlen by (clear; induction rs; simpl; lia).
  apply wp_bind. eapply wp_mono; [|apply (parseredirs_spec rs _ fuel [] p Hp); [|lia]].
  2: { apply pos_ok, Forall_app in Hp as [_ Hp]. by apply args_not_redir. }
  intros r p1 (rs' & -> & Hrs & Hp1). simpl.
  eapply wp_mono; [|apply (parseargs_spec args fuel [] rs' p1 ts [] rs Hp1 He); [simpl; lia|lia|done|done|done]].
  by intros c p2 (Hp2 & Hg).
Qed.

Definition line_parsed (ts : list tok) (c : ast) : Prop := ∀ fuel p rest,
  pos (ts ++ rest) p → ends line_end rest → (4 * length ts + 4 ≤ fuel)%nat →
  wp (parseline s fuel) (λ c' p', good c c' ∧ pos rest p') p.
Definition pipe_parsed (ts : list tok) (c : ast) : Prop := ∀ fuel p rest,
  pos (ts ++ rest) p → ends pipe_end rest → (4 * length ts + 3 ≤ fuel)%nat →
  wp (parsepipe s fuel) (λ c' p', good c c' ∧ pos rest p') p.
Definition exec_parsed (ts : list tok) (c : ast) : Prop := ∀ fuel p rest,
  pos (ts ++ rest) p → ends exec_end rest → (4 * length ts + 2 ≤ fuel)%nat →
  wp (parseexec s fuel) (λ c' p', good c c' ∧ pos rest p') p.

Lemma parse_block ts c rs fuel p rest :
  line_parsed ts c → pos ((Sym c_lp :: ts ++ Sym c_rp :: flat_map redir_toks rs) ++ rest) p → ends exec_end rest →
  (4 * length (Sym c_lp :: ts ++ Sym c_rp :: flat_map redir_toks rs) + 2 ≤ fuel)%nat →
  wp (parseexec s fuel) (λ c' p', good (redirected rs c) c' ∧ pos rest p') p.
Proof.
  intros IH Hp He Hf. cbn [app] in Hp. rewrite <- app_assoc in Hp. cbn [app length] in Hp, Hf.
  rewrite length_app in Hf. cbn [length] in Hf.
  assert (length (flat_map redir_toks rs) = 2 * length rs)%nat as Hlen by (clear; induction rs; simpl; lia).
  destruct fuel as [|[|fuel]]; [lia..|]. cbn [parseexec]. apply wp_bind.
  eapply wp_mono; [|by apply peek_spec]. intros b p1 (-> & Hp1).
  change (first_in [c_lp] (Sym c_lp :: ts ++ Sym c_rp :: flat_map redir_toks rs ++ rest)) with true.
  cbn [parseblock]. apply wp_bind. eapply wp_mono; [|by apply peek_spec]. intros b p2 (-> & Hp2).
  change (first_in [c_lp] (Sym c_lp :: ts ++ Sym c_rp :: flat_map redir_toks rs ++ rest)) with true. cbn [negb].
  apply wp_bind. eapply wp_mono; [|by apply gettoken_spec]. intros t p3 (_ & Hp3 & _).
  apply wp_bind. eapply wp_mono; [|apply (IH fuel p3 _ Hp3); [exists c_rp; split; [done|unfold line_end; solve_mem]|lia]].
  intros c1 p4 (Hc1 & Hp4). apply wp_bind. eapply wp_mono; [|by apply peek_spec]. intros b p5 (-> & Hp5).
  cbn [first_in lead]. change (in_set [c_rp] c_rp) with true. cbn [negb].
  apply wp_bind. eapply wp_mono; [|by apply gettoken_spec]. intros t' p6 (_ & Hp6 & _).
  apply wp_bind. eapply wp_mono; [|apply (parseredirs_spec rs rest fuel [] p6 Hp6); [solve_ends|lia]].
  intros r p7 (rs' & -> & Hrs & Hp7). apply wp_ret. split; [by apply good_wrap|done].
Qed.

Lemma parse_list ts c k ts' c' fuel p rest :
  pipe_parsed ts c → line_parsed ts' c' →
  pos ((ts ++ replicate k (Sym c_amp) ++ Sym c_semi :: ts') ++ rest) p → ends line_end rest →
  (4 * length (ts ++ replicate k (Sym c_amp) ++ Sym c_semi :: ts') + 4 ≤ fuel)%nat →
  wp (parseline s fuel) (λ c1 p', good (Seq (Nat.iter k Back c) c') c1 ∧ pos rest p') p.
Proof.
  intros IH IH' Hp He Hf. rewrite <- !app_assoc in Hp. cbn [app] in Hp.
  rewrite !length_app, length_replicate in Hf. cbn [length] in Hf.
  destruct fuel as [|fuel]; [lia|]. cbn [parseline]. apply wp_bind.
  eapply wp_mono; [|apply (IH fuel p _ Hp); [apply ends_amps_semi|lia]]. intros c1 p1 (Hc1 & Hp1).
  apply wp_bind. eapply wp_mono; [|apply (parseback_spec k fuel c1 p1 _ Hp1); [done|lia]].
  intros c2 p2 (-> & Hp2). apply wp_bind. eapply wp_mono; [|by apply peek_spec]. intros b p3 (-> & Hp3).
  cbn [first_in lead]. change (in_set [c_semi] c_semi) with true. apply wp_bind.
  eapply wp_mono; [|by apply gettoken_spec]. intros t p4 (_ & Hp4 & _). apply wp_bind.
  eapply wp_mono; [|apply (IH' fuel p4 rest Hp4 He); lia]. intros c3 p5 ([E3 S3] & Hp5). apply wp_ret. split; [|done].
  destruct (good_back k c1 c Hc1) as [E1 S1]. split; simpl; [by rewrite E1, E3|by apply Forall_app].
Qed.

Lemma parse_grammar :
  (∀ ts c, gline ts c → line_parsed ts c) ∧ (∀ ts c, gpipe ts c → pipe_parsed ts c) ∧ (∀ ts c, gexec ts c → exec_parsed ts c).
Proof.
  apply grammar_ind.
  - intros ts c k _ IH fuel p rest Hp He Hf. rewrite <- app_assoc in Hp. rewrite length_app, length_replicate in Hf.
    destruct fuel as [|fuel]; [lia|]. cbn [parseline]. apply wp_bind.
    eapply wp_mono; [|apply (IH fuel p _ Hp); [by apply ends_amps|lia]]. intros c1 p1 (Hc1 & Hp1).
    apply wp_bind. eapply wp_mono; [|apply (parseback_spec k fuel c1 p1 rest Hp1); [solve_ends|lia]].
    intros c2 p2 (-> & Hp2). apply wp_bind. eapply wp_mono; [|by apply peek_spec]. intros b p3 (-> & Hp3).
    assert (first_in [c_semi] rest = false) as -> by solve_ends. apply wp_ret. split; [by apply good_back|done].
  - intros ts c k ts' c' _ IH _ IH' fuel p rest. by apply parse_list.
  - intros ts c _ IH fuel p rest Hp He Hf. destruct fuel as [|fuel]; [lia|]. cbn [parsepipe]. apply wp_bind.
    eapply wp_mono; [|apply (IH fuel p rest Hp); [|lia]].
    2: { eapply ends_mono; [done|]. intros x Hx. unfold pipe_end, exec_end in *. solve_mem. }
    intros c1 p1 (Hc1 & Hp1). apply wp_bind. eapply wp_mono; [|by apply peek_spec]. intros b p2 (-> & Hp2).
    assert (first_in [c_bar] rest = false) as -> by solve_ends. by apply wp_ret.
  - intros ts c ts' c' _ IH _ IH' fuel p rest Hp He Hf. rewrite <- app_assoc in Hp. cbn [app] in Hp.
    rewrite length_app in Hf. cbn [length] in Hf. destruct fuel as [|fuel]; [lia|]. cbn [parsepipe]. apply wp_bind.
    eapply wp_mono; [|apply (IH fuel p _ Hp); [exists c_bar; split; [done|unfold exec_end; solve_mem]|lia]].
    intros c1 p1 ([E1 S1] & Hp1). apply wp_bind. eapply wp_mono; [|by apply peek_spec]. intros b p2 (-> & Hp2).
    cbn [first_in lead]. change (in_set [c_bar] c_bar) with true. apply wp_bind.
    eapply wp_mono; [|by apply gettoken_spec]. intros t p3 (_ & Hp3 & _). apply wp_bind.
    eapply wp_mono; [|apply (IH' fuel p3 rest Hp3 He); lia]. intros c2 p4 ([E2 S2] & Hp4). apply wp_ret. split; [|done].
    split; simpl; [by rewrite E1, E2|by apply Forall_app].
  - intros ts c rs _ IH fuel p rest. by apply parse_block.
  - intros rs args Hmax fuel p rest Hp He Hf. destruct fuel as [|fuel]; [lia|]. cbn [parseexec]. apply wp_bind.
    eapply wp_mono; [|by apply peek_spec]. intros b p1 (-> & Hp1).
    assert (first_in [c_lp] ((flat_map redir_toks rs ++ flat_map arg_toks args) ++ rest) = false) as ->.
    { pose proof (pos_ok _ _ Hp1) as Hok. rewrite <- app_assoc in Hok |- *. by apply simple_not_block. }
    apply parse_simple; [done|done|done|lia].
Qed.

(** ** The words in the buffer *)

Definition zero_at (b : list Z) (w : span) : list Z := <[w.2 := 0]> b.

Lemma nulterminate_spans b c : nulterminate b c = fold_left zero_at (spans c) b.
Proof.
  revert b. induction c as [argv|c IH w m f|l IHl r IHr|l IHl r IHr|c IH]; intros b; cbn [nulterminate spans]; [done|..].
  - by rewrite IH, fold_left_app.
  - by rewrite IHl, IHr, fold_left_app.
  - by rewrite IHl, IHr, fold_left_app.
  - apply IH.
Qed.

Lemma zeros_lookup ws b (p : nat) :
  fold_left zero_at ws b !! p = if decide (p ∈ ws.*2) then (if decide (p < length b)%nat then Some 0 else None) else b !! p.
Proof.
  revert b. induction ws as [|w ws IH]; intros b; cbn [fold_left fmap list_fmap].
  - rewrite decide_False by apply not_elem_of_nil. done.
  - rewrite IH. assert (length (zero_at b w) = length b) as -> by (apply length_insert). unfold zero_at. destruct (decide (p ∈ ws.*2)) as [Hp|Hp].
    + by rewrite (decide_True (P := p ∈ w.2 :: ws.*2)) by (by right).
    + destruct (decide (p = w.2)) as [->|Hne].
      * rewrite decide_True by left. case_decide as Hl; [by rewrite list_lookup_insert_eq|].
        apply lookup_ge_None_2. rewrite length_insert. lia.
      * rewrite decide_False by (apply not_elem_of_cons; auto). by rewrite list_lookup_insert_ne.
Qed.

Lemma string_at_spec x l :
  (∀ i c, x !! i = Some c → l !! i = Some c ∧ c ≠ 0) → l !! length x = Some 0 → string_at l = x.
Proof.
  revert l. induction x as [|c x IH]; intros l Hx Hl; (destruct l as [|c' l]; [done|]); cbn [string_at].
  - injection Hl as ->. done.
  - destruct (Hx 0%nat c eq_refl) as [[= ->] Hc]. rewrite (proj2 (Z.eqb_neq c 0)) by done. f_equal.
    apply IH; [|done]. intros i d Hi. apply (Hx (S i) d Hi).
Qed.

(** The zeros do not hit a word, and end each. *)
Lemma string_at_word ws w :
  Forall (span_ok s) ws → w ∈ ws → string_at (drop w.1 (fold_left zero_at ws (s ++ [0]))) = word s w.
Proof.
  intros Hok Hw. rewrite Forall_forall in Hok. destruct (Hok w Hw) as ((Hq & He) & Hf & _). unfold es in He.
  apply string_at_spec.
  - intros i c Hi. rewrite Forall_lookup in Hf. destruct (Hf i c Hi) as [Hc0 Hc]. split; [|done].
    unfold word in Hi. apply lookup_take_Some in Hi as [Hi Hlt]. rewrite lookup_drop in Hi |- *. rewrite zeros_lookup.
    rewrite decide_False; [by apply lookup_app_l_Some|].
    intros (w' & E & Hw')%list_elem_of_fmap. destruct (Hok w' Hw') as (_ & _ & [Ee|Hn]).
    + apply lookup_lt_Some in Hi. unfold es in Ee. lia.
    + rewrite <- E in Hn. unfold at_pos in Hn. assert (nth (w.1 + i) s 0 = c) as En by (by apply nth_lookup_Some). congruence.
  - unfold word. rewrite length_take, length_drop, lookup_drop, zeros_lookup.
    replace (w.1 + min (w.2 - w.1) (length s - w.1))%nat with w.2 by lia.
    rewrite decide_True by (apply list_elem_of_fmap; eauto). rewrite decide_True; [done|]. rewrite length_app. simpl. lia.
Qed.

(** The tree of a command with its words read from the buffer. *)
Fixpoint strings (b : list Z) (c : cmd) : ast :=
  match c with
  | EXEC argv => Exec (map (λ w : span, string_at (drop w.1 b)) argv)
  | REDIR c w mode fd => Redir (strings b c) (string_at (drop w.1 b)) mode fd
  | PIPE l r => Pipe (strings b l) (strings b r)
  | LIST l r => Seq (strings b l) (strings b r)
  | BACK c => Back (strings b c)
  end.

Lemma strings_resolve b c :
  (∀ w, w ∈ spans c → string_at (drop w.1 b) = word s w) → strings b c = resolve c.
Proof.
  induction c as [argv|c IH w m f|l IHl r IHr|l IHl r IHr|c IH]; cbn [strings resolve spans]; intros Hw.
  - f_equal. apply map_ext_in. intros w Hin. apply Hw. by apply list_elem_of_In.
  - rewrite IH, Hw; [done|rewrite elem_of_app; right; by left|]. intros w' Hw'. apply Hw. rewrite elem_of_app. by left.
  - by rewrite IHl, IHr by (intros w' Hw'; apply Hw; rewrite elem_of_app; auto).
  - by rewrite IHl, IHr by (intros w' Hw'; apply Hw; rewrite elem_of_app; auto).
  - by rewrite IH.
Qed.
End parsing.

Lemma parsecmd_grammar line ts c :
  spells line ts → gline ts c →
  ∃ cm buf p, parsecmd line = Ret (cm, buf) p ∧ strings buf cm = c.
Proof.
  intros Hs Hg. assert (pos line (ts ++ []) 0%nat) as Hp by (rewrite app_nil_r; split; [lia|done]).
  pose proof (spells_length _ _ Hs) as Hlen. destruct (parse_grammar line) as (HL & _ & _).
  destruct (wp_elim _ _ _ (HL ts c Hg (parse_fuel line) 0%nat [] Hp I ltac:(unfold parse_fuel, es; lia)))
    as (cm & p1 & E1 & [Er Hok] & Hp1).
  destruct (wp_elim _ _ _ (peek_spec line [] [] p1 Hp1)) as (b & p2 & E2 & _ & [Hle Hsp]).
  assert (p2 = es line) as ->.
  { destruct (skip_ws_pos line p1 [] Hp1) as (p' & E & Hle' & Hd). unfold peek in E2. injection E2 as _ <-. rewrite E.
    apply (f_equal length) in Hd. rewrite length_drop in Hd. unfold es in *. simpl in Hd. lia. }
  exists cm, (nulterminate (line ++ [0]) cm), (es line). split.
  - unfold parsecmd. rewrite (bind_eq _ _ _ _ _ E1), (bind_eq _ _ _ _ _ E2). unfold bind, gets, id, ret.
    by rewrite Nat.eqb_refl.
  - rewrite nulterminate_spans. rewrite (strings_resolve line); [done|]. intros w Hw. by apply string_at_word.
Qed.

(** C22: The shell parses its command language. For every derivation of a
    command in the grammar (lists, background, pipelines, parentheses,
    redirections anywhere among the arguments, fewer than ten arguments) and
    every spelling of its tokens with white space, [parsecmd] succeeds with the
    derivation's tree, whose words are the zero-terminated strings that
    [nulterminate] leaves in the buffer. *)
Theorem shell_parses line ts c :
  spells line ts → gline ts c →
  ∃ cm buf p, parsecmd line = Ret (cm, buf) p ∧ strings buf cm = c.
Proof. apply parsecmd_grammar. Qed.

(** ["ls >x|(a;b)&"] *)
Lemma shell_parses_witness :
  let line := [108; 115; 32; 62; 120; 124; 40; 97; 59; 98; 41; 38] in
  let x := rmode Output in
  ∃ cm buf p, parsecmd line = Ret (cm, buf) p ∧
    strings buf cm = Back (Pipe (Redir (Exec [[108; 115]]) [120] x 1) (Seq (Exec [[97]]) (Exec [[98]]))).
Proof.
  apply (shell_parses _ [Word [108; 115]; Sym c_gt; Word [120]; Sym c_bar; Sym c_lp; Word [97]; Sym c_semi; Word [98]; Sym c_rp; Sym c_amp]).
  - assert (∀ c, c ∈ symbols → tok_ok (Sym c)) as Hsym by done.
    apply (sp_cons [] (Word [108; 115]) [32; 62; 120; 124; 40; 97; 59; 98; 41; 38]); [by repeat constructor..|].
    apply (sp_cons [32] (Sym c_gt) [120; 124; 40; 97; 59; 98; 41; 38]); [by repeat constructor|by apply Hsym, list_elem_of_In; vm_compute; tauto|done|].
    apply (sp_cons [] (Word [120]) [124; 40; 97; 59; 98; 41; 38]); [by repeat constructor..|].
    apply (sp_cons [] (Sym c_bar) [40; 97; 59; 98; 41; 38]); [by repeat constructor|by apply Hsym, list_elem_of_In; vm_compute; tauto|done|].
    apply (sp_cons [] (Sym c_lp) [97; 59; 98; 41; 38]); [by repeat constructor|by apply Hsym, list_elem_of_In; vm_compute; tauto|done|].
    apply (sp_cons [] (Word [97]) [59; 98; 41; 38]); [by repeat constructor..|].
    apply (sp_cons [] (Sym c_semi) [98; 41; 38]); [by repeat constructor|by apply Hsym, list_elem_of_In; vm_compute; tauto|done|].
    apply (sp_cons [] (Word [98]) [41; 38]); [by repeat constructor..|].
    apply (sp_cons [] (Sym c_rp) [38]); [by repeat constructor|by apply Hsym, list_elem_of_In; vm_compute; tauto|done|].
    apply (sp_cons [] (Sym c_amp) []); [by repeat constructor|by apply Hsym, list_elem_of_In; vm_compute; tauto|done|].
    by apply sp_nil.
  - apply (gl_last [Word [108; 115]; Sym c_gt; Word [120]; Sym c_bar; Sym c_lp; Word [97]; Sym c_semi; Word [98]; Sym c_rp] _ 1).
    apply (gp_pipe [Word [108; 115]; Sym c_gt; Word [120]] _ [Sym c_lp; Word [97]; Sym c_semi; Word [98]; Sym c_rp]).
    + apply (ge_simple [] [([108; 115], [(Output, [120])])]). vm_compute. lia.
    + apply gp_last. apply (ge_block [Word [97]; Sym c_semi; Word [98]] (Seq (Exec [[97]]) (Exec [[98]])) []).
      apply (gl_list [Word [97]] _ 0 [Word [98]]).
      * apply gp_last, (ge_simple [] [([97], [])]). vm_compute. lia.
      * apply (gl_last [Word [98]] _ 0), gp_last, (ge_simple [] [([98], [])]). vm_compute. lia.
Defined.
