(* ===== verification/ShTotal.v ===== *)
(** * The parser of the shell always ends

    Every call moves forward in the line, or calls one of four functions in a
    row before one that does. *)

From S2P Require Import Prelude.
From S2P Require Import Machine.
From S2P Require Import Sh.
From S2P Require Import ShSpec.
#[local] Open Scope nat_scope.

(** The parser returns with [Q] or stops with an error message. *)
Definition ends {A} (m : M nat A) (Q : A → nat → Prop) (p : nat) : Prop :=
  match m p with Ret a p' => Q a p' | Panic _ _ => True | _ => False end.

Lemma ends_bind {A B} (m : M nat A) (k : A → M nat B) Q p : ends m (λ a p', ends (k a) Q p') p → ends (bind m k) Q p.
Proof. unfold ends, bind. by destruct (m p). Qed.
Lemma ends_weaken {A} (m : M nat A) (P Q : A → nat → Prop) p : ends m P p → (∀ a p', P a p' → Q a p') → ends m Q p.
Proof. unfold ends. destruct (m p); auto. Qed.
Lemma ends_ret {A} (a : A) (Q : A → nat → Prop) p : Q a p → ends (ret a) Q p.
Proof. done. Qed.
Lemma ends_panic {A} msg (Q : A → nat → Prop) p : ends (panic msg) Q p.
Proof. done. Qed.

Section total.
Context (s : list Z).
#[local] Abbreviation n := (es s).
(** From [p] to a later place, or past a character. *)
Definition later (p p' : nat) : Prop := p ≤ p' ≤ n.
Definition past (p p' : nat) : Prop := p < p' ≤ n.

Lemma skip_while_later test k : ∀ p, p ≤ n → later p (skip_while s test k p).
Proof.
  unfold later. induction k as [|k IH]; intros p Hp; cbn [skip_while]; [lia|].
  destruct (Nat.ltb_spec p n) as [Hlt|]; cbn [andb]; [|lia]. destruct (test (at_pos s p)); [|lia]. specialize (IH (S p)). lia.
Qed.
Lemma skip_while_stops test k : ∀ p, n ≤ p + k → let q := skip_while s test k p in q < n → test (at_pos s q) = false.
Proof.
  induction k as [|k IH]; intros p Hk; cbn [skip_while]; [lia|].
  destruct (Nat.ltb_spec p n) as [Hlt|]; cbn [andb]; [|lia]. destruct (test (at_pos s p)) eqn:E; [|done]. apply IH. lia.
Qed.
Lemma at_pos_end p : at_pos s p ≠ 0%Z → p < n.
Proof. intros H. destruct (decide (p < n)); [done|]. destruct H. unfold at_pos. apply nth_overflow. unfold es in *. lia. Qed.

Lemma skip_ws_later p : p ≤ n → later p (skip_ws s p).
Proof. apply skip_while_later. Qed.

Lemma peek_later toks p : p ≤ n → ends (peek s toks) (λ b p', later p p' ∧ (b = true → at_pos s p' ≠ 0%Z ∧ skip_ws s p' = p')) p.
Proof.
  intros Hp. unfold ends, peek. split; [by apply skip_ws_later|]. intros [Hc _]%in_set_true. split; [done|].
  pose proof (at_pos_end _ Hc) as Hlt. unfold skip_ws at 1. pose proof (skip_while_stops (in_set whitespace) n p ltac:(lia) Hlt) as Hs.
  fold (skip_ws s p) in Hs. destruct n as [|k] eqn:E; [lia|]. cbn [skip_while]. by rewrite Hs, andb_false_r.
Qed.

Lemma word_char_other c : c ≠ 0%Z → in_set whitespace c = false →
  existsb (Z.eqb c) [c_bar; c_lp; c_rp; c_semi; c_amp; c_lt] = false → c ≠ c_gt → is_word_char c = true.
Proof.
  intros H0 Hws Hsym Hgt. unfold is_word_char. rewrite Hws. cbn [negb andb]. apply negb_true_iff. unfold in_set.
  rewrite (proj2 (Z.eqb_neq c 0)) by done. unfold symbols, c_bar, c_lp, c_rp, c_semi, c_amp, c_lt, c_gt in *. cbn [negb andb existsb] in *.
  rewrite (proj2 (Z.eqb_neq c 62)) by done. repeat (apply orb_false_iff in Hsym as [-> Hsym]). done.
Qed.

(** A token that is not the end of the line has a character. *)
Lemma gettoken_past p : p ≤ n →
  ends (gettoken s) (λ t p', later p p' ∧ (t.1 ≠ 0%Z → past p p') ∧ (at_pos s (skip_ws s p) ≠ 0%Z → past p p')) p.
Proof.
  intros Hp. unfold ends, gettoken. pose proof (skip_ws_later p Hp) as Hq. set (q := skip_ws s p) in *. unfold later, past in *.
  destruct (Z.eqb_spec (at_pos s q) 0) as [E|E].
  { cbn [fst]. pose proof (skip_ws_later q ltac:(lia)). unfold later in *. split; [lia|]. by split. }
  pose proof (at_pos_end q E) as Hlt.
  assert (∀ e, q < e ≤ n → p ≤ skip_ws s e ≤ n ∧ p < skip_ws s e ≤ n) as Hend.
  { intros e He. pose proof (skip_ws_later e ltac:(lia)) as H. unfold later in H. lia. }
  destruct (existsb _ _) eqn:Esym; [cbn [fst]; specialize (Hend (S q) ltac:(lia)); tauto|].
  destruct (Z.eqb_spec (at_pos s q) c_gt) as [Egt|Egt].
  - destruct (Z.eqb_spec (at_pos s (S q)) c_gt) as [E2|E2].
    + assert (S q < n) by (apply at_pos_end; by rewrite E2). specialize (Hend (S (S q)) ltac:(lia)). cbn [fst]. tauto.
    + specialize (Hend (S q) ltac:(lia)). cbn [fst]. tauto.
  - cbn [fst]. specialize (Hend (skip_while s is_word_char n q)).
    assert (is_word_char (at_pos s q) = true) as Hw.
    { apply word_char_other; try done. apply (skip_while_stops (in_set whitespace) n p); [lia|done]. }
    assert (q < skip_while s is_word_char n q ≤ n) as Hs; [|specialize (Hend Hs); tauto].
    destruct n as [|k] eqn:En; [lia|]. cbn [skip_while]. rewrite Hw, En, (proj2 (Nat.ltb_lt q (S k))) by lia. cbn [andb].
    pose proof (skip_while_later is_word_char k (S q)). unfold later in *. rewrite En in *. lia.
Qed.

(** [peek] that finds a character, then [gettoken]. *)
Lemma peek_gettoken {B} toks (k : Z * span → M nat B) (other : M nat B) Q p : p ≤ n →
  (∀ t p', past p p' → ends (k t) Q p') → (∀ p', later p p' → ends other Q p') →
  ends (let! more := peek s toks in if more then let! t := gettoken s in k t else other) Q p.
Proof.
  intros Hp Hk Ho. apply ends_bind. eapply ends_weaken; [by apply peek_later|]. intros [] p1 [H1 H2]; [|by apply Ho].
  destruct H2 as [Hc Hs]; [done|]. apply ends_bind. eapply ends_weaken; [apply gettoken_past; unfold later in *; lia|].
  intros t p2 (_ & _ & H). apply Hk. rewrite Hs in H. specialize (H Hc). unfold later, past in *. lia.
Qed.

Lemma parseredir_past p : p ≤ n → at_pos s (skip_ws s p) ≠ 0%Z → ends (parseredir s) (λ _ p', past p p') p.
Proof.
  intros Hp Hc. unfold parseredir. apply ends_bind. eapply ends_weaken; [by apply gettoken_past|]. intros t p1 (_ & _ & H).
  specialize (H Hc). apply ends_bind. eapply ends_weaken; [apply gettoken_past; unfold past in *; lia|]. intros f p2 (Hl & _).
  assert (past p p2) as H2 by (unfold past, later in *; lia). destruct (negb _); [done|]. by repeat case_match.
Qed.

Lemma parseredirs_ends fuel : ∀ rs p, p ≤ n → n - p < fuel → ends (parseredirs s fuel rs) (λ _ p', later p p') p.
Proof.
  induction fuel as [|fuel IH]; intros rs p Hp Hf; [lia|]. cbn [parseredirs]. apply ends_bind.
  eapply ends_weaken; [by apply peek_later|]. intros [] p1 [H1 H2]; [|done]. destruct H2 as [Hc Hs]; [done|]. apply ends_bind.
  eapply ends_weaken; [apply parseredir_past; [unfold later in *; lia|by rewrite Hs]|]. intros r p2 H3. unfold later, past in *.
  eapply ends_weaken; [apply IH; lia|]. unfold later. intros _ p3. lia.
Qed.

Lemma parseargs_ends fuel : ∀ argv rs p, p ≤ n → n - p < fuel → ends (parseargs s fuel argv rs) (λ _ p', later p p') p.
Proof.
  induction fuel as [|fuel IH]; intros argv rs p Hp Hf; [lia|]. cbn [parseargs]. apply ends_bind.
  eapply ends_weaken; [by apply peek_later|]. intros [] p1 [H1 _]; [done|]. apply ends_bind. unfold later in *.
  eapply ends_weaken; [apply gettoken_past; lia|]. intros t p2 (H2 & H3 & _). unfold later, past in *.
  destruct (Z.eqb_spec (t.1) 0) as [|Hn]; [apply ends_ret; lia|]. specialize (H3 Hn). destruct (negb _); [done|].
  destruct (_ <=? _); [done|]. apply ends_bind. eapply ends_weaken; [apply parseredirs_ends; lia|]. intros rs' p3 H4. unfold later in *.
  eapply ends_weaken; [apply IH; lia|]. unfold later. intros _ p4. lia.
Qed.

Lemma parseback_ends fuel : ∀ c p, p ≤ n → n - p < fuel → ends (parseback s fuel c) (λ _ p', later p p') p.
Proof.
  induction fuel as [|fuel IH]; intros c p Hp Hf; [lia|]. cbn [parseback]. apply peek_gettoken; [done| |done].
  intros t p1 H1. unfold past in H1. eapply ends_weaken; [apply IH; lia|]. unfold later. intros _ p2. lia.
Qed.

(** How much of the bound each function needs at a position. *)
Lemma parse_ends fuel : ∀ p, p ≤ n →
  (4 * (n - p) + 4 ≤ fuel → ends (parseline s fuel) (λ _ p', later p p') p) ∧
  (4 * (n - p) + 3 ≤ fuel → ends (parsepipe s fuel) (λ _ p', later p p') p) ∧
  (4 * (n - p) + 2 ≤ fuel → ends (parseexec s fuel) (λ _ p', later p p') p) ∧
  (4 * (n - p) + 1 ≤ fuel → ends (parseblock s fuel) (λ _ p', later p p') p).
Proof.
  induction fuel as [|fuel IH]; intros p Hp; [split_and!; lia|]. split_and!; intros Hf.
  - cbn [parseline]. apply ends_bind. eapply ends_weaken; [apply (IH p); lia|]. intros c p1 H1. unfold later in H1. apply ends_bind.
    eapply ends_weaken; [apply parseback_ends; lia|]. intros c' p2 H2. unfold later in H2. apply peek_gettoken; [lia| |].
    + intros t p3 H3. unfold past in H3. apply ends_bind. eapply ends_weaken; [apply (IH p3); lia|]. unfold later. intros r p4 H4. apply ends_ret. lia.
    + unfold later. intros p3 H3. apply ends_ret. lia.
  - cbn [parsepipe]. apply ends_bind. eapply ends_weaken; [apply (IH p); lia|]. intros c p1 H1. unfold later in H1.
    apply peek_gettoken; [lia| |].
    + intros t p3 H3. unfold past in H3. apply ends_bind. eapply ends_weaken; [apply (IH p3); lia|]. unfold later. intros r p4 H4. apply ends_ret. lia.
    + unfold later. intros p3 H3. apply ends_ret. lia.
  - cbn [parseexec]. apply ends_bind. eapply ends_weaken; [by apply peek_later|]. intros [] p1 [H1 _]; unfold later in H1.
    + eapply ends_weaken; [apply (IH p1); lia|]. unfold later. intros c p2. lia.
    + apply ends_bind. eapply ends_weaken; [apply parseredirs_ends; lia|]. intros rs p2 H2. unfold later in H2.
      eapply ends_weaken; [apply parseargs_ends; lia|]. unfold later. intros c p3. lia.
  - cbn [parseblock]. apply ends_bind. eapply ends_weaken; [by apply peek_later|]. intros [] p1 [H1 H2]; [|done]. unfold later in H1.
    destruct H2 as [Hc Hs]; [done|]. cbn [negb]. apply ends_bind. eapply ends_weaken; [apply gettoken_past; lia|]. intros t p2 (_ & _ & H2).
    rewrite Hs in H2. specialize (H2 Hc). unfold past in H2. apply ends_bind. eapply ends_weaken; [apply (IH p2); lia|].
    unfold later. intros c p3 H3. apply ends_bind. eapply ends_weaken; [apply peek_later; lia|]. intros [] p4 [H4 _]; [|done]. unfold later in H4.
    cbn [negb]. apply ends_bind. eapply ends_weaken; [apply gettoken_past; lia|]. intros t' p5 (H5 & _). unfold later in H5. apply ends_bind.
    eapply ends_weaken; [apply parseredirs_ends; lia|]. unfold later. intros rs p6 H6. apply ends_ret. lia.
Qed.

Lemma parsecmd_total : match parsecmd s with Ret _ _ | Panic _ _ => True | _ => False end.
Proof.
  assert (ends (let! c := parseline s (parse_fuel s) in do! peek s [] in let! p := gets id in
    if negb (p =? n)%nat then panic "syntax" else ret (c, nulterminate (s ++ [0%Z]) c)) (λ _ _, True) 0) as H.
  { apply ends_bind. eapply ends_weaken; [apply parse_ends; unfold parse_fuel; lia|]. intros c p1 H1. unfold later in H1.
    apply ends_bind. eapply ends_weaken; [apply peek_later; lia|]. intros b p2 _. unfold ends, bind, gets. by destruct (negb _). }
  exact H.
Qed.
End total.

(** C25: the parser of the shell ends on every line, in the grammar or not: it
    returns a command or stops with an error message, within the bound that
    [parsecmd] gives its recursion, so each character of the line is passed
    by at most a fixed number of calls. *)
Theorem parsecmd_terminates s :
  (∃ c b p, parsecmd s = Ret (c, b) p) ∨ ∃ msg p, parsecmd s = Panic msg p.
Proof. pose proof (parsecmd_total s) as H. destruct (parsecmd s) as [[c b] p|msg p| |] eqn:E; [left; eauto|right; eauto|done|done]. Qed.
