(* ===== verification/USys.v ===== *)
(** * User programs as trees of system calls

    A user program is a tree whose nodes are its system calls, with one
    subtree for every result. [run] gives it meaning on a table of open files:
    the tree of processes it leads to. The kernel's answers that do not follow
    from the table (whether a path can be opened or executed, whether a process
    can be forked) are a parameter. *)

From S2P Require Import Prelude.
From S2P Require Import Machine.
From S2P Require Import Ulib.
#[local] Open Scope Z_scope.

(** ** System calls *)

(** Calls that only succeed or fail. *)
Inductive action :=
| AChdir (path : list Z)
| AMknod (path : list Z) (major minor : Z)
| AMkdir (path : list Z)
| AUnlink (path : list Z)
| ALink (old new : list Z)
| AKill (pid : Z)
| ASleep (n : Z)
| AGetSysCount (mask : Z).

Inductive sys : Type → Type :=
| SOpen (path : list Z) (mode : Z) : sys Z
| SClose (fd : Z) : sys Z
| SDup (fd : Z) : sys Z
| SPipe : sys (option (Z * Z))
| SFork : sys Z
| SWait : sys Z
| SWrite (fd : Z) (buf : list Z) : sys Z
| SAct (a : action) : sys Z
| SExec (path : list Z) (argv : list (list Z)) : sys Z
| SExit (status : Z) : sys Empty_set.

Inductive prog (A : Type) : Type :=
| Done (a : A)
| Call {R : Type} (c : sys R) (k : R → prog A).
Arguments Done {A} a.
Arguments Call {A R} c k.

Fixpoint pbind {A B} (m : prog A) (f : A → prog B) : prog B :=
  match m with
  | Done a => f a
  | Call c k => Call c (λ r, pbind (k r) f)
  end.
Definition call {R} (c : sys R) : prog R := Call c Done.
Declare Scope prog_scope.
Delimit Scope prog_scope with prog.
Bind Scope prog_scope with prog.
Notation "'let*' x := m 'in' k" := (pbind m (λ x, k)) (at level 10, x binder, m at level 100, k at level 200) : prog_scope.
Notation "'do*' m 'in' k" := (pbind m (λ _, k)) (at level 10, m at level 100, k at level 200) : prog_scope.
#[local] Open Scope prog_scope.

(** [exit] does not return. *)
Definition exit {A} (status : Z) : prog A := Call (SExit status) (λ e : Empty_set, match e with end).

(** [putc] writes every character by itself. *)
Fixpoint puts (fd : Z) (cs : list Z) : prog unit :=
  match cs with [] => Done tt | c :: cs' => do* call (SWrite fd [c]) in puts fd cs' end.
Definition fprintf (fd : Z) (fmt : string) (args : list Ulib.uarg) : prog unit :=
  puts fd (default [] (Ulib.fprintf fmt args)).

(** ** Processes *)

(** A place in the tree of processes, which names what is made there. *)
Definition place : Type := list nat.
Inductive file :=
| Opened (at_ : place) (path : list Z) (mode : Z)
| ReadEnd (at_ : place)
| WriteEnd (at_ : place).
#[export] Instance file_eq_dec : EqDecision file.
Proof. solve_decision. Defined.
#[global] Abbreviation table := (list (option file)).
Record proc := mk_proc { fds : table; at_ : place }.

(** The first free descriptor. *)
Definition fdalloc (t : table) (f : file) : option (Z * table) :=
  match list_find (.= None) t with
  | Some (i, _) => Some (Z.of_nat i, <[i := Some f]> t)
  | None => None
  end.
Definition fd_file (t : table) (fd : Z) : option file := if fd <? 0 then None else mjoin (t !! Z.to_nat fd).
Definition closed (t : table) (fd : Z) : table := <[Z.to_nat fd := None]> t.

(** What becomes of a process: it exits, runs a program with its table, forks,
    waits for a child, writes to a file or does something else. *)
Inductive ptree :=
| Exits (status : Z)
| Becomes (path : list Z) (argv : list (list Z)) (t : table)
| Forks (child parent : ptree)
| Waits (t : table) (rest : ptree)
| Writes (f : file) (buf : list Z) (rest : ptree)
| Does (a : action) (rest : ptree)
| Stops.

(** The kernel's part. A process that is forked at a place gets a number, and
    a call of [wait] there returns one. *)
Record env := mk_env {
  can_open : list Z → Z → bool;
  can_exec : list Z → list (list Z) → bool;
  can_do : action → bool;
  forks : place → option positive;
  waits : place → Z
}.

Section run.
Context (e : env).

(** One system call of process [w]; [next] is what follows it. *)
Definition do_call {R} (c : sys R) (w : proc) : (R → proc → ptree) → ptree :=
  match c with
  | SOpen path mode => λ next,
      match (if can_open e path mode then fdalloc (fds w) (Opened (at_ w) path mode) else None) with
      | Some (fd, t) => next fd (mk_proc t (at_ w ++ [2%nat]))
      | None => next (-1) w
      end
  | SClose fd => λ next,
      match fd_file (fds w) fd with
      | Some _ => next 0 (mk_proc (closed (fds w) fd) (at_ w))
      | None => next (-1) w
      end
  | SDup fd => λ next,
      match fd_file (fds w) fd with
      | Some f => match fdalloc (fds w) f with
                  | Some (fd', t) => next fd' (mk_proc t (at_ w))
                  | None => next (-1) w
                  end
      | None => next (-1) w
      end
  | SPipe => λ next,
      match fdalloc (fds w) (ReadEnd (at_ w)) with
      | Some (fd0, t) =>
          match fdalloc t (WriteEnd (at_ w)) with
          | Some (fd1, t) => next (Some (fd0, fd1)) (mk_proc t (at_ w ++ [2%nat]))
          | None => next None w
          end
      | None => next None w
      end
  | SFork => λ next,
      match forks e (at_ w) with
      | Some pid => Forks (next 0 (mk_proc (fds w) (at_ w ++ [0%nat]))) (next (Z.pos pid) (mk_proc (fds w) (at_ w ++ [1%nat])))
      | None => next (-1) w
      end
  | SWait => λ next, Waits (fds w) (next (waits e (at_ w)) (mk_proc (fds w) (at_ w ++ [3%nat])))
  | SWrite fd buf => λ next,
      match fd_file (fds w) fd with
      | Some f => Writes f buf (next (Z.of_nat (length buf)) w)
      | None => next (-1) w
      end
  | SAct a => λ next, if can_do e a then Does a (next 0 w) else next (-1) w
  | SExec path argv => λ next, if can_exec e path argv then Becomes path argv (fds w) else next (-1) w
  | SExit status => λ _, Exits status
  end.

Fixpoint run {A} (p : prog A) (w : proc) (next : A → proc → ptree) : ptree :=
  match p with
  | Done a => next a w
  | Call c k => do_call c w (λ r w', run (k r) w' next)
  end.
Definition runs {A} (p : prog A) (w : proc) : ptree := run p w (λ _ _, Stops).
End run.

(** ** Running *)

Section run_rules.
Context (e : env).

Lemma do_call_ext {R} (c : sys R) w n1 n2 : (∀ r w', n1 r w' = n2 r w') → do_call e c w n1 = do_call e c w n2.
Proof. intros H. destruct c; simpl; repeat case_match; by rewrite ?H. Qed.

Lemma run_ext {A} (p : prog A) : ∀ w n1 n2, (∀ a w', n1 a w' = n2 a w') → run e p w n1 = run e p w n2.
Proof. induction p as [a|R c k IH]; intros w n1 n2 H; simpl; [apply H|]. apply do_call_ext. intros r w'. by apply IH. Qed.

Lemma run_bind {A B} (m : prog A) (f : A → prog B) : ∀ w next,
  run e (pbind m f) w next = run e m w (λ a w', run e (f a) w' next).
Proof. induction m as [a|R c k IH]; intros w next; simpl; [done|]. apply do_call_ext. intros r w'. apply IH. Qed.

Lemma run_call {A R} (c : sys R) (k : R → prog A) w next :
  run e (pbind (call c) k) w next = do_call e c w (λ r w', run e (k r) w' next).
Proof. done. Qed.

Lemma fdalloc_at t f (i : nat) :
  t !! i = Some None → (∀ j, (j < i)%nat → ∃ g, t !! j = Some (Some g)) → fdalloc t f = Some (Z.of_nat i, <[i := Some f]> t).
Proof.
  intros Hi Hj. unfold fdalloc. assert (list_find (.= None) t = Some (i, None)) as ->; [|done].
  apply list_find_Some. split_and!; try done. intros j y Hy Hlt ->. destruct (Hj j Hlt) as [g Hg]. congruence.
Qed.
Lemma fdalloc_inv t f fd t' :
  fdalloc t f = Some (fd, t') →
  ∃ i, fd = Z.of_nat i ∧ t !! i = Some None ∧ t' = <[i := Some f]> t ∧ ∀ j, (j < i)%nat → ∃ g, t !! j = Some (Some g).
Proof.
  unfold fdalloc. destruct (list_find (.= None) t) as [[i x]|] eqn:E; [|done]. intros [= <- <-].
  apply list_find_Some in E as (Hi & -> & Hj). exists i. split_and!; try done.
  intros j Hlt. destruct (lookup_lt_is_Some_2 t j) as [y Hy]; [apply lookup_lt_Some in Hi; lia|].
  destruct y as [g|]; [by exists g|]. by destruct (Hj j None Hy Hlt).
Qed.

Lemma fd_file_at t (i : nat) f : t !! i = Some (Some f) → fd_file t (Z.of_nat i) = Some f.
Proof. intros Hi. unfold fd_file. destruct (Z.ltb_spec (Z.of_nat i) 0); [lia|]. by rewrite Nat2Z.id, Hi. Qed.

Lemma run_close {A} (k : prog A) t pl (i : nat) f next :
  t !! i = Some (Some f) → run e (do* call (SClose (Z.of_nat i)) in k) (mk_proc t pl) next = run e k (mk_proc (<[i := None]> t) pl) next.
Proof. intros Hi. rewrite run_call. cbn [do_call fds at_]. rewrite (fd_file_at t i f Hi). unfold closed. by rewrite Nat2Z.id. Qed.

Lemma run_dup {A} (k : prog A) t pl (i j : nat) f next :
  t !! i = Some (Some f) → t !! j = Some None → (∀ j', (j' < j)%nat → ∃ g, t !! j' = Some (Some g)) →
  run e (do* call (SDup (Z.of_nat i)) in k) (mk_proc t pl) next = run e k (mk_proc (<[j := Some f]> t) pl) next.
Proof. intros Hi Hj Hb. rewrite run_call. cbn [do_call fds at_]. by rewrite (fd_file_at t i f Hi), (fdalloc_at t f j Hj Hb). Qed.

(** What is written character by character. *)
Definition says (f : file) (cs : list Z) (rest : ptree) : ptree := foldr (λ c r, Writes f [c] r) rest cs.

Lemma run_puts {A} fd cs (k : prog A) w f next :
  fd_file (fds w) fd = Some f → run e (do* puts fd cs in k) w next = says f cs (run e k w next).
Proof.
  intros Hf. rewrite run_bind. induction cs as [|c cs IH]; [done|]. cbn [puts]. rewrite run_call. cbn [do_call]. rewrite Hf.
  unfold says. cbn [foldr]. f_equal. exact IH.
Qed.
Lemma run_fprintf {A} fd fmt args out (k : prog A) w f next :
  fd_file (fds w) fd = Some f → Ulib.fprintf fmt args = Some out → run e (do* fprintf fd fmt args in k) w next = says f out (run e k w next).
Proof. intros Hf Ho. unfold fprintf. rewrite Ho. by apply run_puts. Qed.
Lemma run_exit {A} st w (next : A → proc → ptree) : run e (exit st) w next = Exits st.
Proof. done. Qed.
End run_rules.
