(* ===== verification/ShRun.v ===== *)
(** * The shell runs commands ([runcmd], [getcmd] and [main] of [user/sh.c]) *)

From S2P Require Import Prelude.
From S2P Require Import Machine.
From S2P Require Import Ulib.
From S2P Require Import USys.
From S2P Require Import Sh.
#[local] Open Scope Z_scope.
#[local] Open Scope prog_scope.

Definition panic {A} (s : string) : prog A := do* fprintf 2 "%s
" [Ulib.UStr (Some (Printf.bytes s))] in exit 1.

Definition fork1 : prog Z :=
  let* pid := call SFork in
  if pid =? -1 then panic "fork" else Done pid.

(** A word in the buffer. *)
Definition arg (b : list Z) (w : span) : list Z := string_at (drop w.1 b).

(** [runcmd] does not return. *)
Fixpoint runcmd (b : list Z) (c : cmd) : prog Empty_set :=
  match c with
  | EXEC [] => exit 1
  | EXEC (w :: argv) =>
      do* call (SExec (arg b w) (map (arg b) (w :: argv))) in
      do* fprintf 2 "exec %s failed
" [Ulib.UStr (Some (arg b w))] in
      exit 0
  | REDIR c w mode fd =>
      do* call (SClose fd) in
      let* r := call (SOpen (arg b w) mode) in
      if r <? 0 then
        do* fprintf 2 "open %s failed
" [Ulib.UStr (Some (arg b w))] in
        exit 1
      else runcmd b c
  | LIST l r =>
      let* pid := fork1 in
      if pid =? 0 then runcmd b l else
      do* call SWait in
      runcmd b r
  | PIPE l r =>
      let* p := call SPipe in
      match p with
      | None => panic "pipe"
      | Some (p0, p1) =>
          let* pid := fork1 in
          if pid =? 0 then
            do* call (SClose 1) in
            do* call (SDup p1) in
            do* call (SClose p0) in
            do* call (SClose p1) in
            runcmd b l
          else
          let* pid := fork1 in
          if pid =? 0 then
            do* call (SClose 0) in
            do* call (SDup p0) in
            do* call (SClose p0) in
            do* call (SClose p1) in
            runcmd b r
          else
          do* call (SClose p0) in
          do* call (SClose p1) in
          do* call SWait in
          do* call SWait in
          exit 0
      end
  | BACK c =>
      let* pid := fork1 in
      if pid =? 0 then runcmd b c else exit 0
  end.

(** [runcmd(parsecmd(buf))]: a syntax error ends the process; text that is left
    over after a command is printed first. *)
Definition run_line (s : list Z) : prog Empty_set :=
  match parsecmd s with
  | Ret (c, b) _ => runcmd b c
  | Panic msg p =>
      do* (match parseline s (parse_fuel s) 0%nat with
           | Ret _ _ => fprintf 2 "leftovers: %s
" [Ulib.UStr (Some (drop p s))]
           | _ => Done tt
           end) in
      panic msg
  | Sleeps _ _ | NoFuel _ => exit 1
  end.

(** [open("console", O_RDWR)] until a descriptor from 3 on is returned. *)
Definition console : list Z := Printf.bytes "console".
Fixpoint open_std (fuel : nat) : prog unit :=
  match fuel with
  | O => Done tt
  | S fuel' =>
      let* fd := call (SOpen console O_RDWR) in
      if negb (0 <=? fd) then Done tt
      else if 3 <=? fd then do* call (SClose fd) in Done tt
      else open_std fuel'
  end.

Definition nbuf : nat := 100.

(** The line that [getcmd] leaves in [buf], empty at the end of the input, and
    the input that is left. *)
Definition getcmd (input : list Z) : prog (list Z * list Z) :=
  do* call (SWrite 2 (Printf.bytes "$ ")) in
  let '(line, input) := Ulib.gets nbuf input in
  Done (string_at line, input).

(** The command loop; [input] is what the shell's own reads return. *)
Fixpoint shell_loop (fuel : nat) (input : list Z) : prog unit :=
  match fuel with
  | O => Done tt
  | S fuel' =>
      let* '(buf, input) := getcmd input in
      if nth 0 buf 0 =? 0 then exit 0
      else if (nth 0 buf 0 =? 99) && (nth 1 buf 0 =? 100) && (nth 2 buf 0 =? 32) then
        let path := drop 3 (take (length buf - 1) buf) in
        let* r := call (SAct (AChdir path)) in
        do* (if r <? 0 then fprintf 2 "cannot cd %s
" [Ulib.UStr (Some path)] else Done tt) in
        shell_loop fuel' input
      else
        let* pid := fork1 in
        if pid =? 0 then do* run_line buf in Done tt
        else
        do* call SWait in
        shell_loop fuel' input
  end.

(** The descriptor returned by [open] grows at every turn of the first loop,
    and every turn of the second takes a byte of the input. *)
Definition main (input : list Z) : prog unit :=
  do* open_std 4 in
  shell_loop (S (length input)) input.
