(* ===== verification/ShRunSpec.v ===== *)
(** * The processes of a command

    [launch] says which processes a command is to start, with which open
    files, in which order, without the descriptors that [runcmd] juggles. *)

From S2P Require Import Prelude.
From S2P Require Import Machine.
From S2P Require Import Ulib.
From S2P Require Import USys.
From S2P Require Import Sh.
From S2P Require Import ShSpec.
From S2P Require Import ShRun.
#[local] Open Scope Z_scope.
#[local] Open Scope prog_scope.

Definition nl : Z := 10.

Section launch.
Context (e : env).

(** The file of standard error. *)
Definition stderr (t : table) : file := default (ReadEnd []) (mjoin (t !! 2%nat)).
Definition fails {t : table} (msg : list Z) (status : Z) : ptree := says (stderr t) (msg ++ [nl]) (Exits status).
#[local] Arguments fails : clear implicits.

Definition forked (t : table) (pl : place) (child parent : place → ptree) : ptree :=
  match forks e pl with
  | Some _ => Forks (child (pl ++ [0%nat])) (parent (pl ++ [1%nat]))
  | None => fails t (Printf.bytes "fork") 1
  end.

(** At least two descriptors are free. *)
Definition room (t : table) : bool := (2 <=? length (filter (.= None) t))%nat.

Fixpoint launch (c : ast) (t : table) (pl : place) : ptree :=
  match c with
  | Exec [] => Exits 1
  | Exec (a :: argv) =>
      if can_exec e a (a :: argv) then Becomes a (a :: argv) t
      else fails t (Printf.bytes "exec " ++ a ++ Printf.bytes " failed") 0
  | Redir c f mode fd =>
      if can_open e f mode then launch c (<[Z.to_nat fd := Some (Opened pl f mode)]> t) (pl ++ [2%nat])
      else fails t (Printf.bytes "open " ++ f ++ Printf.bytes " failed") 1
  | Seq l r => forked t pl (launch l t) (λ pl, Waits t (launch r t (pl ++ [3%nat])))
  | Pipe l r =>
      if room t then
        forked t (pl ++ [2%nat]) (launch l (<[1%nat := Some (WriteEnd pl)]> t)) (λ pl1,
          forked t pl1 (launch r (<[0%nat := Some (ReadEnd pl)]> t)) (λ _, Waits t (Waits t (Exits 0))))
      else fails t (Printf.bytes "pipe") 1
  | Back c => forked t pl (launch c t) (λ _, Exits 0)
  end.

(** ** Tables of the shell *)

(** The three standard files are open. *)
Definition std (t : table) : Prop := ∀ i, (i < 3)%nat → ∃ f, t !! i = Some (Some f).

Lemma std_insert t (i : nat) f : std t → std (<[i := Some f]> t).
Proof.
  intros H j Hj. destruct (H j Hj) as [g Hg]. destruct (decide (i = j)) as [->|].
  - exists f. apply list_lookup_insert_eq. by eapply lookup_lt_Some.
  - exists g. by rewrite list_lookup_insert_ne.
Qed.
Lemma std_below t (i j : nat) : std t → (j < i)%nat → (i < 3)%nat → ∃ g, <[i := None]> t !! j = Some (Some g).
Proof. intros H Hj Hi. destruct (H j ltac:(lia)) as [g Hg]. exists g. by rewrite list_lookup_insert_ne by lia. Qed.
Lemma std_stderr t : std t → fd_file t 2 = Some (stderr t).
Proof. intros H. destruct (H 2%nat ltac:(lia)) as [f Hf]. unfold stderr. rewrite Hf. by apply (fd_file_at t 2 f). Qed.
Lemma stderr_insert t (i : nat) x : (i < 2)%nat → stderr (<[i := x]> t) = stderr t.
Proof. intros Hi. unfold stderr. by rewrite list_lookup_insert_ne by lia. Qed.
(** A descriptor that is free is not a standard one. *)
Lemma std_free t i : std t → t !! i = Some None → (3 ≤ i)%nat.
Proof. intros H Hi. destruct (decide (i < 3)%nat) as [Hlt|]; [|lia]. destruct (H i Hlt) as [f Hf]. congruence. Qed.

(** The words of a C string. *)
Lemma until_nul_arg b w : Printf.until_nul (arg b w) = arg b w.
Proof. unfold arg. induction (drop w.1 b) as [|c l IH]; simpl; [done|]. destruct (c =? 0) eqn:E; simpl; [done|]. by rewrite E, IH. Qed.

Lemma exec_failed a : Printf.until_nul a = a →
  Ulib.fprintf "exec %s failed
" [Ulib.UStr (Some a)] = Some ((Printf.bytes "exec " ++ a ++ Printf.bytes " failed") ++ [nl]).
Proof. intros E. rewrite <- E at 2. rewrite <- !app_assoc. reflexivity. Qed.
Lemma open_failed a : Printf.until_nul a = a →
  Ulib.fprintf "open %s failed
" [Ulib.UStr (Some a)] = Some ((Printf.bytes "open " ++ a ++ Printf.bytes " failed") ++ [nl]).
Proof. intros E. rewrite <- E at 2. rewrite <- !app_assoc. reflexivity. Qed.

Lemma run_panic {A} s t pl (next : A → proc → ptree) :
  std t → Printf.until_nul (Printf.bytes s) = Printf.bytes s → run e (panic s) (mk_proc t pl) next = fails t (Printf.bytes s) 1.
Proof.
  intros Hs E. unfold panic. rewrite (run_fprintf e 2 _ _ (Printf.bytes s ++ [nl]) _ _ (stderr t)); [done|by apply std_stderr|].
  rewrite <- E at 2. reflexivity.
Qed.

Lemma run_fork1 {A} (k : Z → prog A) t pl next :
  std t → run e (let* pid := fork1 in k pid) (mk_proc t pl) next =
    match forks e pl with
    | Some pid => Forks (run e (k 0) (mk_proc t (pl ++ [0%nat])) next) (run e (k (Z.pos pid)) (mk_proc t (pl ++ [1%nat])) next)
    | None => fails t (Printf.bytes "fork") 1
    end.
Proof.
  intros Hs. rewrite run_bind. unfold fork1. rewrite run_call. cbn [do_call fds at_]. destruct (forks e pl); [done|].
  by apply (run_panic "fork").
Qed.

(** ** Pipes *)

Lemma fdalloc_frees t f fd t' : fdalloc t f = Some (fd, t') → length (filter (.= None) t) = S (length (filter (.= None) t')).
Proof.
  intros (i & _ & Hi & -> & _)%fdalloc_inv. pose proof (lookup_lt_Some _ _ _ Hi).
  rewrite insert_take_drop by done. rewrite <- (take_drop_middle t i None Hi) at 1.
  rewrite !filter_app, !length_app. rewrite filter_cons_True, filter_cons_False by done. simpl. lia.
Qed.
Lemma fdalloc_full t f : fdalloc t f = None → filter (.= None) t = [].
Proof.
  unfold fdalloc. destruct (list_find (.= None) t) as [[i x]|] eqn:E; [done|]. intros _. apply list_find_None in E.
  induction E as [|x t Hx _ IH]; [done|]. by rewrite filter_cons_False.
Qed.

(** The ends of a new pipe in the first two free descriptors, or no room. *)
Lemma run_pipe {A} (k : option (Z * Z) → prog A) t pl next :
  std t →
  if room t then ∃ i j : nat, (3 ≤ i)%nat ∧ (3 ≤ j)%nat ∧ i ≠ j ∧ t !! i = Some None ∧ t !! j = Some None ∧
    run e (let* p := call SPipe in k p) (mk_proc t pl) next =
      run e (k (Some (Z.of_nat i, Z.of_nat j))) (mk_proc (<[j := Some (WriteEnd pl)]> (<[i := Some (ReadEnd pl)]> t)) (pl ++ [2%nat])) next
  else run e (let* p := call SPipe in k p) (mk_proc t pl) next = run e (k None) (mk_proc t pl) next.
Proof.
  intros Hs. rewrite run_call. cbn [do_call fds at_]. unfold room.
  destruct (fdalloc t (ReadEnd pl)) as [[fd0 t1]|] eqn:E1; [|by rewrite (fdalloc_full _ _ E1)].
  rewrite (fdalloc_frees _ _ _ _ E1). apply fdalloc_inv in E1 as (i & -> & Hi & -> & _).
  destruct (fdalloc (<[i := Some (ReadEnd pl)]> t) (WriteEnd pl)) as [[fd1 t2]|] eqn:E2; [|by rewrite (fdalloc_full _ _ E2)].
  rewrite (fdalloc_frees _ _ _ _ E2). apply fdalloc_inv in E2 as (j & -> & Hj & -> & _). simpl.
  pose proof (lookup_lt_Some _ _ _ Hi).
  assert (i ≠ j) as Hij by (intros ->; rewrite list_lookup_insert_eq in Hj by done; done).
  rewrite list_lookup_insert_ne in Hj by done. exists i, j. split_and!; eauto using std_free.
Qed.

Section ends.
Context (t : table) (i j : nat) (r w : file).
Context (Hs : std t) (Hi3 : (3 ≤ i)%nat) (Hj3 : (3 ≤ j)%nat) (Hij : i ≠ j) (Hi : t !! i = Some None) (Hj : t !! j = Some None).
#[local] Abbreviation t1 := (<[j := Some w]> (<[i := Some r]> t)).

Lemma ends_closed : <[j := None]> (<[i := None]> t1) = t.
Proof.
  rewrite (list_insert_insert_ne _ i j), (list_insert_insert_eq _ i), (list_insert_insert_eq _ j) by done.
  by rewrite (list_insert_id t i), list_insert_id.
Qed.
Lemma ends_lookup : t1 !! i = Some (Some r) ∧ t1 !! j = Some (Some w).
Proof.
  apply lookup_lt_Some in Hi, Hj. split; [rewrite list_lookup_insert_ne by done|]; apply list_lookup_insert_eq; by rewrite ?length_insert.
Qed.
Lemma std_ends : std t1.
Proof. by repeat apply std_insert. Qed.

(** [close(n); dup(p); close(p[0]); close(p[1])] in a child, for a standard
    [n]: the end [p] is its file [n]. *)
Lemma run_move {A} (k : prog A) (n p : nat) f pl next :
  (n < 3)%nat → p = i ∨ p = j → t1 !! p = Some (Some f) →
  run e (do* call (SClose (Z.of_nat n)) in do* call (SDup (Z.of_nat p)) in do* call (SClose (Z.of_nat i)) in do* call (SClose (Z.of_nat j)) in k)
    (mk_proc t1 pl) next = run e k (mk_proc (<[n := Some f]> t) pl) next.
Proof.
  intros Hn Hp Hf. destruct (std_ends n Hn) as [g Hg]. rewrite (run_close _ _ _ _ _ g) by done.
  pose proof (lookup_lt_Some _ _ _ Hg) as Hlt. destruct ends_lookup as [Ei Ej].
  rewrite (run_dup _ _ _ _ p n f); [|rewrite list_lookup_insert_ne by lia; done|by apply list_lookup_insert_eq|].
  2: { intros m Hm. eapply std_below; [apply std_ends|done|done]. }
  rewrite list_insert_insert_eq.
  rewrite (run_close _ _ _ _ _ r) by (by rewrite list_lookup_insert_ne by lia).
  rewrite (run_close _ _ _ _ _ w) by (by rewrite !list_lookup_insert_ne by lia).
  by rewrite (list_insert_insert_ne _ i n), (list_insert_insert_ne _ j n), ends_closed by lia.
Qed.
End ends.

(** ** [runcmd] *)

(** Redirections are of standard input and output. *)
Fixpoint redirs_ok (c : ast) : Prop :=
  match c with
  | Exec _ => True
  | Redir c _ _ fd => (fd = 0 ∨ fd = 1) ∧ redirs_ok c
  | Pipe l r | Seq l r => redirs_ok l ∧ redirs_ok r
  | Back c => redirs_ok c
  end.

Lemma runcmd_launch b c : ∀ t pl next, std t → redirs_ok (strings b c) →
  run e (runcmd b c) (mk_proc t pl) next = launch (strings b c) t pl.
Proof.
  induction c as [argv|c IH w mode fd|l IHl r IHr|l IHl r IHr|c IH]; intros t pl next Hs Hr; cbn [runcmd strings launch redirs_ok] in *.
  - destruct argv as [|w argv]; [done|]. rewrite run_call. cbn [do_call fds]. cbn [map]. fold (arg b w).
    change (map (λ w0 : span, string_at (drop w0.1 b)) argv) with (map (arg b) argv).
    destruct (can_exec e (arg b w) _); [done|].
    rewrite (run_fprintf e 2 _ _ _ _ (mk_proc t pl) (stderr t) _ (std_stderr _ Hs) (exec_failed _ (until_nul_arg b w))). done.
  - destruct Hr as [Hfd Hr]. fold (arg b w). set (n := Z.to_nat fd). assert (n < 2)%nat as Hn by lia.
    replace fd with (Z.of_nat n) by lia. destruct (Hs n ltac:(lia)) as [g Hg]. rewrite (run_close _ _ _ _ _ g) by done.
    pose proof (lookup_lt_Some _ _ _ Hg). rewrite run_call. cbn [do_call fds at_]. destruct (can_open e (arg b w) mode).
    + rewrite (fdalloc_at _ _ n); [|by apply list_lookup_insert_eq|intros j Hj; apply (std_below t n j); [done|done|lia]]. rewrite list_insert_insert_eq.
      destruct (Z.ltb_spec (Z.of_nat n) 0); [lia|]. by rewrite IH by (try apply std_insert; done).
    + change (-1 <? 0) with true. cbv iota beta. assert (fd_file (<[n := None]> t) 2 = Some (stderr t)) as He.
      { rewrite <- (std_stderr t Hs). unfold fd_file. simpl. by rewrite list_lookup_insert_ne by lia. }
      rewrite (run_fprintf e 2 _ _ _ _ (mk_proc (<[n := None]> t) pl) (stderr t) _ He (open_failed _ (until_nul_arg b w))). done.
  - destruct Hr as [Hl Hr]. match goal with |- run e (pbind (call SPipe) ?k) _ _ = _ => pose proof (run_pipe k t pl next Hs) as Hp end.
    destruct (room t).
    + destruct Hp as (i & j & Hi3 & Hj3 & Hij & Hi & Hj & ->). destruct (ends_lookup t i j (ReadEnd pl) (WriteEnd pl) Hij Hi Hj) as [Ei Ej].
      assert (stderr (<[j := Some (WriteEnd pl)]> (<[i := Some (ReadEnd pl)]> t)) = stderr t) as Est.
      { unfold stderr. by rewrite !list_lookup_insert_ne by lia. }
      assert (std (<[j := Some (WriteEnd pl)]> (<[i := Some (ReadEnd pl)]> t))) as Hs1 by (by repeat apply std_insert).
      rewrite run_fork1 by done. unfold forked. destruct (forks e (pl ++ [2%nat])); [|unfold fails; by rewrite Est].
      cbn [Z.eqb]. rewrite (run_move t i j _ _ Hs Hi3 Hj3 Hij Hi Hj _ 1 j (WriteEnd pl)) by (lia || auto).
      rewrite IHl by (done || by apply std_insert). f_equal.
      rewrite run_fork1 by done. destruct (forks e _); [|unfold fails; by rewrite Est].
      cbn [Z.eqb]. rewrite (run_move t i j _ _ Hs Hi3 Hj3 Hij Hi Hj _ 0 i (ReadEnd pl)) by (lia || auto).
      rewrite IHr by (done || by apply std_insert). f_equal.
      rewrite (run_close _ _ _ _ i (ReadEnd pl)) by done. rewrite (run_close _ _ _ _ j (WriteEnd pl)) by (by rewrite list_lookup_insert_ne by done).
      by rewrite ends_closed.
    + rewrite Hp. by apply (run_panic "pipe").
  - destruct Hr as [Hl Hr]. rewrite run_fork1 by done. unfold forked. destruct (forks e pl); [|done].
    rewrite IHl by done. cbn [Z.eqb]. rewrite run_call. cbn [do_call fds]. by rewrite IHr.
  - rewrite run_fork1 by done. unfold forked. destruct (forks e pl); [|done]. by rewrite IH.
Qed.
End launch.
