(* ===== verification/ShRunThms.v ===== *)
(** * Sessions of the shell *)

From S2P Require Import Prelude.
From S2P Require Import Machine.
From S2P Require Import Ulib.
From S2P Require Import USys.
From S2P Require Import Sh.
From S2P Require Import ShSpec.
From S2P Require Import ShRun.
From S2P Require Import ShRunSpec.
#[local] Open Scope Z_scope.
#[local] Open Scope prog_scope.

(** ** Parsed commands *)

Lemma redirs_redirected rs c : redirs_ok c → redirs_ok (redirected rs c).
Proof.
  unfold redirected. revert c. induction rs as [|r rs IH]; intros c Hc; [done|]. simpl. apply IH. simpl. split; [|done].
  unfold rfd. destruct (r.1); auto.
Qed.
Lemma redirs_back k c : redirs_ok c → redirs_ok (Nat.iter k Back c).
Proof. intros H. by induction k. Qed.
Lemma grammar_redirs :
  (∀ ts c, gline ts c → redirs_ok c) ∧ (∀ ts c, gpipe ts c → redirs_ok c) ∧ (∀ ts c, gexec ts c → redirs_ok c).
Proof.
  apply grammar_ind; intros; simpl; auto using redirs_back, redirs_redirected.
  by apply redirs_redirected.
Qed.

(** ** Lines *)

(** [l] and a newline, as [gets] reads it in one go. *)
Definition is_line (l : list Z) : Prop := Forall (λ c, c ≠ 0 ∧ c ≠ 10 ∧ c ≠ 13) l ∧ (length l + 1 < nbuf)%nat.

Lemma gets_cons n c l :
  Ulib.gets (S (S n)) (c :: l) = if (c =? 10) || (c =? 13) then ([c], l) else let '(l', rest) := Ulib.gets (S n) l in (c :: l', rest).
Proof. done. Qed.
Lemma gets_line n l rest : Forall (λ c, c ≠ 0 ∧ c ≠ 10 ∧ c ≠ 13) l → (length l + 1 < n)%nat → Ulib.gets n (l ++ 10 :: rest) = (l ++ [10], rest).
Proof.
  intros Hl. revert n. induction Hl as [|c l Hc _ IH]; intros n Hn.
  - destruct n as [|[|n]]; simpl in *; [lia|lia|done].
  - simpl in Hn. destruct n as [|n]; [lia|]. destruct n as [|n]; [lia|]. cbn [app]. rewrite gets_cons.
    destruct (Z.eqb_spec c 10); [lia|]. destruct (Z.eqb_spec c 13); [lia|]. cbn [orb].
    by rewrite IH by lia.
Qed.
Lemma string_at_line l : Forall (λ c, c ≠ 0 ∧ c ≠ 10 ∧ c ≠ 13) l → string_at (l ++ [10]) = l ++ [10].
Proof. intros Hl. induction Hl as [|c l Hc _ IH]; [done|]. simpl. destruct (Z.eqb_spec c 0); [lia|]. by rewrite IH. Qed.

(** What is typed: a change of directory or a command. *)
Inductive job := Cd (dir : list Z) | Cmd (line : list Z) (c : ast).
Definition line_of (j : job) : list Z := match j with Cd dir => [99; 100; 32] ++ dir | Cmd line _ => line end.
Definition job_ok (j : job) : Prop :=
  is_line (line_of j) ∧
  match j with
  | Cd _ => True
  | Cmd line c => take 3 line ≠ [99; 100; 32] ∧ ∃ ts, spells (line ++ [10]) ts ∧ gline ts c
  end.
Definition typed (jobs : list job) : list Z := concat (map (λ j, line_of j ++ [10]) jobs).

Section session.
Context (e : env).

(** The shell itself prompts, changes directory, or starts a command and waits
    for it; it ends with its input. *)
Fixpoint session (jobs : list job) (t : table) (pl : place) : ptree :=
  Writes (stderr t) (Printf.bytes "$ ")
    match jobs with
    | [] => Exits 0
    | Cd dir :: jobs =>
        if can_do e (AChdir dir) then Does (AChdir dir) (session jobs t pl)
        else says (stderr t) (Printf.bytes "cannot cd " ++ dir ++ [nl]) (session jobs t pl)
    | Cmd _ c :: jobs => forked e t pl (launch e c t) (λ pl, Waits t (session jobs t (pl ++ [3%nat])))
    end.

Lemma cd_failed a : Printf.until_nul a = a →
  Ulib.fprintf "cannot cd %s
" [Ulib.UStr (Some a)] = Some (Printf.bytes "cannot cd " ++ a ++ [nl]).
Proof. intros E. rewrite <- E at 2. reflexivity. Qed.
Lemma until_nul_nonzero l : Forall (λ c, c ≠ 0) l → Printf.until_nul l = l.
Proof. intros H. induction H as [|c l Hc _ IH]; [done|]. simpl. destruct (Z.eqb_spec c 0); [done|]. by rewrite IH. Qed.

Lemma is_cd line : (nth 0 (line ++ [10]) 0 =? 99) && (nth 1 (line ++ [10]) 0 =? 100) && (nth 2 (line ++ [10]) 0 =? 32) = true →
  take 3 line = [99; 100; 32].
Proof.
  intros [[H0 H1]%andb_true_iff H2]%andb_true_iff. apply Z.eqb_eq in H0, H1, H2.
  destruct line as [|a [|b [|c line]]]; simpl in *; by subst.
Qed.

Lemma run_line_launch line ts c t pl next :
  spells (line ++ [10]) ts → gline ts c → std t → run e (run_line (line ++ [10])) (mk_proc t pl) next = launch e c t pl.
Proof.
  intros Hs Hg Ht. destruct (parsecmd_grammar _ _ _ Hs Hg) as (cm & buf & p & E & Ec). unfold run_line. rewrite E.
  rewrite runcmd_launch; [by rewrite Ec|done|]. rewrite Ec. exact (proj1 grammar_redirs _ _ Hg).
Qed.

Lemma typed_cons j jobs : typed (j :: jobs) = line_of j ++ 10 :: typed jobs.
Proof. unfold typed. simpl. by rewrite <- app_assoc. Qed.

Lemma run_getcmd {A} input line rest (k : list Z * list Z → prog A) t pl next :
  std t → Ulib.gets nbuf input = (line, rest) →
  run e (pbind (getcmd input) k) (mk_proc t pl) next = Writes (stderr t) (Printf.bytes "$ ") (run e (k (string_at line, rest)) (mk_proc t pl) next).
Proof.
  intros Ht Hg. unfold getcmd. rewrite run_bind, run_call. cbn [do_call fds]. by rewrite std_stderr, Hg by done.
Qed.

Lemma shell_loop_session jobs : ∀ fuel t pl next,
  Forall job_ok jobs → std t → (length (typed jobs) < fuel)%nat →
  run e (shell_loop fuel (typed jobs)) (mk_proc t pl) next = session jobs t pl.
Proof.
  induction jobs as [|j jobs IH]; intros fuel t pl next Hj Ht Hf; (destruct fuel as [|fuel]; [lia|]); cbn [shell_loop session].
  - by rewrite (run_getcmd _ [] []) by done.
  - apply Forall_cons in Hj as [[[Hl Hlen] Hjob] Hjobs]. rewrite typed_cons in *.
    rewrite (run_getcmd _ _ _ _ _ _ _ Ht (gets_line _ _ _ Hl Hlen)), string_at_line by done. f_equal.
    rewrite length_app in Hf. simpl in Hf.
    destruct (Z.eqb_spec (nth 0 (line_of j ++ [10]) 0) 0) as [E0|_].
    { destruct (line_of j) as [|c l]; [done|]. apply Forall_cons in Hl as [[Hc _] _]. done. }
    destruct j as [dir|line c]; cbn [line_of] in *.
    + cbn [app nth Z.eqb Pos.eqb andb]. rewrite run_call. cbn [do_call fds at_].
      assert (drop 3 (take (length (99 :: 100 :: 32 :: dir ++ [10]) - 1) (99 :: 100 :: 32 :: dir ++ [10])) = dir) as ->.
      { simpl. rewrite length_app, Nat.add_comm. simpl. by rewrite take_app_length. }
      destruct (can_do e (AChdir dir)).
      * f_equal. apply IH; [done|done|lia].
      * change (-1 <? 0) with true. cbv iota.
        rewrite (run_fprintf e 2 _ _ (Printf.bytes "cannot cd " ++ dir ++ [nl]) _ _ (stderr t)); [|by apply std_stderr|].
        -- f_equal. apply IH; [done|done|lia].
        -- apply cd_failed, until_nul_nonzero. do 3 apply Forall_cons_1 in Hl as [_ Hl]. eapply Forall_impl; [exact Hl|]. by intros ? [? _].
    + destruct Hjob as (Hcd & ts & Hs & Hg). destruct (_ && _ && _) eqn:Ecd; [by apply is_cd in Ecd|].
      rewrite run_fork1 by done. unfold forked. destruct (forks e pl); [|done]. cbn [Z.eqb]. f_equal.
      * rewrite run_bind. by eapply run_line_launch.
      * rewrite run_call. cbn [do_call fds]. f_equal. apply IH; [done|done|lia].
Qed.
End session.

(** ** The standard files *)

(** [t'] keeps every file of [t] and has the standard ones open. *)
Definition completes (t t' : table) : Prop :=
  std t' ∧ (∀ i f, t !! i = Some (Some f) → t' !! i = Some (Some f)) ∧ ∀ i, (3 ≤ i)%nat → t' !! i = t !! i.

Definition missing_std (t : table) : nat := length (filter (.= None) (take 3 t)).

Lemma open_below (t : table) i f : (i < 3)%nat → t !! i = Some None →
  missing_std t = S (missing_std (<[i := Some f]> t)).
Proof.
  intros Hi Hn. unfold missing_std. rewrite take_insert_lt by done.
  assert (take 3 t !! i = Some None) as Hn' by (by rewrite lookup_take_lt).
  pose proof (lookup_lt_Some _ _ _ Hn'). rewrite insert_take_drop by done. rewrite <- (take_drop_middle (take 3 t) i None Hn') at 1.
  rewrite !filter_app, !length_app. rewrite filter_cons_True, filter_cons_False by done. simpl. lia.
Qed.

Lemma open_std_completes e fuel : ∀ {A} (k : prog A) t pl next,
  can_open e console O_RDWR = true → (3 ≤ length t)%nat → (missing_std t < fuel)%nat →
  ∃ t' pl', completes t t' ∧ run e (do* open_std fuel in k) (mk_proc t pl) next = run e k (mk_proc t' pl') next.
Proof.
  induction fuel as [|fuel IH]; intros A k t pl next Ho Hlen Hf; [lia|]. rewrite run_bind. cbn [open_std]. rewrite run_call.
  cbn [do_call fds at_]. rewrite Ho. destruct (fdalloc t (Opened pl console O_RDWR)) as [[fd t1]|] eqn:E.
  - apply fdalloc_inv in E as (i & -> & Hi & -> & Hb). destruct (Z.leb_spec 0 (Z.of_nat i)); [|lia]. cbn [negb].
    destruct (Z.leb_spec 3 (Z.of_nat i)).
    + exists t, (pl ++ [2%nat]). split; [split; [intros j Hj; apply Hb; lia|done]|].
      pose proof (lookup_lt_Some _ _ _ Hi) as Hlt.
      rewrite (run_close e _ _ _ i (Opened pl console O_RDWR)) by (by apply list_lookup_insert_eq). simpl.
      by rewrite list_insert_insert_eq, list_insert_id.
    + rewrite (open_below t i (Opened pl console O_RDWR)) in Hf by (done || lia).
      destruct (IH A k (<[i := Some (Opened pl console O_RDWR)]> t) (pl ++ [2%nat]) next) as (t' & pl' & (H1 & H2 & H3) & E); [done|by rewrite length_insert|lia|].
      exists t', pl'. rewrite run_bind in E. split; [|exact E]. split; [done|]. split.
      * intros j f Hj. apply H2. rewrite list_lookup_insert_ne; [done|]. intros ->. congruence.
      * intros j Hj. rewrite H3 by done. apply list_lookup_insert_ne. lia.
  - exists t, pl. split; [|done]. split; [|done]. unfold fdalloc in E.
    destruct (list_find (.= None) t) as [[i x]|] eqn:El; [done|]. apply list_find_None in El. rewrite Forall_lookup in El.
    intros i Hi. destruct (lookup_lt_is_Some_2 t i) as [[f|] Hx]; [lia|by exists f|]. by destruct (El i None Hx).
Qed.

(** C23: the shell runs what is typed. If the console can be opened, then for
    every input of lines of at most 98 characters that are changes of directory
    or spell commands of the grammar, the shell started on any table of files
    opens the standard files that are missing and then prompts, changes
    directory or starts the command and waits for it, line by line, until the
    input ends; the processes of each command are those of [launch]: programs
    with their files redirected (which files can be opened and which programs
    exist stays the same throughout the session), lists in order, pipelines with the pipe as
    output of the left and input of the right program and in no other table. *)
Theorem shell_runs e jobs t pl :
  can_open e console O_RDWR = true → (3 ≤ length t)%nat → Forall job_ok jobs →
  ∃ t' pl', completes t t' ∧ runs e (main (typed jobs)) (mk_proc t pl) = session e jobs t' pl'.
Proof.
  intros Ho Hl Hj. unfold runs, main.
  destruct (open_std_completes e 4 (shell_loop (S (length (typed jobs))) (typed jobs)) t pl (λ _ _, Stops) Ho Hl) as (t' & pl' & Hc & E).
  { unfold missing_std. pose proof (length_filter (.= None) (take 3 t)). rewrite length_take in *. lia. }
  exists t', pl'. split; [done|]. rewrite E. apply shell_loop_session; [done|apply Hc|lia].
Qed.

(** ** Who holds a file *)

(** Some process that runs a program or waits has the file open. *)
Fixpoint holder (f : file) (p : ptree) : Prop :=
  match p with
  | Exits _ | Stops => False
  | Becomes _ _ t => Some f ∈ t
  | Forks a b => holder f a ∨ holder f b
  | Waits t r => Some f ∈ t ∨ holder f r
  | Writes _ _ r | Does _ r => holder f r
  end.
(** Every table in the tree is [t] but for standard input and output. *)
Fixpoint like (t : table) (p : ptree) : Prop :=
  match p with
  | Exits _ | Stops => True
  | Becomes _ _ t' => ∀ i, (2 ≤ i)%nat → t' !! i = t !! i
  | Forks a b => like t a ∧ like t b
  | Waits t' r => (∀ i, (2 ≤ i)%nat → t' !! i = t !! i) ∧ like t r
  | Writes _ _ r | Does _ r => like t r
  end.

Definition made_at (f : file) : place := match f with Opened p _ _ | ReadEnd p | WriteEnd p => p end.
(** Nothing in the table was made at [pl] or after. *)
Definition fresh (t : table) (pl : place) : Prop := ∀ f, Some f ∈ t → ¬ pl `prefix_of` made_at f.

Lemma insert_file (t : table) i f g : Some f ∈ <[i := Some g]> t → Some f ∈ t ∨ f = g.
Proof.
  intros (j & Hj)%list_elem_of_lookup. apply list_lookup_insert_Some in Hj as [(_ & [= <-] & _)|[_ Hj]]; [by right|].
  left. by eapply list_elem_of_lookup_2.
Qed.

Lemma holder_says f g cs r : holder f (says g cs r) → holder f r.
Proof. unfold says. induction cs as [|c cs IH]; [done|]. exact IH. Qed.
Lemma like_says t g cs r : like t r → like t (says g cs r).
Proof. unfold says. induction cs as [|c cs IH]; [done|]. exact IH. Qed.

Section holders.
Context (e : env).

Lemma holder_forked f t pl child parent :
  holder f (forked e t pl child parent) → holder f (child (pl ++ [0%nat])) ∨ holder f (parent (pl ++ [1%nat])).
Proof. unfold forked. destruct (forks e pl); [done|]. intros H%holder_says. done. Qed.
Lemma like_forked t t' pl child parent :
  like t (child (pl ++ [0%nat])) → like t (parent (pl ++ [1%nat])) → like t (forked e t' pl child parent).
Proof. intros H1 H2. unfold forked. destruct (forks e pl); [done|]. by apply like_says. Qed.

(** A process holds what its parent held or what was made later. *)
Lemma launch_holder c : ∀ t pl f, holder f (launch e c t pl) → Some f ∈ t ∨ pl `prefix_of` made_at f.
Proof.
  assert (∀ pl x f, (pl ++ x) `prefix_of` made_at f → pl `prefix_of` made_at f) as Hpre by (intros; by eapply prefix_app_l).
  induction c as [argv|c IH file mode fd|l IHl r IHr|l IHl r IHr|c IH]; intros t pl f; cbn [launch].
  - destruct argv as [|a argv]; [done|]. destruct (can_exec e a _); [by left|]. intros H%holder_says. done.
  - destruct (can_open e file mode); [|intros H%holder_says; done].
    intros [[Ht| ->]%insert_file|H]%IH; [by left|by right|right; eauto].
  - destruct (room t); [|intros H%holder_says; done].
    intros [[[Ht| ->]%insert_file|H]%IHl|[[[Ht| ->]%insert_file|H]%IHr|H]%holder_forked]%holder_forked; auto.
    1,2: right; rewrite <- ?app_assoc in H; eauto.
    simpl in H. tauto.
  - intros [[Ht|H]%IHl|[Ht|[Ht|H]%IHr]]%holder_forked; auto; right; eauto.
  - intros [[Ht|H]%IH|H]%holder_forked; auto; [right; eauto|done].
Qed.

Lemma launch_like c : ∀ t t' pl, redirs_ok c → (∀ i, (2 ≤ i)%nat → t' !! i = t !! i) → like t (launch e c t' pl).
Proof.
  assert (∀ (t t' : table) j x, (j < 2)%nat → (∀ i, (2 ≤ i)%nat → t' !! i = t !! i) → ∀ i, (2 ≤ i)%nat → <[j := x]> t' !! i = t !! i) as Hins.
  { intros t t' j x Hj Ht i Hi. rewrite list_lookup_insert_ne by lia. auto. }
  induction c as [argv|c IH file mode fd|l IHl r IHr|l IHl r IHr|c IH]; intros t t' pl Hr Ht; cbn [launch redirs_ok] in *.
  - destruct argv as [|a argv]; [done|]. destruct (can_exec e a _); [done|]. by apply like_says.
  - destruct Hr as [Hfd Hr]. destruct (can_open e file mode); [|by apply like_says]. apply IH; [done|]. apply Hins; [lia|done].
  - destruct Hr as [Hl Hr]. destruct (room t'); [|by apply like_says]. apply like_forked; [apply IHl; auto|].
    apply like_forked; [apply IHr; auto|done].
  - destruct Hr as [Hl Hr]. apply like_forked; [by apply IHl|]. split; [done|]. by apply IHr.
  - apply like_forked; [by apply IH|done].
Qed.

(** C24: pipes end. When [runcmd] of a pipeline finds two free descriptors and
    can fork, the processes of the left command and those they start never hold
    the read end, those of the right command never the write end, and the
    process that waits for both holds neither, so the reader sees the end of
    its input when the writers are done; no descriptor from 2 on differs from
    the shell's in any process. *)
Theorem pipe_ends b l r t pl p1 p2 :
  std t → fresh t pl → redirs_ok (strings b (PIPE l r)) → room t = true →
  forks e (pl ++ [2%nat]) = Some p1 → forks e ((pl ++ [2%nat]) ++ [1%nat]) = Some p2 →
  ∃ L R W, runs e (runcmd b (PIPE l r)) (mk_proc t pl) = Forks L (Forks R W) ∧
    ¬ holder (ReadEnd pl) L ∧ ¬ holder (WriteEnd pl) R ∧ ¬ holder (ReadEnd pl) W ∧ ¬ holder (WriteEnd pl) W ∧
    like t L ∧ like t R ∧ like t W.
Proof.
  intros Hs Hf Hr Hroom H1 H2. unfold runs. rewrite runcmd_launch by done. cbn [strings launch]. unfold forked. rewrite Hroom, H1, H2.
  assert (∀ f, made_at f = pl → ¬ Some f ∈ t) as Hnot by (intros f <- Ht; by apply (Hf f Ht)).
  assert (∀ x, x ≠ [] → ¬ (pl ++ x) `prefix_of` pl) as Hlong.
  { intros x Hx Hp%prefix_length. rewrite length_app in Hp. destruct x; [done|simpl in Hp; lia]. }
  destruct Hr as [Hl Hr]. eexists _, _, _. split; [done|]. split_and!.
  - intros [[Ht|[=]]%insert_file|Hp]%launch_holder; [exact (Hnot (ReadEnd pl) eq_refl Ht)|]. rewrite <- app_assoc in Hp. by apply Hlong in Hp.
  - intros [[Ht|[=]]%insert_file|Hp]%launch_holder; [exact (Hnot (WriteEnd pl) eq_refl Ht)|]. rewrite <- !app_assoc in Hp. by apply Hlong in Hp.
  - intros [Ht|[Ht|[]]]; exact (Hnot (ReadEnd pl) eq_refl Ht).
  - intros [Ht|[Ht|[]]]; exact (Hnot (WriteEnd pl) eq_refl Ht).
  - apply launch_like; [done|]. intros i Hi. by rewrite list_lookup_insert_ne by lia.
  - apply launch_like; [done|]. intros i Hi. by rewrite list_lookup_insert_ne by lia.
  - done.
Qed.
End holders.

(** ** Instances *)

Definition willing : env := mk_env (λ _ _, true) (λ _ _, true) (λ _, true) (λ _, Some 7%positive) (λ _, 7).
(** "cd d" and "ls|wc >x" *)
Definition demo_jobs : list job :=
  [Cd [100]; Cmd [108; 115; 124; 119; 99; 32; 62; 120] (Pipe (Exec [[108; 115]]) (Redir (Exec [[119; 99]]) [120] (rmode Output) 1))].

Lemma demo_jobs_ok : Forall job_ok demo_jobs.
Proof.
  repeat apply Forall_cons_2; [| |apply Forall_nil_2].
  - split; [|exact I]. split; [repeat constructor; discriminate|vm_compute; lia].
  - split; [split; [repeat constructor; discriminate|vm_compute; lia]|]. split; [discriminate|].
    exists [Word [108; 115]; Sym c_bar; Word [119; 99]; Sym c_gt; Word [120]]. split.
    + apply (sp_cons [] (Word [108; 115]) [124; 119; 99; 32; 62; 120; 10]); [by repeat constructor..|].
      apply (sp_cons [] (Sym c_bar) [119; 99; 32; 62; 120; 10]); [by repeat constructor|by apply list_elem_of_In; vm_compute; tauto|done|].
      apply (sp_cons [] (Word [119; 99]) [32; 62; 120; 10]); [by repeat constructor..|].
      apply (sp_cons [32] (Sym c_gt) [120; 10]); [by repeat constructor|by apply list_elem_of_In; vm_compute; tauto|done|].
      apply (sp_cons [] (Word [120]) [10]); [by repeat constructor..|]. apply sp_nil. by repeat constructor.
    + apply (gl_last [Word [108; 115]; Sym c_bar; Word [119; 99]; Sym c_gt; Word [120]] _ 0).
      apply (gp_pipe [Word [108; 115]] _ [Word [119; 99]; Sym c_gt; Word [120]]).
      * apply (ge_simple [] [([108; 115], [])]). vm_compute. lia.
      * apply gp_last, (ge_simple [] [([119; 99], [(Output, [120])])]). vm_compute. lia.
Qed.

Lemma shell_runs_witness :
  ∃ t' pl', completes (replicate 16 None) t' ∧ runs willing (main (typed demo_jobs)) (mk_proc (replicate 16 None) []) = session willing demo_jobs t' pl'.
Proof. apply (shell_runs willing demo_jobs (replicate 16 None) []); [reflexivity|vm_compute; lia|exact demo_jobs_ok]. Defined.

(** The same session evaluated: the programs and their standard files. *)
Example demo_session :
  let con i := Opened (replicate i 2%nat) console O_RDWR in
  match runs willing (main (typed demo_jobs)) (mk_proc (replicate 16 None) []) with
  | Writes _ _ (Does (AChdir [100]) (Writes _ _ (Forks (Forks (Becomes [108; 115] _ (Some i0 :: Some o0 :: Some e0 :: r0)) (Forks (Becomes [119; 99] _ (Some i1 :: Some o1 :: Some e1 :: r1)) (Waits _ (Waits _ (Exits 0))))) (Waits _ (Writes _ _ (Exits 0)))))) =>
      i0 = con 0%nat ∧ (∃ p, o0 = WriteEnd p ∧ i1 = ReadEnd p) ∧ (∃ p, o1 = Opened p [120] (rmode Output)) ∧
      e0 = con 2%nat ∧ e1 = con 2%nat ∧ r0 = replicate 13 None ∧ r1 = replicate 13 None
  | _ => False
  end.
Proof. vm_compute. repeat split; eauto. Qed.

Lemma pipe_ends_witness :
  let b := [108; 115; 0; 119; 99; 0] in
  let t := [Some (Opened [] console O_RDWR); Some (Opened [] console O_RDWR); Some (Opened [] console O_RDWR)] ++ replicate 13 None in
  ∃ L R W, runs willing (runcmd b (PIPE (EXEC [(0, 2)%nat]) (EXEC [(3, 5)%nat]))) (mk_proc t [5%nat]) = Forks L (Forks R W) ∧
    ¬ holder (ReadEnd [5%nat]) L ∧ ¬ holder (WriteEnd [5%nat]) R ∧ ¬ holder (ReadEnd [5%nat]) W ∧ ¬ holder (WriteEnd [5%nat]) W ∧
    like t L ∧ like t R ∧ like t W.
Proof.
  intros b t. apply (pipe_ends willing b (EXEC [(0, 2)%nat]) (EXEC [(3, 5)%nat]) t [5%nat] 7 7).
  - intros i Hi. exists (Opened [] console O_RDWR). destruct i as [|[|[|i]]]; [reflexivity..|lia].
  - intros f Hf Hp. apply prefix_length in Hp. vm_compute in Hf.
    repeat (apply elem_of_cons in Hf as [[= ->]|Hf]; [simpl in Hp; lia|]).
    repeat (apply elem_of_cons in Hf as [[=]|Hf]). by apply elem_of_nil in Hf.
  - vm_compute. auto.
  - reflexivity.
  - reflexivity.
  - reflexivity.
Defined.
