(* ===== verification/UProgs.v ===== *)
(** * Small user programs ([user/echo.c], [mkdir.c], [rm.c], [ln.c], [kill.c],
      [syscount.c], [init.c])

    [argv] is the list of the arguments, the program's name first. *)

From S2P Require Import Prelude.
From S2P Require Import Machine.
From S2P Require Import Printf.
From S2P Require Import Ulib.
From S2P Require Import USys.
#[local] Open Scope Z_scope.
#[local] Open Scope prog_scope.

(** [atoi] of a string in a memory of its own. *)
Definition atoi_arg (s : list Z) : Z := default 0 (Ulib.atoi (S (length s)) (store_bytes ∅ 0 (s ++ [0])) 0).

(** [for(i = 1; i < argc; i++)] of [echo]. *)
Fixpoint echo_loop (args : list (list Z)) : prog unit :=
  match args with
  | [] => Done tt
  | a :: args' =>
      do* call (SWrite 1 a) in
      do* call (SWrite 1 (match args' with [] => [10] | _ => [32] end)) in
      echo_loop args'
  end.
Definition echo (argv : list (list Z)) : prog unit := do* echo_loop (tail argv) in exit 0.

(** A loop over the arguments that breaks when [a] fails. *)
Fixpoint each_arg (act : list Z → action) (fmt : string) (args : list (list Z)) : prog unit :=
  match args with
  | [] => Done tt
  | a :: args' =>
      let* r := call (SAct (act a)) in
      if r <? 0 then fprintf 2 fmt [Ulib.UStr (Some a)] else each_arg act fmt args'
  end.
Definition mkdir (argv : list (list Z)) : prog unit :=
  if (length argv <? 2)%nat then do* fprintf 2 "Usage: mkdir files...
" [] in exit 1
  else do* each_arg AMkdir "mkdir: %s failed to create
" (tail argv) in exit 0.
Definition rm (argv : list (list Z)) : prog unit :=
  if (length argv <? 2)%nat then do* fprintf 2 "Usage: rm files...
" [] in exit 1
  else do* each_arg AUnlink "rm: %s failed to delete
" (tail argv) in exit 0.

Definition ln (argv : list (list Z)) : prog unit :=
  match argv with
  | [_; old; new] =>
      let* r := call (SAct (ALink old new)) in
      do* (if r <? 0 then fprintf 2 "link %s %s: failed
" [Ulib.UStr (Some old); Ulib.UStr (Some new)] else Done tt) in
      exit 0
  | _ => do* fprintf 2 "Usage: ln old new
" [] in exit 1
  end.

Fixpoint kill_loop (args : list (list Z)) : prog unit :=
  match args with [] => Done tt | a :: args' => do* call (SAct (AKill (atoi_arg a))) in kill_loop args' end.
Definition kill (argv : list (list Z)) : prog unit :=
  if (length argv <? 2)%nat then do* fprintf 2 "usage: kill pid...
" [] in exit 1
  else do* kill_loop (tail argv) in exit 0.

(** [zombie]: the parent sleeps while its child exits. *)
Definition zombie : prog unit :=
  let* pid := call SFork in
  do* (if 0 <? pid then do* call (SAct (ASleep 5)) in Done tt else Done tt) in
  exit 0.

Definition syscount (argv : list (list Z)) : prog unit :=
  match argv with
  | _ :: mask :: cmd :: args =>
      let* pid := call SFork in
      if pid =? 0 then
        do* call (SExec cmd (cmd :: args)) in
        do* fprintf 1 "exec failed
" [] in
        exit 1
      else if pid <? 0 then
        do* fprintf 1 "fork failed
" [] in
        exit 1
      else
        do* call SWait in
        do* call (SAct (AGetSysCount (atoi_arg mask))) in
        exit 0
  | _ => do* fprintf 1 "Usage: syscount <mask> <command> [args...]
" [] in exit 1
  end.

(** ** [init] *)

Definition console_path : list Z := bytes "console".
Definition CONSOLE : Z := 1.
Definition sh_path : list Z := bytes "sh".

(** The inner [for(;;)]: orphans are reaped until the shell exits. The result
    says whether it did, or the fuel ran out. *)
Fixpoint init_reap (fuel : nat) (pid : Z) : prog bool :=
  match fuel with
  | O => Done false
  | S fuel' =>
      let* wpid := call SWait in
      if wpid =? pid then Done true
      else if wpid <? 0 then
        do* fprintf 1 "init: wait returned an error
" [] in
        exit 1
      else init_reap fuel' pid
  end.
Fixpoint init_loop (fuel : nat) : prog unit :=
  match fuel with
  | O => Done tt
  | S fuel' =>
      do* fprintf 1 "init: starting sh
" [] in
      let* pid := call SFork in
      if pid <? 0 then
        do* fprintf 1 "init: fork failed
" [] in
        exit 1
      else if pid =? 0 then
        do* call (SExec sh_path [sh_path]) in
        do* fprintf 1 "init: exec sh failed
" [] in
        exit 1
      else
        let* again := init_reap fuel' pid in
        if again then init_loop fuel' else Done tt
  end.
Definition init_main (fuel : nat) : prog unit :=
  let* fd := call (SOpen console_path O_RDWR) in
  do* (if fd <? 0 then
         do* call (SAct (AMknod console_path CONSOLE 0)) in
         do* call (SOpen console_path O_RDWR) in Done tt
       else Done tt) in
  do* call (SDup 0) in
  do* call (SDup 0) in
  init_loop fuel.

(** ** What they do *)

Section progs.
Context (e : env).

(** [echo] writes its arguments with spaces between and a newline after. *)
Fixpoint echoed (f : file) (args : list (list Z)) (rest : ptree) : ptree :=
  match args with
  | [] => rest
  | a :: args' => Writes f a (Writes f (match args' with [] => [10] | _ => [32] end) (echoed f args' rest))
  end.
Theorem echo_writes argv w f : fd_file (fds w) 1 = Some f → runs e (echo argv) w = echoed f (tail argv) (Exits 0).
Proof.
  intros Hf. unfold runs, echo. rewrite run_bind. induction (tail argv) as [|a args IH]; [done|]. cbn [echo_loop echoed].
  rewrite run_call. cbn [do_call]. rewrite Hf. f_equal. rewrite run_call. cbn [do_call]. rewrite Hf. f_equal. exact IH.
Qed.

(** [mkdir] and [rm] work through the arguments up to the first failure. *)
Fixpoint done_each (act : list Z → action) (args : list (list Z)) (failed : list Z → ptree) (rest : ptree) : ptree :=
  match args with
  | [] => rest
  | a :: args' => if can_do e (act a) then Does (act a) (done_each act args' failed rest) else failed a
  end.
Lemma each_arg_run act fmt args w f next (out : list Z → list Z) : fd_file (fds w) 2 = Some f →
  (∀ a, Ulib.fprintf fmt [Ulib.UStr (Some a)] = Some (out a)) →
  run e (each_arg act fmt args) w next = done_each act args (λ a, says f (out a) (next tt w)) (next tt w).
Proof.
  intros Hf Ho. induction args as [|a args IH]; [done|]. cbn [each_arg done_each]. rewrite run_call. cbn [do_call].
  destruct (can_do e (act a)); [f_equal; exact IH|]. change (-1 <? 0) with true. cbv iota.
  pose proof (run_fprintf e 2 fmt [Ulib.UStr (Some a)] (out a) (Done tt) w f next Hf (Ho a)) as H. cbn [run] in H. rewrite run_bind in H.
  rewrite <- H. apply run_ext. by intros [] w'.
Qed.
Theorem rm_removes argv w f : (2 ≤ length argv)%nat → fd_file (fds w) 2 = Some f →
  runs e (rm argv) w =
    done_each AUnlink (tail argv) (λ a, says f (bytes "rm: " ++ until_nul a ++ bytes " failed to delete
") (Exits 0)) (Exits 0).
Proof.
  intros Hl Hf. unfold runs, rm. destruct (Nat.ltb_spec (length argv) 2); [lia|]. rewrite run_bind.
  by rewrite (each_arg_run _ _ _ _ f _ (λ a, bytes "rm: " ++ until_nul a ++ bytes " failed to delete
")).
Qed.

(** [syscount] asks for the count after the command it ran has ended. *)
Theorem syscount_waits name mask cmd args w pid :
  forks e (at_ w) = Some pid → can_exec e cmd (cmd :: args) = true → can_do e (AGetSysCount (atoi_arg mask)) = true →
  runs e (syscount (name :: mask :: cmd :: args)) w =
    Forks (Becomes cmd (cmd :: args) (fds w)) (Waits (fds w) (Does (AGetSysCount (atoi_arg mask)) (Exits 0))).
Proof.
  intros Hf He Hd. unfold runs, syscount. rewrite run_call. cbn [do_call fds at_]. rewrite Hf. cbn [Z.eqb]. f_equal.
  - rewrite run_call. cbn [do_call fds]. by rewrite He.
  - destruct (Z.ltb_spec (Z.pos pid) 0); [lia|]. rewrite run_call. cbn [do_call fds at_]. rewrite run_call. cbn [do_call]. by rewrite Hd.
Qed.

(** ** [init] starts shells on the console *)

(** Every program that is started is the shell, with [f] as its three files. *)
Fixpoint starts (path : list Z) (t : table) (p : ptree) : Prop :=
  match p with
  | Exits _ | Stops => True
  | Becomes p' _ t' => p' = path ∧ t' = t
  | Forks a b => starts path t a ∧ starts path t b
  | Waits _ r | Writes _ _ r | Does _ r => starts path t r
  end.

Lemma starts_says path t f cs r : starts path t r → starts path t (says f cs r).
Proof. unfold says. by induction cs. Qed.
Lemma starts_print {A} path t fmt args (k : prog A) w next :
  starts path t (run e k w next) → starts path t (run e (do* fprintf 1 fmt args in k) w next).
Proof.
  intros H. unfold fprintf. generalize (default [] (Ulib.fprintf fmt args)) as cs. intros cs. rewrite run_bind.
  induction cs as [|c cs IH]; [done|]. cbn [puts]. rewrite run_call. cbn [do_call]. destruct (fd_file (fds w) 1); exact IH.
Qed.

Lemma init_reap_starts path t fuel pid : ∀ w next,
  (∀ b w', fds w' = fds w → starts path t (next b w')) → starts path t (run e (init_reap fuel pid) w next).
Proof.
  induction fuel as [|fuel IH]; intros w next Hn; [by apply Hn|]. cbn [init_reap]. rewrite run_call. cbn [do_call]. cbn [starts].
  destruct (waits e (at_ w) =? pid); [by apply Hn|]. destruct (waits e (at_ w) <? 0); [by apply starts_print|]. apply IH. intros b w' Hw. by apply Hn.
Qed.
Lemma init_loop_starts fuel : ∀ w next, (∀ w', fds w' = fds w → starts sh_path (fds w) (next tt w')) → starts sh_path (fds w) (run e (init_loop fuel) w next).
Proof.
  induction fuel as [|fuel IH]; intros w next Hn; [by apply Hn|]. cbn [init_loop]. apply starts_print. rewrite run_call. cbn [do_call].
  destruct (forks e (at_ w)) as [pid|]; [|by apply starts_print]. split.
  - change (0 <? 0) with false. cbv iota. cbn [Z.eqb]. rewrite run_call. cbn [do_call fds]. destruct (can_exec _ _ _); [done|by apply starts_print].
  - destruct (Z.ltb_spec (Z.pos pid) 0); [lia|]. cbn [Z.eqb]. rewrite run_bind. apply init_reap_starts. intros [] w' Hw; cbn [fds] in Hw.
    + rewrite <- Hw. apply IH. intros w'' Hw'. rewrite Hw. apply Hn. congruence.
    + by apply Hn.
Qed.

(** However [wait] answers and however often the shell is restarted, [init]
    only ever starts the shell, with the console as its three files. *)
Theorem init_starts_shell fuel : can_open e console_path O_RDWR = true →
  let c := Some (Opened [] console_path O_RDWR) in
  starts sh_path (c :: c :: c :: replicate 13 None) (runs e (init_main fuel) (mk_proc (replicate 16 None) [])).
Proof.
  intros Ho c. unfold runs, init_main. rewrite run_call. cbn [do_call fds at_]. rewrite Ho. unfold fdalloc at 1. cbn -[init_loop].
  apply (init_loop_starts fuel (mk_proc (c :: c :: c :: replicate 13 None) [2%nat])). done.
Qed.
End progs.
