(* ===== verification/Exec.v ===== *)
(** * Running a program ([kernel/exec.c] and [sys_exec] of [sysfile.c])

    [exec] builds a page table, loads the segments of an ELF file into it,
    pushes the argument strings and the array of pointers to them on the new
    stack, and only then replaces the image of the process. The argument
    strings are in kernel pages. [junk] is what the uninitialised array of
    [namei] holds. *)

From S2P Require Import Prelude.
From S2P Require Import Machine.
From S2P Require Import KString.
From S2P Require Import Kalloc.
From S2P Require Import Printf.
From S2P Require Import Vm.
From S2P Require Import Proc.
From S2P Require Import ProcLife.
From S2P Require Import BioSpec.
From S2P Require Import Log.
From S2P Require Import Console.
From S2P Require Import Fs.
From S2P Require Import File.
#[local] Open Scope Z_scope.

(** ** elf.h *)

Definition ELF_MAGIC : Z := 0x464C457F.
Definition ELF_PROG_LOAD : Z := 1.

Record elfhdr := mk_elfhdr { magic : Z; entry : Z; phoff : Z; phnum : Z }.
Definition sizeof_elfhdr : Z := 64.
(** The fields of the header that [exec] uses, from its bytes. *)
Definition get_elfhdr (d : list Z) : elfhdr :=
  let at_off n off := le_value (take n (drop off d)) in
  mk_elfhdr (at_off 4%nat 0%nat) (at_off 8%nat 24%nat) (at_off 8%nat 32%nat) (at_off 2%nat 56%nat).

Record proghdr := mk_proghdr { ph_type : Z; ph_flags : Z; ph_off : Z; ph_vaddr : Z; ph_filesz : Z; ph_memsz : Z }.
Definition sizeof_proghdr : Z := 56.
Definition get_proghdr (d : list Z) : proghdr :=
  let at_off n off := le_value (take n (drop off d)) in
  mk_proghdr (at_off 4%nat 0%nat) (at_off 4%nat 4%nat) (at_off 8%nat 8%nat) (at_off 8%nat 16%nat)
    (at_off 8%nat 32%nat) (at_off 8%nat 40%nat).

Definition flags2perm (flags : Z) : Z :=
  let perm := if negb (Z.land flags 0x1 =? 0) then PTE_X else 0 in
  if negb (Z.land flags 0x2 =? 0) then Z.lor perm PTE_W else perm.

(** What [exec] reads and replaces of [struct proc]. *)
Record image := mk_image { im_pagetable : Z; im_sz : Z; im_trapframe : Z; im_name : list Z }.

(** ** Arguments on the stack *)

Section stack.
Context `{KernelImage}.

(** The C string in a kernel page, with its terminating zero. *)
Definition load_string (a : Z) : M kmem (list Z) := λ k,
  match strlen (Z.to_nat PGSIZE) (mem k) a with
  | Some n => Ret (load_bytes (Z.to_nat (n + 1)) (mem k) a) k
  | None => Panic "undefined: strlen" k
  end.

(** [sp -= sp % 16] *)
Definition align16 (sp : Z) : Z := sp - sp mod 16.

(** [for(argc = 0; argv[argc]; argc++)]: the new [sp] and [ustack], or [None]
    for [goto bad]. *)
Fixpoint push_strings (pagetable stackbase : Z) (argv : list Z) (ustack : list Z) (sp : Z)
    : M kmem (option (Z * list Z)) :=
  match argv with
  | [] => ret (Some (sp, ustack))
  | a :: argv' =>
      if MAXARG <=? Z.of_nat (length ustack) then ret None else
      let! str := load_string a in
      let sp := align16 (u64 (sp - Z.of_nat (length str))) in
      if sp <? stackbase then ret None else
      let! r := copyout pagetable sp str in
      if r <? 0 then ret None else
      push_strings pagetable stackbase argv' (ustack ++ [sp]) sp
  end.

(** The bytes of an array of 64-bit words. *)
Definition words (l : list Z) : list Z := concat (map (le_bytes 8) l).

Definition push_args (pagetable stackbase sp : Z) (argv : list Z) : M kmem (option (Z * Z)) :=
  let! r := push_strings pagetable stackbase argv [] sp in
  match r with
  | None => ret None
  | Some (sp, ustack) =>
      let argc := Z.of_nat (length ustack) in
      let sp := align16 (u64 (sp - (argc + 1) * 8)) in
      if sp <? stackbase then ret None else
      let! r := copyout pagetable sp (words (ustack ++ [0])) in
      if r <? 0 then ret None else ret (Some (argc, sp))
  end.
End stack.

(** ** exec *)

Section exec.
Context {S D : Type} `{!BufOps S} `{!UartDev D} `{!KernelImage}.
Variable junk : list Z.

(** [for(i = 0; i < sz; i += PGSIZE)] of [loadseg]; [i] is unsigned. *)
Fixpoint loadseg_loop (fuel : nat) (pagetable va : Z) (ip : nat) (offset sz i : Z) : M (kfs S D) Z :=
  match fuel with
  | O => λ s, NoFuel s
  | Datatypes.S fuel' =>
      if sz <=? i then ret 0 else
      let! pa := with_pages (walkaddr pagetable (u64 (va + i))) in
      if pa =? 0 then panic "loadseg: address should exist" else
      let n := if sz - i <? PGSIZE then sz - i else PGSIZE in
      let! r := with_fs (readi ip kernel_dst (u32 (offset + i)) n) in
      do! with_pages (set_mem (λ m, store_bytes m pa r.2)) in
      if negb (r.1 =? n) then ret (-1) else
      loadseg_loop fuel' pagetable va ip offset sz (u32 (i + PGSIZE))
  end.
Definition loadseg (pagetable va : Z) (ip : nat) (offset sz : Z) : M (kfs S D) Z :=
  loadseg_loop (Z.to_nat (sz / PGSIZE + 2)) pagetable va ip offset sz 0.

(** One program header: [inl] is [goto bad] with the size so far. *)
Definition load_segment (pagetable : Z) (ip : nat) (off sz : Z) : M (kfs S D) (Z + Z) :=
  let! r := with_fs (readi ip kernel_dst (u32 off) sizeof_proghdr) in
  if negb (r.1 =? sizeof_proghdr) then ret (inl sz) else
  let ph := get_proghdr r.2 in
  if negb (ph_type ph =? ELF_PROG_LOAD) then ret (inr sz) else
  if ph_memsz ph <? ph_filesz ph then ret (inl sz) else
  if u64 (ph_vaddr ph + ph_memsz ph) <? ph_vaddr ph then ret (inl sz) else
  if negb (ph_vaddr ph mod PGSIZE =? 0) then ret (inl sz) else
  let! sz1 := with_pages (uvmalloc pagetable sz (u64 (ph_vaddr ph + ph_memsz ph)) (flags2perm (ph_flags ph))) in
  if sz1 =? 0 then ret (inl sz) else
  let! r := loadseg pagetable (ph_vaddr ph) ip (u32 (ph_off ph)) (u32 (ph_filesz ph)) in
  if r <? 0 then ret (inl sz1) else ret (inr sz1).

(** [for(i=0, off=elf.phoff; i<elf.phnum; i++, off+=sizeof(ph))]; [off] is an
    [int]. *)
Fixpoint load_segments (n : nat) (pagetable : Z) (ip : nat) (off sz : Z) : M (kfs S D) (Z + Z) :=
  match n with
  | O => ret (inr sz)
  | Datatypes.S n' =>
      let! r := load_segment pagetable ip off sz in
      match r with
      | inl sz => ret (inl sz)
      | inr sz => load_segments n' pagetable ip (s32 (off + sizeof_proghdr)) sz
      end
  end.

(** [bad:] *)
Definition exec_bad (pagetable sz : Z) (ip : option nat) : M (kfs S D) Z :=
  do! (if pagetable =? 0 then ret tt else with_pages (proc_freepagetable pagetable sz)) in
  match ip with
  | None => ret (-1)
  | Some ip => do! with_fs (iunlockput ip) in do! fend_op in ret (-1)
  end.

(** [for(last=s=path; *s; s++) if( *s == '/') last = s+1;] *)
Fixpoint last_elem (path last : list Z) : list Z :=
  match path with
  | [] => last
  | c :: path' => last_elem path' (if c =? 47 then path' else last)
  end.

Definition store_word (a v : Z) : M (kfs S D) unit := with_pages (set_mem (λ m, store64 m a v)).

(** From the end of the loading: the stack, the arguments and the commit. *)
Definition exec_commit (p : image) (path : list Z) (argv : list Z) (elf : elfhdr) (pagetable sz : Z)
    : M (kfs S D) (Z * image) :=
  let oldsz := im_sz p in
  let sz := PGROUNDUP sz in
  let! sz1 := with_pages (uvmalloc pagetable sz (u64 (sz + 2 * PGSIZE)) PTE_W) in
  if sz1 =? 0 then let! r := exec_bad pagetable sz None in ret (r, p) else
  let sz := sz1 in
  do! with_pages (uvmclear pagetable (u64 (sz - 2 * PGSIZE))) in
  let! r := with_pages (push_args pagetable (u64 (sz - PGSIZE)) sz argv) in
  match r with
  | None => let! r := exec_bad pagetable sz None in ret (r, p)
  | Some (argc, sp) =>
      do! store_word (im_trapframe p + tf_a1) sp in
      let name := safestrcpy_array (im_name p) (last_elem path path ++ [0]) 16 in
      let oldpagetable := im_pagetable p in
      do! store_word (im_trapframe p + tf_epc) (entry elf) in
      do! store_word (im_trapframe p + tf_sp) sp in
      do! with_pages (proc_freepagetable oldpagetable oldsz) in
      ret (argc, mk_image pagetable sz (im_trapframe p) name)
  end.

(** The result and the image of the process. *)
Definition exec (p : image) (path : list Z) (argv : list Z) : M (kfs S D) (Z * image) :=
  do! fbegin_op in
  let! ip := with_fs (namei path junk) in
  match ip with
  | None => do! fend_op in ret (-1, p)
  | Some ip =>
      do! with_fs (ilock (Some ip)) in
      let! r := with_fs (readi ip kernel_dst 0 sizeof_elfhdr) in
      if negb (r.1 =? sizeof_elfhdr) then let! r := exec_bad 0 0 (Some ip) in ret (r, p) else
      let elf := get_elfhdr r.2 in
      if negb (magic elf =? ELF_MAGIC) then let! r := exec_bad 0 0 (Some ip) in ret (r, p) else
      let! pagetable := with_pages (proc_pagetable (im_trapframe p)) in
      if pagetable =? 0 then let! r := exec_bad 0 0 (Some ip) in ret (r, p) else
      let! r := load_segments (Z.to_nat (phnum elf)) pagetable ip (s32 (phoff elf)) 0 in
      match r with
      | inl sz => let! r := exec_bad pagetable sz (Some ip) in ret (r, p)
      | inr sz =>
          do! with_fs (iunlockput ip) in
          do! fend_op in
          exec_commit p path argv elf pagetable sz
      end
  end.

(** ** sys_exec *)

(** [fetchaddr] and [fetchstr] for the process with image [p]. *)
Definition exec_fetchaddr (p : image) (addr : Z) : M (kfs S D) (option Z) :=
  if (im_sz p <=? addr) || (im_sz p <? u64 (addr + 8)) then ret None else
  let! r := with_pages (copyin (im_pagetable p) addr 8) in
  if negb (r.1 =? 0) then ret None else ret (Some (le_value r.2)).
Definition exec_fetchstr (p : image) (addr page : Z) : M (kfs S D) Z :=
  let! r := with_pages (copyinstr (im_pagetable p) addr PGSIZE) in
  do! with_pages (set_mem (λ m, store_bytes m page r.2)) in
  ret r.1.

(** [for(i=0;; i++)]: the pages with the arguments, and whether to go on. *)
Fixpoint fetch_args (fuel : nat) (p : image) (uargv : Z) (argv : list Z) : M (kfs S D) (bool * list Z) :=
  match fuel with
  | O => λ s, NoFuel s
  | Datatypes.S fuel' =>
      let i := Z.of_nat (length argv) in
      if MAXARG <=? i then ret (false, argv) else
      let! uarg := exec_fetchaddr p (u64 (uargv + 8 * i)) in
      match uarg with
      | None => ret (false, argv)
      | Some uarg =>
          if uarg =? 0 then ret (true, argv) else
          let! page := with_pages kalloc in
          if page =? 0 then ret (false, argv) else
          let! r := exec_fetchstr p uarg page in
          if r <? 0 then ret (false, argv ++ [page]) else
          fetch_args fuel' p uargv (argv ++ [page])
      end
  end.

Definition sys_exec (p : image) (path : option (list Z)) (uargv : Z) : M (kfs S D) (Z * image) :=
  match path with
  | None => ret (-1, p)
  | Some path =>
      let! a := fetch_args (Z.to_nat MAXARG + 1) p uargv [] in
      if a.1 then
        let! r := exec p path a.2 in
        do! for_each a.2 (λ page, with_pages (kfree page)) in
        ret r
      else
        do! for_each a.2 (λ page, with_pages (kfree page)) in
        ret (-1, p)
  end.
End exec.
