(* ===== verification/ExecThms.v ===== *)
(** * The argument stack of a new program

    [exec] lays the argument strings out from the top of the stack and the
    array of pointers below them; the program finds in its memory the strings
    it was given. *)

From stdpp Require Import gmap.
From S2P Require Import Prelude.
From S2P Require Import Machine.
From S2P Require Import KString.
From S2P Require Import Kalloc.
From S2P Require Import Vm.
From S2P Require Import VmTree.
From S2P Require Import VmSpec.
From S2P Require Import VmUser.
From S2P Require Import VmCopy.
From S2P Require Import VmThms.
From S2P Require Import Exec.
#[local] Open Scope Z_scope.

(** Where the strings [ss] go below [sp]: their addresses and the last one. *)
Fixpoint stack_layout (sp : Z) (ss : list (list Z)) : list Z * Z :=
  match ss with
  | [] => ([], sp)
  | s :: ss' =>
      let sp' := align16 (sp - (Z.of_nat (length s) + 1)) in
      let r := stack_layout sp' ss' in (sp' :: r.1, r.2)
  end.
(** Where the array of pointers goes. *)
Definition array_at (sp : Z) (ss : list (list Z)) : Z :=
  align16 ((stack_layout sp ss).2 - (Z.of_nat (length ss) + 1) * 8).

(** A C string in memory. *)
Definition cstring_in (m : memory) (a : Z) (s : list Z) : Prop :=
  Forall (λ c, 0 < c < 256) s ∧ (length s < 4096)%nat ∧ load_bytes (S (length s)) m a = s ++ [0].

Lemma align16_bounds x : x - 16 < align16 x ≤ x ∧ align16 x mod 16 = 0.
Proof. unfold align16. dlia. Qed.

Lemma layout_below sp ss : (stack_layout sp ss).2 ≤ sp.
Proof.
  revert sp. induction ss as [|s ss IH]; intros sp; simpl; [lia|].
  specialize (IH (align16 (sp - (Z.of_nat (length s) + 1)))). pose proof (align16_bounds (sp - (Z.of_nat (length s) + 1))). lia.
Qed.
(** Each string lies between the last address and the first. *)
Lemma layout_range sp ss i p s :
  (stack_layout sp ss).1 !! i = Some p → ss !! i = Some s → (stack_layout sp ss).2 ≤ p ∧ p + Z.of_nat (length s) + 1 ≤ sp.
Proof.
  revert sp i. induction ss as [|x ss IH]; intros sp i Hp Hs; [done|]. simpl in *.
  pose proof (align16_bounds (sp - (Z.of_nat (length x) + 1))) as [Hal _].
  set (sp' := align16 _) in *. destruct i as [|i].
  - pose proof (layout_below sp' ss). injection Hp as <-. injection Hs as <-. lia.
  - destruct (IH sp' i Hp Hs). lia.
Qed.
Lemma length_layout sp ss : length (stack_layout sp ss).1 = length ss.
Proof. revert sp. induction ss as [|s ss IH]; intros sp; simpl; [done|]. by rewrite IH. Qed.

(** [strlen] and the bytes of a string. *)
Lemma strlen_cstring fuel m a s :
  Forall (λ c, 0 < c < 256) s → load_bytes (S (length s)) m a = s ++ [0] → (length s < fuel)%nat →
  strlen fuel m a = Some (Z.of_nat (length s)).
Proof.
  revert fuel a. induction s as [|c s IH]; intros fuel a Hs Hl Hf; (destruct fuel as [|fuel]; [lia|]);
    simpl in Hl; cbn [strlen].
  - injection Hl as ->. done.
  - injection Hl as -> E2. apply Forall_cons in Hs as [Hc Hs]. rewrite (proj2 (Z.eqb_neq c 0)) by lia.
    rewrite (IH fuel (a + 1) Hs); [|simpl; by f_equal|simpl in Hf; lia].
    cbn [option_map length]. f_equal. lia.
Qed.

Lemma load_string_spec k a s : cstring_in (mem k) a s → load_string a k = Ret (s ++ [0]) k.
Proof.
  intros (Hs & Hlen & Hl). unfold load_string. rewrite (strlen_cstring _ _ _ s Hs Hl) by (vm_compute (Z.to_nat PGSIZE); lia).
  replace (Z.to_nat (Z.of_nat (length s) + 1)) with (S (length s)) by lia. by rewrite Hl.
Qed.

Section push.
Context `{KernelImage}.

(** The stack page and the argument pages of an address space being built. *)
Record stack_ok (k : kmem) (l : list Z) (root : Z) (ds : list Z) (base : Z) : Prop := {
  so_space : uspace k l root ds;
  so_base : 4096 ≤ base ∧ base + 4096 = Z.of_nat (length ds) * 4096;
  so_acc : ∀ a, base ≤ a < base + 4096 → uacc k root a
}.

(** The bytes of a kernel string are in no page of the process. *)
Definition kernel_string (k : kmem) (ds : list Z) (a : Z) (s : list Z) : Prop :=
  cstring_in (mem k) a s ∧ ∀ d x, d ∈ ds → in_page d x → ¬ in_range a (Z.of_nat (length s) + 1) x.

(** Copying bytes to the stack. *)
Lemma stack_copyout k l root ds base va bs :
  stack_ok k l root ds base → base ≤ va → va + Z.of_nat (length bs) ≤ base + 4096 → Forall (λ c, 0 ≤ c < 256) bs →
  ∃ k', copyout root va bs k = Ret 0 k' ∧ stack_ok k' l root ds base
    ∧ (∀ a, 0 ≤ a < base + 4096 → ¬ (va ≤ a < va + Z.of_nat (length bs)) → ubyte k' ds a = ubyte k ds a)
    ∧ (∀ i c, bs !! i = Some c → ubyte k' ds (va + Z.of_nat i) = c)
    ∧ (∀ a s, kernel_string k ds a s → kernel_string k' ds a s).
Proof.
  intros [Hu [Hb1 Hb2] Hacc] Hva Hmax Hbs.
  destruct (copyout_loop_spec (S (length bs)) k l root ds va bs Hu) as (k' & E & Hu' & L & B & F);
    [lia|lia|intros a Ha; apply Hacc; lia|lia|].
  exists k'. split; [exact E|]. split.
  { split; [done|done|]. intros a Ha. unfold uacc. rewrite L. by apply Hacc. }
  split; [intros a Ha Hn; rewrite B by lia; by rewrite decide_False|]. split.
  - intros i c Hi. pose proof (lookup_lt_Some _ _ _ Hi). rewrite B by lia. rewrite decide_True by lia.
    replace (Z.to_nat (va + Z.of_nat i - va)) with i by lia. rewrite Hi. simpl. apply u8_small.
    eapply Forall_lookup_1 in Hbs; [|done]. lia.
  - intros a s [(Hs & Hlen & Hl) Hout]. split; [|done]. split; [done|]. split; [done|]. rewrite <- Hl.
    apply load_bytes_agree. intros x Hx. apply F. intros d Hd Hin. apply (Hout d x Hd Hin). unfold in_range in *. lia.
Qed.

(** User memory has the bytes [bs] at [va]. *)
Definition user_bytes (k : kmem) (ds : list Z) (va : Z) (bs : list Z) : Prop :=
  ∀ i c, bs !! i = Some c → ubyte k ds (va + Z.of_nat i) = c.

(** Strings [ss] at the addresses [ps]. *)
Definition user_strings (k : kmem) (ds : list Z) (ps : list Z) (ss : list (list Z)) : Prop :=
  ∀ i p s, ps !! i = Some p → ss !! i = Some s → user_bytes k ds p (s ++ [0]).

Lemma string_step base sp s :
  4096 ≤ base ≤ sp → (length s < 4096)%nat → sp ≤ base + 4096 → base + 4096 ≤ TRAPFRAME →
  u64 (sp - Z.of_nat (length (s ++ [0]))) = sp - (Z.of_nat (length s) + 1).
Proof.
  intros Hb Hs Hsp Hmax. change TRAPFRAME with 274877898752 in Hmax.
  rewrite u64_small; rewrite length_app; simpl; lia.
Qed.

Lemma push_strings_spec l root ds base argv ss :
  ∀ k ustack sp, Forall2 (kernel_string k ds) argv ss → stack_ok k l root ds base → base ≤ sp ≤ base + 4096 →
  (length ustack + length ss < 32)%nat →
  let r := stack_layout sp ss in
  if decide (base ≤ r.2) then
    ∃ k', push_strings root base argv ustack sp k = Ret (Some (r.2, ustack ++ r.1)) k'
      ∧ stack_ok k' l root ds base ∧ user_strings k' ds r.1 ss
      ∧ (∀ a, 0 ≤ a < base + 4096 → a < r.2 ∨ sp ≤ a → ubyte k' ds a = ubyte k ds a)
  else ∃ k', push_strings root base argv ustack sp k = Ret None k'.
Proof.
  revert argv. induction ss as [|s ss IH]; intros argv k ustack sp Hks Hok Hsp Hlen.
  - apply Forall2_nil_inv_r in Hks as ->. cbv zeta. simpl. rewrite decide_True by lia.
    exists k. split; [by rewrite app_nil_r|]. split; [done|]. split; [by intros i p s|done].
  - apply Forall2_cons_inv_r in Hks as (a & argv' & Ha & Hks & ->). cbn [push_strings].
    destruct (so_base _ _ _ _ _ Hok) as [Hb1 Hb2]. pose proof (us_max _ _ _ _ (so_space _ _ _ _ _ Hok)) as Hmax.
    pose proof Ha as [(Hs & Hsl & _) _]. cbn [length] in Hlen.
    destruct (Z.leb_spec MAXARG (Z.of_nat (length ustack))) as [Hc|_]; [unfold MAXARG in Hc; lia|].
    rewrite (bind_eq _ _ _ _ _ (load_string_spec k a s (proj1 Ha))).
    rewrite (string_step base) by lia. set (sp' := align16 (sp - (Z.of_nat (length s) + 1))).
    pose proof (align16_bounds (sp - (Z.of_nat (length s) + 1))) as [Hal _]. fold sp' in Hal.
    pose proof (layout_below sp' ss) as Hbelow. cbv zeta. cbn [stack_layout]. fold sp'. cbn [fst snd].
    destruct (Z.ltb_spec sp' base) as [Hlt|Hge]; [rewrite decide_False by lia; by exists k|].
    destruct (stack_copyout k l root ds base sp' (s ++ [0]) Hok) as (k1 & E & Hok1 & F1 & B1 & Hk1);
      [lia|rewrite length_app; simpl; lia| |].
    { apply Forall_app. split; [|by repeat constructor]. eapply Forall_impl; [exact Hs|]. simpl. lia. }
    rewrite (bind_eq _ _ _ _ _ E). cbn [Z.ltb Z.compare].
    assert (Forall2 (kernel_string k1 ds) argv' ss) as Hks1 by (eapply Forall2_impl; [exact Hks|]; auto).
    specialize (IH argv' k1 (ustack ++ [sp']) sp' Hks1 Hok1 ltac:(lia) ltac:(rewrite length_app; simpl; lia)).
    cbv zeta in IH. case_decide as Hd; [|exact IH]. destruct IH as (k2 & E2 & Hok2 & S2 & F2).
    rewrite length_app in F1. cbn [length] in F1.
    exists k2. split; [by rewrite <- app_assoc in E2|]. split; [done|]. split.
    + intros [|i] p s0; simpl; [|apply S2]. intros [= <-] [= <-] j c Hj. pose proof (lookup_lt_Some _ _ _ Hj) as Hjl.
      rewrite length_app in Hjl. simpl in Hjl. rewrite F2 by lia. by apply B1.
    + intros x Hx Hor. rewrite F2 by lia. apply F1; [lia|lia].
Qed.

Lemma length_words l : length (words l) = (8 * length l)%nat.
Proof.
  unfold words. induction l as [|x l IH]; [done|]. cbn [map concat]. rewrite length_app, IH, length_le_bytes. simpl. lia.
Qed.
Lemma words_bytes l : Forall (λ c, 0 ≤ c < 256) (words l).
Proof.
  unfold words. induction l as [|x l IH]; [constructor|]. cbn [map concat]. apply Forall_app. split; [|done].
  generalize 8%nat. intros n. revert x. induction n as [|n IHn]; intros x; [constructor|]. simpl. constructor; [apply u8_range|apply IHn].
Qed.

(** C26: The arguments of a new program. [exec] pushes the argument strings,
    of which there are fewer than [MAXARG] = 32, as [sys_exec] ensures,
    and the array of their addresses, ended by a null pointer, if and only if
    they fit in the stack page; then [argc] is their number, the stack pointer
    is a multiple of 16 and the address of the array, the program reads at each
    address of the array the string that was passed, and nothing below the
    stack pointer has changed. Otherwise [exec] gives up. *)
Theorem exec_arguments k l root ds base argv ss :
  stack_ok k l root ds base → Forall2 (kernel_string k ds) argv ss → (length ss < 32)%nat →
  let top := base + 4096 in
  let ps := (stack_layout top ss).1 in
  let sp := array_at top ss in
  if decide (base ≤ sp) then
    ∃ k', push_args root base top argv k = Ret (Some (Z.of_nat (length ss), sp)) k'
      ∧ sp mod 16 = 0 ∧ uspace k' l root ds
      ∧ user_strings k' ds ps ss ∧ user_bytes k' ds sp (words (ps ++ [0]))
      ∧ (∀ a, 0 ≤ a < sp → ubyte k' ds a = ubyte k ds a)
  else ∃ k', push_args root base top argv k = Ret None k'.
Proof.
  intros Hok Hks Hlen. cbv zeta. destruct (so_base _ _ _ _ _ Hok) as [Hb1 Hb2].
  pose proof (us_max _ _ _ _ (so_space _ _ _ _ _ Hok)) as Hmax. change TRAPFRAME with 274877898752 in Hmax.
  set (e := (stack_layout (base + 4096) ss).2). unfold array_at. fold e.
  pose proof (align16_bounds (e - (Z.of_nat (length ss) + 1) * 8)) as [Hal Hal0].
  pose proof (layout_below (base + 4096) ss) as He. fold e in He.
  pose proof (push_strings_spec l root ds base argv ss k [] (base + 4096) Hks Hok ltac:(lia) Hlen) as Hp.
  cbv zeta in Hp. fold e in Hp. unfold push_args. destruct (decide (base ≤ e)) as [Hd|Hd].
  2: { rewrite decide_False by lia. destruct Hp as (k' & E). rewrite (bind_eq _ _ _ _ _ E). by exists k'. }
  destruct Hp as (k1 & E1 & Hok1 & S1 & F1). rewrite (bind_eq _ _ _ _ _ E1). cbn [app].
  rewrite length_layout, u64_small by lia. set (sp := align16 (e - (Z.of_nat (length ss) + 1) * 8)) in *.
  destruct (Z.ltb_spec sp base) as [Hlt|Hge]; [rewrite decide_False by lia; by exists k1|]. rewrite decide_True by lia.
  set (w := words _). assert (Z.of_nat (length w) = (Z.of_nat (length ss) + 1) * 8) as Hw.
  { unfold w. rewrite length_words, length_app, length_layout. simpl. lia. }
  destruct (stack_copyout k1 l root ds base sp w Hok1) as (k2 & E2 & Hok2 & F2 & B2 & _); [lia|lia|apply words_bytes|].
  rewrite (bind_eq _ _ _ _ _ E2). exists k2. split; [done|]. split; [done|]. split; [apply Hok2|]. split; [|split; [done|]].
  - intros i p s Hi Hs j c Hj. rewrite <- (S1 i p s Hi Hs j c Hj).
    destruct (layout_range _ _ _ _ _ Hi Hs) as [Hp1 Hp2]. fold e in Hp1.
    apply lookup_lt_Some in Hj. rewrite length_app in Hj. simpl in Hj. apply F2; lia.
  - intros a Ha. rewrite F2 by lia. apply F1; lia.
Qed.
End push.

(** A process with two pages, and the argument ["hi"] in the kernel. *)
#[local] Existing Instance vm_image.
Definition hi_kmem : kmem := mk_kmem (store_bytes ∅ 100 [104; 105]) 0.
Lemma hi_bytes : bytes_ok (mem hi_kmem).
Proof. apply bytes_ok_store_bytes. apply demo_bytes. Qed.
Lemma hi_vm_ok : two_pages (boot_space2 hi_kmem) = true.
Proof. vm_compute. reflexivity. Qed.
Definition hi_there (o : outcome kmem (Z * Z)) : Prop :=
  match o with Ret _ k => load_bytes 3 (mem k) 100 = [104; 105; 0] | _ => False end.
Lemma hi_kept : hi_there (boot_space2 hi_kmem).
Proof. vm_compute. reflexivity. Qed.

Lemma exec_arguments_witness :
  ∃ k l root ds k', stack_ok k l root ds 4096 ∧ push_args root 4096 8192 [100] k = Ret (Some (1, 8160)) k' ∧
    user_bytes k' ds 8176 [104; 105; 0] ∧ user_bytes k' ds 8160 (le_bytes 8 8176 ++ le_bytes 8 0).
Proof.
  destruct (boot_space2_spec hi_kmem _ hi_bytes eq_refl demo_page hi_vm_ok) as [(k & l & root & ds & Hu & Hlen & _ & Hacc & E) _].
  pose proof hi_kept as Hk. rewrite E in Hk. simpl in Hk.
  assert (stack_ok k l root ds 4096) as Hok.
  { split; [exact Hu|rewrite Hlen; lia|]. intros a Ha. apply Hacc. unfold PGSIZE. lia. }
  assert (kernel_string k ds 100 [104; 105]) as Hs.
  { split; [split; [repeat constructor|split; [simpl; lia|exact Hk]]|].
    intros d x Hd Hx Hr. apply list_elem_of_lookup in Hd as [i Hi].
    destruct (maps_facts _ _ (us_maps _ _ _ _ Hu i d Hi)) as ((_ & Hpg) & _).
    unfold in_page, in_range in *. change kend with 2281672704 in Hpg. simpl in Hr. lia. }
  pose proof (exec_arguments k l root ds 4096 [100] [[104; 105]] Hok ltac:(constructor; [exact Hs|constructor]) ltac:(simpl; lia)) as H.
  cbv zeta in H. change (array_at (4096 + 4096) [[104; 105]]) with 8160 in H. rewrite decide_True in H by lia.
  destruct H as (k' & E' & _ & _ & Hus & Hub & _).
  exists k, l, root, ds, k'. split; [exact Hok|]. split; [exact E'|]. split.
  - apply (Hus 0%nat 8176 [104; 105]); reflexivity.
  - exact Hub.
Defined.
