(* ===== verification/FsRun.v ===== *)
(** * Runs on a small disk

    A session of file system calls; and [exec]: a program file is written
    through the calls and executed, the new address space has the file's bytes
    and the arguments. *)

From stdpp Require Import gmap.
From S2P Require Import Prelude.
From S2P Require Import Machine.
From S2P Require Import Printf.
From S2P Require Import Kalloc.
From S2P Require Import Vm.
From S2P Require Import Proc.
From S2P Require Import Pipe.
From S2P Require Import Bio.
From S2P Require Import BioSpec.
From S2P Require Import Log.
From S2P Require Import LogSpec.
From S2P Require Import LogThms.
From S2P Require Import Console.
From S2P Require Import Fs.
From S2P Require Import FsInode.
From S2P Require Import FsSpec.
From S2P Require Import FsThms.
From S2P Require Import FsFile.
From S2P Require Import FsRw.
From S2P Require Import FsRwThms.
From S2P Require Import File.
From S2P Require Import SysFile.
From S2P Require Import Exec.
#[local] Open Scope Z_scope.

(** ** A session on a small disk *)

(** A root directory without entries. *)
Definition root_disk : gmap Z (list Z) :=
  <[32 := put_dinode zero_block 64 (mk_dinode T_DIR 0 0 1 0 (replicate 13 0))]> demo_disk.
#[local] Instance boot_uart : UartDev unit := {| read_reg := λ _ d, (LSR_TX_IDLE, d); write_reg := λ _ _ d, d |}.
#[local] Instance boot_image : KernelImage.
Proof. refine {| kend := KERNBASE; etext := KERNBASE; trampoline := KERNBASE |}; vm_compute; discriminate. Defined.
Definition boot_con : con unit := mk_con unit (replicate 128 0) 0 0 0 (replicate 32 0) 0 0 false true tt [] [].
Definition boot_kfs (b : bst) : kfs bst unit :=
  mk_kfs bst unit
    (mk_fsst bst (mk_log_st bst 2 30 0 false 1 (mk_logheader 0 (replicate 30 0)) 0 b) demo_sb
       (replicate (Z.to_nat NINODE) zero_inode) 1 0 [] [])
    (replicate (Z.to_nat NFILE) zero_file) ∅ (mk_kmem ∅ 0) boot_con (replicate (Z.to_nat NOFILE) None) [].
Definition all_mem (src : list Z) : user := mk_user (λ i, src !! Z.to_nat i) (λ _, true) (λ _, false).

Definition session : M (kfs bst unit) (list Z) :=
  let! d := sys_mkdir (replicate 14 9) (Some (bytes "/d")) in
  let! f := sys_open (replicate 14 9) (Some (bytes "/d/file")) (Z.lor O_CREATE O_RDWR) in
  let! w := sys_write f 3 0 (all_mem [7; 8; 9]) in
  let! c := sys_close f in
  let! l := sys_link (replicate 14 9) (Some (bytes "/d/file")) (Some (bytes "/g")) in
  let! u := sys_unlink (replicate 14 9) (Some (bytes "/d/file")) in
  let! g := sys_open (replicate 14 9) (Some (bytes "/d/file")) O_RDONLY in
  let! f := sys_open (replicate 14 9) (Some (bytes "//g")) O_RDONLY in
  let! r := sys_read f 10 10 (all_mem []) in
  ret ([d; f; c; l; u; g] ++ match r with CDone n bs => n :: bs | CAsleep _ _ => [] end).

Example session_runs :
  match binit (boot_bst 1 root_disk) with
  | Ret _ b => match session (boot_kfs b) with
               | Ret r _ => r = [0; 0; 0; 0; 0; -1; 3; 7; 8; 9]
               | _ => False
               end
  | _ => False
  end.
Proof. vm_compute. reflexivity. Qed.

(** ** [exec] *)

(** RAM of 24 pages. *)
#[local] Instance exec_image : KernelImage.
Proof.
  refine {| kend := PHYSTOP - 24 * PGSIZE; etext := 0x80008000; trampoline := 0x80007000 |}; vm_compute; discriminate.
Defined.

(** One segment of four bytes at address 0, entered at 2. *)
Definition elf_file (magic : Z) : list Z :=
  le_bytes 4 magic ++ replicate 20 0 ++ le_bytes 8 2 ++ le_bytes 8 64 ++ replicate 16 0 ++ le_bytes 2 1 ++ replicate 6 0 ++
  le_bytes 4 1 ++ le_bytes 4 5 ++ le_bytes 8 120 ++ le_bytes 8 0 ++ le_bytes 8 0 ++ le_bytes 8 4 ++ le_bytes 8 4096 ++ le_bytes 8 4096 ++
  [11; 22; 33; 44].

Definition run_program (magic : Z) : M (kfs bst unit) (Z * image * list Z * list Z * Z) :=
  do! with_pages kinit in
  let! f := sys_open (replicate 14 9) (Some (bytes "/p")) (Z.lor O_CREATE O_RDWR) in
  do! sys_write f 124 0 (all_mem (elf_file magic)) in
  let! tf := with_pages kalloc in
  let! old := with_pages (proc_pagetable tf) in
  let! arg := with_pages kalloc in
  do! with_pages (set_mem (λ m, store_bytes m arg [104; 105; 0])) in
  let! r := exec (replicate 14 9) (mk_image old 0 tf (replicate 16 0)) (bytes "/p") [arg] in
  let! code := with_pages (copyin (im_pagetable r.2) 0 5) in
  let! str := with_pages (copyin (im_pagetable r.2) 12272 3) in
  let! epc := with_pages (gets (λ k, load64 (mem k) (tf + tf_epc))) in
  ret (r.1, r.2, code.2, str.2, epc).

Definition runs (magic : Z) (P : Z * image * list Z * list Z * Z → Prop) : Prop :=
  match binit (boot_bst 1 root_disk) with
  | Ret _ b => match run_program magic (boot_kfs b) with Ret r _ => P r | _ => False end
  | _ => False
  end.

Example exec_runs : runs ELF_MAGIC (λ '(argc, im, code, str, epc),
  argc = 1 ∧ im_sz im = 12288 ∧ take 2 (im_name im) = [112; 0] ∧ code = [11; 22; 33; 44; 0] ∧ str = [104; 105; 0] ∧ epc = 2).
Proof. vm_compute. done. Qed.

(** A file that is no program leaves the process as it was. *)
Example exec_refuses : runs 0 (λ '(argc, im, _, _, epc), argc = -1 ∧ im_sz im = 0 ∧ epc ≠ 2).
Proof. vm_compute. done. Qed.
