(* ===== verification/Calls.v ===== *)
(** * File system calls from the registers of a process ([kernel/sysfile.c])

    The handlers that [syscall] dispatches to: they fetch their arguments from
    the trapframe and from the memory of the process, run the call of File.v,
    SysFile.v or Exec.v, and copy its results to the memory of the process. The
    process layer sees the file system through the classes [FsOps] and
    [FileCalls]; both are implemented here.

    A pointer into [ftable.file] or [itable.inode] is the index plus one, the
    null pointer 0. A call that has to wait ends in [Sleeps]. Nothing that a
    call on files stores is in the memory of the process, so copying the bytes
    at the end leaves the same memory as copying them one by one. No process
    runs between a call of [wakeup] and the end or the sleep of the call on
    files that makes it, so the calls of [wakeup] on the log, on the locks of
    inodes and buffers, on pipes and on the console reach the process table
    there. *)

From stdpp Require Import gmap.
From S2P Require Import Prelude.
From S2P Require Import Machine.
From S2P Require Import Kalloc.
From S2P Require Import Vm.
From S2P Require Import Proc.
From S2P Require Import Syscall.
From S2P Require Import Pipe.
From S2P Require Import BioSpec.
From S2P Require Import Log.
From S2P Require Import Console.
From S2P Require Import Fs.
From S2P Require Import File.
From S2P Require Import SysFile.
From S2P Require Import Exec.
#[local] Open Scope Z_scope.

(** ** The files as the process layer has them *)

Record files {S D : Type} := mk_files {
  f_sys : fsst S;
  f_table : list file;
  f_pipes : gmap Z Pipe.pipe;
  f_con : con D
}.
Arguments files : clear implicits.

Definition ptr (x : option nat) : Z := match x with None => 0 | Some i => Z.of_nat i + 1 end.
Definition idx (p : Z) : option nat := if p <=? 0 then None else Some (Z.to_nat (p - 1)).

Lemma idx_ptr x : idx (ptr x) = x.
Proof. destruct x as [i|]; [|done]. unfold idx, ptr. rewrite (proj2 (Z.leb_gt _ _)) by lia. f_equal. lia. Qed.

(** The addresses [wakeup] is called on: [cons.r], [uart_tx_r], [log] and the
    sleep locks in [itable.inode[i]] and [bcache.buf[b]]. *)
Class KernelData := {
  cons_r_addr : Z;
  uart_tx_r_addr : Z;
  log_addr : Z;
  inode_lock_addr : nat → Z;
  buf_lock_addr : nat → Z
}.

(** ** The memory of the process as the other side of a transfer *)

Section user.
Context `{!KernelImage}.

(** The byte that [copyin] reads at [a], and whether [copyout] can write it. *)
Definition user_byte (pt : Z) (k : kmem) (a : Z) : option Z :=
  match copyin pt a 1 k with Ret (0, b :: _) _ => Some b | _ => None end.
Definition user_can_write (pt : Z) (k : kmem) (a : Z) : bool :=
  match copyout pt a [0] k with Ret 0 _ => true | _ => false end.
Definition user_at (pt addr : Z) (killed : Z → bool) (k : kmem) : user :=
  mk_user (λ i, user_byte pt k (u64 (addr + i))) (λ i, user_can_write pt k (u64 (addr + i))) killed.
End user.

(** [struct stat], with four bytes of padding before [size]. *)
Definition stat_bytes (pad : list Z) (st : stat) : list Z :=
  le_bytes 4 (st_dev st) ++ le_bytes 4 (st_ino st) ++ le_bytes 2 (st_type st) ++ le_bytes 2 (st_nlink st) ++
  take 4 pad ++ le_bytes 8 (st_size st).

Section calls.
Context {S D : Type} `{!BufOps S} `{!UartDev D} `{!KernelImage} `{!KernelData}.
(** What uninitialised arrays on the kernel stack hold; and a kill by another
    hart while a call runs, the turn of its loop that sees it first. *)
Context (junk pad : list Z) (kill_turn : option Z).
Implicit Types (s : kst (files S D)) (k : kfs S D).

(** ** Running a call as the current process *)

(** What the call sees of process [p], *)
Definition enter (p : proc) s : kfs S D :=
  mk_kfs S D (((f_sys (fs s)) <| fpid := pid p |>) <| fcwd := default 0%nat (idx (cwd p)) |>)
    (f_table (fs s)) (f_pipes (fs s)) (km s) (f_con (fs s)) (map idx (Proc.ofile p)) [].
(** and what it leaves behind. *)
Definition leave k s : kst (files S D) := s <| fs := mk_files S D (kfsys k) (ftable k) (pipes k) (kcon k) |> <| km := kpages k |>.
Definition leave_proc k (p : proc) : proc := p <| Proc.ofile := map ptr (File.ofile k) |>.

Definition current s : proc := match cur s with None => zero_proc | Some i => procs s !!! i end.

(** The addresses [wakeup] was called on between [k] and [k']. *)
Definition con_chan (c : cchan) : Z := match c with ConsR => cons_r_addr | UartTxR => uart_tx_r_addr end.
Definition wakes (k k' : kfs S D) : list Z :=
  let since {A} (f : kfs S D → list A) := drop (length (f k)) (f k') in
  map buf_lock_addr (since (λ k, bc_woken (cache (flog (kfsys k))))) ++
  replicate (lwoken (flog (kfsys k')) - lwoken (flog (kfsys k))) log_addr ++
  map inode_lock_addr (since (λ k, iwoken (kfsys k))) ++
  map con_chan (since (λ k, cwoken (kcon k))) ++ since pwoken.
Definition wake_all (l : list Z) : M (kst (files S D)) unit := for_each l (λ a, wakeup (AddrChan a)).

(** Run [m] from [k], put back what it leaves, then its wakeups. *)
Definition on_files {A} (k : kfs S D) (back : kfs S D → kst (files S D) → kst (files S D)) (m : M (kfs S D) A) : M (kst (files S D)) A := λ s,
  match m k with
  | Ret a k' => (do! wake_all (wakes k k') in ret a) (back k' s)
  | Panic msg k' => Panic msg (back k' s)
  | Sleeps ch k' => (do! wake_all (wakes k k') in sleeps ch) (back k' s)
  | NoFuel k' => NoFuel (back k' s)
  end.

(** A call that does not change [ofile]. *)
Definition with_files {A} (m : M (kfs S D) A) : M (kst (files S D)) A := λ s, on_files (enter (current s) s) leave m s.
Definition run_files {A} (m : M (kfs S D) A) : M (kst (files S D)) A :=
  let! i := curproc in
  let! p := get i in
  λ s, on_files (enter p s) (λ k s, (leave k s) <| procs := alter (leave_proc k) i (procs s) |>) m s.

(** ** What the process layer uses *)

(** A null pointer here is a fault of the kernel. *)
Definition with_ptr {A} (p : Z) (m : nat → M (kfs S D) A) : M (kst (files S D)) A :=
  match idx p with None => panic "kerneltrap" | Some i => with_files (m i) end.

#[global] Instance fs_ops : FsOps (files S D) := {|
  Proc.filedup := λ f, do! with_ptr f File.filedup in ret f;
  Proc.fileclose := λ f, with_ptr f File.fileclose;
  Proc.idup := λ i, do! with_ptr i (λ i, File.with_fs (Fs.idup i)) in ret i;
  Proc.iput := λ i, with_ptr i (λ i, File.with_fs (Fs.iput i));
  Proc.begin_op := with_files fbegin_op;
  Proc.end_op := with_files fend_op;
  Proc.namei := λ path, let! r := with_files (File.with_fs (Fs.namei path junk)) in ret (ptr r);
  Proc.fsinit := λ dev, with_files (File.with_fs (Fs.fsinit dev))
|}.

(** ** Arguments and results *)

Definition argpath (n : Z) : M (kst (files S D)) (option (list Z)) :=
  let! r := argstr n MAXPATH in
  ret (if r.1 <? 0 then None else Some r.2).
(** What [killed] returns at turn [i] of a loop. *)
Definition seen_killed (p : proc) (i : Z) : bool :=
  negb (p_killed p =? 0) || match kill_turn with Some t => t <=? i | None => false end.
Definition user_of (addr : Z) : M (kst (files S D)) user :=
  let! i := curproc in
  let! p := get i in
  let! k := gets km in
  ret (user_at (pagetable p) addr (seen_killed p) k).
(** [p->killed] after a call that another hart's kill came into. *)
Definition kill_arrives : M (kst (files S D)) unit :=
  match kill_turn with
  | None => ret tt
  | Some _ => let! i := curproc in set i (λ p, p <| p_killed := 1 |>)
  end.
Definition deliver (addr : Z) (bs : list Z) : M (kst (files S D)) Z :=
  let! i := curproc in
  let! p := get i in
  with_km (copyout (pagetable p) addr bs).

(** The channel on which a read or a write of the file of descriptor [fd]
    sleeps. *)
Definition wait_chan (fd : Z) (read : bool) : M (kfs S D) Z :=
  let! f := argfd fd in
  match f with
  | None => ret 0
  | Some f =>
      let! x := getf f in
      ret (match f_type x with
           | FD_PIPE => if read then pipe_nread (f_pipe x) else pipe_nwrite (f_pipe x)
           | _ => if read then cons_r_addr else uart_tx_r_addr
           end)
  end.

(** ** The handlers *)

Definition sys_dup : M (kst (files S D)) Z :=
  let! fd := argint 0 in
  let! r := run_files (File.sys_dup fd) in ret (u64 r).

Definition sys_read : M (kst (files S D)) Z :=
  let! p := argaddr 1 in
  let! n := argint 2 in
  let! fd := argint 0 in
  let! u := user_of p in
  let! r := run_files (File.sys_read fd n n u) in
  do! kill_arrives in
  match r with
  | CDone r got => do! deliver p got in ret (u64 r)
  | CAsleep _ got =>
      do! deliver p got in
      let! ch := run_files (wait_chan fd true) in
      sleeps ch
  end.

Definition sys_write : M (kst (files S D)) Z :=
  let! p := argaddr 1 in
  let! n := argint 2 in
  let! fd := argint 0 in
  let! u := user_of p in
  let! r := run_files (File.sys_write fd n 0 u) in
  do! kill_arrives in
  match r with
  | CDone r _ => ret (u64 r)
  | CAsleep _ _ =>
      let! ch := run_files (wait_chan fd false) in
      sleeps ch
  end.

Definition sys_close : M (kst (files S D)) Z :=
  let! fd := argint 0 in
  let! r := run_files (File.sys_close fd) in ret (u64 r).

Definition sys_fstat : M (kst (files S D)) Z :=
  let! st := argaddr 1 in
  let! fd := argint 0 in
  let! r := run_files (File.sys_fstat fd true) in
  match r.2 with
  | None => ret (u64 r.1)
  | Some x =>
      let! c := deliver st (stat_bytes pad x) in
      ret (if c <? 0 then u64 (-1) else 0)
  end.

Definition sys_link : M (kst (files S D)) Z :=
  let! old := argpath 0 in
  match old with
  | None => ret (u64 (-1))
  | Some _ =>
      let! new := argpath 1 in
      let! r := run_files (SysFile.sys_link junk old new) in ret (u64 r)
  end.

Definition sys_unlink : M (kst (files S D)) Z :=
  let! path := argpath 0 in
  let! r := run_files (SysFile.sys_unlink junk path) in ret (u64 r).

Definition sys_open : M (kst (files S D)) Z :=
  let! omode := argint 1 in
  let! path := argpath 0 in
  let! r := run_files (SysFile.sys_open junk path omode) in ret (u64 r).

Definition sys_mkdir : M (kst (files S D)) Z :=
  let! path := argpath 0 in
  let! r := run_files (SysFile.sys_mkdir junk path) in ret (u64 r).

Definition sys_mknod : M (kst (files S D)) Z :=
  let! major := argint 1 in
  let! minor := argint 2 in
  let! path := argpath 0 in
  let! r := run_files (SysFile.sys_mknod junk path (s16 major) (s16 minor)) in ret (u64 r).

Definition sys_chdir : M (kst (files S D)) Z :=
  let! path := argpath 0 in
  let! r := run_files (let! r := SysFile.sys_chdir junk path in
                       let! c := File.with_fs (gets fcwd) in ret (r, c)) in
  let! i := curproc in
  do! (if r.1 =? 0 then set i (λ p, p <| cwd := ptr (Some r.2) |>) else ret tt) in
  ret (u64 r.1).

Definition sys_exec : M (kst (files S D)) Z :=
  let! uargv := argaddr 1 in
  let! path := argpath 0 in
  let! i := curproc in
  let! p := get i in
  let! r := run_files (Exec.sys_exec junk (mk_image (pagetable p) (sz p) (trapframe p) (name p)) path uargv) in
  do! set i (λ q, ((q <| pagetable := im_pagetable r.2 |>) <| sz := im_sz r.2 |>) <| name := im_name r.2 |>) in
  ret (u64 r.1).

Definition sys_pipe : M (kst (files S D)) Z :=
  let! fdarray := argaddr 0 in
  let! u := user_of fdarray in
  let ok i := put_bytes (udst u) 4 i =? 4 in
  let! r := run_files (SysFile.sys_pipe (ok 0) (ok 4)) in
  do! for_each (imap (λ j fd, (Z.of_nat j, fd)) r.2) (λ e,
    do! deliver (u64 (fdarray + 4 * e.1)) (le_bytes 4 e.2) in ret tt) in
  ret (u64 r.1).

(** The entries of [syscalls] for the numbers of [syscall.h]. *)
#[global] Instance file_calls : FileCalls (files S D) := λ num,
  match num with
  | 4 => sys_pipe
  | 5 => sys_read
  | 7 => sys_exec
  | 8 => sys_fstat
  | 9 => sys_chdir
  | 10 => sys_dup
  | 15 => sys_open
  | 16 => sys_write
  | 17 => sys_mknod
  | 18 => sys_unlink
  | 19 => sys_link
  | 20 => sys_mkdir
  | 21 => sys_close
  | _ => panic "undefined: syscall"
  end.
End calls.
