(* ===== verification/CallsThms.v ===== *)
(** * From the memory of one process through a file to that of another

    [write] and [read] from the registers of the calling process down to the
    blocks of the file and back; a session of calls run by number. *)

From stdpp Require Import gmap.
From S2P Require Import Prelude.
From S2P Require Import Machine.
From S2P Require Import Printf.
From S2P Require Import Kalloc.
From S2P Require Import Vm.
From S2P Require Import VmTree.
From S2P Require Import VmSpec.
From S2P Require Import VmUser.
From S2P Require Import VmCopy.
From S2P Require Import VmThms.
From S2P Require Import Proc.
From S2P Require Import ProcSpec.
From S2P Require Import ProcThms.
From S2P Require Import ProcLife.
From S2P Require Import Syscall.
From S2P Require Import TrapThms.
From S2P Require Import Bio.
From S2P Require Import BioSpec.
From S2P Require Import Log.
From S2P Require Import Console.
From S2P Require Import Fs.
From S2P Require Import FsInode.
From S2P Require Import FsSpec.
From S2P Require Import FsFile.
From S2P Require Import FsRw.
From S2P Require Import FsThms.
From S2P Require Import FsRwThms.
From S2P Require Import File.
From S2P Require Import SysFile.
From S2P Require Import FsRun.
From S2P Require Import FileThms.
From S2P Require Import Calls.
#[local] Open Scope Z_scope.

(** ** The memory of a process *)

Section memory.
Context `{!KernelImage}.

Lemma user_byte_eq k l root ds a :
  uspace k l root ds → 0 ≤ a < Z.of_nat (length ds) * PGSIZE → uacc k root a → user_byte root k a = Some (ubyte k ds a).
Proof.
  unfold PGSIZE. intros Hu Ha Hacc. unfold user_byte, copyin.
  rewrite (copyin_loop_spec _ k l root ds a 1 [] Hu); [done|lia|lia|lia| |lia].
  intros b Hb. by assert (b = a) as -> by lia.
Qed.
Lemma user_can_write_eq k l root ds a :
  uspace k l root ds → 0 ≤ a < Z.of_nat (length ds) * PGSIZE → uacc k root a → user_can_write root k a = true.
Proof.
  unfold PGSIZE. intros Hu Ha Hacc. unfold user_can_write, copyout.
  destruct (copyout_loop_spec (S (length [0])) k l root ds a [0] Hu) as (k' & E & _); [lia|simpl; lia| |simpl; lia|by rewrite E].
  intros b Hb. simpl in Hb. by assert (b = a) as -> by lia.
Qed.
Lemma ubyte_range k l root ds a : uspace k l root ds → 0 ≤ ubyte k ds a < 256.
Proof. intros Hu. apply (kinv_bytes _ _ (v_kinv _ _ _ (us_v _ _ _ _ Hu))). Qed.
End memory.

Lemma ptr_idx l : Forall (λ x, 0 ≤ x) l → map ptr (map idx l) = l.
Proof.
  induction 1 as [|x l Hx _ IH]; simpl; [done|]. rewrite IH. f_equal. unfold idx, ptr.
  destruct (Z.leb_spec x 0); lia.
Qed.

Section calls.
Context {S D : Type} `{!BufOps S} `{!BufLaws S} `{!UartDev D} `{!KernelImage} `{!KernelData}.
Context (junk pad : list Z) (kill_turn : option Z).
Implicit Types (s : kst (files S D)).

#[local] Instance ops : FsOps (files S D) := fs_ops junk.

(** ** Wakeups *)

Lemma wake_all_spec l s : unlocked s → ∃ ps, wake_all l s = Ret tt (with_procs s ps) ∧ files_woken (cur s) (procs s) ps.
Proof.
  revert s. induction l as [|a l IH]; intros s Hu.
  - exists (procs s). split; [by destruct s|apply files_woken_refl].
  - destruct (wakeup_spec (AddrChan a) s Hu) as (ps & E & Hm). destruct (IH (with_procs s ps) Hu) as (ps' & E' & Hw).
    exists ps'. split; [exact (eq_trans (bind_eq _ _ _ _ _ E) E')|].
    refine (files_woken_trans _ _ ps _ (conj _ _) Hw); [apply Hm|]. intros j.
    destruct (mapped_woken _ _ _ _ j Hm) as (Hsame & Hst & Hpar & Hme). split; [|exact Hme].
    unfold same_but in Hsame. rewrite Hpar in Hsame. destruct Hst as [Hst|(Hs & Hc & Hst)]; rewrite Hst in Hsame.
    + left. rewrite Hsame. by destruct (procs s !!! j).
    + right. split; [done|]. split; [by eexists|]. rewrite Hsame. by destruct (procs s !!! j).
Qed.

(** The file system keeps to what [exit] needs of it. *)
#[export] Instance files_frame : FsFrame (files S D).
Proof.
  assert (∀ A (m : M (kfs S D) A) s a s', unlocked s → with_files m s = Ret a s' → fs_frame s s') as Hw.
  { intros A m s a s' Hu. unfold with_files, on_files. destruct (m _) as [x k| | |]; try done.
    - destruct (wake_all_spec (wakes (enter (current s) s) k) (leave k s) Hu) as (ps & E & Hp).
      rewrite (bind_eq _ _ _ _ _ E). intros [= <- <-]. by eexists _, _, ps.
    - destruct (wake_all_spec (wakes (enter (current s) s) s0) (leave s0 s) Hu) as (ps & E & _). by rewrite (bind_eq _ _ _ _ _ E). }
  assert (∀ A p (m : nat → M (kfs S D) A) s a s', unlocked s → with_ptr p m s = Ret a s' → fs_frame s s') as Hp.
  { intros A p m s a s'. unfold with_ptr. destruct (idx p); [apply Hw|done]. }
  split; [intros f s s'; apply Hp|intros s s'; apply Hw|intros s s'; apply Hw|intros i s s'; apply Hp].
Qed.

(** ** Arguments *)

(** Process [i], which is [p], runs. *)
Record running s (i : nat) (p : proc) : Prop := {
  rn_cur : cur s = Some i;
  rn_proc : procs s !!! i = p;
  rn_unlocked : unlocked s;
  rn_files : Forall (λ x, 0 ≤ x) (Proc.ofile p)
}.
Definition arguments s (p : proc) (a0 a1 a2 : Z) : Prop :=
  load64 (mem (km s)) (trapframe p + tf_a0) = a0 ∧ load64 (mem (km s)) (trapframe p + tf_a1) = a1 ∧
  load64 (mem (km s)) (trapframe p + (tf_a0 + 16)) = a2.

Lemma fetch_eq s i p n : running s i p → 0 ≤ n ≤ 5 → argraw n s = Ret (load64 (mem (km s)) (trapframe p + (tf_a0 + 8 * n))) s.
Proof.
  intros [Hc Hp _ _] Hn. unfold argraw. rewrite (bind_eq _ _ _ _ _ (curproc_eq _ _ Hc)), (bind_eq (get i) _ _ _ _ eq_refl), Hp.
  by rewrite (proj2 (Z.leb_le 0 n)), (proj2 (Z.leb_le n 5)) by lia.
Qed.
Lemma args_eq {B} s i p fd addr n (k : Z → Z → Z → M (kst (files S D)) B) :
  running s i p → arguments s p fd addr n → 0 ≤ fd < 2 ^ 31 → 0 ≤ n < 2 ^ 31 →
  (let! a := argaddr 1 in let! m := argint 2 in let! f := argint 0 in k a m f) s = k addr n fd s.
Proof.
  intros Hr (A0 & A1 & A2) Hfd Hn. pose proof (λ n, fetch_eq s i p n Hr) as E.
  assert (argaddr 1 s = Ret addr s) as E1 by (unfold argaddr; rewrite E by lia; change (tf_a0 + 8 * 1) with tf_a1; by rewrite A1).
  assert (argint 2 s = Ret n s) as E2.
  { unfold argint. rewrite (bind_eq _ _ _ _ _ (E 2 ltac:(lia))). change (tf_a0 + 8 * 2) with (tf_a0 + 16). rewrite A2. unfold ret. by rewrite s32_small by lia. }
  assert (argint 0 s = Ret fd s) as E3.
  { unfold argint. rewrite (bind_eq _ _ _ _ _ (E 0 ltac:(lia))). change (tf_a0 + 8 * 0) with tf_a0. rewrite A0. unfold ret. by rewrite s32_small by lia. }
  by rewrite (bind_eq _ _ _ _ _ E1), (bind_eq _ _ _ _ _ E2), (bind_eq _ _ _ _ _ E3).
Qed.

Lemma user_of_eq s i p addr : running s i p → user_of kill_turn addr s = Ret (user_at (pagetable p) addr (seen_killed kill_turn p) (km s)) s.
Proof. intros [Hc Hp _ _]. unfold user_of. rewrite (bind_eq _ _ _ _ _ (curproc_eq _ _ Hc)), (bind_eq (get i) _ _ _ _ eq_refl), Hp. done. Qed.

(** A call that leaves the descriptors and the pages alone changes the files
    and wakes processes. *)
Lemma run_files_eq {A} s i p (m : M (kfs S D) A) a k :
  running s i p → m (enter p s) = Ret a k → File.ofile k = map idx (Proc.ofile p) → kpages k = km s →
  ∃ ps, run_files m s = Ret a ((with_procs s ps) <| fs := mk_files S D (kfsys k) (ftable k) (pipes k) (kcon k) |>) ∧
    files_woken (Some i) (procs s) ps.
Proof.
  intros [Hc Hp Hu Hf] E Ho Hk. unfold run_files. rewrite (bind_eq _ _ _ _ _ (curproc_eq _ _ Hc)), (bind_eq (get i) _ _ _ _ eq_refl), Hp.
  unfold on_files. rewrite E.
  assert (alter (leave_proc k) i (procs s) = procs s) as ->.
  { rewrite (alter_agree _ id); [apply alter_id|]. rewrite Hp. unfold leave_proc. rewrite Ho, ptr_idx by done. by destruct p. }
  set (s1 := (leave k s) <| procs := procs s |>). destruct (wake_all_spec (wakes (enter p s) k) s1 Hu) as (ps & E1 & Hw).
  exists ps. rewrite (bind_eq _ _ _ _ _ E1). change (cur s1) with (cur s) in Hw. rewrite Hc in Hw. split; [|exact Hw].
  unfold ret, s1, leave. rewrite Hk. by destruct s.
Qed.

(** After such a call and the kill that may come into it: only the files have
    changed, others may be woken from sleeps on addresses, and the caller is
    marked if it was killed. *)
Definition caller_killed (i : nat) (ps : list proc) : list proc :=
  match kill_turn with None => ps | Some _ => alter (λ p, p <| p_killed := 1 |>) i ps end.
Definition only_files (i : nat) s s' : Prop :=
  ∃ ps, s' = (with_procs s (caller_killed i ps)) <| fs := fs s' |> ∧ files_woken (Some i) (procs s) ps.

Lemma kill_arrives_eq i s : cur s = Some i → kill_arrives kill_turn s = Ret tt (with_procs s (caller_killed i (procs s))).
Proof.
  intros Hc. unfold kill_arrives, caller_killed. destruct kill_turn; [|by destruct s].
  rewrite (bind_eq _ _ _ _ _ (curproc_eq _ _ Hc)). by destruct s.
Qed.

Lemma caller_pagetable i ps ps' : files_woken (Some i) ps ps' → pagetable (caller_killed i ps' !!! i) = pagetable (ps !!! i).
Proof.
  intros [_ Hw]. destruct (Hw i) as [_ E]. unfold caller_killed. destruct kill_turn; [|by rewrite E].
  rewrite list_lookup_total_alter, E by done. by case_decide.
Qed.

Lemma argfd_eq s p fd f : 0 ≤ fd < NOFILE → (Z.to_nat fd < length (Proc.ofile p))%nat → idx (Proc.ofile p !!! Z.to_nat fd) = Some f →
  argfd fd (enter p s) = Ret (Some f) (enter p s).
Proof.
  intros Hfd Hl Hi. unfold argfd. rewrite (proj2 (Z.ltb_ge fd 0)), (proj2 (Z.leb_gt NOFILE fd)) by lia. cbn [orb]. unfold gets. f_equal. simpl.
  rewrite <- Hi. apply list_lookup_total_correct. rewrite list_lookup_fmap. rewrite (list_lookup_lookup_total_lt (Proc.ofile p)) by lia. done.
Qed.

(** Another process sees the same files. *)
Lemma file_idle_who dev (x : fsst S) c i (a : Z) (d : nat) : file_idle dev x c i → file_idle dev ((x <| fpid := a |>) <| fcwd := d |>) c i.
Proof.
  intros Hfi. pose proof Hfi as [Hid Ly Hb F Hi Hd Hio Hlk Hrf Hv].
  eapply (file_idle_step dev x _ c i _ Hfi); [by apply (idle_same dev x)|done|reflexivity|done..].
Qed.
Lemma file_idle_enter dev (x : fsst S) c i s p :
  file_idle dev x c i → flog x = flog (f_sys (fs s)) → sb x = sb (f_sys (fs s)) → inodes x = inodes (f_sys (fs s)) →
  file_idle dev (kfsys (enter p s)) c i.
Proof.
  intros Hfi E1 E2 E3. pose proof Hfi as [Hid Ly Hb F Hi Hd Hio Hlk Hrf Hv].
  assert (file_idle dev (f_sys (fs s)) c i) as H1.
  { eapply (file_idle_step dev x _ c i _ Hfi); rewrite <- ?E3; [by apply (idle_same dev x)|by split_and!; congruence|reflexivity|done..]. }
  by apply file_idle_who.
Qed.

(** ** [write] *)

(** [n] bytes from [addr] on are memory of the process. *)
Record buffer s (p : proc) (l ds : list Z) (addr n : Z) : Prop := {
  bf_space : uspace (km s) l (pagetable p) ds;
  bf_range : 0 ≤ addr ∧ 0 ≤ n ∧ addr + n ≤ Z.of_nat (length ds) * PGSIZE;
  bf_access : ∀ a, addr ≤ a < addr + n → uacc (km s) (pagetable p) a
}.
Definition buffer_bytes s (ds : list Z) (addr n : Z) : list Z := map (ubyte (km s) ds) (seqZ addr n).

Lemma buffer_small s p l ds addr n : buffer s p l ds addr n → addr + n < 2 ^ 63.
Proof.
  intros [Hu (Ha & Hn & Hle) _]. pose proof (us_max _ _ _ _ Hu). unfold PGSIZE in *. destruct user_limit as (_ & _ & Hl). lia.
Qed.

(** What a process that runs has as argument [fd], and the file behind it. *)
Record descriptor (p : proc) (fd : Z) (f : nat) : Prop := {
  de_range : 0 ≤ fd < NOFILE;
  de_len : (Z.to_nat fd < length (Proc.ofile p))%nat;
  de_file : idx (Proc.ofile p !!! Z.to_nat fd) = Some f
}.

Lemma sys_write_spec s i p dev c f ip off l ds fd addr n :
  running s i p → arguments s p fd addr n → descriptor p fd f → buffer s p l ds addr n →
  open_at dev (enter p s) c f ip off → 0 ≤ off ≤ i_size (inodes (f_sys (fs s)) !!! ip) → off + n ≤ MAXFILE * BSIZE →
  21 < l_size (flog (f_sys (fs s))) →
  ∃ m s' c', sys_write kill_turn s = Ret (u64 (if m =? n then n else -1)) s' ∧ only_files i s s' ∧
    0 ≤ m ≤ n ∧ (m = n ∨ full (f_sys (fs s')) c') ∧ open_at dev (enter p s') c' f ip (off + m) ∧
    (∀ g, g ≠ f → f_table (fs s') !!! g = f_table (fs s) !!! g) ∧
    (length (f_table (fs s')) = length (f_table (fs s))) ∧
    contents (inodes (f_sys (fs s')) !!! ip) c' =
      overwrite (contents (inodes (f_sys (fs s)) !!! ip) c) off (take (Z.to_nat m) (buffer_bytes s ds addr n)).
Proof.
  intros Hr Ha [Hfd Hfl Hfi] Hb Hop Ho Hmax Hl. pose proof (buffer_small _ _ _ _ _ _ Hb) as Hsm. destruct Hb as [Hu (Ha0 & Hn & Hle) Hacc].
  assert (MAXFILE * BSIZE = 274432) as Em by reflexivity. set (u := user_at (pagetable p) addr (seen_killed kill_turn p) (km s)).
  destruct (filewrite_spec dev (enter p s) c f ip off n u (buffer_bytes s ds addr n) Hop Ho Hmax) as (m & K & c' & E & Hm & Hf & Hop' & (EK & Hg & EKl & _) & Hc).
  - unfold buffer_bytes. rewrite length_map, length_seqZ. lia.
  - intros k Hk. unfold u, user_at, buffer_bytes. simpl. rewrite u64_small by lia.
    rewrite (user_byte_eq _ l _ ds) by (try apply Hacc; done || lia). f_equal. symmetry. apply list_lookup_total_correct.
    rewrite list_lookup_fmap, lookup_seqZ_lt by lia. simpl. do 2 f_equal. lia.
  - exact Hl.
  - assert (File.ofile K = map idx (Proc.ofile p)) as EKo by (by rewrite EK). assert (kpages K = km s) as EKp by (by rewrite EK).
    assert (File.sys_write fd n 0 u (enter p s) = Ret (CDone (if m =? n then n else -1) tt) K) as F0.
    { unfold File.sys_write. by rewrite (bind_eq _ _ _ _ _ (argfd_eq s p fd f Hfd Hfl Hfi)), E. }
    destruct (run_files_eq _ _ _ _ _ _ Hr F0 EKo EKp) as (ps & F1 & Hw). set (s1 := _ <| fs := _ |>) in F1.
    set (s' := with_procs s1 (caller_killed i ps)). exists m, s', c'.
    split.
    + unfold sys_write. rewrite (args_eq s i p fd addr n) by (done || unfold NOFILE in *; lia).
      rewrite (bind_eq _ _ _ _ _ (user_of_eq _ _ _ _ Hr)). fold u.
      rewrite (bind_eq _ _ _ _ _ F1). by rewrite (bind_eq _ _ _ _ _ (kill_arrives_eq i s1 (rn_cur _ _ _ Hr))).
    + split; [by exists ps|]. split; [done|]. split; [exact Hf|]. split; [|split; [exact Hg|split; [exact EKl|exact Hc]]].
      destruct Hop' as [P1 P2 P3 P4 P5 P6]. split; try done. by eapply (file_idle_enter dev (kfsys K)).
Qed.
(** ** [read] *)

Lemma sys_read_spec s i p dev c f ip off l ds fd addr n :
  running s i p → arguments s p fd addr n → descriptor p fd f → buffer s p l ds addr n → n < 2 ^ 31 →
  read_at dev (enter p s) c f ip off → 0 ≤ off → off + n < 2 ^ 32 →
  let part := slice (Z.to_nat n) (Z.to_nat off) (contents (inodes (f_sys (fs s)) !!! ip) c) in
  ∃ s', sys_read kill_turn s = Ret (Z.of_nat (length part)) s' ∧ uspace (km s') l (pagetable p) ds ∧
    read_at dev (enter p s') c f ip (off + Z.of_nat (length part)) ∧
    ∀ a, 0 ≤ a < Z.of_nat (length ds) * PGSIZE → ubyte (km s') ds a =
      if decide (addr ≤ a < addr + Z.of_nat (length part)) then u8 (default 0 (part !! Z.to_nat (a - addr))) else ubyte (km s) ds a.
Proof.
  intros Hr Ha [Hfd Hfl Hfi] Hb Hn31 Hop Ho Hlt part. pose proof (buffer_small _ _ _ _ _ _ Hb) as Hsm. destruct Hb as [Hu (Ha0 & Hn & Hle) Hacc].
  set (u := user_at (pagetable p) addr (seen_killed kill_turn p) (km s)).
  assert (∀ k, 0 ≤ k < n → udst u k = true) as Hdst.
  { intros k Hk. unfold u, user_at. simpl. rewrite u64_small by lia. apply (user_can_write_eq _ l _ ds); [done|lia|apply Hacc; lia]. }
  destruct (fileread_spec dev (enter p s) c f ip off n u Hop Ho Hn Hlt Hdst) as (K & E & Hop' & (EK & _ & EKl & _) & Hc).
  change (contents (inodes (kfsys (enter p s)) !!! ip) c) with (contents (inodes (f_sys (fs s)) !!! ip) c) in E, Hop'. fold part in E, Hop'.
  assert (Z.of_nat (length part) ≤ n) as Hlen by (unfold part, slice; rewrite length_take; lia).
  assert (File.ofile K = map idx (Proc.ofile p)) as EKo by (by rewrite EK). assert (kpages K = km s) as EKp by (by rewrite EK).
  assert (File.sys_read fd n n u (enter p s) = Ret (CDone (Z.of_nat (length part)) part) K) as F0.
  { unfold File.sys_read. by rewrite (bind_eq _ _ _ _ _ (argfd_eq s p fd f Hfd Hfl Hfi)), E. }
  destruct (run_files_eq _ _ _ _ _ _ Hr F0 EKo EKp) as (ps & F1 & Hw). set (s0 := _ <| fs := _ |>) in F1.
  set (s1 := with_procs s0 (caller_killed i ps)).
  unfold PGSIZE in *. destruct (copyout_loop_spec (Datatypes.S (length part)) (km s) l (pagetable p) ds addr part Hu Ha0) as (k' & E2 & Hu' & _ & Hby & _);
    [lia|intros a Hx; apply Hacc; lia|lia|].
  exists (s1 <| km := k' |>). split; [|split; [exact Hu'|split; [|exact Hby]]].
  - unfold sys_read. rewrite (args_eq s i p fd addr n) by (done || unfold NOFILE in *; lia).
    rewrite (bind_eq _ _ _ _ _ (user_of_eq _ _ _ _ Hr)). fold u. rewrite (bind_eq _ _ _ _ _ F1).
    destruct Hr as [Hcur Hp _ _]. rewrite (bind_eq _ _ _ _ _ (kill_arrives_eq i s0 Hcur)). fold s1.
    assert (pagetable (procs s1 !!! i) = pagetable p) as Hpt.
    { rewrite <- Hp. exact (caller_pagetable i (procs s) ps Hw). }
    assert (deliver addr part s1 = Ret 0 (s1 <| km := k' |>)) as E3.
    { unfold deliver. rewrite (bind_eq _ _ _ _ _ (curproc_eq i s1 Hcur)), (bind_eq (get i) _ _ _ _ eq_refl).
      rewrite Hpt. unfold with_km, copyout. by erewrite lift_Ret by exact E2. }
    rewrite (bind_eq _ _ _ _ _ E3). unfold ret. f_equal. apply u64_small. lia.
  - destruct Hop' as [P1 P2 P3 P4 P5 P6]. split; try done. by eapply (file_idle_enter dev (kfsys K)).
Qed.

(** ** From one process to another *)

Lemma slice_overwrite old off src : 0 ≤ off ≤ Z.of_nat (length old) →
  slice (length src) (Z.to_nat off) (overwrite old off src) = src.
Proof.
  intros Ho. unfold slice, overwrite. rewrite drop_app_length' by (rewrite length_take; lia).
  by rewrite take_app_length' by done.
Qed.

(** C4: bytes pass from one process to another through a file. If a process
    writes [n] bytes of its memory at the offset of a descriptor, no further
    than the largest file reaches and with a log that holds a chunk of the
    write, then [write] returns [n], or -1 when the disk is full, and changes
    nothing but the files; it may wake others from sleeps on addresses, and a
    kill that comes into it marks the caller and does not cut it short. After it
    returned [n], and as long as the files stay as it left them, a [read] of [n]
    bytes by any process through a descriptor that is open on the same inode at
    the same offset returns [n] and leaves exactly the writer's bytes in the
    reader's buffer and the rest of its memory as it was. Arguments come from
    the trapframes, the bytes through the page tables, the buffer cache, the log
    and the block map. *)
Theorem file_passes_bytes s i p dev c f g ip off l ds fd addr n :
  running s i p → arguments s p fd addr n → descriptor p fd f → buffer s p l ds addr n →
  open_at dev (enter p s) c f ip off → read_at dev (enter p s) c g ip off → g ≠ f →
  off ≤ i_size (inodes (f_sys (fs s)) !!! ip) → off + n ≤ MAXFILE * BSIZE → 0 ≤ off → 21 < l_size (flog (f_sys (fs s))) →
  ∃ r s1, sys_write kill_turn s = Ret r s1 ∧ only_files i s s1 ∧ (r = n ∨ r = u64 (-1) ∧ ∃ c', full (f_sys (fs s1)) c') ∧
    (r = n → ∀ t j q l' ds' fd' addr',
      fs t = fs s1 → running t j q → arguments t q fd' addr' n → descriptor q fd' g → buffer t q l' ds' addr' n →
      ∃ t', sys_read kill_turn t = Ret n t' ∧ ∀ a, 0 ≤ a < Z.of_nat (length ds') * PGSIZE → ubyte (km t') ds' a =
        if decide (addr' ≤ a < addr' + n) then ubyte (km s) ds (addr + (a - addr')) else ubyte (km t) ds' a).
Proof.
  intros Hr Ha Hd Hb Hop Hrd Hgf Ho1 Hmax Ho Hl. pose proof (bf_range _ _ _ _ _ _ Hb) as (_ & Hn & _).
  assert (MAXFILE * BSIZE = 274432) as Em by reflexivity.
  destruct (sys_write_spec s i p dev c f ip off l ds fd addr n) as (m & s1 & c' & E & Es & Hm & Hfull & Hop' & Hg & Hlen & Hc); try done.
  exists (u64 (if m =? n then n else -1)), s1. split; [done|]. split; [done|]. destruct (Z.eqb_spec m n) as [->|Hne].
  2: { split; [right; split; [done|]; destruct Hfull as [|Hfull]; [done|by exists c']|]. intros Hbad. exfalso.
       change (u64 (-1)) with 18446744073709551615 in Hbad. lia. }
  rewrite u64_small by lia. split; [by left|]. intros _ t j q l' ds' fd' addr' Et Hrt Hat Hd' Hbt.
  assert (read_at dev (enter q t) c' g ip off) as Hrdt.
  { destruct Hrd as [R1 R2 R3 R4 R5 _]. simpl in R1, R2, R3, R4, R5. pose proof (oa_idle _ _ _ _ _ _ Hop') as Hid.
    split; simpl; rewrite ?Et, ?Hlen, ?Hg by done; try done.
    exact (file_idle_who dev _ c' ip (pid q) _ Hid). }
  destruct (sys_read_spec t j q dev c' g ip off l' ds' fd' addr' n) as (t' & E2 & _ & _ & Hby); try done; try lia.
  assert (length (buffer_bytes s ds addr n) = Z.to_nat n) as Lb by (unfold buffer_bytes; by rewrite length_map, length_seqZ).
  rewrite Et, Hc, take_ge in E2, Hby by lia. rewrite <- Lb in E2, Hby. rewrite slice_overwrite in E2, Hby by (rewrite length_file_contents; lia).
  rewrite Lb, Z2Nat.id in E2, Hby by done. exists t'. split; [exact E2|]. intros a Hax. rewrite Hby by done.
  case_decide; [|done]. unfold buffer_bytes. rewrite list_lookup_fmap, lookup_seqZ_lt by lia. simpl.
  replace (addr + Z.of_nat (Z.to_nat (a - addr'))) with (addr + (a - addr')) by lia.
  apply u8_small. eapply ubyte_range. apply Hb.
Qed.

(** ** The calls by number *)

Context `{!KernelText}.
#[local] Instance calls : FileCalls (files S D) := file_calls junk pad kill_turn.
Context (swtch_out : nat → M (kst (files S D)) unit) (fuel : nat) (times : Z * Z).



End calls.

(** ** Calls by number and registers

    A process with two pages of memory creates, writes, reads and closes a
    file, opens a pipe and copies through it, and passes arguments that are
    refused: each call through [syscall]. *)

Module Run.
#[local] Instance demo_uart : UartDev unit := {| read_reg := λ _ d, (LSR_TX_IDLE, d); write_reg := λ _ _ d, d |}.
#[local] Instance demo_image : KernelImage.
Proof. refine {| kend := KERNBASE; etext := KERNBASE; trampoline := KERNBASE |}; vm_compute; discriminate. Defined.
#[local] Instance demo_data : KernelData := {| cons_r_addr := 0x80020000; uart_tx_r_addr := 0x80020010;
  log_addr := 0x80020020; inode_lock_addr := λ i, 0x80021000 + 136 * Z.of_nat i; buf_lock_addr := λ i, 0x80024000 + 1112 * Z.of_nat i |}.
#[local] Instance demo_text : KernelText := {|
  forkret_pc := 0; usertrap_pc := 0; uservec_pc := 0; userret_pc := 0; kernelvec_pc := 0
|}.
Definition demo_junk : list Z := replicate 14 9.
#[local] Instance demo_ops : FsOps (files bst unit) := fs_ops demo_junk.
#[local] Instance demo_calls : FileCalls (files bst unit) := file_calls demo_junk (replicate 4 7) None.

Definition demo_pages : M kmem (Z * Z) :=
  do! for_each (seqZ 1 16) (λ j, kfree (PHYSTOP - j * PGSIZE)) in
  let! tf := kalloc in
  let! pt := uvmcreate in
  let! _ := uvmalloc pt 0 (2 * PGSIZE) PTE_W in
  do! ret tt in
  ret (pt, tf).

Definition demo_kernel (b : bst) (pt tf : Z) (k : kmem) : kst (files bst unit) :=
  let F := boot_kfs b in
  mk_kst (files bst unit)
    ((zero_proc <| state := RUNNING |> <| pid := 3 |> <| pagetable := pt |> <| trapframe := tf |> <| sz := 2 * PGSIZE |> <| cwd := 1 |>) :: replicate 63 zero_proc)
    [] k (mk_files bst unit (kfsys F) (ftable F) ∅ (kcon F)) 4 100 None [0; 0; 0; 0] [0; 0; 0; 0] [] 0 0 5 (Some 0%nat) [] false zero_hart.

Definition trap_call (num a0 a1 a2 : Z) : M (kst (files bst unit)) Z :=
  let! i := curproc in
  let! p := get i in
  do! store_tf (trapframe p) tf_a0 a0 in
  do! store_tf (trapframe p) tf_a1 a1 in
  do! store_tf (trapframe p) (tf_a0 + 16) a2 in
  do! store_tf (trapframe p) tf_a7 num in
  do! syscall (λ _, ret tt) 1 (0, 0) in
  load_tf (trapframe p) tf_a0.
Definition write_mem (a : Z) (bs : list Z) : M (kst (files bst unit)) unit := do! deliver a bs in ret tt.
Definition read_mem (a n : Z) : M (kst (files bst unit)) (list Z) :=
  let! i := curproc in let! p := get i in
  let! r := with_km (copyin (pagetable p) a n) in ret r.2.

(** The results of the calls, what the reads put into memory, and what [fstat]
    and [pipe] put there. The second read ends at the end of the memory: the
    two bytes before it are stored and the call fails. *)
Definition call_session : M (kst (files bst unit)) (list Z * list Z * list Z) :=
  do! write_mem 0 (bytes "/f" ++ [0]) in
  do! write_mem 4090 (bytes "hello, world") in
  let! r1 := trap_call 15 0 (Z.lor O_CREATE O_RDWR) 0 in
  let! r2 := trap_call 16 r1 4090 12 in
  let! r3 := trap_call 21 r1 0 0 in
  let! r4 := trap_call 15 0 0 0 in
  let! r5 := trap_call 5 r4 100 5 in
  let! r6 := trap_call 5 r4 8190 5 in
  let! r7 := trap_call 8 r4 200 0 in
  let! r8 := trap_call 4 300 0 0 in
  let! r9 := trap_call 16 2 4090 3 in
  let! r10 := trap_call 5 1 400 10 in
  let! r11 := trap_call 10 7 0 0 in
  let! b1 := read_mem 100 5 in
  let! b2 := read_mem 200 24 in
  let! b3 := read_mem 300 8 in
  let! b4 := read_mem 400 4 in
  let! b5 := read_mem 8190 2 in
  ret ([r1;r2;r3;r4;r5;r6;r7;r8;r9;r10;r11], b1 ++ b4 ++ b5, b2 ++ b3).

Example call_session_runs :
  match binit (boot_bst 1 root_disk), demo_pages (mk_kmem ∅ 0) with
  | Ret _ b, Ret (pt, tf) k =>
      match call_session (demo_kernel b pt tf k) with
      | Ret r _ => r = ([0; 12; 0; 0; 5; u64 (-1); 0; 0; 3; 3; u64 (-1)],
                        bytes "hello" ++ bytes "hel" ++ [0] ++ bytes ", ",
                        stat_bytes (replicate 4 7) (mk_stat 1 2 T_FILE 1 12) ++ le_bytes 4 1 ++ le_bytes 4 2)
      | _ => False
      end
  | _, _ => False
  end.
Proof. vm_compute. reflexivity. Qed.

(** Reading an empty pipe sleeps on its [nread]. *)
Definition read_empty : M (kst (files bst unit)) Z :=
  let! r := trap_call 4 300 0 0 in trap_call 5 0 400 10.
Example read_empty_sleeps :
  match binit (boot_bst 1 root_disk), demo_pages (mk_kmem ∅ 0) with
  | Ret _ b, Ret (pt, tf) k =>
      match read_empty (demo_kernel b pt tf k) with
      | Sleeps ch s => (map_to_list (f_pipes (fs s))).*1 = [ch - 536]
      | _ => False
      end
  | _, _ => False
  end.
Proof. vm_compute. reflexivity. Qed.
(** A process that sleeps on the [nread] of a pipe is woken by a write. *)
Definition write_wakes : M (kst (files bst unit)) (procstate * procstate * Z) :=
  let! r := trap_call 4 300 0 0 in
  let! ps := gets (λ s, (map_to_list (f_pipes (fs s))).*1) in
  do! set 1 (λ p, (p <| state := SLEEPING |>) <| chan := AddrChan (pipe_nread (default 0 (head ps))) |>) in
  let! p := get 1 in
  let! r := trap_call 16 1 4090 3 in
  let! q := get 1 in
  ret (state p, state q, r).
Example write_wakes_reader :
  match binit (boot_bst 1 root_disk), demo_pages (mk_kmem ∅ 0) with
  | Ret _ b, Ret (pt, tf) k =>
      match write_wakes (demo_kernel b pt tf k) with Ret r _ => r = (SLEEPING, RUNNABLE, 3) | _ => False end
  | _, _ => False
  end.
Proof. vm_compute. reflexivity. Qed.



End Run.

(** ** Two processes and a file on a small disk *)

#[local] Existing Instance vm_image.
#[local] Instance quiet_uart : UartDev unit := {| read_reg := λ _ d, (LSR_TX_IDLE, d); write_reg := λ _ _ d, d |}.
#[local] Instance demo_data : KernelData := {| cons_r_addr := 0x80020000; uart_tx_r_addr := 0x80020010;
  log_addr := 0x80020020; inode_lock_addr := λ i, 0x80021000 + 136 * Z.of_nat i; buf_lock_addr := λ i, 0x80024000 + 1112 * Z.of_nat i |}.

(** The trapframes are in pages of the kernel; the writer passes (0, 4095, 3),
    the reader (0, 100, 3). *)
Definition frame1 : Z := PHYSTOP - 9 * PGSIZE.
Definition frame2 : Z := PHYSTOP - 10 * PGSIZE.
Definition put_frame (m : memory) (tf a0 a1 a2 : Z) : memory :=
  store64 (store64 (store64 m (tf + tf_a0) a0) (tf + tf_a1) a1) (tf + (tf_a0 + 16)) a2.
Definition framed : kmem := mk_kmem (put_frame (put_frame ∅ frame1 0 4095 3) frame2 0 100 3) 0.
Definition holds_frame (k : kmem) (tf a0 a1 a2 : Z) : bool :=
  (load64 (mem k) (tf + tf_a0) =? a0) && (load64 (mem k) (tf + tf_a1) =? a1) && (load64 (mem k) (tf + (tf_a0 + 16)) =? a2).
Definition frames_kept (o : outcome kmem (Z * Z)) : bool :=
  match o with Ret _ k => holds_frame k frame1 0 4095 3 && holds_frame k frame2 0 100 3 | _ => false end.

Lemma framed_bytes : bytes_ok (mem framed).
Proof. unfold framed, put_frame. cbn [mem]. repeat apply bytes_ok_store. exact demo_bytes. Qed.
Lemma framed_space : ∃ k l root ds, uspace k l root ds ∧ length ds = 2%nat ∧ (∀ a, 0 ≤ a < 2 * PGSIZE → uacc k root a) ∧
  holds_frame k frame1 0 4095 3 = true ∧ holds_frame k frame2 0 100 3 = true.
Proof.
  assert (two_pages (boot_space2 framed) = true) as Hv by (vm_compute; reflexivity).
  assert (frames_kept (boot_space2 framed) = true) as Hk by (vm_compute; reflexivity).
  destruct (boot_space2_spec framed _ framed_bytes eq_refl demo_page Hv) as ((k & l & root & ds & Hu & Hl & _ & Ha & E) & _).
  rewrite E in Hk. apply andb_prop in Hk as [H1 H2]. exists k, l, root, ds. exact (conj Hu (conj Hl (conj Ha (conj H1 H2)))).
Qed.

Definition demo_process (root tf d : Z) : proc :=
  (((zero_proc <| pagetable := root |>) <| trapframe := tf |>) <| Proc.ofile := d :: replicate 15 0 |>) <| cwd := 1 |>.
Definition demo_two (b : bst) (k : kmem) (root : Z) : kst (files bst unit) :=
  let F := demo_open b in
  mk_kst (files bst unit) [demo_process root frame1 1; demo_process root frame2 2]
    [] k (mk_files bst unit (kfsys F) [mk_file FD_INODE 1 true true 0 0 0 0; mk_file FD_INODE 1 true false 0 0 0 0] ∅ (kcon F))
    4 100 None [0; 0; 0; 0] [0; 0; 0; 0] [] 0 0 5 (Some 0%nat) [] false zero_hart.

Lemma holds_arguments (s : kst (files bst unit)) p a0 a1 a2 : holds_frame (km s) (trapframe p) a0 a1 a2 = true → arguments s p a0 a1 a2.
Proof. intros [[H1 H2]%andb_prop H3]%andb_prop. apply Z.eqb_eq in H1, H2, H3. exact (conj H1 (conj H2 H3)). Qed.

Lemma file_passes_bytes_witness : ∃ (s s1 : kst (files bst unit)) r k ds,
  sys_write (Some 0) s = Ret r s1 ∧ (r = 3 → ∃ t t', fs t = fs s1 ∧ sys_read (Some 0) t = Ret 3 t' ∧ ubyte (km t') ds 101 = ubyte k ds 4096).
Proof.
  destruct demo_open_at as [b Hop]. destruct framed_space as (k & l & root & ds & Hu & Hlen & Hacc & H1 & H2).
  set (s := demo_two b k root). set (p := demo_process root frame1 1). set (q := demo_process root frame2 2).
  pose proof (file_idle_enter 1 _ demo_c 0 s p (oa_idle _ _ _ _ _ _ Hop) eq_refl eq_refl eq_refl) as Hid.
  assert (∀ t (x : proc) a, km t = k → pagetable x = root → 0 ≤ a → a + 3 ≤ 8192 → @buffer bst unit _ t x l ds a 3) as Hbuf.
  { intros t x a Ek Ex Ha Hm. split; rewrite ?Ek, ?Ex, ?Hlen; [exact Hu|unfold PGSIZE; lia|]. intros y Hy. apply Hacc. unfold PGSIZE. lia. }
  destruct (file_passes_bytes (Some 0) s 0 p 1 demo_c 0 1 0 0 l ds 0 4095 3) as (r & s1 & E & Es & _ & Hread).
  - split; [reflexivity|reflexivity|intros ?; apply not_elem_of_nil|]. repeat (apply Forall_cons_2; [lia|]). apply Forall_nil_2.
  - apply holds_arguments. exact H1.
  - split; [unfold NOFILE; lia|vm_compute; lia|reflexivity].
  - apply Hbuf; [reflexivity|reflexivity|lia|lia].
  - split; [vm_compute; lia|reflexivity|reflexivity|reflexivity|reflexivity|exact Hid].
  - split; [vm_compute; lia|reflexivity|reflexivity|reflexivity|reflexivity|exact Hid].
  - discriminate.
  - vm_compute. discriminate.
  - vm_compute. discriminate.
  - lia.
  - reflexivity.
  - exists s, s1, r, k, ds. split; [exact E|]. intros Hr. destruct Es as (ps & Es & Hw). set (t := s1 <| cur := Some 1%nat |>).
    assert (km t = k) as Ek by (unfold t; simpl; rewrite Es; reflexivity).
    assert (procs t !!! 1%nat = q) as Eq.
    { unfold t. simpl. rewrite Es. simpl. rewrite list_lookup_total_alter, decide_False by (intros [[=] _]).
      destruct Hw as [_ Hw]. destruct (Hw 1%nat) as [[Hx|(Hx & _)] _]; [exact Hx|discriminate Hx]. }
    assert (held t = []) as Eh by (unfold t; simpl; rewrite Es; reflexivity).
    destruct (Hread Hr t 1%nat q l ds 0 100) as (t' & E' & Hby).
    + reflexivity.
    + split; [reflexivity|exact Eq|intros ?; rewrite Eh; apply not_elem_of_nil|]. repeat (apply Forall_cons_2; [lia|]). apply Forall_nil_2.
    + apply holds_arguments. rewrite Ek. exact H2.
    + split; [unfold NOFILE; lia|vm_compute; lia|reflexivity].
    + apply Hbuf; [exact Ek|reflexivity|lia|lia].
    + exists t, t'. split; [reflexivity|]. split; [exact E'|]. rewrite Hby by (rewrite Hlen; unfold PGSIZE; lia). reflexivity.
Defined.
