(* ===== verification/Virtio.v ===== *)
(** * The disk driver ([kernel/virtio_disk.c])

    The driver and the device share the descriptor table, the available ring
    and the used ring. A pointer handed to the device is the object it points
    to. [virtio_disk_rw] is cut where it sleeps: [virtio_disk_rw] here ends
    asleep, waiting for descriptors or for the device; woken, the call runs it
    again in the first case and [rw_wait], the rest of the call, in the second.
    [v_sleep] is what [sleep] and [wakeup] do to the processes in these calls.
    The critical sections run under [vdisk_lock]; the loop
    of [virtio_disk_intr] is also available one turn at a time, because the
    device adds entries to the used ring while it runs. *)

From stdpp Require Import gmap.
From S2P Require Import Prelude.
From S2P Require Import Machine.
From S2P Require Import Bio.
#[local] Open Scope Z_scope.

(** ** virtio.h *)

Definition NUM : nat := 8.
Definition VRING_DESC_F_NEXT : Z := 1.
Definition VRING_DESC_F_WRITE : Z := 2.
Definition VIRTIO_BLK_T_IN : Z := 0.
Definition VIRTIO_BLK_T_OUT : Z := 1.

(** ** Shared memory *)

(** What a descriptor points to: [&disk.ops[i]], [bufs[b].data],
    [&disk.info[i].status]. *)
Inductive dma := DNull | DOps (i : nat) | DData (b : nat) | DStatus (i : nat).

Record virtq_desc := mk_desc { d_addr : dma; d_len : Z; d_flags : Z; d_next : Z }.
Definition zero_desc : virtq_desc := mk_desc DNull 0 0 0.
#[export] Instance desc_eta : Settable virtq_desc := λ d, mk_desc (d_addr d) (d_len d) (d_flags d) (d_next d).
#[export] Instance desc_inhabited : Inhabited virtq_desc := populate zero_desc.

Record virtio_blk_req := mk_req { rq_type : Z; rq_reserved : Z; rq_sector : Z }.
#[export] Instance req_inhabited : Inhabited virtio_blk_req := populate (mk_req 0 0 0).

(** The fields of [struct buf] the driver uses. *)
Record vbuf := mk_vbuf { vb_blockno : Z; vb_data : list Z; vb_disk : bool }.
#[export] Instance vbuf_eta : Settable vbuf := λ b, mk_vbuf (vb_blockno b) (vb_data b) (vb_disk b).
#[export] Instance vbuf_inhabited : Inhabited vbuf := populate (mk_vbuf 0 [] false).

(** [&disk.free[0]] and the buffer. *)
Inductive vchan := ChFree | ChBuf (b : nat).
#[export] Instance vchan_eq_dec : EqDecision vchan.
Proof. solve_decision. Defined.

(** [struct disk], the rings and the buffers; the calls that sleep, named by
    the buffer they work on, with their channels; then what belongs to the
    device: its sectors, whether it was notified and has not seen the available
    ring empty since, how far it has read that ring, the heads it has taken,
    the heads it has performed and not yet reported, and its interrupt status
    register. *)
Record vsys := mk_vsys {
  v_desc : list virtq_desc;
  v_avail_idx : Z;
  v_avail : list Z;
  v_used_ix : Z;          (* disk.used->idx *)
  v_used : list Z;        (* disk.used->ring[].id *)
  v_free : list bool;
  v_used_idx : Z;         (* disk.used_idx *)
  v_info_b : list (option nat);
  v_status : list Z;
  v_ops : list virtio_blk_req;
  v_bufs : list vbuf;
  v_sleep : gmap nat vchan;
  v_sectors : gmap Z (list Z);
  v_notified : bool;
  v_taken_ix : Z;
  v_pending : list Z;
  v_performed : list Z;
  v_isr : Z
}.
#[export] Instance vsys_eta : Settable vsys := λ s,
  mk_vsys (v_desc s) (v_avail_idx s) (v_avail s) (v_used_ix s) (v_used s) (v_free s) (v_used_idx s) (v_info_b s)
    (v_status s) (v_ops s) (v_bufs s) (v_sleep s) (v_sectors s) (v_notified s) (v_taken_ix s) (v_pending s) (v_performed s) (v_isr s).

Definition u16idx (x : Z) : nat := Z.to_nat (x mod Z.of_nat NUM).

(** ** The driver *)

Definition vget {A} (f : vsys → A) : M vsys A := gets f.
Definition set_desc (i : nat) (f : virtq_desc → virtq_desc) : M vsys unit :=
  modify (λ s : vsys, s <| v_desc := alter f i (v_desc s) |>).
(** The process in the call on [b] sleeps; every process that sleeps on [c]
    becomes runnable. *)
Definition vsleep (b : nat) (c : vchan) : M vsys unit := modify (λ s : vsys, s <| v_sleep := <[b := c]> (v_sleep s) |>).
Definition vwakeup (c : vchan) : M vsys unit := modify (λ s : vsys, s <| v_sleep := filter (λ x, x.2 ≠ c) (v_sleep s) |>).
(** [*R(VIRTIO_MMIO_QUEUE_NOTIFY) = queue;] the device has queue 0 only. *)
Definition queue_notify (queue : Z) : M vsys unit :=
  if queue =? 0 then modify (λ s : vsys, s <| v_notified := true |>) else ret tt.

Definition try_desc (i : nat) : M vsys (option nat) :=
  let! f := vget (λ s, v_free s !!! i : bool) in
  if f then
    do! modify (λ s : vsys, s <| v_free := <[i := false]> (v_free s) |>) in
    ret (Some i)
  else ret None.
(** [None] is -1. *)
Definition alloc_desc : M vsys (option nat) := for_until (seq 0 NUM) try_desc.

Definition free_desc (i : nat) : M vsys unit :=
  if (NUM <=? i)%nat then panic "free_desc 1" else
  let! f := vget (λ s, v_free s !!! i : bool) in
  if f then panic "free_desc 2" else
  do! set_desc i (λ d, d <| d_addr := DNull |>) in
  do! set_desc i (λ d, d <| d_len := 0 |>) in
  do! set_desc i (λ d, d <| d_flags := 0 |>) in
  do! set_desc i (λ d, d <| d_next := 0 |>) in
  do! modify (λ s : vsys, s <| v_free := <[i := true]> (v_free s) |>) in
  vwakeup ChFree.

Fixpoint free_chain (fuel : nat) (i : nat) : M vsys unit :=
  match fuel with
  | O => λ s, NoFuel s
  | S fuel' =>
      let! d := vget (λ s, v_desc s !!! i) in
      do! free_desc i in
      if negb (Z.land (d_flags d) VRING_DESC_F_NEXT =? 0) then free_chain fuel' (Z.to_nat (d_next d))
      else ret tt
  end.

Definition alloc3_desc : M vsys (option (nat * nat * nat)) :=
  let! i0 := alloc_desc in
  match i0 with
  | None => ret None
  | Some i0 =>
      let! i1 := alloc_desc in
      match i1 with
      | None => do! free_desc i0 in ret None
      | Some i1 =>
          let! i2 := alloc_desc in
          match i2 with
          | None => do! free_desc i0 in do! free_desc i1 in ret None
          | Some i2 => ret (Some (i0, i1, i2))
          end
      end
  end.

(** [virtio_disk_rw] from the allocation of the descriptors to the wait for
    the device. *)
Definition rw_submit (b : nat) (write : bool) (idx : nat * nat * nat) : M vsys unit :=
  let '(i0, i1, i2) := idx in
  let! x := vget (λ s, v_bufs s !!! b) in
  let sector := u32 (vb_blockno x * (BSIZE / 512)) in
  do! modify (λ s : vsys, s <| v_ops := <[i0 := mk_req (if write then VIRTIO_BLK_T_OUT else VIRTIO_BLK_T_IN) 0 sector]> (v_ops s) |>) in
  do! set_desc i0 (λ d, d <| d_addr := DOps i0 |>) in
  do! set_desc i0 (λ d, d <| d_len := 16 |>) in
  do! set_desc i0 (λ d, d <| d_flags := VRING_DESC_F_NEXT |>) in
  do! set_desc i0 (λ d, d <| d_next := Z.of_nat i1 |>) in
  do! set_desc i1 (λ d, d <| d_addr := DData b |>) in
  do! set_desc i1 (λ d, d <| d_len := BSIZE |>) in
  do! set_desc i1 (λ d, d <| d_flags := if write then 0 else VRING_DESC_F_WRITE |>) in
  do! set_desc i1 (λ d, d <| d_flags := Z.lor (d_flags d) VRING_DESC_F_NEXT |>) in
  do! set_desc i1 (λ d, d <| d_next := Z.of_nat i2 |>) in
  do! modify (λ s : vsys, s <| v_status := <[i0 := 0xff]> (v_status s) |>) in
  do! set_desc i2 (λ d, d <| d_addr := DStatus i0 |>) in
  do! set_desc i2 (λ d, d <| d_len := 1 |>) in
  do! set_desc i2 (λ d, d <| d_flags := VRING_DESC_F_WRITE |>) in
  do! set_desc i2 (λ d, d <| d_next := 0 |>) in
  do! modify (λ s : vsys, s <| v_bufs := alter (λ x, x <| vb_disk := true |>) b (v_bufs s) |>) in
  do! modify (λ s : vsys, s <| v_info_b := <[i0 := Some b]> (v_info_b s) |>) in
  do! modify (λ s : vsys, s <| v_avail := <[u16idx (v_avail_idx s) := Z.of_nat i0]> (v_avail s) |>) in
  do! modify (λ s : vsys, s <| v_avail_idx := u16 (v_avail_idx s + 1) |>) in
  queue_notify 0.

(** What follows the wait. *)
Definition rw_finish (i0 : nat) : M vsys unit :=
  do! modify (λ s : vsys, s <| v_info_b := <[i0 := None]> (v_info_b s) |>) in
  free_chain NUM i0.

(** Where a call is when it lets go of [vdisk_lock]: asleep until descriptors
    are free, asleep until the device is done with the chain headed by
    [idx[0]], or back in its caller. *)
Inductive rw_state := WaitDesc | WaitDevice (i0 : nat) | Returned.

(** [while(b->disk == 1)] and the rest of the call. *)
Definition rw_wait (b : nat) (i0 : nat) : M vsys rw_state :=
  let! busy := vget (λ s, vb_disk (v_bufs s !!! b)) in
  if busy then do! vsleep b (ChBuf b) in ret (WaitDevice i0)
  else do! rw_finish i0 in ret Returned.

(** A turn of the loop that allocates the descriptors, and the call from
    there. *)
Definition virtio_disk_rw (b : nat) (write : bool) : M vsys rw_state :=
  let! r := alloc3_desc in
  match r with
  | None => do! vsleep b ChFree in ret WaitDesc
  | Some idx => do! rw_submit b write idx in rw_wait b idx.1.1
  end.

(** [*R(VIRTIO_MMIO_INTERRUPT_ACK) = *R(VIRTIO_MMIO_INTERRUPT_STATUS) & 0x3;]
    the device clears the bits acknowledged. *)
Definition intr_ack : M vsys unit :=
  modify (λ s : vsys, s <| v_isr := Z.land (v_isr s) (Z.lnot (Z.land (v_isr s) 0x3)) |>).

(** One turn of [while(disk.used_idx != disk.used->idx)]. *)
Definition intr_one : M vsys unit :=
  let! s := vget (λ s, s) in
  let id := Z.to_nat (v_used s !!! u16idx (v_used_idx s)) in
  if negb (v_status s !!! id =? 0) then panic "virtio_disk_intr status" else
  match v_info_b s !!! id with
  | None => panic "undefined: null pointer"
  | Some b =>
      do! modify (λ s : vsys, s <| v_bufs := alter (λ x, x <| vb_disk := false |>) b (v_bufs s) |>) in
      do! vwakeup (ChBuf b) in
      modify (λ s : vsys, s <| v_used_idx := u16 (v_used_idx s + 1) |>)
  end.

Fixpoint intr_loop (fuel : nat) : M vsys unit :=
  match fuel with
  | O => λ s, NoFuel s
  | S fuel' =>
      let! s := vget (λ s, s) in
      if v_used_idx s =? v_used_ix s then ret tt else
      do! intr_one in intr_loop fuel'
  end.

Definition virtio_disk_intr : M vsys unit :=
  do! intr_ack in intr_loop (S NUM).
