(* ===== verification/VirtioSpec.v ===== *)
(** * The disk driver: its device, its specification and its invariant

    [virtio_spec] is the behaviour of a virtio block device the driver relies
    on (virtio 1.1, sections 2.6 and 5.2): it takes chain heads from the
    available ring, performs the requests it has taken in any order, with
    success or with an error status, and reports the heads in the used ring.
    [virtio_duty] is what the device must do sooner or later: take what is
    available once it was notified, perform what it has taken, report what it
    has performed. [dstep] interleaves such a device with the critical sections
    of the driver and the sleep and wakeup of the calls. [areplay] is what a disk without rings would do with the same
    events. *)

From stdpp Require Import gmap.
From S2P Require Import Prelude.
From S2P Require Import Machine.
From S2P Require Import Bio.
From S2P Require Import Virtio.
#[local] Open Scope Z_scope.

(** ** The device *)

(** A request as the descriptors describe it. *)
Record request := mk_request { q_write : bool; q_sector : Z; q_buf : nat; q_status : nat }.

Definition has_flag (d : virtq_desc) (f : Z) : bool := negb (Z.land (d_flags d) f =? 0).

(** The chain at [head]: a header, the data and the status byte; [None] for a
    chain the device does not accept. *)
Definition dev_chain (s : vsys) (head : Z) : option request :=
  let d0 := v_desc s !!! Z.to_nat head in
  let d1 := v_desc s !!! Z.to_nat (d_next d0) in
  let d2 := v_desc s !!! Z.to_nat (d_next d1) in
  match d_addr d0, d_addr d1, d_addr d2 with
  | DOps i, DData b, DStatus j =>
      let q := v_ops s !!! i in
      let out := rq_type q =? VIRTIO_BLK_T_OUT in
      if has_flag d0 VRING_DESC_F_NEXT && has_flag d1 VRING_DESC_F_NEXT && negb (has_flag d2 VRING_DESC_F_NEXT)
         && (d_len d0 =? 16) && (d_len d1 =? BSIZE) && (d_len d2 =? 1)
         && negb (has_flag d0 VRING_DESC_F_WRITE) && Bool.eqb (has_flag d1 VRING_DESC_F_WRITE) (negb out)
         && has_flag d2 VRING_DESC_F_WRITE && (out || (rq_type q =? VIRTIO_BLK_T_IN))
      then Some (mk_request out (rq_sector q) b j)
      else None
  | _, _, _ => None
  end.

(** A transfer moves two sectors of 512 bytes. *)
Definition sector_at (m : gmap Z (list Z)) (n : Z) : list Z := default (replicate 512 0) (m !! n).
Definition dev_transfer (q : request) (s : vsys) : vsys :=
  if q_write q then
    let d := vb_data (v_bufs s !!! q_buf q) in
    s <| v_sectors := <[q_sector q := take 512 d]> (<[q_sector q + 1 := drop 512 d]> (v_sectors s)) |>
  else
    let d := sector_at (v_sectors s) (q_sector q) ++ sector_at (v_sectors s) (q_sector q + 1) in
    s <| v_bufs := alter (λ x : vbuf, x <| vb_data := d |>) (q_buf q) (v_bufs s) |>.

(** Status 0 is success; an error status comes without a transfer. *)
Definition dev_perform (k : nat) (head : Z) (q : request) (st : Z) (s : vsys) : vsys :=
  let s := if st =? 0 then dev_transfer q s else s in
  s <| v_status := <[q_status q := st]> (v_status s) |>
    <| v_pending := delete k (v_pending s) |>
    <| v_performed := v_performed s ++ [head] |>.
Definition dev_report (k : nat) (head : Z) (s : vsys) : vsys :=
  s <| v_used := <[u16idx (v_used_ix s) := head]> (v_used s) |>
    <| v_used_ix := u16 (v_used_ix s + 1) |>
    <| v_performed := delete k (v_performed s) |>
    <| v_isr := Z.lor (v_isr s) 1 |>.
Definition dev_take (s : vsys) : vsys :=
  s <| v_pending := v_pending s ++ [v_avail s !!! u16idx (v_taken_ix s)] |> <| v_taken_ix := u16 (v_taken_ix s + 1) |>.

Inductive dlabel := DTake | DPerform (q : request) (st : Z) | DReport | DIdle.

Inductive virtio_spec : vsys → dlabel → vsys → Prop :=
| spec_take s : v_taken_ix s ≠ v_avail_idx s → virtio_spec s DTake (dev_take s)
| spec_idle s : v_taken_ix s = v_avail_idx s → virtio_spec s DIdle (s <| v_notified := false |>)
| spec_perform s k head q st :
    v_pending s !! k = Some head → dev_chain s head = Some q →
    virtio_spec s (DPerform q st) (dev_perform k head q st s)
| spec_report s k head :
    v_performed s !! k = Some head → virtio_spec s DReport (dev_report k head s).

(** A device may look at the available ring at any time, but has to only when
    it was notified since it last saw it empty. *)
Inductive virtio_duty : vsys → dlabel → vsys → Prop :=
| duty_take s : v_notified s = true → v_taken_ix s ≠ v_avail_idx s → virtio_duty s DTake (dev_take s)
| duty_perform s k head q :
    v_pending s !! k = Some head → dev_chain s head = Some q →
    virtio_duty s (DPerform q 0) (dev_perform k head q 0 s)
| duty_report s k head :
    v_performed s !! k = Some head → virtio_duty s DReport (dev_report k head s).

(** ** Driver and device together *)

(** [d_calls] has the calls of [virtio_disk_rw] that wait for the device, from
    their buffer to the head they keep in [idx[0]], [d_wait] those that wait
    for descriptors, with their direction; [d_intr] tells that the interrupt
    handler holds [vdisk_lock]. *)
Record dsys := mk_dsys { d_sys : vsys; d_calls : gmap nat nat; d_wait : gmap nat bool; d_intr : bool }.

Inductive vlabel :=
| LClient (b : nat) (n : Z) (d : list Z)   (* the holder of [b] sets its block number and data *)
| LWait (b : nat)                          (* no descriptors for the call on [b] *)
| LSubmit (b : nat) (w : bool)
| LTransfer (b : nat) (w : bool)
| LFinish (b : nat)
| LKill (b : nat)                          (* [kill] makes the process of the call runnable *)
| LOther.

Definition device_label (l : dlabel) : vlabel :=
  match l with
  | DPerform q st => if st =? 0 then LTransfer (q_buf q) (q_write q) else LOther
  | _ => LOther
  end.

Section system.
Variable device : vsys → dlabel → vsys → Prop.

(** A buffer is used by one process at a time: its sleep lock is held. A call
    starts, or goes on after its wait for descriptors, when its process does
    not sleep. *)
Definition may_call (s : dsys) (b : nat) (w : bool) : Prop :=
  d_intr s = false ∧ d_calls s !! b = None ∧ default w (d_wait s !! b) = w ∧ v_sleep (d_sys s) !! b = None ∧
  (b < length (v_bufs (d_sys s)))%nat.
Definition may_return (s : dsys) (b i0 : nat) : Prop :=
  d_intr s = false ∧ d_calls s !! b = Some i0 ∧ v_sleep (d_sys s) !! b = None.

Inductive dstep : dsys → vlabel → dsys → Prop :=
| step_client s b n d :
    d_calls s !! b = None → d_wait s !! b = None → 0 ≤ n < 2 ^ 31 → length d = Z.to_nat BSIZE →
    dstep s (LClient b n d)
      (mk_dsys ((d_sys s) <| v_bufs := alter (λ x : vbuf, x <| vb_blockno := n |> <| vb_data := d |>) b (v_bufs (d_sys s)) |>)
         (d_calls s) (d_wait s) (d_intr s))
| step_submit s b w i0 v :
    may_call s b w → virtio_disk_rw b w (d_sys s) = Ret (WaitDevice i0) v →
    dstep s (LSubmit b w) (mk_dsys v (<[b := i0]> (d_calls s)) (delete b (d_wait s)) false)
| step_full s b w v :
    may_call s b w → virtio_disk_rw b w (d_sys s) = Ret WaitDesc v →
    dstep s (LWait b) (mk_dsys v (d_calls s) (<[b := w]> (d_wait s)) false)
| step_finish s b i0 v :
    may_return s b i0 → rw_wait b i0 (d_sys s) = Ret Returned v →
    dstep s (LFinish b) (mk_dsys v (delete b (d_calls s)) (d_wait s) false)
| step_again s b i0 v :
    may_return s b i0 → rw_wait b i0 (d_sys s) = Ret (WaitDevice i0) v →
    dstep s LOther (mk_dsys v (d_calls s) (d_wait s) false)
| step_kill s b :
    dstep s (LKill b) (mk_dsys ((d_sys s) <| v_sleep := delete b (v_sleep (d_sys s)) |>) (d_calls s) (d_wait s) (d_intr s))
| step_ack s v :
    d_intr s = false → v_isr (d_sys s) ≠ 0 → intr_ack (d_sys s) = Ret tt v →
    dstep s LOther (mk_dsys v (d_calls s) (d_wait s) true)
| step_one s v :
    d_intr s = true → v_used_idx (d_sys s) ≠ v_used_ix (d_sys s) → intr_one (d_sys s) = Ret tt v →
    dstep s LOther (mk_dsys v (d_calls s) (d_wait s) true)
| step_end s :
    d_intr s = true → v_used_idx (d_sys s) = v_used_ix (d_sys s) →
    dstep s LOther (mk_dsys (d_sys s) (d_calls s) (d_wait s) false)
| step_device s l v :
    device (d_sys s) l v → dstep s (device_label l) (mk_dsys v (d_calls s) (d_wait s) (d_intr s)).

Inductive dsteps (s0 : dsys) : list vlabel → dsys → Prop :=
| dsteps_nil : dsteps s0 [] s0
| dsteps_snoc tr l s s' : dsteps s0 tr s → dstep s l s' → dsteps s0 (tr ++ [l]) s'.
End system.

(** ** The disk without rings *)

Inductive phase := Idle | Waiting (w : bool) | Served.
Record adisk := mk_adisk { a_block : Z → list Z; a_no : nat → Z; a_data : nat → list Z; a_phase : nat → phase }.

Definition at_buf {A} (b : nat) (x : A) (f : nat → A) : nat → A := λ i, if decide (i = b) then x else f i.
Definition at_block (n : Z) (d : list Z) (f : Z → list Z) : Z → list Z := λ i, if decide (i = n) then d else f i.

(** Idle, submitted, transferred, returned: [None] is an event the phase of
    the buffer does not allow. *)
Definition aapply (nb : nat) (l : vlabel) (a : adisk) : option adisk :=
  match l with
  | LClient b n d =>
      match a_phase a b with
      | Idle => if decide (b < nb)%nat then Some (mk_adisk (a_block a) (at_buf b n (a_no a)) (at_buf b d (a_data a)) (a_phase a))
                else Some a
      | _ => None
      end
  | LSubmit b w =>
      match a_phase a b with
      | Idle => Some (mk_adisk (a_block a) (a_no a) (a_data a) (at_buf b (Waiting w) (a_phase a)))
      | _ => None
      end
  | LTransfer b w =>
      match a_phase a b with
      | Waiting w' =>
          if Bool.eqb w w' then
            Some (if w then mk_adisk (at_block (a_no a b) (a_data a b) (a_block a)) (a_no a) (a_data a) (at_buf b Served (a_phase a))
                  else mk_adisk (a_block a) (a_no a) (at_buf b (a_block a (a_no a b)) (a_data a)) (at_buf b Served (a_phase a)))
          else None
      | _ => None
      end
  | LFinish b =>
      match a_phase a b with
      | Served => Some (mk_adisk (a_block a) (a_no a) (a_data a) (at_buf b Idle (a_phase a)))
      | _ => None
      end
  | LWait b => match a_phase a b with Idle => Some a | _ => None end
  | LKill _ | LOther => Some a
  end.
Definition areplay (nb : nat) (tr : list vlabel) (a : adisk) : option adisk :=
  foldl (λ o l, o ≫= aapply nb l) (Some a) tr.

(** Block [n] is sectors [2n] and [2n+1]. *)
Definition vblock (s : vsys) (n : Z) : list Z := sector_at (v_sectors s) (2 * n) ++ sector_at (v_sectors s) (2 * n + 1).
Definition vdata (s : vsys) (b : nat) : list Z := vb_data (v_bufs s !!! b).
Definition abstraction (s : dsys) : adisk :=
  mk_adisk (vblock (d_sys s)) (λ b, vb_blockno (v_bufs (d_sys s) !!! b)) (vdata (d_sys s)) (λ _, Idle).

Record agrees (s : dsys) (a : adisk) : Prop := {
  ag_block : ∀ n, vblock (d_sys s) n = a_block a n;
  ag_no : ∀ b, vb_blockno (v_bufs (d_sys s) !!! b) = a_no a b;
  ag_data : ∀ b, vdata (d_sys s) b = a_data a b;
  ag_phase : ∀ b, d_calls s !! b = None ↔ a_phase a b = Idle
}.

(** After [virtio_disk_init] and before any call: the rings are zeroed pages,
    all descriptors free, no call waits or sleeps, the device has taken
    nothing. *)
Definition zero_desc_table : list virtq_desc := replicate NUM zero_desc.
Record disk_ready (s : dsys) : Prop := {
  dr_desc : v_desc (d_sys s) = zero_desc_table;
  dr_avail : v_avail_idx (d_sys s) = 0 ∧ v_avail (d_sys s) = replicate NUM 0 ∧ v_taken_ix (d_sys s) = 0;
  dr_used : v_used_ix (d_sys s) = 0 ∧ v_used (d_sys s) = replicate NUM 0 ∧ v_used_idx (d_sys s) = 0;
  dr_free : v_free (d_sys s) = replicate NUM true;
  dr_info : v_info_b (d_sys s) = replicate NUM None ∧ length (v_status (d_sys s)) = NUM ∧ length (v_ops (d_sys s)) = NUM;
  dr_dev : v_pending (d_sys s) = [] ∧ v_performed (d_sys s) = [];
  dr_calls : d_calls s = ∅ ∧ d_intr s = false;
  dr_sleep : d_wait s = ∅ ∧ v_sleep (d_sys s) = ∅;
  dr_bufs : Forall (λ x, 0 ≤ vb_blockno x < 2 ^ 31 ∧ length (vb_data x) = Z.to_nat BSIZE) (v_bufs (d_sys s));
  dr_sectors : map_Forall (λ _ d, length d = 512%nat) (v_sectors (d_sys s))
}.
