(* ===== verification/VirtioInv.v ===== *)
(** * The disk driver: rings, descriptors and the invariant

    Every request in flight owns three descriptors. It is queued in the
    available ring, taken or performed by the device, reported in the used
    ring, or acknowledged by the interrupt handler. *)

From stdpp Require Import gmap.
From S2P Require Import Prelude.
From S2P Require Import Machine.
From S2P Require Import Bio.
From S2P Require Import Virtio.
From S2P Require Import VirtioSpec.
#[local] Open Scope Z_scope.

(** ** Rings *)

(** The entries from index [from] up to index [to] of a ring, indices counted
    modulo 2^16. *)
Definition ring (l : list Z) (from to : Z) (hs : list nat) : Prop :=
  to = u16 (from + Z.of_nat (length hs)) ∧
  ∀ k h, hs !! k = Some h → l !!! u16idx (from + Z.of_nat k) = Z.of_nat h.

Lemma u16idx_u16 x : u16idx (u16 x) = u16idx x.
Proof. unfold u16idx, u16, NUM. f_equal. dlia. Qed.
Lemma u16idx_lt x : (u16idx x < NUM)%nat.
Proof. unfold u16idx, NUM. dlia. Qed.
Lemma u16_add x y : u16 (u16 x + y) = u16 (x + y).
Proof. unfold u16. dlia. Qed.
Lemma u16_range x : 0 ≤ u16 x < 2 ^ 16.
Proof. apply Z.mod_pos_bound. lia. Qed.
Lemma u16idx_add_u16 x y : u16idx (u16 x + y) = u16idx (x + y).
Proof. rewrite <- (u16idx_u16 (u16 x + y)), u16_add. apply u16idx_u16. Qed.
Lemma u16idx_ne x j k : (j < k)%nat → (k - j < NUM)%nat → u16idx (x + Z.of_nat j) ≠ u16idx (x + Z.of_nat k).
Proof. unfold u16idx, NUM. intros. dlia. Qed.

Lemma ring_nil l i : 0 ≤ i < 2 ^ 16 → ring l i i [].
Proof. intros. split; [|done]. simpl. rewrite Z.add_0_r. unfold u16. by rewrite Z.mod_small. Qed.

Lemma ring_empty l from to hs :
  0 ≤ from < 2 ^ 16 → Z.of_nat (length hs) < 2 ^ 16 → ring l from to hs → from = to ↔ hs = [].
Proof.
  intros Hf Hl [-> _]. split; [|intros ->; simpl; unfold u16; rewrite Z.mod_small; lia].
  destruct hs; [done|]. intros E. exfalso. revert E Hl. simpl length. unfold u16.
  intros E Hl. change (2 ^ 16) with 65536 in *. dlia.
Qed.

Lemma ring_push l from to hs h :
  length l = NUM → (length hs < NUM)%nat → ring l from to hs →
  ring (<[u16idx to := Z.of_nat h]> l) from (u16 (to + 1)) (hs ++ [h]).
Proof.
  intros Hl Hn [-> Hr]. split.
  - rewrite u16_add, length_app. simpl. f_equal. lia.
  - intros k x [Hk|[Hk [He <-]%list_lookup_singleton_Some]]%lookup_app_Some.
    + pose proof (lookup_lt_Some _ _ _ Hk). rewrite list_lookup_total_insert_ne; [by apply Hr|].
      rewrite u16idx_u16. apply not_eq_sym, u16idx_ne; lia.
    + replace k with (length hs) by lia. rewrite u16idx_u16.
      apply list_lookup_total_insert_eq. rewrite Hl. apply u16idx_lt.
Qed.

Lemma ring_pop l from to h hs :
  ring l from to (h :: hs) → l !!! u16idx from = Z.of_nat h ∧ ring l (u16 (from + 1)) to hs.
Proof.
  intros [-> Hr]. split; [|split].
  - specialize (Hr 0%nat h eq_refl). by rewrite Z.add_0_r in Hr.
  - rewrite u16_add. f_equal. simpl. lia.
  - intros k x Hk. rewrite u16idx_add_u16, <- (Hr (S k) x Hk). do 2 f_equal. lia.
Qed.

(** ** Requests in flight *)

Record req := mk_rq { r0 : nat; r1 : nat; r2 : nat; rb : nat; rw : bool }.
Definition descs (r : req) : list nat := [r0 r; r1 r; r2 r].
Definition owned (l : list req) : list nat := l ≫= descs.

(** The descriptors, command header and bookkeeping [rw_submit] writes. *)
Record chain_ok (v : vsys) (r : req) : Prop := {
  ch_d0 : v_desc v !!! r0 r = mk_desc (DOps (r0 r)) 16 VRING_DESC_F_NEXT (Z.of_nat (r1 r));
  ch_d1 : v_desc v !!! r1 r = mk_desc (DData (rb r)) BSIZE (Z.lor (if rw r then 0 else VRING_DESC_F_WRITE) VRING_DESC_F_NEXT) (Z.of_nat (r2 r));
  ch_d2 : v_desc v !!! r2 r = mk_desc (DStatus (r0 r)) 1 VRING_DESC_F_WRITE 0;
  ch_op : v_ops v !!! r0 r = mk_req (if rw r then VIRTIO_BLK_T_OUT else VIRTIO_BLK_T_IN) 0 (2 * vb_blockno (v_bufs v !!! rb r));
  ch_info : v_info_b v !!! r0 r = Some (rb r)
}.

Record core (v : vsys) (calls : gmap nat nat) (l : list req) : Prop := {
  co_len : length (v_desc v) = NUM ∧ length (v_free v) = NUM ∧ length (v_ops v) = NUM ∧ length (v_info_b v) = NUM;
  co_nodup : NoDup (owned l);
  co_lt : Forall (λ i, i < NUM)%nat (owned l);
  co_free : ∀ i, (i < NUM)%nat → v_free v !!! i = true ↔ i ∉ owned l;
  co_bufs : NoDup (rb <$> l);
  co_in : Forall (λ r, rb r < length (v_bufs v))%nat l;
  co_calls : ∀ b i, calls !! b = Some i ↔ ∃ r, r ∈ l ∧ rb r = b ∧ r0 r = i;
  co_chain : Forall (chain_ok v) l
}.

#[export] Instance owned_perm : Proper ((≡ₚ) ==> (≡ₚ)) owned.
Proof. intros l l' H. unfold owned. by rewrite H. Qed.

Lemma core_perm v calls l l' : l ≡ₚ l' → core v calls l → core v calls l'.
Proof.
  intros Hp [H1 H2 H3 H4 H5 H6 H7 H8]. split.
  - done.
  - by rewrite <- Hp.
  - by rewrite <- Hp.
  - intros i Hi. rewrite <- Hp. auto.
  - by rewrite <- Hp.
  - by rewrite <- Hp.
  - intros b i. rewrite H7. by setoid_rewrite Hp.
  - by rewrite <- Hp.
Qed.

Lemma owned_length l : length (owned l) = (3 * length l)%nat.
Proof. induction l; simpl; [done|]. unfold owned in *. lia. Qed.

Lemma owned_in l r i : r ∈ l → i ∈ descs r → i ∈ owned l.
Proof. intros. apply list_elem_of_bind. by exists r. Qed.

(** Eight descriptors serve at most two requests. *)
Lemma core_length v calls l : core v calls l → (length l ≤ 2)%nat.
Proof.
  intros H. assert (length (owned l) ≤ length (seq 0 NUM))%nat as Hl.
  { apply submseteq_length, NoDup_submseteq; [apply H|]. intros i Hi.
    pose proof (co_lt _ _ _ H) as Hf. rewrite Forall_forall in Hf. apply elem_of_seq. specialize (Hf i Hi). lia. }
  rewrite owned_length, length_seq in Hl. unfold NUM in Hl. lia.
Qed.

Lemma core_none v calls l b : core v calls l → calls !! b = None ↔ b ∉ rb <$> l.
Proof.
  intros H. rewrite eq_None_not_Some. split; intros Hn Hb; apply Hn.
  - apply list_elem_of_fmap in Hb as (r & -> & Hr). eexists. apply (co_calls _ _ _ H). by exists r.
  - destruct Hb as [i (r & Hr & <- & _)%(co_calls _ _ _ H)]. by apply list_elem_of_fmap_2.
Qed.

(** What the invariant reads of the state. *)
Definition same_core (l : list req) (v v' : vsys) : Prop :=
  v_desc v' = v_desc v ∧ v_free v' = v_free v ∧ v_ops v' = v_ops v ∧ v_info_b v' = v_info_b v ∧
  length (v_bufs v') = length (v_bufs v) ∧ ∀ r, r ∈ l → vb_blockno (v_bufs v' !!! rb r) = vb_blockno (v_bufs v !!! rb r).

Lemma core_frame v v' calls l : same_core l v v' → core v calls l → core v' calls l.
Proof.
  intros (E1 & E2 & E3 & E4 & E5 & E6) [H1 H2 H3 H4 H5 H6 H7 H8].
  split; rewrite ?E1, ?E2, ?E3, ?E4, ?E5; try done.
  rewrite Forall_forall in H8 |- *. intros r Hr. destruct (H8 r Hr). split; rewrite ?E1, ?E3, ?E4, ?E6; done.
Qed.

(** ** The invariant *)

(** The queued, taken, performed, reported and acknowledged requests, with the
    phases they are in. Performed and reported requests have their status. *)
Definition status_phase (x : req * Z) : phase := if x.2 =? 0 then Served else Waiting (rw x.1).
Definition tagged (q p : list req) (d u : list (req * Z)) (a : list req) : list (req * phase) :=
  ((λ r, (r, Waiting (rw r))) <$> q) ++ ((λ r, (r, Waiting (rw r))) <$> p) ++
  ((λ x, (x.1, status_phase x)) <$> d) ++ ((λ x, (x.1, status_phase x)) <$> u) ++ ((λ r, (r, Served)) <$> a).
Definition in_flight (q p : list req) (d u : list (req * Z)) (a : list req) : list req := (tagged q p d u a).*1.

Lemma in_flight_eq q p d u a : in_flight q p d u a = q ++ p ++ d.*1 ++ u.*1 ++ a.
Proof.
  assert (∀ (f : req → phase) l, ((λ r, (r, f r)) <$> l).*1 = l) as Ht.
  { intros f l. rewrite <- list_fmap_compose. apply (list_fmap_id l). }
  assert (∀ l : list (req * Z), ((λ x, (x.1, status_phase x)) <$> l).*1 = l.*1) as Hs.
  { intros l. by rewrite <- list_fmap_compose. }
  unfold in_flight, tagged. by rewrite !fmap_app, !Hs, !Ht.
Qed.

Record vinv (s : dsys) (q p : list req) (d u : list (req * Z)) (a : list req) : Prop := {
  vi_core : core (d_sys s) (d_calls s) (in_flight q p d u a);
  vi_len : length (v_avail (d_sys s)) = NUM ∧ length (v_used (d_sys s)) = NUM ∧ length (v_status (d_sys s)) = NUM;
  vi_ix : 0 ≤ v_taken_ix (d_sys s) < 2 ^ 16 ∧ 0 ≤ v_used_idx (d_sys s) < 2 ^ 16;
  vi_avail : ring (v_avail (d_sys s)) (v_taken_ix (d_sys s)) (v_avail_idx (d_sys s)) (r0 <$> q);
  vi_used : ring (v_used (d_sys s)) (v_used_idx (d_sys s)) (v_used_ix (d_sys s)) (r0 <$> u.*1);
  vi_pending : v_pending (d_sys s) = (λ r, Z.of_nat (r0 r)) <$> p;
  vi_performed : v_performed (d_sys s) = (λ r, Z.of_nat (r0 r)) <$> d.*1;
  vi_status : Forall (λ x, v_status (d_sys s) !!! r0 x.1 = x.2) (d ++ u);
  vi_busy : Forall (λ r, vb_disk (v_bufs (d_sys s) !!! rb r) = true) (q ++ p ++ d.*1 ++ u.*1);
  vi_done : Forall (λ r, vb_disk (v_bufs (d_sys s) !!! rb r) = false) a;
  vi_isr : u = [] ∨ Z.testbit (v_isr (d_sys s)) 0 = true ∨ d_intr s = true;
  vi_bufs : Forall (λ x, 0 ≤ vb_blockno x < 2 ^ 31 ∧ length (vb_data x) = Z.to_nat BSIZE) (v_bufs (d_sys s));
  vi_sectors : map_Forall (λ _ d, length d = 512%nat) (v_sectors (d_sys s))
}.

(** The phase of each buffer is that of its request. *)
Definition phases (T : list (req * phase)) (ph : nat → phase) : Prop :=
  (∀ x, x ∈ T → ph (rb x.1) = x.2) ∧ ∀ b, b ∉ rb <$> T.*1 → ph b = Idle.

Lemma phases_perm T T' ph : T ≡ₚ T' → phases T ph → phases T' ph.
Proof. intros Hp [H1 H2]. split; [|intros b]; setoid_rewrite <- Hp; auto. Qed.

Lemma at_buf_eq {A} b (x : A) f : at_buf b x f b = x.
Proof. unfold at_buf. by rewrite decide_True. Qed.
Lemma at_buf_ne {A} b (x : A) f i : i ≠ b → at_buf b x f i = f i.
Proof. intros. unfold at_buf. by rewrite decide_False. Qed.

Lemma phases_other r (T : list (req * phase)) x : rb r ∉ rb <$> T.*1 → x ∈ T → rb x.1 ≠ rb r.
Proof. intros Hn Hx E. apply Hn. rewrite <- E. by do 2 apply list_elem_of_fmap_2. Qed.

Lemma phases_add r f T ph : rb r ∉ rb <$> T.*1 → phases T ph → phases ((r, f) :: T) (at_buf (rb r) f ph).
Proof.
  intros Hn [H1 H2]. split.
  - intros x [->|Hx]%elem_of_cons; [apply at_buf_eq|]. rewrite at_buf_ne by (by eapply phases_other). auto.
  - intros b. simpl. intros [Hb Hb']%not_elem_of_cons. rewrite at_buf_ne by done. auto.
Qed.

Lemma phases_del r f T ph : rb r ∉ rb <$> T.*1 → phases ((r, f) :: T) ph → phases T (at_buf (rb r) Idle ph).
Proof.
  intros Hn [H1 H2]. split.
  - intros x Hx. rewrite at_buf_ne by (by eapply phases_other). apply H1. by right.
  - intros b Hb. destruct (decide (b = rb r)) as [->|Hne]; [apply at_buf_eq|]. rewrite at_buf_ne by done.
    apply H2. simpl. by apply not_elem_of_cons.
Qed.

Lemma phases_set r f f' T ph : rb r ∉ rb <$> T.*1 → phases ((r, f) :: T) ph → phases ((r, f') :: T) (at_buf (rb r) f' ph).
Proof.
  intros Hn H. split.
  - intros x [->|Hx]%elem_of_cons; [apply at_buf_eq|]. rewrite at_buf_ne by (by eapply phases_other). apply H. by right.
  - intros b. simpl. intros [Hb Hb']%not_elem_of_cons. rewrite at_buf_ne by done. apply H. simpl. by apply not_elem_of_cons.
Qed.

(** ** Moves between the stages *)

Lemma perm_submit q p d u a r : tagged (q ++ [r]) p d u a ≡ₚ (r, Waiting (rw r)) :: tagged q p d u a.
Proof. unfold tagged. rewrite fmap_app, <- app_assoc. simpl. symmetry. apply Permutation_middle. Qed.

Lemma perm_take q p d u a r : tagged (r :: q) p d u a ≡ₚ tagged q (p ++ [r]) d u a.
Proof.
  unfold tagged. rewrite fmap_app, <- app_assoc. simpl. rewrite <- !Permutation_middle. done.
Qed.

Lemma perm_taken q p p' d u a r : p ≡ₚ r :: p' → tagged q p d u a ≡ₚ (r, Waiting (rw r)) :: tagged q p' d u a.
Proof. intros Hp. unfold tagged. rewrite Hp. simpl. symmetry. apply Permutation_middle. Qed.

Lemma perm_performed q p d u a x : tagged q p (d ++ [x]) u a ≡ₚ (x.1, status_phase x) :: tagged q p d u a.
Proof. unfold tagged. rewrite fmap_app, <- app_assoc. simpl. by rewrite <- !Permutation_middle. Qed.

Lemma perm_report q p d d' u a x : d ≡ₚ x :: d' → tagged q p d u a ≡ₚ tagged q p d' (u ++ [x]) a.
Proof. intros Hp. unfold tagged. rewrite Hp, fmap_app, <- app_assoc. simpl. by rewrite <- !Permutation_middle. Qed.

Lemma perm_intr q p d u a r : tagged q p d ((r, 0) :: u) a ≡ₚ tagged q p d u (r :: a).
Proof. unfold tagged. simpl. by rewrite <- !Permutation_middle. Qed.

Lemma perm_done q p d u a a' r : a ≡ₚ r :: a' → tagged q p d u a ≡ₚ (r, Served) :: tagged q p d u a'.
Proof. intros Hp. unfold tagged. rewrite Hp. simpl. by rewrite <- !Permutation_middle. Qed.
