(* ===== verification/VirtioDrv.v ===== *)
(** * The disk driver: what its routines do to the descriptors *)

From stdpp Require Import gmap.
From S2P Require Import Prelude.
From S2P Require Import Machine.
From S2P Require Import Bio.
From S2P Require Import Virtio.
From S2P Require Import VirtioSpec.
From S2P Require Import VirtioInv.
#[local] Open Scope Z_scope.

(** The descriptors in [X] are in use, the others free. *)
Definition in_use (v : vsys) (X : list nat) : Prop :=
  length (v_desc v) = NUM ∧ length (v_free v) = NUM ∧ ∀ i, (i < NUM)%nat → v_free v !!! i = true ↔ i ∉ X.

(** Only the descriptors, the free map and the sleepers differ, the
    descriptors only outside [X], the sleepers by being woken. *)
Definition spares (X : list nat) (v v' : vsys) : Prop :=
  (∃ D F W, v' = v <| v_desc := D |> <| v_free := F |> <| v_sleep := W |> ∧ W ⊆ v_sleep v) ∧
  length (v_desc v') = length (v_desc v) ∧ ∀ i, i ∈ X → v_desc v' !!! i = v_desc v !!! i.

Lemma spares_refl X v : spares X v v.
Proof. split; [|done]. exists (v_desc v), (v_free v), (v_sleep v). by destruct v. Qed.
Lemma spares_trans X v1 v2 v3 : spares X v1 v2 → spares X v2 v3 → spares X v1 v3.
Proof.
  intros [(D1 & F1 & W1 & -> & S1) [H1 H1']] [(D2 & F2 & W2 & -> & S2) [H2 H2']]. split; [|split].
  - exists D2, F2, W2. split; [done|]. by etrans.
  - by rewrite H2.
  - intros i Hi. rewrite H2', H1'; done.
Qed.

Lemma in_use_ext v X Y : (∀ i, i ∈ X ↔ i ∈ Y) → in_use v X → in_use v Y.
Proof. intros E (H1 & H2 & H3). split_and!; [done..|]. intros i Hi. rewrite H3 by done. by rewrite E. Qed.

Lemma try_desc_eq i v :
  try_desc i v = if (v_free v !!! i : bool) then Ret (Some i) (v <| v_free := <[i := false]> (v_free v) |>) else Ret None v.
Proof. unfold try_desc, bind, vget, gets. by destruct (v_free v !!! i). Qed.

Lemma alloc_scan_spec l v :
  (∃ i, i ∈ l ∧ v_free v !!! i = true ∧ for_until l try_desc v = Ret (Some i) (v <| v_free := <[i := false]> (v_free v) |>)) ∨
  (for_until l try_desc v = Ret None v ∧ ∀ i, i ∈ l → v_free v !!! i = false).
Proof.
  induction l as [|x l IH]; [right; split; [done|by intros i ?%elem_of_nil]|]. simpl.
  destruct (v_free v !!! x) eqn:E.
  - left. exists x. split_and!; [left|done|]. erewrite bind_eq; [|by rewrite try_desc_eq, E]. done.
  - erewrite bind_eq; [|by rewrite try_desc_eq, E]. destruct IH as [(i & Hi & Hf & ->)|[Hn Ha]].
    + left. exists i. split_and!; [by right|done|done].
    + right. split; [done|]. intros i [->|Hi]%elem_of_cons; auto.
Qed.

Lemma alloc_desc_spec v X :
  in_use v X →
  (∃ i v', alloc_desc v = Ret (Some i) v' ∧ (i < NUM)%nat ∧ i ∉ X ∧ in_use v' (i :: X) ∧ v_desc v' = v_desc v ∧ spares X v v') ∨
  (alloc_desc v = Ret None v ∧ ∀ i, (i < NUM)%nat → i ∈ X).
Proof.
  intros (H1 & H2 & H3). destruct (alloc_scan_spec (seq 0 NUM) v) as [(i & Hi & Hf & E)|[E Ha]].
  2: { right. split; [done|]. intros i Hi. destruct (decide (i ∈ X)) as [|Hn]; [done|]. apply H3 in Hn; [|done].
       by rewrite (Ha i) in Hn by (apply elem_of_seq; lia). }
  left.
  apply elem_of_seq in Hi. exists i, (v <| v_free := <[i := false]> (v_free v) |>).
  assert (i < NUM)%nat as Hlt by lia. assert (i ∉ X) by (by apply H3). split_and!; try done.
  - split_and!; [done|by simpl; rewrite length_insert|]. simpl. intros j Hj. destruct (decide (i = j)) as [->|Hne].
    + rewrite list_lookup_total_insert_eq by lia. split; [done|]. intros []. left.
    + rewrite list_lookup_total_insert_ne by done. rewrite H3 by done. rewrite not_elem_of_cons. naive_solver.
  - split; [|done]. exists (v_desc v), (<[i := false]> (v_free v)), (v_sleep v). by destruct v.
Qed.

Lemma free_desc_spec v i X Y :
  in_use v X → (i < NUM)%nat → i ∈ X → (∀ j, j ∈ Y ↔ j ∈ X ∧ j ≠ i) →
  ∃ v', free_desc i v = Ret tt v' ∧ in_use v' Y ∧ spares Y v v' ∧ ∀ b, v_sleep v' !! b ≠ Some ChFree.
Proof.
  intros (H1 & H2 & H3) Hi HX HY. unfold free_desc. rewrite (proj2 (Nat.leb_gt _ _) Hi).
  unfold bind at 1. unfold vget, gets. destruct (v_free v !!! i) eqn:E; [by apply H3 in E|].
  eexists. split; [reflexivity|]. split.
  - split_and!; simpl; rewrite ?length_alter, ?length_insert; [done..|]. intros j Hj. rewrite HY.
    destruct (decide (i = j)) as [->|Hne].
    + rewrite list_lookup_total_insert_eq by lia. naive_solver.
    + rewrite list_lookup_total_insert_ne by done. rewrite H3 by done. naive_solver.
  - split; [split; [do 3 eexists; split; [reflexivity|apply map_filter_subseteq]|]|].
    + simpl. rewrite !length_alter. split; [done|]. intros j [_ Hj]%HY. by rewrite !list_lookup_total_alter_ne by done.
    + simpl. intros b [_ []]%map_lookup_filter_Some. done.
Qed.

Ltac elems := intros ?; rewrite ?elem_of_app, ?elem_of_cons, ?elem_of_nil; intuition (subst; congruence || auto).

Lemma spares_mono X Y v v' : (∀ i, i ∈ X → i ∈ Y) → spares Y v v' → spares X v v'.
Proof. intros H (H1 & H2 & H3). split_and!; auto. Qed.

(** With two descriptors besides, all eight are not in use. *)
Lemma descs_left (X Y : list nat) : (length Y ≤ 2)%nat → (∀ i, (i < NUM)%nat → i ∈ Y ++ X) → X ≠ [].
Proof.
  intros Hl Hall ->. assert (seq 0 NUM ⊆+ Y) as Hs%submseteq_length; [|rewrite length_seq in Hs; unfold NUM in Hs; lia].
  apply NoDup_submseteq; [apply NoDup_seq|]. intros i Hi%elem_of_seq. rewrite <- (app_nil_r Y). apply Hall. lia.
Qed.

Lemma alloc3_spec v X :
  in_use v X →
  (∃ i0 i1 i2 v', alloc3_desc v = Ret (Some (i0, i1, i2)) v' ∧ NoDup [i0; i1; i2] ∧
     Forall (λ i, (i < NUM)%nat ∧ i ∉ X) [i0; i1; i2] ∧ in_use v' ([i0; i1; i2] ++ X) ∧ spares X v v') ∨
  (∃ v', alloc3_desc v = Ret None v' ∧ in_use v' X ∧ spares X v v' ∧ X ≠ []).
Proof.
  intros HX. unfold alloc3_desc.
  destruct (alloc_desc_spec v X HX) as [(i0 & v0 & E0 & L0 & N0 & U0 & D0 & S0)|[E0 A0]];
    rewrite (bind_eq _ _ _ _ _ E0).
  2: { right; exists v; split_and!; [done..|apply spares_refl|by apply (descs_left X []); [simpl; lia|]]. }
  destruct (alloc_desc_spec v0 _ U0) as [(i1 & v1 & E1 & L1 & N1 & U1 & D1 & S1)|[E1 A1]]; rewrite (bind_eq _ _ _ _ _ E1).
  2: { destruct (free_desc_spec v0 i0 (i0 :: X) X U0 L0) as (v' & E' & U' & S' & _); [left|elems|].
       right. exists v'. rewrite (bind_eq _ _ _ _ _ E'). split_and!; [done..|by eapply spares_trans|].
       apply (descs_left X [i0]); [simpl; lia|done]. }
  apply not_elem_of_cons in N1 as [N1 N1']. apply (spares_mono X) in S1; [|elems].
  destruct (alloc_desc_spec v1 _ U1) as [(i2 & v2 & E2 & L2 & N2 & U2 & D2 & S2)|[E2 A2]]; rewrite (bind_eq _ _ _ _ _ E2).
  2: { destruct (free_desc_spec v1 i0 _ (i1 :: X) U1 L0) as (v' & E' & U' & S' & _); [right; left|elems|].
       destruct (free_desc_spec v' i1 _ X U' L1) as (v'' & E'' & U'' & S'' & _); [left|elems|].
       right. exists v''. rewrite (bind_eq _ _ _ _ _ E'), (bind_eq _ _ _ _ _ E''). split_and!; [done..| |].
       - apply (spares_mono X) in S'; [|elems]. eauto using spares_trans.
       - apply (descs_left X [i1; i0]); [simpl; lia|done]. }
  apply not_elem_of_cons in N2 as [N2 [N2' N2'']%not_elem_of_cons]. apply (spares_mono X) in S2; [|elems].
  left. exists i0, i1, i2, v2. split_and!; [done| | | |eauto using spares_trans].
  - repeat constructor; rewrite ?list_elem_of_In; simpl; intuition congruence.
  - by rewrite !Forall_cons.
  - eapply in_use_ext; [|exact U2]. elems.
Qed.

(** ** Submission *)

Lemma core_in_use v calls l : core v calls l → in_use v (owned l).
Proof. intros H. split_and!; apply H. Qed.

Lemma core_spares v v' calls l : core v calls l → spares (owned l) v v' → in_use v' (owned l) → core v' calls l.
Proof.
  intros [H1 H2 H3 H4 H5 H6 H7 H8] [(D & F & W & -> & _) [L1 L2]] (U1 & U2 & U3). simpl in *.
  split; simpl; try done; [naive_solver|].
  rewrite Forall_forall in H8 |- *. intros r Hr. destruct (H8 r Hr). split; simpl; try done.
  - rewrite L2; [done|]. eapply owned_in; [exact Hr|left].
  - rewrite L2; [done|]. eapply owned_in; [exact Hr|right; left].
  - rewrite L2; [done|]. eapply owned_in; [exact Hr|right; right; left].
Qed.

Definition submitted (v' v : vsys) (r : req) : Prop :=
  v_avail v' = <[u16idx (v_avail_idx v) := Z.of_nat (r0 r)]> (v_avail v) ∧ v_avail_idx v' = u16 (v_avail_idx v + 1) ∧
  v_used v' = v_used v ∧ v_used_ix v' = v_used_ix v ∧ v_used_idx v' = v_used_idx v ∧ v_taken_ix v' = v_taken_ix v ∧
  v_status v' = <[r0 r := 0xff]> (v_status v) ∧
  v_bufs v' = alter (λ x : vbuf, x <| vb_disk := true |>) (rb r) (v_bufs v) ∧
  v_pending v' = v_pending v ∧ v_performed v' = v_performed v ∧ v_isr v' = v_isr v ∧ v_sectors v' = v_sectors v ∧
  v_notified v' = true ∧ v_sleep v' ⊆ v_sleep v.

(** The descriptor table after [rw_submit], field by field. *)
Definition set_d (i : nat) (a : dma) (len fl nx : Z) (D : list virtq_desc) : list virtq_desc :=
  alter (λ d : virtq_desc, d <| d_next := nx |>) i (alter (λ d : virtq_desc, d <| d_flags := fl |>) i
    (alter (λ d : virtq_desc, d <| d_len := len |>) i (alter (λ d : virtq_desc, d <| d_addr := a |>) i D))).

Lemma rw_submit_eq b w i0 i1 i2 v :
  rw_submit b w (i0, i1, i2) v = Ret tt (v
    <| v_ops := <[i0 := mk_req (if w then VIRTIO_BLK_T_OUT else VIRTIO_BLK_T_IN) 0
         (u32 (vb_blockno (v_bufs v !!! b) * (BSIZE / 512)))]> (v_ops v) |>
    <| v_desc := set_d i2 (DStatus i0) 1 VRING_DESC_F_WRITE 0
         (alter (λ d : virtq_desc, d <| d_next := Z.of_nat i2 |>) i1 (alter (λ d : virtq_desc, d <| d_flags := Z.lor (d_flags d) VRING_DESC_F_NEXT |>) i1
            (alter (λ d : virtq_desc, d <| d_flags := if w then 0 else VRING_DESC_F_WRITE |>) i1
            (alter (λ d : virtq_desc, d <| d_len := BSIZE |>) i1 (alter (λ d : virtq_desc, d <| d_addr := DData b |>) i1
            (set_d i0 (DOps i0) 16 VRING_DESC_F_NEXT (Z.of_nat i1) (v_desc v))))))) |>
    <| v_status := <[i0 := 0xff]> (v_status v) |>
    <| v_bufs := alter (λ x : vbuf, x <| vb_disk := true |>) b (v_bufs v) |>
    <| v_info_b := <[i0 := Some b]> (v_info_b v) |>
    <| v_avail := <[u16idx (v_avail_idx v) := Z.of_nat i0]> (v_avail v) |>
    <| v_avail_idx := u16 (v_avail_idx v + 1) |>
    <| v_notified := true |>).
Proof. destruct v. reflexivity. Qed.

Lemma set_d_in i a len fl nx D : (i < length D)%nat → set_d i a len fl nx D !!! i = mk_desc a len fl nx.
Proof. intros. unfold set_d. by rewrite !list_lookup_total_alter_eq by (rewrite ?length_alter; done). Qed.
Lemma set_d_ne i j a len fl nx D : j ≠ i → set_d i a len fl nx D !!! j = D !!! j.
Proof. intros. unfold set_d. by rewrite !list_lookup_total_alter_ne by done. Qed.
Lemma length_set_d i a len fl nx D : length (set_d i a len fl nx D) = length D.
Proof. unfold set_d. by rewrite !length_alter. Qed.

Lemma rw_submit_chain v r v' :
  NoDup (descs r) → Forall (λ i, i < NUM)%nat (descs r) → length (v_desc v) = NUM → length (v_ops v) = NUM →
  length (v_info_b v) = NUM → (rb r < length (v_bufs v))%nat → 0 ≤ vb_blockno (v_bufs v !!! rb r) < 2 ^ 31 →
  rw_submit (rb r) (rw r) (r0 r, r1 r, r2 r) v = Ret tt v' → chain_ok v' r.
Proof.
  destruct r as [i0 i1 i2 b w]. unfold descs. cbn [r0 r1 r2 rb rw]. rewrite !NoDup_cons, !Forall_cons, !not_elem_of_cons.
  intros ([N01 [N02 _]] & [N12 _] & _) (L0 & L1 & L2 & _) Hd Ho Hi Hb Hn.
  rewrite rw_submit_eq. intros [= <-].
  split; cbn [r0 r1 r2 rb rw]; simpl.
  - rewrite set_d_ne, !list_lookup_total_alter_ne by done. apply set_d_in. lia.
  - rewrite set_d_ne by done. rewrite !list_lookup_total_alter_eq by (rewrite ?length_alter, length_set_d; lia). done.
  - apply set_d_in. rewrite !length_alter, length_set_d. lia.
  - rewrite list_lookup_total_insert_eq by lia. f_equal. rewrite list_lookup_total_alter_eq by done. simpl.
    change (BSIZE / 512) with 2. rewrite u32_small by lia. lia.
  - by rewrite list_lookup_total_insert_eq by lia.
Qed.

Lemma owned_cons r l : owned (r :: l) = descs r ++ owned l.
Proof. done. Qed.
Ltac mem := rewrite ?elem_of_cons; auto.

(** The requests already in flight keep their chains, the new one gets its own. *)
Lemma rw_submit_spec v0 v calls l r :
  core v0 calls l → spares (owned l) v0 v → in_use v (descs r ++ owned l) →
  NoDup (descs r) → Forall (λ i, (i < NUM)%nat ∧ i ∉ owned l) (descs r) →
  rb r ∉ rb <$> l → (rb r < length (v_bufs v0))%nat → 0 ≤ vb_blockno (v_bufs v0 !!! rb r) < 2 ^ 31 →
  ∃ v', rw_submit (rb r) (rw r) (r0 r, r1 r, r2 r) v = Ret tt v' ∧ core v' (<[rb r := r0 r]> calls) (r :: l) ∧ submitted v' v0 r.
Proof.
  intros HC [(D & F & W & -> & HW) [HD HD']] HU HN HF Hb Hlt Hno.
  eexists. split; [apply rw_submit_eq|]. split; [|by split_and!].
  assert (Forall (λ i, i < NUM)%nat (descs r)) as HF1 by (eapply Forall_impl; [exact HF|]; naive_solver).
  destruct HU as (U1 & U2 & U3). simpl in U1, U2.
  destruct HC as [H1 H2 H3 H4 H5 H6 H7 H8].
  assert (∀ x, x ∈ descs r → x ∉ owned l) as Hdis by (rewrite Forall_forall in HF; naive_solver).
  split.
  - simpl. rewrite length_set_d, !length_alter, length_set_d, !length_insert. naive_solver.
  - rewrite owned_cons. by apply NoDup_app.
  - rewrite owned_cons. by apply Forall_app.
  - intros i Hi. rewrite owned_cons. by apply U3.
  - by constructor.
  - simpl. rewrite length_alter. by constructor.
  - intros b i. destruct (decide (rb r = b)) as [<-|Hne].
    + rewrite lookup_insert_eq. split; [intros [= <-]; exists r; split_and!; [left|done..]|].
      intros (r' & [->|Hr]%elem_of_cons & E & <-); [done|]. destruct Hb. rewrite <- E. by apply list_elem_of_fmap_2.
    + rewrite lookup_insert_ne, H7 by done. split; intros (r' & Hr & E & Ei); exists r'; split_and!; try done; [by right|].
      by apply elem_of_cons in Hr as [->|].
  - constructor.
    + eapply rw_submit_chain; [done..| | | | | |apply rw_submit_eq]; simpl; naive_solver.
    + rewrite Forall_forall in H8 |- *. intros r' Hr. destruct (H8 r' Hr).
      assert (∀ i j, i ∈ descs r → j ∈ descs r' → j ≠ i) as Hij.
      { intros i j Hi Hj ->. apply (Hdis i Hi). by eapply owned_in. }
      assert (rb r ≠ rb r') as Hbb by (intros E; apply Hb; rewrite E; by apply list_elem_of_fmap_2).
      assert (∀ j, j ∈ descs r' → j ∈ owned l) as Ho by (intros; by eapply owned_in).
      unfold descs in *. split; simpl.
      1-3: rewrite set_d_ne, !list_lookup_total_alter_ne, set_d_ne by (first [solve [apply Hij; mem] | apply not_eq_sym, Hij; mem]); rewrite HD'; [done|apply Ho; mem].
      * rewrite list_lookup_total_insert_ne by (apply not_eq_sym, Hij; mem). by rewrite list_lookup_total_alter_ne by done.
      * by rewrite list_lookup_total_insert_ne by (apply not_eq_sym, Hij; mem).
Qed.

(** ** Completion *)

Lemma free_chain_unfold n i v v' :
  free_desc i v = Ret tt v' →
  free_chain (S n) i v =
    if has_flag (v_desc v !!! i) VRING_DESC_F_NEXT then free_chain n (Z.to_nat (d_next (v_desc v !!! i))) v' else Ret tt v'.
Proof.
  intros E. simpl. unfold vget, gets. erewrite bind_eq; [|reflexivity]. rewrite (bind_eq _ _ _ _ _ E).
  unfold has_flag. by destruct (negb _).
Qed.

Lemma free_chain_spec v l r n :
  in_use v (descs r ++ l) → NoDup (descs r ++ l) → Forall (λ i, i < NUM)%nat (descs r) →
  v_desc v !!! r0 r = mk_desc (DOps (r0 r)) 16 VRING_DESC_F_NEXT (Z.of_nat (r1 r)) →
  v_desc v !!! r1 r = mk_desc (DData (rb r)) BSIZE (Z.lor (if rw r then 0 else VRING_DESC_F_WRITE) VRING_DESC_F_NEXT) (Z.of_nat (r2 r)) →
  v_desc v !!! r2 r = mk_desc (DStatus (r0 r)) 1 VRING_DESC_F_WRITE 0 →
  ∃ v', free_chain (3 + n) (r0 r) v = Ret tt v' ∧ in_use v' l ∧ spares l v v' ∧ ∀ b, v_sleep v' !! b ≠ Some ChFree.
Proof.
  unfold descs. simpl app. rewrite !NoDup_cons, !Forall_cons, !not_elem_of_cons.
  intros HU ((N01 & N02 & N0) & (N12 & N1) & N2 & _) (L0 & L1 & L2 & _) D0 D1 D2.
  destruct (free_desc_spec v (r0 r) _ (r1 r :: r2 r :: l) HU L0) as (v1 & E1 & U1 & S1 & _); [mem|elems|].
  destruct (free_desc_spec v1 (r1 r) _ (r2 r :: l) U1 L1) as (v2 & E2 & U2 & S2 & _); [mem|elems|].
  destruct (free_desc_spec v2 (r2 r) _ l U2 L2) as (v3 & E3 & U3 & S3 & A3); [mem|elems|].
  exists v3. split; [|split; [done|split; [|done]]].
  - change (3 + n)%nat with (S (S (S n))). rewrite (free_chain_unfold _ _ _ _ E1), D0.
    replace (has_flag _ _) with true by done. cbn [d_next]. rewrite Nat2Z.id.
    rewrite (free_chain_unfold _ _ _ _ E2). rewrite (proj2 (proj2 S1)), D1 by mem.
    replace (has_flag _ _) with true by (by destruct (rw r)). cbn [d_next]. rewrite Nat2Z.id.
    rewrite (free_chain_unfold _ _ _ _ E3). rewrite (proj2 (proj2 S2)), (proj2 (proj2 S1)), D2 by mem. done.
  - eapply spares_trans; [eapply spares_mono; [|exact S1]; elems|].
    eapply spares_trans; [eapply spares_mono; [|exact S2]; elems|done].
Qed.

Definition finished (v' v : vsys) : Prop :=
  ∃ D F W I, v' = v <| v_info_b := I |> <| v_desc := D |> <| v_free := F |> <| v_sleep := W |> ∧ W ⊆ v_sleep v.

Lemma rw_finish_spec v calls l r :
  core v calls (r :: l) →
  ∃ v', rw_finish (r0 r) v = Ret tt v' ∧ core v' (delete (rb r) calls) l ∧ finished v' v ∧ ∀ b, v_sleep v' !! b ≠ Some ChFree.
Proof.
  intros HC. pose proof (core_in_use _ _ _ HC) as HU. destruct HC as [H1 H2 H3 H4 H5 H6 H7 H8].
  rewrite owned_cons in H2, H3, H4, HU.
  apply Forall_cons in H8 as [[] H8]. apply Forall_app in H3 as [H3 H3']. apply Forall_cons in H6 as [_ H6].
  set (v1 := v <| v_info_b := <[r0 r := None]> (v_info_b v) |>).
  edestruct (free_chain_spec v1 (owned l) r 5) as (v' & E & U & S & HA); [exact HU|done..|].
  exists v'. split; [|split; [|split; [|done]]].
  - unfold rw_finish. erewrite bind_eq; [|reflexivity]. exact E.
  - apply NoDup_app in H2 as (_ & Hdis & H2). rewrite fmap_cons, NoDup_cons in H5. destruct H5 as [H5 H5'].
    destruct S as [(D & F & W & -> & _) [L1 L2]]. destruct U as (U1 & U2 & U3).
    split; simpl; try done; [rewrite length_insert; naive_solver| |].
    + intros b i. destruct (decide (rb r = b)) as [<-|Hne].
      * rewrite lookup_delete_eq. split; [done|]. intros (r' & Hr & E' & _). destruct H5. rewrite <- E'. by apply list_elem_of_fmap_2.
      * rewrite lookup_delete_ne, H7 by done. split; intros (r' & Hr & E' & Ei); exists r'; split_and!; try done; [|by right].
        by apply elem_of_cons in Hr as [->|].
    + rewrite Forall_forall in H8 |- *. intros r' Hr. destruct (H8 r' Hr). simpl in L2.
      split; simpl; try done.
      1-3: rewrite L2; [done|eapply owned_in; [exact Hr|unfold descs; mem]].
      rewrite list_lookup_total_insert_ne; [done|]. intros E'. apply (Hdis (r0 r)); [left|].
      rewrite E'. eapply owned_in; [exact Hr|left].
  - destruct S as [(D & F & W & -> & HW) _]. by exists D, F, W, (<[r0 r := None]> (v_info_b v)).
Qed.

(** ** The call up to its sleep *)

Definition slept (b : nat) (c : vchan) (v : vsys) : vsys := v <| v_sleep := <[b := c]> (v_sleep v) |>.

Lemma rw_wait_busy v b i0 :
  vb_disk (v_bufs v !!! b) = true → rw_wait b i0 v = Ret (WaitDevice i0) (slept b (ChBuf b) v).
Proof. intros E. unfold rw_wait, bind, vget, gets. by rewrite E. Qed.

Lemma rw_wait_done v v' b i0 :
  vb_disk (v_bufs v !!! b) = false → rw_finish i0 v = Ret tt v' → rw_wait b i0 v = Ret Returned v'.
Proof. intros E E'. unfold rw_wait, vget, gets. erewrite bind_eq; [|reflexivity]. rewrite E. by rewrite (bind_eq _ _ _ _ _ E'). Qed.

Lemma virtio_disk_rw_spec v calls l b w :
  core v calls l → b ∉ rb <$> l → (b < length (v_bufs v))%nat → 0 ≤ vb_blockno (v_bufs v !!! b) < 2 ^ 31 →
  (∃ r v', virtio_disk_rw b w v = Ret (WaitDevice (r0 r)) (slept b (ChBuf b) v') ∧ rb r = b ∧ rw r = w ∧
     core v' (<[b := r0 r]> calls) (r :: l) ∧ submitted v' v r) ∨
  (∃ v', virtio_disk_rw b w v = Ret WaitDesc (slept b ChFree v') ∧ core v' calls l ∧ spares (owned l) v v' ∧ l ≠ []).
Proof.
  intros HC Hb Hlt Hno. pose proof (core_in_use _ _ _ HC) as HU. unfold virtio_disk_rw.
  destruct (alloc3_spec v _ HU) as [(i0 & i1 & i2 & v1 & E & HN & HF & U & S)|(v1 & E & U & S & Hl)]; rewrite (bind_eq _ _ _ _ _ E).
  - left. set (r := mk_rq i0 i1 i2 b w).
    destruct (rw_submit_spec v v1 calls l r HC S U HN HF Hb Hlt Hno) as (v' & E' & C & Sb).
    exists r, v'. split_and!; [|done..]. erewrite bind_eq; [|exact E']. apply rw_wait_busy.
    destruct Sb as (_ & _ & _ & _ & _ & _ & _ & -> & _). by rewrite list_lookup_total_alter_eq.
  - right. exists v1. split_and!; [done| |done|by intros ->]. by eapply core_spares.
Qed.

(** ** The interrupt handler *)

Lemma intr_one_spec v h b :
  v_used v !!! u16idx (v_used_idx v) = Z.of_nat h → v_info_b v !!! h = Some b →
  intr_one v = if v_status v !!! h =? 0 then
    Ret tt (v <| v_bufs := alter (λ x : vbuf, x <| vb_disk := false |>) b (v_bufs v) |>
              <| v_sleep := filter (λ x, x.2 ≠ ChBuf b) (v_sleep v) |> <| v_used_idx := u16 (v_used_idx v + 1) |>)
    else Panic "virtio_disk_intr status" v.
Proof.
  intros E1 E2. unfold intr_one. erewrite bind_eq; [|reflexivity]. rewrite E1, Nat2Z.id, E2.
  destruct (v_status v !!! h =? 0); [|done]. by destruct v.
Qed.
