(* ===== verification/VirtioSim.v ===== *)
(** * The disk driver: every step is one of the disk without rings

    [sim] relates the system to the disk without rings. Every step of the
    driver and of a conforming device preserves it. *)

From stdpp Require Import gmap.
From S2P Require Import Prelude.
From S2P Require Import Machine.
From S2P Require Import Bio.
From S2P Require Import Virtio.
From S2P Require Import VirtioSpec.
From S2P Require Import VirtioInv.
From S2P Require Import VirtioDrv.
#[local] Open Scope Z_scope.

Record same_disk (v : vsys) (a : adisk) : Prop := {
  sd_block : ∀ n, vblock v n = a_block a n;
  sd_no : ∀ b, vb_blockno (v_bufs v !!! b) = a_no a b;
  sd_data : ∀ b, vdata v b = a_data a b
}.

Definition sim (nb : nat) (s : dsys) (a : adisk) : Prop :=
  ∃ q p d u k, vinv s q p d u k ∧ phases (tagged q p d u k) (a_phase a) ∧ same_disk (d_sys s) a ∧ length (v_bufs (d_sys s)) = nb.

Definition buf_ok (x : vbuf) : Prop := 0 ≤ vb_blockno x < 2 ^ 31 ∧ length (vb_data x) = Z.to_nat BSIZE.

Lemma alter_proj {A B} `{!Inhabited A} (g : A → B) (f : A → A) (l : list A) i j :
  (∀ x, g (f x) = g x) → g (alter f i l !!! j) = g (l !!! j).
Proof.
  intros Hf. destruct (decide (i = j)) as [->|Hne]; [|by rewrite list_lookup_total_alter_ne].
  rewrite list_lookup_total_alter. by case_decide.
Qed.

(** A change of the buffers that keeps the block numbers and the [disk] flags
    of the requests in flight. *)
Lemma vinv_set_bufs s B q p d u k :
  vinv s q p d u k → length B = length (v_bufs (d_sys s)) → Forall buf_ok B →
  (∀ r, r ∈ in_flight q p d u k → vb_blockno (B !!! rb r) = vb_blockno (v_bufs (d_sys s) !!! rb r) ∧
     vb_disk (B !!! rb r) = vb_disk (v_bufs (d_sys s) !!! rb r)) →
  vinv (mk_dsys ((d_sys s) <| v_bufs := B |>) (d_calls s) (d_wait s) (d_intr s)) q p d u k.
Proof.
  intros [H1 H2 H3 H4 H5 H6 H7 H8 H9 H10 H11 H12 H13] Hl HB HE. split; simpl; try done.
  - eapply core_frame; [|exact H1]. split_and!; simpl; try done. intros r Hr. by apply HE.
  - rewrite Forall_forall in H9 |- *. intros r Hr. rewrite (proj2 (HE r ltac:(rewrite in_flight_eq; rewrite !elem_of_app in *; tauto))). auto.
  - rewrite Forall_forall in H10 |- *. intros r Hr. rewrite (proj2 (HE r ltac:(rewrite in_flight_eq, !elem_of_app; tauto))). auto.
Qed.

(** The invariant does not look at who sleeps, who waits for descriptors and
    whether the device was notified. *)
Lemma vinv_quiet s W n w q p d u k :
  vinv s q p d u k → vinv (mk_dsys ((d_sys s) <| v_sleep := W |> <| v_notified := n |>) (d_calls s) w (d_intr s)) q p d u k.
Proof.
  intros [H1 H2 H3 H4 H5 H6 H7 H8 H9 H10 H11 H12 H13]. split; simpl; try done. eapply core_frame; [|exact H1]. by split_and!.
Qed.

Lemma sim_quiet nb s a W n w :
  sim nb s a → sim nb (mk_dsys ((d_sys s) <| v_sleep := W |> <| v_notified := n |>) (d_calls s) w (d_intr s)) a.
Proof.
  intros (q & p & d & u & k & HV & HP & [S1 S2 S3] & Hl). exists q, p, d, u, k. split_and!; [by apply vinv_quiet|done|by split|done].
Qed.

Lemma sim_sleep nb s a W w : sim nb s a → sim nb (mk_dsys ((d_sys s) <| v_sleep := W |>) (d_calls s) w (d_intr s)) a.
Proof. intros H. apply (sim_quiet _ _ _ W (v_notified (d_sys s)) w) in H. by destruct s as [[] ? ? ?]. Qed.

Lemma sim_slept nb v calls w w' i a b c : sim nb (mk_dsys v calls w i) a → sim nb (mk_dsys (slept b c v) calls w' i) a.
Proof. exact (sim_sleep nb (mk_dsys v calls w i) a _ w'). Qed.

Lemma sim_phase nb s a b : sim nb s a → d_calls s !! b = None ↔ a_phase a b = Idle.
Proof.
  intros (q & p & d & u & k & H & [P1 P2] & _). rewrite (core_none _ _ _ _ (vi_core _ _ _ _ _ _ H)). split; [apply P2|].
  intros Hi (x & E & (y & -> & Hy)%list_elem_of_fmap)%list_elem_of_fmap. rewrite E, (P1 y Hy) in Hi.
  revert Hi. unfold tagged in Hy. rewrite !elem_of_app, !list_elem_of_fmap in Hy.
  destruct Hy as [(z & -> & _)|[(z & -> & _)|[(z & -> & _)|[(z & -> & _)|(z & -> & _)]]]]; simpl; try done;
    unfold status_phase; by destruct (_ =? 0).
Qed.

Lemma sim_agrees nb s a : sim nb s a → agrees s a.
Proof.
  intros H. pose proof (λ b, sim_phase nb s a b H) as Hp. destruct H as (q & p & d & u & k & _ & _ & [] & _). by split.
Qed.

(** ** The holder of an idle buffer *)

Lemma alter_buf_cases (f : vbuf → vbuf) (l : list vbuf) b j :
  alter f b l !!! j = if decide (j = b ∧ (b < length l)%nat) then f (l !!! b) else l !!! j.
Proof.
  rewrite list_lookup_total_alter. repeat case_decide; naive_solver.
Qed.

Lemma sim_client nb s a b n d :
  sim nb s a → d_calls s !! b = None → 0 ≤ n < 2 ^ 31 → length d = Z.to_nat BSIZE →
  ∃ a', aapply nb (LClient b n d) a = Some a' ∧
    sim nb (mk_dsys ((d_sys s) <| v_bufs := alter (λ x : vbuf, x <| vb_blockno := n |> <| vb_data := d |>) b (v_bufs (d_sys s)) |>)
              (d_calls s) (d_wait s) (d_intr s)) a'.
Proof.
  intros H Hb Hn Hd. pose proof (proj1 (sim_phase _ _ _ _ H) Hb) as Hi.
  destruct H as (q & p & dd & u & k & HV & HP & [S1 S2 S3] & Hl). simpl. rewrite Hi.
  set (f := λ x : vbuf, x <| vb_blockno := n |> <| vb_data := d |>).
  assert (vinv (mk_dsys ((d_sys s) <| v_bufs := alter f b (v_bufs (d_sys s)) |>) (d_calls s) (d_wait s) (d_intr s)) q p dd u k) as HV'.
  { apply vinv_set_bufs; [done|by rewrite length_alter| |].
    - apply Forall_alter; [apply HV|]. intros x _ _. by split.
    - intros r Hr. rewrite list_lookup_total_alter_ne; [done|]. intros ->.
      apply (core_none _ _ _ _ (vi_core _ _ _ _ _ _ HV)) in Hb. apply Hb. by apply list_elem_of_fmap_2. }
  destruct (decide (b < nb)%nat) as [Hlt|Hge].
  - eexists. split; [done|]. exists q, p, dd, u, k. split_and!; [done|done| |simpl; by rewrite length_alter].
    split; simpl; [done|intros j; unfold at_buf..]; unfold vdata; simpl; rewrite alter_buf_cases;
      repeat case_decide; subst; naive_solver.
  - eexists. split; [done|]. exists q, p, dd, u, k. split_and!; [done|done| |simpl; by rewrite length_alter].
    split; simpl; [done|intros j..]; unfold vdata; simpl; rewrite alter_buf_cases, decide_False by lia; [apply S2|apply S3].
Qed.

(** ** The calls of [virtio_disk_rw] *)

Lemma vinv_block s q p d u k b :
  vinv s q p d u k → (b < length (v_bufs (d_sys s)))%nat → 0 ≤ vb_blockno (v_bufs (d_sys s) !!! b) < 2 ^ 31.
Proof.
  intros H Hb. pose proof (vi_bufs _ _ _ _ _ _ H) as Hf. rewrite Forall_forall in Hf. apply Hf.
  eapply list_elem_of_lookup_2. by apply list_lookup_lookup_total_lt.
Qed.

Lemma vinv_heads q p d u k r x :
  NoDup (owned (r :: in_flight q p d u k)) → x ∈ d ++ u → r0 r ≠ r0 x.1.
Proof.
  rewrite owned_cons. intros (_ & Hd & _)%NoDup_app Hx E. apply (Hd (r0 r)); [left|]. rewrite E.
  eapply owned_in; [|left]. rewrite in_flight_eq, !elem_of_app.
  apply elem_of_app in Hx as [Hx|Hx]; apply (list_elem_of_fmap_2 fst) in Hx; tauto.
Qed.

Lemma in_flight_submit q p d u k r : r :: in_flight q p d u k ≡ₚ in_flight (q ++ [r]) p d u k.
Proof. unfold in_flight. by rewrite perm_submit. Qed.

Lemma vinv_submit s q p d u k r v :
  vinv s q p d u k → core v (<[rb r := r0 r]> (d_calls s)) (r :: in_flight q p d u k) → submitted v (d_sys s) r →
  vinv (mk_dsys v (<[rb r := r0 r]> (d_calls s)) (d_wait s) (d_intr s)) (q ++ [r]) p d u k.
Proof.
  intros [H1 H2 H3 H4 H5 H6 H7 H8 H9 H10 H11 H12 H13] HC (E1 & E2 & E3 & E4 & E5 & E6 & E7 & E8 & E9 & E10 & E11 & E12 & _).
  pose proof (core_length _ _ _ HC) as Hlen. rewrite in_flight_eq in Hlen. simpl in Hlen. rewrite !length_app in Hlen.
  assert (∀ r', r' ∈ q ++ p ++ d.*1 ++ u.*1 ++ k → rb r' ≠ rb r) as Hrb.
  { intros r' Hr E. pose proof (co_bufs _ _ _ HC) as Hn. rewrite in_flight_eq, fmap_cons, NoDup_cons in Hn. destruct Hn as [Hn _].
    apply Hn. rewrite <- E. by apply list_elem_of_fmap_2. }
  pose proof (co_in _ _ _ HC) as Hin. apply Forall_cons in Hin as [Hin _].
  split; simpl; rewrite ?E1, ?E2, ?E3, ?E4, ?E5, ?E6, ?E7, ?E8, ?E9, ?E10, ?E11, ?E12, ?length_insert; try done.
  - eapply core_perm; [|exact HC]. apply in_flight_submit.
  - rewrite fmap_app. apply ring_push; [naive_solver| |done]. rewrite length_fmap. unfold NUM. lia.
  - rewrite Forall_forall in H8 |- *. intros x Hx. rewrite list_lookup_total_insert_ne; [auto|].
    eapply vinv_heads; [apply HC|done].
  - rewrite <- app_assoc. rewrite !Forall_app in H9 |- *. destruct H9 as (F1 & F2 & F3 & F4).
    rewrite E8 in Hin. rewrite length_alter in Hin.
    assert (∀ l, l ⊆ q ++ p ++ d.*1 ++ u.*1 ++ k → Forall (λ r, vb_disk (v_bufs (d_sys s) !!! rb r) = true) l →
      Forall (λ r', vb_disk (alter (λ x : vbuf, x <| vb_disk := true |>) (rb r) (v_bufs (d_sys s)) !!! rb r') = true) l) as Hk.
    { intros l Hl F. rewrite Forall_forall in F |- *. intros r' Hr. rewrite list_lookup_total_alter_ne; [auto|]. apply not_eq_sym, Hrb, Hl, Hr. }
    split_and!; try (apply Hk; [|by rewrite ?Forall_app]; intros r'; rewrite !elem_of_app; tauto).
    constructor; [|done]. by rewrite list_lookup_total_alter_eq.
  - rewrite Forall_forall in H10 |- *. intros r' Hr. rewrite list_lookup_total_alter_ne; [auto|].
    apply not_eq_sym, Hrb. rewrite !elem_of_app. tauto.
  - apply Forall_alter; [done|]. intros x _ Hx. exact Hx.
Qed.

Lemma sim_submit nb s a b w i0 v :
  sim nb s a → may_call s b w → virtio_disk_rw b w (d_sys s) = Ret (WaitDevice i0) v →
  ∃ a', aapply nb (LSubmit b w) a = Some a' ∧ sim nb (mk_dsys v (<[b := i0]> (d_calls s)) (delete b (d_wait s)) false) a'.
Proof.
  intros H (Hf & Hb & _ & _ & Hlt) E. pose proof (proj1 (sim_phase _ _ _ _ H) Hb) as Hi.
  destruct H as (q & p & d & u & k & HV & HP & [S1 S2 S3] & Hl). simpl. rewrite Hi.
  eexists. split; [done|]. pose proof Hb as Hb'. apply (core_none _ _ _ _ (vi_core _ _ _ _ _ _ HV)) in Hb'.
  destruct (virtio_disk_rw_spec _ _ _ b w (vi_core _ _ _ _ _ _ HV) Hb' Hlt (vinv_block _ _ _ _ _ _ _ HV Hlt))
    as [(r & v' & E' & <- & <- & HC & Hs)|(v' & E' & _)]; rewrite E in E'; [|done].
  injection E' as -> ->. pose proof (vinv_submit _ _ _ _ _ _ _ _ HV HC Hs) as HV'. rewrite Hf in HV'.
  apply (sim_slept _ _ _ (d_wait s)).
  exists (q ++ [r]), p, d, u, k. split; [done|]. destruct Hs as (_ & _ & _ & _ & _ & _ & _ & E8 & _ & _ & _ & E12 & _). split_and!.
  - eapply phases_perm; [symmetry; apply perm_submit|]. apply phases_add; [exact Hb'|done].
  - split; simpl; unfold vblock, vdata; rewrite ?E12, ?E8; [done|intros j..]; [rewrite (alter_proj vb_blockno) by done; auto|].
    rewrite (alter_proj vb_data) by done. apply S3.
  - simpl. by rewrite E8, length_alter.
Qed.

Lemma vinv_finished s v calls q p d u k k' :
  vinv s q p d u k → finished v (d_sys s) → core v calls (in_flight q p d u k') → k' ⊆ k →
  vinv (mk_dsys v calls (d_wait s) (d_intr s)) q p d u k'.
Proof.
  intros [H1 H2 H3 H4 H5 H6 H7 H8 H9 H10 H11 H12 H13] (D & F & W & I & -> & _) HC Hk. split; simpl; try done.
  rewrite Forall_forall in H10 |- *. auto.
Qed.

Lemma spares_finished X v v' : spares X v v' → finished v' v.
Proof. intros [(D & F & W & -> & HW) _]. exists D, F, W, (v_info_b v). by destruct v. Qed.

Lemma finished_disk v' v a : finished v' v → same_disk v a → ∀ ph, same_disk v' (mk_adisk (a_block a) (a_no a) (a_data a) ph).
Proof. intros (D & F & W & I & -> & _) [] ph. by split. Qed.

Lemma sim_full nb s a b w v :
  sim nb s a → may_call s b w → virtio_disk_rw b w (d_sys s) = Ret WaitDesc v → sim nb (mk_dsys v (d_calls s) (<[b := w]> (d_wait s)) false) a.
Proof.
  intros (q & p & d & u & k & HV & HP & HS & Hl) (Hf & Hb & _ & _ & Hlt) E.
  apply (core_none _ _ _ _ (vi_core _ _ _ _ _ _ HV)) in Hb.
  destruct (virtio_disk_rw_spec _ _ _ b w (vi_core _ _ _ _ _ _ HV) Hb Hlt (vinv_block _ _ _ _ _ _ _ HV Hlt))
    as [(r & v' & E' & _)|(v' & E' & HC & Hs & _)]; rewrite E in E'; [done|]. injection E' as ->.
  apply spares_finished in Hs.
  apply (sim_slept _ _ _ (d_wait s)).
  exists q, p, d, u, k. rewrite <- Hf. split_and!; [|done| |].
  - by eapply vinv_finished.
  - pose proof (finished_disk _ _ _ Hs HS (a_phase a)) as []. by split.
  - destruct Hs as (D & F & W & I & -> & _). done.
Qed.

(** The call of a request whose buffer the device is done with. *)
Lemma vinv_served s q p d u k r :
  vinv s q p d u k → r ∈ in_flight q p d u k → vb_disk (v_bufs (d_sys s) !!! rb r) = false → r ∈ k.
Proof.
  intros HV Hr Hd. pose proof (vi_busy _ _ _ _ _ _ HV) as Hy. rewrite Forall_forall in Hy. rewrite in_flight_eq in Hr.
  specialize (Hy r). repeat rewrite elem_of_app in Hr. rewrite !elem_of_app in Hy. rewrite Hd in Hy.
  destruct Hr as [?|[?|[?|[?|?]]]]; [by discriminate (Hy ltac:(tauto))..|done].
Qed.

Lemma vinv_finish s q p d u k k' r :
  vinv s q p d u k → k ≡ₚ r :: k' →
  ∃ v, rw_finish (r0 r) (d_sys s) = Ret tt v ∧ finished v (d_sys s) ∧ (∀ b, v_sleep v !! b ≠ Some ChFree) ∧
    ∀ w, vinv (mk_dsys v (delete (rb r) (d_calls s)) w (d_intr s)) q p d u k'.
Proof.
  intros HV Hk. pose proof (vi_core _ _ _ _ _ _ HV) as HC.
  eapply core_perm in HC; [|unfold in_flight; by rewrite (perm_done q p d u _ _ _ Hk)]. simpl in HC.
  destruct (rw_finish_spec _ _ _ _ HC) as (v & E & HC' & Hs & HA). exists v. split_and!; [done..|]. intros w.
  assert (vinv (mk_dsys v (delete (rb r) (d_calls s)) (d_wait s) (d_intr s)) q p d u k') as HV'.
  { eapply vinv_finished; [done..|]. intros x Hx. rewrite Hk. by right. }
  apply (vinv_quiet _ (v_sleep v) (v_notified v) w) in HV'. by destruct v.
Qed.

Lemma sim_finish nb s a b i0 v :
  sim nb s a → may_return s b i0 → rw_wait b i0 (d_sys s) = Ret Returned v →
  ∃ a', aapply nb (LFinish b) a = Some a' ∧ sim nb (mk_dsys v (delete b (d_calls s)) (d_wait s) false) a'.
Proof.
  intros (q & p & d & u & k & HV & HP & HS & Hl) (Hf & Hb & _) E.
  destruct (vb_disk (v_bufs (d_sys s) !!! b)) eqn:Hd; [by rewrite rw_wait_busy in E|].
  apply (co_calls _ _ _ (vi_core _ _ _ _ _ _ HV)) in Hb as (r & Hr & <- & <-).
  pose proof (vinv_served _ _ _ _ _ _ _ HV Hr Hd) as [k' Hk]%elem_of_Permutation. pose proof (perm_done q p d u _ _ _ Hk) as Hp.
  pose proof (vi_core _ _ _ _ _ _ HV) as HC. eapply core_perm in HC; [|unfold in_flight; by rewrite Hp]. simpl in HC.
  pose proof (co_bufs _ _ _ HC) as Hn. rewrite fmap_cons, NoDup_cons in Hn. destruct Hn as [Hn _].
  eapply phases_perm in HP; [|exact Hp].
  destruct (vinv_finish _ _ _ _ _ _ _ _ HV Hk) as (v' & E' & Hs & _ & HV'). rewrite (rw_wait_done _ _ _ _ Hd E') in E. injection E as <-.
  pose proof (proj1 HP (r, Served) ltac:(left)) as Eph. simpl in Eph |- *. rewrite Eph. eexists. split; [done|]. exists q, p, d, u, k'.
  split_and!.
  - rewrite <- Hf. apply HV'.
  - by eapply phases_del.
  - by eapply finished_disk.
  - destruct Hs as (D & F & W & I & -> & _). done.
Qed.

Lemma sim_again nb s a b i0 v :
  sim nb s a → may_return s b i0 → rw_wait b i0 (d_sys s) = Ret (WaitDevice i0) v → sim nb (mk_dsys v (d_calls s) (d_wait s) false) a.
Proof.
  intros H (Hf & Hb & _) E. destruct (vb_disk (v_bufs (d_sys s) !!! b)) eqn:Hd.
  - rewrite rw_wait_busy in E by done. injection E as <-. apply (sim_slept _ _ _ (d_wait s)). rewrite <- Hf. by destruct s.
  - exfalso. unfold rw_wait, bind, vget, gets in E. rewrite Hd in E. by destruct (rw_finish i0 (d_sys s)).
Qed.

(** ** The interrupt handler *)

Lemma vinv_small s q p d u k : vinv s q p d u k → (length q ≤ 2 ∧ length u ≤ 2)%nat.
Proof.
  intros H. pose proof (core_length _ _ _ (vi_core _ _ _ _ _ _ H)) as Hl. rewrite in_flight_eq in Hl.
  rewrite !length_app, !length_fmap in Hl. lia.
Qed.

Lemma vinv_used_empty s q p d u k : vinv s q p d u k → v_used_idx (d_sys s) = v_used_ix (d_sys s) ↔ u = [].
Proof.
  intros H. pose proof (vinv_small _ _ _ _ _ _ H) as [_ Hl]. pose proof (vi_ix _ _ _ _ _ _ H) as [_ Hi].
  assert (Z.of_nat (length (r0 <$> u.*1)) < 2 ^ 16) as Hs by (rewrite !length_fmap; lia).
  rewrite (ring_empty _ _ _ _ Hi Hs (vi_used _ _ _ _ _ _ H)).
  destruct u; simpl; split; done.
Qed.
Lemma vinv_avail_empty s q p d u k : vinv s q p d u k → v_taken_ix (d_sys s) = v_avail_idx (d_sys s) ↔ q = [].
Proof.
  intros H. pose proof (vinv_small _ _ _ _ _ _ H) as [Hl _]. pose proof (vi_ix _ _ _ _ _ _ H) as [Hi _].
  assert (Z.of_nat (length (r0 <$> q)) < 2 ^ 16) as Hs by (rewrite !length_fmap; lia).
  rewrite (ring_empty _ _ _ _ Hi Hs (vi_avail _ _ _ _ _ _ H)).
  destruct q; simpl; split; done.
Qed.

Definition acked (v : vsys) : vsys := v <| v_isr := Z.land (v_isr v) (Z.lnot (Z.land (v_isr v) 0x3)) |>.

Lemma vinv_ack s q p d u k : vinv s q p d u k → vinv (mk_dsys (acked (d_sys s)) (d_calls s) (d_wait s) true) q p d u k.
Proof.
  intros [H1 H2 H3 H4 H5 H6 H7 H8 H9 H10 H11 H12 H13]. split; simpl; auto.
  eapply core_frame; [|exact H1]. by split_and!.
Qed.

Lemma sim_ack nb s a v :
  sim nb s a → intr_ack (d_sys s) = Ret tt v → sim nb (mk_dsys v (d_calls s) (d_wait s) true) a.
Proof.
  intros (q & p & d & u & k & HV & HP & [] & Hl) [= <-].
  exists q, p, d, u, k. split_and!; [by apply vinv_ack|done|by split|done].
Qed.

Lemma sim_end nb s a :
  sim nb s a → v_used_idx (d_sys s) = v_used_ix (d_sys s) → sim nb (mk_dsys (d_sys s) (d_calls s) (d_wait s) false) a.
Proof.
  intros (q & p & d & u & k & H & HP & HD & Hl) E. pose proof (proj1 (vinv_used_empty _ _ _ _ _ _ H) E) as ->.
  exists q, p, d, [], k. split_and!; try done. destruct H. split; auto.
Qed.

(** The first entry of the used ring that the driver has not seen. *)
Lemma vinv_next_used s q p d x u k :
  vinv s q p d (x :: u) k →
  v_used (d_sys s) !!! u16idx (v_used_idx (d_sys s)) = Z.of_nat (r0 x.1) ∧
  v_info_b (d_sys s) !!! r0 x.1 = Some (rb x.1) ∧ v_status (d_sys s) !!! r0 x.1 = x.2.
Proof.
  intros H. split_and!.
  - eapply ring_pop. apply (vi_used _ _ _ _ _ _ H).
  - pose proof (co_chain _ _ _ (vi_core _ _ _ _ _ _ H)) as Hc. rewrite in_flight_eq, Forall_forall in Hc.
    apply (ch_info _ _ (Hc x.1 ltac:(repeat rewrite elem_of_app; simpl; rewrite elem_of_cons; tauto))).
  - pose proof (vi_status _ _ _ _ _ _ H) as Hs. rewrite Forall_forall in Hs. apply Hs. rewrite elem_of_app, elem_of_cons. tauto.
Qed.

Lemma vinv_intr s q p d r u k :
  vinv s q p d ((r, 0) :: u) k →
  vinv (mk_dsys ((d_sys s) <| v_bufs := alter (λ x : vbuf, x <| vb_disk := false |>) (rb r) (v_bufs (d_sys s)) |>
                  <| v_sleep := filter (λ x, x.2 ≠ ChBuf (rb r)) (v_sleep (d_sys s)) |> <| v_used_idx := u16 (v_used_idx (d_sys s) + 1) |>)
          (d_calls s) (d_wait s) true) q p d u (r :: k).
Proof.
  intros [H1 H2 H3 H4 H5 H6 H7 H8 H9 H10 H11 H12 H13].
  assert (in_flight q p d ((r, 0) :: u) k ≡ₚ in_flight q p d u (r :: k)) as Hpi by (unfold in_flight; by rewrite perm_intr).
  apply (core_perm _ _ _ _ Hpi) in H1.
  assert (∀ r', r' ∈ q ++ p ++ d.*1 ++ u.*1 ++ k → rb r ≠ rb r') as Hrb.
  { intros r' Hr E. pose proof (co_bufs _ _ _ H1) as Hn. rewrite in_flight_eq in Hn.
    assert (q ++ p ++ d.*1 ++ u.*1 ++ r :: k ≡ₚ r :: q ++ p ++ d.*1 ++ u.*1 ++ k) as Hp by solve_Permutation.
    rewrite Hp, fmap_cons, NoDup_cons in Hn. destruct Hn as [Hn _]. apply Hn. rewrite E. by apply list_elem_of_fmap_2. }
  pose proof (co_in _ _ _ H1) as Hin. rewrite in_flight_eq, Forall_forall in Hin.
  specialize (Hin r ltac:(repeat rewrite elem_of_app; rewrite elem_of_cons; tauto)).
  split; simpl; try done.
  - eapply core_frame; [|exact H1]. split_and!; simpl; rewrite ?length_alter; try done.
    intros r' _. by apply (alter_proj vb_blockno).
  - split; [apply H3|apply u16_range].
  - eapply ring_pop. exact H5.
  - rewrite Forall_forall in H8 |- *. intros x Hx. apply H8. rewrite elem_of_app, elem_of_cons in *. tauto.
  - rewrite Forall_forall in H9 |- *. intros r' Hr. rewrite list_lookup_total_alter_ne.
    + apply H9. repeat rewrite elem_of_app in *. rewrite fmap_cons, elem_of_cons. tauto.
    + apply Hrb. repeat rewrite elem_of_app in *. tauto.
  - constructor; [by rewrite list_lookup_total_alter_eq|]. rewrite Forall_forall in H10 |- *. intros r' Hr.
    rewrite list_lookup_total_alter_ne; [auto|]. apply Hrb. repeat rewrite elem_of_app. tauto.
  - auto.
  - apply Forall_alter; [done|]. intros x _ Hx. exact Hx.
Qed.

Lemma sim_one nb s a v :
  sim nb s a → v_used_idx (d_sys s) ≠ v_used_ix (d_sys s) → intr_one (d_sys s) = Ret tt v →
  sim nb (mk_dsys v (d_calls s) (d_wait s) true) a.
Proof.
  intros (q & p & d & u & k & HV & HP & [S1 S2 S3] & Hl) Hne E.
  destruct u as [|[r st] u]; [by destruct Hne; apply (vinv_used_empty _ _ _ _ _ _ HV)|].
  destruct (vinv_next_used _ _ _ _ _ _ _ HV) as (E1 & E2 & E3). simpl in E1, E2, E3.
  rewrite (intr_one_spec _ _ _ E1 E2), E3 in E. destruct (st =? 0) eqn:Est; [|done]. apply Z.eqb_eq in Est as ->.
  injection E as <-. exists q, p, d, u, (r :: k). split_and!.
  - by apply vinv_intr.
  - eapply phases_perm; [apply perm_intr|done].
  - split; simpl; [done|intros b..]; [by rewrite (alter_proj vb_blockno)|].
    unfold vdata. simpl. rewrite (alter_proj vb_data) by done. apply S3.
  - simpl. by rewrite length_alter.
Qed.

(** ** The device *)

Lemma Forall_perm {A} (P : A → Prop) l l' : l ≡ₚ l' → Forall P l → Forall P l'.
Proof. by intros ->. Qed.

Lemma vinv_take s r q p d u k :
  vinv s (r :: q) p d u k → vinv (mk_dsys (dev_take (d_sys s)) (d_calls s) (d_wait s) (d_intr s)) q (p ++ [r]) d u k.
Proof.
  intros [H1 H2 H3 H4 H5 H6 H7 H8 H9 H10 H11 H12 H13].
  destruct (ring_pop _ _ _ _ _ H4) as [E H4'].
  split; simpl; try done.
  - eapply core_perm; [|eapply core_frame; [|exact H1]; by split_and!]. unfold in_flight. by rewrite perm_take.
  - split; [apply u16_range|apply H3].
  - by rewrite E, H6, fmap_app.
  - eapply Forall_perm; [|exact H9]. simpl. solve_Permutation.
Qed.

Lemma sim_take nb s a :
  sim nb s a → v_taken_ix (d_sys s) ≠ v_avail_idx (d_sys s) →
  sim nb (mk_dsys (dev_take (d_sys s)) (d_calls s) (d_wait s) (d_intr s)) a.
Proof.
  intros (q & p & d & u & k & HV & HP & [] & Hl) Hne.
  destruct q as [|r q]; [by destruct Hne; apply (vinv_avail_empty _ _ _ _ _ _ HV)|].
  exists q, (p ++ [r]), d, u, k. split_and!; [by apply vinv_take|by eapply phases_perm; [apply perm_take|]|by split|done].
Qed.

Lemma vinv_report s q p d u k j x :
  vinv s q p d u k → d !! j = Some x →
  vinv (mk_dsys (dev_report j (Z.of_nat (r0 x.1)) (d_sys s)) (d_calls s) (d_wait s) (d_intr s)) q p (delete j d) (u ++ [x]) k.
Proof.
  intros HV Hj. pose proof (delete_Permutation _ _ _ Hj) as Hp. pose proof (perm_report q p _ _ u k _ Hp) as Hp'.
  pose proof (vinv_small _ _ _ _ _ _ HV) as [_ Hu].
  destruct HV as [H1 H2 H3 H4 H5 H6 H7 H8 H9 H10 H11 H12 H13].
  split; simpl; rewrite ?length_insert; try done.
  - eapply core_perm; [|eapply core_frame; [|exact H1]; by split_and!]. unfold in_flight. by rewrite Hp'.
  - rewrite !fmap_app. apply ring_push; [apply H2|rewrite !length_fmap; unfold NUM; lia|done].
  - by rewrite H7, !list_fmap_delete.
  - rewrite Hp in H8. eapply Forall_perm; [|exact H8]. simpl. solve_Permutation.
  - rewrite Hp in H9. eapply Forall_perm; [|exact H9]. rewrite fmap_app. simpl. solve_Permutation.
  - right. left. change (Z.testbit (Z.lor (v_isr (d_sys s)) 1) 0 = true). by rewrite Z.lor_spec, orb_true_r.
Qed.

Lemma sim_report nb s a j head :
  sim nb s a → v_performed (d_sys s) !! j = Some head →
  sim nb (mk_dsys (dev_report j head (d_sys s)) (d_calls s) (d_wait s) (d_intr s)) a.
Proof.
  intros (q & p & d & u & k & HV & HP & [] & Hl) Hj.
  rewrite (vi_performed _ _ _ _ _ _ HV) in Hj.
  apply list_lookup_fmap_Some in Hj as (r & -> & Hj). apply list_lookup_fmap_Some in Hj as (x & -> & Hj).
  pose proof (perm_report q p _ _ u k _ (delete_Permutation _ _ _ Hj)) as Hp.
  exists q, p, (delete j d), (u ++ [x]), k. split_and!; [by apply vinv_report|by eapply phases_perm|by split|done].
Qed.

(** The device reads from the descriptors the request [rw_submit] wrote. *)
Lemma dev_chain_request v r :
  chain_ok v r → dev_chain v (Z.of_nat (r0 r)) = Some (mk_request (rw r) (2 * vb_blockno (v_bufs v !!! rb r)) (rb r) (r0 r)).
Proof.
  intros [D0 D1 D2 Dq _]. unfold dev_chain. rewrite Nat2Z.id, D0. cbn [d_next d_addr]. rewrite Nat2Z.id, D1.
  cbn [d_next d_addr]. rewrite Nat2Z.id, D2. cbn [d_addr]. rewrite Dq. by destruct (rw r).
Qed.

Lemma sector_other (m : gmap Z (list Z)) n j x y : j ≠ n → j ≠ n + 1 → sector_at (<[n := x]> (<[n + 1 := y]> m)) j = sector_at m j.
Proof. intros. unfold sector_at. by rewrite !lookup_insert_ne by done. Qed.

Lemma vblock_write v n x y j :
  vblock (v <| v_sectors := <[2 * n := x]> (<[2 * n + 1 := y]> (v_sectors v)) |>) j = if decide (j = n) then x ++ y else vblock v j.
Proof.
  unfold vblock. simpl. case_decide as E.
  - subst. unfold sector_at. rewrite lookup_insert_eq, lookup_insert_ne, lookup_insert_eq by lia. done.
  - rewrite !sector_other by lia. done.
Qed.

Lemma sector_length m n : map_Forall (λ _ d, length d = 512%nat) m → length (sector_at m n) = 512%nat.
Proof. intros H. unfold sector_at. destruct (m !! n) eqn:E; [by apply (H n)|done]. Qed.

(** A transfer changes one block of the disk or the data of one buffer. *)
Lemma vinv_transfer s q p d u k r :
  vinv s q p d u k → r ∈ in_flight q p d u k →
  vinv (mk_dsys (dev_transfer (mk_request (rw r) (2 * vb_blockno (v_bufs (d_sys s) !!! rb r)) (rb r) (r0 r)) (d_sys s)) (d_calls s) (d_wait s) (d_intr s))
    q p d u k.
Proof.
  intros H Hr. unfold dev_transfer. cbn [q_write q_sector q_buf].
  pose proof (vi_sectors _ _ _ _ _ _ H) as Hs. destruct (rw r).
  - pose proof (co_in _ _ _ (vi_core _ _ _ _ _ _ H)) as Hin. rewrite Forall_forall in Hin. specialize (Hin r Hr).
    assert (length (vb_data (v_bufs (d_sys s) !!! rb r)) = Z.to_nat BSIZE) as Hd.
    { pose proof (vi_bufs _ _ _ _ _ _ H) as Hf. rewrite Forall_forall in Hf. apply Hf.
      eapply list_elem_of_lookup_2. by apply list_lookup_lookup_total_lt. }
    destruct H. split; simpl; try done; [eapply core_frame; [|done]; by split_and!|].
    apply map_Forall_insert_2; [rewrite length_take, Hd; done|]. apply map_Forall_insert_2; [rewrite length_drop, Hd; done|done].
  - apply vinv_set_bufs; [done|by rewrite length_alter| |].
    + apply Forall_alter; [apply H|]. intros x _ [? ?]. split; [done|]. simpl. rewrite length_app, !sector_length by done. done.
    + intros r' _. split; [by apply (alter_proj vb_blockno)|by apply (alter_proj vb_disk)].
Qed.

Lemma vinv_perform s q p d u k r j st :
  vinv s q p d u k → p !! j = Some r →
  vinv (mk_dsys ((d_sys s) <| v_status := <[r0 r := st]> (v_status (d_sys s)) |> <| v_pending := delete j (v_pending (d_sys s)) |>
                   <| v_performed := v_performed (d_sys s) ++ [Z.of_nat (r0 r)] |>) (d_calls s) (d_wait s) (d_intr s))
    q (delete j p) (d ++ [(r, st)]) u k.
Proof.
  intros H Hj. pose proof (delete_Permutation _ _ _ Hj) as Hp.
  assert (in_flight q p d u k ≡ₚ r :: in_flight q (delete j p) d u k) as Hp1.
  { unfold in_flight. by rewrite (perm_taken _ _ _ _ _ _ _ Hp). }
  pose proof (vi_core _ _ _ _ _ _ H) as HC. apply (core_perm _ _ _ _ Hp1) in HC.
  destruct H as [H1 H2 H3 H4 H5 H6 H7 H8 H9 H10 H11 H12 H13].
  split; simpl; rewrite ?length_insert; try done.
  - eapply core_perm; [|eapply core_frame; [|exact HC]; by split_and!]. unfold in_flight. by rewrite perm_performed.
  - by rewrite H6, list_fmap_delete.
  - by rewrite H7, !fmap_app.
  - assert (Forall (λ x, <[r0 r := st]> (v_status (d_sys s)) !!! r0 x.1 = x.2) (d ++ u)) as F.
    { rewrite Forall_forall in H8 |- *. intros x Hx. rewrite list_lookup_total_insert_ne; [auto|].
      eapply vinv_heads; [apply HC|done]. }
    assert ((r, st) :: (d ++ u) ≡ₚ (d ++ [(r, st)]) ++ u) as Hq by solve_Permutation.
    eapply Forall_perm; [exact Hq|]. constructor; [|exact F]. apply list_lookup_total_insert_eq.
    destruct H2 as (_ & _ & ->). pose proof (co_lt _ _ _ HC) as Hlt. rewrite owned_cons in Hlt.
    by apply Forall_app in Hlt as [[? _]%Forall_cons _].
  - rewrite Hp in H9. eapply Forall_perm; [|exact H9]. rewrite fmap_app. simpl. solve_Permutation.
Qed.

Definition request_of (v : vsys) (r : req) : request := mk_request (rw r) (2 * vb_blockno (v_bufs v !!! rb r)) (rb r) (r0 r).
Definition atransfer (r : req) (a : adisk) : adisk :=
  if rw r then mk_adisk (at_block (a_no a (rb r)) (a_data a (rb r)) (a_block a)) (a_no a) (a_data a) (at_buf (rb r) Served (a_phase a))
  else mk_adisk (a_block a) (a_no a) (at_buf (rb r) (a_block a (a_no a (rb r))) (a_data a)) (at_buf (rb r) Served (a_phase a)).

Lemma same_disk_transfer v a r :
  same_disk v a → (rb r < length (v_bufs v))%nat → same_disk (dev_transfer (request_of v r) v) (atransfer r a).
Proof.
  intros [S1 S2 S3] Hlt. unfold dev_transfer, request_of, atransfer. cbn [q_write q_sector q_buf]. destruct (rw r).
  - split; simpl; try done. intros n. rewrite vblock_write. unfold at_block. rewrite <- S2. case_decide; [|auto].
    rewrite take_drop. apply S3.
  - split; simpl; [done|intros b..]; [by rewrite (alter_proj vb_blockno)|].
    unfold vdata. simpl. rewrite alter_buf_cases. unfold at_buf. repeat case_decide; try tauto; [|by apply S3].
    simpl. rewrite <- S2. apply S1.
Qed.

Lemma length_transfer rq v : length (v_bufs (dev_transfer rq v)) = length (v_bufs v).
Proof. unfold dev_transfer. destruct (q_write rq); [done|]. simpl. by rewrite length_alter. Qed.

Lemma aapply_transfer nb r a : a_phase a (rb r) = Waiting (rw r) → aapply nb (LTransfer (rb r) (rw r)) a = Some (atransfer r a).
Proof. intros E. unfold aapply, atransfer. rewrite E, eqb_reflx. by destruct (rw r). Qed.

Lemma sim_perform nb s a j head rq st :
  sim nb s a → v_pending (d_sys s) !! j = Some head → dev_chain (d_sys s) head = Some rq →
  ∃ a', aapply nb (device_label (DPerform rq st)) a = Some a' ∧
    sim nb (mk_dsys (dev_perform j head rq st (d_sys s)) (d_calls s) (d_wait s) (d_intr s)) a'.
Proof.
  intros (q & p & d & u & k & HV & HP & HS & Hl) Hj Hc.
  rewrite (vi_pending _ _ _ _ _ _ HV) in Hj. apply list_lookup_fmap_Some in Hj as (r & -> & Hj).
  pose proof (delete_Permutation _ _ _ Hj) as Hp. pose proof (perm_taken q _ _ d u k _ Hp) as Hp1.
  assert (r ∈ in_flight q p d u k) as Hr by (unfold in_flight; rewrite Hp1; left).
  pose proof (co_chain _ _ _ (vi_core _ _ _ _ _ _ HV)) as Hch. rewrite Forall_forall in Hch.
  rewrite (dev_chain_request _ _ (Hch r Hr)) in Hc. injection Hc as <-.
  eapply phases_perm in HP; [|exact Hp1].
  assert (rb r ∉ rb <$> (tagged q (delete j p) d u k).*1) as Hn.
  { pose proof (co_bufs _ _ _ (vi_core _ _ _ _ _ _ HV)) as Hn. unfold in_flight in Hn. rewrite Hp1 in Hn. simpl in Hn.
    by apply NoDup_cons in Hn as [? _]. }
  pose proof (co_in _ _ _ (vi_core _ _ _ _ _ _ HV)) as Hin. rewrite Forall_forall in Hin. specialize (Hin r Hr).
  unfold dev_perform, device_label. fold (request_of (d_sys s) r). destruct (st =? 0) eqn:Est.
  - apply Z.eqb_eq in Est as ->. eexists. split; [apply aapply_transfer; exact (proj1 HP (r, Waiting (rw r)) ltac:(left))|].
    exists q, (delete j p), (d ++ [(r, 0)]), u, k.
    pose proof (vinv_transfer _ _ _ _ _ _ _ HV Hr) as HV1. split_and!.
    + apply (vinv_perform _ _ _ _ _ _ _ _ 0 HV1 Hj).
    + replace (a_phase (atransfer r a)) with (at_buf (rb r) Served (a_phase a)) by (unfold atransfer; by destruct (rw r)).
      eapply phases_perm; [symmetry; apply perm_performed|]. by eapply phases_set.
    + pose proof (same_disk_transfer _ _ _ HS Hin) as []. by split.
    + simpl. by rewrite length_transfer.
  - exists a. split; [done|]. exists q, (delete j p), (d ++ [(r, st)]), u, k. split_and!.
    + apply (vinv_perform _ _ _ _ _ _ _ _ st HV Hj).
    + eapply phases_perm; [symmetry; apply perm_performed|]. unfold status_phase. simpl. by rewrite Est.
    + destruct HS. by split.
    + done.
Qed.

(** ** Runs *)

Lemma sim_init s : disk_ready s → sim (length (v_bufs (d_sys s))) s (abstraction s).
Proof.
  intros [D1 (D2 & D3 & D4) (D5 & D6 & D7) D8 (D9 & D10 & D11) (D12 & D13) (D14 & D15) _ D16 D17].
  exists [], [], [], [], []. split_and!; [|split; [by intros x ?%elem_of_nil|done]|by split|done].
  split; rewrite ?D2, ?D3, ?D4, ?D5, ?D6, ?D7; try done; auto using ring_nil, u16_range.
  - split; rewrite ?D1, ?D8, ?D9; try done; try apply NoDup_nil_2; try apply Forall_nil_2.
    + intros i Hi. rewrite list_lookup_total_alt, lookup_replicate_2 by done. simpl. split; [|done]. by intros _ ?%elem_of_nil.
    + intros b i. rewrite D14, lookup_empty. split; [done|]. by intros (r & ?%elem_of_nil & _).
Qed.
