(* ===== verification/VirtioThms.v ===== *)
(** * The disk driver: refinement of a disk, and progress

    Driver and device refine the disk without rings; and no call of
    [virtio_disk_rw] waits for a wakeup that was missed or an interrupt that
    will not come. *)

From stdpp Require Import gmap.
From S2P Require Import Prelude.
From S2P Require Import Machine.
From S2P Require Import Bio.
From S2P Require Import Virtio.
From S2P Require Import VirtioSpec.
From S2P Require Import VirtioInv.
From S2P Require Import VirtioDrv.
From S2P Require Import VirtioSim.
#[local] Open Scope Z_scope.

Section runs.
Context (device : vsys → dlabel → vsys → Prop).
Hypothesis device_conforms : ∀ v l v', device v l v' → virtio_spec v l v'.

Lemma sim_step nb s a l s' : sim nb s a → dstep device s l s' → ∃ a', aapply nb l a = Some a' ∧ sim nb s' a'.
Proof.
  intros H Hs. destruct Hs as [s b n d Hb Hw Hn Hd|s b w i0 v Hm E|s b w v Hm E|s b i0 v Hm E|s b i0 v Hm E|s b
    |s v Hf Hi E|s v Hf Hu E|s Hf Hu|s l v Hd].
  - by apply sim_client.
  - by eapply sim_submit.
  - exists a. split; [|by eapply sim_full]. destruct Hm as (_ & Hb & _). simpl. by rewrite (proj1 (sim_phase _ _ _ _ H) Hb).
  - by eapply sim_finish.
  - exists a. split; [done|]. by eapply sim_again.
  - exists a. split; [done|]. by apply sim_sleep.
  - exists a. split; [done|]. by eapply sim_ack.
  - exists a. split; [done|]. by eapply sim_one.
  - exists a. split; [done|]. by apply sim_end.
  - pose proof (device_conforms _ _ _ Hd) as Hc. inversion Hc; subst.
    + exists a. split; [done|]. by apply sim_take.
    + exists a. split; [done|]. apply (sim_quiet _ _ _ (v_sleep (d_sys s)) false (d_wait s)) in H. by destruct s as [[] ? ? ?].
    + by apply sim_perform.
    + exists a. split; [done|]. by apply sim_report.
Qed.

Lemma sim_steps nb s0 a0 tr s :
  sim nb s0 a0 → dsteps device s0 tr s → ∃ a, areplay nb tr a0 = Some a ∧ sim nb s a.
Proof.
  intros H0 H. induction H as [|tr l s s' _ IH Hl]; [by exists a0|].
  destruct IH as (a & E & Ha). destruct (sim_step _ _ _ _ _ Ha Hl) as (a' & E' & Ha').
  exists a'. split; [|done]. unfold areplay in *. by rewrite foldl_app, E.
Qed.

(** C10: driver and device together behave as a disk without rings. For a
    device that conforms to the virtio specification, every interleaving of
    calls of [virtio_disk_rw], interrupts, clients of idle buffers and device
    steps, from the state [virtio_disk_init] leaves, is one the abstract disk
    allows: each call is submitted, its block is transferred once between its
    own buffer and its own block of the disk, and only then does it return; no
    other step changes the data of a buffer or a block, whatever the order in
    which the device serves the requests and however often the ring indices
    wrap. *)
Theorem virtio_refines_disk s0 tr s :
  disk_ready s0 → dsteps device s0 tr s →
  ∃ a, areplay (length (v_bufs (d_sys s0))) tr (abstraction s0) = Some a ∧ agrees s a.
Proof.
  intros H0 H. destruct (sim_steps _ _ _ _ _ (sim_init _ H0) H) as (a & E & Ha).
  exists a. split; [done|]. by eapply sim_agrees.
Qed.
End runs.

(** ** Nobody sleeps in vain *)

(** A call whose buffer the device is done with is awake; a call sleeps on its
    buffer, or on the descriptors while some are in use; the device was
    notified of what it has not taken. *)
Record live (s : dsys) : Prop := {
  lv_served : ∀ b i, d_calls s !! b = Some i → vb_disk (v_bufs (d_sys s) !!! b) = false → v_sleep (d_sys s) !! b = None;
  lv_wait : ∀ b w, d_wait s !! b = Some w → d_calls s !! b = None ∧ (b < length (v_bufs (d_sys s)))%nat;
  lv_sleep : ∀ b c, v_sleep (d_sys s) !! b = Some c →
    c = ChBuf b ∧ is_Some (d_calls s !! b) ∨ c = ChFree ∧ is_Some (d_wait s !! b) ∧ d_calls s ≠ ∅;
  lv_notified : v_notified (d_sys s) = true ∨ v_taken_ix (d_sys s) = v_avail_idx (d_sys s)
}.

Lemma live_init s : disk_ready s → live s.
Proof.
  intros [D1 (D2 & D3 & D4) (D5 & D6 & D7) D8 (D9 & D10 & D11) (D12 & D13) (D14 & D15) [D18 D19] D16 D17].
  split; rewrite ?D14, ?D18, ?D19, ?D2, ?D4; try (intros *; by rewrite lookup_empty). by right.
Qed.

(** Steps that leave the calls, the [disk] flags and what the device was told
    alone, and wake at most. *)
Lemma live_frame s s' :
  d_calls s' = d_calls s → d_wait s' = d_wait s → v_sleep (d_sys s') ⊆ v_sleep (d_sys s) →
  length (v_bufs (d_sys s')) = length (v_bufs (d_sys s)) →
  (∀ b, vb_disk (v_bufs (d_sys s') !!! b) = vb_disk (v_bufs (d_sys s) !!! b)) →
  (v_notified (d_sys s') = true ∨ v_taken_ix (d_sys s') = v_avail_idx (d_sys s')) → live s → live s'.
Proof.
  intros Ec Ew Hs El Ed Hn [L1 L2 L3 L4]. split; rewrite ?Ec, ?Ew, ?El; try done.
  - intros b i Hb. rewrite Ed. intros Hd. eapply lookup_weaken_None; [|done]. by eapply L1.
  - intros b c Hb. apply L3. by eapply lookup_weaken.
Qed.

Lemma calls_in_flight s q p d u k : vinv s q p d u k → d_calls s = ∅ ↔ in_flight q p d u k = [].
Proof.
  intros H. pose proof (vi_core _ _ _ _ _ _ H) as HC. split.
  - intros E. destruct (in_flight q p d u k) as [|r l] eqn:Ef; [done|]. exfalso.
    assert (d_calls s !! rb r = Some (r0 r)) as Hr by (apply (co_calls _ _ _ HC); exists r; split_and!; [left|done..]).
    by rewrite E, lookup_empty in Hr.
  - intros E. apply map_empty. intros b. apply (core_none _ _ _ _ HC). rewrite E. by intros ?%elem_of_nil.
Qed.

Section live.
Context (device : vsys → dlabel → vsys → Prop).
Hypothesis device_conforms : ∀ v l v', device v l v' → virtio_spec v l v'.

Lemma live_device s l v :
  live s → virtio_spec (d_sys s) l v → live (mk_dsys v (d_calls s) (d_wait s) (d_intr s)).
Proof.
  intros HL Hd. pose proof (lv_notified _ HL) as Hn.
  inversion Hd; subst; (apply (live_frame s); [done|done|..|exact HL]); simpl; try done; try tauto.
  - unfold dev_perform. destruct (st =? 0); [|done]. unfold dev_transfer. by destruct (q_write q).
  - unfold dev_perform. destruct (st =? 0); [|done]. simpl. apply length_transfer.
  - intros b. unfold dev_perform. destruct (st =? 0); [|done]. unfold dev_transfer. destruct (q_write q); [done|].
    simpl. by rewrite (alter_proj vb_disk).
  - unfold dev_perform. destruct (st =? 0); [|done]. unfold dev_transfer. by destruct (q_write q).
Qed.

Lemma live_submit s b w i0 v q p d u k :
  vinv s q p d u k → live s → may_call s b w → virtio_disk_rw b w (d_sys s) = Ret (WaitDevice i0) v →
  live (mk_dsys v (<[b := i0]> (d_calls s)) (delete b (d_wait s)) false).
Proof.
  intros HV [L1 L2 L3 L4] (Hf & Hb & _ & Hs & Hlt) E. pose proof Hb as Hb'. apply (core_none _ _ _ _ (vi_core _ _ _ _ _ _ HV)) in Hb'.
  destruct (virtio_disk_rw_spec _ _ _ b w (vi_core _ _ _ _ _ _ HV) Hb' Hlt (vinv_block _ _ _ _ _ _ _ HV Hlt))
    as [(r & v' & E' & <- & <- & _ & _ & _ & _ & _ & _ & _ & _ & EB & _ & _ & _ & _ & EN & EW)|(v' & E' & _)]; rewrite E in E'; [|done].
  injection E' as -> ->. split; simpl; rewrite ?EB, ?length_alter.
  - intros b i. destruct (decide (b = rb r)) as [->|Hne].
    + by rewrite list_lookup_total_alter_eq by done.
    + rewrite list_lookup_total_alter_ne by done. rewrite !lookup_insert_ne by done. intros Hc Hd.
      eapply lookup_weaken_None; [by eapply L1|done].
  - intros b w [Hne Hw]%lookup_delete_Some. rewrite lookup_insert_ne by done. by eapply L2.
  - intros b c. destruct (decide (b = rb r)) as [->|Hne].
    + rewrite !lookup_insert_eq. intros [= <-]. by left.
    + rewrite lookup_insert_ne by done. intros Hc. rewrite lookup_insert_ne, lookup_delete_ne by done.
      destruct (L3 b c ltac:(by eapply lookup_weaken)) as [?|(? & ? & ?)]; [by left|right]. split_and!; [done..|apply insert_non_empty].
  - by left.
Qed.

Lemma live_full s b w v q p d u k :
  vinv s q p d u k → live s → may_call s b w → virtio_disk_rw b w (d_sys s) = Ret WaitDesc v →
  live (mk_dsys v (d_calls s) (<[b := w]> (d_wait s)) false).
Proof.
  intros HV [L1 L2 L3 L4] (Hf & Hb & _ & Hs & Hlt) E. pose proof Hb as Hb'. apply (core_none _ _ _ _ (vi_core _ _ _ _ _ _ HV)) in Hb'.
  destruct (virtio_disk_rw_spec _ _ _ b w (vi_core _ _ _ _ _ _ HV) Hb' Hlt (vinv_block _ _ _ _ _ _ _ HV Hlt))
    as [(r & v' & E' & _)|(v' & E' & _ & Sp & Hl)]; rewrite E in E'; [done|]. injection E' as ->.
  destruct Sp as [(D & F & W & -> & HW) _]. split; simpl; [..|done].
  - intros b' i Hc Hd. assert (b' ≠ b) by (by intros ->; rewrite Hb in Hc). rewrite lookup_insert_ne by done.
    eapply lookup_weaken_None; [by eapply L1|done].
  - intros b' w'. destruct (decide (b' = b)) as [->|Hne]; [done|]. rewrite lookup_insert_ne by done. apply L2.
  - intros b' c. destruct (decide (b' = b)) as [->|Hne].
    + rewrite !lookup_insert_eq. intros [= <-]. right. split_and!; [done..|]. by intros ?%(calls_in_flight _ _ _ _ _ _ HV).
    + rewrite !lookup_insert_ne by done. intros Hc. apply L3. by eapply lookup_weaken.
Qed.

Lemma live_finish s b i0 v q p d u k :
  vinv s q p d u k → live s → may_return s b i0 → rw_wait b i0 (d_sys s) = Ret Returned v →
  live (mk_dsys v (delete b (d_calls s)) (d_wait s) false).
Proof.
  intros HV [L1 L2 L3 L4] (Hf & Hb & Hs) E. destruct (vb_disk (v_bufs (d_sys s) !!! b)) eqn:Hd; [by rewrite rw_wait_busy in E|].
  apply (co_calls _ _ _ (vi_core _ _ _ _ _ _ HV)) in Hb as (r & Hr & <- & <-).
  pose proof (vinv_served _ _ _ _ _ _ _ HV Hr Hd) as [k' Hk]%elem_of_Permutation.
  destruct (vinv_finish _ _ _ _ _ _ _ _ HV Hk) as (v' & E' & (D & F & W & I & -> & HW) & HA & _).
  rewrite (rw_wait_done _ _ _ _ Hd E') in E. injection E as <-. simpl in HA. split; simpl; [..|done].
  - intros b' i [_ Hc]%lookup_delete_Some Hd'. eapply lookup_weaken_None; [by eapply L1|done].
  - intros b' w Hw. destruct (L2 _ _ Hw). split; [|done]. apply lookup_delete_None. by right.
  - intros b' c Hc. destruct (L3 b' c ltac:(by eapply lookup_weaken)) as [[-> ?]|(-> & _)]; [|by destruct (HA b')].
    left. split; [done|]. rewrite lookup_delete_ne; [done|]. intros <-. by rewrite (lookup_weaken _ _ _ _ Hc HW) in Hs.
Qed.

Lemma live_again s b i0 v :
  live s → may_return s b i0 → rw_wait b i0 (d_sys s) = Ret (WaitDevice i0) v → live (mk_dsys v (d_calls s) (d_wait s) false).
Proof.
  intros [L1 L2 L3 L4] (Hf & Hb & Hs) E. destruct (vb_disk (v_bufs (d_sys s) !!! b)) eqn:Hd.
  - rewrite rw_wait_busy in E by done. injection E as <-. split; simpl; try done.
    + intros b' i Hc Hd'. destruct (decide (b' = b)) as [->|Hne]; [congruence|]. rewrite lookup_insert_ne by done. by eapply L1.
    + intros b' c. destruct (decide (b' = b)) as [->|Hne]; [|rewrite lookup_insert_ne by done; apply L3].
      rewrite lookup_insert_eq. intros [= <-]. left. by rewrite Hb.
  - exfalso. unfold rw_wait, bind, vget, gets in E. rewrite Hd in E. by destruct (rw_finish i0 (d_sys s)).
Qed.

Lemma live_one s v q p d u k :
  vinv s q p d u k → live s → v_used_idx (d_sys s) ≠ v_used_ix (d_sys s) → intr_one (d_sys s) = Ret tt v →
  live (mk_dsys v (d_calls s) (d_wait s) true).
Proof.
  intros HV [L1 L2 L3 L4] Hne E.
  destruct u as [|[r st] u]; [by destruct Hne; apply (vinv_used_empty _ _ _ _ _ _ HV)|].
  destruct (vinv_next_used _ _ _ _ _ _ _ HV) as (E1 & E2 & E3). rewrite (intr_one_spec _ _ _ E1 E2) in E.
  destruct (_ =? 0); [|done]. injection E as <-. simpl.
  split; simpl; rewrite ?length_alter; try done.
  - intros b i Hc Hd. destruct (v_sleep (d_sys s) !! b) as [c|] eqn:Es; [|apply map_lookup_filter_None; by left].
    destruct (decide (b = rb r)) as [->|Hb].
    + apply map_lookup_filter_None. right. intros c' Hc'. destruct (L3 _ _ Hc') as [[-> _]|(_ & [w Hw] & _)]; [simpl; tauto|].
      destruct (L2 _ _ Hw). congruence.
    + rewrite list_lookup_total_alter_ne in Hd by done. rewrite (L1 _ _ Hc Hd) in Es. done.
  - intros b c [Hc _]%map_lookup_filter_Some. by apply L3.
Qed.

Lemma live_step s l s' q p d u k : vinv s q p d u k → live s → dstep device s l s' → live s'.
Proof.
  intros HV HL Hs. pose proof (lv_notified _ HL) as Hn. destruct Hs; eauto using live_submit, live_full, live_finish, live_again, live_one.
  - apply (live_frame s); [done|done|done| | |exact Hn|exact HL]; simpl; [by rewrite length_alter|]. intros b'. by apply (alter_proj vb_disk).
  - apply (live_frame s); [done|done|apply delete_subseteq|done|done|exact Hn|exact HL].
  - apply (live_frame s); [done|done|..|exact HL]; injection H1 as <-; done.
  - by apply (live_frame s).
  - eapply live_device; [done|]. by eapply device_conforms.
Qed.

Lemma live_steps s0 tr s :
  disk_ready s0 → dsteps device s0 tr s → ∃ q p d u k, vinv s q p d u k ∧ live s.
Proof.
  intros H0 H. assert (live s) as HL.
  { induction H as [|tr l s s' Ht IH Hl]; [by apply live_init|].
    destruct (sim_steps device device_conforms _ _ _ _ _ (sim_init _ H0) Ht) as (a & _ & q & p & d & u & k & HV & _).
    by eapply live_step. }
  destruct (sim_steps device device_conforms _ _ _ _ _ (sim_init _ H0) H) as (a & _ & q & p & d & u & k & HV & _).
  by exists q, p, d, u, k.
Qed.
End live.

(** The loop of the handler ends after the entries reported so far. *)
Lemma intr_loop_runs fuel s q p d u k :
  vinv s q p d u k → (length u < fuel)%nat →
  (∃ v, intr_loop fuel (d_sys s) = Ret tt v ∧ v_used_idx v = v_used_ix v) ∨
  (∃ v, intr_loop fuel (d_sys s) = Panic "virtio_disk_intr status" v).
Proof.
  revert fuel s k. induction u as [|[r st] u IH]; intros [|fuel] s k HV Hf; simpl in Hf; try lia.
  - left. exists (d_sys s). pose proof (proj2 (vinv_used_empty _ _ _ _ _ _ HV) eq_refl) as E. split; [|done].
    simpl. unfold vget, gets. erewrite bind_eq; [|reflexivity]. by rewrite E, Z.eqb_refl.
  - simpl. unfold vget, gets. erewrite bind_eq; [|reflexivity].
    rewrite (proj2 (Z.eqb_neq _ _)) by (by intros ?%(vinv_used_empty _ _ _ _ _ _ HV)).
    destruct (vinv_next_used _ _ _ _ _ _ _ HV) as (E1 & E2 & E3). pose proof (intr_one_spec _ _ _ E1 E2) as E. rewrite E3 in E.
    simpl in E. destruct (st =? 0) eqn:Est.
    + apply Z.eqb_eq in Est as ->. rewrite (bind_eq _ _ _ _ _ E). apply (IH fuel _ _ (vinv_intr _ _ _ _ _ _ _ HV)). lia.
    + right. eexists. unfold bind. by rewrite E.
Qed.


(** ** Every call returns *)

(** The handler is at a request the device reported as failed. *)
Definition failed (s : dsys) : Prop :=
  d_intr s = true ∧ intr_one (d_sys s) = Panic "virtio_disk_intr status" (d_sys s).

(** Nothing but the calls that wait in [s]: nobody is killed, no call starts,
    no client touches its buffer. *)
Definition unforced (s : dsys) (l : vlabel) : Prop :=
  match l with
  | LClient _ _ _ | LKill _ => False
  | LWait b | LSubmit b _ => is_Some (d_wait s !! b)
  | LTransfer _ _ | LFinish _ | LOther => True
  end.

(** A run in which the device does its duty. *)
Definition goes (s : dsys) (tr : list vlabel) (s' : dsys) : Prop := dsteps virtio_duty s tr s' ∧ Forall (unforced s) tr.

Lemma duty_conforms v l v' : virtio_duty v l v' → virtio_spec v l v'.
Proof. intros []; by constructor. Qed.

Lemma goes_nil s : goes s [] s.
Proof. split; [constructor|done]. Qed.
Lemma goes_step s tr s' l s'' : goes s tr s' → dstep virtio_duty s' l s'' → unforced s l → goes s (tr ++ [l]) s''.
Proof. intros [H1 H2] H H'. split; [by econstructor|]. apply Forall_app. auto. Qed.
Lemma goes_app s tr s' tr' s'' :
  (∀ b, is_Some (d_wait s' !! b) → is_Some (d_wait s !! b)) → goes s tr s' → goes s' tr' s'' → goes s (tr ++ tr') s''.
Proof.
  intros Hw [H1 F1] [H2 F2]. split.
  - clear F1 F2. induction H2 as [|tr' l s2 s3 _ IH Hl]; [by rewrite app_nil_r|]. rewrite app_assoc. by econstructor.
  - apply Forall_app. split; [done|]. eapply Forall_impl; [exact F2|]. intros []; simpl; auto.
Qed.

Definition weight (q p : list req) (d u : list (req * Z)) : nat := (4 * length q + 3 * length p + 2 * length d + length u)%nat.

(** Either the requests in flight get closer to being served, or the device
    failed one. *)
Lemma advance s q p d u k :
  vinv s q p d u k → live s → weight q p d u ≠ 0%nat →
  (∃ tr s' q' p' d' u' k', goes s tr s' ∧ vinv s' q' p' d' u' k' ∧ live s' ∧ d_calls s' = d_calls s ∧ d_wait s' = d_wait s ∧
     (weight q' p' d' u' < weight q p d u)%nat) ∨
  (∃ tr s', goes s tr s' ∧ failed s').
Proof.
  intros HV HL Hw.
  assert (∀ l v q' p' d' u' k', virtio_duty (d_sys s) l v → unforced s (device_label l) →
    vinv (mk_dsys v (d_calls s) (d_wait s) (d_intr s)) q' p' d' u' k' → (weight q' p' d' u' < weight q p d u)%nat →
    ∃ tr s' q' p' d' u' k', goes s tr s' ∧ vinv s' q' p' d' u' k' ∧ live s' ∧ d_calls s' = d_calls s ∧ d_wait s' = d_wait s ∧
     (weight q' p' d' u' < weight q p d u)%nat) as Hdev.
  { intros l v q' p' d' u' k' Hd Hu HV' Hlt. eexists _, _, q', p', d', u', k'. split_and!; [|exact HV'| |done..].
    - eapply goes_step; [apply goes_nil|by apply step_device|done].
    - eapply live_device; [done|by apply duty_conforms]. }
  destruct q as [|r q]; [destruct p as [|r p]; [destruct d as [|x d]; [destruct u as [|[r st] u]; [done|]|]|]|].
  - (* the handler *)
    assert (∃ tr k s', goes s tr s' ∧ d_intr s' = true ∧ vinv s' [] [] [] ((r, st) :: u) k ∧ live s' ∧ d_calls s' = d_calls s ∧
      d_wait s' = d_wait s) as (tr & k' & s' & Hg & Hi & HV' & HL' & Ec & Ew).
    { destruct (d_intr s) eqn:Ei; [exists [], k, s; split_and!; try done; apply goes_nil|].
      pose proof (vinv_ack _ _ _ _ _ _ HV) as HV'. eexists _, k, _. split_and!; [..|exact HV'| |done|done]; [|done|].
      - eapply goes_step; [apply goes_nil|eapply step_ack; [done| |reflexivity]|done].
        destruct (vi_isr _ _ _ _ _ _ HV) as [?|[Hb|?]]; [done| |congruence]. intros E. by rewrite E in Hb.
      - apply (live_frame s); try done. apply HL. }
    assert (v_used_idx (d_sys s') ≠ v_used_ix (d_sys s')) as Hne by (by intros ?%(vinv_used_empty _ _ _ _ _ _ HV')).
    destruct (vinv_next_used _ _ _ _ _ _ _ HV') as (E1 & E2 & E3). pose proof (intr_one_spec _ _ _ E1 E2) as E. rewrite E3 in E. simpl in E.
    destruct (Z.eqb_spec st 0) as [->|Hst]; [left|right; by exists tr, s'].
    pose proof (step_one virtio_duty s' _ Hi Hne E) as Hs. rewrite <- Ec, <- Ew.
    eexists _, _, [], [], [], u, _. split_and!; [by eapply goes_step|by apply vinv_intr| |done|done|unfold weight; simpl; lia].
    eapply live_step; [exact duty_conforms|exact HV'|done|exact Hs].
  - left. eapply (Hdev DReport); [apply (duty_report _ 0)| |apply (vinv_report _ _ _ _ _ _ 0 x HV eq_refl)|];
      [by rewrite (vi_performed _ _ _ _ _ _ HV)|done|].
    unfold weight. rewrite length_app. simpl. lia.
  - left. pose proof (co_chain _ _ _ (vi_core _ _ _ _ _ _ HV)) as Hch. rewrite in_flight_eq, Forall_forall in Hch.
    assert (r ∈ in_flight [] (r :: p) d u k) as Hr by (rewrite in_flight_eq; left). specialize (Hch r ltac:(left)).
    pose proof (vinv_transfer _ _ _ _ _ _ _ HV Hr) as HV1.
    eapply (Hdev (DPerform (request_of (d_sys s) r) 0)).
    + apply (duty_perform _ 0); [by rewrite (vi_pending _ _ _ _ _ _ HV)|by apply dev_chain_request].
    + done.
    + apply (vinv_perform _ _ _ _ _ _ _ 0 0 HV1 eq_refl).
    + unfold weight. rewrite length_app. simpl. lia.
  - left. assert (v_taken_ix (d_sys s) ≠ v_avail_idx (d_sys s)) as Hne by (by intros ?%(vinv_avail_empty _ _ _ _ _ _ HV)).
    eapply (Hdev DTake); [apply duty_take; [by destruct (lv_notified _ HL)|done]|done|by apply vinv_take|].
    unfold weight. rewrite length_app. simpl. lia.
Qed.

(** All requests served, the handler gone. *)
Lemma settle s q p d u k :
  vinv s q p d u k → live s →
  (∃ tr s' k', goes s tr s' ∧ vinv s' [] [] [] [] k' ∧ live s' ∧ d_calls s' = d_calls s ∧ d_wait s' = d_wait s ∧ d_intr s' = false) ∨
  (∃ tr s', goes s tr s' ∧ failed s').
Proof.
  remember (weight q p d u) as n eqn:En. revert s q p d u k En. induction (lt_wf n) as [n _ IH]. intros s q p d u k -> HV HL.
  destruct (decide (weight q p d u = 0%nat)) as [E|E].
  - left. assert (q = [] ∧ p = [] ∧ d = [] ∧ u = []) as (-> & -> & -> & ->).
    { unfold weight in E. destruct q, p, d, u; simpl in E; try lia; done. }
    destruct (d_intr s) eqn:Ei; [|exists [], s, k; split_and!; try done; apply goes_nil].
    pose proof (proj2 (vinv_used_empty _ _ _ _ _ _ HV) eq_refl) as Eu.
    pose proof (step_end virtio_duty s Ei Eu) as Hs. eexists _, _, k. split_and!; [eapply goes_step; [apply goes_nil|exact Hs|done]| | |done..].
    + destruct HV. split; auto.
    + eapply live_step; [exact duty_conforms|exact HV|done|exact Hs].
  - destruct (advance _ _ _ _ _ _ HV HL E) as [(tr & s' & q' & p' & d' & u' & k' & Hg & HV' & HL' & Ec & Ew & Hlt)|]; [|by right].
    destruct (IH _ Hlt _ _ _ _ _ _ eq_refl HV' HL') as [(tr' & s'' & k'' & Hg' & HV'' & HL'' & Ec' & Ew' & Ei)|(tr' & s'' & Hg' & Hf)].
    + left. exists (tr ++ tr'), s'', k''. split_and!; [|done|done|congruence..]. eapply goes_app; [|done..]. by rewrite Ew.
    + right. exists (tr ++ tr'), s''. split; [|done]. eapply goes_app; [|done..]. by rewrite Ew.
Qed.

(** The calls that were served return. *)
Lemma return_all s k :
  vinv s [] [] [] [] k → live s → d_intr s = false →
  ∃ tr s', goes s tr s' ∧ vinv s' [] [] [] [] [] ∧ live s' ∧ d_wait s' = d_wait s ∧ d_intr s' = false ∧
    ∀ r, r ∈ k → LFinish (rb r) ∈ tr.
Proof.
  revert s. induction k as [|r k IH]; intros s HV HL Hi.
  { exists [], s. split_and!; try done; [apply goes_nil|by intros r ?%elem_of_nil]. }
  pose proof (vi_done _ _ _ _ _ _ HV) as Hd. apply Forall_cons in Hd as [Hd _].
  destruct (vinv_finish _ _ _ _ _ _ _ _ HV (Permutation_refl _)) as (v & E & _ & _ & HV').
  assert (d_calls s !! rb r = Some (r0 r)) as Hc by (apply (co_calls _ _ _ (vi_core _ _ _ _ _ _ HV)); exists r; split_and!; [left|done..]).
  pose proof (step_finish virtio_duty s (rb r) (r0 r) v (conj Hi (conj Hc (lv_served _ HL _ _ Hc Hd))) (rw_wait_done _ _ _ _ Hd E)) as Hs.
  specialize (HV' (d_wait s)). rewrite Hi in HV'.
  edestruct (IH _ HV') as (tr & s' & Hg & HV'' & HL'' & Ew & Ei & Hr); [|done|].
  { eapply live_step; [exact duty_conforms|exact HV|done|exact Hs]. }
  exists ([LFinish (rb r)] ++ tr), s'. split_and!; try done.
  - eapply goes_app; [|eapply (goes_step s []); [apply goes_nil|exact Hs|done]|exact Hg]. done.
  - intros r' [->|Hr']%elem_of_cons; apply elem_of_app; [left; left|right; auto].
Qed.

Lemma served_returns s q p d u k b :
  vinv s q p d u k → live s →
  (∃ tr s', goes s tr s' ∧ (is_Some (d_calls s !! b) → LFinish b ∈ tr) ∧ vinv s' [] [] [] [] [] ∧ live s' ∧ d_wait s' = d_wait s ∧
     d_intr s' = false) ∨
  (∃ tr s', goes s tr s' ∧ failed s').
Proof.
  intros HV HL. destruct (settle _ _ _ _ _ _ HV HL) as [(tr & s' & k' & Hg & HV' & HL' & Ec & Ew & Hi)|]; [left|by right].
  destruct (return_all _ _ HV' HL' Hi) as (tr' & s'' & Hg' & HV'' & HL'' & Ew' & Hi' & Hr).
  exists (tr ++ tr'), s''. split_and!; [eapply goes_app; [by rewrite Ew|done..]| |done|done|congruence|done].
  intros [i Hb]. rewrite <- Ec in Hb. apply (co_calls _ _ _ (vi_core _ _ _ _ _ _ HV')) in Hb as (r & Hk & <- & _).
  apply elem_of_app. right. apply Hr. by rewrite in_flight_eq in Hk.
Qed.

(** A call that waits for descriptors gets them when the others have returned. *)
Lemma waiting_starts s b w :
  vinv s [] [] [] [] [] → live s → d_intr s = false → d_wait s !! b = Some w →
  ∃ s' r, goes s [LSubmit b w] s' ∧ rb r = b ∧ vinv s' [r] [] [] [] [] ∧ live s' ∧ d_wait s' = delete b (d_wait s).
Proof.
  intros HV HL Hi Hw. destruct (lv_wait _ HL _ _ Hw) as [Hb Hlt]. pose proof (proj2 (calls_in_flight _ _ _ _ _ _ HV) eq_refl) as Hc.
  assert (v_sleep (d_sys s) !! b = None) as Hs.
  { destruct (v_sleep (d_sys s) !! b) eqn:Es; [|done]. exfalso. destruct (lv_sleep _ HL _ _ Es) as [[_ [? Hx]]|(_ & _ & Hx)]; congruence. }
  assert (may_call s b w) as Hm by (split_and!; [done|done|by rewrite Hw|done|done]).
  destruct (virtio_disk_rw_spec _ _ _ b w (vi_core _ _ _ _ _ _ HV) ltac:(by apply not_elem_of_nil) Hlt (vinv_block _ _ _ _ _ _ _ HV Hlt))
    as [(r & v & E & <- & <- & HC & Hsub)|(v & _ & _ & _ & Hn)]; [|by destruct Hn].
  pose proof (step_submit virtio_duty _ _ _ _ _ Hm E) as Hst. match type of Hst with dstep _ _ _ ?s2 => exists s2, r end. split_and!; [|done| | |done].
  - eapply (goes_step s []); [apply goes_nil|exact Hst|]. simpl. by rewrite Hw.
  - pose proof (vinv_submit _ _ _ _ _ _ _ _ HV HC Hsub) as HV'. rewrite Hi in HV'.
    apply (vinv_quiet _ (<[rb r := ChBuf (rb r)]> (v_sleep v)) (v_notified v) (delete (rb r) (d_wait s))) in HV'. by destruct v.
  - eapply live_step; [exact duty_conforms|exact HV|done|exact Hst].
Qed.

Lemma waiting_returns s q p d u k b w :
  vinv s q p d u k → live s → d_wait s !! b = Some w → ∃ tr s', goes s tr s' ∧ (LFinish b ∈ tr ∨ failed s').
Proof.
  intros HV HL Hw. destruct (served_returns _ _ _ _ _ _ b HV HL) as [(tr & s1 & Hg & _ & HV1 & HL1 & Ew & Hi)|(tr & s' & ? & ?)]; [|by eauto].
  rewrite <- Ew in Hw. destruct (waiting_starts _ _ _ HV1 HL1 Hi Hw) as (s2 & r & Hg2 & Er & HV2 & HL2 & Ew2).
  assert (goes s (tr ++ [LSubmit b w]) s2) as Hg3 by (eapply goes_app; [by rewrite Ew|done..]).
  assert (∀ b', is_Some (d_wait s2 !! b') → is_Some (d_wait s !! b')) as Hsub.
  { intros b' [w' E]. rewrite Ew2, Ew in E. by apply lookup_delete_Some in E as [_ ->]. }
  destruct (served_returns _ _ _ _ _ _ b HV2 HL2) as [(tr' & s3 & Hg4 & Hf & _)|(tr' & s3 & Hg4 & Hf)].
  - exists ((tr ++ [LSubmit b w]) ++ tr'), s3. split; [by eapply goes_app|]. left. apply elem_of_app. right. apply Hf.
    exists (r0 r). apply (co_calls _ _ _ (vi_core _ _ _ _ _ _ HV2)). exists r. split_and!; [left|done..].
  - exists ((tr ++ [LSubmit b w]) ++ tr'), s3. split; [by eapply goes_app|by right].
Qed.

Section progress.
Context (device : vsys → dlabel → vsys → Prop).
Hypothesis device_conforms : ∀ v l v', device v l v' → virtio_spec v l v'.

(** C11: no call is lost. In every state the system reaches with a conforming
    device and any kills: a process that is not asleep can run
    [virtio_disk_rw] to its sleep without a panic; every call that waits,
    asleep on its buffer or for descriptors, comes back to its caller in a run
    of the interrupt handler, the waiting calls and a device that does its
    duty - takes what is available once notified, performs it, reports it -
    in which nobody is killed, no call starts and no client acts, or else the
    device failed a request and the handler panics on it; and
    [virtio_disk_intr] runs to the end of the used ring or to that panic. *)
Theorem virtio_progress s0 tr s :
  disk_ready s0 → dsteps device s0 tr s →
  (∀ b w, may_call s b w → ∃ r v, virtio_disk_rw b w (d_sys s) = Ret r v ∧ is_Some (v_sleep v !! b)) ∧
  (∀ b, is_Some (d_calls s !! b) ∨ is_Some (d_wait s !! b) → ∃ tr' s', goes s tr' s' ∧ (LFinish b ∈ tr' ∨ failed s')) ∧
  ((∃ v, virtio_disk_intr (d_sys s) = Ret tt v ∧ v_used_idx v = v_used_ix v) ∨
   (∃ v, virtio_disk_intr (d_sys s) = Panic "virtio_disk_intr status" v)).
Proof.
  intros H0 H. destruct (live_steps device device_conforms _ _ _ H0 H) as (q & p & d & u & k & HV & HL). split_and!.
  - intros b w (_ & Hb & _ & _ & Hlt). apply (core_none _ _ _ _ (vi_core _ _ _ _ _ _ HV)) in Hb.
    destruct (virtio_disk_rw_spec _ _ _ b w (vi_core _ _ _ _ _ _ HV) Hb Hlt (vinv_block _ _ _ _ _ _ _ HV Hlt))
      as [(r & v & E & _)|(v & E & _)]; eexists _, _; (split; [exact E|]); simpl; by rewrite lookup_insert_eq.
  - intros b [Hb|[w Hb]]; [|by eapply waiting_returns].
    destruct (served_returns _ _ _ _ _ _ b HV HL) as [(tr' & s' & Hg & Hf & _)|(tr' & s' & Hg & Hf)]; eauto 6.
  - unfold virtio_disk_intr. erewrite bind_eq; [|reflexivity].
    apply (intr_loop_runs _ _ _ _ _ _ _ (vinv_ack _ _ _ _ _ _ HV)). pose proof (vinv_small _ _ _ _ _ _ HV). unfold NUM. lia.
Qed.
End progress.

(** ** A run *)

(** A device that serves its requests one at a time, in order. *)
Definition fifo_device (v : vsys) : option (dlabel * vsys) :=
  match v_performed v with
  | head :: _ => Some (DReport, dev_report 0 head v)
  | [] =>
      match v_pending v with
      | head :: _ => q ← dev_chain v head; Some (DPerform q 0, dev_perform 0 head q 0 v)
      | [] => if v_taken_ix v =? v_avail_idx v then None else Some (DTake, dev_take v)
      end
  end.
Definition fifo (v : vsys) (l : dlabel) (v' : vsys) : Prop := fifo_device v = Some (l, v').

Lemma fifo_conforms v l v' : fifo v l v' → virtio_spec v l v'.
Proof.
  unfold fifo, fifo_device. destruct (v_performed v) as [|h t] eqn:E1.
  - destruct (v_pending v) as [|h t] eqn:E2.
    + destruct (_ =? _) eqn:E3; [done|]. intros [= <- <-]. constructor. by apply Z.eqb_neq.
    + destruct (dev_chain v h) eqn:E3; [|done]. intros [= <- <-]. constructor; [by rewrite E2|done].
  - intros [= <- <-]. constructor. by rewrite E1.
Qed.

Inductive event := EClient (b : nat) (n : Z) (d : list Z) | ERw (b : nat) (w : bool) | EGoOn (b : nat) | EIntr | EDevice.

#[local] Instance may_call_dec s b w : Decision (may_call s b w).
Proof. unfold may_call. apply _. Defined.
#[local] Instance may_return_dec s b i0 : Decision (may_return s b i0).
Proof. unfold may_return. apply _. Defined.

(** One step of the system, chosen by the event. *)
Definition run_event (s : dsys) (e : event) : option (vlabel * dsys) :=
  match e with
  | EClient b n d =>
      if decide (d_calls s !! b = None ∧ d_wait s !! b = None ∧ 0 ≤ n < 2 ^ 31 ∧ length d = Z.to_nat BSIZE) then
        Some (LClient b n d,
          mk_dsys ((d_sys s) <| v_bufs := alter (λ x : vbuf, x <| vb_blockno := n |> <| vb_data := d |>) b (v_bufs (d_sys s)) |>)
            (d_calls s) (d_wait s) (d_intr s))
      else None
  | ERw b w =>
      if decide (may_call s b w) then
        match virtio_disk_rw b w (d_sys s) with
        | Ret (WaitDevice i0) v => Some (LSubmit b w, mk_dsys v (<[b := i0]> (d_calls s)) (delete b (d_wait s)) false)
        | Ret WaitDesc v => Some (LWait b, mk_dsys v (d_calls s) (<[b := w]> (d_wait s)) false)
        | _ => None
        end
      else None
  | EGoOn b =>
      match d_calls s !! b with
      | Some i0 =>
          if decide (may_return s b i0) then
            match rw_wait b i0 (d_sys s) with
            | Ret Returned v => Some (LFinish b, mk_dsys v (delete b (d_calls s)) (d_wait s) false)
            | _ => None
            end
          else None
      | None => None
      end
  | EIntr =>
      if d_intr s then
        if decide (v_used_idx (d_sys s) = v_used_ix (d_sys s)) then Some (LOther, mk_dsys (d_sys s) (d_calls s) (d_wait s) false) else
        match intr_one (d_sys s) with Ret tt v => Some (LOther, mk_dsys v (d_calls s) (d_wait s) true) | _ => None end
      else if decide (v_isr (d_sys s) ≠ 0) then
        match intr_ack (d_sys s) with Ret tt v => Some (LOther, mk_dsys v (d_calls s) (d_wait s) true) | _ => None end
      else None
  | EDevice =>
      match fifo_device (d_sys s) with
      | Some (l, v) => Some (device_label l, mk_dsys v (d_calls s) (d_wait s) (d_intr s))
      | None => None
      end
  end.

Lemma run_event_step s e l s' : run_event s e = Some (l, s') → dstep fifo s l s'.
Proof.
  intros E. destruct e; unfold run_event in E; repeat case_match; simplify_eq; destruct_and?; eauto using dstep.
Qed.

Fixpoint run_events (s : dsys) (es : list event) : option (list vlabel * dsys) :=
  match es with
  | [] => Some ([], s)
  | e :: es => r ← run_event s e; t ← run_events r.2 es; Some (r.1 :: t.1, t.2)
  end.

Lemma dsteps_cons device s0 l s1 tr s : dstep device s0 l s1 → dsteps device s1 tr s → dsteps device s0 (l :: tr) s.
Proof.
  intros H H'. induction H' as [|tr l' s s' _ IH Hl]; [exact (dsteps_snoc _ _ [] _ _ _ (dsteps_nil _ _) H)|].
  exact (dsteps_snoc _ _ (l :: tr) _ _ _ IH Hl).
Qed.

Lemma run_events_steps s es tr s' : run_events s es = Some (tr, s') → dsteps fifo s tr s'.
Proof.
  revert s tr. induction es as [|e es IH]; simpl; intros s tr E; [injection E as <- <-; constructor|].
  apply bind_Some in E as ([l s1] & E1 & E). apply bind_Some in E as ([tr' s2] & E2 & E). simpl in E. injection E as <- <-.
  eapply dsteps_cons; [by eapply run_event_step|by eapply IH].
Qed.

(** Two buffers of block 7: the first is written while the second waits for
    its read, and the second gets what the first had. *)
Definition ready_disk : dsys :=
  mk_dsys (mk_vsys zero_desc_table 0 (replicate NUM 0) 0 (replicate NUM 0) (replicate NUM true) 0 (replicate NUM None)
    (replicate NUM 0) (replicate NUM (mk_req 0 0 0)) (replicate 3 (mk_vbuf 0 (replicate (Z.to_nat BSIZE) 0) false)) ∅ ∅ false 0 [] [] 0) ∅ ∅ false.
Definition written : list Z := replicate 512 3 ++ replicate 512 4.
Definition write_read : list event :=
  [EClient 0 7 written; EClient 1 7 (replicate (Z.to_nat BSIZE) 9); ERw 0 true; ERw 1 false; EDevice; EDevice; EDevice; EIntr; EDevice;
   EIntr; EDevice; EDevice; EIntr; EIntr; EGoOn 1; EGoOn 0].
Definition write_read_run : list vlabel * dsys := default ([], ready_disk) (run_events ready_disk write_read).

Lemma ready_disk_ready : disk_ready ready_disk.
Proof. split; try done. apply Forall_replicate. split; [simpl; lia|done]. Qed.
Lemma write_read_runs : run_events ready_disk write_read = Some write_read_run.
Proof. vm_compute. reflexivity. Qed.

Example write_read_served : vdata (d_sys write_read_run.2) 1 = written ∧ vblock (d_sys write_read_run.2) 7 = written.
Proof. vm_compute. done. Qed.

Lemma virtio_refines_disk_witness :
  ∃ a, areplay 3 write_read_run.1 (abstraction ready_disk) = Some a ∧ agrees write_read_run.2 a.
Proof.
  apply (virtio_refines_disk fifo fifo_conforms ready_disk write_read_run.1 write_read_run.2 ready_disk_ready).
  apply (run_events_steps ready_disk write_read). rewrite <- surjective_pairing. exact write_read_runs.
Defined.

(** Two calls wait for the device, the third for descriptors. *)
Definition three_calls : list event := take 4 write_read ++ [ERw 2 true].
Definition three_run : list vlabel * dsys := default ([], ready_disk) (run_events ready_disk three_calls).
Lemma three_calls_run : run_events ready_disk three_calls = Some three_run.
Proof. vm_compute. reflexivity. Qed.

Example three_calls_sleep : map_to_list (v_sleep (d_sys three_run.2)) = [(2%nat, ChFree); (1%nat, ChBuf 1); (0%nat, ChBuf 0)].
Proof. vm_compute. reflexivity. Qed.

Lemma virtio_progress_witness :
  is_Some (d_wait three_run.2 !! 2%nat) ∧ ∃ tr s, goes three_run.2 tr s ∧ (LFinish 2 ∈ tr ∨ failed s).
Proof.
  assert (is_Some (d_wait three_run.2 !! 2%nat)) as Hw by (exists true; vm_compute; reflexivity).
  split; [exact Hw|].
  refine (proj1 (proj2 (virtio_progress fifo fifo_conforms ready_disk three_run.1 three_run.2 ready_disk_ready _)) 2%nat (or_intror Hw)).
  apply (run_events_steps ready_disk three_calls). rewrite <- surjective_pairing. exact three_calls_run.
Defined.
