(* ===== verification/VirtioInit.v ===== *)
(** * Bringing up the disk ([virtio_disk_init] of [kernel/virtio_disk.c])

    The device's registers are a parameter, the class [VirtioMmio]. *)

From stdpp Require Import gmap.
From S2P Require Import Prelude.
From S2P Require Import Machine.
From S2P Require Import KString.
From S2P Require Import Kalloc.
From S2P Require Import Virtio.
#[local] Open Scope Z_scope.

(** ** virtio.h *)

Definition VIRTIO_MMIO_MAGIC_VALUE : Z := 0x000.
Definition VIRTIO_MMIO_VERSION : Z := 0x004.
Definition VIRTIO_MMIO_DEVICE_ID : Z := 0x008.
Definition VIRTIO_MMIO_VENDOR_ID : Z := 0x00c.
Definition VIRTIO_MMIO_DEVICE_FEATURES : Z := 0x010.
Definition VIRTIO_MMIO_DRIVER_FEATURES : Z := 0x020.
Definition VIRTIO_MMIO_QUEUE_SEL : Z := 0x030.
Definition VIRTIO_MMIO_QUEUE_NUM_MAX : Z := 0x034.
Definition VIRTIO_MMIO_QUEUE_NUM : Z := 0x038.
Definition VIRTIO_MMIO_QUEUE_READY : Z := 0x044.
Definition VIRTIO_MMIO_STATUS : Z := 0x070.
Definition VIRTIO_MMIO_QUEUE_DESC_LOW : Z := 0x080.
Definition VIRTIO_MMIO_QUEUE_DESC_HIGH : Z := 0x084.
Definition VIRTIO_MMIO_DRIVER_DESC_LOW : Z := 0x090.
Definition VIRTIO_MMIO_DRIVER_DESC_HIGH : Z := 0x094.
Definition VIRTIO_MMIO_DEVICE_DESC_LOW : Z := 0x0a0.
Definition VIRTIO_MMIO_DEVICE_DESC_HIGH : Z := 0x0a4.
Definition VIRTIO_CONFIG_S_ACKNOWLEDGE : Z := 1.
Definition VIRTIO_CONFIG_S_DRIVER : Z := 2.
Definition VIRTIO_CONFIG_S_DRIVER_OK : Z := 4.
Definition VIRTIO_CONFIG_S_FEATURES_OK : Z := 8.
Definition VIRTIO_BLK_F_RO : Z := 5.
Definition VIRTIO_BLK_F_SCSI : Z := 7.
Definition VIRTIO_BLK_F_CONFIG_WCE : Z := 11.
Definition VIRTIO_BLK_F_MQ : Z := 12.
Definition VIRTIO_F_ANY_LAYOUT : Z := 27.
Definition VIRTIO_RING_F_INDIRECT_DESC : Z := 28.
Definition VIRTIO_RING_F_EVENT_IDX : Z := 29.

Class VirtioMmio (D : Type) := {
  mmio_read : Z → D → Z;
  mmio_write : Z → Z → D → D
}.

(** The device, the page allocator, and the fields of [disk] that are set:
    the three queue pages and [free]. *)
Record vboot (D : Type) := mk_vboot {
  vb_dev : D;
  vb_pages : kmem;
  vb_desc : Z;
  vb_avail : Z;
  vb_used : Z;
  vb_free : list bool
}.
Arguments mk_vboot {D}.
Arguments vb_dev {D}.
Arguments vb_pages {D}.
Arguments vb_desc {D}.
Arguments vb_avail {D}.
Arguments vb_used {D}.
Arguments vb_free {D}.
#[export] Instance vboot_eta {D} : Settable (vboot D) := λ s,
  mk_vboot (vb_dev s) (vb_pages s) (vb_desc s) (vb_avail s) (vb_used s) (vb_free s).

Section init.
Context `{!KernelImage} {D : Type} `{!VirtioMmio D}.

(** [*R(r)] and [*R(r) = v]: 32-bit accesses. *)
Definition rd (r : Z) : M (vboot D) Z := gets (λ s, u32 (mmio_read r (vb_dev s))).
Definition wr (r v : Z) : M (vboot D) unit := modify (λ s : vboot D, s <| vb_dev := mmio_write r (u32 v) (vb_dev s) |>).
Definition boot_kalloc : M (vboot D) Z := lift vb_pages (λ k (s : vboot D), s <| vb_pages := k |>) kalloc.
Definition zero_page (a : Z) : M (vboot D) unit :=
  lift vb_pages (λ k (s : vboot D), s <| vb_pages := k |>) (modify (λ k : kmem, k <| mem := memset (mem k) a 0 PGSIZE |>)).

(** [features &= ~(1 << bit)] *)
Definition clear_feature (features bit : Z) : Z := Z.land features (u64 (Z.lnot (Z.shiftl 1 bit))).
Definition negotiated (features : Z) : Z :=
  foldl clear_feature features
    [VIRTIO_BLK_F_RO; VIRTIO_BLK_F_SCSI; VIRTIO_BLK_F_CONFIG_WCE; VIRTIO_BLK_F_MQ; VIRTIO_F_ANY_LAYOUT;
     VIRTIO_RING_F_EVENT_IDX; VIRTIO_RING_F_INDIRECT_DESC].

Definition virtio_disk_init : M (vboot D) unit :=
  let! magic := rd VIRTIO_MMIO_MAGIC_VALUE in
  let! version := rd VIRTIO_MMIO_VERSION in
  let! device := rd VIRTIO_MMIO_DEVICE_ID in
  let! vendor := rd VIRTIO_MMIO_VENDOR_ID in
  if negb (magic =? 0x74726976) || negb (version =? 2) || negb (device =? 2) || negb (vendor =? 0x554d4551)
  then panic "could not find virtio disk" else
  let status := 0 in
  do! wr VIRTIO_MMIO_STATUS status in
  let status := Z.lor status VIRTIO_CONFIG_S_ACKNOWLEDGE in
  do! wr VIRTIO_MMIO_STATUS status in
  let status := Z.lor status VIRTIO_CONFIG_S_DRIVER in
  do! wr VIRTIO_MMIO_STATUS status in
  let! features := rd VIRTIO_MMIO_DEVICE_FEATURES in
  do! wr VIRTIO_MMIO_DRIVER_FEATURES (negotiated features) in
  let status := Z.lor status VIRTIO_CONFIG_S_FEATURES_OK in
  do! wr VIRTIO_MMIO_STATUS status in
  let! status := rd VIRTIO_MMIO_STATUS in
  if Z.land status VIRTIO_CONFIG_S_FEATURES_OK =? 0 then panic "virtio disk FEATURES_OK unset" else
  do! wr VIRTIO_MMIO_QUEUE_SEL 0 in
  let! ready := rd VIRTIO_MMIO_QUEUE_READY in
  if negb (ready =? 0) then panic "virtio disk should not be ready" else
  let! max := rd VIRTIO_MMIO_QUEUE_NUM_MAX in
  if max =? 0 then panic "virtio disk has no queue 0" else
  if max <? Z.of_nat NUM then panic "virtio disk max queue too short" else
  let! desc := boot_kalloc in
  do! modify (λ s : vboot D, s <| vb_desc := desc |>) in
  let! avail := boot_kalloc in
  do! modify (λ s : vboot D, s <| vb_avail := avail |>) in
  let! used := boot_kalloc in
  do! modify (λ s : vboot D, s <| vb_used := used |>) in
  if (desc =? 0) || (avail =? 0) || (used =? 0) then panic "virtio disk kalloc" else
  do! zero_page desc in
  do! zero_page avail in
  do! zero_page used in
  do! wr VIRTIO_MMIO_QUEUE_NUM (Z.of_nat NUM) in
  do! wr VIRTIO_MMIO_QUEUE_DESC_LOW desc in
  do! wr VIRTIO_MMIO_QUEUE_DESC_HIGH (Z.shiftr desc 32) in
  do! wr VIRTIO_MMIO_DRIVER_DESC_LOW avail in
  do! wr VIRTIO_MMIO_DRIVER_DESC_HIGH (Z.shiftr avail 32) in
  do! wr VIRTIO_MMIO_DEVICE_DESC_LOW used in
  do! wr VIRTIO_MMIO_DEVICE_DESC_HIGH (Z.shiftr used 32) in
  do! wr VIRTIO_MMIO_QUEUE_READY 0x1 in
  do! for_each (seq 0 NUM) (λ i, modify (λ s : vboot D, s <| vb_free := <[i := true]> (vb_free s) |>)) in
  wr VIRTIO_MMIO_STATUS (Z.lor status VIRTIO_CONFIG_S_DRIVER_OK).
End init.

(** No feature that the driver refuses survives the negotiation. *)
Lemma negotiated_refuses f b :
  b ∈ [VIRTIO_BLK_F_RO; VIRTIO_BLK_F_SCSI; VIRTIO_BLK_F_CONFIG_WCE; VIRTIO_BLK_F_MQ; VIRTIO_F_ANY_LAYOUT;
       VIRTIO_RING_F_EVENT_IDX; VIRTIO_RING_F_INDIRECT_DESC] →
  Z.testbit (negotiated f) b = false.
Proof.
  intros Hb. unfold negotiated. simpl. unfold clear_feature. rewrite !Z.land_spec.
  rewrite list_elem_of_In in Hb. simpl in Hb.
  repeat destruct Hb as [<-|Hb]; [..|done]; by rewrite ?andb_false_r, ?andb_false_l.
Qed.

(** ** A run *)

(** A device whose registers keep what is written; [status] changes are
    recorded in order. *)
Record regs := mk_regs { reg_vals : gmap Z Z; reg_status : list Z }.
#[local] Instance regs_mmio : VirtioMmio regs := {|
  mmio_read r d := default 0 (reg_vals d !! r);
  mmio_write r v d := mk_regs (<[r := v]> (reg_vals d)) (if r =? VIRTIO_MMIO_STATUS then reg_status d ++ [v] else reg_status d)
|}.
#[local] Instance init_image : KernelImage.
Proof. refine {| kend := PHYSTOP - 4 * PGSIZE; etext := 0x80008000; trampoline := 0x80007000 |}; vm_compute; discriminate. Defined.

Definition qemu_disk (vendor max : Z) : regs :=
  mk_regs (list_to_map [(VIRTIO_MMIO_MAGIC_VALUE, 0x74726976); (VIRTIO_MMIO_VERSION, 2); (VIRTIO_MMIO_DEVICE_ID, 2);
    (VIRTIO_MMIO_VENDOR_ID, vendor); (VIRTIO_MMIO_DEVICE_FEATURES, 0x30001ea4); (VIRTIO_MMIO_QUEUE_NUM_MAX, max)]) [].
Definition bring_up (vendor max : Z) : outcome (vboot regs) unit :=
  match kinit (mk_kmem ∅ 0) with
  | Ret _ k => virtio_disk_init (mk_vboot (qemu_disk vendor max) k 0 0 0 (replicate NUM false))
  | _ => NoFuel (mk_vboot (qemu_disk vendor max) (mk_kmem ∅ 0) 0 0 0 [])
  end.

Example disk_comes_up :
  match bring_up 0x554d4551 1024 with
  | Ret _ s => reg_status (vb_dev s) = [0; 1; 3; 11; 15] ∧ vb_free s = replicate NUM true ∧ NoDup [vb_desc s; vb_avail s; vb_used s] ∧
      mmio_read VIRTIO_MMIO_DRIVER_FEATURES (vb_dev s) = 0x00000604 ∧ mmio_read VIRTIO_MMIO_QUEUE_READY (vb_dev s) = 1 ∧
      mmio_read VIRTIO_MMIO_DEVICE_DESC_LOW (vb_dev s) = vb_used s
  | _ => False
  end.
Proof. vm_compute. split_and!; try done. repeat constructor; rewrite ?list_elem_of_In; simpl; intuition discriminate. Qed.

Definition panics (o : outcome (vboot regs) unit) : option string := match o with Panic m _ => Some m | _ => None end.
Example disk_refused :
  panics (bring_up 1 1024) = Some "could not find virtio disk"%string ∧
  panics (bring_up 0x554d4551 4) = Some "virtio disk max queue too short"%string.
Proof. vm_compute. done. Qed.
