(* ===== verification/Mkfs.v ===== *)
(** * The file system builder ([mkfs/mkfs.c])

    The image is a file of blocks of [BSIZE] bytes; a read past its end ends
    the program, as [die] does. A file to be copied is its name and what the
    calls of [read] on it return, or [None] when it cannot be opened. *)

From stdpp Require Import gmap.
From S2P Require Import Prelude.
From S2P Require Import Machine.
From S2P Require Import Bio.
From S2P Require Import Log.
From S2P Require Import Fs.
#[local] Open Scope Z_scope.

Definition NINODES : Z := 200.
Definition nbitmap : Z := FSSIZE / (BSIZE * 8) + 1.
Definition ninodeblocks : Z := NINODES / IPB + 1.
Definition nlog : Z := LOGSIZE.
Definition nmeta : Z := 2 + nlog + ninodeblocks + nbitmap.
Definition nblocks : Z := FSSIZE - nmeta.
Definition zeroes : list Z := replicate (Z.to_nat BSIZE) 0.

(** The number whose bytes in memory are the little-endian bytes of [x]. *)
Definition xshort (x : Z) : Z := le_value (le_bytes 2 x).
Definition xint (x : Z) : Z := le_value (le_bytes 4 x).

(** [sb] as [main] fills it in. *)
Definition mkfs_sb : superblock :=
  mk_superblock FSMAGIC (xint FSSIZE) (xint nblocks) (xint NINODES) (xint nlog) (xint 2) (xint (2 + nlog))
    (xint (2 + nlog + ninodeblocks)).

(** [fsfd], [freeinode] and [freeblock]. *)
Record mst := mk_mst { image : gmap Z (list Z); freeinode : Z; freeblock : Z }.
#[export] Instance mst_eta : Settable mst := λ s, mk_mst (image s) (freeinode s) (freeblock s).

Definition wsect (sec : Z) (buf : list Z) : M mst unit := modify (λ s : mst, s <| image := <[sec := buf]> (image s) |>).
Definition rsect (sec : Z) : M mst (list Z) :=
  let! r := gets (λ s, image s !! sec) in
  match r with Some buf => ret buf | None => panic "read" end.

Definition winode (inum : Z) (ip : dinode) : M mst unit :=
  let bn := IBLOCK inum mkfs_sb in
  let! buf := rsect bn in
  wsect bn (put_dinode buf (dinode_off inum) ip).
Definition rinode (inum : Z) : M mst dinode :=
  let! buf := rsect (IBLOCK inum mkfs_sb) in
  ret (get_dinode buf (dinode_off inum)).

Definition ialloc (type : Z) : M mst Z :=
  let! inum := gets freeinode in
  do! modify (λ s : mst, s <| freeinode := u32 (freeinode s + 1) |>) in
  do! winode inum (mk_dinode (xshort type) 0 0 (xshort 1) (xint 0) (replicate (NDIRECT + 1) 0)) in
  ret inum.

Definition balloc (used : Z) : M mst unit :=
  if negb (used <? BSIZE * 8) then panic "assert" else
  let buf := foldl (λ buf i, alter (λ x, u8 (Z.lor x (Z.shiftl 1 (i mod 8)))) (Z.to_nat (i / 8)) buf) zeroes (seqZ 0 used) in
  wsect (sb_bmapstart mkfs_sb) buf.

(** [freeblock++] *)
Definition next_block : M mst Z :=
  let! b := gets freeblock in
  do! modify (λ s : mst, s <| freeblock := u32 (freeblock s + 1) |>) in
  ret b.

(** The block [x] of block [fbn] of the file, allocated if there is none. *)
Definition iappend_direct (din : dinode) (fbn : Z) : M mst (Z * dinode) :=
  let i := Z.to_nat fbn in
  let! a := (if xint (d_addrs din !!! i) =? 0 then
               let! b := next_block in ret (<[i := xint b]> (d_addrs din))
             else ret (d_addrs din)) in
  let din := mk_dinode (d_type din) (d_major din) (d_minor din) (d_nlink din) (d_size din) a in
  ret (xint (d_addrs din !!! i), din).

Definition iappend_indirect (din : dinode) (fbn : Z) : M mst (Z * dinode) :=
  let! a := (if xint (d_addrs din !!! NDIRECT) =? 0 then
               let! b := next_block in ret (<[NDIRECT := xint b]> (d_addrs din))
             else ret (d_addrs din)) in
  let din := mk_dinode (d_type din) (d_major din) (d_minor din) (d_nlink din) (d_size din) a in
  let! indirect := rsect (xint (d_addrs din !!! NDIRECT)) in
  let off := Z.to_nat (4 * (fbn - Z.of_nat NDIRECT)) in
  let! indirect := (if get32 indirect off =? 0 then
               let! b := next_block in
               let ind := put32 indirect off (xint b) in
               do! wsect (xint (d_addrs din !!! NDIRECT)) ind in
               ret ind
             else ret indirect) in
  ret (xint (get32 indirect off), din).

(** [while(n > 0)]; [p] are the [n] bytes left. *)
Fixpoint iappend_loop (fuel : nat) (p : list Z) (off : Z) (din : dinode) : M mst (Z * dinode) :=
  match fuel with
  | O => λ s, NoFuel s
  | S fuel' =>
      let n := Z.of_nat (length p) in
      if negb (0 <? n) then ret (off, din) else
      let fbn := off / BSIZE in
      if negb (fbn <? MAXFILE) then panic "assert" else
      let! xd := (if fbn <? Z.of_nat NDIRECT then iappend_direct din fbn else iappend_indirect din fbn) in
      let n1 := Z.min n ((fbn + 1) * BSIZE - off) in
      let! buf := rsect xd.1 in
      do! wsect xd.1 (splice buf (Z.to_nat (off - fbn * BSIZE)) (take (Z.to_nat n1) p)) in
      iappend_loop fuel' (drop (Z.to_nat n1) p) (u32 (off + n1)) xd.2
  end.

Definition iappend (inum : Z) (p : list Z) : M mst unit :=
  let! din := rinode inum in
  let! r := iappend_loop (S (length p)) p (xint (d_size din)) din in
  let din := r.2 in
  winode inum (mk_dinode (d_type din) (d_major din) (d_minor din) (d_nlink din) (xint r.1) (d_addrs din)).

(** [de.inum = xshort(inum); strncpy(de.name, name, DIRSIZ)] *)
Definition dirent (inum : Z) (name : list Z) : list Z := mk_dirent (xshort inum) (strncpy_name name).

(** ['/'], ['_'], ['.'] *)
Definition c_slash : Z := 47.
Definition c_underscore : Z := 95.
Definition c_dot : Z := 46.

(** [argv[i]] without "user/"; without a leading underscore. *)
Definition strip_user (name : list Z) : list Z :=
  if decide (take 5 name = [117; 115; 101; 114; c_slash]) then drop 5 name else name.
Definition strip_underscore (name : list Z) : list Z :=
  match name with c :: rest => if c =? c_underscore then rest else name | [] => [] end.

(** [while((cc = read(fd, buf, sizeof(buf))) > 0) iappend(inum, buf, cc)]: the
    loop ends at the first read of no bytes. *)
Fixpoint copy_reads (inum : Z) (reads : list (list Z)) : M mst unit :=
  match reads with
  | [] => ret tt
  | buf :: reads' => if bool_decide (buf = []) then ret tt else do! iappend inum buf in copy_reads inum reads'
  end.

Definition copy_file (rootino : Z) (f : list Z * option (list (list Z))) : M mst unit :=
  let shortname := strip_user f.1 in
  if decide (c_slash ∈ shortname) then panic "assert" else
  match f.2 with
  | None => panic "open"
  | Some reads =>
      let shortname := strip_underscore shortname in
      let! inum := ialloc T_FILE in
      do! iappend rootino (dirent inum shortname) in
      copy_reads inum reads
  end.

(** [din.size = xint(((off/BSIZE) + 1) * BSIZE)] *)
Definition fix_root_size (rootino : Z) : M mst unit :=
  let! din := rinode rootino in
  let off := xint (d_size din) in
  let off := u32 ((off / BSIZE + 1) * BSIZE) in
  winode rootino (mk_dinode (d_type din) (d_major din) (d_minor din) (d_nlink din) (xint off) (d_addrs din)).

(** The image with a zeroed block and the bytes of [sb] in block 1. *)
Definition sb_block : list Z :=
  foldl (λ d (f : nat * Z), put32 d (4 * f.1) f.2) zeroes
    [(0%nat, sb_magic mkfs_sb); (1%nat, sb_size mkfs_sb); (2%nat, sb_nblocks mkfs_sb); (3%nat, sb_ninodes mkfs_sb);
     (4%nat, sb_nlog mkfs_sb); (5%nat, sb_logstart mkfs_sb); (6%nat, sb_inodestart mkfs_sb); (7%nat, sb_bmapstart mkfs_sb)].

Definition mkfs (files : list (list Z * option (list (list Z)))) : M mst unit :=
  do! modify (λ s : mst, s <| freeblock := nmeta |>) in
  do! for_each (seqZ 0 FSSIZE) (λ i, wsect i zeroes) in
  do! wsect 1 sb_block in
  let! rootino := ialloc T_DIR in
  if negb (rootino =? ROOTINO) then panic "assert" else
  do! iappend rootino (dirent rootino [c_dot]) in
  do! iappend rootino (dirent rootino [c_dot; c_dot]) in
  do! for_each files (copy_file rootino) in
  do! fix_root_size rootino in
  let! b := gets freeblock in
  balloc b.

Definition mkfs_start : mst := mk_mst ∅ 1 0.
