(* ===== verification/MkfsSpec.v ===== *)
(** * The files of an image under construction

    Every block a file refers to, directly, through its indirect block or as
    the indirect block, is a slot; no block is in two slots. [iappend] adds
    slots for blocks that are still zero, and bytes to one file. *)

From stdpp Require Import gmap.
From S2P Require Import Prelude.
From S2P Require Import Machine.
From S2P Require Import Bio.
From S2P Require Import BioSpec.
From S2P Require Import Log.
From S2P Require Import LogSpec.
From S2P Require Import Fs.
From S2P Require Import FsInode.
From S2P Require Import FsSpec.
From S2P Require Import FsFile.
From S2P Require Import Mkfs.
#[local] Open Scope Z_scope.

Lemma xint_small x : 0 ≤ x < 2 ^ 32 → xint x = x.
Proof. intros. unfold xint. rewrite le_value_le_bytes. apply Z.mod_small. exact H. Qed.
Lemma xshort_small x : 0 ≤ x < 2 ^ 16 → xshort x = x.
Proof. intros. unfold xshort. rewrite le_value_le_bytes. apply Z.mod_small. exact H. Qed.

(** ** Slots *)

(** The inode with these block addresses. *)
Definition node (A : list Z) : inode := zero_inode <| addrs := A |>.

(** Slot [j] is block [j] of the file, slot [MAXFILE] the indirect block. *)
Definition slot (A : list Z) (c : Z → list Z) (j : Z) : Z := if j =? MAXFILE then A !!! NDIRECT else faddr (node A) c j.
Definition byte_at (A : list Z) (c : Z → list Z) (p : Z) : Z := fbyte (node A) c p.

Definition slot_ix (j : Z) : Prop := 0 ≤ j ≤ MAXFILE.

Lemma maxfile_eq : MAXFILE = 268.
Proof. reflexivity. Qed.
Lemma bsize_eq : BSIZE = 1024.
Proof. reflexivity. Qed.

Lemma slot_block A c j : 0 ≤ j < MAXFILE → slot A c j = faddr (node A) c j.
Proof. intros Hj. unfold slot. destruct (Z.eqb_spec j MAXFILE); [lia|done]. Qed.
Lemma slot_ind A c : slot A c MAXFILE = A !!! NDIRECT.
Proof. unfold slot. by rewrite Z.eqb_refl. Qed.
Lemma indirect_node A : indirect (node A) = A !!! NDIRECT.
Proof. done. Qed.

(** Slots depend on the indirect block only. *)
Lemma slot_frame A c c' j : (A !!! NDIRECT ≠ 0 → c' (A !!! NDIRECT) = c (A !!! NDIRECT)) → slot A c' j = slot A c j.
Proof.
  intros Hc. unfold slot, faddr. rewrite indirect_node. destruct (j =? MAXFILE); [done|]. destruct (_ <? _); [done|].
  destruct (Z.eqb_spec (A !!! NDIRECT) 0); [done|]. by rewrite Hc.
Qed.

(** The block lists [D] of the files, below the first free block. *)
Record slots_ok (c : Z → list Z) (free : Z) (D : list (list Z)) : Prop := {
  so_len : ∀ b, length (c b) = Z.to_nat BSIZE;
  so_free : nmeta ≤ free ≤ FSSIZE;
  so_zero : ∀ b, free ≤ b < FSSIZE → c b = zeroes;
  so_addrs : Forall (λ A, length A = (NDIRECT + 1)%nat ∧ Forall (λ a, 0 ≤ a < 2 ^ 32) A) D;
  so_range : ∀ k A j, D !! k = Some A → slot_ix j → slot A c j ≠ 0 → nmeta ≤ slot A c j < free;
  so_inj : ∀ k1 A1 j1 k2 A2 j2, D !! k1 = Some A1 → D !! k2 = Some A2 → slot_ix j1 → slot_ix j2 →
    slot A1 c j1 = slot A2 c j2 → slot A1 c j1 ≠ 0 → k1 = k2 ∧ j1 = j2
}.

Lemma nmeta_eq : nmeta = 46.
Proof. reflexivity. Qed.

Lemma ind_ix : slot_ix MAXFILE.
Proof. unfold slot_ix. rewrite maxfile_eq. lia. Qed.

Lemma block_ix p : 0 ≤ p < MAXFILE * BSIZE → 0 ≤ p / BSIZE < MAXFILE.
Proof. rewrite maxfile_eq, bsize_eq. intros. dlia. Qed.

(** ** Adding a block to a file *)

Section add.
Context (c c' : Z → list Z) (free : Z) (D : list (list Z)) (k : nat) (A A' : list Z) (j0 : Z).
Context (Hok : slots_ok c free D) (Hk : D !! k = Some A) (Hj0 : slot_ix j0) (Hroom : free < FSSIZE).
Context (HA' : length A' = (NDIRECT + 1)%nat ∧ Forall (λ a, 0 ≤ a < 2 ^ 32) A').
Context (Hnone : slot A c j0 = 0).
Context (Hnew : ∀ j, slot_ix j → slot A' c' j = if decide (j = j0) then free else slot A c j).
(** Only the indirect block of the file changes. *)
Context (Hlen : ∀ b, length (c' b) = Z.to_nat BSIZE).
Context (Hc : ∀ b, A !!! NDIRECT = 0 ∨ b ≠ A !!! NDIRECT → c' b = c b).

(** Nothing but the indirect block is at its address. *)
Lemma add_frame k2 A2 j : D !! k2 = Some A2 → slot_ix j → slot A2 c j ≠ 0 → k2 ≠ k ∨ j ≠ MAXFILE → c' (slot A2 c j) = c (slot A2 c j).
Proof.
  intros H2 Hj Hnz Hne. apply Hc. destruct (decide (A !!! NDIRECT = 0)); [by left|]. right. intros E.
  assert (k2 = k ∧ j = MAXFILE) as [-> ->].
  { apply (so_inj _ _ _ Hok k2 A2 j k A MAXFILE); done. }
  by destruct Hne.
Qed.

Lemma add_other k2 A2 j : D !! k2 = Some A2 → k2 ≠ k → slot A2 c' j = slot A2 c j.
Proof.
  intros H2 Hne. apply slot_frame. intros Hnz. rewrite <- (slot_ind A2 c) in *. apply (add_frame k2); auto using ind_ix.
Qed.

Lemma add_zero b : free ≤ b < FSSIZE → c' b = zeroes.
Proof.
  intros Hb. rewrite Hc; [by apply (so_zero _ _ _ Hok)|].
  destruct (decide (A !!! NDIRECT = 0)) as [|Hn]; [by left|]. right. intros ->.
  pose proof (so_range _ _ _ Hok k A MAXFILE Hk ind_ix) as Hr. rewrite slot_ind in Hr. specialize (Hr Hn). lia.
Qed.

Lemma add_slots : slots_ok c' (free + 1) (<[k := A']> D).
Proof.
  pose proof (so_free _ _ _ Hok) as Hfr. rewrite nmeta_eq in Hfr.
  assert (∀ k2 A2 j, <[k := A']> D !! k2 = Some A2 → slot_ix j → slot A2 c' j ≠ 0 →
    (k2 = k ∧ j = j0 ∧ slot A2 c' j = free) ∨
    ∃ A3, D !! k2 = Some A3 ∧ slot A2 c' j = slot A3 c j ∧ nmeta ≤ slot A3 c j < free) as Hcases.
  { intros k2 A2 j H2 Hj Hnz. apply list_lookup_insert_Some in H2 as [(<- & <- & Hlt)|(Hne & H2)].
    - rewrite Hnew in * by done. case_decide as Ej; [by left|]. right. exists A. split_and!; try done; by eapply (so_range _ _ _ Hok).
    - right. exists A2. rewrite (add_other k2 A2 j H2) in * by done. split_and!; try done; by eapply (so_range _ _ _ Hok). }
  split.
  - done.
  - rewrite nmeta_eq. lia.
  - intros b Hb. apply add_zero. lia.
  - apply Forall_insert; [apply (so_addrs _ _ _ Hok)|done].
  - intros k2 A2 j H2 Hj Hnz. destruct (Hcases k2 A2 j H2 Hj Hnz) as [(_ & _ & ->)|(A3 & _ & -> & Hr)]; [rewrite nmeta_eq|]; lia.
  - intros k1 A1 j1 k2 A2 j2 H1 H2 Hj1 Hj2 E Hnz.
    destruct (Hcases k1 A1 j1 H1 Hj1 Hnz) as [(-> & -> & E1)|(A3 & H3 & E1 & Hr1)];
      destruct (Hcases k2 A2 j2 H2 Hj2 ltac:(congruence)) as [(-> & -> & E2)|(A4 & H4 & E2 & Hr2)]; [done|lia|lia|].
    apply (so_inj _ _ _ Hok k1 A3 j1 k2 A4 j2); try done; congruence.
Qed.

(** The new block is zero, as a missing one reads. *)
Lemma add_bytes_same p : 0 ≤ p < MAXFILE * BSIZE → byte_at A' c' p = byte_at A c p.
Proof.
  intros Hp%block_ix. unfold byte_at, fbyte, fblock. rewrite <- !slot_block by done. rewrite Hnew by (unfold slot_ix; lia).
  case_decide as E.
  - rewrite <- E, Hnone in *. pose proof (so_free _ _ _ Hok) as Hfr. rewrite nmeta_eq in Hfr.
    destruct (Z.eqb_spec free 0); [lia|]. rewrite add_zero by lia. done.
  - destruct (Z.eqb_spec (slot A c (p / BSIZE)) 0); [done|]. rewrite (add_frame k A); try done; [unfold slot_ix; lia|right; lia].
Qed.

Lemma add_bytes_other k2 A2 p : D !! k2 = Some A2 → k2 ≠ k → 0 ≤ p < MAXFILE * BSIZE → byte_at A2 c' p = byte_at A2 c p.
Proof.
  intros H2 Hne Hp%block_ix. unfold byte_at, fbyte, fblock. rewrite <- !slot_block by done. rewrite (add_other k2) by done.
  destruct (Z.eqb_spec (slot A2 c (p / BSIZE)) 0); [done|]. rewrite (add_frame k2 A2); try done; [unfold slot_ix; lia|by left].
Qed.
End add.

(** ** Writing a block of a file *)

Section write.
Context (c : Z → list Z) (free : Z) (D : list (list Z)) (k : nat) (A : list Z) (bn : Z) (buf : list Z).
Context (Hok : slots_ok c free D) (Hk : D !! k = Some A) (Hbn : 0 ≤ bn < MAXFILE) (Hnz : slot A c bn ≠ 0).
Context (Hbuf : length buf = Z.to_nat BSIZE).
#[local] Abbreviation c1 := (fset (slot A c bn) buf c).

Lemma bn_ix : slot_ix bn.
Proof. unfold slot_ix. lia. Qed.

Lemma write_frame k2 A2 j : D !! k2 = Some A2 → slot_ix j → slot A2 c j ≠ 0 → k2 ≠ k ∨ j ≠ bn → c1 (slot A2 c j) = c (slot A2 c j).
Proof.
  intros H2 Hj Hn Hne. apply fset_ne. intros E.
  destruct (so_inj _ _ _ Hok k2 A2 j k A bn H2 Hk Hj bn_ix E Hn) as [-> ->]. by destruct Hne.
Qed.

Lemma write_slot k2 A2 j : D !! k2 = Some A2 → slot A2 c1 j = slot A2 c j.
Proof.
  intros H2. apply slot_frame. intros Hn. rewrite <- (slot_ind A2 c) in *. apply (write_frame k2); try done. right. lia.
Qed.

Lemma write_slots : slots_ok c1 free D.
Proof.
  pose proof (so_range _ _ _ Hok k A bn Hk bn_ix Hnz) as Hr. destruct Hok as [H1 H2 H3 H4 H5 H6]. split; try done.
  - intros b. unfold fset. by case_decide.
  - intros b Hb. rewrite fset_ne by lia. auto.
  - intros k2 A2 j E Hj. rewrite (write_slot k2) by done. eauto.
  - intros k1 A1 j1 k2 A2 j2 E1 E2 Hj1 Hj2. rewrite (write_slot k1), (write_slot k2) by done. eauto.
Qed.

Lemma write_bytes_same p :
  0 ≤ p < MAXFILE * BSIZE → byte_at A c1 p = if decide (p / BSIZE = bn) then buf !!! Z.to_nat (p mod BSIZE) else byte_at A c p.
Proof.
  intros Hp%block_ix. unfold byte_at, fbyte, fblock. rewrite <- !slot_block by done. rewrite (write_slot k) by done. case_decide as E.
  - rewrite E. destruct (Z.eqb_spec (slot A c bn) 0); [done|]. by rewrite fset_eq.
  - destruct (Z.eqb_spec (slot A c (p / BSIZE)) 0); [done|]. rewrite (write_frame k A); try done; [unfold slot_ix; lia|by right].
Qed.

Lemma write_bytes_other k2 A2 p : D !! k2 = Some A2 → k2 ≠ k → 0 ≤ p < MAXFILE * BSIZE → byte_at A2 c1 p = byte_at A2 c p.
Proof.
  intros H2 Hne Hp%block_ix. unfold byte_at, fbyte, fblock. rewrite <- !slot_block by done. rewrite (write_slot k2) by done.
  destruct (Z.eqb_spec (slot A2 c (p / BSIZE)) 0); [done|]. rewrite (write_frame k2 A2); try done; [unfold slot_ix; lia|by left].
Qed.
End write.

(** ** Running the code on blocks *)

(** The image is the file of [FSSIZE] blocks [c]. *)
Definition view (s : mst) (c : Z → list Z) : Prop := ∀ b, 0 ≤ b < FSSIZE → image s !! b = Some (c b).

Lemma rsect_view s c b : view s c → 0 ≤ b < FSSIZE → rsect b s = Ret (c b) s.
Proof. intros Hv Hb. unfold rsect. erewrite bind_eq; [|reflexivity]. by rewrite Hv. Qed.

Lemma wsect_view s c b buf : view s c → 0 ≤ b < FSSIZE → view (s <| image := <[b := buf]> (image s) |>) (fset b buf c).
Proof.
  intros Hv Hb x Hx. simpl. unfold fset. case_decide as E.
  - subst. by rewrite lookup_insert_eq.
  - rewrite lookup_insert_ne by done. auto.
Qed.

Lemma next_block_eq s : next_block s = Ret (freeblock s) (s <| freeblock := u32 (freeblock s + 1) |>).
Proof. done. Qed.

(** The addresses of a file. *)
Lemma addr_small c free D k A i :
  slots_ok c free D → D !! k = Some A → (i ≤ NDIRECT)%nat → 0 ≤ A !!! i < 2 ^ 32 ∧ xint (A !!! i) = A !!! i.
Proof.
  intros Hok Hk Hi. pose proof (so_addrs _ _ _ Hok) as Ha. rewrite Forall_lookup in Ha. destruct (Ha k A Hk) as [Hl Hr].
  rewrite Forall_forall in Hr. assert (0 ≤ A !!! i < 2 ^ 32) as H1.
  { apply Hr. eapply list_elem_of_lookup_2, list_lookup_lookup_total_lt. lia. }
  split; [done|]. by apply xint_small.
Qed.

Lemma slot_direct A c j : 0 ≤ j < Z.of_nat NDIRECT → slot A c j = A !!! Z.to_nat j.
Proof.
  intros Hj. rewrite slot_block by (rewrite maxfile_eq; unfold NDIRECT in *; lia). unfold faddr.
  destruct (Z.ltb_spec j (Z.of_nat NDIRECT)); [done|lia].
Qed.
Lemma slot_indirect A c j :
  Z.of_nat NDIRECT ≤ j < MAXFILE →
  slot A c j = if A !!! NDIRECT =? 0 then 0 else get32 (c (A !!! NDIRECT)) (4 * Z.to_nat (j - Z.of_nat NDIRECT)).
Proof.
  intros Hj. rewrite slot_block by (unfold NDIRECT in *; lia). unfold faddr. rewrite indirect_node.
  destruct (Z.ltb_spec j (Z.of_nat NDIRECT)); [lia|done].
Qed.

(** ** Extending a file by blocks *)

(** From [c] and the block list [A] of file [k], the slots in [J] got new
    blocks; no byte of any file changed. *)
Record ext (D : list (list Z)) (k : nat) (s : mst) c A (J : list Z) (s' : mst) c' A' : Prop := {
  e_view : view s' c';
  e_slots : slots_ok c' (freeblock s') (<[k := A']> D);
  e_slot : ∀ j, slot_ix j → slot A' c' j ≠ 0 ↔ slot A c j ≠ 0 ∨ j ∈ J;
  e_free : freeblock s' = freeblock s + Z.of_nat (length J);
  e_same : ∀ p, 0 ≤ p < MAXFILE * BSIZE → byte_at A' c' p = byte_at A c p;
  e_other : ∀ k2 A2, D !! k2 = Some A2 → k2 ≠ k →
    (∀ j, slot A2 c' j = slot A2 c j) ∧ ∀ p, 0 ≤ p < MAXFILE * BSIZE → byte_at A2 c' p = byte_at A2 c p;
  e_meta : ∀ b, b < nmeta → c' b = c b;
  e_ino : freeinode s' = freeinode s
}.

Lemma ext_refl D k s c A : view s c → slots_ok c (freeblock s) D → D !! k = Some A → ext D k s c A [] s c A.
Proof.
  intros Hv Hok Hk. split; try done.
  - by rewrite list_insert_id.
  - intros j _. rewrite elem_of_nil. tauto.
  - simpl. lia.
Qed.

Lemma ext_trans D k s c A J s1 c1 A1 J' s2 c2 A2 :
  (k < length D)%nat → ext D k s c A J s1 c1 A1 → ext (<[k := A1]> D) k s1 c1 A1 J' s2 c2 A2 → ext D k s c A (J ++ J') s2 c2 A2.
Proof.
  intros Hk [V1 S1 L1 F1 B1 O1 M1 I1] [V2 S2 L2 F2 B2 O2 M2 I2]. split; try done.
  - by rewrite list_insert_insert_eq in S2.
  - intros j Hj. rewrite L2, L1, elem_of_app by done. tauto.
  - rewrite F2, F1, length_app. lia.
  - intros p Hp. by rewrite B2, B1.
  - intros k2 A3 H3 Hne. destruct (O1 k2 A3 H3 Hne) as [X1 Y1]. destruct (O2 k2 A3) as [X2 Y2]; [by rewrite list_lookup_insert_ne|done|].
    split; [intros j; by rewrite X2|intros p Hp; by rewrite Y2, Y1].
  - intros b Hb. by rewrite M2, M1.
  - congruence.
Qed.

(** A single new block, [freeblock]. *)
Lemma ext_add D k s c A j0 s' c' A' :
  view s c → slots_ok c (freeblock s) D → D !! k = Some A → slot_ix j0 → freeblock s < FSSIZE →
  length A' = (NDIRECT + 1)%nat ∧ Forall (λ a, 0 ≤ a < 2 ^ 32) A' → slot A c j0 = 0 →
  (∀ j, slot_ix j → slot A' c' j = if decide (j = j0) then freeblock s else slot A c j) →
  (∀ b, length (c' b) = Z.to_nat BSIZE) → (∀ b, A !!! NDIRECT = 0 ∨ b ≠ A !!! NDIRECT → c' b = c b) →
  view s' c' → freeblock s' = u32 (freeblock s + 1) → freeinode s' = freeinode s →
  ext D k s c A [j0] s' c' A'.
Proof.
  intros Hv Hok Hk Hj0 Hroom HA' Hnone Hnew Hlen Hc Hv' Hf Hi.
  pose proof (so_free _ _ _ Hok) as Hfr. rewrite nmeta_eq in Hfr.
  assert (freeblock s' = freeblock s + 1) as Hf' by (rewrite Hf, u32_small; unfold FSSIZE in *; lia).
  split; try done.
  - rewrite Hf'. by eapply add_slots.
  - intros j Hj. rewrite Hnew by done. rewrite list_elem_of_singleton. case_decide; [|tauto]. split; [by right|lia].
  - exact (add_bytes_same c c' _ D k A A' j0 Hok Hk Hj0 Hroom HA' Hnone Hnew Hc).
  - intros k2 A2 H2 Hne. split.
    + intros j. exact (add_other c c' _ D k A Hok Hk Hc k2 A2 j H2 Hne).
    + intros p. exact (add_bytes_other c c' _ D k A A' Hok Hk HA' Hc k2 A2 p H2 Hne).
  - intros b Hb. apply Hc. destruct (decide (A !!! NDIRECT = 0)) as [|Hn]; [by left|]. right. intros ->.
    pose proof (so_range _ _ _ Hok k A MAXFILE Hk ind_ix) as Hr. rewrite slot_ind in Hr. specialize (Hr Hn). lia.
Qed.

Lemma addrs_insert c free D k A i x :
  slots_ok c free D → D !! k = Some A → 0 ≤ x < 2 ^ 32 →
  length (<[i := x]> A) = (NDIRECT + 1)%nat ∧ Forall (λ a, 0 ≤ a < 2 ^ 32) (<[i := x]> A).
Proof.
  intros Hok Hk Hx. pose proof (so_addrs _ _ _ Hok) as Ha. rewrite Forall_lookup in Ha. destruct (Ha k A Hk) as [Hl Hr].
  rewrite length_insert. split; [done|]. by apply Forall_insert.
Qed.

Definition with_addrs (din : dinode) (A : list Z) : dinode :=
  mk_dinode (d_type din) (d_major din) (d_minor din) (d_nlink din) (d_size din) A.

(** The slots that block [fbn] of the file needs and does not have. *)
Definition missing (A : list Z) (c : Z → list Z) (fbn : Z) : list Z :=
  (if decide (Z.of_nat NDIRECT ≤ fbn ∧ A !!! NDIRECT = 0) then [MAXFILE] else []) ++
  (if decide (slot A c fbn = 0) then [fbn] else []).

Lemma fresh_range c s D : slots_ok c (freeblock s) D → 0 ≤ freeblock s < 2 ^ 32.
Proof. intros Hok. pose proof (so_free _ _ _ Hok) as Hf. rewrite nmeta_eq in Hf. unfold FSSIZE in Hf. lia. Qed.

Section blocks.
Context (D : list (list Z)) (k : nat) (din : dinode) (s : mst) (c : Z → list Z) (fbn : Z).
#[local] Abbreviation A := (d_addrs din).
Context (Hv : view s c) (Hok : slots_ok c (freeblock s) D) (Hk : D !! k = Some A) (Hbn : 0 ≤ fbn < MAXFILE).
Context (Hroom : freeblock s + Z.of_nat (length (missing A c fbn)) ≤ FSSIZE).

Lemma iappend_direct_spec :
  fbn < Z.of_nat NDIRECT →
  ∃ s' c' A', iappend_direct din fbn s = Ret (slot A' c' fbn, with_addrs din A') s' ∧
    ext D k s c A (missing A c fbn) s' c' A' ∧ slot A' c' fbn ≠ 0.
Proof.
  intros Hd. unfold missing in *. rewrite decide_False in * by lia. pose proof (fresh_range _ _ _ Hok) as Hfr.
  assert (Z.to_nat fbn ≤ NDIRECT)%nat as Hi by lia.
  destruct (addr_small _ _ _ _ _ _ Hok Hk Hi) as [Ha Hx].
  assert (slot A c fbn = A !!! Z.to_nat fbn) as Es by (apply slot_direct; lia).
  unfold iappend_direct. rewrite Hx, <- Es. destruct (Z.eqb_spec (slot A c fbn) 0) as [E|E].
  - rewrite decide_True in * by done. simpl in Hroom.
    set (A' := <[Z.to_nat fbn := freeblock s]> A).
    assert (length A = (NDIRECT + 1)%nat) as Hl.
    { pose proof (so_addrs _ _ _ Hok) as Hf. rewrite Forall_lookup in Hf. by destruct (Hf k _ Hk). }
    assert (A' !!! Z.to_nat fbn = freeblock s) as EA by (apply list_lookup_total_insert_eq; unfold NDIRECT in *; lia).
    assert (∀ j, slot_ix j → slot A' c j = if decide (j = fbn) then freeblock s else slot A c j) as Hnew.
    { intros j Hj. destruct (decide (j = MAXFILE)) as [->|Hm].
      - rewrite !slot_ind, decide_False by lia. apply list_lookup_total_insert_ne. lia.
      - unfold slot_ix in Hj. destruct (decide (j < Z.of_nat NDIRECT)).
        + rewrite !slot_direct by lia. case_decide as Ej; [subst; done|]. apply list_lookup_total_insert_ne. lia.
        + rewrite !slot_indirect, decide_False by lia. unfold A'. rewrite list_lookup_total_insert_ne by lia. done. }
    eexists _, c, A'. split; [|split].
    + erewrite bind_eq; [|erewrite bind_eq; [|apply next_block_eq]; rewrite xint_small by done; reflexivity].
      unfold ret. fold A'. unfold with_addrs. cbn [d_addrs]. rewrite EA, xint_small by done.
      by rewrite Hnew, decide_True by (unfold slot_ix; lia || done).
    + apply ext_add; try done; [unfold slot_ix; lia|lia|by eapply addrs_insert|apply Hok].
    + rewrite Hnew, decide_True by (unfold slot_ix; lia || done). pose proof (so_free _ _ _ Hok) as H. rewrite nmeta_eq in H. lia.
  - rewrite decide_False by done. exists s, c, A. split_and!; [|by apply ext_refl|done].
    erewrite bind_eq; [|reflexivity]. unfold ret, with_addrs. cbn [d_addrs]. rewrite Hx, Es. by destruct din.
Qed.
End blocks.

Lemma get32_zeroes off : (off + 4 ≤ Z.to_nat BSIZE)%nat → get32 zeroes off = 0.
Proof.
  intros Ho. unfold get32, zeroes. rewrite drop_replicate, take_replicate, Nat.min_l by (rewrite bsize_eq in *; lia). reflexivity.
Qed.

(** The indirect block of the file, allocated if there is none. *)
Lemma indirect_block_spec D k A s c :
  view s c → slots_ok c (freeblock s) D → D !! k = Some A → (A !!! NDIRECT = 0 → freeblock s < FSSIZE) →
  ∃ s' A', (if xint (A !!! NDIRECT) =? 0 then let! b := next_block in ret (<[NDIRECT := xint b]> A) else ret A) s = Ret A' s' ∧
    ext D k s c A (if decide (A !!! NDIRECT = 0) then [MAXFILE] else []) s' c A' ∧ A' !!! NDIRECT ≠ 0 ∧
    ∀ j, 0 ≤ j < MAXFILE → slot A' c j = slot A c j.
Proof.
  intros Hv Hok Hk Hroom. pose proof (fresh_range _ _ _ Hok) as Hfr. pose proof (so_free _ _ _ Hok) as Hfree. rewrite nmeta_eq in Hfree.
  destruct (addr_small _ _ _ _ _ NDIRECT Hok Hk ltac:(lia)) as [Ha Hx]. rewrite Hx.
  destruct (Z.eqb_spec (A !!! NDIRECT) 0) as [E|E].
  - rewrite decide_True by done. specialize (Hroom E). set (A' := <[NDIRECT := freeblock s]> A).
    assert (length A = (NDIRECT + 1)%nat) as Hl.
    { pose proof (so_addrs _ _ _ Hok) as Hf. rewrite Forall_lookup in Hf. by destruct (Hf k _ Hk). }
    assert (A' !!! NDIRECT = freeblock s) as EA by (apply list_lookup_total_insert_eq; lia).
    assert (∀ j, 0 ≤ j < MAXFILE → slot A' c j = slot A c j) as Hsame.
    { intros j Hj. destruct (decide (j < Z.of_nat NDIRECT)).
      - rewrite !slot_direct by lia. apply list_lookup_total_insert_ne. lia.
      - rewrite !slot_indirect by lia. rewrite EA, E. simpl. destruct (Z.eqb_spec (freeblock s) 0); [lia|].
        rewrite (so_zero _ _ _ Hok) by lia. apply get32_zeroes. rewrite maxfile_eq, bsize_eq in *. unfold NDIRECT in *. lia. }
    eexists _, A'. split; [|split_and!].
    + erewrite bind_eq; [|apply next_block_eq]. rewrite xint_small by done. reflexivity.
    + apply ext_add; try done; [by eapply addrs_insert| |apply Hok].
      intros j Hj. case_decide as Ej; [subst; by rewrite slot_ind|]. apply Hsame. unfold slot_ix in Hj. lia.
    + rewrite EA. lia.
    + done.
  - rewrite decide_False by done. exists s, A. split_and!; try done. by apply ext_refl.
Qed.

(** The entry of the indirect block, allocated if there is none. *)
Lemma indirect_entry_spec D k A s c fbn :
  view s c → slots_ok c (freeblock s) D → D !! k = Some A → Z.of_nat NDIRECT ≤ fbn < MAXFILE → A !!! NDIRECT ≠ 0 →
  (slot A c fbn = 0 → freeblock s < FSSIZE) →
  let off := Z.to_nat (4 * (fbn - Z.of_nat NDIRECT)) in
  ∃ s' c', (if get32 (c (A !!! NDIRECT)) off =? 0 then
       let! b := next_block in
       let ind := put32 (c (A !!! NDIRECT)) off (xint b) in
       do! wsect (xint (A !!! NDIRECT)) ind in ret ind
     else ret (c (A !!! NDIRECT))) s = Ret (c' (A !!! NDIRECT)) s' ∧
    ext D k s c A (if decide (slot A c fbn = 0) then [fbn] else []) s' c' A ∧ slot A c' fbn ≠ 0.
Proof.
  intros Hv Hok Hk Hbn Hnz Hroom off. pose proof (fresh_range _ _ _ Hok) as Hfr. pose proof (so_free _ _ _ Hok) as Hfree. rewrite nmeta_eq in Hfree.
  destruct (addr_small _ _ _ _ _ NDIRECT Hok Hk ltac:(lia)) as [Ha Hx].
  assert (off = 4 * Z.to_nat (fbn - Z.of_nat NDIRECT))%nat as Eoff by (unfold off; lia).
  assert (∀ c1, slot A c1 fbn = get32 (c1 (A !!! NDIRECT)) off) as Es.
  { intros c1. rewrite slot_indirect by done. destruct (Z.eqb_spec (A !!! NDIRECT) 0); [done|]. by rewrite Eoff. }
  rewrite <- Es. destruct (Z.eqb_spec (slot A c fbn) 0) as [E|E].
  2: { rewrite decide_False by done. exists s, c. split_and!; [done|by apply ext_refl|done]. }
  rewrite decide_True by done. specialize (Hroom E).
  assert (nmeta ≤ A !!! NDIRECT < freeblock s) as Hr.
  { rewrite <- (slot_ind A c) in Hnz |- *. by apply (so_range _ _ _ Hok k A MAXFILE Hk ind_ix). }
  rewrite nmeta_eq in Hr. unfold FSSIZE in Hfree, Hroom.
  assert (off + 4 ≤ Z.to_nat BSIZE)%nat as Ho by (rewrite maxfile_eq, bsize_eq in *; unfold NDIRECT in *; lia).
  set (ind := put32 (c (A !!! NDIRECT)) off (freeblock s)). set (c' := fset (A !!! NDIRECT) ind c).
  assert (length ind = Z.to_nat BSIZE) as Hli by (unfold ind; rewrite length_put32; rewrite (so_len _ _ _ Hok); done).
  assert (c' (A !!! NDIRECT) = ind) as Ec by apply fset_eq.
  assert (get32 ind off = freeblock s) as Eg.
  { unfold ind. rewrite get_put32_eq by (by rewrite (so_len _ _ _ Hok)). by apply u32_small. }
  assert (∀ j, slot_ix j → slot A c' j = if decide (j = fbn) then freeblock s else slot A c j) as Hnew.
  { intros j Hj. destruct (decide (j = MAXFILE)) as [->|Hm]; [rewrite !slot_ind, decide_False by lia; done|].
    unfold slot_ix in Hj. destruct (decide (j < Z.of_nat NDIRECT)).
    - rewrite !slot_direct, decide_False by lia. done.
    - rewrite !slot_indirect by lia. destruct (Z.eqb_spec (A !!! NDIRECT) 0); [done|]. rewrite Ec.
      case_decide as Ej; [subst j; by rewrite <- Eoff|]. unfold ind. apply get_put32_ne.
      + rewrite (so_len _ _ _ Hok). lia.
      + rewrite Eoff. lia. }
  eexists _, c'. split; [|split].
  - erewrite bind_eq; [|apply next_block_eq]. rewrite xint_small by done. cbv zeta. fold ind. rewrite Hx.
    erewrite bind_eq; [|reflexivity]. by rewrite Ec.
  - apply ext_add; try done; [unfold slot_ix; lia| | | |].
    + pose proof (so_addrs _ _ _ Hok) as Hf. rewrite Forall_lookup in Hf. by apply (Hf k).
    + intros b. unfold c', fset. case_decide; [done|]. apply Hok.
    + intros b [?|Hb]; [done|]. by apply fset_ne.
    + intros b Hb. apply (wsect_view s); [done|unfold FSSIZE; lia|done].
  - rewrite Es, Ec, Eg. lia.
Qed.

Lemma iappend_indirect_spec D k din s c fbn :
  view s c → slots_ok c (freeblock s) D → D !! k = Some (d_addrs din) → Z.of_nat NDIRECT ≤ fbn < MAXFILE →
  freeblock s + Z.of_nat (length (missing (d_addrs din) c fbn)) ≤ FSSIZE →
  ∃ s' c' A', iappend_indirect din fbn s = Ret (slot A' c' fbn, with_addrs din A') s' ∧
    ext D k s c (d_addrs din) (missing (d_addrs din) c fbn) s' c' A' ∧ slot A' c' fbn ≠ 0.
Proof.
  intros Hv Hok Hk Hbn Hroom. unfold missing in *. rewrite length_app in Hroom.
  pose proof (lookup_lt_Some _ _ _ Hk) as Hlt.
  destruct (indirect_block_spec D k (d_addrs din) s c Hv Hok Hk) as (s1 & A1 & E1 & X1 & Hnz & Hsame).
  { intros E. rewrite decide_True in Hroom by (split; [lia|done]). simpl in Hroom. lia. }
  assert (<[k := A1]> D !! k = Some A1) as Hk1 by (by apply list_lookup_insert_eq).
  pose proof (e_slots _ _ _ _ _ _ _ _ _ X1) as Hok1. pose proof (e_view _ _ _ _ _ _ _ _ _ X1) as Hv1.
  assert (nmeta ≤ A1 !!! NDIRECT < freeblock s1) as Hr.
  { rewrite <- (slot_ind A1 c) in Hnz |- *. by apply (so_range _ _ _ Hok1 k A1 MAXFILE Hk1 ind_ix). }
  pose proof (so_free _ _ _ Hok1) as Hfree. rewrite nmeta_eq in Hr, Hfree.
  destruct (indirect_entry_spec _ k A1 s1 c fbn Hv1 Hok1 Hk1 Hbn Hnz) as (s2 & c2 & E2 & X2 & Hn2).
  { rewrite Hsame by (unfold NDIRECT in *; lia). intros E. rewrite (e_free _ _ _ _ _ _ _ _ _ X1).
    rewrite (decide_True (P := slot _ _ _ = 0)) in Hroom by done. simpl in Hroom. repeat case_decide; simpl in *; lia. }
  destruct (addr_small _ _ _ _ _ NDIRECT Hok1 Hk1 ltac:(lia)) as [_ Hx1].
  exists s2, c2, A1. split; [|split; [|done]].
  - unfold iappend_indirect. rewrite (bind_eq _ _ _ _ _ E1). fold (with_addrs din A1). cbv zeta.
    change (d_addrs (with_addrs din A1)) with A1. rewrite Hx1.
    erewrite bind_eq; [|apply (rsect_view s1 c); [done|lia]]. rewrite Hx1 in E2. rewrite (bind_eq _ _ _ _ _ E2). unfold ret. do 2 f_equal.
    rewrite slot_indirect by done. destruct (Z.eqb_spec (A1 !!! NDIRECT) 0); [done|].
    replace (Z.to_nat (4 * (fbn - Z.of_nat NDIRECT))) with (4 * Z.to_nat (fbn - Z.of_nat NDIRECT))%nat by lia.
    apply xint_small, get32_range.
  - rewrite (decide_ext _ (d_addrs din !!! NDIRECT = 0)) by tauto.
    eapply ext_trans; [done|exact X1|]. by rewrite Hsame in X2 by (unfold NDIRECT in *; lia).
Qed.

(** ** One turn of [iappend] *)

Lemma iappend_block_spec D k din s c fbn :
  view s c → slots_ok c (freeblock s) D → D !! k = Some (d_addrs din) → 0 ≤ fbn < MAXFILE →
  freeblock s + Z.of_nat (length (missing (d_addrs din) c fbn)) ≤ FSSIZE →
  ∃ s' c' A', (if fbn <? Z.of_nat NDIRECT then iappend_direct din fbn else iappend_indirect din fbn) s =
      Ret (slot A' c' fbn, with_addrs din A') s' ∧
    ext D k s c (d_addrs din) (missing (d_addrs din) c fbn) s' c' A' ∧ slot A' c' fbn ≠ 0.
Proof.
  intros. destruct (Z.ltb_spec fbn (Z.of_nat NDIRECT)); [by apply iappend_direct_spec|apply iappend_indirect_spec; done || lia].
Qed.
