(* ===== verification/MkfsFile.v ===== *)
(** * [iappend] on files as lists of bytes *)

From stdpp Require Import gmap.
From S2P Require Import Prelude.
From S2P Require Import Machine.
From S2P Require Import Bio.
From S2P Require Import BioSpec.
From S2P Require Import Log.
From S2P Require Import LogSpec.
From S2P Require Import Fs.
From S2P Require Import FsInode.
From S2P Require Import FsSpec.
From S2P Require Import FsFile.
From S2P Require Import Mkfs.
From S2P Require Import MkfsSpec.
#[local] Open Scope Z_scope.

(** The slots and the number of blocks of a file of [n] bytes. *)
Definition has_slot (n j : Z) : Prop := (j < MAXFILE ∧ j * BSIZE < n) ∨ (j = MAXFILE ∧ Z.of_nat NDIRECT * BSIZE < n).
Definition blocks (n : Z) : Z := (n + BSIZE - 1) / BSIZE + (if decide (Z.of_nat NDIRECT * BSIZE < n) then 1 else 0).

(** The files of the image have the contents [L]. *)
Record files (c : Z → list Z) (D L : list (list Z)) : Prop := {
  fl_len : length D = length L;
  fl_max : Forall (λ l, Z.of_nat (length l) ≤ MAXFILE * BSIZE) L;
  fl_bytes : ∀ k A l, D !! k = Some A → L !! k = Some l → ∀ p, 0 ≤ p < MAXFILE * BSIZE →
    byte_at A c p = default 0 (l !! Z.to_nat p);
  fl_slots : ∀ k A l, D !! k = Some A → L !! k = Some l → ∀ j, slot_ix j →
    slot A c j ≠ 0 ↔ has_slot (Z.of_nat (length l)) j
}.

Lemma blocks_mono a b : 0 ≤ a ≤ b → 0 ≤ blocks a ≤ blocks b.
Proof. intros Hab. unfold blocks. rewrite bsize_eq. unfold NDIRECT. repeat case_decide; dlia. Qed.

(** The new blocks of one turn are those the longer file has more. *)
Lemma missing_blocks c D L k A l n1 :
  files c D L → D !! k = Some A → L !! k = Some l →
  let off := Z.of_nat (length l) in
  let fbn := off / BSIZE in
  0 ≤ fbn < MAXFILE → 0 < n1 ≤ (fbn + 1) * BSIZE - off →
  Z.of_nat (length (missing A c fbn)) = blocks (off + n1) - blocks off.
Proof.
  intros HF Hk Hl off fbn Hbn Hn1. pose proof (fl_slots _ _ _ HF k A l Hk Hl fbn ltac:(unfold slot_ix; lia)) as H1.
  pose proof (fl_slots _ _ _ HF k A l Hk Hl MAXFILE ind_ix) as H2. rewrite slot_ind in H2. fold off in H1, H2.
  unfold missing, blocks, has_slot in *. rewrite length_app. fold off in Hn1 |- *.
  assert (slot A c fbn = 0 ↔ off mod BSIZE = 0) as E1.
  { destruct (decide (slot A c fbn = 0)); unfold fbn in *; rewrite maxfile_eq, bsize_eq in *; dlia. }
  assert (A !!! NDIRECT = 0 ↔ off ≤ Z.of_nat NDIRECT * BSIZE) as E2 by (destruct (decide (A !!! NDIRECT = 0)); lia).
  clear H1 H2. unfold fbn in *. rewrite maxfile_eq, bsize_eq in *. unfold NDIRECT in *.
  repeat case_decide; simpl length; dlia.
Qed.

Lemma elem_of_when (P : Prop) `{!Decision P} (x y : Z) : x ∈ (if decide P then [y] else []) ↔ P ∧ x = y.
Proof. case_decide; rewrite ?list_elem_of_singleton, ?elem_of_nil; tauto. Qed.

(** ** One turn *)

(** The image under construction. *)
Record holds (s : mst) (c : Z → list Z) (D L : list (list Z)) : Prop := {
  hd_view : view s c;
  hd_slots : slots_ok c (freeblock s) D;
  hd_files : files c D L
}.

(** File [k] gets the bytes [z], with block addresses [A'] after. *)
Record grow (s : mst) c D L (k : nat) (z : list Z) (s' : mst) c' A' : Prop := {
  g_holds : holds s' c' (<[k := A']> D) (alter (.++ z) k L);
  g_free : freeblock s' = freeblock s + blocks (Z.of_nat (length (L !!! k ++ z))) - blocks (Z.of_nat (length (L !!! k)));
  g_meta : ∀ b, b < nmeta → c' b = c b;
  g_ino : freeinode s' = freeinode s
}.

(** A turn writes inside block [fbn]. *)
Lemma write_append (buf l z : list Z) bn p :
  length buf = Z.to_nat BSIZE → bn = Z.of_nat (length l) / BSIZE → Z.of_nat (length l + length z) ≤ (bn + 1) * BSIZE →
  0 ≤ p → p / BSIZE = bn → buf !!! Z.to_nat (p mod BSIZE) = default 0 (l !! Z.to_nat p) →
  splice buf (Z.to_nat (Z.of_nat (length l) - bn * BSIZE)) z !!! Z.to_nat (p mod BSIZE) = default 0 ((l ++ z) !! Z.to_nat p).
Proof.
  intros Hb Ebn Hn Hp Epn Hold. rewrite bsize_eq in *. rewrite splice_lookup by (rewrite Hb; dlia). case_decide as Hd.
  - rewrite lookup_app_r by dlia. replace (Z.to_nat p - length l)%nat with (Z.to_nat (p mod 1024) - Z.to_nat (Z.of_nat (length l) - bn * 1024))%nat by dlia.
    by rewrite list_lookup_lookup_total_lt by dlia.
  - rewrite Hold. destruct (decide (Z.to_nat p < length l)%nat).
    + by rewrite lookup_app_l.
    + rewrite !lookup_ge_None_2; rewrite ?length_app; dlia.
Qed.

Section turn.
Context (s s1 : mst) (c c1 : Z → list Z) (D L : list (list Z)) (k : nat) (A A1 l z : list Z).
#[local] Abbreviation off := (Z.of_nat (length l)).
#[local] Abbreviation fbn := (off / BSIZE).
Context (HH : holds s c D L) (Hk : D !! k = Some A) (Hl : L !! k = Some l) (Hbn : 0 ≤ fbn < MAXFILE).
Context (Hz : 0 < Z.of_nat (length z) ≤ (fbn + 1) * BSIZE - off).
Context (X : ext D k s c A (missing A c fbn) s1 c1 A1) (Hnz : slot A1 c1 fbn ≠ 0).
#[local] Abbreviation buf := (splice (c1 (slot A1 c1 fbn)) (Z.to_nat (off - fbn * BSIZE)) z).
#[local] Abbreviation c2 := (fset (slot A1 c1 fbn) buf c1).

Lemma turn_at : <[k := A1]> D !! k = Some A1.
Proof. apply list_lookup_insert_eq. by eapply lookup_lt_Some. Qed.

Lemma turn_buf : length (c1 (slot A1 c1 fbn)) = Z.to_nat BSIZE ∧ length buf = Z.to_nat BSIZE.
Proof.
  pose proof (so_len _ _ _ (e_slots _ _ _ _ _ _ _ _ _ X) (slot A1 c1 fbn)) as E. split; [done|].
  rewrite length_splice; [done|]. rewrite E, bsize_eq in *. dlia.
Qed.

Lemma turn_slots : slots_ok c2 (freeblock s1) (<[k := A1]> D).
Proof. apply (write_slots _ _ _ k); [apply X|apply turn_at|done|done|apply turn_buf]. Qed.

(** The blocks of the file that grows. *)
Lemma turn_has_slot j : slot_ix j → slot A1 c2 j ≠ 0 ↔ has_slot (off + Z.of_nat (length z)) j.
Proof.
  intros Hj. rewrite (write_slot _ _ _ k A1 fbn buf (e_slots _ _ _ _ _ _ _ _ _ X) turn_at Hbn (proj2 turn_buf) k A1 j turn_at).
  rewrite (e_slot _ _ _ _ _ _ _ _ _ X) by done.
  pose proof (fl_slots _ _ _ (hd_files _ _ _ _ HH) k A l Hk Hl) as Hs. rewrite Hs by done.
  pose proof (Hs fbn ltac:(unfold slot_ix; lia)) as H1. pose proof (Hs MAXFILE ind_ix) as H2. rewrite slot_ind in H2.
  unfold missing. rewrite elem_of_app. unfold has_slot, slot_ix in *. clear X Hnz Hs.
  rewrite !elem_of_when.
  rewrite maxfile_eq, bsize_eq in *. unfold NDIRECT in *. destruct (decide (A !!! 12%nat = 0)), (decide (slot A c (off / 1024) = 0)); dlia.
Qed.

Lemma turn_bytes p : 0 ≤ p < MAXFILE * BSIZE → byte_at A1 c2 p = default 0 ((l ++ z) !! Z.to_nat p).
Proof.
  intros Hp. pose proof (fl_bytes _ _ _ (hd_files _ _ _ _ HH) k A l Hk Hl p Hp) as Hold.
  rewrite <- (e_same _ _ _ _ _ _ _ _ _ X p Hp) in Hold.
  rewrite (write_bytes_same _ _ _ k A1 fbn buf (e_slots _ _ _ _ _ _ _ _ _ X) turn_at Hbn Hnz (proj2 turn_buf) p Hp). case_decide as E.
  - apply write_append; try done; [apply turn_buf|lia|lia|]. rewrite <- Hold. unfold byte_at, fbyte, fblock.
    rewrite <- slot_block by (rewrite E; done). rewrite E. by destruct (Z.eqb_spec (slot A1 c1 fbn) 0).
  - rewrite Hold. destruct (decide (Z.to_nat p < length l)%nat).
    + by rewrite lookup_app_l.
    + rewrite !lookup_ge_None_2; rewrite ?length_app; [done| |lia]. rewrite bsize_eq in *. dlia.
Qed.

Lemma turn_files : files c2 (<[k := A1]> D) (<[k := l ++ z]> L).
Proof.
  pose proof (hd_files _ _ _ _ HH) as HF. pose proof (e_slots _ _ _ _ _ _ _ _ _ X) as S1. split.
  - rewrite !length_insert. apply HF.
  - apply Forall_insert; [apply HF|]. rewrite length_app, maxfile_eq, bsize_eq in *. dlia.
  - intros k2 A2 l2 H2 HL2 p Hp. destruct (decide (k2 = k)) as [->|Hne].
    + rewrite turn_at in H2. injection H2 as <-. rewrite list_lookup_insert_eq in HL2 by (by eapply lookup_lt_Some).
      injection HL2 as <-. by apply turn_bytes.
    + rewrite (write_bytes_other _ _ _ k A1 fbn buf S1 turn_at Hbn (proj2 turn_buf) k2 A2 p H2 Hne Hp).
      rewrite list_lookup_insert_ne in H2, HL2 by done. rewrite (proj2 (e_other _ _ _ _ _ _ _ _ _ X k2 A2 H2 Hne) p Hp).
      by apply (fl_bytes _ _ _ HF k2).
  - intros k2 A2 l2 H2 HL2 j Hj. destruct (decide (k2 = k)) as [->|Hne].
    + rewrite turn_at in H2. injection H2 as <-. rewrite list_lookup_insert_eq in HL2 by (by eapply lookup_lt_Some).
      injection HL2 as <-. rewrite length_app, Nat2Z.inj_add. by apply turn_has_slot.
    + rewrite (write_slot _ _ _ k A1 fbn buf S1 turn_at Hbn (proj2 turn_buf) k2 A2 j H2).
      rewrite list_lookup_insert_ne in H2, HL2 by done. rewrite (proj1 (e_other _ _ _ _ _ _ _ _ _ X k2 A2 H2 Hne) j).
      by apply (fl_slots _ _ _ HF k2).
Qed.
End turn.

Lemma grow_trans s c D L k z s1 c1 A1 z' s2 c2 A2 :
  (k < length L)%nat →
  grow s c D L k z s1 c1 A1 → grow s1 c1 (<[k := A1]> D) (alter (.++ z) k L) k z' s2 c2 A2 → grow s c D L k (z ++ z') s2 c2 A2.
Proof.
  intros Hk [H1 F1 M1 I1] [H2 F2 M2 I2]. rewrite list_insert_insert_eq, list_alter_alter_eq in H2.
  rewrite list_lookup_total_alter_eq in F2 by done. split.
  - replace (alter (.++ z ++ z') k L) with (alter ((.++ z') ∘ (.++ z)) k L); [done|].
    apply list_alter_ext; [|done]. intros x _. simpl. by rewrite <- app_assoc.
  - rewrite F2, F1, <- app_assoc. lia.
  - intros b Hb. by rewrite M2, M1.
  - congruence.
Qed.

Lemma alter_at (L : list (list Z)) k l z : L !! k = Some l → alter (.++ z) k L = <[k := l ++ z]> L.
Proof. intros Hl. apply list_eq. intros i. destruct (decide (i = k)) as [->|Hne].
  - rewrite list_lookup_alter_eq, Hl, list_lookup_insert_eq; [done|by eapply lookup_lt_Some].
  - by rewrite list_lookup_alter_ne, list_lookup_insert_ne.
Qed.

Lemma append_turn s c D L k din l p n1 :
  holds s c D L → D !! k = Some (d_addrs din) → L !! k = Some l →
  let off := Z.of_nat (length l) in
  let fbn := off / BSIZE in
  0 ≤ fbn < MAXFILE → p ≠ [] → n1 = Z.min (Z.of_nat (length p)) ((fbn + 1) * BSIZE - off) →
  freeblock s + blocks (off + n1) - blocks off ≤ FSSIZE →
  ∃ s1 s' c' A' x, (if fbn <? Z.of_nat NDIRECT then iappend_direct din fbn else iappend_indirect din fbn) s = Ret (x, with_addrs din A') s1 ∧
    (let! buf := rsect x in wsect x (splice buf (Z.to_nat (off - fbn * BSIZE)) (take (Z.to_nat n1) p))) s1 = Ret tt s' ∧
    grow s c D L k (take (Z.to_nat n1) p) s' c' A'.
Proof.
  intros HH Hk Hl off fbn Hbn Hp En Hroom. pose proof (hd_files _ _ _ _ HH) as HF.
  assert (0 < Z.of_nat (length p)) as Hp1 by (destruct p; [done|simpl; lia]).
  assert (0 < n1 ≤ (fbn + 1) * BSIZE - off) as Hn1 by (subst fbn off; rewrite bsize_eq in *; dlia).
  assert (Z.of_nat (length (take (Z.to_nat n1) p)) = n1) as Hlen by (rewrite length_take; lia).
  pose proof (missing_blocks c D L k _ l n1 HF Hk Hl Hbn Hn1) as Em. fold off fbn in Em.
  destruct (iappend_block_spec D k din s c fbn) as (s1 & c1 & A1 & E & X & Hnz); [apply HH|apply HH|done|done|lia|].
  assert (<[k := A1]> D !! k = Some A1) as Hk1 by (apply list_lookup_insert_eq; by eapply lookup_lt_Some).
  pose proof (so_range _ _ _ (e_slots _ _ _ _ _ _ _ _ _ X) k A1 fbn Hk1 ltac:(unfold slot_ix; lia) Hnz) as Hr.
  pose proof (so_free _ _ _ (e_slots _ _ _ _ _ _ _ _ _ X)) as Hf. rewrite nmeta_eq in Hr, Hf.
  rewrite <- Hlen in Hn1. eexists s1, _, _, A1, _. split; [exact E|]. split.
  { erewrite bind_eq; [|apply (rsect_view s1 c1); [apply X|lia]]. reflexivity. }
  split.
  - rewrite (alter_at _ _ l) by done. split.
    + apply wsect_view; [apply X|lia].
    + eapply (turn_slots s s1 c c1); [done|done|exact Hn1|exact X|done].
    + eapply (turn_files s s1 c c1); [done|done|done|done|exact Hn1|exact X|done].
  - simpl. rewrite (e_free _ _ _ _ _ _ _ _ _ X), Em. rewrite (list_lookup_total_correct _ _ _ Hl), length_app, Nat2Z.inj_add, Hlen. fold off. lia.
  - intros b Hb. rewrite fset_ne by (rewrite nmeta_eq in Hb; lia). by apply X.
  - apply X.
Qed.

(** ** The loop *)

Lemma grow_nil s c D L k A : holds s c D L → D !! k = Some A → grow s c D L k [] s c A.
Proof.
  intros HH Hk. split; try done; [|rewrite app_nil_r; lia].
  rewrite list_insert_id by done. replace (alter (.++ []) k L) with L; [done|].
  symmetry. apply list_alter_id. intros. apply app_nil_r.
Qed.

Lemma iappend_loop_spec fuel : ∀ s c D L k din l p,
  holds s c D L → D !! k = Some (d_addrs din) → L !! k = Some l → (length p < fuel)%nat →
  Z.of_nat (length (l ++ p)) ≤ MAXFILE * BSIZE →
  freeblock s + blocks (Z.of_nat (length (l ++ p))) - blocks (Z.of_nat (length l)) ≤ FSSIZE →
  ∃ s' c' A', iappend_loop fuel p (Z.of_nat (length l)) din s = Ret (Z.of_nat (length (l ++ p)), with_addrs din A') s' ∧
    grow s c D L k p s' c' A'.
Proof.
  induction fuel as [|fuel IH]; intros s c D L k din l p HH Hk Hl Hfuel Hmax Hroom; [lia|].
  cbn [iappend_loop]. cbv zeta. destruct (decide (p = [])) as [->|Hp].
  { exists s, c, (d_addrs din). rewrite app_nil_r. split; [|by apply grow_nil]. by destruct din. }
  assert (0 < Z.of_nat (length p)) as Hp1 by (destruct p; [done|simpl; lia]).
  destruct (Z.ltb_spec 0 (Z.of_nat (length p))); [|lia]. cbn [negb].
  set (off := Z.of_nat (length l)) in *. set (fbn := off / BSIZE). rewrite length_app, Nat2Z.inj_add in *. fold off in Hmax, Hroom |- *.
  assert (0 ≤ fbn < MAXFILE) as Hbn by (subst fbn off; rewrite maxfile_eq, bsize_eq in *; dlia).
  destruct (Z.ltb_spec fbn MAXFILE); [|lia]. cbn [negb].
  set (n1 := Z.min (Z.of_nat (length p)) ((fbn + 1) * BSIZE - off)).
  assert (0 < n1 ≤ Z.of_nat (length p)) as Hn1 by (subst n1 fbn off; rewrite bsize_eq in *; dlia).
  pose proof (blocks_mono (off + n1) (off + Z.of_nat (length p)) ltac:(lia)) as Hmono.
  destruct (append_turn s c D L k din l p n1) as (s1 & s2 & c2 & A2 & x & E1 & E2 & G); try done; [fold off; lia|].
  assert (Z.of_nat (length (l ++ take (Z.to_nat n1) p)) = off + n1) as El by (rewrite length_app, length_take; lia).
  assert (k < length L)%nat as HkL by (by eapply lookup_lt_Some).
  destruct (IH s2 c2 (<[k := A2]> D) (alter (.++ take (Z.to_nat n1) p) k L) k (with_addrs din A2) (l ++ take (Z.to_nat n1) p)
    (drop (Z.to_nat n1) p)) as (s3 & c3 & A3 & E3 & G3).
  - apply G.
  - apply list_lookup_insert_eq. by eapply lookup_lt_Some.
  - by rewrite list_lookup_alter_eq, Hl.
  - rewrite length_drop. lia.
  - rewrite <- app_assoc, take_drop, length_app. lia.
  - rewrite El, <- app_assoc, take_drop, length_app, Nat2Z.inj_add. rewrite (g_free _ _ _ _ _ _ _ _ _ G).
    rewrite (list_lookup_total_correct _ _ _ Hl), El. fold off. lia.
  - exists s3, c3, A3. split.
    + rewrite (bind_eq _ _ _ _ _ E1). apply bind_Ret in E2 as (buf & s4 & Eb & Ew). cbn [fst snd].
      rewrite (bind_eq _ _ _ _ _ Eb), (bind_eq _ _ _ _ _ Ew). rewrite u32_small by (rewrite maxfile_eq, bsize_eq in Hmax; lia).
      rewrite El, <- app_assoc, take_drop, length_app, Nat2Z.inj_add in E3. exact E3.
    + rewrite <- (take_drop (Z.to_nat n1) p). by eapply grow_trans.
Qed.
