(* ===== verification/MkfsImg.v ===== *)
(** * The inodes of an image under construction

    [img s c D L T]: file [k], of type [T !! k], has inode number [k + 1],
    the contents [L !! k] and the block addresses [D !! k]. *)

From stdpp Require Import gmap.
From S2P Require Import Prelude.
From S2P Require Import Machine.
From S2P Require Import Bio.
From S2P Require Import BioSpec.
From S2P Require Import Log.
From S2P Require Import LogSpec.
From S2P Require Import Fs.
From S2P Require Import FsInode.
From S2P Require Import FsSpec.
From S2P Require Import FsFile.
From S2P Require Import FsRw.
From S2P Require Import Mkfs.
From S2P Require Import MkfsSpec.
From S2P Require Import MkfsFile.
#[local] Open Scope Z_scope.

(** ** Inodes in blocks *)

Definition ino (c : Z → list Z) (i : Z) : dinode := get_dinode (c (IBLOCK i mkfs_sb)) (dinode_off i).
(** The blocks after [winode]. *)
Definition put_ino (i : Z) (x : dinode) (c : Z → list Z) : Z → list Z :=
  fset (IBLOCK i mkfs_sb) (put_dinode (c (IBLOCK i mkfs_sb)) (dinode_off i) x) c.
Definition ino_block (b : Z) : Prop := 2 + nlog ≤ b < 2 + nlog + ninodeblocks.

Lemma iblock_eq i : 0 ≤ i < NINODES → IBLOCK i mkfs_sb = i / 16 + 32.
Proof. intros Hi. unfold IBLOCK. change (sb_inodestart mkfs_sb) with 32. change IPB with 16. unfold NINODES in *. apply u32_small. dlia. Qed.
Lemma iblock_ino i : 0 ≤ i < NINODES → ino_block (IBLOCK i mkfs_sb) ∧ 0 ≤ IBLOCK i mkfs_sb < FSSIZE.
Proof.
  intros Hi. rewrite iblock_eq by done. unfold ino_block, NINODES, FSSIZE in *. change (2 + nlog) with 32. change ninodeblocks with 13. dlia.
Qed.

Lemma get_dinode_slices d d' off :
  (∀ n p, (off ≤ p → p + n ≤ off + 64 → slice n p d' = slice n p d)%nat) → get_dinode d' off = get_dinode d off.
Proof.
  intros H. unfold get_dinode. rewrite !get16_slice, !get32_slice. f_equal; [rewrite H by lia; done..|].
  apply map_ext_in. intros i Hi%in_seq. rewrite !get32_slice, H; [done|lia|unfold NDIRECT in *; lia].
Qed.

Section put_ino.
Context (c : Z → list Z) (i : Z) (x : dinode) (Hlen : ∀ b, length (c b) = Z.to_nat BSIZE) (Hi : 0 ≤ i < NINODES).

Lemma put_ino_len b : length (put_ino i x c b) = Z.to_nat BSIZE.
Proof.
  unfold put_ino, fset. case_decide; [|done]. destruct (put_dinode_spec (c (IBLOCK i mkfs_sb)) (dinode_off i) x) as (L & _ & _).
  - rewrite Hlen. apply dinode_off_fit.
  - by rewrite L.
Qed.
Lemma put_ino_ne b : ¬ ino_block b → put_ino i x c b = c b.
Proof. intros Hb. apply fset_ne. intros ->. by apply Hb, iblock_ino. Qed.
Lemma ino_put_ino j : 0 ≤ j < NINODES → dinode_ok x → ino (put_ino i x c) j = if decide (j = i) then x else ino c j.
Proof.
  intros Hj Hx. unfold ino, put_ino. destruct (put_dinode_spec (c (IBLOCK i mkfs_sb)) (dinode_off i) x) as (_ & G & S).
  { rewrite Hlen. apply dinode_off_fit. }
  case_decide as E; [subst; by rewrite fset_eq, G|]. rewrite !iblock_eq in * by done. unfold fset. case_decide as Eb; [|done].
  rewrite Eb. apply get_dinode_slices. intros n p H1 H2. apply S. unfold dinode_off in *. change IPB with 16 in *. dlia.
Qed.
End put_ino.

Lemma winode_view s c i x :
  view s c → 0 ≤ i < NINODES →
  ∃ s', winode i x s = Ret tt s' ∧ view s' (put_ino i x c) ∧ freeblock s' = freeblock s ∧ freeinode s' = freeinode s.
Proof.
  intros Hv Hi. destruct (iblock_ino i Hi) as [_ Hb]. eexists. split.
  - unfold winode. cbv zeta. erewrite bind_eq; [|apply (rsect_view s c); done]. reflexivity.
  - split_and!; try done. by apply wsect_view.
Qed.
Lemma rinode_view s c i : view s c → 0 ≤ i < NINODES → rinode i s = Ret (ino c i) s.
Proof. intros Hv Hi. unfold rinode. destruct (iblock_ino i Hi) as [_ Hb]. erewrite bind_eq; [|apply (rsect_view s c); done]. done. Qed.

(** ** Files and the blocks before them *)

(** The files do not depend on the blocks before [nmeta]. *)
Lemma holds_meta s c D L s' c' :
  holds s c D L → view s' c' → freeblock s' = freeblock s → (∀ b, length (c' b) = Z.to_nat BSIZE) →
  (∀ b, nmeta ≤ b → c' b = c b) → holds s' c' D L.
Proof.
  intros [Hv [S1 S2 S3 S4 S5 S6] [F1 F2 F3 F4]] Hv' Hf Hlen Hc.
  assert (∀ k A j, D !! k = Some A → slot A c' j = slot A c j) as Es.
  { intros k A j Hk. apply slot_frame. intros Hn. apply Hc. rewrite <- (slot_ind A c) in *. apply (S5 k); auto using ind_ix. }
  split; [done| |].
  - rewrite Hf. split; try done.
    + intros b Hb. rewrite Hc by lia. auto.
    + intros k A j Hk. rewrite (Es k) by done. eauto.
    + intros k1 A1 j1 k2 A2 j2 H1 H2. rewrite (Es k1), (Es k2) by done. eauto.
  - split; try done.
    + intros k A l Hk Hl p Hp. rewrite <- (F3 k A l) by done. pose proof (block_ix p Hp) as Hb.
      unfold byte_at, fbyte, fblock. rewrite <- !slot_block, (Es k) by done. destruct (Z.eqb_spec (slot A c (p / BSIZE)) 0); [done|].
      rewrite Hc; [done|]. apply (S5 k); [done|unfold slot_ix; lia|done].
    + intros k A l Hk Hl j Hj. rewrite (Es k) by done. eauto.
Qed.

(** A file of no blocks. *)
Definition no_addrs : list Z := replicate (NDIRECT + 1) 0.

Lemma slot_none c j : slot_ix j → slot no_addrs c j = 0.
Proof.
  intros Hj. assert (∀ i, (i ≤ NDIRECT)%nat → no_addrs !!! i = 0) as E by (intros; apply lookup_total_replicate_2; lia).
  unfold slot_ix in Hj. destruct (decide (j = MAXFILE)) as [->|]; [rewrite slot_ind; by apply E|].
  destruct (decide (j < Z.of_nat NDIRECT)); [rewrite slot_direct by lia; apply E; lia|].
  rewrite slot_indirect by lia. by rewrite E.
Qed.

Lemma holds_new s c D L : holds s c D L → holds s c (D ++ [no_addrs]) (L ++ [[]]).
Proof.
  intros [Hv [S1 S2 S3 S4 S5 S6] [F1 F2 F3 F4]]. split; [done| |].
  - split; try done.
    + apply Forall_app. split; [done|]. repeat constructor; lia.
    + intros k A j Hk Hj. apply lookup_snoc_Some in Hk as [[_ Hk]|[_ <-]]; [eauto|]. by rewrite slot_none.
    + intros k1 A1 j1 k2 A2 j2 H1 H2 Hj1 Hj2 E Hn.
      apply lookup_snoc_Some in H1 as [[_ H1]|[_ <-]]; [|by rewrite slot_none in Hn].
      apply lookup_snoc_Some in H2 as [[_ H2]|[_ <-]]; [eauto|]. by rewrite E, slot_none in Hn.
  - split.
    + rewrite !length_app. simpl. lia.
    + apply Forall_app. split; [done|]. repeat constructor. vm_compute. discriminate.
    + intros k A l Hk Hl p Hp. apply lookup_snoc_Some in Hk as [[Hlt Hk]|[-> <-]].
      * rewrite lookup_app_l in Hl by lia. eauto.
      * rewrite F1, lookup_app_r, Nat.sub_diag in Hl by lia. injection Hl as <-. pose proof (block_ix p Hp) as Hb.
        unfold byte_at, fbyte, fblock. rewrite <- !slot_block, slot_none by (unfold slot_ix; lia). simpl.
        apply lookup_total_replicate_2. rewrite bsize_eq. dlia.
    + intros k A l Hk Hl j Hj. apply lookup_snoc_Some in Hk as [[Hlt Hk]|[-> <-]].
      * rewrite lookup_app_l in Hl by lia. eauto.
      * rewrite F1, lookup_app_r, Nat.sub_diag in Hl by lia. injection Hl as <-. rewrite slot_none by done.
        unfold has_slot, slot_ix in *. simpl. rewrite maxfile_eq, bsize_eq in *. unfold NDIRECT. lia.
Qed.

(** ** The invariant *)

Definition total (L : list (list Z)) : Z := foldr (λ l n, blocks (Z.of_nat (length l)) + n) 0 L.

Lemma total_app L L' : total (L ++ L') = total L + total L'.
Proof. unfold total. induction L as [|l L IH]; simpl; [done|]. rewrite IH. lia. Qed.
Lemma total_blocks_pos L : 0 ≤ total L.
Proof. unfold total. induction L as [|l L IH]; simpl; [done|]. pose proof (blocks_mono 0 (Z.of_nat (length l))). lia. Qed.
Lemma total_alter L k z :
  (k < length L)%nat →
  total (alter (.++ z) k L) = total L + blocks (Z.of_nat (length (L !!! k ++ z))) - blocks (Z.of_nat (length (L !!! k))).
Proof.
  unfold total. revert k. induction L as [|l L IH]; intros k Hk; [simpl in Hk; lia|]. destruct k as [|k].
  - simpl. lia.
  - cbn [alter list_alter foldr]. rewrite (IH k) by (simpl in Hk; lia). simpl. lia.
Qed.
Lemma total_grows L k z : total L ≤ total (alter (.++ z) k L).
Proof.
  unfold total. revert k. induction L as [|l L IH]; intros [|k]; cbn [alter list_alter foldr]; try lia.
  - rewrite length_app. pose proof (blocks_mono (Z.of_nat (length l)) (Z.of_nat (length l + length z))). lia.
  - apply Z.add_le_mono_l, IH.
Qed.

Record img (s : mst) (c : Z → list Z) (D L : list (list Z)) (T : list Z) : Prop := {
  im_holds : holds s c D L;
  im_types : length T = length D ∧ Forall (λ t, 0 ≤ t < 2 ^ 15) T;
  im_count : freeinode s = 1 + Z.of_nat (length D) ∧ freeinode s ≤ NINODES;
  im_ino : ∀ k A l t, D !! k = Some A → L !! k = Some l → T !! k = Some t →
    ino c (Z.of_nat k + 1) = mk_dinode t 0 0 1 (Z.of_nat (length l)) A;
  im_none : ∀ i, freeinode s ≤ i < NINODES → ino c i = mk_dinode 0 0 0 0 0 no_addrs;
  im_meta : ∀ b, 0 ≤ b < nmeta → ¬ ino_block b → c b = if decide (b = 1) then sb_block else zeroes;
  im_free : freeblock s = nmeta + total L
}.

Lemma im_room s c D L T : img s c D L T → nmeta + total L ≤ FSSIZE.
Proof. intros H. pose proof (im_free _ _ _ _ _ H). pose proof (so_free _ _ _ (hd_slots _ _ _ _ (im_holds _ _ _ _ _ H))). lia. Qed.
Lemma im_len s c D L T : img s c D L T → length D = length L.
Proof. intros H. apply H. Qed.

(** What is known of file [k]. *)
Lemma im_file s c D L T k l :
  img s c D L T → L !! k = Some l →
  ∃ A t, D !! k = Some A ∧ T !! k = Some t ∧ (0 ≤ Z.of_nat k + 1 < NINODES) ∧
    ino c (Z.of_nat k + 1) = mk_dinode t 0 0 1 (Z.of_nat (length l)) A ∧ Z.of_nat (length l) ≤ MAXFILE * BSIZE.
Proof.
  intros H Hl. pose proof (im_len _ _ _ _ _ H) as HL. pose proof (im_types _ _ _ _ _ H) as [HT _].
  pose proof (lookup_lt_Some _ _ _ Hl) as Hlt. destruct (lookup_lt_is_Some_2 D k) as [A HA]; [lia|].
  destruct (lookup_lt_is_Some_2 T k) as [t Ht]; [lia|]. exists A, t. pose proof (im_count _ _ _ _ _ H).
  split_and!; try done; [lia|lia|by eapply im_ino|].
  pose proof (fl_max _ _ _ (hd_files _ _ _ _ (im_holds _ _ _ _ _ H))) as Hm. rewrite Forall_lookup in Hm. by eapply Hm.
Qed.

Lemma file_dinode_ok s c D L k A t n :
  holds s c D L → D !! k = Some A → 0 ≤ t < 2 ^ 15 → 0 ≤ n < 2 ^ 32 → dinode_ok (mk_dinode t 0 0 1 n A).
Proof.
  intros H HA Ht Hn. pose proof (so_addrs _ _ _ (hd_slots _ _ _ _ H)) as Ha. rewrite Forall_lookup in Ha. destruct (Ha k A HA).
  unfold dinode_ok. cbn [d_type d_major d_minor d_nlink d_size d_addrs]. split_and!; done || lia.
Qed.

Lemma ino_range b : ino_block b → b < nmeta.
Proof. unfold ino_block. change (2 + nlog) with 32. change ninodeblocks with 13. rewrite nmeta_eq. lia. Qed.

(** The inodes and the other blocks after [winode]. *)
Lemma put_ino_frame s1 s2 c c1 D L i x :
  holds s1 c1 D L → (∀ b, b < nmeta → c1 b = c b) → 0 ≤ i < NINODES → dinode_ok x →
  view s2 (put_ino i x c1) → freeblock s2 = freeblock s1 →
  holds s2 (put_ino i x c1) D L ∧
  (∀ j, 0 ≤ j < NINODES → ino (put_ino i x c1) j = if decide (j = i) then x else ino c j) ∧
  ∀ b, b < nmeta → ¬ ino_block b → put_ino i x c1 b = c b.
Proof.
  intros HH Hm Hi Hx Hv Hf. pose proof (so_len _ _ _ (hd_slots _ _ _ _ HH)) as Hlen. split_and!.
  - eapply holds_meta; try done.
    + by apply put_ino_len.
    + intros b Hb. apply put_ino_ne; [done|]. intros Hn%ino_range. lia.
  - intros j Hj. rewrite ino_put_ino by done. case_decide; [done|]. unfold ino. rewrite Hm; [done|]. apply ino_range. by apply iblock_ino.
  - intros b Hb Hn. rewrite put_ino_ne by done. by apply Hm.
Qed.

Lemma ialloc_spec s c D L T t :
  img s c D L T → Z.of_nat (length L) + 1 < NINODES → 0 ≤ t < 2 ^ 15 →
  ∃ s' c', ialloc t s = Ret (Z.of_nat (length L) + 1) s' ∧ img s' c' (D ++ [no_addrs]) (L ++ [[]]) (T ++ [t]).
Proof.
  intros H Hn Ht. pose proof (im_len _ _ _ _ _ H) as HL. pose proof (im_count _ _ _ _ _ H) as [Ec Hc].
  set (i := Z.of_nat (length L) + 1) in *. set (x := mk_dinode t 0 0 1 0 no_addrs).
  set (s1 := s <| freeinode := u32 (freeinode s + 1) |>).
  destruct (winode_view s1 c i x) as (s2 & E & Hv & Hf & Hi); [apply H|lia|].
  assert (dinode_ok x) as Hx by (unfold dinode_ok; simpl; split_and!; try lia; repeat constructor; lia).
  destruct (put_ino_frame s s2 c c D L i x) as (H2 & Ei & Em); try done; [apply H|lia|].
  exists s2, (put_ino i x c). split.
  { unfold ialloc. erewrite bind_eq; [|reflexivity]. erewrite bind_eq; [|reflexivity]. fold s1.
    rewrite xshort_small by lia. change (xshort 1) with 1. change (xint 0) with 0. fold no_addrs x.
    replace (freeinode s) with i by lia. rewrite (bind_eq _ _ _ _ _ E). done. }
  assert (freeinode s2 = i + 1) as Hi2.
  { rewrite Hi. unfold s1. simpl. unfold NINODES in *. rewrite u32_small; lia. }
  split.
  - by apply holds_new.
  - destruct (im_types _ _ _ _ _ H). rewrite !length_app, Forall_app. split; [simpl; lia|]. split; [done|]. by apply Forall_singleton.
  - rewrite length_app. simpl. lia.
  - intros k A l t' HA Hl Ht'. destruct (im_types _ _ _ _ _ H) as [HT _].
    apply lookup_snoc_Some in HA as [[Hlt HA]|[-> <-]].
    + rewrite lookup_app_l in Hl by lia. rewrite lookup_app_l in Ht' by lia. rewrite Ei, decide_False by lia. by eapply im_ino.
    + rewrite HL, lookup_app_r, Nat.sub_diag in Hl by lia. rewrite <- HT, lookup_app_r, Nat.sub_diag in Ht' by lia.
      injection Hl as <-. injection Ht' as <-. rewrite HL, Ei, decide_True by lia. done.
  - intros j Hj. rewrite Ei, decide_False by lia. eapply im_none; [done|lia].
  - intros b Hb Hnb. rewrite Em by (lia || done). by eapply im_meta.
  - rewrite Hf, total_app. change (total [[]]) with 0. rewrite Z.add_0_r. exact (im_free _ _ _ _ _ H).
Qed.

Lemma iappend_spec s c D L T k l p :
  img s c D L T → L !! k = Some l → Z.of_nat (length (l ++ p)) ≤ MAXFILE * BSIZE → nmeta + total (alter (.++ p) k L) ≤ FSSIZE →
  ∃ s' c' D', iappend (Z.of_nat k + 1) p s = Ret tt s' ∧ img s' c' D' (alter (.++ p) k L) T.
Proof.
  intros H Hl Hmax Hroom. destruct (im_file _ _ _ _ _ _ _ H Hl) as (A & t & HA & Ht & Hk & Ei & Hl1).
  pose proof (lookup_lt_Some _ _ _ Hl) as Hlt. pose proof (list_lookup_total_correct _ _ _ Hl) as El.
  rewrite maxfile_eq, bsize_eq in Hl1. rewrite total_alter, El in Hroom by done.
  destruct (iappend_loop_spec (Datatypes.S (length p)) s c D L k (ino c (Z.of_nat k + 1)) l p) as (s1 & c1 & A' & E1 & G); try done.
  { apply H. } { by rewrite Ei. } { lia. } { rewrite (im_free _ _ _ _ _ H). lia. }
  destruct G as [H1 F1 M1 I1]. set (i := Z.of_nat k + 1) in *. set (x := mk_dinode t 0 0 1 (Z.of_nat (length (l ++ p))) A').
  destruct (winode_view s1 c1 i x) as (s2 & E & Hv & Hf & Hi); [apply H1|lia|].
  assert (dinode_ok x) as Hx.
  { pose proof (proj2 (im_types _ _ _ _ _ H)) as Hty. rewrite Forall_lookup in Hty. rewrite maxfile_eq, bsize_eq in Hmax.
    eapply (file_dinode_ok _ _ _ _ k); [exact H1| |by eapply Hty|lia]. apply list_lookup_insert_eq. by eapply lookup_lt_Some. }
  destruct (put_ino_frame s1 s2 c c1 (<[k := A']> D) (alter (.++ p) k L) i x) as (H2 & Ej & Em); try done.
  exists s2, (put_ino i x c1), (<[k := A']> D). split.
  { unfold iappend. erewrite bind_eq; [|apply rinode_view; [apply H|done]]. rewrite Ei in E1 |- *. cbn [d_size] in E1 |- *.
    rewrite xint_small by lia. rewrite (bind_eq _ _ _ _ _ E1). unfold with_addrs. cbn [fst snd d_type d_major d_minor d_nlink d_addrs].
    rewrite xint_small by (rewrite maxfile_eq, bsize_eq in Hmax; lia). exact E. }
  split.
  - done.
  - rewrite length_insert. apply H.
  - rewrite length_insert, Hi, I1. apply H.
  - intros k2 A2 l2 t2 HA2 Hl2 Ht2. pose proof (lookup_lt_Some _ _ _ HA2) as Hlt2. rewrite length_insert in Hlt2.
    pose proof (im_count _ _ _ _ _ H). rewrite Ej by lia. destruct (decide (k2 = k)) as [->|Hne].
    + rewrite decide_True by done. rewrite list_lookup_insert_eq in HA2 by done. rewrite list_lookup_alter_eq, Hl in Hl2.
      simplify_eq/=. done.
    + rewrite decide_False by lia. rewrite list_lookup_insert_ne in HA2 by done. rewrite list_lookup_alter_ne in Hl2 by done. by eapply im_ino.
  - intros j Hj. rewrite Hi, I1 in Hj. pose proof (im_count _ _ _ _ _ H). pose proof (lookup_lt_Some _ _ _ HA).
    rewrite Ej, decide_False by lia. eapply im_none; [done|lia].
  - intros b Hb Hnb. rewrite Em by (lia || done). by eapply im_meta.
  - rewrite Hf, F1, (im_free _ _ _ _ _ H), total_alter by done. lia.
Qed.
