(* ===== verification/MkfsThms.v ===== *)
(** * What [mkfs] builds *)

From stdpp Require Import gmap.
From S2P Require Import Prelude.
From S2P Require Import Machine.
From S2P Require Import Bio.
From S2P Require Import BioSpec.
From S2P Require Import Log.
From S2P Require Import LogSpec.
From S2P Require Import Fs.
From S2P Require Import FsInode.
From S2P Require Import FsSpec.
From S2P Require Import FsFile.
From S2P Require Import FsRw.
From S2P Require Import FsRwThms.
From S2P Require Import Mkfs.
From S2P Require Import MkfsSpec.
From S2P Require Import MkfsFile.
From S2P Require Import MkfsImg.
#[local] Open Scope Z_scope.

(** ** The files to be *)

(** The bytes read before the first read of none. *)
Fixpoint read_bytes (reads : list (list Z)) : list Z :=
  match reads with [] => [] | buf :: reads' => if bool_decide (buf = []) then [] else buf ++ read_bytes reads' end.

#[local] Abbreviation input := (list Z * option (list (list Z)))%type.
Definition data (f : input) : list Z := read_bytes (default [] f.2).
Definition short_name (f : input) : list Z := strip_underscore (strip_user f.1).
Definition root_dir (fs : list input) : list Z :=
  dirent 1 [c_dot] ++ dirent 1 [c_dot; c_dot] ++ concat (imap (λ k f, dirent (Z.of_nat k + 2) (short_name f)) fs).
(** Inode [k + 1] is file [k] of the list. *)
Definition tree (fs : list input) : list (list Z) := root_dir fs :: map data fs.

(** A file that can be copied. *)
Definition legal (f : input) : Prop :=
  ¬ (c_slash ∈ strip_user f.1) ∧ is_Some f.2 ∧ Z.of_nat (length (data f)) ≤ MAXFILE * BSIZE.
#[export] Instance legal_dec f : Decision (legal f).
Proof. unfold legal. apply _. Defined.
Definition fits (fs : list input) : Prop :=
  Forall legal fs ∧ Z.of_nat (length fs) ≤ NINODES - 2 ∧ nmeta + total (tree fs) ≤ FSSIZE.

#[local] Arguments dirent : simpl never.

Lemma length_dirent i name : length (dirent i name) = 16%nat.
Proof. unfold dirent, mk_dirent. rewrite length_app, length_le_bytes. unfold strncpy_name. by rewrite length_load_bytes. Qed.

Lemma root_dir_snoc fs f : root_dir (fs ++ [f]) = root_dir fs ++ dirent (Z.of_nat (length fs) + 2) (short_name f).
Proof.
  unfold root_dir. rewrite imap_app, concat_app, <- !app_assoc. do 3 f_equal. cbn [imap concat compose].
  by rewrite app_nil_r, Nat.add_0_r.
Qed.
Lemma length_root_dir fs : length (root_dir fs) = (16 * (length fs + 2))%nat.
Proof.
  induction fs as [|f fs IH] using rev_ind; [by unfold root_dir; simpl concat; rewrite !length_app, !length_dirent|].
  rewrite root_dir_snoc, length_app, IH, length_dirent, length_app. simpl. lia.
Qed.

Lemma tree_snoc fs f :
  tree (fs ++ [f]) = alter (.++ data f) (Datatypes.S (length fs))
    (alter (.++ dirent (Z.of_nat (length fs) + 2) (short_name f)) 0%nat (tree fs ++ [[]])).
Proof.
  unfold tree. rewrite root_dir_snoc, map_app. cbn [app alter list_alter]. f_equal.
  replace (length fs) with (length (map data fs) + 0)%nat by (rewrite length_map; lia).
  symmetry. apply (alter_app_r (.++ data f) (map data fs) [[]] 0).
Qed.
Lemma total_tree_snoc fs f : total (tree fs) ≤ total (tree (fs ++ [f])).
Proof.
  rewrite tree_snoc. etrans; [|apply total_grows]. etrans; [|apply total_grows]. rewrite total_app. change (total [[]]) with 0. lia.
Qed.
Lemma total_tree_app fs fs' : total (tree fs) ≤ total (tree (fs ++ fs')).
Proof.
  induction fs' as [|f fs' IH] using rev_ind; [by rewrite app_nil_r|]. rewrite app_assoc. etrans; [exact IH|apply total_tree_snoc].
Qed.

(** ** Copying *)

Lemma copy_reads_spec reads : ∀ s c D L T k l,
  img s c D L T → L !! k = Some l → Z.of_nat (length (l ++ read_bytes reads)) ≤ MAXFILE * BSIZE →
  nmeta + total (alter (.++ read_bytes reads) k L) ≤ FSSIZE →
  ∃ s' c' D', copy_reads (Z.of_nat k + 1) reads s = Ret tt s' ∧ img s' c' D' (alter (.++ read_bytes reads) k L) T.
Proof.
  assert (∀ k (L : list (list Z)), alter (.++ []) k L = L) as Enil by (intros; apply list_alter_id; intros; apply app_nil_r).
  induction reads as [|buf reads IH]; intros s c D L T k l H Hl Hmax Hroom; simpl read_bytes in *; cbn [copy_reads].
  { exists s, c, D. rewrite Enil. done. }
  case_bool_decide as Hb; [exists s, c, D; rewrite Enil; done|].
  assert (alter (.++ buf ++ read_bytes reads) k L = alter (.++ read_bytes reads) k (alter (.++ buf) k L)) as Ea.
  { rewrite list_alter_alter_eq. apply list_alter_ext; [|done]. intros x _. simpl. by rewrite app_assoc. }
  rewrite Ea, app_assoc in *. rewrite !length_app in Hmax.
  pose proof (total_grows (alter (.++ buf) k L) k (read_bytes reads)).
  destruct (iappend_spec s c D L T k l buf) as (s1 & c1 & D1 & E1 & H1); try done; [rewrite length_app; lia|lia|].
  destruct (IH s1 c1 D1 (alter (.++ buf) k L) T k (l ++ buf)) as (s2 & c2 & D2 & E2 & H2); try done.
  - by rewrite list_lookup_alter_eq, Hl.
  - rewrite !length_app. lia.
  - exists s2, c2, D2. split; [|done]. by rewrite (bind_eq _ _ _ _ _ E1).
Qed.

Definition file_types (n : nat) : list Z := T_DIR :: replicate n T_FILE.

Lemma dirent_end s c D L T name i :
  img s c D L T → Z.of_nat (length (L !!! 0%nat)) + 16 ≤ MAXFILE * BSIZE → (0 < length L)%nat →
  nmeta + total (alter (.++ dirent i name) 0%nat L) ≤ FSSIZE →
  ∃ s' c' D', iappend 1 (dirent i name) s = Ret tt s' ∧ img s' c' D' (alter (.++ dirent i name) 0%nat L) T.
Proof.
  intros H Hmax HL Hroom. apply (iappend_spec s c D L T 0 (L !!! 0%nat)); try done.
  - by apply list_lookup_lookup_total_lt.
  - rewrite length_app, length_dirent. lia.
Qed.

Lemma copy_file_spec s c D fs f :
  img s c D (tree fs) (file_types (length fs)) → fits (fs ++ [f]) →
  ∃ s' c' D', copy_file 1 f s = Ret tt s' ∧ img s' c' D' (tree (fs ++ [f])) (file_types (length (fs ++ [f]))).
Proof.
  intros H (Hleg & Hnum & Hroom). rewrite length_app in Hnum. simpl in Hnum.
  apply Forall_app in Hleg as [_ (Hname & [reads Hf] & Hsz)%Forall_singleton].
  assert (length (tree fs) = Datatypes.S (length fs)) as HL by (unfold tree; simpl; by rewrite length_map).
  assert (data f = read_bytes reads) as Ed by (unfold data; by rewrite Hf).
  destruct (ialloc_spec _ _ _ _ _ T_FILE H) as (s1 & c1 & E1 & H1); [lia|unfold T_FILE; lia|].
  assert (file_types (length fs) ++ [T_FILE] = file_types (length (fs ++ [f]))) as Et.
  { unfold file_types. rewrite length_app. simpl. f_equal. by rewrite <- replicate_cons_app, Nat.add_comm. }
  rewrite Et in H1. rewrite tree_snoc in Hroom |- *.
  set (L1 := alter _ 0%nat (tree fs ++ [[]])) in *. pose proof (total_grows L1 (Datatypes.S (length fs)) (data f)).
  assert (((tree fs ++ [[]]) !!! 0%nat : list Z) = root_dir fs) as E0 by done.
  destruct (dirent_end s1 c1 _ (tree fs ++ [[]]) _ (short_name f) (Z.of_nat (length fs) + 2) H1) as (s2 & c2 & D2 & E2 & H2).
  { rewrite E0, length_root_dir. unfold NINODES in Hnum. rewrite maxfile_eq, bsize_eq. lia. }
  { rewrite length_app. lia. }
  { fold L1. lia. }
  assert (L1 !! Datatypes.S (length fs) = Some []) as El.
  { unfold L1. rewrite list_lookup_alter_ne by done. rewrite lookup_app_r, HL, Nat.sub_diag by lia. done. }
  rewrite Ed in *. destruct (copy_reads_spec reads _ _ _ _ _ _ _ H2 El) as (s3 & c3 & D3 & E3 & H3); [done|done|].
  exists s3, c3, D3. split; [|exact H3]. unfold copy_file. rewrite decide_False by done. rewrite Hf.
  fold (short_name f). rewrite HL in E1. rewrite (bind_eq _ _ _ _ _ E1).
  replace (Z.of_nat (Datatypes.S (length fs)) + 1) with (Z.of_nat (length fs) + 2) in * by lia. by rewrite (bind_eq _ _ _ _ _ E2).
Qed.

Lemma fits_prefix fs fs' : fits (fs ++ fs') → fits fs.
Proof.
  intros (H1 & H2 & H3). apply Forall_app in H1 as [H1 _]. rewrite length_app in H2. pose proof (total_tree_app fs fs').
  split_and!; [done|lia|lia].
Qed.

Lemma copy_files_spec fs' : ∀ s c D fs,
  img s c D (tree fs) (file_types (length fs)) → fits (fs ++ fs') →
  ∃ s' c' D', for_each fs' (copy_file 1) s = Ret tt s' ∧ img s' c' D' (tree (fs ++ fs')) (file_types (length (fs ++ fs'))).
Proof.
  induction fs' as [|f fs' IH]; intros s c D fs H Hfit; [exists s, c, D; by rewrite app_nil_r|].
  replace (fs ++ f :: fs') with ((fs ++ [f]) ++ fs') in * by (by rewrite <- app_assoc).
  destruct (copy_file_spec s c D fs f H) as (s1 & c1 & D1 & E1 & H1); [by eapply fits_prefix|].
  destruct (IH s1 c1 D1 (fs ++ [f]) H1 Hfit) as (s2 & c2 & D2 & E2 & H2).
  exists s2, c2, D2. split; [|done]. cbn [for_each]. by rewrite (bind_eq _ _ _ _ _ E1).
Qed.

(** ** The first blocks *)

Lemma zero_image n s : (n ≤ Z.to_nat FSSIZE)%nat →
  ∃ s', for_each (seqZ 0 (Z.of_nat n)) (λ i, wsect i zeroes) s = Ret tt s' ∧ freeinode s' = freeinode s ∧ freeblock s' = freeblock s ∧
    ∀ b, 0 ≤ b < Z.of_nat n → image s' !! b = Some zeroes.
Proof.
  induction n as [|n IH]; intros Hn; [exists s; split_and!; try done; lia|].
  destruct IH as (s1 & E & Hi & Hf & Hz); [lia|]. rewrite seqZ_S, for_each_app.
  eexists. split; [rewrite (bind_eq _ _ _ _ _ E); reflexivity|]. split_and!; [done|done|].
  intros b Hb. simpl. destruct (decide (b = 0 + Z.of_nat n)) as [->|]; [by rewrite lookup_insert_eq|].
  rewrite lookup_insert_ne by done. apply Hz. lia.
Qed.

Lemma length_sb_block : length sb_block = Z.to_nat BSIZE.
Proof. vm_compute. reflexivity. Qed.
Lemma sb_block_eq : get_superblock sb_block = mkfs_sb.
Proof. vm_compute. reflexivity. Qed.

Lemma ino_zero i : get_dinode zeroes (dinode_off i) = mk_dinode 0 0 0 0 0 no_addrs.
Proof.
  pose proof (dinode_off_fit i) as Hf.
  assert (∀ o, (o + 2 ≤ Z.to_nat BSIZE)%nat → get16 zeroes o = 0) as E16.
  { intros o Ho. unfold get16, zeroes. rewrite drop_replicate, take_replicate, Nat.min_l by lia. reflexivity. }
  unfold get_dinode. rewrite !E16, get32_zeroes by lia. f_equal.
  apply list_eq. intros k. rewrite list_lookup_fmap. destruct (decide (k < NDIRECT + 1)%nat).
  - rewrite lookup_seq_lt by done. simpl. rewrite get32_zeroes by (unfold NDIRECT in *; lia). symmetry. by apply lookup_replicate_2.
  - rewrite lookup_seq_ge by lia. symmetry. apply lookup_ge_None_2. unfold no_addrs. rewrite length_replicate. lia.
Qed.

(** The image before the first inode. *)
Lemma img_start : ∃ s c,
  bind (modify (λ s : mst, s <| freeblock := nmeta |>)) (λ _, bind (for_each (seqZ 0 FSSIZE) (λ i, wsect i zeroes)) (λ _, wsect 1 sb_block)) mkfs_start =
    Ret tt s ∧ img s c [] [] [].
Proof.
  destruct (zero_image (Z.to_nat FSSIZE) (mkfs_start <| freeblock := nmeta |>)) as (s1 & E & Hi & Hf & Hz); [lia|].
  rewrite Z2Nat.id in E, Hz by done. set (c := fset 1 sb_block (λ _, zeroes)).
  assert (∀ b, b ≠ 1 → c b = zeroes) as Ec by (intros; by apply fset_ne).
  eexists _, c. split; [erewrite bind_eq by reflexivity; rewrite (bind_eq _ _ _ _ _ E); reflexivity|].
  assert (∀ b, length (c b) = Z.to_nat BSIZE) as Hlen.
  { intros b. unfold c, fset. case_decide; [apply length_sb_block|apply length_replicate]. }
  split.
  - split; [| |by split].
    + apply (wsect_view s1 (λ _, zeroes)); [done|unfold FSSIZE; lia].
    + split; [exact Hlen| | |apply Forall_nil_2|by intros ? ? ? [=]|by intros ? ? ? ? ? ? [=]].
      * simpl. rewrite Hf. simpl. rewrite nmeta_eq. unfold FSSIZE. lia.
      * intros b Hb. apply Ec. simpl in Hb. rewrite Hf in Hb. simpl in Hb. rewrite nmeta_eq in Hb. lia.
  - split; [reflexivity|apply Forall_nil_2].
  - simpl. rewrite Hi. simpl. unfold NINODES. lia.
  - by intros ? ? ? ? [=].
  - intros i Hi'. unfold ino. simpl in Hi'. rewrite Hi in Hi'. simpl in Hi'.
    destruct (iblock_ino i ltac:(lia)) as [Hb _]. unfold ino_block in Hb. change (2 + nlog) with 32 in Hb. rewrite Ec by lia. apply ino_zero.
  - intros b Hb _. reflexivity.
  - simpl. rewrite Hf. reflexivity.
Qed.

Lemma root_spec : nmeta + total (tree []) ≤ FSSIZE →
  ∀ s c, img s c [] [] [] →
  ∃ s' c' D', (let! rootino := ialloc T_DIR in
    if negb (rootino =? ROOTINO) then panic "assert" else
    do! iappend rootino (dirent rootino [c_dot]) in iappend rootino (dirent rootino [c_dot; c_dot])) s = Ret tt s' ∧
    img s' c' D' (tree []) (file_types 0).
Proof.
  intros Hroom s c H. destruct (ialloc_spec _ _ _ _ _ T_DIR H) as (s1 & c1 & E1 & H1); [done|done|].
  assert (tree [] = alter (.++ dirent 1 [c_dot; c_dot]) 0%nat (alter (.++ dirent 1 [c_dot]) 0%nat [[]])) as Et.
  { unfold tree, root_dir. cbn [imap concat map alter list_alter]. by rewrite app_nil_r. }
  rewrite Et in Hroom |- *. set (L1 := alter (.++ dirent 1 [c_dot]) 0%nat [[]]) in *.
  pose proof (total_grows L1 0%nat (dirent 1 [c_dot; c_dot])).
  destruct (dirent_end _ _ _ _ _ [c_dot] 1 H1) as (s2 & c2 & D2 & E2 & H2); [vm_compute; discriminate|simpl; lia|simpl app; fold L1; lia|].
  destruct (dirent_end _ _ _ _ _ [c_dot; c_dot] 1 H2) as (s3 & c3 & D3 & E3 & H3); [|simpl; lia|exact Hroom|].
  { vm_compute. discriminate. }
  exists s3, c3, D3. split; [|exact H3]. rewrite (bind_eq _ _ _ _ _ E1). change (Z.of_nat (length (@nil (list Z))) + 1) with 1.
  cbn [negb Z.eqb ROOTINO Pos.eqb]. by rewrite (bind_eq _ _ _ _ _ E2).
Qed.

(** ** The bitmap *)

Definition bitmap (used : Z) : list Z :=
  foldl (λ buf i, alter (λ x, u8 (Z.lor x (Z.shiftl 1 (i mod 8)))) (Z.to_nat (i / 8)) buf) zeroes (seqZ 0 used).

Lemma bitmap_spec n : (n ≤ Z.to_nat BPB)%nat →
  length (bitmap (Z.of_nat n)) = Z.to_nat BSIZE ∧
  ∀ b, 0 ≤ b < BPB → bit_set (bitmap (Z.of_nat n)) b = bool_decide (b < Z.of_nat n).
Proof.
  unfold bitmap. induction n as [|n IH]; intros Hn.
  - split; [apply length_replicate|]. intros b Hb. rewrite bool_decide_eq_false_2 by lia. rewrite bit_set_eq. simpl.
    unfold zeroes. rewrite lookup_total_replicate_2 by (by apply byte_pos). apply Z.bits_0.
  - destruct IH as [Hl Hb]; [lia|]. rewrite seqZ_S, foldl_app. simpl foldl.
    set (d := foldl _ zeroes (seqZ 0 (Z.of_nat n))) in *. change (0 + Z.of_nat n) with (Z.of_nat n).
    split; [by rewrite length_alter|]. intros b Hb1. rewrite bit_alter; [|done|lia|done|].
    + case_decide as E.
      * rewrite bool_decide_eq_true_2 by lia. rewrite u8_bit, Z.lor_spec, Z.shiftl_spec, Z.sub_diag by (apply Z.mod_pos_bound; lia).
        apply orb_true_r.
      * rewrite Hb by done. apply bool_decide_ext. lia.
    + intros x k Hk Hne. rewrite u8_bit, Z.lor_spec by done. rewrite Z.shiftl_1_l, Z.pow2_bits_false by lia. apply orb_false_r.
Qed.

Lemma balloc_view s c used :
  view s c → 0 ≤ used ≤ FSSIZE → ∃ s', balloc used s = Ret tt s' ∧ view s' (fset 45 (bitmap used) c) ∧ freeblock s' = freeblock s.
Proof.
  intros Hv Hu. unfold balloc, FSSIZE, BSIZE in *. destruct (Z.ltb_spec used (1024 * 8)); [|lia].
  eexists. split; [reflexivity|]. split; [|done]. by apply wsect_view.
Qed.

(** ** The finished image *)

Definition root_size (fs : list (list Z * option (list (list Z)))) : Z := (Z.of_nat (length (root_dir fs)) / BSIZE + 1) * BSIZE.

(** The inodes at the end: the directory has its new size. *)
Record final (fs : list (list Z * option (list (list Z)))) (s : mst) (c : Z → list Z) (D : list (list Z)) : Prop := {
  fn_holds : holds s c D (tree fs);
  fn_free : freeblock s = nmeta + total (tree fs);
  fn_root : ∀ A, D !! 0%nat = Some A → ino c 1 = mk_dinode T_DIR 0 0 1 (root_size fs) A;
  fn_file : ∀ k f A, fs !! k = Some f → D !! Datatypes.S k = Some A →
    ino c (Z.of_nat k + 2) = mk_dinode T_FILE 0 0 1 (Z.of_nat (length (data f))) A;
  fn_none : ∀ i, Z.of_nat (length fs) + 2 ≤ i < NINODES → ino c i = mk_dinode 0 0 0 0 0 no_addrs;
  fn_used : ∀ b, 0 ≤ b < BPB → bit_set (c 45) b = bool_decide (b < freeblock s);
  fn_meta : ∀ b, 0 ≤ b < nmeta → ¬ ino_block b → b ≠ 45 → c b = if decide (b = 1) then sb_block else zeroes
}.

Lemma fix_root_size_spec fs s c D :
  img s c D (tree fs) (file_types (length fs)) → Z.of_nat (length fs) ≤ NINODES - 2 →
  ∃ s' A, D !! 0%nat = Some A ∧ fix_root_size 1 s = Ret tt s' ∧ view s' (put_ino 1 (mk_dinode T_DIR 0 0 1 (root_size fs) A) c) ∧
    freeblock s' = freeblock s.
Proof.
  intros H Hn. destruct (im_file _ _ _ _ _ 0%nat (root_dir fs) H eq_refl) as (A & t & HA & Ht & Hk & Ei & _).
  injection Ht as <-. change (Z.of_nat 0 + 1) with 1 in Ei.
  pose proof (length_root_dir fs) as Hl. unfold NINODES in Hn.
  destruct (winode_view s c 1 (mk_dinode T_DIR 0 0 1 (root_size fs) A)) as (s' & E & Hv & Hf & _); [apply H|done|].
  exists s', A. split_and!; try done. unfold fix_root_size. erewrite bind_eq; [|apply rinode_view; [apply H|done]].
  rewrite Ei. cbn [d_type d_major d_minor d_nlink d_size d_addrs]. rewrite (xint_small (Z.of_nat _)) by lia.
  assert (0 ≤ (Z.of_nat (length (root_dir fs)) / BSIZE + 1) * BSIZE < 2 ^ 32) by (rewrite bsize_eq; dlia).
  by rewrite u32_small, xint_small.
Qed.

Lemma finish_spec fs s c D :
  img s c D (tree fs) (file_types (length fs)) → Z.of_nat (length fs) ≤ NINODES - 2 →
  ∃ s' c', (do! fix_root_size 1 in let! b := gets freeblock in balloc b) s = Ret tt s' ∧ final fs s' c' D.
Proof.
  intros H Hn. destruct (fix_root_size_spec fs s c D H Hn) as (s1 & A & HA & E1 & Hv1 & Hf1).
  pose proof (im_room _ _ _ _ _ H) as Hroom. pose proof (total_blocks_pos (tree fs)) as Hpos. pose proof (im_free _ _ _ _ _ H) as Hfr.
  rewrite nmeta_eq in *. assert (0 ≤ freeblock s1 ≤ FSSIZE) as Hu by lia.
  destruct (balloc_view s1 _ (freeblock s1) Hv1 Hu) as (s2 & E2 & Hv2 & Hf2).
  assert (dinode_ok (mk_dinode T_DIR 0 0 1 (root_size fs) A)) as Hx.
  { eapply (file_dinode_ok _ _ _ _ 0%nat); [apply H|done|unfold T_DIR; lia|]. unfold root_size. rewrite length_root_dir, bsize_eq.
    unfold NINODES in Hn. dlia. }
  destruct (put_ino_frame s s1 c c D (tree fs) 1 (mk_dinode T_DIR 0 0 1 (root_size fs) A)) as (H1 & Ei & Em); try done; [apply H|].
  destruct (bitmap_spec (Z.to_nat (freeblock s1))) as [Hbl Hbit]; [unfold FSSIZE in *; change BPB with 8192; lia|].
  rewrite Z2Nat.id in Hbl, Hbit by lia.
  exists s2. eexists. split; [rewrite (bind_eq _ _ _ _ _ E1); erewrite bind_eq by reflexivity; exact E2|].
  set (c1 := put_ino _ _ _) in *.
  assert (∀ j, 0 ≤ j < NINODES → ino (fset 45 (bitmap (freeblock s1)) c1) j = ino c1 j) as Ej.
  { intros j Hj. unfold ino. rewrite fset_ne; [done|]. destruct (iblock_ino j Hj) as [Hb _]. intros E. rewrite E in Hb.
    unfold ino_block in Hb. change (2 + nlog + ninodeblocks) with 45 in Hb. lia. }
  split.
  - eapply holds_meta; [exact H1|done|done| |].
    + intros b. unfold fset. case_decide; [done|]. apply H1.
    + intros b Hb. rewrite nmeta_eq in Hb. apply fset_ne. lia.
  - rewrite nmeta_eq. lia.
  - intros A' HA'. rewrite Ej, Ei by done. rewrite decide_True by done. congruence.
  - intros k f A' Hf HA'. pose proof (lookup_lt_Some _ _ _ Hf). rewrite Ej, Ei, decide_False by lia.
    replace (Z.of_nat k + 2) with (Z.of_nat (Datatypes.S k) + 1) by lia.
    eapply (im_ino _ _ _ _ _ H); [done| |].
    + unfold tree. simpl. by rewrite list_lookup_fmap, Hf.
    + simpl. by apply lookup_replicate_2.
  - intros i Hi. rewrite Ej, Ei, decide_False by lia. eapply im_none; [done|]. pose proof (im_count _ _ _ _ _ H) as [-> _].
    rewrite (im_len _ _ _ _ _ H). unfold tree. simpl. rewrite length_map. lia.
  - intros b Hb. by rewrite fset_eq, Hbit, Hf2.
  - intros b Hb Hni Hne. rewrite fset_ne by done. rewrite Em by (done || lia). eapply im_meta; done || lia.
Qed.

Lemma mkfs_final fs : fits fs → ∃ s c D, mkfs fs mkfs_start = Ret tt s ∧ final fs s c D.
Proof.
  intros Hfit. destruct img_start as (s0 & c0 & E0 & H0).
  assert (fits []) as Hfit0 by (by apply (fits_prefix [] fs)).
  destruct (root_spec (proj2 (proj2 Hfit0)) s0 c0 H0) as (s1 & c1 & D1 & E1 & H1).
  destruct (copy_files_spec fs s1 c1 D1 [] H1 Hfit) as (s2 & c2 & D2 & E2 & H2).
  destruct (finish_spec fs s2 c2 D2 H2 (proj1 (proj2 Hfit))) as (s3 & c3 & E3 & H3).
  exists s3, c3, D2. split; [|done]. unfold mkfs.
  apply bind_Ret in E0 as (? & sa & Ea & E0). rewrite (bind_eq _ _ _ _ _ Ea).
  apply bind_Ret in E0 as (? & sb & Eb & E0). rewrite (bind_eq _ _ _ _ _ Eb), (bind_eq _ _ _ _ _ E0).
  apply bind_Ret in E1 as (r & sc & Ec & E1). rewrite (bind_eq _ _ _ _ _ Ec). destruct (Z.eqb_spec r ROOTINO) as [->|]; [|done].
  cbn [negb] in E1 |- *. apply bind_Ret in E1 as (? & sd & Ed & E1). rewrite (bind_eq _ _ _ _ _ Ed), (bind_eq _ _ _ _ _ E1).
  rewrite (bind_eq _ _ _ _ _ E2). exact E3.
Qed.
