(* ===== verification/MkfsBuild.v ===== *)
(** * The image that [mkfs] builds is one the kernel can mount

    The conditions on the disk that the kernel's theorems on inodes, bitmap
    and files start from hold of the image, with the files as given. *)

From stdpp Require Import gmap.
From S2P Require Import Prelude.
From S2P Require Import Machine.
From S2P Require Import Bio.
From S2P Require Import BioSpec.
From S2P Require Import Log.
From S2P Require Import LogSpec.
From S2P Require Import Fs.
From S2P Require Import FsInode.
From S2P Require Import FsSpec.
From S2P Require Import FsFile.
From S2P Require Import FsRw.
From S2P Require Import FsRwThms.
From S2P Require Import Mkfs.
From S2P Require Import MkfsSpec.
From S2P Require Import MkfsFile.
From S2P Require Import MkfsImg.
From S2P Require Import MkfsThms.
#[local] Open Scope Z_scope.

(** The kernel's file system state after [fsinit] on the disk [c]. *)
Record mounted {S} (k : fsst S) (c : Z → list Z) : Prop := {
  mn_sb : sb k = get_superblock (c 1);
  mn_log : l_start (flog k) = sb_logstart (sb k) ∧ l_size (flog k) = sb_nlog (sb k)
}.

(** Inode [i] as [ilock] reads it. *)
Definition on_disk (k : superblock) (c : Z → list Z) (i : Z) : inode :=
  load_dinode (get_dinode (c (IBLOCK i k)) (dinode_off i)) (zero_inode <| inum := i |>).

Section mount.
Context {S : Type} (k : fsst S) (c : Z → list Z) (fs : list (list Z * option (list (list Z)))) (s : mst) (D : list (list Z)).
Context (F : final fs s c D) (Hk : mounted k c).

Lemma mount_sb : get_superblock (c 1) = mkfs_sb.
Proof.
  rewrite (fn_meta _ _ _ _ F); [apply sb_block_eq|by rewrite nmeta_eq| |done]. unfold ino_block. change (2 + nlog) with 32. lia.
Qed.
Lemma mount_sb_eq : sb k = mkfs_sb.
Proof. rewrite (mn_sb _ _ Hk). apply mount_sb. Qed.
Lemma mount_in_log b : in_log (flog k) b ↔ 2 ≤ b < 32.
Proof. destruct (mn_log _ _ Hk) as [E1 E2]. unfold in_log. rewrite E1, E2, mount_sb_eq. change (sb_logstart mkfs_sb) with 2. change (sb_nlog mkfs_sb) with 30. lia. Qed.
Lemma mount_bblock b : 0 ≤ b < FSSIZE → BBLOCK b mkfs_sb = 45 ∧ b mod BPB = b ∧ b < BPB.
Proof.
  intros Hb. unfold BBLOCK. change (sb_bmapstart mkfs_sb) with 45. change BPB with 8192. unfold FSSIZE in Hb.
  rewrite Z.div_small, Z.mod_small by lia. split_and!; [done|done|lia].
Qed.

Lemma mount_layout : layout k.
Proof.
  split; rewrite ?mount_sb_eq; [by vm_compute..| | |].
  - intros x Hx. change (sb_size mkfs_sb) with FSSIZE in Hx. rewrite mount_in_log. destruct (mount_bblock x Hx) as [-> _]. lia.
  - intros i Hi. change (sb_ninodes mkfs_sb) with NINODES in Hi. rewrite mount_in_log. destruct (iblock_ino i Hi) as [Hb _].
    unfold ino_block in Hb. change (2 + nlog) with 32 in Hb. lia.
  - intros i x Hi Hx. change (sb_size mkfs_sb) with FSSIZE in Hx. change (sb_ninodes mkfs_sb) with NINODES in Hi.
    destruct (mount_bblock x Hx) as [-> _]. destruct (iblock_ino i Hi) as [Hb _]. intros E. rewrite E in Hb.
    unfold ino_block in Hb. change (2 + nlog + ninodeblocks) with 45 in Hb. lia.
Qed.

Lemma mount_data b : nmeta ≤ b < FSSIZE → data_block k b.
Proof.
  intros Hb. rewrite nmeta_eq in Hb. split; rewrite ?mount_sb_eq.
  - change (sb_size mkfs_sb) with FSSIZE. lia.
  - rewrite mount_in_log. lia.
  - intros y Hy. change (sb_size mkfs_sb) with FSSIZE in Hy. destruct (mount_bblock y Hy) as [-> _]. lia.
  - intros i Hi. change (sb_ninodes mkfs_sb) with NINODES in Hi. destruct (iblock_ino i Hi) as [Hi2 _].
    apply ino_range in Hi2. rewrite nmeta_eq in Hi2. lia.
Qed.

Lemma mount_used b : 0 ≤ b < FSSIZE → in_use (sb k) c b = bool_decide (b < nmeta + total (tree fs)).
Proof.
  intros Hb. unfold in_use. rewrite mount_sb_eq. destruct (mount_bblock b Hb) as (-> & -> & Hb2).
  rewrite (fn_used _ _ _ _ F) by lia. by rewrite (fn_free _ _ _ _ F).
Qed.

Lemma mount_bitmap : bitmap_ok k c.
Proof.
  intros x Hx Hu. rewrite mount_sb_eq in Hx. change (sb_size mkfs_sb) with FSSIZE in Hx. rewrite mount_used in Hu by done.
  apply bool_decide_eq_false_1 in Hu. apply mount_data. pose proof (total_blocks_pos (tree fs)). lia.
Qed.

(** A block of a file is a data block in use. *)
Lemma mount_owned i A j : D !! i = Some A → slot_ix j → slot A c j ≠ 0 → owned k c (slot A c j).
Proof.
  intros Hi Hj Hn. pose proof (so_range _ _ _ (hd_slots _ _ _ _ (fn_holds _ _ _ _ F)) i A j Hi Hj Hn) as Hr.
  pose proof (so_free _ _ _ (hd_slots _ _ _ _ (fn_holds _ _ _ _ F))). split; [apply mount_data; lia|].
  rewrite nmeta_eq in Hr. rewrite mount_used by lia. apply bool_decide_eq_true_2. rewrite <- (fn_free _ _ _ _ F). lia.
Qed.

Lemma mount_file i A l x sz :
  D !! i = Some A → tree fs !! i = Some l → addrs x = A → 0 ≤ inum x < NINODES →
  0 ≤ sz ≤ MAXFILE * BSIZE → (∀ bn, 0 ≤ bn → bn * BSIZE < sz → bn * BSIZE < Z.of_nat (length l)) → file_ok k x c sz.
Proof.
  intros Hi Hl <- Hx Hsz Hfull. pose proof (hd_slots _ _ _ _ (fn_holds _ _ _ _ F)) as HS. pose proof (hd_files _ _ _ _ (fn_holds _ _ _ _ F)) as HF.
  pose proof (so_addrs _ _ _ HS) as Ha. rewrite Forall_lookup in Ha. destruct (Ha i _ Hi) as [Hlen _].
  assert (∀ bn, 0 ≤ bn < MAXFILE → faddr x c bn = slot (addrs x) c bn) as Es by (intros; by rewrite slot_block).
  split; try done.
  - by rewrite mount_sb_eq.
  - intros Hn. change (indirect x) with (addrs x !!! NDIRECT) in *. rewrite <- (slot_ind _ c) in *. by apply (mount_owned i); [|apply ind_ix|].
  - intros bn Hb Hn. rewrite Es in * by done. split; [apply (mount_owned i); [done|unfold slot_ix; lia|done]|].
    change (indirect x) with (addrs x !!! NDIRECT). rewrite <- (slot_ind _ c). intros E.
    destruct (so_inj _ _ _ HS i _ bn i _ MAXFILE Hi Hi) as [_ ->]; try done; [unfold slot_ix; lia|lia].
  - intros b1 b2 H1 H2. rewrite !Es by done. intros E Hn.
    by destruct (so_inj _ _ _ HS i _ b1 i _ b2 Hi Hi) as [_ ->]; [unfold slot_ix; lia|unfold slot_ix; lia| | |].
  - intros bn H0 Hbn. assert (0 ≤ bn < MAXFILE) as Hb by (rewrite maxfile_eq, bsize_eq in *; lia). rewrite Es by done.
    apply (fl_slots _ _ _ HF i _ l Hi Hl); [unfold slot_ix; lia|]. left. split; [lia|]. by apply Hfull.
Qed.

Lemma mount_contents i A l x :
  D !! i = Some A → tree fs !! i = Some l → addrs x = A → Z.of_nat (length l) ≤ i_size x ≤ MAXFILE * BSIZE →
  contents x c = l ++ replicate (Z.to_nat (i_size x) - length l) 0.
Proof.
  intros Hi Hl <- Hsz. pose proof (fl_bytes _ _ _ (hd_files _ _ _ _ (fn_holds _ _ _ _ F)) i _ l Hi Hl) as Hb.
  apply list_eq. intros p. unfold contents. rewrite list_lookup_fmap. destruct (decide (Z.of_nat p < i_size x)) as [Hp|Hp].
  - rewrite lookup_seqZ_lt by lia. cbn [fmap option_fmap option_map]. change (fbyte x c (0 + Z.of_nat p)) with (byte_at (addrs x) c (0 + Z.of_nat p)).
    rewrite Hb by lia. replace (Z.to_nat (0 + Z.of_nat p)) with p by lia. destruct (decide (p < length l)%nat) as [Hpl|Hpl].
    + rewrite lookup_app_l by done. by destruct (lookup_lt_is_Some_2 l p Hpl) as [v ->].
    + rewrite lookup_app_r, (lookup_ge_None_2 l) by lia. symmetry. apply lookup_replicate_2. lia.
  - rewrite lookup_seqZ_ge by lia. symmetry. apply lookup_ge_None_2. rewrite length_app, length_replicate. lia.
Qed.
End mount.

(** The files [fs] are on the disk [c], mounted as [k]. *)
Record has_files {S} (fs : list (list Z * option (list (list Z)))) (k : fsst S) (c : Z → list Z) : Prop := {
  hf_layout : layout k;
  hf_bitmap : bitmap_ok k c;
  hf_used : ∀ b, 0 ≤ b < FSSIZE → in_use (sb k) c b = bool_decide (b < nmeta + total (tree fs));
  hf_log : ∀ b, in_log (flog k) b → c b = zero_block;
  (** File [i] is inode [i + 2]. *)
  hf_file : ∀ i f, fs !! i = Some f → let x := on_disk (sb k) c (Z.of_nat i + 2) in
    i_type x = T_FILE ∧ nlink x = 1 ∧ file_ok k x c (i_size x) ∧ contents x c = data f;
  (** The root directory is padded with free entries to the end of a block, or
      by a block it does not have. *)
  hf_root : let x := on_disk (sb k) c ROOTINO in
    i_type x = T_DIR ∧ nlink x = 1 ∧ i_size x = root_size fs ∧
    contents x c = root_dir fs ++ replicate (Z.to_nat (root_size fs) - length (root_dir fs)) 0 ∧
    (file_ok k x c (i_size x) ↔ Z.of_nat (length fs + 2) mod 64 ≠ 0);
  (** No block is in two files or in two places of one. *)
  hf_apart : ∀ i1 i2 j1 j2, ROOTINO ≤ i1 ≤ Z.of_nat (length fs) + 1 → ROOTINO ≤ i2 ≤ Z.of_nat (length fs) + 1 → slot_ix j1 → slot_ix j2 →
    slot (addrs (on_disk (sb k) c i1)) c j1 = slot (addrs (on_disk (sb k) c i2)) c j2 → slot (addrs (on_disk (sb k) c i1)) c j1 ≠ 0 →
    i1 = i2 ∧ j1 = j2;
  hf_none : ∀ i, Z.of_nat (length fs) + 2 ≤ i < NINODES → i_type (on_disk (sb k) c i) = 0
}.

Section has_files.
Context {S : Type} (k : fsst S) (c : Z → list Z) (fs : list (list Z * option (list (list Z)))) (s : mst) (D : list (list Z)).
Context (F : final fs s c D) (Hk : mounted k c) (Hfit : fits fs).

Lemma on_disk_eq i : on_disk (sb k) c i = load_dinode (ino c i) (zero_inode <| inum := i |>).
Proof. unfold on_disk, ino. by rewrite (mount_sb_eq k c fs s D F Hk). Qed.
Lemma tree_len : length D = (length fs + 1)%nat.
Proof. rewrite (fl_len _ _ _ (hd_files _ _ _ _ (fn_holds _ _ _ _ F))). unfold tree. simpl. rewrite length_map. lia. Qed.
Lemma root_range : 0 ≤ Z.of_nat (length (root_dir fs)) < root_size fs ∧ root_size fs ≤ MAXFILE * BSIZE.
Proof. destruct Hfit as (_ & Hn & _). unfold root_size. rewrite length_root_dir, maxfile_eq, bsize_eq. unfold NINODES in Hn. dlia. Qed.

Lemma has_file i f : fs !! i = Some f → let x := on_disk (sb k) c (Z.of_nat i + 2) in
  i_type x = T_FILE ∧ nlink x = 1 ∧ file_ok k x c (i_size x) ∧ contents x c = data f.
Proof.
  intros Hi. pose proof (lookup_lt_Some _ _ _ Hi) as Hlt. destruct (lookup_lt_is_Some_2 D (Datatypes.S i)) as [A HA]; [rewrite tree_len; lia|].
  rewrite on_disk_eq, (fn_file _ _ _ _ F i f A Hi HA). cbv zeta.
  assert (tree fs !! Datatypes.S i = Some (data f)) as Ht by (unfold tree; simpl; by rewrite list_lookup_fmap, Hi).
  destruct Hfit as (Hleg & Hn & _). rewrite Forall_lookup in Hleg. destruct (Hleg i f Hi) as (_ & _ & Hmax).
  split_and!; [done|done| |].
  - eapply (mount_file k c fs s D F Hk (Datatypes.S i)); [exact HA|exact Ht|done|simpl; lia|change (0 ≤ Z.of_nat (length (data f)) ≤ MAXFILE * BSIZE); lia|done].
  - rewrite (mount_contents c fs s D F (Datatypes.S i) A (data f)) by (simpl; done || lia). simpl.
    rewrite Nat2Z.id, Nat.sub_diag. apply app_nil_r.
Qed.

Lemma root_block_missing A : D !! 0%nat = Some A → Z.of_nat (length fs + 2) mod 64 = 0 → slot A c (root_size fs / BSIZE - 1) = 0.
Proof.
  intros HA Hm. pose proof root_range as Hr. set (j := root_size fs / BSIZE - 1).
  assert (j = Z.of_nat (length (root_dir fs)) / BSIZE) as Ej by (unfold j, root_size; rewrite Z.div_mul by done; lia).
  assert (0 ≤ j < MAXFILE) as Hj by (rewrite Ej, maxfile_eq, bsize_eq in *; dlia).
  destruct (decide (slot A c j = 0)) as [|Hn]; [done|].
  apply (fl_slots _ _ _ (hd_files _ _ _ _ (fn_holds _ _ _ _ F)) 0%nat A (root_dir fs) HA eq_refl) in Hn; [|unfold slot_ix; lia].
  unfold has_slot in Hn. rewrite Ej, length_root_dir in *. rewrite maxfile_eq, bsize_eq in *. dlia.
Qed.

Lemma has_root : let x := on_disk (sb k) c ROOTINO in
  i_type x = T_DIR ∧ nlink x = 1 ∧ i_size x = root_size fs ∧
  contents x c = root_dir fs ++ replicate (Z.to_nat (root_size fs) - length (root_dir fs)) 0 ∧
  (file_ok k x c (i_size x) ↔ Z.of_nat (length fs + 2) mod 64 ≠ 0).
Proof.
  destruct (lookup_lt_is_Some_2 D 0%nat) as [A HA]; [rewrite tree_len; lia|]. pose proof root_range as [Hr1 Hr2].
  rewrite on_disk_eq. change ROOTINO with 1. rewrite (fn_root _ _ _ _ F A HA). cbv zeta. split_and!; try done.
  - rewrite (mount_contents c fs s D F 0%nat A (root_dir fs)) by first [done | change (Z.of_nat (length (root_dir fs)) ≤ root_size fs ≤ MAXFILE * BSIZE); lia]. done.
  - match goal with |- file_ok _ ?x _ _ ↔ _ => change (i_size x) with (root_size fs) end. split.
    + intros Hok Hm. apply (fo_full _ _ _ _ Hok (root_size fs / BSIZE - 1)).
      * unfold root_size. rewrite Z.div_mul by done. rewrite bsize_eq. dlia.
      * unfold root_size. rewrite Z.div_mul by done. rewrite bsize_eq. lia.
      * match goal with |- faddr ?x _ ?b = 0 => change (faddr x c b) with (faddr (node A) c b) end.
        rewrite <- slot_block; [by apply root_block_missing|].
        unfold root_size in *. rewrite Z.div_mul by done. rewrite maxfile_eq, bsize_eq in *. dlia.
    + intros Hm. eapply (mount_file k c fs s D F Hk 0%nat A (root_dir fs)); try done; [lia|].
      intros bn H0 Hb. unfold root_size in Hb. rewrite length_root_dir, bsize_eq in *. dlia.
Qed.

Lemma disk_addrs i : ROOTINO ≤ i ≤ Z.of_nat (length fs) + 1 → D !! Z.to_nat (i - 1) = Some (addrs (on_disk (sb k) c i)).
Proof.
  intros Hi. change ROOTINO with 1 in Hi. destruct (lookup_lt_is_Some_2 D (Z.to_nat (i - 1))) as [A HA]; [rewrite tree_len; lia|].
  rewrite HA, on_disk_eq. f_equal. destruct (decide (i = 1)) as [->|Hne].
  - by rewrite (fn_root _ _ _ _ F A HA).
  - destruct (lookup_lt_is_Some_2 fs (Z.to_nat (i - 2))) as [f Hf]; [lia|].
    replace i with (Z.of_nat (Z.to_nat (i - 2)) + 2) by lia. rewrite (fn_file _ _ _ _ F _ f A Hf); [done|].
    by replace (Datatypes.S (Z.to_nat (i - 2))) with (Z.to_nat (i - 1)) by lia.
Qed.

Lemma final_has_files : has_files fs k c.
Proof.
  split.
  - by eapply mount_layout.
  - by eapply mount_bitmap.
  - by eapply mount_used.
  - intros b Hb. rewrite (mount_in_log k c fs s D F Hk) in Hb. rewrite (fn_meta _ _ _ _ F); [|rewrite nmeta_eq; lia| |lia].
    + by rewrite decide_False by lia.
    + unfold ino_block. change (2 + nlog) with 32. lia.
  - apply has_file.
  - apply has_root.
  - intros i1 i2 j1 j2 Hi1 Hi2 Hj1 Hj2 E Hn.
    destruct (so_inj _ _ _ (hd_slots _ _ _ _ (fn_holds _ _ _ _ F)) _ _ j1 _ _ j2 (disk_addrs i1 Hi1) (disk_addrs i2 Hi2) Hj1 Hj2 E Hn) as [E1 E2].
    change ROOTINO with 1 in *. split; [lia|done].
  - intros i Hi. rewrite on_disk_eq, (fn_none _ _ _ _ F) by done. done.
Qed.
End has_files.

(** C12: run on an empty image and files whose names and sizes are legal and
    that fit on the disk, [mkfs] succeeds, and the image it leaves is one the
    kernel can mount: the superblock is the computed one, and the layout and
    the bitmap satisfy what the kernel's theorems assume of a mounted disk,
    exactly the blocks [mkfs] took are marked in use, the log is empty, every
    file is a regular file whose contents are the bytes given, no block is in
    two files, the root directory lists "." and ".." and the files in order
    followed by free entries (and has all its blocks unless its entries end at
    a block boundary), and the other inodes are free. *)
Theorem mkfs_builds fs :
  fits fs →
  ∃ s c, mkfs fs mkfs_start = Ret tt s ∧ view s c ∧ get_superblock (c 1) = mkfs_sb ∧
    ∀ (S : Type) (k : fsst S), mounted k c → has_files fs k c.
Proof.
  intros Hfit. destruct (mkfs_final fs Hfit) as (s & c & D & E & F). exists s, c.
  split_and!; [done|apply F|by eapply mount_sb|]. intros S k Hk. by eapply final_has_files.
Qed.

(** "user/_cat" in two reads, "README" and an empty file. *)
Definition demo_inputs : list (list Z * option (list (list Z))) :=
  [([117; 115; 101; 114; 47; 95; 99; 97; 116], Some [replicate 1024 7; [8; 9]; []]);
   ([82; 69; 65; 68; 77; 69], Some [[120; 118; 54]]);
   ([101], Some [])].
Definition demo_mount : fsst unit :=
  mk_fsst unit (mk_log_st unit 2 30 1 false 0 (mk_logheader 0 []) 0 tt) mkfs_sb [] 1 0 [] [].

Lemma mkfs_builds_witness :
  ∃ s c, mkfs demo_inputs mkfs_start = Ret tt s ∧ view s c ∧ mounted demo_mount c ∧ has_files demo_inputs demo_mount c.
Proof.
  destruct (mkfs_builds demo_inputs) as (s & c & E & Hv & Hsb & Hall).
  - split; [|split; vm_compute; discriminate].
    apply (bool_decide_eq_true_1 (Forall legal demo_inputs)). vm_compute. reflexivity.
  - assert (mounted demo_mount c) as Hm by (split; [exact (eq_sym Hsb)|split; reflexivity]).
    exists s, c. split; [exact E|]. split; [exact Hv|]. split; [exact Hm|]. exact (Hall unit demo_mount Hm).
Defined.
