(* ===== verification/Boot.v ===== *)
(** * Boot ([start.c], [plic.c], the register access of [riscv.h])

    A CPU in machine mode is a record of its control registers and what it can
    reach of memory. [sstatus] and [sie] are the views of [mstatus] and [mie]
    that the privileged architecture defines; which bits they show and which
    interrupts can be delegated depends on the processor and is the class
    [Hart]. *)

From S2P Require Import Prelude.
From S2P Require Import Machine.
#[local] Open Scope Z_scope.

(** ** Registers *)

Definition MSTATUS_MPP_MASK : Z := Z.shiftl 3 11.
Definition MSTATUS_MPP_M : Z := Z.shiftl 3 11.
Definition MSTATUS_MPP_S : Z := Z.shiftl 1 11.
Definition MSTATUS_MPP_U : Z := Z.shiftl 0 11.
Definition MSTATUS_MIE : Z := Z.shiftl 1 3.
Definition SSTATUS_SIE : Z := Z.shiftl 1 1.
Definition SIE_SEIE : Z := Z.shiftl 1 9.
Definition SIE_STIE : Z := Z.shiftl 1 5.
Definition SIE_SSIE : Z := Z.shiftl 1 1.
Definition MIE_MTIE : Z := Z.shiftl 1 7.

Class Hart := {
  sstatus_mask : Z;
  deleg_mask : Z;
  sstatus_mask_sie : Z.testbit sstatus_mask 1 = true;
  deleg_mask_s : Z.testbit deleg_mask 9 = true ∧ Z.testbit deleg_mask 5 = true ∧ Z.testbit deleg_mask 1 = true
}.

Record hart := mk_hart {
  mhartid : Z; mstatus : Z; mepc : Z; mie : Z; medeleg : Z; mideleg : Z; mtvec : Z; mscratch : Z;
  pmpcfg0 : Z; pmpaddr0 : Z; satp : Z; tp : Z;
  (** The mode, 1 for supervisor and 3 for machine, and the program counter. *)
  mode : Z; pc : Z;
  hmem : memory
}.
#[export] Instance hart_eta : Settable hart := λ h,
  mk_hart (mhartid h) (mstatus h) (mepc h) (mie h) (medeleg h) (mideleg h) (mtvec h) (mscratch h)
    (pmpcfg0 h) (pmpaddr0 h) (satp h) (tp h) (mode h) (pc h) (hmem h).

Section csr.
Context `{!Hart}.

Definition r_mhartid : M hart Z := gets mhartid.
Definition r_mstatus : M hart Z := gets mstatus.
Definition w_mstatus (x : Z) : M hart unit := modify (λ h : hart, h <| mstatus := x |>).
Definition w_mepc (x : Z) : M hart unit := modify (λ h : hart, h <| mepc := x |>).
Definition r_sstatus : M hart Z := gets (λ h, Z.land (mstatus h) sstatus_mask).
Definition w_sstatus (x : Z) : M hart unit :=
  modify (λ h : hart, h <| mstatus := Z.lor (Z.ldiff (mstatus h) sstatus_mask) (Z.land x sstatus_mask) |>).
Definition r_sie : M hart Z := gets (λ h, Z.land (mie h) (mideleg h)).
Definition w_sie (x : Z) : M hart unit :=
  modify (λ h : hart, h <| mie := Z.lor (Z.ldiff (mie h) (mideleg h)) (Z.land x (mideleg h)) |>).
Definition r_mie : M hart Z := gets mie.
Definition w_mie (x : Z) : M hart unit := modify (λ h : hart, h <| mie := x |>).
Definition w_medeleg (x : Z) : M hart unit := modify (λ h : hart, h <| medeleg := x |>).
Definition w_mideleg (x : Z) : M hart unit := modify (λ h : hart, h <| mideleg := Z.land x deleg_mask |>).
Definition w_mtvec (x : Z) : M hart unit := modify (λ h : hart, h <| mtvec := x |>).
Definition w_pmpcfg0 (x : Z) : M hart unit := modify (λ h : hart, h <| pmpcfg0 := x |>).
Definition w_pmpaddr0 (x : Z) : M hart unit := modify (λ h : hart, h <| pmpaddr0 := x |>).
Definition w_satp (x : Z) : M hart unit := modify (λ h : hart, h <| satp := x |>).
Definition w_mscratch (x : Z) : M hart unit := modify (λ h : hart, h <| mscratch := x |>).
Definition r_tp : M hart Z := gets tp.
Definition w_tp (x : Z) : M hart unit := modify (λ h : hart, h <| tp := x |>).

Definition intr_on : M hart unit := let! x := r_sstatus in w_sstatus (Z.lor x SSTATUS_SIE).
Definition intr_off : M hart unit := let! x := r_sstatus in w_sstatus (Z.ldiff x SSTATUS_SIE).
Definition intr_get : M hart bool := let! x := r_sstatus in ret (negb (Z.land x SSTATUS_SIE =? 0)).

(** ["mret"]: to the mode in MPP, at [mepc]; MIE becomes MPIE and MPP user. *)
Definition mret : M hart unit :=
  modify (λ h : hart,
    let x := mstatus h in
    let mpie := Z.testbit x 7 in
    let x1 := Z.lor (Z.ldiff x (Z.lor MSTATUS_MPP_MASK MSTATUS_MIE)) (if mpie then MSTATUS_MIE else 0) in
    h <| mode := Z.land (Z.shiftr x 11) 3 |> <| pc := mepc h |> <| mstatus := Z.lor x1 (Z.shiftl 1 7) |>).

(** ** [start.c] *)

Definition CLINT : Z := 0x2000000.
Definition CLINT_MTIMECMP (hartid : Z) : Z := CLINT + 0x4000 + 8 * hartid.
Definition CLINT_MTIME : Z := CLINT + 0xBFF8.

(** Addresses of [main], [timervec] and [timer_scratch]. *)
Context (main_addr timervec timer_scratch : Z).

Definition store_at (a v : Z) : M hart unit := modify (λ h : hart, h <| hmem := store64 (hmem h) a v |>).

Definition timerinit : M hart unit :=
  let! id := r_mhartid in
  let interval := 1000000 in
  let! t := gets (λ h, load64 (hmem h) CLINT_MTIME) in
  do! store_at (CLINT_MTIMECMP id) (u64 (t + interval)) in
  let scratch := timer_scratch + 40 * id in
  do! store_at (scratch + 8 * 3) (CLINT_MTIMECMP id) in
  do! store_at (scratch + 8 * 4) interval in
  do! w_mscratch scratch in
  do! w_mtvec timervec in
  let! x := r_mstatus in
  do! w_mstatus (Z.lor x MSTATUS_MIE) in
  let! x := r_mie in
  w_mie (Z.lor x MIE_MTIE).

Definition start : M hart unit :=
  let! x := r_mstatus in
  let x := Z.ldiff x MSTATUS_MPP_MASK in
  let x := Z.lor x MSTATUS_MPP_S in
  do! w_mstatus x in
  do! w_mepc main_addr in
  do! w_satp 0 in
  do! w_medeleg 0xffff in
  do! w_mideleg 0xffff in
  let! x := r_sie in
  do! w_sie (Z.lor (Z.lor (Z.lor x SIE_SEIE) SIE_STIE) SIE_SSIE) in
  do! w_pmpaddr0 0x3fffffffffffff in
  do! w_pmpcfg0 0xf in
  do! timerinit in
  let! id := r_mhartid in
  do! w_tp id in
  mret.

(** ** What [start] leaves *)

(** Memory other than the hart's own timer registers is not touched. *)
Definition own_timer (id x : Z) : Prop :=
  in_range (CLINT_MTIMECMP id) 8 x ∨ in_range (timer_scratch + 40 * id + 24) 16 x.

Record started_hart (h0 h : hart) : Prop := {
  sh_main : mode h = 1 ∧ pc h = main_addr;
  sh_paging : satp h = 0;
  sh_tp : tp h = mhartid h0;
  sh_deleg : medeleg h = 0xffff ∧ mideleg h = Z.land 0xffff deleg_mask;
  (** External, timer and software interrupts of supervisor mode are enabled,
      and the machine's timer interrupt, which [timervec] handles. *)
  sh_sie : ∀ b, b = 9 ∨ b = 5 ∨ b = 1 → Z.testbit (Z.land (mie h) (mideleg h)) b = true;
  sh_timer : Z.testbit (mie h) 7 = true ∧ mtvec h = timervec;
  (** Supervisor mode may use all of physical memory. *)
  sh_pmp : pmpcfg0 h = 0xf ∧ pmpaddr0 h = 0x3fffffffffffff;
  (** [timervec] finds its registers and the interval. *)
  sh_scratch : mscratch h = timer_scratch + 40 * mhartid h0 ∧
    load64 (hmem h) (mscratch h + 24) = CLINT_MTIMECMP (mhartid h0) ∧ load64 (hmem h) (mscratch h + 32) = 1000000 ∧
    load64 (hmem h) (CLINT_MTIMECMP (mhartid h0)) = u64 (load64 (hmem h0) CLINT_MTIME + 1000000);
  sh_frame : ∀ x, ¬ own_timer (mhartid h0) x → load8 (hmem h) x = load8 (hmem h0) x
}.

Lemma mpp_mode x : Z.land (Z.shiftr (Z.lor (Z.lor (Z.ldiff x MSTATUS_MPP_MASK) MSTATUS_MPP_S) MSTATUS_MIE) 11) 3 = 1.
Proof.
  apply Z.bits_inj'. intros n Hn. rewrite Z.land_spec, Z.shiftr_spec, !Z.lor_spec, Z.ldiff_spec by done.
  destruct (decide (n = 0)) as [->|]; [by rewrite !orb_true_r, andb_true_r|]. destruct (decide (n = 1)) as [->|].
  - change (Z.testbit MSTATUS_MPP_MASK (1 + 11)) with true. change (Z.testbit MSTATUS_MPP_S (1 + 11)) with false.
    change (Z.testbit MSTATUS_MIE (1 + 11)) with false. by rewrite andb_false_r.
  - rewrite (Z.bits_above_log2 3 n), (Z.bits_above_log2 1 n) by (done || (simpl; lia)). apply andb_false_r.
Qed.

Lemma ones16 b : 0 ≤ b < 16 → Z.testbit 0xffff b = true.
Proof. intros Hb. change 0xffff with (Z.ones 16). by rewrite Z.ones_spec_low. Qed.

(** The state in closed form. *)
Definition started (h0 : hart) : hart :=
  let id := mhartid h0 in
  let dl := Z.land 0xffff deleg_mask in
  let sie := Z.lor (Z.lor (Z.lor (Z.land (mie h0) dl) SIE_SEIE) SIE_STIE) SIE_SSIE in
  let ms := Z.lor (Z.lor (Z.ldiff (mstatus h0) MSTATUS_MPP_MASK) MSTATUS_MPP_S) MSTATUS_MIE in
  let ms1 := Z.lor (Z.ldiff ms (Z.lor MSTATUS_MPP_MASK MSTATUS_MIE)) (if Z.testbit ms 7 then MSTATUS_MIE else 0) in
  let scratch := timer_scratch + 40 * id in
  mk_hart id (Z.lor ms1 (Z.shiftl 1 7)) main_addr (Z.lor (Z.lor (Z.ldiff (mie h0) dl) (Z.land sie dl)) MIE_MTIE) 0xffff dl timervec scratch
    0xf 0x3fffffffffffff 0 id (Z.land (Z.shiftr ms 11) 3) main_addr
    (store64 (store64 (store64 (hmem h0) (CLINT_MTIMECMP id) (u64 (load64 (hmem h0) CLINT_MTIME + 1000000)))
      (scratch + 8 * 3) (CLINT_MTIMECMP id)) (scratch + 8 * 4) 1000000).
Lemma start_eq h0 : start h0 = Ret tt (started h0).
Proof. destruct h0. reflexivity. Qed.

Lemma started_ok h0 : 0 ≤ mhartid h0 < NCPU → CLINT + 0xC000 ≤ timer_scratch < 2 ^ 63 → started_hart h0 (started h0).
Proof.
  intros Hid Hts. unfold NCPU in Hid. destruct deleg_mask_s as (D9 & D5 & D1).
  unfold started. set (id := mhartid h0) in *. unfold CLINT in Hts.
  split; cbn [mode pc satp tp medeleg mideleg mie mtvec pmpcfg0 pmpaddr0 mscratch hmem]; try done.
  - split; [apply mpp_mode|done].
  - intros b Hb. rewrite Z.land_spec, !Z.lor_spec, Z.ldiff_spec, !Z.land_spec, !Z.lor_spec.
    assert (Z.testbit deleg_mask b = true) as -> by (destruct Hb as [->|[->| ->]]; done).
    rewrite ones16 by lia. cbn [andb]. rewrite !andb_true_r. destruct Hb as [->|[->| ->]]; by rewrite ?orb_true_r.
  - split; [|done]. rewrite Z.lor_spec. change (Z.testbit MIE_MTIE 7) with true. apply orb_true_r.
  - unfold CLINT_MTIMECMP, CLINT. split; [done|]. change (8 * 3) with 24. change (8 * 4) with 32. split_and!.
    + rewrite load_store_ne by lia. apply load64_store64. lia.
    + apply load64_store64. lia.
    + rewrite !load_store_ne by lia. apply load64_store64, u64_range.
  - intros x Hx. unfold own_timer, in_range in Hx. unfold CLINT_MTIMECMP, CLINT in *.
    rewrite !load8_store_ne by (unfold in_range; lia). done.
Qed.

(** Each hart starts in order. From any state in machine mode, [start]
    ends in supervisor mode at [main] with paging off, its number in [tp],
    supervisor interrupts delegated and enabled, the timer set to fire after
    the interval with the scratch area that [timervec] reads filled in, and
    no other memory changed, so harts can start at the same time. *)
Theorem start_enters_main h0 :
  0 ≤ mhartid h0 < NCPU → CLINT + 0xC000 ≤ timer_scratch < 2 ^ 63 →
  ∃ h, start h0 = Ret tt h ∧ started_hart h0 h.
Proof. intros Hid Hts. exists (started h0). split; [apply start_eq|by apply started_ok]. Qed.

(** [intr_on], [intr_off] and [intr_get] agree. *)
Lemma sie_bit x : negb (Z.land x SSTATUS_SIE =? 0) = Z.testbit x 1.
Proof.
  destruct (Z.testbit x 1) eqn:E.
  - apply negb_true_iff, Z.eqb_neq. intros E0. apply (f_equal (λ z, Z.testbit z 1)) in E0. rewrite Z.land_spec, E in E0. done.
  - apply negb_false_iff, Z.eqb_eq, Z.bits_inj'. intros n Hn. rewrite Z.land_spec, Z.bits_0.
    destruct (decide (n = 1)) as [->|]; [by rewrite E|]. unfold SSTATUS_SIE. rewrite Z.shiftl_1_l, Z.pow2_bits_false by done. apply andb_false_r.
Qed.
Lemma mstatus_set h x : mstatus (h <| mstatus := x |>) = x.
Proof. done. Qed.
Lemma intr_on_get h : (do! intr_on in intr_get) h = Ret true (match intr_on h with Ret _ h' => h' | _ => h end).
Proof.
  unfold intr_on, intr_get, bind, r_sstatus, w_sstatus, gets, modify, ret. f_equal. rewrite sie_bit, mstatus_set.
  rewrite Z.land_spec, !Z.lor_spec, Z.ldiff_spec, Z.land_spec, !Z.lor_spec, sstatus_mask_sie.
  change (Z.testbit SSTATUS_SIE 1) with true. by rewrite !orb_true_r.
Qed.
Lemma intr_off_get h : (do! intr_off in intr_get) h = Ret false (match intr_off h with Ret _ h' => h' | _ => h end).
Proof.
  unfold intr_off, intr_get, bind, r_sstatus, w_sstatus, gets, modify, ret. f_equal. rewrite sie_bit, mstatus_set.
  rewrite Z.land_spec, !Z.lor_spec, Z.ldiff_spec, Z.land_spec, Z.ldiff_spec, sstatus_mask_sie.
  change (Z.testbit SSTATUS_SIE 1) with true. simpl. by rewrite !andb_false_r.
Qed.
End csr.

(** A hart that can delegate the three supervisor interrupts. *)
#[local] Instance s_hart : Hart.
Proof. refine {| sstatus_mask := 0x122; deleg_mask := 0x222 |}; [reflexivity|split_and!; reflexivity]. Defined.
Definition reset_hart : hart := mk_hart 3 (Z.shiftl 3 11) 0 0 0 0 0 0 0 0 0 0 3 0x80000000 ∅.

Lemma start_enters_main_witness :
  ∃ h, start 0x80000f2a 0x80005ba0 0x80009000 reset_hart = Ret tt h ∧ started_hart 0x80000f2a 0x80005ba0 0x80009000 reset_hart h.
Proof.
  apply (start_enters_main 0x80000f2a 0x80005ba0 0x80009000 reset_hart).
  - vm_compute. split; [discriminate|reflexivity].
  - vm_compute. split; [discriminate|reflexivity].
Defined.
