(* ===== verification/BootMain.v ===== *)
(** * Start-up of the kernel on all CPUs ([main.c]) and of the interrupt
      controller ([plic.c]) *)

From stdpp Require Import gmap.
From S2P Require Import Prelude.
From S2P Require Import Machine.
#[local] Open Scope Z_scope.

(** ** The interrupt controller *)

Definition PLIC_SENABLE (hart : Z) : Z := PLIC + 0x2080 + hart * 0x100.
Definition PLIC_SPRIORITY (hart : Z) : Z := PLIC + 0x201000 + hart * 0x2000.
Definition PLIC_SCLAIM (hart : Z) : Z := PLIC + 0x201004 + hart * 0x2000.

(** Loads and stores of its 32-bit registers. *)
Class PlicDev (D : Type) := { plic_read : Z → D → Z * D; plic_write : Z → Z → D → D }.

Section plic.
Context {D : Type} `{!PlicDev D}.

Definition reg_write (a v : Z) : M D unit := modify (plic_write a v).
Definition plicinit : M D unit :=
  do! reg_write (PLIC + UART0_IRQ * 4) 1 in
  reg_write (PLIC + VIRTIO0_IRQ * 4) 1.
(** [hart] is [cpuid()]. *)
Definition plicinithart (hart : Z) : M D unit :=
  do! reg_write (PLIC_SENABLE hart) (Z.lor (Z.shiftl 1 UART0_IRQ) (Z.shiftl 1 VIRTIO0_IRQ)) in
  reg_write (PLIC_SPRIORITY hart) 0.
Definition plic_claim (hart : Z) : M D Z := λ d, let '(irq, d') := plic_read (PLIC_SCLAIM hart) d in Ret (s32 irq) d'.
Definition plic_complete (hart irq : Z) : M D unit := reg_write (PLIC_SCLAIM hart) (u32 irq).
End plic.

Definition is_irq (irq : Z) : Prop := 0 < irq < 32.
Definition is_hart (h : Z) : Prop := 0 ≤ h < NCPU.

(** What the specification of the controller says of the registers used: each
    holds what was last written to it. *)
Record plic_laws (D : Type) `{!PlicDev D} := {
  priority : D → Z → Z;
  enables : D → Z → Z;
  threshold : D → Z → Z;
  priority_reg : ∀ d irq v, is_irq irq → 0 ≤ v < 8 → let d' := plic_write (PLIC + irq * 4) v d in
    (∀ irq', is_irq irq' → priority d' irq' = if decide (irq' = irq) then v else priority d irq') ∧
    ∀ h, is_hart h → enables d' h = enables d h ∧ threshold d' h = threshold d h;
  enable_reg : ∀ d h v, is_hart h → 0 ≤ v < 2 ^ 32 → let d' := plic_write (PLIC_SENABLE h) v d in
    (∀ h', is_hart h' → enables d' h' = (if decide (h' = h) then v else enables d h') ∧ threshold d' h' = threshold d h') ∧
    ∀ irq, is_irq irq → priority d' irq = priority d irq;
  threshold_reg : ∀ d h v, is_hart h → 0 ≤ v < 8 → let d' := plic_write (PLIC_SPRIORITY h) v d in
    (∀ h', is_hart h' → enables d' h' = enables d h' ∧ threshold d' h' = if decide (h' = h) then v else threshold d h') ∧
    ∀ irq, is_irq irq → priority d' irq = priority d irq
}.

(** A pending interrupt [irq] is delivered to hart [h]. *)
Definition delivers {D} `{!PlicDev D} (L : plic_laws D) (d : D) (h irq : Z) : Prop :=
  Z.testbit (enables D L d h) irq = true ∧ threshold D L d h < priority D L d irq.

Lemma enable_bits irq : Z.testbit (Z.lor (Z.shiftl 1 UART0_IRQ) (Z.shiftl 1 VIRTIO0_IRQ)) irq = bool_decide (irq = UART0_IRQ ∨ irq = VIRTIO0_IRQ).
Proof.
  destruct (decide (irq < 0)) as [Hn|Hn].
  { rewrite Z.testbit_neg_r by done. symmetry. apply bool_decide_eq_false. unfold UART0_IRQ, VIRTIO0_IRQ. lia. }
  rewrite Z.lor_spec, !Z.shiftl_1_l, !Z.pow2_bits_eqb by (unfold UART0_IRQ, VIRTIO0_IRQ; lia).
  destruct (Z.eqb_spec UART0_IRQ irq), (Z.eqb_spec VIRTIO0_IRQ irq); symmetry; [apply bool_decide_eq_true|apply bool_decide_eq_true|apply bool_decide_eq_true|apply bool_decide_eq_false]; try lia; naive_solver.
Qed.

(** The harts [hs] run [plicinithart] in any order after [plicinit]. *)
Definition plic_boot {D} `{!PlicDev D} (hs : list Z) : M D unit := do! plicinit in for_each hs plicinithart.

#[local] Abbreviation both := (Z.lor (Z.shiftl 1 UART0_IRQ) (Z.shiftl 1 VIRTIO0_IRQ)).

Lemma plic_harts {D} `{!PlicDev D} (L : plic_laws D) hs : ∀ d, Forall is_hart hs →
  ∃ d', for_each hs plicinithart d = Ret tt d' ∧ (∀ irq, is_irq irq → priority D L d' irq = priority D L d irq) ∧
    ∀ h, is_hart h → if decide (h ∈ hs) then enables D L d' h = both ∧ threshold D L d' h = 0
                     else enables D L d' h = enables D L d h ∧ threshold D L d' h = threshold D L d h.
Proof.
  induction hs as [|h hs IH]; intros d Hh; [exists d; split_and!; try done; intros h; by rewrite decide_False by (by apply not_elem_of_nil)|].
  apply Forall_cons in Hh as [Hr Hh]. set (d0 := plic_write (PLIC_SENABLE h) both d). set (d1 := plic_write (PLIC_SPRIORITY h) 0 d0).
  destruct (IH d1 Hh) as (d' & E & Hp & H'). exists d'. split; [exact E|].
  destruct (enable_reg D L d h both Hr ltac:(done)) as [En Ep]. destruct (threshold_reg D L d0 h 0 Hr ltac:(lia)) as [Tn Tp].
  fold d0 in En, Ep. fold d1 in Tn, Tp. split; [intros irq Hi; by rewrite Hp, Tp, Ep|]. intros h' Hh'. specialize (H' h' Hh').
  destruct (decide (h' ∈ hs)) as [Hin|Hin]; [by rewrite decide_True by (by right)|]. destruct H' as [-> ->].
  destruct (En h' Hh') as [E1 E2]. destruct (Tn h' Hh') as [-> ->]. rewrite E1, E2. destruct (decide (h' = h)) as [->|Hne].
  - by rewrite decide_True by left.
  - rewrite decide_False; [done|]. by intros [?|?]%elem_of_cons.
Qed.

(** The controller delivers the interrupts that the kernel handles. After
    [plicinit] and [plicinithart] on any harts in any order, each of these harts
    is sent the interrupts of the UART and of the disk and no others. *)
Theorem plic_delivers {D} `{!PlicDev D} (L : plic_laws D) hs d h irq :
  Forall is_hart hs → h ∈ hs → is_irq irq →
  ∃ d', plic_boot hs d = Ret tt d' ∧ (delivers L d' h irq ↔ irq = UART0_IRQ ∨ irq = VIRTIO0_IRQ).
Proof.
  intros Hh Hin Hirq. set (d0 := plic_write (PLIC + UART0_IRQ * 4) 1 d). set (d1 := plic_write (PLIC + VIRTIO0_IRQ * 4) 1 d0).
  destruct (plic_harts L hs d1 Hh) as (d' & E & Hp & H'). exists d'. split; [exact E|]. rewrite Forall_forall in Hh.
  specialize (H' h (Hh h Hin)). rewrite decide_True in H' by done.
  destruct H' as [He Ht]. unfold delivers. rewrite He, Ht, Hp, enable_bits, bool_decide_eq_true by done.
  split; [tauto|]. intros Hor. split; [done|]. unfold d1.
  destruct (priority_reg D L d0 VIRTIO0_IRQ 1 ltac:(done) ltac:(lia)) as [-> _]; [|done].
  destruct (priority_reg D L d UART0_IRQ 1 ltac:(done) ltac:(lia)) as [P _]. fold d0 in P. rewrite P by done. repeat case_decide; lia.
Qed.

(** A controller that is a map of registers. *)
#[local] Instance plic_regs : PlicDev (gmap Z Z) := {| plic_read := λ a d, (default 0 (d !! a), d); plic_write := λ a v d, <[a := v]> d |}.
Definition plic_regs_laws : plic_laws (gmap Z Z).
Proof.
  refine {| priority := λ d irq, default 0 (d !! (PLIC + irq * 4)); enables := λ d h, default 0 (d !! PLIC_SENABLE h);
            threshold := λ d h, default 0 (d !! PLIC_SPRIORITY h) |};
    intros d x v Hx Hv; unfold is_irq, is_hart, NCPU, PLIC_SENABLE, PLIC_SPRIORITY, PLIC in *; cbv zeta; unfold plic_write, plic_regs;
    split; intros y Hy; try split; rewrite ?lookup_insert_ne by lia; try done;
    (case_decide as E; [subst; by rewrite lookup_insert_eq|by rewrite lookup_insert_ne by lia]).
Defined.

Lemma plic_delivers_witness :
  ∃ d', plic_boot [0; 2; 1] (∅ : gmap Z Z) = Ret tt d' ∧ (delivers plic_regs_laws d' 2 10 ↔ 10 = UART0_IRQ ∨ 10 = VIRTIO0_IRQ).
Proof.
  apply (plic_delivers plic_regs_laws [0; 2; 1] ∅ 2 10).
  - repeat apply Forall_cons_2; try apply Forall_nil_2; vm_compute; split; discriminate || reflexivity.
  - right. left.
  - vm_compute. split; reflexivity.
Defined.

(** ** [main] on all harts *)

(** The calls of [main]; [Banner] is its three calls of [printf]. *)
Inductive init :=
| Consoleinit | Printfinit | Banner | Kinit | Kvminit | Kvminithart | Procinit | Trapinit | Trapinithart
| Plicinit | Plicinithart | Binit | Iinit | Fileinit | VirtioDiskInit | Userinit | HartStarting.

Definition main_boot : list init :=
  [Consoleinit; Printfinit; Banner; Kinit; Kvminit; Kvminithart; Procinit; Trapinit; Trapinithart;
   Plicinit; Plicinithart; Binit; Iinit; Fileinit; VirtioDiskInit; Userinit].
Definition main_other : list init := [HartStarting; Kvminithart; Trapinithart; Plicinithart].

(** Where a hart is: before the remaining calls, after which hart 0 sets
    [started]; in [while(started == 0)]; in [scheduler]. *)
Inductive where_ := Calls (rest : list init) | Spins | Scheduler.
#[export] Instance init_eq_dec : EqDecision init.
Proof. solve_decision. Defined.
#[export] Instance where_eq_dec : EqDecision where_.
Proof. solve_decision. Defined.
Record boot := mk_boot { started : Z; harts : list where_; log : list (nat * init) }.

(** One step of hart [i] in [main]; a hart that spins on [started = 0] stays. *)
Definition main_step (i : nat) (s : boot) : option boot :=
  match harts s !! i with
  | Some (Calls (c :: rest)) => Some (mk_boot (started s) (<[i := Calls rest]> (harts s)) (log s ++ [(i, c)]))
  | Some (Calls []) => Some (mk_boot (if (i =? 0)%nat then 1 else started s) (<[i := Scheduler]> (harts s)) (log s))
  | Some Spins => if started s =? 0 then None else Some (mk_boot (started s) (<[i := Calls main_other]> (harts s)) (log s))
  | Some Scheduler | None => None
  end.
Definition main_start (n : nat) : boot := mk_boot 0 (Calls main_boot :: replicate n Spins) [].

Inductive boots (n : nat) : boot → Prop :=
| boots_start : boots n (main_start n)
| boots_step s i s' : boots n s → main_step i s = Some s' → boots n s'.

(** The calls that hart [i] has made. *)
Definition made (i : nat) (l : list (nat * init)) : list init := map snd (filter (λ e, e.1 = i) l).

(** Hart 0 follows [main_boot], the others [main_other], and only after it. *)
Record boot_inv (n : nat) (s : boot) : Prop := {
  bi_len : length (harts s) = S n;
  bi_zero : match harts s !! 0%nat with
            | Some (Calls rest) => made 0 (log s) ++ rest = main_boot ∧ started s = 0
            | Some Scheduler => made 0 (log s) = main_boot ∧ started s = 1
            | _ => False
            end;
  bi_other : ∀ i, (0 < i ≤ n)%nat → match harts s !! i with
             | Some (Calls rest) => made i (log s) ++ rest = main_other ∧ started s = 1
             | Some Scheduler => made i (log s) = main_other ∧ started s = 1
             | _ => made i (log s) = []
             end;
  (** What another hart does comes after all calls of hart 0. *)
  bi_order : ∃ l, if started s =? 0 then log s = map (pair 0%nat) (made 0 (log s)) ∧ l = []
                  else log s = map (pair 0%nat) main_boot ++ l ∧ Forall (λ e : nat * init, (0 < e.1)%nat) l
}.

Lemma made_app i l l' : made i (l ++ l') = made i l ++ made i l'.
Proof. unfold made. by rewrite filter_app, map_app. Qed.
Lemma made_one i j c : made i [(j, c)] = if decide (j = i) then [c] else [].
Proof. unfold made. case_decide; [rewrite filter_cons_True by done|rewrite filter_cons_False by done]; done. Qed.

Lemma boot_inv_start n : boot_inv n (main_start n).
Proof.
  split; simpl; [by rewrite length_replicate|done| |by exists []]. intros i Hi. destruct i as [|i]; [lia|]. simpl.
  by rewrite lookup_replicate_2 by lia.
Qed.

Lemma boot_inv_zero n s s' : boot_inv n s → main_step 0 s = Some s' → boot_inv n s'.
Proof.
  intros [Hl Hz Ho Hor]. unfold main_step. destruct (harts s !! 0%nat) as [[[|c rest]| |]|] eqn:E; try done.
  - destruct Hz as [Hz Hst]. rewrite app_nil_r in Hz. intros [= <-]. split; cbn [harts started log Nat.eqb].
    + by rewrite length_insert.
    + rewrite list_lookup_insert_eq by lia. done.
    + intros i Hi. rewrite list_lookup_insert_ne by lia. specialize (Ho i Hi). rewrite Hst in Ho.
      destruct (harts s !! i) as [[rest| |]|]; try done; by destruct Ho.
    + exists []. destruct Hor as [l Hor]. rewrite Hst in Hor. simpl in Hor. destruct Hor as [Hor _]. rewrite Hor, Hz, app_nil_r. done.
  - destruct Hz as [Hz Hst]. intros [= <-]. split; cbn [harts started log].
    + by rewrite length_insert.
    + rewrite list_lookup_insert_eq by lia. rewrite made_app, made_one, decide_True, <- app_assoc by done. done.
    + intros i Hi. rewrite list_lookup_insert_ne by lia. rewrite made_app, made_one, decide_False, app_nil_r by lia. by apply Ho.
    + exists []. destruct Hor as [l Hor]. rewrite Hst in *. simpl in *. destruct Hor as [Hor _].
      rewrite made_app, made_one, decide_True, map_app, <- Hor by done. done.
Qed.

Lemma boot_inv_other n i s s' : (0 < i)%nat → boot_inv n s → main_step i s = Some s' → boot_inv n s'.
Proof.
  intros Hi [Hl Hz Ho Hor]. unfold main_step. destruct (harts s !! i) as [w|] eqn:E; [|done].
  pose proof (lookup_lt_Some _ _ _ E) as Hlt. pose proof (Ho i ltac:(lia)) as Hoi. rewrite E in Hoi.
  assert (∀ w' l', harts s !! 0%nat = <[i := w']> (harts s) !! 0%nat ∧ (∀ c, l' = [(i, c)] → made 0 (log s ++ l') = made 0 (log s))) as Hzero.
  { intros w' l'. split; [by rewrite list_lookup_insert_ne by lia|]. intros c ->. by rewrite made_app, made_one, decide_False, app_nil_r by lia. }
  assert (∀ (w' : where_) (st : Z), st = started s → (∀ j, (0 < j ≤ n)%nat → j ≠ i → match <[i := w']> (harts s) !! j with
             | Some (Calls rest) => made j (log s) ++ rest = main_other ∧ st = 1
             | Some Scheduler => made j (log s) = main_other ∧ st = 1
             | _ => made j (log s) = [] end)) as Hother.
  { intros w' st -> j Hj Hne. rewrite list_lookup_insert_ne by done. by apply Ho. }
  destruct w as [[|c rest]| |]; try done.
  - intros [= <-]. destruct Hoi as [Hm Hst]. rewrite app_nil_r in Hm. rewrite (proj2 (Nat.eqb_neq i 0)) by lia. split; cbn [harts started log].
    + by rewrite length_insert.
    + by rewrite <- (proj1 (Hzero Scheduler [])).
    + intros j Hj. destruct (decide (j = i)) as [->|]; [by rewrite list_lookup_insert_eq|by apply Hother].
    + done.
  - intros [= <-]. destruct Hoi as [Hm Hst]. split; cbn [harts started log].
    + by rewrite length_insert.
    + by rewrite <- (proj1 (Hzero (Calls rest) [])), (proj2 (Hzero (Calls rest) [(i, c)]) c).
    + intros j Hj. rewrite made_app, made_one. destruct (decide (i = j)) as [<-|Hne].
      * rewrite list_lookup_insert_eq, <- app_assoc by done. done.
      * rewrite app_nil_r. by apply Hother.
    + destruct Hor as [l Hor]. rewrite Hst in *. simpl in *. destruct Hor as [-> Hall]. exists (l ++ [(i, c)]).
      split; [done|]. apply Forall_app. split; [done|]. by apply Forall_singleton.
  - destruct (Z.eqb_spec (started s) 0) as [|Hst]; [done|]. intros [= <-]. split; cbn [harts started log].
    + by rewrite length_insert.
    + by rewrite <- (proj1 (Hzero (Calls main_other) [])).
    + assert (started s = 1) as H1.
      { destruct (harts s !! 0%nat) as [[rest| |]|]; try done; by destruct Hz. }
      intros j Hj. destruct (decide (j = i)) as [->|]; [rewrite list_lookup_insert_eq by done|by apply Hother]. by rewrite Hoi.
    + by rewrite (proj2 (Z.eqb_neq _ _) Hst).
Qed.

Lemma boots_inv n s : boots n s → boot_inv n s.
Proof.
  induction 1 as [|s i s' _ IH Hs]; [apply boot_inv_start|]. destruct (decide (i = 0)%nat) as [->|Hi]; [by eapply boot_inv_zero|].
  by eapply (boot_inv_other n i); [lia|..].
Qed.

(** The steps that a hart still has to make. *)
Definition to_do (w : where_) : nat := match w with Calls rest => S (length rest) | Spins => 6 | Scheduler => 0 end.
Definition boot_measure (s : boot) : nat := sum_list (map to_do (harts s)).

Lemma measure_insert (l : list where_) i w w' : l !! i = Some w → (to_do w' < to_do w)%nat →
  (sum_list (map to_do (<[i := w']> l)) < sum_list (map to_do l))%nat.
Proof.
  revert i. induction l as [|x l IH]; intros [|i] Hi Hlt; try done; simpl in *.
  - injection Hi as ->. lia.
  - specialize (IH i Hi Hlt). lia.
Qed.
Lemma main_step_decreases i s s' : main_step i s = Some s' → (boot_measure s' < boot_measure s)%nat.
Proof.
  unfold main_step, boot_measure. destruct (harts s !! i) as [[[|c rest]| |]|] eqn:E; try done.
  - intros [= <-]. simpl. by eapply measure_insert; [exact E|simpl; lia].
  - intros [= <-]. simpl. by eapply measure_insert; [exact E|simpl; lia].
  - destruct (started s =? 0); [done|]. intros [= <-]. simpl. by eapply measure_insert; [exact E|simpl; lia].
Qed.

Lemma boots_progress n s : boot_inv n s → Forall (.= Scheduler) (harts s) ∨ ∃ i s', main_step i s = Some s'.
Proof.
  intros [Hl Hz Ho _]. destruct (harts s !! 0%nat) as [w0|] eqn:E0; [|done]. destruct w0 as [rest| |]; [|done|].
  - right. exists 0%nat. unfold main_step. rewrite E0. destruct rest; eauto.
  - destruct Hz as [_ Hst]. destruct (decide (Forall (.= Scheduler) (harts s))) as [|Hn]; [by left|]. right.
    pose proof (not_Forall_Exists (.= Scheduler) _ Hn) as Hx. apply Exists_exists in Hx as (w & (i & Hi)%list_elem_of_lookup & Hw).
    exists i. unfold main_step. rewrite Hi, Hst. destruct w as [[|c rest]| |]; simpl; [eauto..|]. by destruct Hw.
Qed.

(** C30: the CPUs come up in order. However the harts interleave in [main], a
    hart other than 0 does its first call after all the initialisation that
    hart 0 does, each hart in the scheduler has made its own calls, in order,
    among them [kvminithart], [trapinithart] and [plicinithart]; and as long as
    some hart is not in the scheduler some hart can take a step, every step
    bringing them closer. *)
Theorem boot_order n s : boots n s →
  (∀ i c l l', log s = l ++ (i, c) :: l' → (0 < i)%nat → ∃ l0, l = map (pair 0%nat) main_boot ++ l0) ∧
  (∀ i, harts s !! i = Some Scheduler → made i (log s) = if (i =? 0)%nat then main_boot else main_other) ∧
  (Forall (.= Scheduler) (harts s) ∨ ∃ i s', main_step i s = Some s') ∧
  (∀ i s', main_step i s = Some s' → (boot_measure s' < boot_measure s)%nat).
Proof.
  intros Hb%boots_inv. split_and!; [| |by eapply boots_progress|intros i s'; apply main_step_decreases].
  - intros i c l l' E Hi. destruct (bi_order _ _ Hb) as [l0 Hor]. destruct (started s =? 0).
    + destruct Hor as [Hor _]. rewrite E in Hor at 1. apply (f_equal (λ x, x !! length l)) in Hor.
      rewrite lookup_app_r, Nat.sub_diag, list_lookup_fmap in Hor by lia. simpl in Hor. destruct (_ !! length l); [|done]. injection Hor as -> _. lia.
    + destruct Hor as [Hor Hall]. rewrite E in Hor. apply app_eq_inv in Hor as [(k & -> & Hk)|(k & Hk & Hk')]; [by exists k|].
      destruct k as [|x k].
      * exists []. by rewrite !app_nil_r in *.
      * exfalso. simpl in Hk'. injection Hk' as <- _. assert ((i, c) ∈ map (pair 0%nat) main_boot) as Hin by (rewrite Hk; apply elem_of_app; right; by left).
        apply list_elem_of_fmap in Hin as (y & [= -> _] & _). lia.
  - intros i Hi. destruct i as [|i].
    + pose proof (bi_zero _ _ Hb) as Hz. rewrite Hi in Hz. by destruct Hz.
    + pose proof (lookup_lt_Some _ _ _ Hi). pose proof (bi_len _ _ Hb). pose proof (bi_other _ _ Hb (S i) ltac:(lia)) as Ho. rewrite Hi in Ho. by destruct Ho.
Qed.

Fixpoint run_main (sch : list nat) (s : boot) : option boot :=
  match sch with [] => Some s | i :: sch => match main_step i s with Some s' => run_main sch s' | None => None end end.
Lemma run_main_boots n sch : ∀ s s', boots n s → run_main sch s = Some s' → boots n s'.
Proof.
  induction sch as [|i sch IH]; intros s s' Hs; simpl; [by intros [= <-]|]. destruct (main_step i s) as [s1|] eqn:E; [|done].
  apply IH. by eapply boots_step.
Qed.

(** Two harts until both are in the scheduler. *)
Lemma boot_order_witness : ∃ s, boots 1 s ∧ harts s = [Scheduler; Scheduler] ∧
  made 1 (log s) = main_other ∧ ∃ l0, take 16 (log s) = map (pair 0%nat) main_boot ++ l0.
Proof.
  assert (∃ s, run_main (replicate 17 0%nat ++ replicate 6 1%nat) (main_start 1) = Some s ∧ harts s = [Scheduler; Scheduler] ∧
    log s = take 16 (log s) ++ (1%nat, HartStarting) :: drop 17 (log s)) as (s & E & Hh & Hlog).
  { exists (default (main_start 1) (run_main (replicate 17 0%nat ++ replicate 6 1%nat) (main_start 1))). vm_compute. split_and!; reflexivity. }
  assert (boots 1 s) as Hb by exact (run_main_boots 1 _ _ _ (boots_start 1) E). exists s.
  destruct (boot_order 1 s Hb) as (H1 & H2 & _). split; [exact Hb|]. split; [exact Hh|]. split.
  - apply (H2 1%nat). rewrite Hh. reflexivity.
  - apply (H1 1%nat HartStarting _ _ Hlog). lia.
Defined.
