(* ===== verification/Asm.v ===== *)
(** * Assembly ([entry.S], [swtch.S], [trampoline.S], [kernelvec.S])

    The assembly routines as lists of instructions, and the instructions they
    use on a hart: its registers, the control registers they name, the mode,
    the program counter and memory. Loads and stores in machine mode are of
    physical addresses; in the other modes the address is translated by the
    page table in [satp]. The translation and the C functions that are called
    are parameters. *)

From stdpp Require Import functions.
From S2P Require Import Prelude.
From S2P Require Import Machine.
#[local] Open Scope Z_scope.

(** ** Registers *)

Inductive reg :=
| ra | sp | gp | tp | t0 | t1 | t2 | s0 | s1
| a0 | a1 | a2 | a3 | a4 | a5 | a6 | a7
| s2 | s3 | s4 | s5 | s6 | s7 | s8 | s9 | s10 | s11 | t3 | t4 | t5 | t6.
#[export] Instance reg_eq_dec : EqDecision reg.
Proof. solve_decision. Defined.

Inductive csr := satp | sscratch | mscratch | sip | mhartid | sepc | sstatus | mepc | mstatus.
#[export] Instance csr_eq_dec : EqDecision csr.
Proof. solve_decision. Defined.

(** The mode is 0 for user, 1 for supervisor, 3 for machine. *)
Record mach := mk_mach { regs : reg → Z; csrs : csr → Z; m_mode : Z; m_pc : Z; mmem : memory }.

Definition set_reg (m : mach) (r : reg) (v : Z) : mach := mk_mach (<[r := v]> (regs m)) (csrs m) (m_mode m) (m_pc m) (mmem m).
Definition set_csr (m : mach) (c : csr) (v : Z) : mach := mk_mach (regs m) (<[c := v]> (csrs m)) (m_mode m) (m_pc m) (mmem m).
Definition set_mmem (m : mach) (mm : memory) : mach := mk_mach (regs m) (csrs m) (m_mode m) (m_pc m) mm.
Definition set_regs (m : mach) (f : reg → Z) : mach := mk_mach f (csrs m) (m_mode m) (m_pc m) (mmem m).
Definition set_pc (m : mach) (v : Z) : mach := mk_mach (regs m) (csrs m) (m_mode m) v (mmem m).

(** ** Instructions *)

Inductive instr :=
| SD (r : reg) (off : Z) (b : reg)
| LD (r : reg) (off : Z) (b : reg)
| ADDI (d r : reg) (imm : Z)
| ADD (d x y : reg)
| MUL (d x y : reg)
(** [li] and [la]: a constant or the address of a symbol. *)
| LI (d : reg) (v : Z)
| CSRR (d : reg) (c : csr)
| CSRW (c : csr) (r : reg)
| CSRRW (d : reg) (c : csr) (r : reg)
| SFENCE
| CALL (f : Z)
| JR (r : reg)
| J (pc : Z)
| SRET
| MRET.

(** [sret] and [mret] go to the previous mode; the interrupt enable bit becomes
    the previous one, which becomes 1, and the previous mode user. *)
Definition after_ret (x ie pie : Z) (pp : Z) : Z :=
  Z.lor (Z.lor (Z.ldiff x (Z.lor pp (Z.shiftl 1 ie))) (if Z.testbit x pie then Z.shiftl 1 ie else 0)) (Z.shiftl 1 pie).
Definition sret (m : mach) : mach :=
  let x := csrs m sstatus in
  mk_mach (regs m) (<[sstatus := after_ret x 1 5 (Z.shiftl 1 8)]> (csrs m)) (if Z.testbit x 8 then 1 else 0) (csrs m sepc) (mmem m).
Definition mret (m : mach) : mach :=
  let x := csrs m mstatus in
  mk_mach (regs m) (<[mstatus := after_ret x 3 7 (Z.shiftl 3 11)]> (csrs m)) (Z.land (Z.shiftr x 11) 3) (csrs m mepc) (mmem m).

Inductive flow := Next (m : mach) | Jump (m : mach).

Section asm.
(** [translate satp va] is the physical address; [c_call f m] is the state when
    the C function at [f] returns. *)
Context (translate : Z → Z → Z) (c_call : Z → mach → mach).

Definition vaddr (m : mach) (a : Z) : Z := if m_mode m =? 3 then a else translate (csrs m satp) a.

Definition step (i : instr) (m : mach) : flow :=
  match i with
  | SD r off b => Next (set_mmem m (store64 (mmem m) (vaddr m (u64 (regs m b + off))) (regs m r)))
  | LD r off b => Next (set_reg m r (load64 (mmem m) (vaddr m (u64 (regs m b + off)))))
  | ADDI d r imm => Next (set_reg m d (u64 (regs m r + imm)))
  | ADD d x y => Next (set_reg m d (u64 (regs m x + regs m y)))
  | MUL d x y => Next (set_reg m d (u64 (regs m x * regs m y)))
  | LI d v => Next (set_reg m d v)
  | CSRR d c => Next (set_reg m d (csrs m c))
  | CSRW c r => Next (set_csr m c (regs m r))
  | CSRRW d c r => Next (set_csr (set_reg m d (csrs m c)) c (regs m r))
  | SFENCE => Next m
  | CALL f => Next (c_call f m)
  | JR r => Jump (set_pc m (regs m r))
  | J pc => Jump (set_pc m pc)
  | SRET => Jump (sret m)
  | MRET => Jump (mret m)
  end.

(** The state after the jump that ends the code. *)
Fixpoint run (code : list instr) (m : mach) : option mach :=
  match code with
  | [] => None
  | i :: code' => match step i m with Next m' => run code' m' | Jump m' => Some m' end
  end.

(** ** [entry.S] *)

Definition _entry (stack0 start spin : Z) : list instr :=
  [LI sp stack0; LI a0 (1024 * 4); CSRR a1 mhartid; ADDI a1 a1 1; MUL a0 a0 a1; ADD sp sp a0; CALL start; J spin].

(** ** [swtch.S] *)

Definition swtch : list instr :=
  [SD ra 0 a0; SD sp 8 a0; SD s0 16 a0; SD s1 24 a0; SD s2 32 a0; SD s3 40 a0; SD s4 48 a0; SD s5 56 a0;
   SD s6 64 a0; SD s7 72 a0; SD s8 80 a0; SD s9 88 a0; SD s10 96 a0; SD s11 104 a0;
   LD ra 0 a1; LD sp 8 a1; LD s0 16 a1; LD s1 24 a1; LD s2 32 a1; LD s3 40 a1; LD s4 48 a1; LD s5 56 a1;
   LD s6 64 a1; LD s7 72 a1; LD s8 80 a1; LD s9 88 a1; LD s10 96 a1; LD s11 104 a1;
   JR ra].

(** ** [trampoline.S] *)

Definition uservec : list instr :=
  [CSRW sscratch a0; LI a0 TRAPFRAME;
   SD ra 40 a0; SD sp 48 a0; SD gp 56 a0; SD tp 64 a0; SD t0 72 a0; SD t1 80 a0; SD t2 88 a0; SD s0 96 a0; SD s1 104 a0;
   SD a1 120 a0; SD a2 128 a0; SD a3 136 a0; SD a4 144 a0; SD a5 152 a0; SD a6 160 a0; SD a7 168 a0;
   SD s2 176 a0; SD s3 184 a0; SD s4 192 a0; SD s5 200 a0; SD s6 208 a0; SD s7 216 a0; SD s8 224 a0; SD s9 232 a0;
   SD s10 240 a0; SD s11 248 a0; SD t3 256 a0; SD t4 264 a0; SD t5 272 a0; SD t6 280 a0;
   CSRR t0 sscratch; SD t0 112 a0;
   LD sp 8 a0; LD tp 32 a0; LD t0 16 a0; LD t1 0 a0;
   SFENCE; CSRW satp t1; SFENCE; JR t0].

Definition userret : list instr :=
  [SFENCE; CSRW satp a0; SFENCE; LI a0 TRAPFRAME;
   LD ra 40 a0; LD sp 48 a0; LD gp 56 a0; LD tp 64 a0; LD t0 72 a0; LD t1 80 a0; LD t2 88 a0; LD s0 96 a0; LD s1 104 a0;
   LD a1 120 a0; LD a2 128 a0; LD a3 136 a0; LD a4 144 a0; LD a5 152 a0; LD a6 160 a0; LD a7 168 a0;
   LD s2 176 a0; LD s3 184 a0; LD s4 192 a0; LD s5 200 a0; LD s6 208 a0; LD s7 216 a0; LD s8 224 a0; LD s9 232 a0;
   LD s10 240 a0; LD s11 248 a0; LD t3 256 a0; LD t4 264 a0; LD t5 272 a0; LD t6 280 a0;
   LD a0 112 a0; SRET].

(** ** [kernelvec.S] *)

Definition kernelvec (kerneltrap : Z) : list instr :=
  [ADDI sp sp (-256);
   SD ra 0 sp; SD sp 8 sp; SD gp 16 sp; SD tp 24 sp; SD t0 32 sp; SD t1 40 sp; SD t2 48 sp; SD s0 56 sp; SD s1 64 sp;
   SD a0 72 sp; SD a1 80 sp; SD a2 88 sp; SD a3 96 sp; SD a4 104 sp; SD a5 112 sp; SD a6 120 sp; SD a7 128 sp;
   SD s2 136 sp; SD s3 144 sp; SD s4 152 sp; SD s5 160 sp; SD s6 168 sp; SD s7 176 sp; SD s8 184 sp; SD s9 192 sp;
   SD s10 200 sp; SD s11 208 sp; SD t3 216 sp; SD t4 224 sp; SD t5 232 sp; SD t6 240 sp;
   CALL kerneltrap;
   LD ra 0 sp; LD sp 8 sp; LD gp 16 sp; LD t0 32 sp; LD t1 40 sp; LD t2 48 sp; LD s0 56 sp; LD s1 64 sp;
   LD a0 72 sp; LD a1 80 sp; LD a2 88 sp; LD a3 96 sp; LD a4 104 sp; LD a5 112 sp; LD a6 120 sp; LD a7 128 sp;
   LD s2 136 sp; LD s3 144 sp; LD s4 152 sp; LD s5 160 sp; LD s6 168 sp; LD s7 176 sp; LD s8 184 sp; LD s9 192 sp;
   LD s10 200 sp; LD s11 208 sp; LD t3 216 sp; LD t4 224 sp; LD t5 232 sp; LD t6 240 sp;
   ADDI sp sp 256; SRET].

Definition timervec : list instr :=
  [CSRRW a0 mscratch a0; SD a1 0 a0; SD a2 8 a0; SD a3 16 a0;
   LD a1 24 a0; LD a2 32 a0; LD a3 0 a1; ADD a3 a3 a2; SD a3 0 a1;
   LI a1 2; CSRW sip a1;
   LD a3 16 a0; LD a2 8 a0; LD a1 0 a0; CSRRW a0 mscratch a0;
   MRET].

(** ** Blocks of loads and stores *)

Definition saves (tbl : list (reg * Z)) (b : reg) : list instr := map (λ e, SD e.1 e.2 b) tbl.
Definition loads (tbl : list (reg * Z)) (b : reg) : list instr := map (λ e, LD e.1 e.2 b) tbl.

(** The [n] bytes from the address [va] on are those from [p] on. *)
Definition frame_at (m : mach) (va n p : Z) : Prop := ∀ o, 0 ≤ o < n → vaddr m (u64 (va + o)) = p + o.

(** Registers hold 64 bits. *)
Definition words (m : mach) : Prop := ∀ r, 0 ≤ regs m r < 2 ^ 64.

(** A word of a frame of [n] bytes. *)
Definition slot (n o : Z) : Prop := 0 ≤ o ∧ o + 8 ≤ n ∧ o mod 8 = 0.

Lemma slots_apart n o o' : slot n o → slot n o' → o ≠ o' → o + 8 ≤ o' ∨ o' + 8 ≤ o.
Proof. unfold slot. intros (? & ? & H1) (? & ? & H2) Hne. apply Z.mod_divide in H1 as [k ->], H2 as [k' ->]; lia. Qed.

Lemma run_saves n p tbl b : ∀ m, words m → frame_at m (regs m b) n p → Forall (slot n) tbl.*2 → NoDup tbl.*2 →
  ∃ mm, (∀ rest, run (saves tbl b ++ rest) m = run rest (set_mmem m mm)) ∧
    (∀ r o, (r, o) ∈ tbl → load64 mm (p + o) = regs m r) ∧
    (∀ o, slot n o → o ∉ tbl.*2 → load64 mm (p + o) = load64 (mmem m) (p + o)) ∧
    (∀ x, ¬ in_range p n x → load8 mm x = load8 (mmem m) x).
Proof.
  induction tbl as [|[r o] tbl IH]; intros m Hw Hf Hs Hn; cbn [fmap list_fmap snd] in *.
  { exists (mmem m). split_and!; [by destruct m|by intros ? ? ?%elem_of_nil|done|done]. }
  apply Forall_cons in Hs as [Ho Hs]. apply NoDup_cons in Hn as [Hni Hn].
  set (m1 := set_mmem m (store64 (mmem m) (p + o) (regs m r))).
  assert (vaddr m (u64 (regs m b + o)) = p + o) as Ea by (apply Hf; unfold slot in Ho; lia).
  destruct (IH m1) as (mm & Hr & Hin & Hout & Hx); try done. exists mm. cbn [mmem m1 set_mmem regs] in *.
  assert (load64 mm (p + o) = regs m r) as Hro by (rewrite Hout by done; by apply load64_store64).
  split_and!.
  - intros rest. rewrite <- Hr. cbn [saves map app run step fst snd]. by rewrite Ea.
  - intros r' o' [[= -> ->]|Hin']%elem_of_cons; [done|]. by apply Hin.
  - intros o' Ho' [Hne Hni']%not_elem_of_cons. rewrite Hout by done. apply load_store_ne. destruct (slots_apart n o o' Ho Ho'); [done|lia..].
  - intros x Hx'. rewrite Hx by done. apply load8_store_ne. unfold in_range, slot in *. lia.
Qed.

Lemma run_loads n p tbl b : ∀ m, frame_at m (regs m b) n p → Forall (slot n) tbl.*2 → NoDup tbl.*1 →
  (∀ o, (b, o) ∈ tbl → load64 (mmem m) (p + o) = regs m b) →
  ∃ f, (∀ rest, run (loads tbl b ++ rest) m = run rest (set_regs m f)) ∧
    (∀ r o, (r, o) ∈ tbl → f r = load64 (mmem m) (p + o)) ∧ (∀ r, r ∉ tbl.*1 → f r = regs m r).
Proof.
  induction tbl as [|[r o] tbl IH]; intros m Hf Hs Hn Hb; cbn [fmap list_fmap fst snd] in *.
  { exists (regs m). split_and!; [by destruct m|by intros ? ? ?%elem_of_nil|done]. }
  apply Forall_cons in Hs as [Ho Hs]. apply NoDup_cons in Hn as [Hni Hn].
  assert (vaddr m (u64 (regs m b + o)) = p + o) as Ea by (apply Hf; unfold slot in Ho; lia).
  set (m1 := set_reg m r (load64 (mmem m) (p + o))).
  assert (regs m1 b = regs m b) as Eb.
  { unfold m1. cbn [set_reg regs]. destruct (decide (r = b)) as [->|Hne]; [|by rewrite fn_lookup_insert_ne].
    rewrite fn_lookup_insert. apply Hb. by left. }
  destruct (IH m1) as (f & Hr & Hin & Hout); [by rewrite Eb|done|done| |].
  { intros o' Ho'. rewrite Eb. apply Hb. by right. }
  exists f. split_and!.
  - intros rest. rewrite <- Hr. cbn [loads map app run step fst snd]. by rewrite Ea.
  - intros r' o' [[= -> ->]|Hin']%elem_of_cons; [|by apply (Hin r')].
    rewrite Hout by done. unfold m1. cbn [set_reg regs]. apply fn_lookup_insert.
  - intros r' [Hne Hni']%not_elem_of_cons. rewrite Hout by done. unfold m1. cbn [set_reg regs]. by apply fn_lookup_insert_ne.
Qed.

Lemma frame_at_csrs m m' va n p : csrs m satp = csrs m' satp → m_mode m = m_mode m' → frame_at m va n p → frame_at m' va n p.
Proof. intros H1 H2 Hf o Ho. rewrite <- (Hf o Ho). unfold vaddr. by rewrite H1, H2. Qed.
End asm.

(** Facts about a table of registers and offsets. *)
Ltac slots := match goal with |- Forall _ ?l => let l' := eval vm_compute in l in change l with l' end; repeat (apply Forall_cons_2; [unfold slot; repeat split; lia|]); apply Forall_nil_2.
Ltac distinct := apply (bool_decide_unpack _); vm_compute; exact I.

Lemma slot_of n (tbl : list (reg * Z)) r o : Forall (slot n) tbl.*2 → (r, o) ∈ tbl → slot n o.
Proof. rewrite Forall_forall. intros H Hin. apply H. apply list_elem_of_fmap. by exists (r, o). Qed.

Lemma not_base (tbl : list (reg * Z)) b (P : Z → Prop) : b ∉ tbl.*1 → ∀ o, (b, o) ∈ tbl → P o.
Proof. intros Hb o Hin. destruct Hb. apply list_elem_of_fmap. by exists (b, o). Qed.

Lemma load64_frame m1 m2 p n o : slot n o → (∀ x, in_range p n x → load8 m1 x = load8 m2 x) → load64 m1 (p + o) = load64 m2 (p + o).
Proof. intros Ho H. apply load_agree. intros x Hx. apply H. unfold slot, in_range in *. lia. Qed.
