(* ===== verification/AsmThms.v ===== *)
(** * What the assembly saves, restores and sets up

    Context switches and traps from user programs; then the stack at entry,
    traps from the kernel and the timer. *)

From stdpp Require Import functions.
From S2P Require Import Prelude.
From S2P Require Import Machine.
From S2P Require Import Proc.
From S2P Require Import Boot.
From S2P Require Import Asm.
#[local] Open Scope Z_scope.

Section thms.
Context (translate : Z → Z → Z) (c_call : Z → mach → mach).
#[local] Abbreviation run := (run translate c_call).
#[local] Abbreviation frame_at := (frame_at translate).
#[local] Abbreviation vaddr := (vaddr translate).

(** ** Context switches *)

(** [struct context]. *)
Definition callee : list (reg * Z) :=
  [(ra, 0); (sp, 8); (s0, 16); (s1, 24); (s2, 32); (s3, 40); (s4, 48); (s5, 56); (s6, 64); (s7, 72); (s8, 80); (s9, 88);
   (s10, 96); (s11, 104)].
Lemma callee_slots : Forall (slot 112) callee.*2.
Proof. slots. Qed.
Lemma callee_offs : NoDup callee.*2.
Proof. distinct. Qed.
Lemma callee_regs : NoDup callee.*1.
Proof. distinct. Qed.
(** The registers that a function keeps are saved at [po] and loaded from [pn]. *)
Lemma swtch_spec m po pn :
  words m → frame_at m (regs m a0) 112 po → frame_at m (regs m a1) 112 pn → po + 112 ≤ pn ∨ pn + 112 ≤ po →
  ∃ m', run swtch m = Some m' ∧ m_pc m' = load64 (mmem m) pn ∧ m_mode m' = m_mode m ∧ csrs m' = csrs m ∧
    (∀ r o, (r, o) ∈ callee → load64 (mmem m') (po + o) = regs m r ∧ regs m' r = load64 (mmem m) (pn + o)) ∧
    (∀ r, r ∉ callee.*1 → regs m' r = regs m r) ∧
    (∀ x, ¬ in_range po 112 x → load8 (mmem m') x = load8 (mmem m) x).
Proof.
  intros Hw Ho Hn Hd. destruct (run_saves translate c_call 112 po callee a0 m Hw Ho callee_slots callee_offs) as (mm & R1 & S1 & _ & F1).
  destruct (run_loads translate c_call 112 pn callee a1 (set_mmem m mm) Hn callee_slots callee_regs) as (f & R2 & L2 & K2).
  { apply not_base. distinct. }
  assert (∀ r o, (r, o) ∈ callee → f r = load64 (mmem m) (pn + o)) as L3.
  { intros r o Hin. rewrite (L2 r o Hin). apply (load64_frame _ _ _ 112); [by apply (slot_of _ _ _ _ callee_slots Hin)|].
    intros x Hx. apply F1. unfold in_range in *. lia. }
  exists (set_pc (set_regs (set_mmem m mm) f) (f ra)). change swtch with (saves callee a0 ++ loads callee a1 ++ [JR ra]).
  rewrite R1, R2. split; [done|]. cbn [set_pc set_regs set_mmem m_pc m_mode csrs regs mmem].
  split; [rewrite (L3 ra 0) by (by left); f_equal; lia|]. split; [done|]. split; [done|]. split; [|done]. intros r o Hin. auto.
Qed.

(** C13: a process that gives up the CPU resumes where it was. When [swtch] has
    saved its context at [po] and switched away, any later [swtch] that is given
    that context, on any CPU and from any registers, continues at the saved
    return address with the saved stack and callee-saved registers. *)
Theorem swtch_resumes m po pn :
  words m → frame_at m (regs m a0) 112 po → frame_at m (regs m a1) 112 pn → po + 112 ≤ pn ∨ pn + 112 ≤ po →
  ∃ m1, run swtch m = Some m1 ∧
    ∀ m2 po2, words m2 → frame_at m2 (regs m2 a1) 112 po → frame_at m2 (regs m2 a0) 112 po2 → po2 + 112 ≤ po ∨ po + 112 ≤ po2 →
      (∀ x, in_range po 112 x → load8 (mmem m2) x = load8 (mmem m1) x) →
      ∃ m3, run swtch m2 = Some m3 ∧ m_pc m3 = regs m ra ∧ ∀ r, r ∈ callee.*1 → regs m3 r = regs m r.
Proof.
  intros Hw Ho Hn Hd. destruct (swtch_spec m po pn Hw Ho Hn Hd) as (m1 & E1 & _ & _ & _ & S1 & _). exists m1. split; [done|].
  intros m2 po2 Hw2 Hn2 Ho2 Hd2 Hk. destruct (swtch_spec m2 po2 po Hw2 Ho2 Hn2 Hd2) as (m3 & E3 & Hpc & _ & _ & S3 & _).
  assert (∀ r o, (r, o) ∈ callee → load64 (mmem m2) (po + o) = regs m r) as Hl.
  { intros r o Hin. rewrite (load64_frame (mmem m2) (mmem m1) po 112 o (slot_of _ _ _ _ callee_slots Hin) Hk). by apply S1. }
  exists m3. split; [done|]. split.
  - rewrite Hpc, <- (Hl ra 0) by (by left). f_equal. lia.
  - intros r ([r' o] & -> & Hin)%list_elem_of_fmap. simpl. rewrite (proj2 (S3 r' o Hin)). by apply Hl.
Qed.

(** ** Traps from user mode *)

(** Where [struct trapframe] keeps the registers other than [a0]. *)
Definition tf_saved : list (reg * Z) :=
  [(ra, 40); (sp, 48); (gp, 56); (tp, 64); (t0, 72); (t1, 80); (t2, 88); (s0, 96); (s1, 104);
   (a1, 120); (a2, 128); (a3, 136); (a4, 144); (a5, 152); (a6, 160); (a7, 168);
   (s2, 176); (s3, 184); (s4, 192); (s5, 200); (s6, 208); (s7, 216); (s8, 224); (s9, 232);
   (s10, 240); (s11, 248); (t3, 256); (t4, 264); (t5, 272); (t6, 280)].
Lemma tf_slots : Forall (slot PGSIZE) tf_saved.*2.
Proof. unfold PGSIZE. slots. Qed.
Lemma tf_offs : NoDup tf_saved.*2.
Proof. distinct. Qed.
Lemma tf_regs : NoDup tf_saved.*1.
Proof. distinct. Qed.
Lemma tf_all r : r ≠ a0 → ∃ o, (r, o) ∈ tf_saved.
Proof.
  intros Hr. assert (r ∈ tf_saved.*1) as ([r' o] & -> & Hin)%list_elem_of_fmap; [|by exists o].
  destruct r; try done; distinct.
Qed.
(** The kernel's words are not among them. *)
Definition tf_kernel : list (reg * Z) := [(sp, tf_kernel_sp); (tp, tf_kernel_hartid); (t0, tf_kernel_trap); (t1, tf_kernel_satp)].
Lemma tf_kernel_slots : Forall (slot PGSIZE) tf_kernel.*2.
Proof. unfold PGSIZE. slots. Qed.

Lemma tf_kernel_apart r o : (r, o) ∈ tf_kernel → o ≠ tf_a0 ∧ o ∉ tf_saved.*2.
Proof.
  intros Hin. assert (Forall (λ e, e.2 ≠ tf_a0 ∧ e.2 ∉ tf_saved.*2) tf_kernel) as H by distinct.
  rewrite Forall_forall in H. exact (H (r, o) Hin).
Qed.

(** The first two instructions and the save of [a0]. *)
Lemma uservec_start m rest : run (CSRW sscratch a0 :: LI a0 TRAPFRAME :: rest) m = run rest (set_reg (set_csr m sscratch (regs m a0)) a0 TRAPFRAME).
Proof. done. Qed.
Lemma uservec_a0 m p v rest : regs m a0 = TRAPFRAME → csrs m sscratch = v → frame_at m TRAPFRAME PGSIZE p →
  run (CSRR t0 sscratch :: SD t0 tf_a0 a0 :: rest) m = run rest (set_mmem (set_reg m t0 v) (store64 (mmem m) (p + tf_a0) v)).
Proof.
  intros Ha Hv Hf. cbn [Asm.run step]. rewrite Hv. cbn [set_reg regs mmem].
  rewrite fn_lookup_insert, fn_lookup_insert_ne, Ha by done. rewrite <- (Hf tf_a0) by (unfold tf_a0, PGSIZE; lia). done.
Qed.
Lemma uservec_scratch m : words m →
  let m1 := set_reg (set_csr m sscratch (regs m a0)) a0 TRAPFRAME in
  words m1 ∧ regs m1 a0 = TRAPFRAME ∧ (∀ r, r ≠ a0 → regs m1 r = regs m r) ∧ csrs m1 sscratch = regs m a0 ∧
  (∀ c, c ≠ sscratch → csrs m1 c = csrs m c) ∧ m_mode m1 = m_mode m ∧ mmem m1 = mmem m.
Proof.
  intros Hw m1. assert (regs m1 a0 = TRAPFRAME) as Ha by apply fn_lookup_insert.
  assert (∀ r, r ≠ a0 → regs m1 r = regs m r) as Hr by (intros r Hr; by apply fn_lookup_insert_ne).
  split_and!; try done.
  - intros r. destruct (decide (r = a0)) as [->|Hne]; [rewrite Ha; vm_compute; split; [discriminate|reflexivity]|by rewrite Hr].
  - intros c Hc. by apply fn_lookup_insert_ne.
Qed.
Lemma store_a0_other mm p v o : slot PGSIZE o → o ≠ tf_a0 → load64 (store64 mm (p + tf_a0) v) (p + o) = load64 mm (p + o).
Proof.
  intros Ho Hne. apply load_store_ne. change (Z.of_nat 8) with 8.
  assert (slot PGSIZE tf_a0) as Ha by (unfold slot, PGSIZE, tf_a0; repeat split; lia).
  destruct (slots_apart PGSIZE tf_a0 o Ha Ho ltac:(congruence)); lia.
Qed.
Lemma tf_saved_apart r o : (r, o) ∈ tf_saved → slot PGSIZE o ∧ o ≠ tf_a0 ∧ r ≠ a0.
Proof.
  intros Hin. split; [exact (slot_of _ _ _ _ tf_slots Hin)|].
  assert (Forall (λ e, e.2 ≠ tf_a0 ∧ e.1 ≠ a0) tf_saved) as H by distinct. rewrite Forall_forall in H. exact (H (r, o) Hin).
Qed.

(** On entry every user register is in the trapframe, and the CPU is in
    [usertrap] on the kernel's stack and page table. *)
Lemma uservec_spec m p :
  words m → frame_at m TRAPFRAME PGSIZE p →
  ∃ m', run uservec m = Some m' ∧ m_mode m' = m_mode m ∧
    (∀ r o, (r, o) ∈ (a0, tf_a0) :: tf_saved → load64 (mmem m') (p + o) = regs m r) ∧
    regs m' sp = load64 (mmem m) (p + tf_kernel_sp) ∧ regs m' tp = load64 (mmem m) (p + tf_kernel_hartid) ∧
    m_pc m' = load64 (mmem m) (p + tf_kernel_trap) ∧ csrs m' satp = load64 (mmem m) (p + tf_kernel_satp) ∧
    csrs m' sepc = csrs m sepc ∧ csrs m' sstatus = csrs m sstatus ∧
    (∀ x, ¬ in_range p PGSIZE x → load8 (mmem m') x = load8 (mmem m) x).
Proof.
  intros Hw Hf. change uservec with ([CSRW sscratch a0; LI a0 TRAPFRAME] ++ saves tf_saved a0 ++ CSRR t0 sscratch :: SD t0 tf_a0 a0 ::
    loads tf_kernel a0 ++ [SFENCE; CSRW satp t1; SFENCE; JR t0]). cbn [app]. rewrite uservec_start.
  destruct (uservec_scratch m Hw) as (Hw1 & Ha & Hr & Hs & Hc & Hm & Hmem).
  set (m1 := set_reg (set_csr m sscratch (regs m a0)) a0 TRAPFRAME) in *. clearbody m1.
  assert (frame_at m1 TRAPFRAME PGSIZE p) as Hf1 by (eapply (frame_at_csrs translate); [symmetry; by apply Hc|done|done]).
  destruct (run_saves translate c_call PGSIZE p tf_saved a0 m1 Hw1 ltac:(by rewrite Ha) tf_slots tf_offs) as (mm & R1 & S1 & K1 & F1).
  rewrite R1. rewrite (uservec_a0 _ p (regs m a0)) by done. cbn [set_mmem mmem].
  set (m2 := set_mmem _ _). assert (mmem m2 = store64 mm (p + tf_a0) (regs m a0)) as Mm2 by done.
  assert (csrs m2 = csrs m1) as C2 by done. assert (m_mode m2 = m_mode m1) as D2 by done.
  assert (regs m2 a0 = TRAPFRAME) as A2 by (unfold m2; cbn [set_mmem set_reg regs]; by rewrite fn_lookup_insert_ne). clearbody m2.
  destruct (run_loads translate c_call PGSIZE p tf_kernel a0 m2) as (f & R3 & L3 & K3).
  { rewrite A2. apply (frame_at_csrs translate m1); [by rewrite C2|by rewrite D2|exact Hf1]. }
  { apply tf_kernel_slots. }
  { distinct. }
  { apply not_base. distinct. }
  rewrite R3. rewrite Mm2 in L3. assert (∀ r o, (r, o) ∈ tf_kernel → f r = load64 (mmem m) (p + o)) as Hk.
  { intros r o Hin. assert (slot PGSIZE o) as Ho by exact (slot_of _ _ _ _ tf_kernel_slots Hin).
    destruct (tf_kernel_apart r o Hin) as [Hne Hni]. by rewrite (L3 r o Hin), store_a0_other, K1, Hmem. }
  eexists. split; [reflexivity|]. cbn [set_pc set_csr set_regs m_mode m_pc regs csrs mmem]. rewrite Mm2.
  split; [congruence|]. split.
  { intros r o [[= -> ->]|Hin]%elem_of_cons; [apply load64_store64, Hw|]. destruct (tf_saved_apart r o Hin) as (Ho & Hne & Hr0).
    rewrite store_a0_other by done. rewrite (S1 r o Hin). by apply Hr. }
  rewrite fn_lookup_insert, !fn_lookup_insert_ne, C2 by done. split_and!; try (apply Hk; distinct); try (by apply Hc).
  intros x Hx. rewrite <- Hmem. rewrite load8_store_ne by (unfold in_range, PGSIZE, tf_a0 in *; change (Z.of_nat 8) with 8; lia). by apply F1.
Qed.

Lemma userret_start m rest : run (SFENCE :: CSRW satp a0 :: SFENCE :: LI a0 TRAPFRAME :: rest) m =
  run rest (set_reg (set_csr m satp (regs m a0)) a0 TRAPFRAME).
Proof. done. Qed.

(** The way back: every register comes from the trapframe. *)
Lemma userret_spec m p :
  frame_at (set_csr m satp (regs m a0)) TRAPFRAME PGSIZE p →
  ∃ m', run userret m = Some m' ∧ (∀ r o, (r, o) ∈ (a0, tf_a0) :: tf_saved → regs m' r = load64 (mmem m) (p + o)) ∧
    csrs m' satp = regs m a0 ∧ m_pc m' = csrs m sepc ∧ (m_mode m' = if Z.testbit (csrs m sstatus) 8 then 1 else 0) ∧ mmem m' = mmem m.
Proof.
  intros Hf. change userret with ([SFENCE; CSRW satp a0; SFENCE; LI a0 TRAPFRAME] ++ loads tf_saved a0 ++ [LD a0 tf_a0 a0; SRET]).
  cbn [app]. rewrite userret_start. set (m1 := set_reg (set_csr m satp (regs m a0)) a0 TRAPFRAME).
  assert (regs m1 a0 = TRAPFRAME) as Ha by apply fn_lookup_insert.
  assert (csrs m1 = <[satp := regs m a0]> (csrs m) ∧ m_mode m1 = m_mode m ∧ mmem m1 = mmem m) as (Hc & Hm & Hmem) by done.
  assert (frame_at m1 TRAPFRAME PGSIZE p) as Hf1 by exact Hf. clearbody m1. clear Hf.
  destruct (run_loads translate c_call PGSIZE p tf_saved a0 m1) as (f & R & L & K).
  { by rewrite Ha. }
  { apply tf_slots. }
  { apply tf_regs. }
  { apply not_base. distinct. }
  rewrite R. assert (f a0 = TRAPFRAME) as Hfa by (rewrite K; [done|distinct]).
  assert (vaddr (set_regs m1 f) (u64 (f a0 + tf_a0)) = p + tf_a0) as Ea by (rewrite Hfa; apply Hf1; unfold tf_a0, PGSIZE; lia).
  assert (∀ rest, run (LD a0 tf_a0 a0 :: rest) (set_regs m1 f) = run rest (set_reg (set_regs m1 f) a0 (load64 (mmem m1) (p + tf_a0)))) as R2.
  { intros rest. rewrite <- Ea. done. }
  rewrite R2. cbn [Asm.run step]. eexists. split; [reflexivity|].
  cbn [sret set_reg set_regs regs csrs m_mode m_pc mmem]. rewrite Hc, Hmem. split.
  - intros r o [[= -> ->]|Hin]%elem_of_cons; [apply fn_lookup_insert|]. destruct (tf_saved_apart r o Hin) as (_ & _ & Hr).
    rewrite fn_lookup_insert_ne by done. rewrite <- Hmem. by apply L.
  - rewrite !fn_lookup_insert_ne, fn_lookup_insert by done. done.
Qed.

(** C3: a trap is invisible to the program. After [uservec] has saved the
    registers and switched to the kernel, whatever the kernel does that leaves
    the saved registers in the trapframe alone except for [a0], on whatever CPU
    and however long after, [userret] continues the program with every register
    as it was, and with [a0] as the trapframe holds it: its old value after an
    interrupt, the result after a system call. *)
Theorem trap_transparent m p :
  words m → frame_at m TRAPFRAME PGSIZE p →
  ∃ m1, run uservec m = Some m1 ∧ load64 (mmem m1) (p + tf_a0) = regs m a0 ∧
    m_pc m1 = load64 (mmem m) (p + tf_kernel_trap) ∧ regs m1 sp = load64 (mmem m) (p + tf_kernel_sp) ∧
    csrs m1 satp = load64 (mmem m) (p + tf_kernel_satp) ∧
    ∀ m2, frame_at (set_csr m2 satp (regs m2 a0)) TRAPFRAME PGSIZE p →
      (∀ x, in_range (p + 40) 248 x → ¬ in_range (p + tf_a0) 8 x → load8 (mmem m2) x = load8 (mmem m1) x) →
      ∃ m3, run userret m2 = Some m3 ∧ (∀ r, r ≠ a0 → regs m3 r = regs m r) ∧ regs m3 a0 = load64 (mmem m2) (p + tf_a0) ∧
        m_pc m3 = csrs m2 sepc ∧ csrs m3 satp = regs m2 a0.
Proof.
  intros Hw Hf. destruct (uservec_spec m p Hw Hf) as (m1 & E1 & _ & S1 & Hsp & _ & Hpc & Hsatp & _). exists m1.
  split; [done|]. split; [apply S1; by left|]. split; [done|]. split; [done|]. split; [done|]. intros m2 Hf2 Hk.
  destruct (userret_spec m2 p Hf2) as (m3 & E3 & L3 & H3 & Hp3 & _). exists m3. split; [done|]. split_and!; [|apply L3; by left|done|done].
  intros r Hr. destruct (tf_all r Hr) as [o Hin]. rewrite (L3 r o), <- (S1 r o) by (by right).
  assert (slot 288 o ∧ 40 ≤ o ∧ o ≠ tf_a0) as (Ho & Ho40 & Hne).
  { assert (Forall (λ e, (0 ≤ e.2 ∧ e.2 + 8 ≤ 288 ∧ e.2 mod 8 = 0) ∧ 40 ≤ e.2 ∧ e.2 ≠ tf_a0) tf_saved) as H by distinct.
    rewrite Forall_forall in H. exact (H (r, o) Hin). }
  apply load_agree. intros x Hx. apply Hk; [unfold slot, in_range in *; lia|].
  assert (slot 288 tf_a0) as Ha by (unfold slot, tf_a0; repeat split; lia).
  destruct (slots_apart 288 tf_a0 o Ha Ho ltac:(congruence)); unfold in_range in *; lia.
Qed.
End thms.

(** ** A switch and back, a trap and back *)

Definition no_calls (_ : Z) (m : mach) : mach := m.
Definition flat (_ a : Z) : Z := a.
Lemma flat_frame m va n : 0 ≤ va → va + n ≤ 2 ^ 64 → frame_at flat m va n va.
Proof. intros H1 H2 o Ho. unfold vaddr, flat. rewrite u64_small by lia. by destruct (_ =? _). Qed.

(** A process at 77 with its context at 0x1000 and the scheduler's at 0x2000. *)
Definition demo_regs (old new v : Z) (r : reg) : Z := match r with a0 => old | a1 => new | ra => v | _ => v + 1 end.
Definition demo_switch : mach := mk_mach (demo_regs 0x1000 0x2000 77) (λ _, 0) 1 0 ∅.
Lemma demo_words m old new v : regs m = demo_regs old new v → 0 ≤ old < 2 ^ 64 → 0 ≤ new < 2 ^ 64 → 0 ≤ v < 2 ^ 63 → words m.
Proof. intros E H1 H2 H3 r. rewrite E. destruct r; simpl; lia. Qed.
Lemma swtch_resumes_witness : ∃ m1, run flat no_calls swtch demo_switch = Some m1 ∧
  ∃ m3, run flat no_calls swtch (set_regs m1 (demo_regs 0x2000 0x1000 5)) = Some m3 ∧ m_pc m3 = 77 ∧ regs m3 sp = 78.
Proof.
  destruct (swtch_resumes flat no_calls demo_switch 0x1000 0x2000) as (m1 & E1 & H).
  - eapply demo_words; [reflexivity|lia..].
  - apply flat_frame; vm_compute; discriminate.
  - apply flat_frame; vm_compute; discriminate.
  - lia.
  - exists m1. split; [exact E1|]. destruct (H (set_regs m1 (demo_regs 0x2000 0x1000 5)) 0x2000) as (m3 & E3 & Hpc & Hr).
    + eapply demo_words; [reflexivity|lia..].
    + apply flat_frame; vm_compute; discriminate.
    + apply flat_frame; vm_compute; discriminate.
    + lia.
    + intros x Hx. reflexivity.
    + exists m3. split; [exact E3|]. split; [exact Hpc|]. apply (Hr sp). distinct.
Defined.

(** A system call that returns 42: the trapframe page is at 0x5000. *)
Definition tf_page (s a : Z) : Z := if s =? 8 then a - TRAPFRAME + 0x5000 else a.
Definition demo_trap : mach := mk_mach (demo_regs 1 2 7) (<[satp := 8]> (λ _, 0)) 1 0 ∅.
Definition demo_return (m1 : mach) : mach :=
  mk_mach (<[a0 := 8]> (regs m1)) (<[sepc := 0x1004]> (csrs m1)) 1 0 (store64 (mmem m1) (0x5000 + tf_a0) 42).
Lemma tf_page_frame m : csrs m satp = 8 → m_mode m = 1 → frame_at tf_page m TRAPFRAME PGSIZE 0x5000.
Proof.
  intros Hs Hm o Ho. unfold vaddr, tf_page. rewrite Hs, Hm. change (8 =? 8) with true. change (1 =? 3) with false. cbv iota.
  rewrite u64_small; [lia|]. unfold TRAPFRAME, TRAMPOLINE, PGSIZE in *. rewrite MAXVA_eq. lia.
Qed.
Lemma trap_transparent_witness : ∃ m1 m3, run tf_page no_calls uservec demo_trap = Some m1 ∧
  run tf_page no_calls userret (demo_return m1) = Some m3 ∧ regs m3 a0 = 42 ∧ regs m3 a1 = 2 ∧ regs m3 sp = 8 ∧ m_pc m3 = 0x1004.
Proof.
  destruct (trap_transparent tf_page no_calls demo_trap 0x5000) as (m1 & E1 & _ & _ & _ & _ & H).
  - eapply demo_words; [reflexivity|lia..].
  - apply tf_page_frame; reflexivity.
  - destruct (H (demo_return m1)) as (m3 & E3 & Hr & Ha & Hpc & _).
    + apply tf_page_frame; reflexivity.
    + intros x Hx Hn. unfold demo_return. cbn [mmem]. apply load8_store_ne. exact Hn.
    + exists m1, m3. split; [exact E1|]. split; [exact E3|]. split; [rewrite Ha; apply load64_store64; lia|].
      split; [apply (Hr a1); discriminate|]. split; [apply (Hr sp); discriminate|]. rewrite Hpc. reflexivity.
Defined.


Section kernel.
Context (translate : Z → Z → Z) (c_call : Z → mach → mach).
#[local] Abbreviation run := (run translate c_call).
#[local] Abbreviation frame_at := (frame_at translate).

(** ** [entry.S] *)

(** The stack on which hart [id] calls [start]: the page of [stack0] that ends
    at [sp] is its own. *)
Theorem entry_stack m stack0 start spin :
  0 ≤ csrs m mhartid < NCPU → 0 ≤ stack0 → stack0 + 4096 * NCPU < 2 ^ 64 →
  ∃ m', run (_entry stack0 start spin) m = Some (set_pc (c_call start m') spin) ∧
    regs m' sp = stack0 + 4096 * (csrs m mhartid + 1) ∧ mmem m' = mmem m.
Proof.
  intros Hid H0 Hs. unfold NCPU in *. eexists. split; [reflexivity|]. split; [|done]. cbn [set_reg regs csrs].
  repeat (rewrite fn_lookup_insert || rewrite fn_lookup_insert_ne by done). rewrite (u64_small (_ + 1)) by lia.
  rewrite (u64_small (1024 * 4 * _)) by lia. rewrite u64_small; lia.
Qed.

(** ** [kernelvec] *)

Definition kv_saved : list (reg * Z) :=
  [(ra, 0); (sp, 8); (gp, 16); (tp, 24); (t0, 32); (t1, 40); (t2, 48); (s0, 56); (s1, 64);
   (a0, 72); (a1, 80); (a2, 88); (a3, 96); (a4, 104); (a5, 112); (a6, 120); (a7, 128);
   (s2, 136); (s3, 144); (s4, 152); (s5, 160); (s6, 168); (s7, 176); (s8, 184); (s9, 192);
   (s10, 200); (s11, 208); (t3, 216); (t4, 224); (t5, 232); (t6, 240)].
Definition kv_loaded : list (reg * Z) := filter (λ e, e.1 ≠ tp) kv_saved.
Lemma kv_slots : Forall (slot 256) kv_saved.*2.
Proof. slots. Qed.
Lemma kv_loaded_slots : Forall (slot 256) kv_loaded.*2.
Proof. slots. Qed.
Lemma kv_loaded_saved r o : (r, o) ∈ kv_loaded → (r, o) ∈ kv_saved.
Proof. unfold kv_loaded. by intros [_ ?]%list_elem_of_filter. Qed.
Lemma kv_all r : r ≠ tp → ∃ o, (r, o) ∈ kv_loaded.
Proof.
  intros Hr. assert (r ∈ kv_loaded.*1) as ([r' o] & -> & Hin)%list_elem_of_fmap; [|by exists o].
  destruct r; try done; distinct.
Qed.

(** What [kernelvec] relies on of the call, the calling convention: a function
    that is entered with the stack pointer at [base], where the 256 bytes above
    it are mapped at [p], returns with the same stack pointer and has not
    written to those bytes, its caller's, which are still mapped there; below
    [base] it uses the stack as it likes. It has put back [sepc] and [sstatus],
    which another trap in the meantime may have changed. *)
Record returns (base p : Z) (f : mach → mach) : Prop := {
  ret_sp m : regs m sp = base → frame_at m base 256 p → regs (f m) sp = regs m sp;
  ret_frame m x : regs m sp = base → frame_at m base 256 p → in_range p 256 x → load8 (mmem (f m)) x = load8 (mmem m) x;
  ret_map m : regs m sp = base → frame_at m base 256 p → csrs (f m) satp = csrs m satp ∧ m_mode (f m) = m_mode m;
  ret_csrs m : regs m sp = base → frame_at m base 256 p → csrs (f m) sepc = csrs m sepc ∧ csrs (f m) sstatus = csrs m sstatus
}.

Lemma run_addi d r imm rest m : run (ADDI d r imm :: rest) m = run rest (set_reg m d (u64 (regs m r + imm))).
Proof. done. Qed.
Lemma run_ccall f rest m : run (CALL f :: rest) m = run rest (c_call f m).
Proof. done. Qed.

(** C31: an interrupt is invisible to the kernel code it interrupts. Around a
    trap handler that keeps to the calling convention when it is entered on the
    interrupted stack below the 256 bytes [kernelvec] takes, and that puts back
    [sepc] and [sstatus], [kernelvec] returns to where the interrupt was, in the mode it was in, with every register as it
    was except [tp], the number of the CPU, which is as the handler left it in
    case the code goes on on another CPU. *)
Theorem kernelvec_transparent kerneltrap m p :
  words m → frame_at m (u64 (regs m sp - 256)) 256 p → returns (u64 (regs m sp - 256)) p (c_call kerneltrap) → Z.testbit (csrs m sstatus) 8 = true →
  ∃ mc m', run (kernelvec kerneltrap) m = Some m' ∧ mmem m' = mmem (c_call kerneltrap mc) ∧ regs m' tp = regs (c_call kerneltrap mc) tp ∧
    (∀ r, r ≠ tp → regs m' r = regs m r) ∧ m_pc m' = csrs m sepc ∧ m_mode m' = 1.
Proof.
  intros Hw Hf Habi Hspp. change (kernelvec kerneltrap) with (ADDI sp sp (-256) :: saves kv_saved sp ++ CALL kerneltrap :: loads kv_loaded sp ++ [ADDI sp sp 256; SRET]).
  rewrite run_addi. change (regs m sp + -256) with (regs m sp - 256). set (base := u64 (regs m sp - 256)) in *. set (m1 := set_reg m sp base).
  assert (regs m1 sp = base) as Hsp by apply fn_lookup_insert.
  assert (∀ r, r ≠ sp → regs m1 r = regs m r) as Hr1 by (intros r Hr; by apply fn_lookup_insert_ne).
  assert (words m1) as Hw1.
  { intros r. destruct (decide (r = sp)) as [->|Hne]; [rewrite Hsp; apply u64_range|by rewrite Hr1]. }
  assert (csrs m1 = csrs m ∧ m_mode m1 = m_mode m) as [Hc1 Hm1] by done. assert (frame_at m1 base 256 p) as Hf1 by exact Hf. clearbody m1.
  destruct (run_saves translate c_call 256 p kv_saved sp m1 Hw1 ltac:(by rewrite Hsp) kv_slots ltac:(distinct)) as (mm & R1 & S1 & _).
  rewrite R1. set (mc := set_mmem m1 mm). set (m2 := c_call kerneltrap mc).
  rewrite run_ccall. fold m2.
  assert (frame_at mc base 256 p) as Hfc by exact Hf1.
  destruct (ret_map _ _ _ Habi mc Hsp Hfc) as [Hs2 Hm2]. destruct (ret_csrs _ _ _ Habi mc Hsp Hfc) as [He2 Hst2]. pose proof (ret_sp _ _ _ Habi mc Hsp Hfc) as Hsp2. fold m2 in Hs2, Hm2, He2, Hst2, Hsp2.
  assert (∀ r o, (r, o) ∈ kv_saved → load64 (mmem m2) (p + o) = regs m1 r) as L2.
  { intros r o Hin. rewrite <- (S1 r o Hin). apply (load64_frame _ _ _ 256); [exact (slot_of _ _ _ _ kv_slots Hin)|]. intros x Hx. by apply (ret_frame _ _ _ Habi mc x Hsp Hfc). }
  assert (regs m2 sp = base) as Hb2 by (rewrite Hsp2; exact Hsp).
  assert (frame_at m2 base 256 p) as Hf2 by (apply (frame_at_csrs translate m1); [by rewrite Hs2|by rewrite Hm2|exact Hf1]).
  destruct (run_loads translate c_call 256 p kv_loaded sp m2 ltac:(by rewrite Hb2) kv_loaded_slots ltac:(distinct)) as (f & R3 & L3 & K3).
  { intros o Hin. rewrite (L2 sp o (kv_loaded_saved _ _ Hin)). congruence. }
  rewrite R3. exists mc. eexists. split; [reflexivity|]. fold m2. cbn [sret set_reg set_regs regs csrs m_mode m_pc mmem].
  assert (∀ r, r ≠ tp → f r = regs m1 r) as Hfr.
  { intros r Hr. destruct (kv_all r Hr) as [o Hin]. rewrite (L3 r o Hin). apply L2, kv_loaded_saved, Hin. }
  split; [done|]. split; [rewrite fn_lookup_insert_ne by done; apply K3; distinct|]. split.
  { intros r Hr. destruct (decide (r = sp)) as [->|Hne]; [|rewrite fn_lookup_insert_ne, Hfr by done; by apply Hr1].
    rewrite fn_lookup_insert, Hfr, Hsp by done. unfold base. specialize (Hw sp). unfold u64. rewrite Zplus_mod_idemp_l. rewrite Z.mod_small; lia. }
  rewrite He2, Hst2. change (csrs mc) with (csrs m1). rewrite Hc1, Hspp. done.
Qed.

(** ** [timervec] *)

(** In machine mode addresses are physical. *)
Lemma machine_frame m va n : m_mode m = 3 → 0 ≤ va → va + n ≤ 2 ^ 64 → frame_at m va n va.
Proof. intros Hm H1 H2 o Ho. unfold vaddr. rewrite Hm, u64_small by lia. done. Qed.

Definition tv_saved : list (reg * Z) := [(a1, 0); (a2, 8); (a3, 16)].
Definition tv_loaded : list (reg * Z) := [(a3, 16); (a2, 8); (a1, 0)].
Definition tv_setup : list (reg * Z) := [(a1, 24); (a2, 32)].
Definition interval : Z := 1000000.

Lemma tv_slots : Forall (slot 40) tv_saved.*2 ∧ Forall (slot 40) tv_loaded.*2 ∧ Forall (slot 40) tv_setup.*2.
Proof. split_and!; slots. Qed.

(** The comparison register at [ca] grows, and the software interrupt of
    supervisor mode is raised. *)
Lemma run_rearm m ca rest :
  m_mode m = 3 → regs m a1 = ca → 0 ≤ ca < 2 ^ 64 →
  ∃ f, run (LD a3 0 a1 :: ADD a3 a3 a2 :: SD a3 0 a1 :: LI a1 2 :: CSRW sip a1 :: rest) m =
      run rest (mk_mach f (<[sip := 2]> (csrs m)) 3 (m_pc m) (store64 (mmem m) ca (u64 (load64 (mmem m) ca + regs m a2)))) ∧
    ∀ r, r ≠ a1 → r ≠ a3 → f r = regs m r.
Proof.
  intros Hm Ha Hca. destruct m as [R C md pcv mm]. cbn [m_mode regs] in *. subst md.
  cbn [Asm.run step set_reg set_mmem set_csr regs csrs mmem m_mode m_pc vaddr]. change (3 =? 3) with true. cbv iota.
  repeat (rewrite fn_lookup_insert || rewrite fn_lookup_insert_ne by done). rewrite Ha, Z.add_0_r, (u64_small ca) by done.
  eexists. split; [reflexivity|]. intros r H1 H3. cbn [set_reg set_mmem regs]. by rewrite !fn_lookup_insert_ne by congruence.
Qed.

(** What [timervec] finds and leaves: its scratch area, and [cmp] in the
    comparison register of the hart. *)
Record timer_state (id scr cmp : Z) (m : mach) : Prop := {
  ts_scratch : csrs m mscratch = scr;
  ts_reg : load64 (mmem m) (scr + 24) = CLINT_MTIMECMP id;
  ts_interval : load64 (mmem m) (scr + 32) = interval;
  ts_cmp : load64 (mmem m) (CLINT_MTIMECMP id) = cmp
}.
(** The memory that belongs to the timer of a hart. *)
Definition timer_mem (id scr x : Z) : Prop := in_range (CLINT_MTIMECMP id) 8 x ∨ in_range scr 40 x.

Lemma run_csrrw d c r rest m : run (CSRRW d c r :: rest) m = run rest (set_csr (set_reg m d (csrs m c)) c (regs m r)).
Proof. done. Qed.
Lemma run_mret m : run [MRET] m = Some (Asm.mret m).
Proof. done. Qed.

(** Up to the two loads from the scratch area. *)
Lemma timervec_enter id scr cmp m :
  words m → m_mode m = 3 → 0 ≤ id < NCPU → CLINT + 0xC000 ≤ scr < 2 ^ 63 → timer_state id scr cmp m →
  ∃ m2, (∀ rest, run (CSRRW a0 mscratch a0 :: saves tv_saved a0 ++ loads tv_setup a0 ++ rest) m = run rest m2) ∧
    m_mode m2 = 3 ∧ regs m2 a0 = scr ∧ regs m2 a1 = CLINT_MTIMECMP id ∧ regs m2 a2 = interval ∧
    (∀ r, r ≠ a0 → r ≠ a1 → r ≠ a2 → regs m2 r = regs m r) ∧ csrs m2 mscratch = regs m a0 ∧ csrs m2 mepc = csrs m mepc ∧
    (∀ r o, (r, o) ∈ tv_saved → load64 (mmem m2) (scr + o) = regs m r) ∧
    (∀ o, o = 24 ∨ o = 32 → load64 (mmem m2) (scr + o) = load64 (mmem m) (scr + o)) ∧
    (∀ x, ¬ in_range scr 40 x → load8 (mmem m2) x = load8 (mmem m) x).
Proof.
  intros Hw Hm Hid Hscr [T1 T2 T3 T4]. destruct tv_slots as (Hs1 & Hs2 & Hs3). set (m1 := set_csr (set_reg m a0 scr) mscratch (regs m a0)).
  assert (∀ rest, run (CSRRW a0 mscratch a0 :: rest) m = run rest m1) as R0 by (intros rest; unfold m1; by rewrite <- T1).
  assert (regs m1 a0 = scr) as Ha by apply fn_lookup_insert.
  assert (∀ r, r ≠ a0 → regs m1 r = regs m r) as Hr by (intros r Hr; by apply fn_lookup_insert_ne).
  assert (csrs m1 mscratch = regs m a0 ∧ csrs m1 mepc = csrs m mepc ∧ m_mode m1 = 3 ∧ mmem m1 = mmem m) as (Hc & Hpc & Hm1 & Hmem) by done.
  assert (words m1) as Hw1.
  { intros r. destruct (decide (r = a0)) as [->|Hne]; [rewrite Ha; unfold CLINT in Hscr; lia|by rewrite Hr]. }
  clearbody m1. assert (∀ m, m_mode m = 3 → frame_at m scr 40 scr) as Hfr by (intros m' Hm'; apply machine_frame; [done|unfold CLINT in Hscr; lia..]).
  destruct (run_saves translate c_call 40 scr tv_saved a0 m1 Hw1 ltac:(rewrite Ha; by apply Hfr) Hs1 ltac:(distinct)) as (mm & R1 & S1 & K1 & F1).
  destruct (run_loads translate c_call 40 scr tv_setup a0 (set_mmem m1 mm)) as (f & R2 & L2 & K2);
    [cbn [set_mmem regs]; rewrite Ha; by apply Hfr|done|distinct|apply not_base; distinct|]. cbn [set_mmem mmem regs] in L2, K2.
  assert (∀ o, o = 24 ∨ o = 32 → load64 mm (scr + o) = load64 (mmem m) (scr + o)) as Hkeep.
  { intros o Ho. rewrite K1, Hmem; [done| |]; destruct Ho as [-> | ->]; try (unfold slot; repeat split; lia); distinct. }
  exists (set_regs (set_mmem m1 mm) f). split; [intros rest; by rewrite R0, R1, R2|]. cbn [set_regs set_mmem regs csrs m_mode mmem].
  rewrite <- Hmem. split_and!; try done.
  - rewrite K2 by distinct. done.
  - rewrite (L2 a1 24) by (by left). rewrite Hkeep by (by left). done.
  - rewrite (L2 a2 32) by (by right; left). rewrite Hkeep by (by right). done.
  - intros r N0 N1 N2. rewrite K2, Hr; [done|done|]. by intros [?|[?|?%elem_of_nil]%elem_of_cons]%elem_of_cons.
  - intros r o Hin. rewrite (S1 r o Hin). apply Hr. intros ->. revert Hin. apply (not_base tv_saved a0 (λ _, False)). distinct.
  - rewrite Hmem. exact Hkeep.
Qed.

Lemma timervec_spec id scr cmp m :
  words m → m_mode m = 3 → 0 ≤ id < NCPU → CLINT + 0xC000 ≤ scr < 2 ^ 63 → timer_state id scr cmp m →
  ∃ m', run timervec m = Some m' ∧ timer_state id scr (u64 (cmp + interval)) m' ∧ (∀ r, regs m' r = regs m r) ∧
    csrs m' sip = 2 ∧ m_pc m' = csrs m mepc ∧ (∀ x, ¬ timer_mem id scr x → load8 (mmem m') x = load8 (mmem m) x).
Proof.
  intros Hw Hm Hid Hscr HT. destruct tv_slots as (_ & Hs2 & _).
  change timervec with (CSRRW a0 mscratch a0 :: saves tv_saved a0 ++ loads tv_setup a0 ++
    LD a3 0 a1 :: ADD a3 a3 a2 :: SD a3 0 a1 :: LI a1 2 :: CSRW sip a1 :: loads tv_loaded a0 ++ [CSRRW a0 mscratch a0; MRET]).
  destruct (timervec_enter id scr cmp m Hw Hm Hid Hscr HT) as (m2 & R1 & Hm2 & A0 & A1 & A2 & Hr2 & Hc2 & Hpc2 & S2 & K2 & F2). destruct HT as [T1 T2 T3 T4].
  rewrite R1. assert (0 ≤ CLINT_MTIMECMP id ∧ CLINT_MTIMECMP id + 8 ≤ scr) as [Hca1 Hca2] by (unfold CLINT_MTIMECMP, CLINT, NCPU in *; lia).
  set (ca := CLINT_MTIMECMP id) in *.
  destruct (run_rearm m2 ca (loads tv_loaded a0 ++ [CSRRW a0 mscratch a0; MRET]) Hm2 A1 ltac:(lia)) as (g & R3 & G3). rewrite R3, A2.
  assert (load64 (mmem m2) ca = cmp) as -> by (rewrite <- T4; apply load_agree; intros x Hx; apply F2; unfold in_range in *; lia).
  set (mm := store64 (mmem m2) ca (u64 (cmp + interval))). set (m3 := mk_mach g _ 3 _ mm).
  assert (∀ o, slot 40 o → load64 mm (scr + o) = load64 (mmem m2) (scr + o)) as Hmm by (intros o Ho; apply load_store_ne; unfold slot in Ho; lia).
  assert (regs m3 a0 = scr) as Hg by (cbn [m3 regs]; by rewrite G3).
  destruct (run_loads translate c_call 40 scr tv_loaded a0 m3) as (h & R4 & L4 & K4);
    [rewrite Hg; apply machine_frame; [done|unfold CLINT in Hscr; lia..]|done|distinct|apply not_base; distinct|].
  rewrite R4, run_csrrw, run_mret. eexists. split; [reflexivity|].
  assert (∀ r o, (r, o) ∈ tv_loaded → h r = regs m r) as Hback.
  { intros r o Hin. rewrite (L4 r o Hin). cbn [m3 mmem]. rewrite Hmm by exact (slot_of _ _ _ _ Hs2 Hin).
    apply S2. assert (Forall (λ e, e ∈ tv_saved) tv_loaded) as Hall by distinct. rewrite Forall_forall in Hall. exact (Hall (r, o) Hin). }
  assert (h a0 = scr) as Hh by (rewrite K4 by distinct; exact Hg). unfold Asm.mret, set_csr, set_reg, set_regs. cbn [m3 regs csrs m_pc mmem]. split_and!.
  - split; cbn [csrs mmem]; [by rewrite fn_lookup_insert_ne, fn_lookup_insert| | |apply load64_store64, u64_range];
      rewrite Hmm, K2 by (auto || (unfold slot; repeat split; lia)); done.
  - intros r. destruct (decide (r = a0)) as [->|Hne]; [by rewrite fn_lookup_insert, fn_lookup_insert_ne|].
    rewrite fn_lookup_insert_ne by done. destruct (decide (r ∈ tv_loaded.*1)) as [([r' o] & -> & Hin)%list_elem_of_fmap|Hni]; [by apply (Hback r' o)|].
    rewrite K4 by done. assert (r ≠ a1 ∧ r ≠ a2 ∧ r ≠ a3) as (N1 & N2 & N3) by (split_and!; intros ->; apply Hni; distinct).
    cbn [m3 regs]. rewrite G3 by done. by apply Hr2.
  - by rewrite !fn_lookup_insert_ne, fn_lookup_insert by done.
  - by rewrite !fn_lookup_insert_ne.
  - intros x Hx. unfold timer_mem in Hx. unfold mm. rewrite load8_store_ne by (change (Z.of_nat 8) with 8; tauto). apply F2. tauto.
Qed.

(** ** The timer from boot on *)

(** [h] is the hart as [start] leaves it. Afterwards its timer interrupts [k]
    times; whatever else runs leaves the memory of its timer alone. *)
Inductive ticked (id scr : Z) (h : Boot.hart) : nat → mach → Prop :=
| ticked_start m :
    csrs m mscratch = Boot.mscratch h → (∀ x, timer_mem id scr x → load8 (mmem m) x = load8 (hmem h) x) → ticked id scr h 0 m
| ticked_other k m m' :
    ticked id scr h k m → csrs m' mscratch = csrs m mscratch →
    (∀ x, timer_mem id scr x → load8 (mmem m') x = load8 (mmem m) x) → ticked id scr h k m'
| ticked_tick k m m' :
    ticked id scr h k m → words m → m_mode m = 3 → run timervec m = Some m' → ticked id scr h (S k) m'.

Lemma timer_state_agree id scr cmp m m' :
  timer_state id scr cmp m → csrs m' mscratch = csrs m mscratch → (∀ x, timer_mem id scr x → load8 (mmem m') x = load8 (mmem m) x) →
  timer_state id scr cmp m'.
Proof.
  intros [T1 T2 T3 T4] Hc Hx. split; [congruence| | |]; [rewrite <- T2|rewrite <- T3|rewrite <- T4]; apply load_agree; intros x Hin; apply Hx;
    unfold timer_mem, in_range in *; lia.
Qed.

(** C14: timer interrupts go on. After [start] has set up a hart, and after any
    number of timer interrupts, its next one is due at the time of boot plus
    that number and one of intervals, and [timervec] handles it: it returns to
    the interrupted instruction with every register as it was, raises the
    software interrupt on which the kernel counts ticks, and changes no memory
    but the timer's. *)
Theorem timer_goes_on `{!Hart} main_addr tv timer_scratch h0 h k m :
  0 ≤ Boot.mhartid h0 < NCPU → CLINT + 0xC000 ≤ timer_scratch → timer_scratch + 40 * NCPU < 2 ^ 63 →
  start main_addr tv timer_scratch h0 = Ret tt h →
  let id := Boot.mhartid h0 in
  let scr := timer_scratch + 40 * id in
  ticked id scr h k m →
  load64 (mmem m) (CLINT_MTIMECMP id) = u64 (load64 (hmem h0) CLINT_MTIME + (Z.of_nat k + 1) * interval) ∧
  (words m → m_mode m = 3 →
   ∃ m', run timervec m = Some m' ∧ (∀ r, regs m' r = regs m r) ∧ m_pc m' = csrs m mepc ∧ csrs m' sip = 2 ∧
     ∀ x, ¬ timer_mem id scr x → load8 (mmem m') x = load8 (mmem m) x).
Proof.
  intros Hid Hts1 Hts2 Hst id scr Hk. rewrite start_eq in Hst. injection Hst as <-. unfold NCPU in *.
  assert (CLINT + 0xC000 ≤ scr < 2 ^ 63) as Hscr by (unfold scr, id; lia).
  destruct (sh_scratch _ _ _ _ _ (started_ok main_addr tv timer_scratch h0 Hid ltac:(lia))) as (H1 & H2 & H3 & H4). rewrite H1 in H2, H3.
  assert (∀ k m, ticked id scr (started main_addr tv timer_scratch h0) k m →
    timer_state id scr (u64 (load64 (hmem h0) CLINT_MTIME + (Z.of_nat k + 1) * interval)) m) as Hinv.
  { clear k m Hk. induction 1 as [m Hc Hx|k m m' _ IH Hc Hx|k m m' _ IH Hw Hm Hrun]; [|by eapply timer_state_agree|].
    - assert (∀ a, in_range scr 40 a ∧ in_range scr 40 (a + 7) ∨ a = CLINT_MTIMECMP id → load64 (mmem m) a = load64 (hmem (started main_addr tv timer_scratch h0)) a) as Hl.
      { intros a Ha. apply load_agree. intros x Hin. apply Hx. unfold timer_mem, in_range in *. destruct Ha as [Ha|Ha]; [right|left]; lia. }
      split; [by rewrite Hc| | |]; rewrite Hl by (unfold in_range; lia); [done|done|]. etransitivity; [exact H4|done].
    - destruct (timervec_spec id scr _ m Hw Hm Hid Hscr IH) as (m1 & E & T & _). rewrite Hrun in E. injection E as <-.
      replace (u64 (_ + (Z.of_nat (S k) + 1) * interval)) with (u64 (u64 (load64 (hmem h0) CLINT_MTIME + (Z.of_nat k + 1) * interval) + interval)); [done|].
      unfold u64. rewrite Zplus_mod_idemp_l. f_equal. lia. }
  pose proof (Hinv k m Hk) as HT. split; [apply HT|]. intros Hw Hm.
  destruct (timervec_spec id scr _ m Hw Hm Hid Hscr HT) as (m' & E & _ & Hr & Hs & Hp & Hx). exists m'. exact (conj E (conj Hr (conj Hp (conj Hs Hx)))).
Qed.
End kernel.

(** ** Examples *)

(** A handler that clobbers the registers a function need not keep and saves
    two of them on its stack. *)
Definition clobbers (_ : Z) (m : mach) : mach :=
  set_mmem (set_regs m (λ r, match r with a0 | a1 | t0 | ra => 9 | tp => 1 | _ => regs m r end))
    (store64 (store64 (mmem m) (regs m sp - 8) (regs m ra)) (regs m sp - 16) (regs m s0)).
Definition same_addr (_ a : Z) : Z := a.
Definition demo_kernel : mach := mk_mach (λ r, match r with sp => 0x3000 | a0 => 5 | ra => 6 | _ => 0 end)
  (λ c, match c with sepc => 0x80001234 | sstatus => 0x100 | _ => 0 end) 1 0 ∅.
Lemma clobbers_returns base : returns same_addr base base (clobbers 0).
Proof.
  split; intros; try split; try reflexivity. unfold clobbers. cbn [mmem set_mmem set_regs]. unfold in_range in *.
  rewrite !load8_store_ne by (unfold in_range; change (Z.of_nat 8) with 8; lia). reflexivity.
Qed.
Lemma kernelvec_transparent_witness : ∃ m', run same_addr clobbers (kernelvec 0) demo_kernel = Some m' ∧
  regs m' a0 = 5 ∧ regs m' ra = 6 ∧ regs m' sp = 0x3000 ∧ m_pc m' = 0x80001234.
Proof.
  destruct (kernelvec_transparent same_addr clobbers 0 demo_kernel 0x2f00) as (mc & m' & E & _ & _ & Hr & Hpc & _).
  - intros []; vm_compute; split; congruence.
  - intros o Ho. unfold vaddr, same_addr. change (u64 (regs demo_kernel sp - 256)) with 0x2f00. rewrite u64_small by lia. reflexivity.
  - apply clobbers_returns.
  - reflexivity.
  - exists m'. split; [exact E|]. split; [apply (Hr a0); discriminate|]. split; [apply (Hr ra); discriminate|].
    split; [apply (Hr sp); discriminate|exact Hpc].
Defined.

#[local] Instance demo_hart : Hart.
Proof. refine {| sstatus_mask := 0x122; deleg_mask := 0x222 |}; [reflexivity|split_and!; reflexivity]. Defined.
Definition demo_reset : Boot.hart := mk_hart 0 (Z.shiftl 3 11) 0 0 0 0 0 0 0 0 0 0 3 0x80000000 ∅.
Definition demo_started : Boot.hart := started 0x80000f2a 0x80005ba0 0x80009000 demo_reset.
Definition demo_interrupted : mach := mk_mach (λ _, 3) (<[mscratch := Boot.mscratch demo_started]> (λ _, 0)) 3 0 (hmem demo_started).
Lemma timer_goes_on_witness : ∃ m', run same_addr clobbers timervec demo_interrupted = Some m' ∧ regs m' a1 = 3 ∧ csrs m' sip = 2.
Proof.
  destruct (timer_goes_on same_addr clobbers 0x80000f2a 0x80005ba0 0x80009000 demo_reset demo_started 0 demo_interrupted) as (_ & H).
  - vm_compute. split; [discriminate|reflexivity].
  - vm_compute. discriminate.
  - vm_compute. reflexivity.
  - apply start_eq.
  - apply ticked_start; [reflexivity|]. intros x _. reflexivity.
  - destruct H as (m' & E & Hr & _ & Hs & _).
    + intros r. vm_compute. split; congruence.
    + reflexivity.
    + exists m'. split; [exact E|]. split; [exact (Hr a1)|exact Hs].
Defined.
